(* ===== verification/_CoqProject ===== *)
-Q . S2P
Prelude.v
Memory.v
Wp.v
Chix.v
ChixInv.v
ChixCore.v
ChixEdit.v
ChixSearch.v
ChixParse.v
ChixClient.v
ChixTheorems.v
Rlist.v
Str.v
Html.v
Numbers.v
CmlLists.v
Table.v
ItemRange.v
Vartab.v
CmlState.v
CmlScan.v
CmlLoad.v
CmlParse.v
CmlProg.v
CmlEval.v
CmlInv.v
CmlTerm.v
CmlLoops.v
CmlFiles.v
CmlTheorems.v
FormData.v
FormMulti.v
GroupCache.v
Groups.v
Units.v
UnitLock.v
UnitName.v
LockRuns.v
Base64.v
TagFilter.v
Arrays.v
ArrayCells.v
ArrayFiles.v
ArrayCache.v
Objects.v
ObjectFiles.v
ObjectShare.v
ObjectLock.v
GroupFiles.v
FileLines.v
NameFiles.v
NameSearch.v
TextParts.v
TextBuf.v
TextBounds.v
TextUpdate.v
TextLayout.v
TextRead.v
