(* ===== verification/Prelude.v ===== *)
(** * Verification of Caucus

    Caucus is a conferencing server written in C (src/CV2).  Its text manager
    keeps conferences of items and responses in a data base; its web server
    interprets pages in CML, a macro language, for every user.  Both are
    written on one string library, chix.

    ** The program's parts and the files that model them

    The string library (src/CV2/chx) and its memory manager (src/CV2/sys1:
    sysmem.c, sysfree.c).  Every other part keeps its texts in Chix, pointers
    to a record with a byte buffer that grows in place.
    - Memory: the heap ([st]: records [chix_t] and byte blocks by address,
      the statics of the library, the error log, the bytes handed out), the
      effects of a call ([outcome]: return, exit, undefined behaviour, fuel
      exhausted), the monad [M], loads, stores and loops.
    - Wp: weakest preconditions for [M], and the tactics of the proofs.
    - Chix: constants, guards, errors (chxerror.c), allocation (chxalloc.c,
      chxfree.c, chxmem.c), length and storage (chxlen.c, chxclear.c,
      chxresiz.c, chxcapc.c), concatenation and characters (chxcat.c,
      chxcatsu.c, chxcatv.c, chxcpy.c, chxconc.c, chxalsub.c, chxvalue.c,
      chxsetva.c, chxtrunc.c, chxtrim.c, chxchomp.c, chxofasc.c ...).
    - ChixInv: the invariant [wf σ m]: the heap [σ] represents the map [m]
      from live Chix to texts.
    - ChixCore, ChixEdit: the rule of each of these operations.
    - ChixSearch: chxscan.c, chxindex.c, chxrevde.c, chxsubeq.c, chxeq.c,
      chxeqf.c, chxabr.c, chxcolla.c, chxcompa.c, chxbreak.c, chxalter.c,
      chxrepla.c, chxrepva.c, with their rules.
    - ChixParse: chxspec.c, chxblank.c, chxint4.c, chxnum.c, chxtoken.c,
      chxnextw.c, chxnextl.c, chxquick.c, chxsimp.c, chxinit.c, ascofchx.c,
      with their rules.
    - ChixClient: programs of library calls and their meaning on plain texts.
    - ChixTheorems: what the library guarantees to its callers.

    Lists of ranges of items and responses (src/CV2/api: amakrlis.c, addtorl.c,
    andrlist.c, orrlist.c, rlall.c, rlofsele.c, rbound.c, oneresp.c): Rlist.

    C string helpers (src/CV2/str) and the sequence numbers of transactions
    (src/CV2/xaction: greater.c, incremen.c): Str.

    Functions of the CML interpreter (src/CV2/sweb).
    - Html: encodings for the web (urlEncode.c, cencode.c, funcxmlesc.c,
      funct2hbr.c, funct2esc.c, funcescq.c, funcescs.c, quoter.c,
      commalist.c, itemtuplet.c, strnamva.c).
    - Numbers: printing and reading lists of numbers, shared by the others.
    - CmlLists: bit functions, the stack, sorting, parentheses (funcbit.c,
      funcstack.c, numsort.c, tripsort.c, pullparens.c).
    - ItemRange: item ranges such as 1-5, 7 (itpack.c, itparse.c), on Rlist.

    - Base64: the encoder and decoder of base 64 (encode64.c).
    - TagFilter: the filters that let users write HTML (nexttag.c, fixhref.c,
      funcrhtml.c, funcchtml.c).

    Tables of words (src/CV2/glyph: tablefin.c, tablepart.c, tablemat.c): Table.

    The CML interpreter (src/CV2/sweb), which turns a page into HTML.
    - Vartab: tables of variables (src/CV2/api: amakvart.c, vartis.c,
      vartfind.c, vartadd.c), the protection stack (prot.c).
    - CmlState: the state of the interpreter ([cml]: tables of variables,
      macros and files, the protection stack, the depth of calls, the output)
      and what it asks of the rest of the server (class [cml_env]); the
      functions that only compute with their argument (funcstr.c ...).
    - CmlScan: evaluation of a line: funcscan.c, funcvalue.c, funcmac.c,
      macexpand.c, macdefine.c.
    - CmlLoad: files: readcml.c, loadcml.c, glyph/chxinsid.c.
    - CmlParse: statements: parsecml.c, skipcml.c, ishtml.c, clean.c,
      include.c; [interp] ties the functions of all of these together.
    - CmlProg: programs as trees of nested blocks, how they are laid out in
      lines, and their reference interpreter [run].
    - CmlEval, CmlInv, CmlTerm, CmlLoops, CmlFiles: lemmas on what evaluation
      gives, what it leaves as it was, when it ends, loops, and files.
    - CmlTheorems: the properties of the interpreter.

    Arrays of CML (src/CV2/sweb/funcar.c), which pages use as tables.
    - Arrays: the functions on arrays, the fifty that are in memory and the
      files of the others.
    - ArrayCells: cells by their coordinates, and inserting and removing rows.
    - ArrayFiles: storing and loading.
    - ArrayCache: memory and files as one map of names to arrays, and what the
      functions do at their bounds.

    Objects of CML (src/CV2/obj, src/CV2/sweb: obnew.c, obvalue.c, obset.c,
    funcob.c), which pages keep in files and all processes share.
    - Objects: objects, their table in a process, references, the functions.
    - ObjectFiles: storing and loading, when classes change.
    - ObjectShare: several processes, and where the code fails.
    - ObjectLock: locks of objects (src/CV2/sys1/sysoblock.c).

    Data of HTML forms (src/CV2/sweb), which pages read with $form().
    - FormData: values of fields (formsing.c).
    - FormMulti: the way of the data from the browser through swebsock.c, the
      lines (readflin.c), multipart forms with uploaded files (formmult.c,
      formtemp.c), and the whole of readform.c.

    Access to conferences (src/CV2/sweb), which the functions that show or
    change items ask for.
    - GroupCache: the cache of access levels (groupaccess.c).
    - Groups: the tables of groups and of their rules, and how they are made
      again after a change (groupupdate.c, funcpriv.c).
    - GroupFiles: files of userids that include one another (src/CV2/conf:
      groupmat.c, src/CV2/people: equalid.c).

    The files of the data base (src/CV2/unit).
    - Units: the codes of files, which of them are locked (unitglob.c), and the
      name of each (unitname.c).
    - UnitLock: semaphores in lockmap files and what a process keeps of them
      (unitlock.c, unitlkfx.c, unitunlk.c, unitwipe.c); the record locks of
      the operating system are the interface [record_locks], with its laws.
    - UnitName: which files have the same semaphore.
    - LockRuns: processes that lock, wait and unlock in any order.

    Texts in the data base.  An item is kept in part files; a list of people,
    titles or subjects too, in order.
    - FileLines: lines as they are written and read, and words of a line,
      shared by both.
    - NameFiles: files of names (src/CV2/people: modnames.c, stornpar.c,
      loadnpar.c, loadnmdi.c, stornmdi.c, initnmdi.c, whatnm.c, nameinse.c, and
      the lists of nladd.c, nlcat.c, nlcopy.c, nlpunct.c).
    - NameSearch: searching them (matchnl.c, matchnam.c, nlrdup.c, nlsize.c).
    - TextParts: text buffers, part files and their directory (src/CV2/resp:
      loadtext.c, storetex.c, partnum.c, getline.c; src/CV2/sys2: syspdir.c;
      src/CV2/db: updatepa.c, isempty.c; attachments from src/CV2/attach).
    - TextBuf, TextBounds: loading and storing, and that a buffer is well
      formed.
    - TextUpdate, TextLayout: what [updatepart] does to a buffer, and to an
      item as a list of responses.
    - TextRead: reading lines ([getline2]), and where the code fails.

    ** How the code is modelled

    Three levels of detail, by what the code does.
    - The string library works on the heap.  Its functions are in [M], with
      the aliasing of their arguments, the guards in the order of the code, the
      errors they log, and undefined behaviour for an access outside a block
      or through a freed pointer.
    - Functions on C strings that write (strconc, stralter, strunescape ...)
      work on a flat memory, a list of bytes in which a pointer is an index.
    - Functions of the interpreter take the text of a Chix argument and give
      the text they append to their result; a library call in them is the
      function on texts that the rule of that call in ChixEdit, ChixSearch or
      ChixParse gives ([cval], [replace_all], [token_result], [int4_result]
      ...).  State that outlives a call (the stack) is passed explicitly.

    The functions of the CML interpreter call each other: a line is scanned
    for functions, a function scans its argument, a macro its text, an
    included file is interpreted with everything.  Each function is defined
    over a record of the functions it calls ([calls]), and [interp n] is the
    record in which calls nest at most [n] deep.  [None] is a nesting deeper
    than [n], or undefined behaviour of the code (an access outside an array,
    a variable that was not set).  The CML functions that are not modelled,
    the object tables, files and directories are the class [cml_env], with
    their documented behaviour in [cml_laws]; the properties hold for every
    instance, and their witnesses use a concrete one.

    The data of a form is a list of bytes, and what is done with its temporary
    files a trace of events; the data base of groups is three lists of rows,
    on which a query does what its text says.  There too [None] is undefined
    behaviour, such as a name longer than its buffer.

    A file of the data base is a list of lines, as [unit_read] gives them; a
    set of part files is a finite map from their numbers.  That a process runs
    between others shows in LockRuns, where calls are steps of a relation on
    all processes and the lock table; the files of names and texts are changed
    under such a lock, and are modelled as one process sees them.

    An [int] or [int4] is a [Z] with [i32] where the code can overflow, a
    [short] uses [i16], bytes are taken modulo 256.  Signed arithmetic that
    wraps is thus given the usual result of the machine; theorems state the
    bounds under which nothing wraps, where it matters.

    ** What the theorems show

    - Refinement.  [client_refines]: the string library refines operations on
      plain lists of characters, for arbitrary sequences of calls.
      [parse_cml_refines], [include_runs_program]: the interpreter, which skips
      and jumps over numbered lines, does on the lines of a program what the
      reference interpreter does on the tree, and so does a program in an
      included file.  [updatepart_refines], [update_then_read]: part files
      refine the item as a list of its responses, however they are split, and
      the lines that are read are those.  [arrays_refine_map]: arrays in memory
      and in files refine a map from names to arrays.  [processes_share]: the
      objects of several processes refine copies of what is in the files, in
      which each member has the value that was written last, as long as
      operations run whole and a class keeps its members.  [modnames_changes]:
      sorted part files refine a multiset of names.  [vartab_implements_map]: tables of variables
      are finite maps.
    - Invariants, safety, liveness.  [interp_keeps]: every evaluation restores
      what it changes for its own use, and keeps tables and stacks inside their
      arrays.  [group_update_propagates], [group_access_recent]: a change of the
      rules of a group reaches all groups that depend on it, and the cache gives
      no answer older than its lifetime to questions with names without dots.
      [locks_exclude], [waiting_ends], [lock_map_injective],
      [ob_lock_exclusive]: locks of one code exclude each other while nothing
      makes a process close the lockmap file, a process that waits gets its
      lock, and exactly which files share a semaphore (some do).  [loadtext_well_formed]: a
      text buffer stays within its arrays.
    - What calls give.  [matchnames_and], [groupmatch_reaches]: searching names
      and groups files.  [multipart_reads_items], [form_reads_fields],
      [read_fline_lossless]: forms, from the browser to the table and to files.
      [base64_roundtrip], [rhtml_keeps_document], [escapes_neutralise]:
      encodings and filters.  [variable_in_line], [func_scan_replaces_call],
      [func_mac_replaces_call], [for_visits_values], [escaped_text_is_itself]: a
      variable, a call, a macro, loops, and that protected text is itself.
      [rows_move], [array_store_load], [store_obj_load]: rows of
      arrays, and the files of arrays and objects.  [loadcml_reads_lines], [locate_highest]: files
      are read back as lines, from the highest version there.
      [chxreplace_all], [chxtoken_word]: replacement and words.  [scan_ends_unless_call]: a scan ends
      when the calls in it do.
    - Where the code fails.  [macro_never_ends], [stornpart_split], and the
      examples at the end of NameSearch, GroupFiles, TextRead, ArrayCache,
      ObjectShare, ObjectLock, GroupCache, UnitName, LockRuns, TagFilter and
      FormMulti.  A property that such a case would break has the condition
      that excludes it in its statement and in its comment.
    - Each component file has further theorems on its operations: order and
      comparison of strings, null arguments, freed strings, sorting, stacks,
      locks and groups that are not as they should be, packing and parsing of item ranges, intersection of Rlists, loops that
      count, table lookup, string helpers.

    ** Loops and fuel

    Loops that are not structural have fuel, computed by the definition
    itself from the length of what it scans (in [M], from the bytes between
    the pointer and the end of its block): each turn moves on by a byte or
    ends the loop, so the fuel is enough, and the theorems state that the
    call returns ([wp] excludes [NoFuel]; elsewhere the results are [Some]).
    [or_rlist] has the distance from its lowest to its highest item as fuel.
    The loops of forms have the bytes left to read as fuel: every call of
    [read_fline] but the last takes one.  A scan of a line needs twice its
    length ([scan_fuel]), because a name that is no function is read again as
    text; [scan_ends_unless_call] shows that it is enough.  The nesting of
    calls [n] is the only fuel left open, since [macro_never_ends] shows that
    no nesting is enough for every page.
    [group_update] visits each group once, so that the number of rules and two
    is enough fuel.
    The scanner of tags and its filter have three and two turns more than the
    bytes of the text, base 64 one more than the bytes of the stream (each turn
    reads one).  [groupmatch] nests one deeper than there are files at most,
    since a file is in the history while the files that it includes are
    searched.  The loop of [modnames] takes one name of its two lists each
    turn; a binary search has the number of lines, which halves; the lines of a
    text are at most its bytes and one.  The loops of [$cell] and [$cells] have
    the bytes of the references, and the distance of the two cells, and one.

    ** What is not modelled, and why

    - Wide (two-byte) strings and the Japanese converters: include/chixuse.h
      fixes USE_THIN_CHIX, and no wide string is ever made.
    - File and socket input and output, ODBC, processes: they are calls of the
      operating system.  What is in a file, and which locks there are, is part
      of the models of the components that use it; that a disk is full or a
      file cannot be made is not.  The indexes that [it_parse] asks the text
      manager for are an interface, [item_index].
    - The CML functions outside the list above (they query the data base, the
      dictionary or the system), and convert_and_write: members of [cml_env].
    - An operation of a process that runs between the loading and the storing of
      an object by another one (an example shows what is lost then).
    - What [$array_eval] gives, which evaluates the text of a cell: a parameter
      of [func_ar].
    - A user who cancels a search of names, and memory that runs out outside
      the string library.
    - Attachments in the refinement of part files (the definitions have them),
      the links between hosts (C_LINK is 0), and freezing an item, which
      [syspdir_short] shows is never reached.
    - The formatter chxforma.c (variable argument lists) and debugging aids.
    - The text manager above the part files (src/CV2/api, chg, subj, xaction and
      most of db, gen, resp): prompts and sequences of calls of the data base.
    - Vendored programs (metamail, openldap, md5).

    This file: machine integers, C arrays, and the lemmas and tactics on them
    that every other file uses. *)
From stdpp Require Export base list gmap strings.
From Stdlib Require Export ZArith Lia.

Global Open Scope Z_scope.

(** ** Machine integers

    [int4] is a 32-bit signed [int] (src/CV2/include/int4.h); a conversion to
    [unsigned] is taken modulo [2^32], a conversion to [short] modulo [2^16],
    and a store through a [uchar *] modulo [2^8]. *)
Definition i32 (z : Z) : Z := (z + 2 ^ 31) `mod` 2 ^ 32 - 2 ^ 31.
Definition u32 (z : Z) : Z := z `mod` 2 ^ 32.
Definition i16 (z : Z) : Z := (z + 2 ^ 15) `mod` 2 ^ 16 - 2 ^ 15.

Definition is_byte (b : Z) : Prop := 0 <= b < 256.
Definition is_char (b : Z) : Prop := 0 < b < 256.

#[export] Instance is_byte_dec b : Decision (is_byte b).
Proof. unfold is_byte. apply _. Defined.
#[export] Instance is_char_dec b : Decision (is_char b).
Proof. unfold is_char. apply _. Defined.

Definition len {A} (l : list A) : Z := Z.of_nat (length l).

(** ** C arrays and strings *)

(** [l[i]] with a C index: out of range, or negative, is no value. *)
Definition zget {A} (l : list A) (i : Z) : option A :=
  if i <? 0 then None else l !! Z.to_nat i.

(** [l[i] = v]: [None] when the store is out of range. *)
Definition zset {A} (l : list A) (i : Z) (v : A) : option (list A) :=
  if (i <? 0) || (len l <=? i) then None else Some (<[Z.to_nat i := v]> l).

(** The C string held at the front of a byte array. *)
Fixpoint cstr (l : list Z) : list Z :=
  match l with
  | [] => []
  | b :: l' => if b =? 0 then [] else b :: cstr l'
  end.

(** A byte string without its terminator, such as a C string literal. *)
Fixpoint bytes (s : string) : list Z :=
  match s with
  | EmptyString => []
  | String a s' => Z.of_N (Ascii.N_of_ascii a) :: bytes s'
  end.

Definition zeros (n : Z) : list Z := replicate (Z.to_nat n) 0.

(** ** Lemmas on machine integers *)

Lemma i32_small z : - 2 ^ 31 <= z < 2 ^ 31 -> i32 z = z.
Proof. intros H. unfold i32. rewrite Z.mod_small; lia. Qed.

Lemma i32_range z : - 2 ^ 31 <= i32 z < 2 ^ 31.
Proof. unfold i32. pose proof (Z.mod_pos_bound (z + 2 ^ 31) (2 ^ 32)). lia. Qed.

Lemma u32_small z : 0 <= z < 2 ^ 32 -> u32 z = z.
Proof. intros H. unfold u32. apply Z.mod_small. lia. Qed.

Lemma i16_small z : - 2 ^ 15 <= z < 2 ^ 15 -> i16 z = z.
Proof. intros H. unfold i16. rewrite Z.mod_small; lia. Qed.

Lemma i16_range z : - 2 ^ 15 <= i16 z < 2 ^ 15.
Proof. unfold i16. pose proof (Z.mod_pos_bound (z + 2 ^ 15) (2 ^ 16)). lia. Qed.

(** The size computed for a buffer of [m + 1] characters survives the two
    roundings of [chxmem] and [sysmem], even where [m + 1] overflows. *)
Lemma buffer_size m : 0 <= m < 2 ^ 31 -> u32 (i32 (i32 (m + 1) + 2)) = m + 3.
Proof.
  intros H. destruct (decide (m = 2 ^ 31 - 1)) as [-> | Hm]; [reflexivity |].
  rewrite (i32_small (m + 1)) by lia. unfold u32, i32.
  rewrite Zminus_mod, Zmod_mod, <- Zminus_mod.
  rewrite Z.mod_small; lia.
Qed.

Lemma land_255 v : Z.land v 255 = v `mod` 256.
Proof. change 255 with (Z.ones 8). apply Z.land_ones. lia. Qed.

Lemma land_255_byte v : is_byte (Z.land v 255).
Proof. rewrite land_255. unfold is_byte. pose proof (Z.mod_pos_bound v 256). lia. Qed.

Lemma land_255_id v : is_byte v -> Z.land v 255 = v.
Proof. rewrite land_255. intros H. apply Z.mod_small. exact H. Qed.

(** ** Lemmas on arrays and strings *)

Lemma len_nil {A} : len (@nil A) = 0.
Proof. done. Qed.
Lemma len_cons {A} (x : A) l : len (x :: l) = len l + 1.
Proof. unfold len. simpl. lia. Qed.
Lemma len_app {A} (l k : list A) : len (l ++ k) = len l + len k.
Proof. unfold len. rewrite length_app. lia. Qed.
Lemma len_nonneg {A} (l : list A) : 0 <= len l.
Proof. unfold len. lia. Qed.
Lemma len_take {A} n (l : list A) : len (take n l) = Z.min (Z.of_nat n) (len l).
Proof. unfold len. rewrite length_take. lia. Qed.
Lemma len_drop {A} n (l : list A) : len (drop n l) = Z.max 0 (len l - Z.of_nat n).
Proof. unfold len. rewrite length_drop. lia. Qed.
Lemma len_insert {A} i x (l : list A) : len (<[i := x]> l) = len l.
Proof. unfold len. by rewrite length_insert. Qed.
Lemma len_zeros n : 0 <= n -> len (zeros n) = n.
Proof. intros H. unfold len, zeros. rewrite length_replicate. lia. Qed.
Lemma to_nat_len {A} (l : list A) : Z.to_nat (len l) = length l.
Proof. unfold len. lia. Qed.

Create Rewrite HintDb len.
#[export] Hint Rewrite @len_nil @len_cons @len_app @len_take @len_drop @len_insert : len.

(** Decide arithmetic goals about lengths. *)
Ltac len_pos :=
  repeat match goal with
  | |- context [len ?l] => lazymatch goal with
      | _ : 0 <= len l |- _ => fail | _ => pose proof (len_nonneg l) end
  | _ : context [len ?l] |- _ => lazymatch goal with
      | _ : 0 <= len l |- _ => fail | _ => pose proof (len_nonneg l) end
  end.
Ltac zlen := autorewrite with len in *; len_pos; lia.

Lemma zeros_bytes n : Forall is_byte (zeros n).
Proof. apply Forall_replicate. unfold is_byte. lia. Qed.

Lemma zeros_split n : 0 < n -> zeros n = 0 :: zeros (n - 1).
Proof.
  intros H. unfold zeros. replace (Z.to_nat n) with (S (Z.to_nat (n - 1))) by lia. done.
Qed.

Lemma drop_len_app {A} (l k : list A) : drop (Z.to_nat (len l)) (l ++ k) = k.
Proof. rewrite to_nat_len. apply drop_app_length. Qed.

Lemma app_cons_assoc {A} (u : list A) c t : u ++ c :: t = (u ++ [c]) ++ t.
Proof. by rewrite <- app_assoc. Qed.

Lemma insert_len_app {A} (l : list A) x y k :
  <[Z.to_nat (len l) := x]> (l ++ y :: k) = l ++ x :: k.
Proof. rewrite to_nat_len. rewrite insert_app_r_alt by lia. by rewrite Nat.sub_diag. Qed.

Lemma is_char_byte b : is_char b -> is_byte b.
Proof. unfold is_char, is_byte. lia. Qed.
Lemma chars_bytes s : Forall is_char s -> Forall is_byte s.
Proof. intros H. eapply Forall_impl; [exact H |]. apply is_char_byte. Qed.

Lemma cstr_app s t : Forall is_char s -> cstr (s ++ 0 :: t) = s.
Proof.
  induction 1 as [| b s Hb Hs IH]; simpl; [done |].
  unfold is_char in Hb. replace (b =? 0) with false by lia. by rewrite IH.
Qed.
