(* ===== verification/Memory.v ===== *)
(** The C memory the chix library works on, the effects its functions have,
    and the memory manager underneath it (sys1/sysmem.c, sys1/sysfree.c,
    chx/chxmem.c, chx/chxerror.c). *)
From S2P Require Import Prelude.

(** ** Addresses, records and the store *)

Abbreviation loc := positive (only parsing).

(** [Chix] is a pointer to a [struct chix_t]; [None] is [nullchix]. *)
Abbreviation Chix := (option positive) (only parsing).

(** A [uchar *]: an offset into a heap block, or into a string literal. *)
Inductive ptr : Type :=
| PBlk (b : loc) (o : Z)
| PLit (s : list Z) (o : Z).

Definition padd (q : ptr) (k : Z) : ptr :=
  match q with PBlk b o => PBlk b (o + k) | PLit s o => PLit s (o + k) end.

(** [struct chix_t] (include/chixuse.h). *)
Record chix_t := mkChix {
  ischix : Z; cname : list Z; maxlen : Z; cp : option loc;
  actlen : Z; dic : Z; resize : Z; ctype : Z }.

Definition set_name (c : chix_t) v := mkChix (ischix c) v (maxlen c) (cp c) (actlen c) (dic c) (resize c) (ctype c).
Definition set_ischix (c : chix_t) v := mkChix v (cname c) (maxlen c) (cp c) (actlen c) (dic c) (resize c) (ctype c).
Definition set_maxlen (c : chix_t) v := mkChix (ischix c) (cname c) v (cp c) (actlen c) (dic c) (resize c) (ctype c).
Definition set_p (c : chix_t) v := mkChix (ischix c) (cname c) (maxlen c) v (actlen c) (dic c) (resize c) (ctype c).
Definition set_actlen (c : chix_t) v := mkChix (ischix c) (cname c) (maxlen c) (cp c) v (dic c) (resize c) (ctype c).
Definition set_dic (c : chix_t) v := mkChix (ischix c) (cname c) (maxlen c) (cp c) (actlen c) v (resize c) (ctype c).
Definition set_resize (c : chix_t) v := mkChix (ischix c) (cname c) (maxlen c) (cp c) (actlen c) (dic c) v (ctype c).
Definition set_type (c : chix_t) v := mkChix (ischix c) (cname c) (maxlen c) (cp c) (actlen c) (dic c) (resize c) v.

(** A collation rule ([struct rule_t], include/chixdef.h), without its link. *)
Record rule_t := mkRule { rule_a : Z; rule_b : Z; rule_c : Z; rule_i : Z }.

(** The static [blanklist]/[blanktab] pair that chxblank, chxint4, chxtoken
    and chxnextword each keep; [None] while [blanklist == NULL]. *)
Record blanks_t := mkBlanks { blanklist : list Z; blanktab : list Z }.

(** The function-local statics of the library. *)
Record statics := mkStatics {
  sc_blanks : Chix;                    (* chxspecial: blanks *)
  ctab : list Chix;                    (* chxquick: ctab[10] *)
  rules : list rule_t;                 (* chxcollate: list after head *)
  bt_blank : option blanks_t;          (* chxblank *)
  bt_int4 : option blanks_t;           (* chxint4 *)
  bt_token : option blanks_t;          (* chxtoken *)
  bt_nextword : option blanks_t }.     (* chxnextword *)

(** What [chxerror] writes to the log file. *)
Inductive logmsg : Type :=
| L_NORESV (s1 : string)
| L_LOMEM (s1 : string) (s2 : list Z)
| L_NOMEM (s1 : string)
| L_NULL (s1 : string)
| L_FREED (s1 : string) (s2 : list Z)
| L_NOTCHX (s1 : string)
| L_RESIZE (s2 : list Z)
| L_NOEND (s2 : list Z)
| L_SELF (s2 : list Z)
| L_UNKNOWN (code : Z) (s2 : list Z)
| L_BUG (s1 : string).

(** The store.  Blocks of bytes and chix structures have their own
    addresses; [fresh_loc] is above all of them.  [memused] counts the bytes
    handed out by [calloc], [first_call] and [reserved] are chxmem's statics. *)
Record st := mkSt {
  chixs : gmap loc chix_t;
  blocks : gmap loc (list Z);
  fresh_loc : loc;
  memused : Z;
  first_call : bool;
  reserved : Z;
  elog : list logmsg;
  stat : statics }.

Definition set_chixs (σ : st) v := mkSt v (blocks σ) (fresh_loc σ) (memused σ) (first_call σ) (reserved σ) (elog σ) (stat σ).
Definition set_blocks (σ : st) v := mkSt (chixs σ) v (fresh_loc σ) (memused σ) (first_call σ) (reserved σ) (elog σ) (stat σ).
Definition set_mm (σ : st) n f r := mkSt (chixs σ) (blocks σ) (fresh_loc σ) n f r (elog σ) (stat σ).
Definition set_elog (σ : st) v := mkSt (chixs σ) (blocks σ) (fresh_loc σ) (memused σ) (first_call σ) (reserved σ) v (stat σ).
Definition set_stat (σ : st) v := mkSt (chixs σ) (blocks σ) (fresh_loc σ) (memused σ) (first_call σ) (reserved σ) (elog σ) v.

(** The process: the bytes [calloc] can hand out ([None]: it never fails), and
    the global [debug]. *)
Record env := mkEnv { limit : option Z; debug : bool }.

(** ** Effects

    A call returns, ends the process ([exit]), has undefined behaviour (an
    access outside a block, through a null or freed pointer, a double free),
    or exhausts the fuel of a loop; the last two are what the theorems
    exclude. *)
Inductive outcome (A : Type) : Type :=
| Ret (a : A) (σ : st)
| Exit (σ : st)
| Undef
| NoFuel.
Arguments Ret {A}. Arguments Exit {A}. Arguments Undef {A}. Arguments NoFuel {A}.

Definition M (A : Type) : Type := env -> st -> outcome A.

#[export] Instance M_ret : MRet M := fun A a _ σ => Ret a σ.
#[export] Instance M_bind : MBind M := fun A B k m e σ =>
  match m e σ with
  | Ret a σ' => k a e σ'
  | Exit σ' => Exit σ'
  | Undef => Undef
  | NoFuel => NoFuel
  end.

Definition undef {A} : M A := fun _ _ => Undef.
Definition nofuel {A} : M A := fun _ _ => NoFuel.
Definition exit0 {A} : M A := fun _ σ => Exit σ.
Definition gets {A} (f : st -> A) : M A := fun _ σ => Ret (f σ) σ.
Definition modify (f : st -> st) : M unit := fun _ σ => Ret tt (f σ).
Definition asks {A} (f : env -> A) : M A := fun e σ => Ret (f e) σ.
Definition when (b : bool) (m : M unit) : M unit := if b then m else mret tt.

(** A C loop.  The body either goes round again with new loop variables
    ([inl]) or leaves the loop ([inr]). *)
Fixpoint loop {S A} (fuel : nat) (body : S -> M (S + A)) (s : S) : M A :=
  match fuel with
  | O => nofuel
  | Datatypes.S f =>
      r ← body s;
      match r with inl s' => loop f body s' | inr a => mret a end
  end.

(** ** Loads and stores *)

(** The bytes readable from a pointer onwards. *)
Definition view (bs : gmap loc (list Z)) (q : ptr) : option (list Z) :=
  match q with
  | PBlk b o =>
      if o <? 0 then None else
      match bs !! b with Some buf => Some (drop (Z.to_nat o) buf) | None => None end
  | PLit s o => if o <? 0 then None else Some (drop (Z.to_nat o) (s ++ [0]))
  end.

(** [*q] *)
Definition ldb (q : ptr) : M Z := fun _ σ =>
  match view (blocks σ) q with
  | Some (v :: _) => Ret v σ
  | _ => Undef
  end.

(** [*q = v] *)
Definition stb (q : ptr) (v : Z) : M unit := fun _ σ =>
  match q with
  | PBlk b o =>
      match blocks σ !! b with
      | Some buf =>
          match zset buf o v with
          | Some buf' => Ret tt (set_blocks σ (<[b := buf']> (blocks σ)))
          | None => Undef
          end
      | None => Undef
      end
  | PLit _ _ => Undef
  end.

(** The number of bytes readable from a pointer: bounds every scan. *)
Definition room (q : ptr) : M nat := gets (fun σ => from_option length 0%nat (view (blocks σ) q)).

(** [*x], for reading a field. *)
Definition ld (x : Chix) : M chix_t := fun _ σ =>
  match x with
  | Some l => match chixs σ !! l with Some c => Ret c σ | None => Undef end
  | None => Undef
  end.

(** [x->field = ...] *)
Definition setf (x : Chix) (f : chix_t -> chix_t) : M unit := fun _ σ =>
  match x with
  | Some l =>
      match chixs σ !! l with
      | Some c => Ret tt (set_chixs σ (<[l := f c]> (chixs σ)))
      | None => Undef
      end
  | None => Undef
  end.

(** [x->p + k] *)
Definition at_p (c : chix_t) (k : Z) : M ptr :=
  match cp c with Some b => mret (PBlk b k) | None => undef end.

(** ** Errors (chx/chxerror.c)

    [CXE_SELF] has no [break], so it is also reported as unknown. *)
Inductive cxe := CXE_NORESV | CXE_NULL | CXE_FREED | CXE_NOTCHX | CXE_LOMEM
               | CXE_NOMEM | CXE_RESIZE | CXE_NOEND | CXE_SELF | CXE_NOERROR.

Definition cxe_code (c : cxe) : Z :=
  match c with
  | CXE_NOERROR => 0 | CXE_NORESV => 1 | CXE_NULL => 2 | CXE_FREED => 3
  | CXE_NOTCHX => 4 | CXE_LOMEM => 5 | CXE_NOMEM => 6 | CXE_RESIZE => 7
  | CXE_NOEND => 8 | CXE_SELF => 9
  end.

Definition logger (m : logmsg) : M unit := modify (fun σ => set_elog σ (elog σ ++ [m])).

Definition chxerror (error : cxe) (s1 : string) (s2 : list Z) : M Z :=
  match error with
  | CXE_NORESV => logger (L_NORESV s1);; exit0
  | CXE_LOMEM => logger (L_LOMEM s1 s2);; mret 1
  | CXE_NOMEM => logger (L_NOMEM s1);; exit0
  | CXE_NULL => logger (L_NULL s1);; mret 1
  | CXE_FREED => logger (L_FREED s1 s2);; mret 1
  | CXE_NOTCHX => logger (L_NOTCHX s1);; mret 1
  | CXE_RESIZE => logger (L_RESIZE s2);; mret 1
  | CXE_NOEND => logger (L_NOEND s2);; mret 1
  | CXE_SELF =>
      logger (L_SELF s2);;
      logger (L_UNKNOWN (cxe_code error) s2);; mret 1
  | CXE_NOERROR => logger (L_UNKNOWN (cxe_code error) s2);; mret 1
  end.

(** ** Allocation (sys1/sysmem.c, sys1/sysfree.c, chx/chxmem.c) *)

(** What the caller casts the zeroed memory to: characters, a chix, or one of
    the structures that only the statics point to (a collation rule, a list of
    blanks), whose contents are in [stat]. *)
Inductive kind := KBytes | KChix | KStatic.

Definition zero_chix : chix_t := mkChix 0 [] 0 None 0 0 0 0.

(** [sysmem (b, a)]: [calloc] of two bytes more than asked for. *)
Definition sysmem (k : kind) (b : Z) : M (option loc) := fun e σ =>
  let n := u32 (i32 (b + 2)) in
  if match limit e with None => true | Some m => memused σ + n <=? m end then
    let l := fresh_loc σ in
    Ret (Some l)
      (match k with
       | KBytes => mkSt (chixs σ) (<[l := zeros n]> (blocks σ)) (l + 1)%positive
                     (memused σ + n) (first_call σ) (reserved σ) (elog σ) (stat σ)
       | KChix => mkSt (<[l := zero_chix]> (chixs σ)) (blocks σ) (l + 1)%positive
                     (memused σ + n) (first_call σ) (reserved σ) (elog σ) (stat σ)
       | KStatic => mkSt (chixs σ) (blocks σ) (l + 1)%positive
                     (memused σ + n) (first_call σ) (reserved σ) (elog σ) (stat σ)
       end)
  else Ret None σ.

Definition sizeof_chix : Z := 48.
Definition sizeof_rule : Z := 24.

(** [sysfree ((char * ) p)] on a byte block; nothing on [NULL]. *)
Definition sysfree (b : option loc) : M unit := fun _ σ =>
  match b with
  | None => Ret tt σ
  | Some l =>
      match blocks σ !! l with
      | Some buf =>
          Ret tt (mkSt (chixs σ) (delete l (blocks σ)) (fresh_loc σ)
                    (memused σ - len buf) (first_call σ) (reserved σ) (elog σ) (stat σ))
      | None => Undef
      end
  end.

(** [sysfree ((char * ) x)] on a chix structure. *)
Definition sysfree_chix (x : Chix) : M unit := fun _ σ =>
  match x with
  | None => Ret tt σ
  | Some l =>
      match chixs σ !! l with
      | Some c =>
          Ret tt (mkSt (delete l (chixs σ)) (blocks σ) (fresh_loc σ)
                    (memused σ - (sizeof_chix + 2)) (first_call σ) (reserved σ) (elog σ) (stat σ))
      | None => Undef
      end
  end.

(** [sysfree ((char * ) p)] on a structure of the statics, of [n] bytes. *)
Definition sysfree_static (n : Z) : M unit :=
  modify (fun σ => set_mm σ (memused σ - (n + 2)) (first_call σ) (reserved σ)).

(** [free (reserved)]: [reserved] holds the value of a comparison, so it is
    either null or no heap pointer at all. *)
Definition sysfree_reserved : M unit :=
  r ← gets reserved;
  if r =? 0 then mret tt else undef.

(** The first call asks for a reserve block; its address is compared with
    [NULL] before it is stored, so [reserved] receives 0 or 1. *)
Definition chxmem (k : kind) (size : Z) (strname : list Z) : M loc :=
  fc ← gets first_call;
  when fc
    (modify (fun σ => set_mm σ (memused σ) false (reserved σ));;
     r ← sysmem KBytes 4096;
     let isnull := match r with None => 1 | Some _ => 0 end in
     modify (fun σ => set_mm σ (memused σ) (first_call σ) isnull);;
     if negb (isnull =? 0) then chxerror CXE_NORESV "chxmem" [];; mret tt else mret tt);;
  r1 ← sysmem k size;
  match r1 with
  | Some l => mret l
  | None =>
      sysfree_reserved;;
      modify (fun σ => set_mm σ (memused σ) (first_call σ) 0);;
      chxerror CXE_LOMEM "chxmem" strname;;
      r2 ← sysmem k size;
      match r2 with
      | Some l => mret l
      | None => chxerror CXE_NOMEM "chxmem" [];; undef
      end
  end.
