(* ===== verification/Wp.v ===== *)
(** Weakest preconditions for the effects of [Memory], and the rules that the
    proofs of the components are driven by. *)
From S2P Require Import Prelude Memory.

(** [wp m e σ Q]: run from [σ], [m] has defined behaviour, does not run out
    of fuel, and returns with [Q]; it may instead end the process, but only
    where the process has a memory limit. *)
Definition wp {A} (m : M A) (e : env) (σ : st) (Q : A -> st -> Prop) : Prop :=
  match m e σ with
  | Ret a σ' => Q a σ'
  | Exit _ => limit e ≠ None
  | Undef | NoFuel => False
  end.

Section rules.
Context {A B : Type} (e : env) (σ : st).

Lemma wp_ret (a : A) (Q : A -> st -> Prop) : Q a σ -> wp (mret a) e σ Q.
Proof. done. Qed.

Lemma wp_bind (m : M A) (k : A -> M B) (Q : B -> st -> Prop) :
  wp m e σ (fun a σ' => wp (k a) e σ' Q) -> wp (x ← m; k x) e σ Q.
Proof. unfold wp, mbind, M_bind. by destruct (m e σ). Qed.

Lemma wp_mono (m : M A) (P Q : A -> st -> Prop) :
  wp m e σ P -> (forall a σ', P a σ' -> Q a σ') -> wp m e σ Q.
Proof. unfold wp. destruct (m e σ); naive_solver. Qed.

Lemma wp_gets (f : st -> A) (Q : A -> st -> Prop) : Q (f σ) σ -> wp (gets f) e σ Q.
Proof. done. Qed.

Lemma wp_asks (f : env -> A) (Q : A -> st -> Prop) : Q (f e) σ -> wp (asks f) e σ Q.
Proof. done. Qed.

Lemma wp_modify f (Q : unit -> st -> Prop) : Q tt (f σ) -> wp (modify f) e σ Q.
Proof. done. Qed.

Lemma wp_if (b : bool) (m1 m2 : M A) (Q : A -> st -> Prop) :
  (b = true -> wp m1 e σ Q) -> (b = false -> wp m2 e σ Q) ->
  wp (if b then m1 else m2) e σ Q.
Proof. destruct b; auto. Qed.

(** With no memory limit, a [wp] is a total specification. *)
Lemma wp_total (m : M A) (Q : A -> st -> Prop) :
  limit e = None -> wp m e σ Q -> exists a σ', m e σ = Ret a σ' /\ Q a σ'.
Proof. unfold wp. intros HL. destruct (m e σ); naive_solver. Qed.
End rules.

Lemma wp_chain {A B} (m : M A) (k : A -> M B) e σ P (Q : B -> st -> Prop) :
  wp m e σ P -> (forall a σ', P a σ' -> wp (k a) e σ' Q) -> wp (x ← m; k x) e σ Q.
Proof. intros H1 H2. apply wp_bind. by eapply wp_mono. Qed.

Lemma loop_step {S A} fuel (body : S -> M (S + A)) s :
  loop (Datatypes.S fuel) body s =
  (r ← body s; match r with inl s' => loop fuel body s' | inr a => mret a end).
Proof. done. Qed.

(** The loop rule: [I] is the invariant, and the variant [μ] decreases. *)
Lemma wp_loop {S A} (I : S -> st -> Prop) (μ : S -> st -> nat) e (body : S -> M (S + A))
    (Q : A -> st -> Prop) :
  (forall s σ, I s σ ->
     wp (body s) e σ (fun r σ' =>
       match r with
       | inl s' => I s' σ' /\ (μ s' σ' < μ s σ)%nat
       | inr a => Q a σ'
       end)) ->
  forall fuel s σ, I s σ -> (μ s σ < fuel)%nat -> wp (loop fuel body s) e σ Q.
Proof.
  intros Hbody. induction fuel as [| fuel IH]; intros s σ HI Hμ; [lia |].
  rewrite loop_step. eapply wp_chain; [by apply Hbody |].
  intros [s' | a] σ' H; [destruct H; apply IH; [done | lia] | by apply wp_ret].
Qed.

(** ** Loads and stores *)

Lemma wp_ldb e σ q v t (Q : Z -> st -> Prop) :
  view (blocks σ) q = Some (v :: t) -> Q v σ -> wp (ldb q) e σ Q.
Proof. intros H HQ. unfold wp, ldb. by rewrite H. Qed.

Lemma wp_stb e σ b o v buf (Q : unit -> st -> Prop) :
  blocks σ !! b = Some buf -> 0 <= o < len buf ->
  Q tt (set_blocks σ (<[b := <[Z.to_nat o := v]> buf]> (blocks σ))) ->
  wp (stb (PBlk b o) v) e σ Q.
Proof.
  intros H Ho HQ. unfold wp, stb, zset. rewrite H.
  replace (o <? 0) with false by lia. by replace (len buf <=? o) with false by lia.
Qed.

Lemma wp_ld e σ l c (Q : chix_t -> st -> Prop) :
  chixs σ !! l = Some c -> Q c σ -> wp (ld (Some l)) e σ Q.
Proof. intros H HQ. unfold wp, ld. by rewrite H. Qed.

Lemma wp_setf e σ l c f (Q : unit -> st -> Prop) :
  chixs σ !! l = Some c -> Q tt (set_chixs σ (<[l := f c]> (chixs σ))) ->
  wp (setf (Some l) f) e σ Q.
Proof. intros H HQ. unfold wp, setf. by rewrite H. Qed.

Lemma wp_at_p e σ c b k (Q : ptr -> st -> Prop) :
  cp c = Some b -> Q (PBlk b k) σ -> wp (at_p c k) e σ Q.
Proof. intros H HQ. unfold wp, at_p. by rewrite H. Qed.

Lemma wp_room e σ q (Q : nat -> st -> Prop) :
  Q (from_option length 0%nat (view (blocks σ) q)) σ -> wp (room q) e σ Q.
Proof. done. Qed.

Lemma wp_logger e σ m (Q : unit -> st -> Prop) :
  Q tt (set_elog σ (elog σ ++ [m])) -> wp (logger m) e σ Q.
Proof. done. Qed.

Lemma wp_sysfree e σ b buf (Q : unit -> st -> Prop) :
  blocks σ !! b = Some buf ->
  Q tt (mkSt (chixs σ) (delete b (blocks σ)) (fresh_loc σ) (memused σ - len buf)
          (first_call σ) (reserved σ) (elog σ) (stat σ)) ->
  wp (sysfree (Some b)) e σ Q.
Proof. intros H HQ. unfold wp, sysfree. by rewrite H. Qed.

Lemma wp_sysfree_chix e σ l c (Q : unit -> st -> Prop) :
  chixs σ !! l = Some c ->
  Q tt (mkSt (delete l (chixs σ)) (blocks σ) (fresh_loc σ) (memused σ - (sizeof_chix + 2))
          (first_call σ) (reserved σ) (elog σ) (stat σ)) ->
  wp (sysfree_chix (Some l)) e σ Q.
Proof. intros H HQ. unfold wp, sysfree_chix. by rewrite H. Qed.

(** Stepping through a body: binds, pure commands and conditionals whose
    outcome the context decides. *)
Ltac wstep1 :=
  lazymatch goal with
  | |- wp (mret _) _ _ _ => apply wp_ret
  | |- wp (mbind _ _) _ _ _ => apply wp_bind
  | |- wp (gets _) _ _ _ => apply wp_gets
  | |- wp (asks _) _ _ _ => apply wp_asks
  | |- wp (modify _) _ _ _ => apply wp_modify
  | |- wp (logger _) _ _ _ => apply wp_logger
  | |- wp (room _) _ _ _ => apply wp_room
  | |- wp (ld (Some _)) _ _ _ =>
      eapply wp_ld; [first [eassumption | cbn; apply lookup_insert_eq] |]
  | |- wp (setf (Some _) _) _ _ _ =>
      eapply wp_setf; [first [eassumption | cbn; apply lookup_insert_eq] |]
  | |- wp (at_p _ _) _ _ _ => eapply wp_at_p; [eassumption |]
  | |- wp (when _ _) _ _ _ => unfold when
  end.
Ltac wsteps := cbn beta iota zeta; repeat (wstep1; cbn beta iota zeta).

(** ** Views *)

Lemma view_blk bs b o buf :
  bs !! b = Some buf -> 0 <= o -> view bs (PBlk b o) = Some (drop (Z.to_nat o) buf).
Proof. intros H Ho. unfold view. rewrite H. by replace (o <? 0) with false by lia. Qed.

Lemma view_padd bs q v t : view bs q = Some (v :: t) -> view bs (padd q 1) = Some t.
Proof.
  destruct q as [b o | s o]; simpl; destruct (o <? 0) eqn:Eo; try done;
    replace (o + 1 <? 0) with false by lia;
    replace (Z.to_nat (o + 1)) with (S (Z.to_nat o)) by lia.
  - destruct (bs !! b) as [buf |]; [| done]. intros [= H].
    f_equal. rewrite <- Nat.add_1_r, <- drop_drop, H. done.
  - intros [= H]. f_equal. rewrite <- Nat.add_1_r, <- drop_drop, H. done.
Qed.

(** Where a pointer does not point into block [b], a store to [b] does not
    change what it reads. *)
Definition off_block (q : ptr) (b : loc) : Prop :=
  match q with PBlk b' _ => b' ≠ b | PLit _ _ => True end.

Lemma view_insert bs q b buf : off_block q b -> view (<[b := buf]> bs) q = view bs q.
Proof. destruct q as [b' o | s o]; simpl; [| done]. intros H. by rewrite lookup_insert_ne. Qed.

Lemma off_block_padd q b k : off_block q b -> off_block (padd q k) b.
Proof. by destruct q. Qed.

(** ** Successive updates of one part of the store *)

Lemma set_blocks_twice σ a b : set_blocks (set_blocks σ a) b = set_blocks σ b.
Proof. done. Qed.
Lemma set_chixs_twice σ a b : set_chixs (set_chixs σ a) b = set_chixs σ b.
Proof. done. Qed.
Lemma set_blocks_chixs σ a b : set_chixs (set_blocks σ a) b = set_blocks (set_chixs σ b) a.
Proof. done. Qed.
Lemma set_chixs_id σ : set_chixs σ (chixs σ) = σ.
Proof. by destruct σ. Qed.
Lemma set_blocks_id σ : set_blocks σ (blocks σ) = σ.
Proof. by destruct σ. Qed.
