(* ===== verification/Chix.v ===== *)
(** The chix library, core: the dynamically sized strings everything else in
    Caucus is written with (src/CV2/chx).  The configuration is the one the
    sources fix: [USE_THIN_CHIX] is 1, so every character is one byte. *)
From S2P Require Import Prelude Memory Wp.

(** ** Constants (include/chixuse.h, include/chixdef.h) *)
Definition THIN : Z := 1.
Definition WIDE : Z := 2.
Definition THINNEST : Z := 1.
Definition WIDEST : Z := 2.
Definition CHIX_MAGIC : Z := 0x4348583A.
Definition CHIX_FREED : Z := 0x454D543A.
Definition RESIZE_LIM : Z := 100.
Definition ALLCHARS : Z := -1000.

Definition ISCHIX (c : chix_t) : bool := ischix c =? CHIX_MAGIC.
Definition FREED (c : chix_t) : bool := ischix c =? CHIX_FREED.

(** ** Argument checks

    The checks that the functions repeat in line: any null argument, then any
    freed one (in order), then any that is no chix.  [chxcheck] is the case of
    one argument. *)
Fixpoint freed_arg (xs : list Chix) : M (option (list Z)) :=
  match xs with
  | [] => mret None
  | x :: xs' => c ← ld x; if FREED c then mret (Some (cname c)) else freed_arg xs'
  end.

Fixpoint notchx_arg (xs : list Chix) : M bool :=
  match xs with
  | [] => mret false
  | x :: xs' => c ← ld x; if ISCHIX c then notchx_arg xs' else mret true
  end.

Definition guard_as (fnull fn : string) (xs : list Chix) : M bool :=
  if existsb (fun x : Chix => match x with None => true | Some _ => false end) xs
  then chxerror CXE_NULL fnull [];; mret false else
  f ← freed_arg xs;
  match f with
  | Some nm => chxerror CXE_FREED fn nm;; mret false
  | None =>
      n ← notchx_arg xs;
      if (n : bool) then chxerror CXE_NOTCHX fn [];; mret false else mret true
  end.

Definition guard (fn : string) (xs : list Chix) : M bool := guard_as fn fn xs.

Definition chxcheck (x : Chix) (name : string) : M Z :=
  ok ← guard name [x]; mret (if (ok : bool) then 1 else 0).

(** ** Length (chx/chxlen.c) *)

(** [for (p = q; *p; ++p);], giving the number of steps. *)
Definition scan_nul (q : ptr) : M Z :=
  fuel ← room q;
  loop (S fuel) (fun '(q, n) =>
    v ← ldb q;
    if v =? 0 then mret (inr n) else mret (inl (padd q 1, n + 1))) (q, 0).

Definition chxlen (x : Chix) : M Z :=
  match x with
  | None => mret 0
  | Some _ =>
      c ← ld x;
      if FREED c then chxerror CXE_FREED "chxlen" (cname c);; mret (-1) else
      if negb (ISCHIX c) then chxerror CXE_NOTCHX "chxlen" [];; mret (-1) else
      if 0 <=? actlen c then mret (actlen c) else
      q ← at_p c 0;
      n ← scan_nul q;
      if n <? maxlen c then setf x (fun c => set_actlen c n);; mret n else
      let n := maxlen c in
      q ← at_p c (n - 1);
      stb q 0;;
      chxerror CXE_NOEND "chxlen" (cname c);;
      setf x (fun c => set_actlen c n);;
      mret n
  end.

(** ** Copying characters (chx/chxcapc.c)

    Copies up to and including the terminator, or [n] characters, and then
    stores one more terminator. *)
Definition chxcapc (ap bp : ptr) (n : Z) : M Z :=
  fuel ← room bp;
  ap' ← loop (S fuel) (fun '(ap, bp, count) =>
    if count =? n then mret (inr ap) else
    v ← ldb bp;
    stb ap v;;
    if v =? 0 then mret (inr (padd ap 1))
    else mret (inl (padd ap 1, padd bp 1, count + 1))) (ap, bp, 0);
  stb ap' 0;;
  mret 1.

(** ** Clearing (chx/chxclear.c) *)
Definition chxclear (x : Chix) : M Z :=
  ok ← guard "chxclear" [x];
  if negb ok then mret 1 else
  c ← ld x;
  q ← at_p c 0;
  stb q 0;;
  setf x (fun c => set_actlen c 0);;
  mret 1.

(** ** Allocation (chx/chxalloc.c) *)

(** The first word of [name], at most [n] letters of it, and what follows. *)
Fixpoint take_word (n : nat) (s : list Z) : list Z * list Z :=
  match s, n with
  | c :: s', S n' => if c =? 32 then ([], s) else let '(w, r) := take_word n' s' in (c :: w, r)
  | _, _ => ([], s)
  end.
Fixpoint skip_word (s : list Z) : list Z :=
  match s with c :: s' => if c =? 32 then s else skip_word s' | [] => [] end.
Fixpoint skip_spaces (s : list Z) : list Z :=
  match s with c :: s' => if c =? 32 then skip_spaces s' else s | [] => [] end.

Definition chix_name (name : list Z) : list Z :=
  let '(w1, s) := take_word 7 name in
  let '(w2, _) := take_word 7 (skip_spaces (skip_word s)) in
  w1 ++ 32 :: w2.

Definition chxalloc (maxl type : Z) (name : list Z) : M Chix :=
  let strname := chix_name name in
  let type := THIN in
  let maxlen := if maxl <? 63 then 63 else maxl in
  a ← chxmem KChix sizeof_chix strname;
  b ← chxmem KBytes (i32 (maxlen + 1)) strname;
  setf (Some a) (fun _ => mkChix CHIX_MAGIC strname maxlen (Some b) 0 (-1) 0 type);;
  stb (PBlk b 0) 0;;
  mret (Some a).

(** ** Freeing (chx/chxfree.c)

    With [debug] on, the name is read before the null check. *)
Definition chxfree (x : Chix) : M Z :=
  dbg ← asks debug;
  when dbg (ld x;; mret tt);;
  ok ← guard "chxfree" [x];
  if negb ok then mret 1 else
  c ← ld x;
  sysfree (cp c);;
  setf x (fun c => set_ischix (set_p c None) CHIX_FREED);;
  sysfree_chix x;;
  mret 1.

(** ** Growing (chx/chxresiz.c) *)
Definition chxresize (x : Chix) (newtype newmax : Z) : M Z :=
  ok ← chxcheck x "chxresize";
  if ok =? 0 then mret 0 else
  c ← ld x;
  let newtype := THIN in
  let newtype := if newtype <? ctype c then ctype c else newtype in
  let newmax := if newmax <? 2 then 2 else newmax in
  if (newtype =? ctype c) && (newmax <? maxlen c) then mret 1 else
  let newmax := if newmax <? maxlen c then maxlen c else newmax in
  let expand := i32 (3 * maxlen c ÷ 2) in
  let newmax := if newmax <? expand then expand else newmax in
  p0 ← at_p c 0;
  p1 ← chxmem KBytes (i32 (i32 (newmax + 1) * newtype)) (cname c);
  chxcapc (PBlk p1 0) p0 (-1);;
  setf x (fun c => set_p (set_type (set_maxlen c newmax) newtype) (Some p1));;
  sysfree (cp c);;
  setf x (fun c => set_resize c (i16 (resize c + 1)));;
  c ← ld x;
  when (RESIZE_LIM <? resize c)
    (chxerror CXE_RESIZE "chxresize" (cname c);;
     setf x (fun c => set_resize c 0));;
  mret 1.

(** ** Concatenation (chx/chxcat.c, chx/chxcatsu.c, chx/chxcatv.c) *)
Definition chxcat (a b : Chix) : M Z :=
  ok ← guard "chxcat" [a; b];
  if negb ok then mret 0 else
  b_len ← chxlen b;
  a_len ← chxlen a;
  ca ← ld a;
  cb ← ld b;
  r ← (if (ctype ca <? ctype cb) || (maxlen ca <? i32 (a_len + b_len + 1))
       then chxresize a (ctype cb) (i32 (a_len + b_len + 5)) else mret 1);
  if r =? 0 then mret 0 else
  ca ← ld a;
  cb ← ld b;
  qa ← at_p ca (a_len * ctype ca);
  qb ← at_p cb 0;
  chxcapc qa qb (-1);;
  setf a (fun c => set_actlen c (i32 (a_len + b_len)));;
  mret 1.

Definition chxcatsub (a b : Chix) (i n : Z) : M Z :=
  ok ← guard "chxcat" [a; b];
  if negb ok then mret 1 else
  if bool_decide (a = b) then
    (c ← ld a; chxerror CXE_SELF "chxcatsub" (cname c);; mret 1) else
  len_a ← chxlen a;
  len_b ← chxlen b;
  let n := if n =? ALLCHARS then len_b else n in
  let n := if n <? 0 then 0 else n in
  let i := if i <? 0 then 0 else i in
  let i := if len_b <=? i then len_b else i in
  let use_b := len_b - i in
  let use_b := if n <? use_b then n else use_b in
  ca ← ld a;
  cb ← ld b;
  (if (ctype ca <? ctype cb) || (maxlen ca <? i32 (len_a + use_b + 3))
   then chxresize a (ctype cb) (i32 (len_a + use_b + 5));; mret tt else mret tt);;
  ca ← ld a;
  cb ← ld b;
  qa ← at_p ca (ctype ca * len_a);
  qb ← at_p cb (ctype cb * i);
  chxcapc qa qb n;;
  setf a (fun c => set_actlen c (-1));;
  mret 1.

Definition chxcatval (a : Chix) (width v : Z) : M Z :=
  ok ← guard "chxcatval" [a];
  if negb ok then mret 0 else
  let width := THIN in
  c ← ld a;
  len ← (if actlen c <? 0 then chxlen a else mret (actlen c));
  c ← ld a;
  r ← (if maxlen c <=? i32 (len + 2) then chxresize a width (i32 (len + 5)) else mret 1);
  if r =? 0 then mret 0 else
  c ← ld a;
  z ← at_p c len;
  stb z (Z.land v 255);;
  stb (padd z 1) 0;;
  setf a (fun c => set_actlen c (i32 (actlen c + 1)));;
  mret 1.

(** ** Copying (chx/chxcpy.c, chx/chxconc.c, chx/chxalsub.c) *)

(** [for (i = 0; i < len; ++i) a->p[i] = b->p[i]] *)
Definition copy_bytes (qa qb : ptr) (n : Z) : M unit :=
  loop (S (Z.to_nat n)) (fun i =>
    if n <=? i then mret (inr tt) else
    v ← ldb (padd qb i);
    stb (padd qa i) v;;
    mret (inl (i + 1))) 0.

Definition chxcpy (a b : Chix) : M Z :=
  ok ← guard "chxcpy" [a; b];
  if negb ok then mret 1 else
  ca ← ld a;
  cb ← ld b;
  if ctype cb <? ctype ca then (chxclear a;; chxcat a b;; mret 1) else
  lb ← chxlen b;
  let len := i32 (lb + 1) in
  ca ← ld a;
  (if ctype ca <? ctype cb then chxresize a (ctype cb) (i32 (len + 20));; mret tt else mret tt);;
  ca ← ld a;
  (if maxlen ca <? len then chxresize a (ctype ca) (i32 (len + 20));; mret tt else mret tt);;
  ca ← ld a;
  cb ← ld b;
  qa ← at_p ca 0;
  qb ← at_p cb 0;
  copy_bytes qa qb len;;
  cb ← ld b;
  setf a (fun c => set_dic (set_actlen c (actlen cb)) (dic cb));;
  mret 1.

Definition chxconc (a b c : Chix) : M Z :=
  ok ← guard "chxconc" [a; b; c];
  if negb ok then mret 1 else
  cb ← ld b;
  z ← chxalloc (maxlen cb) (ctype cb) (bytes "chxconc z");
  chxcpy z b;;
  chxcat z c;;
  ca ← ld a;
  sysfree (cp ca);;
  cz ← ld z;
  setf a (fun _ => cz);;
  sysfree_chix z;;
  mret 1.

Definition chxalsub (a : Chix) (i n : Z) : M Chix :=
  ok ← guard "chxalsub" [a];
  if negb ok then mret None else
  c ← ld a;
  result ← chxalloc 80 (ctype c) (bytes "chxalsub result");
  chxcatsub result a i n;;
  mret result.

(** ** Single characters (chx/chxvalue.c, chx/chxsetva.c, chx/chxtype.c) *)
Definition chxvalue (x : Chix) (n : Z) : M Z :=
  ok ← guard "chxvalue" [x];
  if negb ok then mret (-1) else
  c ← ld x;
  when (actlen c <? 0) (chxlen x;; mret tt);;
  c ← ld x;
  if actlen c <=? n then mret 0 else
  q ← at_p c n;
  ldb q.

Definition chxsetval (x : Chix) (pos width val : Z) : M Z :=
  ok ← guard "chxsetval" [x];
  if negb ok then mret 0 else
  len ← chxlen x;
  if len <=? pos then mret 0 else
  let width := THIN in
  c ← ld x;
  r ← (if ctype c <? width then chxresize x width len else mret 1);
  if r =? 0 then mret 0 else
  c ← ld x;
  q ← at_p c pos;
  stb q (Z.land val 255);;
  mret 1.

Definition chxtype (x : Chix) : M Z :=
  match x with
  | None => mret 0
  | Some _ =>
      c ← ld x;
      if FREED c then chxerror CXE_FREED "chxtype" (cname c);; mret 0 else
      if negb (ISCHIX c) then chxerror CXE_NOTCHX "chxtype" [];; mret 0 else
      mret (ctype c)
  end.

(** [EMPTYCHX (x)] (include/chixuse.h) *)
Definition EMPTYCHX (x : Chix) : M bool :=
  match x with
  | None => mret true
  | Some _ => v ← chxvalue x 0; mret (v =? 0)
  end.

(** ** From C strings and raw bytes (chx/chxofasc.c, chx/chxofraw.c) *)
Definition chxofascii (a : Chix) (str : option (list Z)) : M Z :=
  ok ← guard "chxlofascii" [a];
  if negb ok then mret 0 else
  match str with
  | None => mret 0
  | Some s =>
      let len := i32 (len s) in
      c ← ld a;
      r ← (if maxlen c <? i32 (len + 5) then chxresize a (ctype c) (i32 (len + 5)) else mret 1);
      if r =? 0 then mret 0 else
      chxclear a;;
      c ← ld a;
      q ← at_p c 0;
      chxcapc q (PLit s 0) (-1);;
      setf a (fun c => set_actlen c len);;
      mret 1
  end.

(** [raw] is a block of the caller's, of which [n] bytes are copied. *)
Definition chxofraw (a : Chix) (raw : option ptr) (width n : Z) : M Z :=
  ok ← guard_as "chxofraw" "chxfraw" [a];
  if negb ok then mret 0 else
  match raw with
  | None => mret 0
  | Some raw =>
      if (n <=? 0) || (width <? 1) || (WIDEST <? width) then mret 0 else
      c ← ld a;
      sysfree (cp c);;
      b ← chxmem KBytes (i32 (n + width)) (cname c);
      setf a (fun c => set_type (set_resize (set_actlen (set_maxlen (set_p c (Some b))
                        (n ÷ width)) (-1)) 0) width);;
      copy_bytes (PBlk b 0) raw n;;
      stb (PBlk b n) 0;;
      mret 1
  end.

(** ** Shortening (chx/chxtrunc.c, chx/chxtrim.c, chx/chxchomp.c) *)
Definition chxtrunc (x : Chix) (pos : Z) : M Z :=
  ok ← guard "chxtrunc" [x];
  if negb ok then mret 0 else
  len ← chxlen x;
  if len <=? pos then mret 0 else
  c ← ld x;
  q ← at_p c pos;
  stb q 0;;
  setf x (fun c => set_actlen c pos);;
  mret 1.

(** Back up over the trailing characters that satisfy [f], and cut there. *)
Definition trim_with (x : Chix) (f : Z -> bool) : M Z :=
  c ← ld x;
  n ← (if 0 <=? actlen c then mret (actlen c) else chxlen x);
  c ← ld x;
  p ← at_p c 0;
  last ← loop (S (Z.to_nat n)) (fun last =>
    if last <? 0 then mret (inr last) else
    v ← ldb (padd p last);
    if f v then mret (inl (last - 1)) else mret (inr last)) (n - 1);
  let last := last + 1 in
  stb (padd p last) 0;;
  setf x (fun c => set_actlen c last);;
  mret 1.

Definition chxtrim (x : Chix) : M Z :=
  ok ← guard "chxtrim" [x];
  if negb ok then mret 0 else
  trim_with x (fun v => v =? 32).

Definition chxchomp (x : Chix) : M Z :=
  ok ← guard "chxchomp" [x];
  if negb ok then mret 0 else
  trim_with x (fun v => (v =? 10) || (v =? 13)).
