(* ===== verification/ChixInv.v ===== *)
(** The invariant of the chix library and what it says about one chix: the
    representation relation between the store and an abstract map from
    addresses to strings. *)
From S2P Require Import Prelude Memory Wp Chix.

(** ** Representation *)

(** [c] is a good chix with contents [s], its buffer being in [bs].  The cached
    length is unknown (-1) or right; the buffer has two spare bytes, and the
    terminator is at index [maxlen - 1] at the latest. *)
Record chix_ok (bs : gmap loc (list Z)) (c : chix_t) (s : list Z) : Prop := {
  ok_magic : ischix c = CHIX_MAGIC;
  ok_type : ctype c = THIN;
  ok_max : 0 < maxlen c < 2 ^ 31;
  ok_act : actlen c = -1 \/ actlen c = len s;
  ok_resize : 0 <= resize c <= RESIZE_LIM;
  ok_chars : Forall is_char s;
  ok_len : len s < maxlen c;
  ok_buf : exists b rest, cp c = Some b /\ bs !! b = Some (s ++ 0 :: rest) /\
    Forall is_byte rest /\ len s + 1 + len rest = maxlen c + 3 }.

(** [wf σ m]: the live chix of [σ] are exactly those of [m], each representing
    its string; no two share a buffer; addresses above [fresh_loc] are free. *)
Record wf (σ : st) (m : gmap loc (list Z)) : Prop := {
  wf_dom : forall l, is_Some (chixs σ !! l) <-> is_Some (m !! l);
  wf_ok : forall l c s, chixs σ !! l = Some c -> m !! l = Some s -> chix_ok (blocks σ) c s;
  wf_inj : forall l1 l2 c1 c2, chixs σ !! l1 = Some c1 -> chixs σ !! l2 = Some c2 ->
    cp c1 = cp c2 -> l1 = l2;
  wf_chixs_fresh : forall l, (fresh_loc σ <= l)%positive -> chixs σ !! l = None;
  wf_blocks_fresh : forall l, (fresh_loc σ <= l)%positive -> blocks σ !! l = None;
  wf_reserved : reserved σ = 0 }.

(** What a caller of the library sees of a step: the new strings, and that the
    statics are as they were. *)
Definition evolves (σ : st) (m : gmap loc (list Z)) (σ' : st) : Prop :=
  wf σ' m /\ stat σ' = stat σ.

Lemma wf_lookup σ m l s :
  wf σ m -> m !! l = Some s -> exists c, chixs σ !! l = Some c /\ chix_ok (blocks σ) c s.
Proof.
  intros W H. destruct (proj2 (wf_dom _ _ W l)) as [c Hc]; [by eexists |].
  exists c. split; [done |]. by eapply wf_ok.
Qed.

Lemma wf_fresh_m σ m : wf σ m -> m !! fresh_loc σ = None.
Proof.
  intros W. destruct (m !! fresh_loc σ) eqn:E; [| done].
  destruct (proj2 (wf_dom _ _ W (fresh_loc σ))) as [c Hc]; [by eexists |].
  rewrite (wf_chixs_fresh _ _ W) in Hc; [done | lia].
Qed.

Lemma chix_ok_frame bs b buf c s :
  cp c ≠ Some b -> chix_ok bs c s -> chix_ok (<[b := buf]> bs) c s.
Proof.
  intros Hp [? ? ? ? ? ? ? (b' & rest & ? & ? & ? & ?)].
  split; try done. exists b', rest. rewrite lookup_insert_ne by congruence. done.
Qed.

Lemma chix_ok_frame_delete bs b c s :
  cp c ≠ Some b -> chix_ok bs c s -> chix_ok (delete b bs) c s.
Proof.
  intros Hp [? ? ? ? ? ? ? (b' & rest & ? & ? & ? & ?)].
  split; try done. exists b', rest. rewrite lookup_delete_ne by congruence. done.
Qed.

(** Changes that touch neither chix nor blocks. *)
Lemma wf_same σ σ' m :
  wf σ m -> chixs σ' = chixs σ -> blocks σ' = blocks σ ->
  fresh_loc σ' = fresh_loc σ -> reserved σ' = 0 -> wf σ' m.
Proof.
  intros [D O I F1 F2 R] E1 E2 E3 E4.
  split; rewrite ?E1, ?E2, ?E3; auto.
Qed.

Section update.
Context (σ σ' : st) (m : gmap loc (list Z)) (l : loc) (c c' : chix_t) (b : loc).
Context (W : wf σ m) (Hc : chixs σ !! l = Some c) (Hb : cp c = Some b).
Context (Ec : chixs σ' = <[l := c']> (chixs σ)).
Context (Ef : fresh_loc σ' = fresh_loc σ) (Er : reserved σ' = 0).

Local Lemma update_dom s' l' :
  is_Some (chixs σ' !! l') <-> is_Some (<[l := s']> m !! l').
Proof using Type*.
  rewrite Ec. destruct (decide (l = l')) as [<- | Hne].
  - rewrite !lookup_insert_eq. split; eauto.
  - rewrite !lookup_insert_ne by done. apply W.
Qed.

Local Lemma other_block l' c1 : l' ≠ l -> chixs σ !! l' = Some c1 -> cp c1 ≠ Some b.
Proof using W Hc Hb.
  intros Hne H1 E. apply Hne. eapply (wf_inj _ _ W); [done | done | congruence].
Qed.

Local Lemma fresh_after l' : (fresh_loc σ <= l')%positive -> chixs σ' !! l' = None.
Proof using Type*.
  intros Hl. rewrite Ec. rewrite lookup_insert_ne; [by apply (wf_chixs_fresh _ _ W) |].
  intros <-. rewrite (wf_chixs_fresh _ _ W) in Hc; done.
Qed.

(** Writing to the buffer and the fields of one chix. *)
Lemma wf_update buf' s' :
  blocks σ' = <[b := buf']> (blocks σ) -> cp c' = Some b ->
  chix_ok (blocks σ') c' s' -> wf σ' (<[l := s']> m).
Proof using Type*.
  intros Eb Hb' Hok. split.
  - apply update_dom.
  - intros l' c1 s1. rewrite Ec.
    destruct (decide (l = l')) as [<- | Hne].
    + rewrite !lookup_insert_eq. by intros [= <-] [= <-].
    + rewrite !lookup_insert_ne by done. intros H1 H2. rewrite Eb.
      apply chix_ok_frame; [by eapply other_block | by eapply wf_ok].
  - intros l1 l2 c1 c2. rewrite Ec.
    destruct (decide (l = l1)) as [<- | H1]; destruct (decide (l = l2)) as [<- | H2];
      rewrite ?lookup_insert_eq, ?lookup_insert_ne by done; try done.
    + intros [= <-] Hl2 E. exfalso. by eapply other_block; [| exact Hl2 | congruence].
    + intros Hl1 [= <-] E. exfalso. by eapply other_block; [| exact Hl1 | congruence].
    + apply (wf_inj _ _ W).
  - rewrite Ef. apply fresh_after.
  - rewrite Ef, Eb. intros l' Hl'. rewrite lookup_insert_ne; [by apply (wf_blocks_fresh _ _ W) |].
    intros <-. destruct (wf_dom _ _ W l) as [D _].
    destruct D as [s Hs]; [by eexists |].
    destruct (ok_buf _ _ _ (wf_ok _ _ W _ _ _ Hc Hs)) as (b' & r & ? & Hbb & _).
    rewrite Hb in H. injection H as <-. rewrite (wf_blocks_fresh _ _ W) in Hbb; done.
  - done.
Qed.

(** Writing to the fields only. *)
Lemma wf_fields s :
  blocks σ' = blocks σ -> cp c' = Some b -> m !! l = Some s ->
  chix_ok (blocks σ) c' s -> wf σ' m.
Proof using Type*.
  intros Eb Hb' Hs Hok.
  destruct (ok_buf _ _ _ Hok) as (b1 & rest & Hb1 & Hbuf & _).
  assert (b1 = b) as -> by congruence.
  rewrite <- (insert_id m l s Hs).
  eapply wf_update; [by rewrite Eb, (insert_id _ _ _ Hbuf) | done | by rewrite Eb].
Qed.
End update.

(** ** Checks succeed on live chix *)

Lemma ok_ISCHIX bs c s : chix_ok bs c s -> ISCHIX c = true.
Proof. intros H. unfold ISCHIX. rewrite (ok_magic _ _ _ H). done. Qed.
Lemma ok_FREED bs c s : chix_ok bs c s -> FREED c = false.
Proof. intros H. unfold FREED. rewrite (ok_magic _ _ _ H). done. Qed.

Definition alive (m : gmap loc (list Z)) (x : Chix) : Prop :=
  exists l, x = Some l /\ is_Some (m !! l).

Lemma wp_guard e σ m f1 f2 xs (Q : bool -> st -> Prop) :
  wf σ m -> Forall (alive m) xs -> Q true σ -> wp (guard_as f1 f2 xs) e σ Q.
Proof.
  intros W Hxs HQ. unfold guard_as.
  assert (existsb (fun x : Chix => match x with None => true | Some _ => false end) xs = false) as ->.
  { induction Hxs as [| x xs (l & -> & _) _ IH]; [done |]. exact IH. }
  apply wp_chain with (P := fun r σ' => r = None /\ σ' = σ).
  { induction Hxs as [| x xs (l & -> & s & Hs) _ IH]; simpl; [by apply wp_ret |].
    destruct (wf_lookup _ _ _ _ W Hs) as (c & Hc & Hok). wsteps.
    by rewrite (ok_FREED _ _ _ Hok). }
  intros r σ' [-> ->].
  apply wp_chain with (P := fun r σ' => r = false /\ σ' = σ).
  { induction Hxs as [| x xs (l & -> & s & Hs) _ IH]; simpl; [by apply wp_ret |].
    destruct (wf_lookup _ _ _ _ W Hs) as (c & Hc & Hok). wsteps.
    by rewrite (ok_ISCHIX _ _ _ Hok). }
  intros r σ' [-> ->]. by apply wp_ret.
Qed.

Lemma alive_some m l s : m !! l = Some s -> alive m (Some l).
Proof. intros H. exists l. split; [done | by eexists]. Qed.

(** Discharge a guard at the head of a body. *)
Ltac wguard :=
  eapply wp_guard; [eassumption | repeat constructor; eapply alive_some; eassumption |];
  cbn beta iota delta [negb].

(** ** Allocation *)

Definition fresh_ok (σ : st) : Prop :=
  (forall l, (fresh_loc σ <= l)%positive -> chixs σ !! l = None) /\
  (forall l, (fresh_loc σ <= l)%positive -> blocks σ !! l = None).

(** The store only grew. *)
Definition extends (σ σ' : st) : Prop :=
  stat σ' = stat σ /\ reserved σ' = 0 /\ blocks σ ⊆ blocks σ' /\
  (fresh_loc σ <= fresh_loc σ')%positive /\ fresh_ok σ'.

Lemma wf_fresh_ok σ m : wf σ m -> fresh_ok σ.
Proof. intros W. split; apply W. Qed.

Lemma extends_refl σ : fresh_ok σ -> reserved σ = 0 -> extends σ σ.
Proof. intros. split_and!; auto. lia. Qed.

Lemma extends_trans σ1 σ2 σ3 : extends σ1 σ2 -> extends σ2 σ3 -> extends σ1 σ3.
Proof.
  intros (? & ? & ? & ? & ?) (? & ? & ? & ? & ?).
  split_and!; [congruence | done | by etrans | lia | done].
Qed.

Definition allocated (k : kind) (size : Z) (σ : st) (l : loc) (σ' : st) : Prop :=
  extends σ σ' /\ (fresh_loc σ <= l)%positive /\ (l < fresh_loc σ')%positive /\
  match k with
  | KBytes => chixs σ' = chixs σ /\ blocks σ' !! l = Some (zeros (u32 (i32 (size + 2))))
  | KChix => chixs σ' = <[l := zero_chix]> (chixs σ)
  | KStatic => chixs σ' = chixs σ
  end.

Lemma wp_sysmem e σ k b (Q : option loc -> st -> Prop) :
  fresh_ok σ -> reserved σ = 0 ->
  (limit e ≠ None -> Q None σ) ->
  (forall l σ', allocated k b σ l σ' -> Q (Some l) σ') ->
  wp (sysmem k b) e σ Q.
Proof.
  intros [F1 F2] HR HN HS. unfold wp, sysmem.
  destruct (match limit e with None => true | Some m => memused σ + u32 (i32 (b + 2)) <=? m end) eqn:E.
  - apply HS. unfold allocated, extends, fresh_ok.
    destruct k; simpl; repeat split; try done; try lia.
    + apply insert_subseteq. apply F2. lia.
    + intros l Hl. apply F1. lia.
    + intros l Hl. rewrite lookup_insert_ne by lia. apply F2. lia.
    + apply lookup_insert_eq.
    + intros l Hl. rewrite lookup_insert_ne by lia. apply F1. lia.
    + intros l Hl. apply F2. lia.
    + intros l Hl. apply F1. lia.
    + intros l Hl. apply F2. lia.
  - apply HN. by destruct (limit e).
Qed.

Lemma allocated_after k size σ1 σ2 l σ3 :
  extends σ1 σ2 -> chixs σ2 = chixs σ1 -> allocated k size σ2 l σ3 -> allocated k size σ1 l σ3.
Proof.
  intros X E (Y & ? & ? & H). pose proof (extends_trans _ _ _ X Y).
  destruct X as (? & ? & ? & ? & ?).
  split_and!; [done | lia | done | destruct k; by rewrite <- E].
Qed.

Lemma extends_mm σ n f σ0 :
  extends σ0 σ -> extends σ0 (set_mm σ n f 0).
Proof. intros (? & ? & ? & ? & ? & ?). by split_and!. Qed.

Lemma wp_chxmem e σ k size nm (Q : loc -> st -> Prop) :
  fresh_ok σ -> reserved σ = 0 ->
  (forall l σ', allocated k size σ l σ' -> Q l σ') ->
  wp (chxmem k size nm) e σ Q.
Proof.
  intros HF HR HQ. unfold chxmem. wsteps.
  apply wp_mono with (P := fun _ σ' => extends σ σ' /\ chixs σ' = chixs σ).
  { destruct (first_call σ); wsteps; [| by split; [apply extends_refl |]].
    apply wp_sysmem; [done | done | |].
    - intros HL. wsteps. cbn. wsteps. unfold wp, exit0. done.
    - intros l σ' (X & ? & ? & Hc & _). wsteps. cbn. split; [| done].
      exact (extends_mm _ (memused σ') (first_call σ') _ X). }
  intros _ σ1 [X1 E1]. wsteps.
  assert (fresh_ok σ1 /\ reserved σ1 = 0) as [HF1 HR1] by (by destruct X1 as (? & ? & ? & ? & ?)).
  apply wp_sysmem; [done | done | |].
  - intros HL. unfold sysfree_reserved. wsteps. rewrite HR1. cbn. wsteps.
    unfold chxerror. wsteps.
    apply wp_sysmem; [by destruct HF1 | done | |].
    + intros _. wsteps. unfold wp, exit0. done.
    + intros l σ' HA. wsteps. apply HQ.
      eapply (allocated_after _ _ σ σ1); [done | done |].
      destruct HA as ((? & ? & ? & ? & ? & ?) & ? & ? & ?). by split_and!.
  - intros l σ' HA. wsteps. apply HQ. by eapply allocated_after.
Qed.

(** ** Putting a chix into, and taking it out of, the store *)

Lemma wf_put σ σ' m l c' s' :
  wf σ m -> chixs σ' = <[l := c']> (chixs σ) -> fresh_ok σ' -> reserved σ' = 0 ->
  (forall l' c1, l' ≠ l -> chixs σ !! l' = Some c1 ->
     cp c1 ≠ cp c' /\ forall b, cp c1 = Some b -> blocks σ' !! b = blocks σ !! b) ->
  chix_ok (blocks σ') c' s' -> wf σ' (<[l := s']> m).
Proof.
  intros W Ec [F1 F2] HR Hoth Hok. split; try done.
  - intros l'. rewrite Ec. destruct (decide (l = l')) as [<- | Hne].
    + rewrite !lookup_insert_eq. split; eauto.
    + rewrite !lookup_insert_ne by done. apply W.
  - intros l' c1 s1. rewrite Ec. destruct (decide (l = l')) as [<- | Hne].
    + rewrite !lookup_insert_eq. by intros [= <-] [= <-].
    + rewrite !lookup_insert_ne by done. intros H1 H2.
      destruct (Hoth l' c1) as [_ Hb]; [done | done |].
      destruct (wf_ok _ _ W _ _ _ H1 H2) as [? ? ? ? ? ? ? (b & rest & ? & ? & ? & ?)].
      split; try done. exists b, rest. rewrite Hb by done. done.
  - intros l1 l2 c1 c2. rewrite Ec.
    destruct (decide (l = l1)) as [<- | H1]; destruct (decide (l = l2)) as [<- | H2];
      rewrite ?lookup_insert_eq, ?lookup_insert_ne by done; try done.
    + intros [= <-] Hl2 E. exfalso. by eapply Hoth; [| exact Hl2 |].
    + intros Hl1 [= <-] E. exfalso. by eapply Hoth; [| exact Hl1 |].
    + apply (wf_inj _ _ W).
Qed.

Lemma wf_remove σ σ' m l :
  wf σ m -> chixs σ' = delete l (chixs σ) -> fresh_ok σ' -> reserved σ' = 0 ->
  (forall l' c1 b, l' ≠ l -> chixs σ !! l' = Some c1 -> cp c1 = Some b ->
     blocks σ' !! b = blocks σ !! b) ->
  wf σ' (delete l m).
Proof.
  intros W Ec [F1 F2] HR Hoth. split; try done.
  - intros l'. rewrite Ec. destruct (decide (l = l')) as [<- | Hne].
    + rewrite !lookup_delete_eq. done.
    + rewrite !lookup_delete_ne by done. apply W.
  - intros l' c1 s1. rewrite Ec. rewrite !lookup_delete. case_decide; [done |].
    intros H1 H2. destruct (wf_ok _ _ W _ _ _ H1 H2) as [? ? ? ? ? ? ? (b & rest & ? & ? & ? & ?)].
    split; try done. exists b, rest. erewrite Hoth; eauto.
  - intros l1 l2 c1 c2. rewrite Ec, !lookup_delete. repeat case_decide; try done.
    apply (wf_inj _ _ W).
Qed.

(** A buffer of a live chix is an allocated block. *)
Lemma wf_block σ m l c b :
  wf σ m -> chixs σ !! l = Some c -> cp c = Some b -> is_Some (blocks σ !! b).
Proof.
  intros W Hc Hb. destruct (proj1 (wf_dom _ _ W l)) as [s Hs]; [by eexists |].
  destruct (ok_buf _ _ _ (wf_ok _ _ W _ _ _ Hc Hs)) as (b' & r & E & Hbb & _).
  rewrite Hb in E. injection E as <-. by eexists.
Qed.

Lemma wf_extends σ σ' m : wf σ m -> extends σ σ' -> chixs σ' = chixs σ -> wf σ' m.
Proof.
  intros W (_ & HR & Hsub & _ & F1 & F2) Ec. split; try done; rewrite Ec; [apply W | | apply W].
  intros l c s H1 H2.
  destruct (wf_ok _ _ W _ _ _ H1 H2) as [? ? ? ? ? ? ? (b & rest & ? & ? & ? & ?)].
  split; try done. exists b, rest. split_and!; try done. by eapply lookup_weaken.
Qed.
