(* ===== verification/ChixCore.v ===== *)
(** Specifications of the core of the chix library: each function, run in a
    store that satisfies the invariant, is memory safe and refines the
    operation on strings it stands for. *)
From S2P Require Import Prelude Memory Wp Chix ChixInv.

(** ** Loops over a string *)

Local Lemma scan_loop e σ t (Q : Z -> st -> Prop) s :
  Forall is_char s ->
  forall q n fuel, view (blocks σ) q = Some (s ++ 0 :: t) -> Q (n + len s) σ ->
  (length s < fuel)%nat ->
  wp (loop fuel (fun '(q, n) =>
        v ← ldb q;
        if v =? 0 then mret (inr n) else mret (inl (padd q 1, n + 1))) (q, n)) e σ Q.
Proof.
  induction 1 as [| v s Hc Hs IH]; intros q n fuel Hv HQ Hf;
    (destruct fuel as [| fuel]; [simpl in Hf; lia |]); rewrite loop_step; wsteps;
    (eapply wp_ldb; [exact Hv |]).
  - cbn. wsteps. by rewrite len_nil, Z.add_0_r in HQ.
  - unfold is_char in Hc. replace (v =? 0) with false by lia. wsteps.
    apply IH; [by eapply view_padd | | simpl in Hf; lia].
    rewrite len_cons in HQ. by replace (n + 1 + len s) with (n + (len s + 1)) by lia.
Qed.

Lemma wp_scan_nul e σ q s t (Q : Z -> st -> Prop) :
  view (blocks σ) q = Some (s ++ 0 :: t) -> Forall is_char s ->
  Q (len s) σ -> wp (scan_nul q) e σ Q.
Proof.
  intros Hv Hs HQ. unfold scan_nul. wsteps. rewrite Hv. cbn [from_option].
  eapply scan_loop; [done | done | done |]. rewrite length_app. simpl. lia.
Qed.

(** The loop of [chxcapc]: [k] characters of [s] are copied, or all of them
    and the terminator. *)
Local Lemma capc_loop e b n (Hn : n = -1 \/ 0 <= n) s :
  Forall is_char s ->
  forall fuel pre mid bp t count σ,
  blocks σ !! b = Some (pre ++ mid) -> off_block bp b ->
  view (blocks σ) bp = Some (s ++ 0 :: t) ->
  Forall is_byte mid -> 0 <= count -> (0 <= n -> count <= n) -> (length s < fuel)%nat ->
  let k := if n <? 0 then length s else Z.to_nat (n - count) in
  len (take k s) + 2 <= len mid ->
  wp (loop fuel (fun '(ap, bp, count) =>
        if count =? n then mret (inr ap) else
        v ← ldb bp;
        stb ap v;;
        if v =? 0 then mret (inr (padd ap 1))
        else mret (inl (padd ap 1, padd bp 1, count + 1))) (PBlk b (len pre), bp, count)) e σ
    (fun ap σ' => exists pre' v mid', σ' = set_blocks σ (<[b := pre' ++ v :: mid']> (blocks σ)) /\
       ap = PBlk b (len pre') /\ len (pre' ++ v :: mid') = len (pre ++ mid) /\
       (pre' = pre ++ take k s \/ pre' = pre ++ take k s ++ [0]) /\ Forall is_byte mid').
Proof.
  induction 1 as [| v s Hv Hs IH];
    intros fuel pre mid bp t count σ Hb Hoff Hview Hmid Hc Hcn Hf k Hk;
    (destruct fuel as [| fuel]; [simpl in Hf; lia |]); rewrite loop_step; wsteps;
    destruct (count =? n) eqn:Ecn; wsteps.
  1,3: assert (Ek : k = 0%nat) by (subst k; destruct (n <? 0) eqn:?; simpl; lia);
    rewrite Ek, take_0 in *;
    destruct mid as [| v0 mid]; [zlen |];
    exists pre, v0, mid; rewrite app_nil_r; (split_and!; [| done.. | by left | by inversion Hmid]);
    rewrite insert_id by done; by destruct σ.
  all: eapply wp_ldb; [exact Hview |]; cbn beta;
    destruct mid as [| v0 [| v1 mid]]; [zlen | zlen |]; wsteps;
    (eapply wp_stb; [exact Hb | zlen |]); rewrite insert_len_app;
    inversion Hmid as [| ? ? ? Hmid']; subst; inversion Hmid'; subst.
  - wsteps. exists (pre ++ [0]), v1, mid. rewrite take_nil.
    split_and!; [by rewrite <- app_assoc | simpl; f_equal; zlen | zlen | by right | done].
  - unfold is_char in Hv. replace (v =? 0) with false by lia. wsteps.
    assert (Ek : (take k (v :: s) = v ::
      take (if n <? 0 then length s else Z.to_nat (n - (count + 1))) s)).
    { subst k. destruct (n <? 0) eqn:En; simpl; [done |].
      replace (Z.to_nat (n - count)) with (S (Z.to_nat (n - (count + 1)))) by lia. done. }
    eapply wp_mono.
    + replace (padd (PBlk b (len pre)) 1) with (PBlk b (len (pre ++ [v])))
        by (simpl; f_equal; zlen).
      eapply IH; cbn [blocks set_blocks].
      * rewrite lookup_insert_eq. by rewrite <- app_assoc.
      * by apply off_block_padd.
      * rewrite view_insert by (by apply off_block_padd). by eapply view_padd.
      * by constructor.
      * lia.
      * lia.
      * simpl in Hf. lia.
      * rewrite Ek in Hk. zlen.
    + intros ap σ' (pre' & w & mid' & -> & -> & Hl & Hpre & Hm).
      exists pre', w, mid'. cbn. rewrite insert_insert_eq, Ek.
      split_and!; [done | done | zlen | | done].
      destruct Hpre as [-> | ->]; rewrite <- app_assoc; auto.
Qed.

Lemma wp_chxcapc e σ b pre mid bp s t n (Q : Z -> st -> Prop) :
  blocks σ !! b = Some (pre ++ mid) -> off_block bp b ->
  view (blocks σ) bp = Some (s ++ 0 :: t) -> Forall is_char s -> Forall is_byte mid ->
  n = -1 \/ 0 <= n ->
  let k := if n <? 0 then length s else Z.to_nat n in
  len (take k s) + 2 <= len mid ->
  (forall rest, Forall is_byte rest -> len (take k s) + 1 + len rest = len mid ->
     Q 1 (set_blocks σ (<[b := pre ++ take k s ++ 0 :: rest]> (blocks σ)))) ->
  wp (chxcapc (PBlk b (len pre)) bp n) e σ Q.
Proof.
  intros Hb Hoff Hv Hs Hmid Hn k Hk HQ. unfold chxcapc. wsteps.
  rewrite Hv. cbn [from_option]. eapply wp_mono.
  { eapply (capc_loop e b n Hn s Hs); [done | done | done | done | lia | lia | |].
    - rewrite length_app. simpl. lia.
    - by rewrite Z.sub_0_r. }
  intros ap σ' (pre' & w & mid' & -> & -> & Hl & Hpre & Hm). wsteps.
  rewrite Z.sub_0_r in Hpre. fold k in Hpre.
  eapply wp_stb; [apply lookup_insert_eq | zlen |]. wsteps. cbn.
  rewrite insert_len_app, insert_insert_eq, set_blocks_twice.
  destruct Hpre as [-> | ->]; rewrite <- !app_assoc.
  - apply HQ; [done | zlen].
  - simpl. apply (HQ (0 :: mid')); [| zlen].
    constructor; [unfold is_byte; lia | done].
Qed.

Lemma wp_chxcapc_all e σ b pre mid bp s t (Q : Z -> st -> Prop) :
  blocks σ !! b = Some (pre ++ mid) -> off_block bp b ->
  view (blocks σ) bp = Some (s ++ 0 :: t) -> Forall is_char s -> Forall is_byte mid ->
  len s + 2 <= len mid ->
  (forall rest, Forall is_byte rest -> len s + 1 + len rest = len mid ->
     Q 1 (set_blocks σ (<[b := pre ++ s ++ 0 :: rest]> (blocks σ)))) ->
  wp (chxcapc (PBlk b (len pre)) bp (-1)) e σ Q.
Proof.
  intros. eapply wp_chxcapc; [done.. | by left | |]; cbn; rewrite firstn_all; done.
Qed.

(** ** Length *)

Lemma chix_ok_actlen bs c s n :
  n = -1 \/ n = len s -> chix_ok bs c s -> chix_ok bs (set_actlen c n) s.
Proof. intros Hn [? ? ? ? ? ? ? ?]. by split. Qed.

Lemma set_actlen_id c : set_actlen c (actlen c) = c.
Proof. by destruct c. Qed.

(** The length, and the cached length set to it. *)
Lemma chxlen_exact e σ l c s (Q : Z -> st -> Prop) :
  chixs σ !! l = Some c -> chix_ok (blocks σ) c s ->
  Q (len s) (set_chixs σ (<[l := set_actlen c (len s)]> (chixs σ))) ->
  wp (chxlen (Some l)) e σ Q.
Proof.
  intros Hc Hok HQ. unfold chxlen. wsteps.
  rewrite (ok_FREED _ _ _ Hok), (ok_ISCHIX _ _ _ Hok). cbn [negb].
  destruct (ok_buf _ _ _ Hok) as (b & rest & Hp & Hb & _). len_pos.
  destruct (ok_act _ _ _ Hok) as [Ha | Ha].
  - rewrite Ha. cbn. wsteps.
    eapply (wp_scan_nul _ _ _ s rest); [by erewrite view_blk by done | apply Hok |].
    pose proof (ok_len _ _ _ Hok). replace (len s <? maxlen c) with true by lia. wsteps. done.
  - rewrite Ha. pose proof (len_nonneg s). replace (0 <=? len s) with true by lia. wsteps.
    rewrite <- Ha, set_actlen_id, insert_id, set_chixs_id in HQ by done. by rewrite <- Ha.
Qed.

Lemma wf_set_actlen σ m l c s n :
  wf σ m -> chixs σ !! l = Some c -> m !! l = Some s -> n = -1 \/ n = len s ->
  wf (set_chixs σ (<[l := set_actlen c n]> (chixs σ))) m.
Proof.
  intros W Hc Hs Hn. pose proof (wf_ok _ _ W _ _ _ Hc Hs) as Hok.
  destruct (ok_buf _ _ _ Hok) as (b & rest & Hp & _).
  eapply (wf_fields σ _ m l c _ b); try done; [apply W | by apply chix_ok_actlen].
Qed.

(** Seen through the invariant: the strings are unchanged. *)
Lemma wp_chxlen e σ m l s (Q : Z -> st -> Prop) :
  wf σ m -> m !! l = Some s ->
  (forall σ' c, wf σ' m -> stat σ' = stat σ -> chixs σ' !! l = Some c -> actlen c = len s ->
     (forall l', l' ≠ l -> chixs σ' !! l' = chixs σ !! l') -> Q (len s) σ') ->
  wp (chxlen (Some l)) e σ Q.
Proof.
  intros W Hs HQ. destruct (wf_lookup _ _ _ _ W Hs) as (c & Hc & Hok).
  eapply chxlen_exact; [done | done |].
  apply HQ with (set_actlen c (len s)); [by eapply wf_set_actlen; eauto | done | | done |].
  - apply lookup_insert_eq.
  - intros l' Hl'. cbn. by rewrite lookup_insert_ne.
Qed.

(** ** Clearing *)

Lemma zset_first (s rest : list Z) (v : Z) :
  exists w rest', s ++ 0 :: rest = w :: rest' /\ <[Z.to_nat 0 := v]> (s ++ 0 :: rest) = v :: rest'.
Proof. destruct s as [| w s]; simpl; eauto. Qed.

Lemma chxclear_exact e σ m l c b s (Q : Z -> st -> Prop) :
  wf σ m -> chixs σ !! l = Some c -> m !! l = Some s -> cp c = Some b ->
  (forall σ', wf σ' (<[l := []]> m) -> stat σ' = stat σ ->
     chixs σ' = <[l := set_actlen c 0]> (chixs σ) -> Q 1 σ') ->
  wp (chxclear (Some l)) e σ Q.
Proof.
  intros W Hc Hs Hb HQ. unfold chxclear, guard. wsteps. wguard. wsteps.
  pose proof (wf_ok _ _ W _ _ _ Hc Hs) as Hok.
  destruct (ok_buf _ _ _ Hok) as (b' & rest & Hp & Hbuf & Hr & Hl).
  assert (b' = b) as -> by congruence.
  eapply wp_stb; [exact Hbuf | zlen |]. wsteps. cbn.
  destruct (zset_first s rest 0) as (w & rest' & E & ->).
  assert (Hbytes : Forall is_byte (s ++ 0 :: rest)).
  { apply Forall_app. split; [apply chars_bytes, Hok |].
    constructor; [unfold is_byte; lia | done]. }
  apply HQ; [| done | done].
  eapply (wf_update σ _ m l c _ b) with (buf' := 0 :: rest'); try done; [apply W |].
  rewrite E in Hbytes. destruct Hok. split; try done; cbn.
  - by right.
  - zlen.
  - exists b, rest'. rewrite lookup_insert_eq. inversion Hbytes.
    split_and!; try done. apply (f_equal len) in E. zlen.
Qed.

Lemma wp_chxclear e σ m l s (Q : Z -> st -> Prop) :
  wf σ m -> m !! l = Some s ->
  (forall σ', evolves σ (<[l := []]> m) σ' -> Q 1 σ') ->
  wp (chxclear (Some l)) e σ Q.
Proof.
  intros W Hs HQ. destruct (wf_lookup _ _ _ _ W Hs) as (c & Hc & Hok).
  destruct (ok_buf _ _ _ Hok) as (b & rest & Hp & _).
  eapply chxclear_exact; [done.. |]. intros. apply HQ. by split.
Qed.

(** ** Allocation and freeing *)

Lemma buffer_of_zeros n :
  0 < n -> zeros n = [] ++ 0 :: zeros (n - 1) /\ len (zeros (n - 1)) = n - 1.
Proof. intros H. split; [by apply zeros_split | apply len_zeros; lia]. Qed.

Lemma wp_chxalloc e σ m maxl ty nm (Q : Chix -> st -> Prop) :
  wf σ m -> maxl < 2 ^ 31 ->
  (forall l c σ', m !! l = None -> evolves σ (<[l := []]> m) σ' ->
     chixs σ' !! l = Some c -> maxl <= maxlen c -> actlen c = 0 ->
     (forall l', l' ≠ l -> chixs σ' !! l' = chixs σ !! l') -> Q (Some l) σ') ->
  wp (chxalloc maxl ty nm) e σ Q.
Proof.
  intros W Hmax HQ. unfold chxalloc. wsteps.
  set (mx := if maxl <? 63 then 63 else maxl).
  assert (Hmx : 63 <= mx < 2 ^ 31 /\ maxl <= mx) by (subst mx; destruct (maxl <? 63) eqn:?; lia).
  apply wp_chxmem; [by eapply wf_fresh_ok | apply W |].
  intros a σ1 (X1 & Ha1 & Ha2 & Ec1). wsteps.
  apply wp_chxmem; [apply X1 | apply X1 |].
  intros b σ2 (X2 & Hb1 & Hb2 & Ec2 & Hbuf). wsteps.
  eapply wp_setf; [rewrite Ec2, Ec1; apply lookup_insert_eq |]. wsteps.
  rewrite buffer_size in Hbuf by lia.
  eapply wp_stb; [exact Hbuf | rewrite len_zeros; lia |]. wsteps. cbn.
  destruct (buffer_of_zeros (mx + 3)) as [Ez Hz]; [lia |].
  assert (E0 : <[Z.to_nat 0 := 0]> (zeros (mx + 3)) = zeros (mx + 3)).
  { rewrite Ez. done. }
  rewrite E0, (insert_id (blocks σ2)) by done. rewrite Ec2, Ec1, insert_insert_eq.
  assert (Hnone : m !! a = None).
  { destruct (m !! a) eqn:E; [| done].
    destruct (proj2 (wf_dom _ _ W a)) as [c Hc]; [by eexists |].
    rewrite (wf_chixs_fresh _ _ W) in Hc by lia. done. }
  destruct X1 as (S1 & R1 & Sub1 & L1 & F1), X2 as (S2 & R2 & Sub2 & L2 & F2).
  eapply HQ; [done | | apply lookup_insert_eq | cbn; lia | done |].
  2: { intros l' Hl'. cbn. by rewrite lookup_insert_ne. }
  split; [| cbn; congruence].
  eapply (wf_put σ); [done | done | | done | |].
  - split; cbn; [intros l Hl | apply F2].
    rewrite lookup_insert_ne by lia. apply (wf_chixs_fresh _ _ W). lia.
  - intros l' c1 Hne Hc1. cbn. split.
    + intros E. destruct (wf_block _ _ _ _ b W Hc1) as [x Hx]; [done |].
      rewrite (wf_blocks_fresh _ _ W) in Hx by lia. done.
    + intros b' Hb'. destruct (wf_block _ _ _ _ b' W Hc1) as [x Hx]; [done |].
      rewrite Hx. eapply lookup_weaken; [| exact Sub2]. by eapply lookup_weaken.
  - split; cbn; try done; try (unfold RESIZE_LIM; zlen).
    exists b, (zeros (mx + 3 - 1)). rewrite Hbuf, Ez.
    split_and!; [done | done | apply zeros_bytes | rewrite len_nil; lia].
Qed.

Lemma fresh_ok_delete_block σ b n :
  fresh_ok σ -> fresh_ok (mkSt (chixs σ) (delete b (blocks σ)) (fresh_loc σ) n
                            (first_call σ) (reserved σ) (elog σ) (stat σ)).
Proof.
  intros [F1 F2]. split; cbn; [done |]. intros l Hl. rewrite lookup_delete. case_decide; auto.
Qed.

Lemma wp_chxfree e σ m l s (Q : Z -> st -> Prop) :
  wf σ m -> m !! l = Some s ->
  (forall σ', evolves σ (delete l m) σ' ->
     (forall l', l' ≠ l -> chixs σ' !! l' = chixs σ !! l') -> Q 1 σ') ->
  wp (chxfree (Some l)) e σ Q.
Proof.
  intros W Hs HQ. destruct (wf_lookup _ _ _ _ W Hs) as (c & Hc & Hok).
  destruct (ok_buf _ _ _ Hok) as (b & rest & Hp & Hbuf & _).
  unfold chxfree, guard. wsteps.
  apply wp_mono with (P := fun _ σ' => σ' = σ).
  { destruct (debug e); wsteps; done. }
  intros _ σ' ->. wsteps. wguard. wsteps. rewrite Hp.
  eapply wp_sysfree; [done |]. wsteps.
  eapply wp_sysfree_chix; [apply lookup_insert_eq |]. wsteps. cbn.
  rewrite delete_insert_eq. apply HQ.
  - split; [| done]. eapply (wf_remove σ); [done | done | | apply W |].
    + split; cbn; intros l' Hl'; rewrite lookup_delete; case_decide; auto;
        [by apply (wf_chixs_fresh _ _ W) | by apply (wf_blocks_fresh _ _ W)].
    + intros l' c1 b1 Hne Hc1 Hb1. cbn. rewrite lookup_delete_ne; [done |].
      intros <-. apply Hne. eapply (wf_inj _ _ W); [done.. | congruence].
  - intros l' Hne. cbn. by rewrite lookup_delete_ne.
Qed.

(** ** Growing *)

Lemma i32_i32 z : i32 (i32 z) = i32 z.
Proof. apply i32_small. apply i32_range. Qed.

(** A buffer that a live chix of [σ] owns is distinct from a new block. *)
Lemma wf_old_block σ m l c b b' :
  wf σ m -> chixs σ !! l = Some c -> cp c = Some b -> (fresh_loc σ <= b')%positive -> b ≠ b'.
Proof.
  intros W Hc Hb Hf ->. destruct (wf_block _ _ _ _ _ W Hc Hb) as [x Hx].
  rewrite (wf_blocks_fresh _ _ W) in Hx by lia. done.
Qed.

(** The chix keeps its string and cached length; its capacity is at least the
    old one and at least [newmax]. *)
Lemma wp_chxresize e σ m l c s ty newmax (Q : Z -> st -> Prop) :
  wf σ m -> chixs σ !! l = Some c -> m !! l = Some s -> newmax < 2 ^ 31 ->
  (forall σ' c', wf σ' m -> stat σ' = stat σ -> chixs σ' = <[l := c']> (chixs σ) ->
     actlen c' = actlen c -> maxlen c <= maxlen c' -> newmax <= maxlen c' ->
     Q 1 σ') ->
  wp (chxresize (Some l) ty newmax) e σ Q.
Proof.
  intros W Hc Hs Hnew HQ. unfold chxresize, chxcheck, guard. wsteps. wguard. wsteps. cbn [Z.eqb].
  wsteps. pose proof (wf_ok _ _ W _ _ _ Hc Hs) as Hok.
  destruct (ok_buf _ _ _ Hok) as (b & rest & Hp & Hbuf & Hr & Hl).
  pose proof (ok_max _ _ _ Hok) as Hmax. pose proof (ok_len _ _ _ Hok) as Hlen.
  rewrite (ok_type _ _ _ Hok).
  change (THIN <? THIN) with false. change (THIN =? THIN) with true. cbn [andb].
  set (nm0 := if newmax <? 2 then 2 else newmax).
  assert (Hnm0 : 2 <= nm0 < 2 ^ 31 /\ newmax <= nm0)
    by (subst nm0; destruct (newmax <? 2) eqn:?; lia).
  destruct (nm0 <? maxlen c) eqn:E0; cbn [andb Z.eqb THIN Pos.eqb]; wsteps.
  { apply HQ with c; try done; [by rewrite insert_id | lia]. }
  set (ex := i32 (3 * maxlen c ÷ 2)). pose proof (i32_range (3 * maxlen c ÷ 2)) as Hex. fold ex in Hex.
  set (nm := if nm0 <? ex then ex else nm0).
  assert (Hnm : 2 <= nm < 2 ^ 31 /\ newmax <= nm /\ maxlen c <= nm).
  { subst nm. destruct (nm0 <? ex) eqn:?; lia. }
  rewrite Z.mul_1_r, i32_i32. wsteps.
  apply wp_chxmem; [by eapply wf_fresh_ok | apply W |].
  intros p1 σ1 (X1 & Hp1 & Hp2 & Ec1 & Hz). wsteps. rewrite buffer_size in Hz by lia.
  pose proof (wf_extends _ _ _ W X1 Ec1) as W1. destruct X1 as (S1 & R1 & Sub1 & L1 & F1).
  assert (Hbp : b ≠ p1) by (by eapply (wf_old_block σ)).
  pose proof (lookup_weaken _ _ _ _ Hbuf Sub1) as Hbuf1.
  change (PBlk p1 0) with (PBlk p1 (len (@nil Z))).
  eapply wp_chxcapc_all; [exact Hz | exact Hbp | by erewrite view_blk by done | apply Hok
    | apply zeros_bytes | rewrite len_zeros; lia |].
  cbn. intros rest' Hr' Hl'. rewrite len_zeros in Hl' by lia.
  assert (Hc1 : chixs σ1 !! l = Some c) by (by rewrite Ec1). wsteps. rewrite Hp.
  eapply wp_sysfree; [cbn; by rewrite lookup_insert_ne |]. wsteps. cbn.
  set (bs := delete b _).
  assert (Hbs : bs !! p1 = Some (s ++ 0 :: rest')).
  { subst bs. by rewrite lookup_delete_ne, lookup_insert_eq. }
  assert (Hfin : forall σ' rz, chixs σ' = <[l := set_resize (set_p (set_type (set_maxlen c nm) THIN)
      (Some p1)) rz]> (chixs σ) -> blocks σ' = bs -> fresh_loc σ' = fresh_loc σ1 ->
      reserved σ' = 0 -> 0 <= rz <= RESIZE_LIM -> wf σ' m).
  { intros σ' rz E1 E2 E3 E4 Hrz. rewrite <- (insert_id m l s Hs).
    eapply (wf_put σ); [done | exact E1 | | done | |].
    - destruct F1 as [F1 F1']. rewrite <- Ec1 in E1. split; intros l0 Hl0; rewrite ?E1, ?E2.
      + rewrite lookup_insert_ne; [apply F1; lia |]. intros <-. rewrite F1 in Hc1 by lia. done.
      + subst bs. rewrite lookup_delete_ne, lookup_insert_ne; [apply F1'; lia | lia |].
        intros <-. rewrite F1' in Hbuf1 by lia. done.
    - intros l' c1 Hne Hc'. cbn. rewrite E2. subst bs. split.
      + intros E. by eapply (wf_old_block σ m l' c1 p1 p1).
      + intros b1 Hb1. destruct (wf_block _ _ _ _ _ W Hc' Hb1) as [x Hx].
        assert (b1 ≠ b) by (intros ->; apply Hne; eapply (wf_inj _ _ W); [done.. | congruence]).
        assert (b1 ≠ p1) by (eapply (wf_old_block σ); eauto).
        rewrite lookup_delete_ne, lookup_insert_ne by done. rewrite Hx. by eapply lookup_weaken.
    - rewrite E2. destruct Hok. split; cbn; try done; try lia.
      exists p1, rest'. split_and!; try done; lia. }
  pose proof (ok_resize _ _ _ Hok) as Hrz. unfold RESIZE_LIM in *.
  rewrite i16_small by lia. cbn. rewrite !insert_insert_eq, Ec1.
  destruct (100 <? resize c + 1) eqn:Ez; wsteps; cbn; rewrite ?insert_insert_eq.
  - eapply HQ; [eapply (Hfin _ 0); try done; lia | done | done | done | cbn; lia | cbn; lia].
  - eapply HQ; [eapply (Hfin _ (resize c + 1)); try done; lia | done | done | done | cbn; lia | cbn; lia].
Qed.

(** ** Rewriting the contents of a chix in place *)

Definition same_shape (c c' : chix_t) : Prop :=
  ischix c' = ischix c /\ ctype c' = ctype c /\ maxlen c' = maxlen c /\ cp c' = cp c /\
  resize c' = resize c.

Lemma wf_rewrite σ σ' m l c c' b s s' rest :
  wf σ m -> chixs σ !! l = Some c -> m !! l = Some s -> cp c = Some b ->
  chixs σ' = <[l := c']> (chixs σ) -> fresh_loc σ' = fresh_loc σ -> reserved σ' = reserved σ ->
  same_shape c c' -> actlen c' = -1 \/ actlen c' = len s' ->
  blocks σ' = <[b := s' ++ 0 :: rest]> (blocks σ) ->
  Forall is_char s' -> Forall is_byte rest -> len s' < maxlen c ->
  len s' + 1 + len rest = maxlen c + 3 -> wf σ' (<[l := s']> m).
Proof.
  intros W Hc Hs Hb E1 E3 E4 (S1 & S2 & S3 & S4 & S5) Ha E2 Hch Hr Hlt Hl.
  pose proof (wf_ok _ _ W _ _ _ Hc Hs) as Hok.
  eapply (wf_update σ σ' m l c c' b W Hc Hb E1 E3); [rewrite E4; apply W | done | congruence |].
  destruct Hok. rewrite E2. split; rewrite ?S1, ?S2, ?S3, ?S4, ?S5; try done.
  exists b, rest. rewrite lookup_insert_eq. done.
Qed.

Lemma same_shape_actlen c n : same_shape c (set_actlen c n).
Proof. done. Qed.

(** ** Concatenation *)

Lemma chix_ok_room bs c s b rest :
  chix_ok bs c s -> cp c = Some b -> bs !! b = Some (s ++ 0 :: rest) ->
  Forall is_byte (0 :: rest) /\ len s + 1 + len rest = maxlen c + 3.
Proof.
  intros Hok Hb Hbuf. destruct (ok_buf _ _ _ Hok) as (b' & r & Hb' & Hbuf' & Hr & Hl).
  assert (b' = b) as -> by congruence. rewrite Hbuf in Hbuf'. injection Hbuf' as E.
  apply app_inv_head in E. injection E as ->.
  split; [constructor; [unfold is_byte; lia | done] | done].
Qed.

Lemma other_buffer σ m a b ca cb pa pb :
  wf σ m -> a ≠ b -> chixs σ !! a = Some ca -> chixs σ !! b = Some cb ->
  cp ca = Some pa -> cp cb = Some pb -> pb ≠ pa.
Proof. intros W Hne Ha Hb Ea Eb ->. apply Hne. eapply (wf_inj _ _ W); [done.. | congruence]. Qed.

(** [chxcat]: [a := a ++ b]. *)
Lemma wp_chxcat e σ m a b sa sb (Q : Z -> st -> Prop) :
  wf σ m -> a ≠ b -> m !! a = Some sa -> m !! b = Some sb ->
  len sa + len sb + 5 < 2 ^ 31 ->
  (forall σ', evolves σ (<[a := sa ++ sb]> m) σ' -> Q 1 σ') ->
  wp (chxcat (Some a) (Some b)) e σ Q.
Proof.
  intros W Hne Ha Hb Hbig HQ. unfold chxcat, guard. wsteps. wguard. wsteps.
  eapply wp_chxlen; [done | exact Hb |]. intros σ1 cb1 W1 S1 _ _ _. wsteps.
  eapply wp_chxlen; [done | exact Ha |]. intros σ2 ca2 W2 S2 Hca2 Hact2 _. wsteps.
  destruct (wf_lookup _ _ _ _ W2 Hb) as (cb2 & Hcb2 & Hokb2).
  pose proof (wf_ok _ _ W2 _ _ _ Hca2 Ha) as Hoka2. wsteps.
  rewrite (ok_type _ _ _ Hoka2), (ok_type _ _ _ Hokb2).
  change (THIN <? THIN) with false. cbn [orb]. len_pos. rewrite !i32_small by lia.
  apply wp_mono with (P := fun r σ3 => r = 1 /\ wf σ3 m /\ stat σ3 = stat σ /\
    exists ca, chixs σ3 !! a = Some ca /\ len sa + len sb + 1 <= maxlen ca).
  { destruct (maxlen ca2 <? len sa + len sb + 1) eqn:E; wsteps.
    - eapply wp_chxresize; [done | done | done | lia |].
      intros σ3 c3 W3 S3 E3 _ _ Hm3. split_and!; [done | done | congruence |].
      exists c3. rewrite E3, lookup_insert_eq. split; [done | lia].
    - split_and!; [done | done | congruence |]. exists ca2. split; [done | lia]. }
  intros r σ3 (-> & W3 & S3 & ca & Hca & Hroom). cbn [Z.eqb]. wsteps.
  destruct (wf_lookup _ _ _ _ W3 Hb) as (cb & Hcb & Hokb).
  pose proof (wf_ok _ _ W3 _ _ _ Hca Ha) as Hoka. wsteps.
  destruct (ok_buf _ _ _ Hoka) as (pa & ra & Hpa & Hbufa & Hra & Hla).
  destruct (ok_buf _ _ _ Hokb) as (pb & rb & Hpb & Hbufb & _). wsteps.
  rewrite (ok_type _ _ _ Hoka), Z.mul_1_r.
  eapply wp_chxcapc_all; [exact Hbufa | by eapply (other_buffer σ3) | by erewrite view_blk by done
    | apply Hokb | by eapply chix_ok_room | zlen |].
  intros rest Hrest Hl. wsteps. apply HQ. split; [| done].
  eapply (wf_rewrite σ3 _ m a ca);
    [done | done | done | done | done | done | done | done | | | | exact Hrest | |].
  - right. cbn. zlen.
  - cbn. by rewrite app_assoc.
  - apply Forall_app. split; [apply Hoka | apply Hokb].
  - zlen.
  - zlen.
Qed.

(** The substring that [chxcatsub] appends: [n] characters from [i], clamped. *)
Definition csub (s : list Z) (i n : Z) : list Z :=
  take (Z.to_nat (if n =? ALLCHARS then len s else n)) (drop (Z.to_nat i) s).

Lemma csub_all s : csub s 0 ALLCHARS = s.
Proof. unfold csub. cbn. rewrite to_nat_len, firstn_all. done. Qed.

Lemma csub_from s i : csub s i ALLCHARS = drop (Z.to_nat i) s.
Proof. unfold csub. cbn. rewrite to_nat_len. apply take_ge. rewrite length_drop. lia. Qed.

Lemma csub_chars s i n : Forall is_char s -> Forall is_char (csub s i n).
Proof. intros H. by apply Forall_take, Forall_drop. Qed.

Lemma csub_len s i n : len (csub s i n) <= len s.
Proof. unfold csub. destruct (n =? ALLCHARS); zlen. Qed.

(** [chxcatsub]: [a := a ++ csub b i n]. *)
Lemma wp_chxcatsub e σ m a b sa sb i n (Q : Z -> st -> Prop) :
  wf σ m -> a ≠ b -> m !! a = Some sa -> m !! b = Some sb ->
  len sa + len sb + 5 < 2 ^ 31 ->
  (forall σ', evolves σ (<[a := sa ++ csub sb i n]> m) σ' -> Q 1 σ') ->
  wp (chxcatsub (Some a) (Some b) i n) e σ Q.
Proof.
  intros W Hne Ha Hb Hbig HQ. unfold chxcatsub, guard. wsteps. wguard. wsteps.
  rewrite bool_decide_eq_false_2 by congruence. wsteps.
  eapply wp_chxlen; [done | exact Ha |]. intros σ1 ca1 W1 S1 _ _ _. wsteps.
  eapply wp_chxlen; [done | exact Hb |]. intros σ2 cb2 W2 S2 Hcb2 _ _. wsteps.
  destruct (wf_lookup _ _ _ _ W2 Ha) as (ca2 & Hca2 & Hoka2).
  pose proof (wf_ok _ _ W2 _ _ _ Hcb2 Hb) as Hokb2. wsteps.
  rewrite (ok_type _ _ _ Hoka2), (ok_type _ _ _ Hokb2).
  change (THIN <? THIN) with false. cbn [orb]. len_pos.
  set (n1 := if n =? ALLCHARS then len sb else n).
  set (n2 := if n1 <? 0 then 0 else n1).
  set (i1 := if i <? 0 then 0 else i).
  set (i2 := if len sb <=? i1 then len sb else i1).
  set (u := if n2 <? len sb - i2 then n2 else len sb - i2).
  assert (Hn2 : 0 <= n2 /\ Z.to_nat n2 = Z.to_nat n1) by (subst n2; destruct (n1 <? 0) eqn:?; lia).
  assert (Hi2 : 0 <= i2 <= len sb)
    by (subst i1 i2; destruct (i <? 0) eqn:?, (len sb <=? _) eqn:?; lia).
  assert (Hdrop : drop (Z.to_nat i2) sb = drop (Z.to_nat i) sb).
  { subst i1 i2. destruct (i <? 0) eqn:?, (len sb <=? _) eqn:?;
      try (replace (Z.to_nat i) with 0%nat by lia; done); try done.
    - replace (Z.to_nat i) with 0%nat by lia.
      replace (Z.to_nat (len sb)) with 0%nat by lia. done.
    - unfold len in *. rewrite !drop_ge by lia. done. }
  assert (Hu : 0 <= u <= len sb /\ len (csub sb i n) = u).
  { unfold csub. fold n1. rewrite len_take, <- Hdrop, len_drop. subst u.
    destruct (n2 <? len sb - i2) eqn:?; lia. }
  rewrite !i32_small by lia.
  apply wp_mono with (P := fun _ σ3 => wf σ3 m /\ stat σ3 = stat σ /\
    exists ca, chixs σ3 !! a = Some ca /\ len sa + u + 3 <= maxlen ca).
  { destruct (maxlen ca2 <? len sa + u + 3) eqn:E; wsteps.
    - eapply wp_chxresize; [done | done | done | lia |].
      intros σ3 c3 W3 S3 E3 _ _ Hm3. wsteps. split_and!; [done | congruence |].
      exists c3. rewrite E3, lookup_insert_eq. split; [done | lia].
    - split_and!; [done | congruence |]. exists ca2. split; [done | lia]. }
  intros r σ3 (W3 & S3 & ca & Hca & Hroom). wsteps.
  destruct (wf_lookup _ _ _ _ W3 Hb) as (cb & Hcb & Hokb).
  pose proof (wf_ok _ _ W3 _ _ _ Hca Ha) as Hoka. wsteps.
  destruct (ok_buf _ _ _ Hoka) as (pa & ra & Hpa & Hbufa & Hra & Hla).
  destruct (ok_buf _ _ _ Hokb) as (pb & rb & Hpb & Hbufb & _). wsteps.
  rewrite (ok_type _ _ _ Hoka), (ok_type _ _ _ Hokb), !Z.mul_1_l.
  assert (Hcs : take (if n2 <? 0 then length (drop (Z.to_nat i2) sb) else Z.to_nat n2)
            (drop (Z.to_nat i2) sb) = csub sb i n).
  { replace (n2 <? 0) with false by lia. unfold csub. fold n1.
    by rewrite (proj2 Hn2), Hdrop. }
  eapply (wp_chxcapc e σ3 pa sa (0 :: ra) _ (drop (Z.to_nat i2) sb) rb);
    [exact Hbufa | by eapply (other_buffer σ3) | | by apply Forall_drop; apply Hokb
    | by eapply chix_ok_room | by right; lia | rewrite Hcs; zlen |].
  { erewrite view_blk by (try done; lia). f_equal. apply drop_app_le. unfold len in *. lia. }
  rewrite Hcs. intros rest Hrest Hl. wsteps. apply HQ. split; [| done].
  eapply (wf_rewrite σ3 _ m a ca);
    [done | done | done | done | done | done | done | done | by left | | | exact Hrest | |].
  - cbn. by rewrite app_assoc.
  - apply Forall_app. split; [apply Hoka | apply csub_chars, Hokb].
  - zlen.
  - zlen.
Qed.

(** [chxcatval]: the low byte of [v] is appended, where that is a character. *)
Lemma wp_chxcatval e σ m a sa width v (Q : Z -> st -> Prop) :
  wf σ m -> m !! a = Some sa -> len sa + 5 < 2 ^ 31 -> is_char (Z.land v 255) ->
  (forall σ', evolves σ (<[a := sa ++ [Z.land v 255]]> m) σ' -> Q 1 σ') ->
  wp (chxcatval (Some a) width v) e σ Q.
Proof.
  intros W Ha Hbig Hv HQ. unfold chxcatval, guard. wsteps. wguard. wsteps.
  destruct (wf_lookup _ _ _ _ W Ha) as (c0 & Hc0 & Hok0). wsteps.
  apply wp_mono with (P := fun n σ1 => n = len sa /\ wf σ1 m /\ stat σ1 = stat σ /\
    exists c, chixs σ1 !! a = Some c /\ actlen c = len sa).
  { destruct (ok_act _ _ _ Hok0) as [E | E]; rewrite E.
    - cbn. eapply wp_chxlen; [done | exact Ha |]. intros. eauto 10.
    - len_pos. replace (len sa <? 0) with false by lia. wsteps. eauto 10. }
  intros n σ1 (-> & W1 & S1 & c1 & Hc1 & Hact1). wsteps. len_pos. rewrite !i32_small by lia.
  apply wp_mono with (P := fun r σ2 => r = 1 /\ wf σ2 m /\ stat σ2 = stat σ /\
    exists c, chixs σ2 !! a = Some c /\ actlen c = len sa /\ len sa + 2 < maxlen c).
  { destruct (maxlen c1 <=? len sa + 2) eqn:E; wsteps.
    - eapply wp_chxresize; [done | done | done | lia |].
      intros σ2 c2 W2 S2 E2 ? _ Hm2. split_and!; [done | done | congruence |].
      exists c2. rewrite E2, lookup_insert_eq. split_and!; [done | congruence | lia].
    - split_and!; [done | done | congruence |]. exists c1. split_and!; [done | done | lia]. }
  intros r σ2 (-> & W2 & S2 & c & Hc & Hact & Hroom). cbn [Z.eqb]. wsteps.
  pose proof (wf_ok _ _ W2 _ _ _ Hc Ha) as Hok.
  destruct (ok_buf _ _ _ Hok) as (p & r & Hp & Hbuf & Hr & Hl). wsteps.
  eapply wp_stb; [exact Hbuf | zlen |]. rewrite insert_len_app. wsteps. cbn [padd].
  destruct r as [| r0 r]; [zlen |].
  replace (len sa + 1) with (len (sa ++ [Z.land v 255])) by zlen.
  eapply wp_stb; [cbn; apply lookup_insert_eq | zlen |]. wsteps. cbn [blocks set_blocks chixs].
  rewrite set_blocks_twice, insert_insert_eq.
  replace (sa ++ Z.land v 255 :: r0 :: r) with ((sa ++ [Z.land v 255]) ++ r0 :: r)
    by (by rewrite <- app_assoc).
  rewrite insert_len_app. apply HQ. split; [| done].
  inversion Hr; subst.
  eapply (wf_rewrite σ2 _ m a c) with (rest := r);
    [done | done | done | done | done | done | done | done | right | done | | done | |]; cbn.
  - rewrite Hact, i32_small by lia. zlen.
  - apply Forall_app. split; [apply Hok | by constructor].
  - zlen.
  - zlen.
Qed.
