(* ===== verification/ChixEdit.v ===== *)
(** Specifications of the chix functions that read and edit single characters
    or copy whole strings (chxvalue, chxsetval, chxtrunc, chxtrim, chxchomp,
    chxofascii, chxcpy, chxconc, chxalsub). *)
From S2P Require Import Prelude Memory Wp Chix ChixInv ChixCore.

(** ** Reading *)

(** The character at [n >= 0], or 0 past the end. *)
Definition cval (s : list Z) (n : Z) : Z := default 0 (s !! Z.to_nat n).

Lemma cval_nil n : cval [] n = 0.
Proof. done. Qed.
Lemma cval_past s n : len s <= n -> cval s n = 0.
Proof. intros H. unfold cval, len in *. by rewrite lookup_ge_None_2 by lia. Qed.
Lemma cval_in s n : Forall is_char s -> 0 <= n < len s -> is_char (cval s n).
Proof.
  intros Hs Hn. unfold cval. destruct (s !! Z.to_nat n) as [v |] eqn:E; cbn.
  - rewrite Forall_forall in Hs. apply Hs. apply list_elem_of_lookup. by eexists.
  - apply lookup_ge_None_1 in E. unfold len in *. lia.
Qed.
Lemma cval_zero s n : Forall is_char s -> 0 <= n -> cval s n = 0 <-> len s <= n.
Proof.
  intros Hs Hn. split; [| apply cval_past]. intros E.
  destruct (decide (len s <= n)); [done |].
  pose proof (cval_in s n Hs) as H. unfold is_char in H. lia.
Qed.
Lemma cval_drop s n : Forall is_char s -> 0 <= n < len s ->
  drop (Z.to_nat n) s = cval s n :: drop (Z.to_nat (n + 1)) s.
Proof.
  intros Hs Hn. unfold cval. destruct (s !! Z.to_nat n) as [v |] eqn:E; cbn.
  - rewrite (drop_S _ _ _ E). by replace (Z.to_nat (n + 1)) with (S (Z.to_nat n)) by lia.
  - apply lookup_ge_None_1 in E. unfold len in *. lia.
Qed.

Lemma wp_chxvalue e σ m l s n (Q : Z -> st -> Prop) :
  wf σ m -> m !! l = Some s -> 0 <= n ->
  (forall σ', evolves σ m σ' ->
     (forall l', l' ≠ l -> chixs σ' !! l' = chixs σ !! l') -> Q (cval s n) σ') ->
  wp (chxvalue (Some l) n) e σ Q.
Proof.
  intros W Hs Hn HQ. unfold chxvalue, guard. wsteps. wguard. wsteps.
  destruct (wf_lookup _ _ _ _ W Hs) as (c0 & Hc0 & Hok0). wsteps.
  apply wp_mono with (P := fun _ σ1 => wf σ1 m /\ stat σ1 = stat σ /\
    (forall l', l' ≠ l -> chixs σ1 !! l' = chixs σ !! l') /\
    exists c, chixs σ1 !! l = Some c /\ actlen c = len s).
  { destruct (ok_act _ _ _ Hok0) as [E | E]; rewrite E.
    - change (-1 <? 0) with true. wsteps. eapply wp_chxlen; [done | exact Hs |]. intros. wsteps. eauto 10.
    - len_pos. replace (len s <? 0) with false by lia. wsteps. eauto 10. }
  intros _ σ1 (W1 & S1 & F1 & c & Hc & Hact). wsteps. rewrite Hact.
  destruct (len s <=? n) eqn:E; wsteps.
  { assert (Ev : cval s n = 0) by (apply cval_past; lia).
    rewrite Ev in HQ. by apply HQ. }
  pose proof (wf_ok _ _ W1 _ _ _ Hc Hs) as Hok.
  destruct (ok_buf _ _ _ Hok) as (b & rest & Hp & Hbuf & _). wsteps.
  eapply wp_ldb; [| by apply HQ].
  erewrite view_blk by done. rewrite drop_app_le by (unfold len in *; lia).
  rewrite cval_drop by (try apply Hok; lia). done.
Qed.

Lemma wp_EMPTYCHX e σ m l s (Q : bool -> st -> Prop) :
  wf σ m -> m !! l = Some s ->
  (forall σ', evolves σ m σ' -> Q (bool_decide (s = [])) σ') ->
  wp (EMPTYCHX (Some l)) e σ Q.
Proof.
  intros W Hs HQ. unfold EMPTYCHX. wsteps.
  eapply wp_chxvalue; [done | done | lia |]. intros σ' E _. wsteps.
  destruct (wf_lookup _ _ _ _ W Hs) as (c & _ & Hok). apply ok_chars in Hok.
  replace (cval s 0 =? 0) with (bool_decide (s = [])); [by apply HQ |].
  destruct s as [| v s]; [done |]. inversion Hok as [| ? ? Hv]; subst. unfold is_char in Hv.
  rewrite bool_decide_eq_false_2 by done. symmetry. apply Z.eqb_neq.
  change (cval (v :: s) 0) with v. lia.
Qed.

Lemma wp_chxtype e σ m l s (Q : Z -> st -> Prop) :
  wf σ m -> m !! l = Some s -> Q THIN σ -> wp (chxtype (Some l)) e σ Q.
Proof.
  intros W Hs HQ. destruct (wf_lookup _ _ _ _ W Hs) as (c & Hc & Hok).
  unfold chxtype. wsteps. rewrite (ok_FREED _ _ _ Hok), (ok_ISCHIX _ _ _ Hok). cbn [negb].
  wsteps. by rewrite (ok_type _ _ _ Hok).
Qed.

(** ** Writing one character *)

Lemma chars_insert s i v : Forall is_char s -> is_char v -> Forall is_char (<[i := v]> s).
Proof. intros Hs Hv. by apply Forall_insert. Qed.

(** Storing a character inside the string. *)
Lemma wf_store σ m l c b s rest pos v :
  wf σ m -> chixs σ !! l = Some c -> m !! l = Some s -> cp c = Some b ->
  blocks σ !! b = Some (s ++ 0 :: rest) -> 0 <= pos < len s -> is_char v ->
  wf (set_blocks σ (<[b := <[Z.to_nat pos := v]> (s ++ 0 :: rest)]> (blocks σ)))
     (<[l := <[Z.to_nat pos := v]> s]> m).
Proof.
  intros W Hc Hs Hp Hbuf Hpos Hv. pose proof (wf_ok _ _ W _ _ _ Hc Hs) as Hok.
  destruct (chix_ok_room _ _ _ _ _ Hok Hp Hbuf) as [Hbytes Hl].
  rewrite insert_app_l by (unfold len in *; lia).
  eapply (wf_rewrite σ _ m l c c b s);
    [done | done | done | exact Hp | cbn; by rewrite insert_id | done | done | done | | done | | | |].
  - rewrite len_insert. apply Hok.
  - apply chars_insert; [apply Hok | done].
  - by inversion Hbytes.
  - pose proof (ok_len _ _ _ Hok). zlen.
  - zlen.
Qed.

(** [chxsetval] changes the character at [pos], if there is one. *)
Lemma wp_chxsetval e σ m l s pos width v (Q : Z -> st -> Prop) :
  wf σ m -> m !! l = Some s -> 0 <= pos -> is_char (Z.land v 255) ->
  (forall σ', evolves σ (<[l := <[Z.to_nat pos := Z.land v 255]> s]> m) σ' ->
     Q (if pos <? len s then 1 else 0) σ') ->
  wp (chxsetval (Some l) pos width v) e σ Q.
Proof.
  intros W Hs Hpos Hv HQ. unfold chxsetval, guard. wsteps. wguard. wsteps.
  eapply wp_chxlen; [done | exact Hs |]. intros σ1 c W1 S1 Hc Hact _. wsteps.
  replace (len s <=? pos) with (negb (pos <? len s)) by lia.
  destruct (pos <? len s) eqn:E; cbn [negb]; wsteps.
  2: { apply HQ. rewrite list_insert_ge by (unfold len in *; lia).
       rewrite insert_id by done. by split. }
  pose proof (wf_ok _ _ W1 _ _ _ Hc Hs) as Hok.
  destruct (ok_buf _ _ _ Hok) as (b & rest & Hp & Hbuf & Hr & Hl).
  rewrite (ok_type _ _ _ Hok). change (THIN <? THIN) with false. wsteps. cbn [Z.eqb]. wsteps.
  eapply wp_stb; [exact Hbuf | zlen |]. wsteps.
  apply HQ. split; [| done]. eapply wf_store; try done. lia.
Qed.

(** ** Shortening *)

(** Cutting the buffer at [pos] leaves the first [pos] characters. *)
Lemma wf_cut σ σ' m l c b s rest pos :
  wf σ m -> chixs σ !! l = Some c -> m !! l = Some s -> cp c = Some b ->
  blocks σ !! b = Some (s ++ 0 :: rest) -> 0 <= pos <= len s ->
  chixs σ' = <[l := set_actlen c pos]> (chixs σ) ->
  blocks σ' = <[b := <[Z.to_nat pos := 0]> (s ++ 0 :: rest)]> (blocks σ) ->
  fresh_loc σ' = fresh_loc σ -> reserved σ' = reserved σ ->
  wf σ' (<[l := take (Z.to_nat pos) s]> m).
Proof.
  intros W Hc Hs Hp Hbuf Hpos E1 E2 E3 E4.
  pose proof (wf_ok _ _ W _ _ _ Hc Hs) as Hok. pose proof (ok_len _ _ _ Hok).
  destruct (chix_ok_room _ _ _ _ _ Hok Hp Hbuf) as [Hbytes Hl].
  assert (Hch := ok_chars _ _ _ Hok).
  eapply (wf_rewrite σ σ' m l c _ b s _ (drop (S (Z.to_nat pos)) (s ++ 0 :: rest)));
    [done | done | done | done | exact E1 | done | done | done | | | | | |].
  - right. cbn. rewrite len_take. unfold len in *. lia.
  - rewrite E2. f_equal.
    rewrite insert_take_drop by (rewrite length_app; simpl; unfold len in *; lia).
    rewrite take_app_le by (unfold len in *; lia). done.
  - by apply Forall_take.
  - apply Forall_drop. apply Forall_app. split; [by apply chars_bytes | done].
  - rewrite len_take. unfold len in *. lia.
  - zlen.
Qed.

Lemma wp_chxtrunc e σ m l s pos (Q : Z -> st -> Prop) :
  wf σ m -> m !! l = Some s -> 0 <= pos ->
  (forall σ', evolves σ (<[l := take (Z.to_nat pos) s]> m) σ' ->
     Q (if pos <? len s then 1 else 0) σ') ->
  wp (chxtrunc (Some l) pos) e σ Q.
Proof.
  intros W Hs Hpos HQ. unfold chxtrunc, guard. wsteps. wguard. wsteps.
  eapply wp_chxlen; [done | exact Hs |]. intros σ1 c W1 S1 Hc Hact _. wsteps.
  replace (len s <=? pos) with (negb (pos <? len s)) by lia.
  destruct (pos <? len s) eqn:E; cbn [negb]; wsteps.
  2: { apply HQ. rewrite take_ge by (unfold len in *; lia).
       rewrite insert_id by done. by split. }
  pose proof (wf_ok _ _ W1 _ _ _ Hc Hs) as Hok.
  destruct (ok_buf _ _ _ Hok) as (b & rest & Hp & Hbuf & Hr & Hl). wsteps.
  eapply wp_stb; [exact Hbuf | zlen |]. wsteps.
  apply HQ. split; [| done]. eapply (wf_cut σ1); try done. lia.
Qed.


(** ** Trimming *)

(** The string without its longest suffix of characters satisfying [f]. *)
Fixpoint rstrip (f : Z -> bool) (s : list Z) : list Z :=
  match s with
  | [] => []
  | c :: s' => match rstrip f s' with
               | [] => if f c then [] else [c]
               | t => c :: t
               end
  end.

Lemma rstrip_snoc f s c :
  rstrip f (s ++ [c]) = if f c then rstrip f s else s ++ [c].
Proof.
  induction s as [| d s IH]; [done |]. simpl. rewrite IH. destruct (f c); [done |].
  by destruct s.
Qed.

Lemma rstrip_prefix f s : rstrip f s = take (length (rstrip f s)) s.
Proof.
  induction s as [| c s IH] using rev_ind; [done |]. rewrite rstrip_snoc.
  destruct (f c); [| by rewrite take_ge].
  rewrite IH at 1. rewrite take_app_le; [done |]. rewrite IH, length_take. lia.
Qed.

Lemma rstrip_length f s : len (rstrip f s) <= len s.
Proof. rewrite rstrip_prefix. zlen. Qed.

(** What is left does not end in a character satisfying [f], and everything
    that was cut satisfies it. *)
Lemma rstrip_spec f s :
  (forall c, last (rstrip f s) = Some c -> f c = false) /\
  exists t, s = rstrip f s ++ t /\ Forall (fun c => f c = true) t.
Proof.
  induction s as [| c s [IH1 (t & IH2 & IH3)]] using rev_ind; [split; [done | by exists []] |].
  rewrite rstrip_snoc. destruct (f c) eqn:E.
  - split; [done |]. exists (t ++ [c]). split; [by rewrite app_assoc, <- IH2 |].
    apply Forall_app. split; [done | by repeat constructor].
  - split; [| exists []; by rewrite app_nil_r].
    intros d. rewrite last_snoc. by intros [= ->].
Qed.

Local Lemma trim_loop e σ b f buf s fuel (Q : Z -> st -> Prop) :
  blocks σ !! b = Some (s ++ buf) -> (length s < fuel)%nat ->
  Q (len (rstrip f s) - 1) σ ->
  wp (loop fuel (fun last =>
    if last <? 0 then mret (inr last) else
    v ← ldb (padd (PBlk b 0) last);
    if (f v : bool) then mret (inl (last - 1)) else mret (inr last)) (len s - 1)) e σ Q.
Proof.
  revert fuel buf. induction s as [| c s IH] using rev_ind; intros fuel buf Hb Hf HQ;
    (destruct fuel as [| fuel]; [lia |]); rewrite loop_step.
  { cbn [len length Z.of_nat]. change (0 - 1 <? 0) with true. wsteps. done. }
  rewrite length_app in Hf. simpl in Hf. rewrite len_app. change (len [c]) with 1. len_pos.
  replace (len s + 1 - 1 <? 0) with false by lia. wsteps.
  replace (len s + 1 - 1) with (len s) by lia.
  eapply wp_ldb.
  { cbn [padd]. erewrite view_blk by (try done; lia). rewrite <- app_assoc, Z.add_0_l.
    rewrite drop_len_app. done. }
  rewrite rstrip_snoc in HQ. destruct (f c); wsteps.
  - apply (IH fuel ([c] ++ buf)); [by rewrite app_assoc | lia | done].
  - rewrite len_app in HQ. change (len [c]) with 1 in HQ. by replace (len s) with (len s + 1 - 1) by lia.
Qed.

Lemma wp_trim_with e σ m l s f (Q : Z -> st -> Prop) :
  wf σ m -> m !! l = Some s ->
  (forall σ', evolves σ (<[l := rstrip f s]> m) σ' -> Q 1 σ') ->
  wp (trim_with (Some l) f) e σ Q.
Proof.
  intros W Hs HQ. destruct (wf_lookup _ _ _ _ W Hs) as (c0 & Hc0 & Hok0).
  unfold trim_with. wsteps.
  apply wp_mono with (P := fun n σ1 => n = len s /\ evolves σ m σ1).
  { destruct (ok_act _ _ _ Hok0) as [E | E]; rewrite E.
    - change (0 <=? -1) with false. wsteps. eapply wp_chxlen; [done | exact Hs |].
      intros. by split.
    - len_pos. replace (0 <=? len s) with true by lia. wsteps. by split. }
  intros n σ1 (-> & W1 & S1). destruct (wf_lookup _ _ _ _ W1 Hs) as (c & Hc & Hok).
  destruct (ok_buf _ _ _ Hok) as (b & rest & Hp & Hbuf & Hr & Hl). wsteps.
  pose proof (rstrip_length f s). len_pos.
  eapply trim_loop; [exact Hbuf | rewrite to_nat_len; lia |]. wsteps. cbn [padd].
  eapply wp_stb; [exact Hbuf | zlen |]. wsteps. apply HQ.
  split; [| done].
  assert (Hpre : rstrip f s = take (Z.to_nat (len (rstrip f s))) s)
    by (rewrite to_nat_len; apply rstrip_prefix).
  set (k := len (rstrip f s)) in *. rewrite Hpre.
  eapply (wf_cut σ1); try done; cbn; repeat f_equal; lia.
Qed.

(** ** From a C string *)

(** [chxofascii]: [a := str]. *)
Lemma wp_chxofascii e σ m a sa s (Q : Z -> st -> Prop) :
  wf σ m -> m !! a = Some sa -> Forall is_char s -> len s + 5 < 2 ^ 31 ->
  (forall σ', evolves σ (<[a := s]> m) σ' -> Q 1 σ') ->
  wp (chxofascii (Some a) (Some s)) e σ Q.
Proof.
  intros W Ha Hch Hbig HQ. unfold chxofascii, guard. wsteps. wguard. wsteps.
  destruct (wf_lookup _ _ _ _ W Ha) as (c0 & Hc0 & Hok0). len_pos.
  rewrite (i32_small (len s)), (i32_small (len s + 5)) by lia. wsteps.
  apply wp_mono with (P := fun r σ1 => r = 1 /\ evolves σ m σ1 /\
    exists c, chixs σ1 !! a = Some c /\ len s + 5 <= maxlen c).
  { destruct (maxlen c0 <? len s + 5) eqn:E; wsteps.
    - eapply wp_chxresize; [done | done | done | lia |]. intros σ' c' ? ? Hc' ? ? ?.
      split_and!; try done. exists c'. rewrite Hc', lookup_insert_eq. by split.
    - split_and!; try done. exists c0. split; [done | lia]. }
  intros r σ1 (-> & [W1 S1] & c1 & Hc1 & Hmax). cbn [Z.eqb]. wsteps.
  pose proof (wf_ok _ _ W1 _ _ _ Hc1 Ha) as Hok1.
  destruct (ok_buf _ _ _ Hok1) as (b & rest & Hp & _).
  eapply chxclear_exact; [done.. |]. intros σ2 W2 S2 Hc2. wsteps.
  assert (Hc2' : chixs σ2 !! a = Some (set_actlen c1 0)) by (rewrite Hc2; apply lookup_insert_eq).
  assert (Ha2 : <[a := []]> m !! a = Some []) by apply lookup_insert_eq. wsteps.
  destruct (ok_buf _ _ _ (wf_ok _ _ W2 _ _ _ Hc2' Ha2)) as (b' & rest2 & Hp2 & Hbuf & Hr & Hl).
  cbn in Hp2, Hl. rewrite Hp in Hp2. injection Hp2 as <-.
  eapply (wp_chxcapc_all _ _ b []); [exact Hbuf | done | | done | | zlen |].
  { done. }
  { constructor; [unfold is_byte; lia | done]. }
  intros rest' Hr' Hl'. wsteps. cbn [chixs set_blocks].
  apply HQ. split; [| cbn; congruence].
  rewrite <- (insert_insert_eq m a s []).
  eapply (wf_rewrite σ2); [exact W2 | done | done | done | done | done | done | done | | done | done | done | |].
  - by right.
  - change (maxlen (set_actlen c1 0)) with (maxlen c1). lia.
  - change (maxlen (set_actlen c1 0)) with (maxlen c1). zlen.
Qed.

(** ** Copying *)

(** The bytes of one block are copied over those of another, or of the same. *)
Lemma wp_copy_bytes e σ a b bufa bufb n (Q : unit -> st -> Prop) :
  blocks σ !! a = Some bufa -> blocks σ !! b = Some bufb ->
  0 <= n <= len bufa -> n <= len bufb ->
  Q tt (set_blocks σ (<[a := take (Z.to_nat n) bufb ++ drop (Z.to_nat n) bufa]> (blocks σ))) ->
  wp (copy_bytes (PBlk a 0) (PBlk b 0) n) e σ Q.
Proof.
  intros Ha Hb Hn Hn' HQ. unfold copy_bytes.
  eapply (wp_loop (fun i σ' => 0 <= i <= n /\
     σ' = set_blocks σ (<[a := take (Z.to_nat i) bufb ++ drop (Z.to_nat i) bufa]> (blocks σ)))
     (fun i _ => Z.to_nat (n - i))); [| | lia].
  2: { split; [lia |]. cbn. rewrite drop_0, insert_id by done. by destruct σ. }
  intros i σ' [Hi ->]. destruct (n <=? i) eqn:E; wsteps.
  { assert (i = n) as -> by lia. done. }
  cbn [padd]. rewrite !Z.add_0_l.
  destruct (lookup_lt_is_Some_2 bufb (Z.to_nat i)) as [v Hv]; [unfold len in *; lia |].
  destruct (lookup_lt_is_Some_2 bufa (Z.to_nat i)) as [w Hw]; [unfold len in *; lia |].
  assert (Hti : length (take (Z.to_nat i) bufb) = Z.to_nat i)
    by (rewrite length_take; unfold len in *; lia).
  assert (Htake : take (Z.to_nat (i + 1)) bufb = take (Z.to_nat i) bufb ++ [v]).
  { replace (Z.to_nat (i + 1)) with (S (Z.to_nat i)) by lia. by apply take_S_r. }
  eapply wp_ldb.
  { destruct (decide (a = b)) as [<- | Hne].
    - rewrite Ha in Hb. injection Hb as ->. rewrite take_drop, insert_id by done.
      erewrite view_blk by (try exact Ha; lia). by rewrite (drop_S _ _ _ Hv).
    - cbn [blocks set_blocks]. erewrite view_blk by (rewrite ?lookup_insert_ne by done; try exact Hb; lia).
      by rewrite (drop_S _ _ _ Hv). }
  wsteps. eapply wp_stb; [apply lookup_insert_eq | |].
  { rewrite len_app, len_take, len_drop. lia. }
  wsteps. split; [| lia]. split; [lia |]. unfold set_blocks. cbn. f_equal.
  rewrite insert_insert_eq. f_equal. rewrite (drop_S _ _ _ Hw).
  rewrite insert_app_r_alt, Hti, Nat.sub_diag by lia. cbn.
  rewrite Htake, <- app_assoc. cbn. do 3 f_equal. lia.
Qed.

(** [chxcpy]: [a := b], where [a] may be [b]. *)
Lemma wp_chxcpy e σ m a b sa sb (Q : Z -> st -> Prop) :
  wf σ m -> m !! a = Some sa -> m !! b = Some sb -> len sb + 25 < 2 ^ 31 ->
  (forall σ', evolves σ (<[a := sb]> m) σ' -> Q 1 σ') ->
  wp (chxcpy (Some a) (Some b)) e σ Q.
Proof.
  intros W Ha Hb Hbig HQ. unfold chxcpy, guard. wsteps. wguard. wsteps.
  destruct (wf_lookup _ _ _ _ W Ha) as (ca0 & Hca0 & Hoka0).
  destruct (wf_lookup _ _ _ _ W Hb) as (cb0 & Hcb0 & Hokb0). wsteps.
  rewrite (ok_type _ _ _ Hoka0), (ok_type _ _ _ Hokb0). change (THIN <? THIN) with false. wsteps.
  eapply wp_chxlen; [done | exact Hb |]. intros σ1 cb1 W1 S1 Hcb1 Hact _. len_pos. wsteps.
  rewrite (i32_small (len sb + 1)), (i32_small (len sb + 1 + 20)) by lia.
  destruct (wf_lookup _ _ _ _ W1 Ha) as (ca1 & Hca1 & Hoka1). wsteps.
  rewrite (ok_type _ _ _ Hoka1). change (THIN <? THIN) with false. wsteps.
  apply wp_mono with (P := fun _ σ2 => evolves σ m σ2 /\
    (exists c, chixs σ2 !! a = Some c /\ len sb < maxlen c) /\
    (exists c, chixs σ2 !! b = Some c /\ actlen c = len sb)).
  { destruct (maxlen ca1 <? len sb + 1) eqn:E; wsteps.
    - eapply wp_chxresize; [done | done | done | lia |]. intros σ' c' ? ? Hc' Hact' ? ?. wsteps.
      split_and!; [by split; [| congruence] | exists c'; rewrite Hc', lookup_insert_eq; by split; [| lia] |].
      rewrite Hc'. destruct (decide (a = b)) as [<- | Hne].
      + exists c'. rewrite lookup_insert_eq. split; [done | congruence].
      + exists cb1. by rewrite lookup_insert_ne.
    - split_and!; [by split | exists ca1; split; [done | lia] | by exists cb1]. }
  intros _ σ2 ([W2 S2] & (ca & Hca & Hmax) & (cb & Hcb & Hactb)). wsteps.
  pose proof (wf_ok _ _ W2 _ _ _ Hca Ha) as Hoka. pose proof (wf_ok _ _ W2 _ _ _ Hcb Hb) as Hokb.
  destruct (ok_buf _ _ _ Hoka) as (pa & ra & Hpa & Hbufa & Hra & Hla).
  destruct (ok_buf _ _ _ Hokb) as (pb & rb & Hpb & Hbufb & Hrb & Hlb). wsteps.
  eapply wp_copy_bytes; [exact Hbufa | exact Hbufb | zlen | zlen |]. wsteps. cbn [chixs set_blocks].
  apply HQ. split; [| done].
  assert (Etake : take (Z.to_nat (len sb + 1)) (sb ++ 0 :: rb) = sb ++ [0]).
  { replace (Z.to_nat (len sb + 1)) with (length sb + 1)%nat by (unfold len; lia).
    rewrite take_app_add. done. }
  eapply (wf_rewrite σ2 _ m a ca _ pa sa sb (drop (Z.to_nat (len sb + 1)) (sa ++ 0 :: ra)));
    try done; [by right | | by apply Hokb | | zlen].
  - cbn. rewrite Etake, <- app_assoc. done.
  - apply Forall_drop, Forall_app. split; [apply chars_bytes, Hoka |].
    constructor; [unfold is_byte; lia | done].
Qed.

(** [chxalsub]: a new chix with a substring. *)
Lemma wp_chxalsub e σ m a sa i n (Q : Chix -> st -> Prop) :
  wf σ m -> m !! a = Some sa -> len sa + 5 < 2 ^ 31 ->
  (forall l σ', m !! l = None -> evolves σ (<[l := csub sa i n]> m) σ' -> Q (Some l) σ') ->
  wp (chxalsub (Some a) i n) e σ Q.
Proof.
  intros W Ha Hbig HQ. unfold chxalsub, guard. wsteps. wguard. wsteps.
  destruct (wf_lookup _ _ _ _ W Ha) as (c & Hc & Hok). wsteps.
  eapply wp_chxalloc; [done | lia |]. intros l cl σ1 Hl [W1 S1] Hcl _ _ _. wsteps.
  assert (l ≠ a) by congruence.
  eapply (wp_chxcatsub _ σ1 _ l a [] sa);
    [done | done | apply lookup_insert_eq | by rewrite lookup_insert_ne | zlen |].
  intros σ2 [W2 S2]. wsteps. rewrite insert_insert_eq in W2.
  apply HQ; [done |]. split; [done | congruence].
Qed.

(** The buffer of [z] is handed to [a], whose own is released; [z] is gone. *)
Lemma wf_hand_over σ σ' m a z ca cz pa s :
  wf σ (<[z := s]> m) -> m !! z = None -> z ≠ a ->
  chixs σ !! a = Some ca -> chixs σ !! z = Some cz -> cp ca = Some pa ->
  chixs σ' = delete z (<[a := cz]> (chixs σ)) -> blocks σ' = delete pa (blocks σ) ->
  fresh_loc σ' = fresh_loc σ -> reserved σ' = 0 -> wf σ' (<[a := s]> m).
Proof.
  intros W Hz Hne Ha Hcz Hpa E1 E2 E3 E4.
  assert (Wr : wf (set_chixs σ (delete z (chixs σ))) m).
  { rewrite <- (delete_insert_id m z s) by done.
    eapply (wf_remove σ); [done | done | | apply W | done].
    split; cbn; [| apply W]. intros l Hl. rewrite lookup_delete. case_decide; [done | by apply W]. }
  eapply (wf_put _ σ' m a cz s Wr); [| | done | |].
  - rewrite E1. cbn. by rewrite delete_insert_ne.
  - split; rewrite E3; intros l Hl.
    + rewrite E1, lookup_delete. case_decide; [done |].
      rewrite lookup_insert_ne; [by apply W |]. intros <-.
      rewrite (wf_chixs_fresh _ _ W) in Ha by done. done.
    + rewrite E2, lookup_delete. case_decide; [done | by apply W].
  - cbn. intros l c1 Hl Hc1. rewrite lookup_delete in Hc1. case_decide; [done |]. split.
    + intros E. by apply (wf_inj _ _ W l z c1 cz) in E.
    + intros b Hb. rewrite E2, lookup_delete_ne; [done |]. intros <-.
      apply Hl. apply (wf_inj _ _ W l a c1 ca); [done | done | congruence].
  - rewrite E2. apply chix_ok_frame_delete; [| eapply wf_ok; [done | done | apply lookup_insert_eq]].
    intros E. apply Hne. apply (wf_inj _ _ W z a cz ca); [done | done | congruence].
Qed.

(** [chxconc]: [a := b ++ c]; any of the three may be the same chix. *)
Lemma wp_chxconc e σ m a b c sa sb sc (Q : Z -> st -> Prop) :
  wf σ m -> m !! a = Some sa -> m !! b = Some sb -> m !! c = Some sc ->
  len sb + len sc + 25 < 2 ^ 31 ->
  (forall σ', evolves σ (<[a := sb ++ sc]> m) σ' -> Q 1 σ') ->
  wp (chxconc (Some a) (Some b) (Some c)) e σ Q.
Proof.
  intros W Ha Hb Hc Hbig HQ. unfold chxconc, guard. wsteps. wguard. wsteps. len_pos.
  destruct (wf_lookup _ _ _ _ W Hb) as (cb & Hcb & Hokb). wsteps.
  eapply wp_chxalloc; [done | apply Hokb |]. intros z cz0 σ1 Hz [W1 S1] _ _ _ _. wsteps.
  assert (z ≠ a /\ z ≠ b /\ z ≠ c) as (Hza & Hzb & Hzc) by (split_and!; congruence).
  eapply (wp_chxcpy _ σ1 _ z b [] sb);
    [done | apply lookup_insert_eq | by rewrite lookup_insert_ne | lia |].
  intros σ2 [W2 S2]. rewrite insert_insert_eq in W2. wsteps.
  eapply (wp_chxcat _ σ2 _ z c sb sc);
    [done | done | apply lookup_insert_eq | by rewrite lookup_insert_ne | lia |].
  intros σ3 [W3 S3]. rewrite insert_insert_eq in W3. wsteps.
  destruct (wf_lookup _ _ a sa W3) as (ca & Hca & Hoka); [by rewrite lookup_insert_ne |].
  destruct (wf_lookup _ _ z (sb ++ sc) W3) as (cz & Hcz & Hokz); [apply lookup_insert_eq |]. wsteps.
  destruct (ok_buf _ _ _ Hoka) as (pa & ra & Hpa & Hbufa & _). rewrite Hpa.
  eapply wp_sysfree; [exact Hbufa |]. wsteps.
  eapply wp_sysfree_chix; [cbn; rewrite lookup_insert_ne by done; exact Hcz |]. wsteps.
  apply HQ. split; [| cbn; congruence].
  eapply (wf_hand_over σ3 _ m a z ca cz pa); try done. cbn. apply W3.
Qed.
