(* ===== verification/ChixSearch.v ===== *)
(** Searching, comparing and replacing in chix (chx/chxscan.c, chxindex.c,
    chxrevde.c, chxsubeq.c, chxeq.c, chxeqf.c, chxabr.c, chxcolla.c,
    chxcompa.c, chxbreak.c, chxalter.c, chxrepla.c, chxrepva.c). *)
From S2P Require Import Prelude Memory Wp Chix ChixInv ChixCore ChixEdit.

(** ** The operations *)

(** The first difference: its position and the two characters there. *)
Definition chxscan (ap bp : ptr) : M (Z * Z * Z) :=
  fuel ← room bp;
  loop (S fuel) (fun '(ap, bp, n) =>
    a ← ldb ap;
    b ← ldb bp;
    if negb (a =? b) || (a =? 0) then mret (inr (n, a, b))
    else mret (inl (padd ap 1, padd bp 1, n + 1))) (ap, bp, 0).

Definition chxindex (x : Chix) (pos : Z) (y : Chix) : M Z :=
  ok ← guard "chxindex" [x; y];
  if negb ok then mret (-1) else
  v ← chxvalue y 0;
  if v =? 0 then mret (-1) else
  cx ← ld x;
  when (actlen cx <? 0) (chxlen x;; mret tt);;
  cx ← ld x;
  if actlen cx <=? pos then mret (-1) else
  cy ← ld y;
  p ← at_p cx pos;
  yp ← at_p cy 0;
  fuel ← room p;
  loop (S fuel) (fun '(i, p) =>
    v ← ldb p;
    if v =? 0 then mret (inr (-1)) else
    '(_, _, y_end) ← chxscan p yp;
    if y_end =? 0 then mret (inr i) else mret (inl (i + 1, padd p 1))) (pos, p).

Definition chxrevdex (x : Chix) (pos : Z) (y : Chix) : M Z :=
  ok ← guard "chxrevdex" [x; y];
  if negb ok then mret (-1) else
  v ← chxvalue y 0;
  if v =? 0 then mret (-1) else
  cx ← ld x;
  when (actlen cx <? 0) (chxlen x;; mret tt);;
  cx ← ld x;
  let pos := if (pos =? ALLCHARS) || (actlen cx <=? pos) then actlen cx - 1 else pos in
  cy ← ld y;
  p ← at_p cx pos;
  yp ← at_p cy 0;
  loop (S (S (Z.to_nat pos))) (fun '(i, p) =>
    if i <? 0 then mret (inr (-1)) else
    '(_, _, y_end) ← chxscan p yp;
    if y_end =? 0 then mret (inr i) else mret (inl (i - 1, padd p (-1)))) (pos, p).

Definition chxsubeq (x : Chix) (pos : Z) (y : Chix) : M Z :=
  ok ← guard "chxsubeq" [x; y];
  if negb ok then mret 0 else
  cx ← ld x;
  cy ← ld y;
  xp ← at_p cx (pos * ctype cx);
  yp ← at_p cy 0;
  '(differ_at, _, _) ← chxscan xp yp;
  ylen ← chxlen y;
  mret (if differ_at =? ylen then 1 else 0).

(** C's [strcmp]: the difference of the first characters that differ. *)
Definition strcmp (ap bp : ptr) : M Z :=
  '(_, a, b) ← chxscan ap bp; mret (a - b).

Definition chxeqf (x y : Chix) : M Z :=
  cx ← ld x;
  cy ← ld y;
  xp ← at_p cx 0;
  yp ← at_p cy 0;
  r ← strcmp xp yp;
  mret (if r =? 0 then 1 else 0).

Definition chxeq (x y : Chix) : M Z :=
  ok ← guard "chxeq" [x; y];
  if negb ok then mret 0 else chxeqf x y.

Definition chxabr (a b : Chix) : M Z :=
  ok ← guard "chxabr" [a; b];
  if negb ok then mret 0 else
  ea ← EMPTYCHX a;
  if (ea : bool) then mret 0 else
  eb ← EMPTYCHX b;
  if (eb : bool) then mret 0 else
  i ← chxindex a 0 b;
  if i =? 0 then mret 2 else
  i ← chxindex b 0 a;
  if i =? 0 then mret 1 else mret 0.

Definition chxbreak (a fore aft pat : Chix) : M Z :=
  ok ← guard "chxbreak" [a; fore; aft; pat];
  if negb ok then mret 0 else
  chxclear aft;;
  chxclear fore;;
  i ← chxindex a 0 pat;
  if i <? 0 then chxcpy fore a;; mret 0 else
  patlen ← chxlen pat;
  chxcatsub fore a 0 i;;
  chxcatsub aft a (i32 (i + patlen)) ALLCHARS;;
  mret 1.

(** [swap = *a; *a = *z; *z = swap; chxfree (z)] *)
Definition swap_free (a z : Chix) : M unit :=
  swap ← ld a;
  cz ← ld z;
  setf a (fun _ => cz);;
  setf z (fun _ => swap);;
  chxfree z;;
  mret tt.

Definition chxalter (a : Chix) (pos : Z) (b c : Chix) : M Z :=
  oka ← chxcheck a "chxalter";
  if oka =? 0 then mret 0 else
  okb ← chxcheck b "chxalter";
  if okb =? 0 then mret 0 else
  okc ← chxcheck c "chxalter";
  if okc =? 0 then mret 0 else
  va ← chxvalue a 0;
  if va =? 0 then mret 0 else
  vb ← chxvalue b 0;
  if vb =? 0 then mret 0 else
  i ← chxindex a pos b;
  if i <? 0 then mret 0 else
  ca ← ld a;
  cc ← ld c;
  when (ctype ca <? ctype cc) (chxresize a (ctype cc) 0;; mret tt);;
  ca ← ld a;
  z ← chxalloc (maxlen ca) (ctype ca) (cname ca);
  chxcatsub z a 0 i;;
  chxcat z c;;
  lb ← chxlen b;
  chxcatsub z a (i32 (i + lb)) (maxlen ca);;
  swap_free a z;;
  mret 1.

Definition chxreplace (a : Chix) (pos : Z) (b c : Chix) : M Z :=
  ok ← guard "chxreplace" [a; b; c];
  if negb ok then mret 0 else
  va ← chxvalue a 0;
  if va =? 0 then mret 0 else
  vb ← chxvalue b 0;
  if vb =? 0 then mret 0 else
  pos ← chxindex a pos b;
  if pos <? 0 then mret 0 else
  ca ← ld a;
  cc ← ld c;
  when (ctype ca <? ctype cc) (chxresize a (ctype cc) 0;; mret tt);;
  ca ← ld a;
  z ← chxalloc (maxlen ca) (ctype ca) (cname ca);
  chxcatsub z a 0 pos;;
  ca ← ld a;
  p0 ← at_p ca 0;
  fuel ← room p0;
  loop (S fuel) (fun pos =>
    cval ← chxvalue a pos;
    if cval =? 0 then mret (inr tt) else
    ca ← ld a;
    cb ← ld b;
    p ← at_p ca (pos * ctype ca);
    bp ← at_p cb 0;
    '(_, _, b_end) ← chxscan p bp;
    if negb (b_end =? 0) then
      chxcatval z (maxlen ca) cval;; mret (inl (pos + 1))
    else
      chxcat z c;;
      lb ← chxlen b;
      mret (inl (i32 (pos + (lb - 1)) + 1))) pos;;
  swap_free a z;;
  mret 1.

Definition chxrepval (x : Chix) (pos width oldval newval : Z) : M Z :=
  ok ← chxcheck x "chxsetval";
  if ok =? 0 then mret 0 else
  len ← chxlen x;
  if len <=? pos then mret 0 else
  let width := THIN in
  c ← ld x;
  r ← (if ctype c <? width then chxresize x width len else mret 1);
  if r =? 0 then mret 0 else
  loop (S (Z.to_nat (len - pos))) (fun pos =>
    if len <=? pos then mret (inr tt) else
    c ← ld x;
    p ← at_p c (ctype c * pos);
    val ← ldb p;
    if val =? 0 then mret (inr tt) else
    when (val =? oldval) (stb p (Z.land newval 255));;
    mret (inl (pos + 1))) pos;;
  mret 1.

(** ** Collation *)
Definition CLEAR_CT : Z := 0.
Definition ADDRULE_CT : Z := 1.
Definition APPLY_CT : Z := 2.

Definition set_rules (σ : st) (r : list rule_t) : st :=
  let t := stat σ in
  set_stat σ (mkStatics (sc_blanks t) (ctab t) r (bt_blank t) (bt_int4 t) (bt_token t) (bt_nextword t)).

(** The collating value of [a]: the last rule whose range [a] is in wins. *)
Definition apply_rules (rs : list rule_t) (a : Z) : Z :=
  foldl (fun value r =>
    if (a <? rule_a r) || (rule_b r <? a) then value
    else i32 (rule_c r + i32 (rule_i r * (a - rule_a r)))) a rs.

Definition chxcollate (verb a b c i : Z) : M Z :=
  rs ← gets (fun σ => rules (stat σ));
  if verb =? CLEAR_CT then
    foldr (fun _ m => sysfree_static sizeof_rule;; m) (mret tt) rs;;
    modify (fun σ => set_rules σ []);;
    mret 0
  else if verb =? ADDRULE_CT then
    chxmem KStatic sizeof_rule (bytes "chxcollate newrule");;
    modify (fun σ => set_rules σ (rs ++ [mkRule a b c i]));;
    mret 0
  else if (verb =? APPLY_CT) && (a =? 0) then mret 0
  else if verb =? APPLY_CT then mret (apply_rules rs a)
  else mret (-1).

(** The characters of [x], or of the empty literal where [x] is no chix. *)
Definition chix_text (x : Chix) : M ptr :=
  match x with
  | None => mret (PLit [] 0)
  | Some _ =>
      c ← ld x;
      if negb (FREED c) && ISCHIX c then at_p c 0 else mret (PLit [] 0)
  end.

Definition chxcompare (x y : Chix) (len : Z) : M Z :=
  xp ← chix_text x;
  yp ← chix_text y;
  '(diff_pos, x_end, y_end) ← chxscan xp yp;
  if negb (len =? ALLCHARS) && (len <=? diff_pos) then mret 0 else
  if (x_end =? 0) && (y_end =? 0) then mret 0 else
  if (len =? ALLCHARS) && (x_end =? 0) then mret (-1) else
  if (len =? ALLCHARS) && (y_end =? 0) then mret 1 else
  xc ← chxcollate APPLY_CT x_end 0 0 0;
  yc ← chxcollate APPLY_CT y_end 0 0 0;
  if yc <? xc then mret 1 else
  if xc <? yc then mret (-1) else mret 0.

(** ** What they compute *)

(** The length of the longest common prefix. *)
Fixpoint lcp (s t : list Z) : Z :=
  match s, t with
  | x :: s', y :: t' => if x =? y then lcp s' t' + 1 else 0
  | _, _ => 0
  end.

Fixpoint prefixb (b s : list Z) : bool :=
  match b, s with
  | [], _ => true
  | x :: b', y :: s' => (x =? y) && prefixb b' s'
  | _ :: _, [] => false
  end.

Lemma prefixb_spec b s : prefixb b s = true <-> b `prefix_of` s.
Proof.
  revert s. induction b as [| x b IH]; intros s; simpl.
  - split; [intros _; apply prefix_nil | done].
  - destruct s as [| y s]; [split; [done | by intros ?%prefix_nil_not] |].
    rewrite andb_true_iff, IH, Z.eqb_eq. split.
    + intros [-> H]. by apply prefix_cons.
    + intros H. split; [by eapply prefix_cons_inv_1 | by eapply prefix_cons_inv_2].
Qed.

Lemma prefixb_len b s : prefixb b s = true -> len b <= len s.
Proof. rewrite prefixb_spec. intros [k ->]. zlen. Qed.

Lemma lcp_bounds s t : 0 <= lcp s t /\ lcp s t <= len s /\ lcp s t <= len t.
Proof.
  revert t. induction s as [| x s IH]; intros t; simpl; [zlen |].
  destruct t as [| y t]; [zlen |]. specialize (IH t).
  destruct (x =? y); zlen.
Qed.

Lemma lcp_prefix s t : (lcp s t =? len t) = prefixb t s.
Proof.
  revert t. induction s as [| x s IH]; intros [| y t]; try done.
  simpl. rewrite (Z.eqb_sym y x), <- IH. rewrite len_cons. len_pos.
  destruct (x =? y); cbn [andb]; [apply eq_true_iff_eq; rewrite !Z.eqb_eq; lia |].
  apply Z.eqb_neq. lia.
Qed.

(** The second string ended first exactly when it is a prefix. *)
Lemma lcp_end s t : Forall is_char t -> (cval t (lcp s t) =? 0) = prefixb t s.
Proof.
  intros Ht. rewrite <- lcp_prefix. destruct (lcp_bounds s t) as (H0 & _ & H1).
  apply eq_true_iff_eq. rewrite !Z.eqb_eq, cval_zero by done. lia.
Qed.

Lemma lcp_sym s t : lcp s t = lcp t s.
Proof.
  revert t. induction s as [| x s IH]; intros [| y t]; try done. simpl.
  rewrite (Z.eqb_sym x y), IH. done.
Qed.

Lemma cval_cons x s n : 0 <= n -> cval (x :: s) (n + 1) = cval s n.
Proof. intros H. unfold cval. by replace (Z.to_nat (n + 1)) with (S (Z.to_nat n)) by lia. Qed.

(** Where the strings first differ they are equal only at both ends. *)
Lemma lcp_differ s t :
  Forall is_char s -> Forall is_char t ->
  cval s (lcp s t) = cval t (lcp s t) <-> s = t.
Proof.
  intros Hs. revert t. induction Hs as [| x s Hx Hs IH]; intros t Ht.
  - destruct Ht as [| y t Hy Ht]; [done |]. unfold is_char in *. split; [| done].
    cbn. unfold cval. simpl. lia.
  - destruct Ht as [| y t Hy Ht].
    + unfold is_char in *. split; [| done]. cbn. unfold cval. simpl. lia.
    + simpl. destruct (x =? y) eqn:E.
      * destruct (lcp_bounds s t) as [H0 _]. rewrite !cval_cons by done. rewrite IH by done.
        split; [intros ->; f_equal; lia | by intros [= ? ->]].
      * apply Z.eqb_neq in E. split; [| by intros [= -> ->]].
        intros H. by change (x = y) in H.
Qed.

(** The least position at or after [i], counting from [i] at the head of [s],
    where [b] occurs; -1 if there is none. *)
Fixpoint findsub (b s : list Z) (i : Z) : Z :=
  match s with
  | [] => -1
  | _ :: s' => if prefixb b s then i else findsub b s' (i + 1)
  end.

Definition cindex (s : list Z) (pos : Z) (b : list Z) : Z :=
  if bool_decide (b = []) then -1 else findsub b (drop (Z.to_nat pos) s) pos.

(** The greatest position at or before [n]. *)
Fixpoint findrev (b s : list Z) (n : nat) : Z :=
  if prefixb b (drop n s) then Z.of_nat n
  else match n with O => -1 | S n' => findrev b s n' end.

Lemma findsub_ge b s i : findsub b s i = -1 \/ i <= findsub b s i < i + len s.
Proof.
  revert i. induction s as [| x s IH]; intros i; [by left |]. cbn [findsub].
  rewrite len_cons. len_pos. destruct (prefixb b (x :: s)); [right; lia |].
  specialize (IH (i + 1)). lia.
Qed.

(** [findsub] finds the first occurrence ... *)
Lemma findsub_found b s i k :
  0 <= i -> findsub b s i = k -> k <> -1 ->
  prefixb b (drop (Z.to_nat (k - i)) s) = true /\
  forall j, 0 <= j < k - i -> prefixb b (drop (Z.to_nat j) s) = false.
Proof.
  intros Hi. revert i k Hi. induction s as [| x s IH]; intros i k Hi Hk Hne; [by cbn in Hk |].
  cbn [findsub] in Hk. destruct (prefixb b (x :: s)) eqn:E.
  - subst k. replace (i - i) with 0 by lia. split; [done | lia].
  - pose proof (findsub_ge b s (i + 1)). destruct (IH (i + 1) k) as [H1 H2]; [lia | done | done |].
    replace (Z.to_nat (k - i)) with (S (Z.to_nat (k - (i + 1)))) by lia.
    split; [done |]. intros j Hj. destruct (decide (j = 0)) as [-> | ]; [done |].
    replace (Z.to_nat j) with (S (Z.to_nat (j - 1))) by lia. apply H2. lia.
Qed.

(** ... or there is none. *)
Lemma findsub_none b s i :
  0 <= i -> findsub b s i = -1 ->
  forall j, 0 <= j < len s -> prefixb b (drop (Z.to_nat j) s) = false.
Proof.
  intros Hi. revert i Hi. induction s as [| x s IH]; intros i Hi H j Hj.
  { unfold len in Hj. simpl in Hj. lia. }
  cbn [findsub] in H. destruct (prefixb b (x :: s)) eqn:E; [lia |].
  destruct (decide (j = 0)) as [-> | ]; [done |].
  replace (Z.to_nat j) with (S (Z.to_nat (j - 1))) by lia. rewrite len_cons in Hj.
  apply (IH (i + 1)); [lia | done | lia].
Qed.

Lemma cindex_range s pos b :
  0 <= pos -> cindex s pos b = -1 \/ (pos <= cindex s pos b < len s /\
    prefixb b (drop (Z.to_nat (cindex s pos b)) s) = true).
Proof.
  intros Hpos. unfold cindex. case_bool_decide; [by left |].
  destruct (findsub_ge b (drop (Z.to_nat pos) s) pos) as [? | Hr]; [by left |]. right.
  rewrite len_drop in Hr. split; [lia |].
  destruct (findsub_found b (drop (Z.to_nat pos) s) pos _ Hpos eq_refl) as [E _]; [lia |].
  rewrite drop_drop in E. rewrite <- E. do 2 f_equal. lia.
Qed.

Lemma findrev_spec b s n :
  (findrev b s n = -1 /\ forall j, (j <= n)%nat -> prefixb b (drop j s) = false) \/
  (exists k, findrev b s n = Z.of_nat k /\ (k <= n)%nat /\ prefixb b (drop k s) = true /\
     forall j, (k < j <= n)%nat -> prefixb b (drop j s) = false).
Proof.
  induction n as [| n IH]; simpl.
  - destruct (prefixb b (drop 0 s)) eqn:E.
    + right. exists 0%nat. split_and!; [done | done | done | lia].
    + left. split; [done |]. intros j Hj. by replace j with 0%nat by lia.
  - destruct (prefixb b (drop (S n) s)) eqn:E.
    + right. exists (S n). split_and!; [done | done | done | lia].
    + assert (Hcase : forall j, (j <= S n)%nat -> (j <= n)%nat \/ j = S n) by lia.
      destruct IH as [[-> IH] | (k & -> & Hk & H1 & H2)].
      * left. split; [done |]. intros j Hj. destruct (Hcase j Hj) as [? | ->]; auto.
      * right. exists k. split_and!; [done | lia | done |]. intros j [Hj1 Hj2].
        destruct (Hcase j Hj2) as [? | ->]; auto.
Qed.

(** ** Specifications *)

Local Lemma scan_loop2 e σ ta tb (Q : Z * Z * Z -> st -> Prop) sb :
  Forall is_char sb ->
  forall sa qa qb n fuel, Forall is_char sa ->
  view (blocks σ) qa = Some (sa ++ 0 :: ta) -> view (blocks σ) qb = Some (sb ++ 0 :: tb) ->
  Q (n + lcp sa sb, cval sa (lcp sa sb), cval sb (lcp sa sb)) σ ->
  (length sb < fuel)%nat ->
  wp (loop fuel (fun '(ap, bp, n) =>
    a ← ldb ap;
    b ← ldb bp;
    if negb (a =? b) || (a =? 0) then mret (inr (n, a, b))
    else mret (inl (padd ap 1, padd bp 1, n + 1))) (qa, qb, n)) e σ Q.
Proof.
  induction 1 as [| y sb Hy Hsb IH]; intros sa qa qb n fuel Hsa Hva Hvb HQ Hf;
    (destruct fuel as [| fuel]; [cbn in Hf; lia |]); rewrite loop_step; wsteps;
    destruct Hsa as [| x sa Hx Hsa]; (eapply wp_ldb; [exact Hva |]); wsteps;
    (eapply wp_ldb; [exact Hvb |]); unfold is_char in *.
  - wsteps. cbn [Z.eqb negb orb]. wsteps. cbn in HQ. by rewrite Z.add_0_r in HQ.
  - replace (x =? 0) with false by lia. cbn [negb orb]. wsteps. cbn in HQ. by rewrite Z.add_0_r in HQ.
  - replace (0 =? y) with false by lia. cbn [negb orb]. wsteps. cbn in HQ. by rewrite Z.add_0_r in HQ.
  - replace (x =? 0) with false by lia. cbn [lcp] in HQ. destruct (x =? y) eqn:E; cbn [negb orb]; wsteps.
    + eapply IH; [done | by eapply view_padd | by eapply view_padd | | cbn in Hf; lia].
      destruct (lcp_bounds sa sb). rewrite !cval_cons in HQ by done.
      by replace (n + 1 + lcp sa sb) with (n + (lcp sa sb + 1)) by lia.
    + cbn in HQ. by rewrite Z.add_0_r in HQ.
Qed.

Lemma wp_chxscan e σ qa qb sa sb ta tb (Q : Z * Z * Z -> st -> Prop) :
  view (blocks σ) qa = Some (sa ++ 0 :: ta) -> view (blocks σ) qb = Some (sb ++ 0 :: tb) ->
  Forall is_char sa -> Forall is_char sb ->
  Q (lcp sa sb, cval sa (lcp sa sb), cval sb (lcp sa sb)) σ -> wp (chxscan qa qb) e σ Q.
Proof.
  intros Ha Hb Hsa Hsb HQ. unfold chxscan. wsteps. rewrite Hb. cbn [from_option].
  eapply (scan_loop2 _ _ ta tb _ sb Hsb sa); [done | done | done | done |].
  rewrite length_app. simpl. lia.
Qed.

(** The characters of a live chix from position [n] on. *)
Lemma view_chix bs c s b n :
  chix_ok bs c s -> cp c = Some b -> 0 <= n <= len s ->
  exists t, view bs (PBlk b n) = Some (drop (Z.to_nat n) s ++ 0 :: t) /\
    Forall is_char (drop (Z.to_nat n) s).
Proof.
  intros Hok Hb Hn. destruct (ok_buf _ _ _ Hok) as (b' & rest & Hb' & Hbuf & _).
  assert (b' = b) as -> by congruence. exists rest. split; [| apply Forall_drop, Hok].
  erewrite view_blk by (try done; lia). rewrite drop_app_le by (unfold len in *; lia). done.
Qed.

(** [if (x->actlen < 0) chxlen (x)]: afterwards the cached length is right. *)
Lemma wp_fill_actlen e σ m l s (Q : unit -> st -> Prop) c0 :
  wf σ m -> m !! l = Some s -> chixs σ !! l = Some c0 ->
  (forall σ' c, evolves σ m σ' -> chixs σ' !! l = Some c -> actlen c = len s -> Q tt σ') ->
  wp (if actlen c0 <? 0 then chxlen (Some l);; mret tt else mret tt) e σ Q.
Proof.
  intros W Hs Hc HQ. pose proof (wf_ok _ _ W _ _ _ Hc Hs) as Hok.
  destruct (ok_act _ _ _ Hok) as [E | E]; rewrite E.
  - change (-1 <? 0) with true. wsteps. eapply wp_chxlen; [done | exact Hs |].
    intros. wsteps. by eapply HQ.
  - len_pos. replace (len s <? 0) with false by lia. wsteps. by eapply HQ.
Qed.

Local Lemma index_loop e σ yp sy ty tx (Q : Z -> st -> Prop) s :
  view (blocks σ) yp = Some (sy ++ 0 :: ty) -> Forall is_char sy -> Forall is_char s ->
  forall pos p fuel, view (blocks σ) p = Some (s ++ 0 :: tx) -> (length s < fuel)%nat ->
  Q (findsub sy s pos) σ ->
  wp (loop fuel (fun '(i, p) =>
    v ← ldb p;
    if v =? 0 then mret (inr (-1)) else
    '(_, _, y_end) ← chxscan p yp;
    if y_end =? 0 then mret (inr i) else mret (inl (i + 1, padd p 1))) (pos, p)) e σ Q.
Proof.
  intros Hvy Hchy Hchx.
  induction Hchx as [| w s Hw Hchs IH]; intros pos p fuel Hvx Hf HQ;
    (destruct fuel as [| fuel]; [simpl in Hf; lia |]); rewrite loop_step; wsteps;
    (eapply wp_ldb; [exact Hvx |]).
  { cbn [Z.eqb]. wsteps. exact HQ. }
  unfold is_char in Hw. replace (w =? 0) with false by lia. wsteps.
  eapply wp_chxscan; [exact Hvx | exact Hvy | by constructor | done |]. wsteps.
  rewrite lcp_end by done. cbn [findsub] in HQ. destruct (prefixb sy (w :: s)); wsteps; [done |].
  apply IH; [by eapply view_padd | simpl in Hf; lia | done].
Qed.

(** Whether the first character is 0 tells whether the string is empty. *)
Lemma cval_first s : Forall is_char s -> (cval s 0 =? 0) = bool_decide (s = []).
Proof.
  intros Hs. destruct Hs as [| v s Hv Hs]; [done |]. unfold is_char in Hv.
  rewrite bool_decide_eq_false_2 by done. apply Z.eqb_neq. change (v <> 0). lia.
Qed.

(** [chxindex]: the first occurrence at or after [pos]. *)
Lemma wp_chxindex e σ m x y sx sy pos (Q : Z -> st -> Prop) :
  wf σ m -> m !! x = Some sx -> m !! y = Some sy -> 0 <= pos ->
  (forall σ', evolves σ m σ' -> Q (cindex sx pos sy) σ') ->
  wp (chxindex (Some x) pos (Some y)) e σ Q.
Proof.
  intros W Hx Hy Hpos HQ. unfold chxindex, guard. wsteps. wguard. wsteps.
  eapply wp_chxvalue; [done | exact Hy | lia |]. intros σ1 [W1 S1] _. wsteps.
  destruct (wf_lookup _ _ _ _ W1 Hy) as (cy1 & _ & Hoky1). apply ok_chars in Hoky1 as Hchy.
  rewrite cval_first by done. unfold cindex in HQ. case_bool_decide as Ey; wsteps.
  { by apply HQ. }
  destruct (wf_lookup _ _ _ _ W1 Hx) as (cx1 & Hcx1 & _). wsteps.
  eapply wp_fill_actlen; [exact W1 | exact Hx | done |]. intros σ2 cx [W2 S2] Hcx Hact. wsteps.
  rewrite Hact. destruct (len sx <=? pos) eqn:E; wsteps.
  { rewrite drop_ge in HQ by (unfold len in *; lia). apply HQ. split; [done | congruence]. }
  destruct (wf_lookup _ _ _ _ W2 Hy) as (cy & Hcy & Hoky).
  pose proof (wf_ok _ _ W2 _ _ _ Hcx Hx) as Hokx.
  destruct (ok_buf _ _ _ Hokx) as (bx & rx & Hpx & _).
  destruct (ok_buf _ _ _ Hoky) as (by_ & ry & Hpy & _). wsteps.
  destruct (view_chix _ _ _ _ pos Hokx Hpx) as (tx & Hvx & Hchx); [lia |].
  destruct (view_chix _ _ _ _ 0 Hoky Hpy) as (ty & Hvy & _); [zlen |].
  change (drop (Z.to_nat 0) sy) with sy in Hvy.
  eapply index_loop; [exact Hvy | done | exact Hchx | exact Hvx | |].
  - rewrite Hvx. cbn [from_option]. rewrite length_app. simpl. lia.
  - apply HQ. split; [done | congruence].
Qed.

Definition crevdex (s : list Z) (pos : Z) (b : list Z) : Z :=
  if bool_decide (b = []) then -1 else
  let pos := if (pos =? ALLCHARS) || (len s <=? pos) then len s - 1 else pos in
  if pos <? 0 then -1 else findrev b s (Z.to_nat pos).

Local Lemma revdex_loop e σ c s bx yp sy ty (Q : Z -> st -> Prop) :
  chix_ok (blocks σ) c s -> cp c = Some bx ->
  view (blocks σ) yp = Some (sy ++ 0 :: ty) -> Forall is_char sy ->
  forall fuel n, -1 <= n <= len s -> (Z.to_nat (n + 1) < fuel)%nat ->
  Q (if n <? 0 then -1 else findrev sy s (Z.to_nat n)) σ ->
  wp (loop fuel (fun '(i, p) =>
    if i <? 0 then mret (inr (-1)) else
    '(_, _, y_end) ← chxscan p yp;
    if y_end =? 0 then mret (inr i) else mret (inl (i - 1, padd p (-1)))) (n, PBlk bx n)) e σ Q.
Proof.
  intros Hok Hb Hvy Hchy. induction fuel as [| fuel IH]; intros n Hn Hf HQ; [lia |].
  rewrite loop_step. wsteps. destruct (n <? 0) eqn:E; wsteps; [done |].
  destruct (view_chix _ _ _ _ n Hok Hb) as (tx & Hvx & Hchx); [lia |].
  eapply wp_chxscan; [exact Hvx | exact Hvy | done | done |]. wsteps.
  rewrite lcp_end by done. destruct (Z.to_nat n) as [| k] eqn:Ek; cbn [findrev] in HQ.
  - assert (n = 0) as -> by lia. destruct (prefixb sy (drop 0 s)); wsteps; [done |].
    apply IH; [lia | lia | done].
  - replace (Z.of_nat (S k)) with n in HQ by lia.
    destruct (prefixb sy (drop (S k) s)); wsteps; [done |]. cbn [padd].
    replace (n + -1) with (n - 1) by lia. apply IH; [lia | lia |].
    replace (n - 1 <? 0) with false by lia. by replace (Z.to_nat (n - 1)) with k by lia.
Qed.

(** [chxrevdex]: the last occurrence at or before [pos]. *)
Lemma wp_chxrevdex e σ m x y sx sy pos (Q : Z -> st -> Prop) :
  wf σ m -> m !! x = Some sx -> m !! y = Some sy ->
  (forall σ', evolves σ m σ' -> Q (crevdex sx pos sy) σ') ->
  wp (chxrevdex (Some x) pos (Some y)) e σ Q.
Proof.
  intros W Hx Hy HQ. unfold chxrevdex, guard. wsteps. wguard. wsteps.
  eapply wp_chxvalue; [done | exact Hy | lia |]. intros σ1 [W1 S1] _. wsteps.
  destruct (wf_lookup _ _ _ _ W1 Hy) as (cy1 & _ & Hoky1). apply ok_chars in Hoky1 as Hchy.
  rewrite cval_first by done. unfold crevdex in HQ. case_bool_decide as Ey; wsteps.
  { by apply HQ. }
  destruct (wf_lookup _ _ _ _ W1 Hx) as (cx1 & Hcx1 & _). wsteps.
  eapply wp_fill_actlen; [exact W1 | exact Hx | done |]. intros σ2 cx [W2 S2] Hcx Hact. wsteps.
  rewrite Hact. cbv zeta in HQ.
  destruct (wf_lookup _ _ _ _ W2 Hy) as (cy & Hcy & Hoky).
  pose proof (wf_ok _ _ W2 _ _ _ Hcx Hx) as Hokx.
  destruct (ok_buf _ _ _ Hokx) as (bx & rx & Hpx & _).
  destruct (ok_buf _ _ _ Hoky) as (by_ & ry & Hpy & _). wsteps.
  destruct (view_chix _ _ _ _ 0 Hoky Hpy) as (ty & Hvy & _); [zlen |].
  change (drop (Z.to_nat 0) sy) with sy in Hvy.
  assert (HQ2 : evolves σ m σ2) by (split; [done | congruence]). specialize (HQ σ2 HQ2).
  set (n := if (pos =? ALLCHARS) || (len sx <=? pos) then len sx - 1 else pos) in *. len_pos.
  assert (n < len sx) by (subst n; destruct ((pos =? ALLCHARS) || (len sx <=? pos)) eqn:E; lia).
  destruct (n <? 0) eqn:En.
  { rewrite loop_step. rewrite En. wsteps. done. }
  eapply revdex_loop; [exact Hokx | done | exact Hvy | done | lia | lia |]. by rewrite En.
Qed.

(** [chxsubeq]: whether [y] occurs in [x] at [pos]. *)
Lemma wp_chxsubeq e σ m x y sx sy pos (Q : Z -> st -> Prop) :
  wf σ m -> m !! x = Some sx -> m !! y = Some sy -> 0 <= pos <= len sx ->
  (forall σ', evolves σ m σ' ->
     Q (if prefixb sy (drop (Z.to_nat pos) sx) then 1 else 0) σ') ->
  wp (chxsubeq (Some x) pos (Some y)) e σ Q.
Proof.
  intros W Hx Hy Hpos HQ. unfold chxsubeq, guard. wsteps. wguard. wsteps.
  destruct (wf_lookup _ _ _ _ W Hx) as (cx & Hcx & Hokx).
  destruct (wf_lookup _ _ _ _ W Hy) as (cy & Hcy & Hoky).
  destruct (ok_buf _ _ _ Hokx) as (bx & rx & Hpx & _).
  destruct (ok_buf _ _ _ Hoky) as (by_ & ry & Hpy & _). wsteps.
  rewrite (ok_type _ _ _ Hokx). change (pos * THIN) with (pos * 1). rewrite Z.mul_1_r.
  destruct (view_chix _ _ _ _ pos Hokx Hpx) as (tx & Hvx & Hchx); [lia |].
  destruct (view_chix _ _ _ _ 0 Hoky Hpy) as (ty & Hvy & Hchy); [zlen |].
  change (drop (Z.to_nat 0) sy) with sy in *.
  eapply wp_chxscan; [exact Hvx | exact Hvy | done | done |]. wsteps.
  eapply wp_chxlen; [done | exact Hy |]. intros σ1 c W1 S1 _ _ _. wsteps.
  rewrite lcp_prefix. by apply HQ.
Qed.

(** [chxeqf] and [chxeq]: equality of strings. *)
Lemma wp_chxeqf e σ m x y sx sy (Q : Z -> st -> Prop) :
  wf σ m -> m !! x = Some sx -> m !! y = Some sy ->
  Q (if bool_decide (sx = sy) then 1 else 0) σ -> wp (chxeqf (Some x) (Some y)) e σ Q.
Proof.
  intros W Hx Hy HQ. unfold chxeqf, strcmp. wsteps.
  destruct (wf_lookup _ _ _ _ W Hx) as (cx & Hcx & Hokx).
  destruct (wf_lookup _ _ _ _ W Hy) as (cy & Hcy & Hoky).
  destruct (ok_buf _ _ _ Hokx) as (bx & rx & Hpx & _).
  destruct (ok_buf _ _ _ Hoky) as (by_ & ry & Hpy & _). wsteps.
  destruct (view_chix _ _ _ _ 0 Hokx Hpx) as (tx & Hvx & Hchx); [zlen |].
  destruct (view_chix _ _ _ _ 0 Hoky Hpy) as (ty & Hvy & Hchy); [zlen |].
  change (drop (Z.to_nat 0) sy) with sy in *. change (drop (Z.to_nat 0) sx) with sx in *.
  eapply wp_chxscan; [exact Hvx | exact Hvy | done | done |]. wsteps.
  replace (cval sx (lcp sx sy) - cval sy (lcp sx sy) =? 0) with (bool_decide (sx = sy)); [done |].
  apply eq_true_iff_eq. rewrite bool_decide_eq_true, Z.eqb_eq, <- (lcp_differ sx sy) by done. lia.
Qed.

Lemma wp_chxeq e σ m x y sx sy (Q : Z -> st -> Prop) :
  wf σ m -> m !! x = Some sx -> m !! y = Some sy ->
  Q (if bool_decide (sx = sy) then 1 else 0) σ -> wp (chxeq (Some x) (Some y)) e σ Q.
Proof.
  intros W Hx Hy HQ. unfold chxeq, guard. wsteps. wguard. by eapply wp_chxeqf.
Qed.

Lemma cindex_start s b :
  b <> [] -> (cindex s 0 b =? 0) = prefixb b s.
Proof.
  intros Hb. unfold cindex. rewrite bool_decide_eq_false_2 by done.
  change (drop (Z.to_nat 0) s) with s. destruct s as [| x s]; [by destruct b |].
  cbn [findsub]. destruct (prefixb b (x :: s)); [done |].
  apply Z.eqb_neq. pose proof (findsub_ge b s (0 + 1)). lia.
Qed.

(** [chxabr]: which of two non-empty strings is an abbreviation of the other. *)
Definition abr_result (sa sb : list Z) : Z :=
  if bool_decide (sa = [] \/ sb = []) then 0 else
  if prefixb sb sa then 2 else if prefixb sa sb then 1 else 0.

Lemma wp_chxabr e σ m a b sa sb (Q : Z -> st -> Prop) :
  wf σ m -> m !! a = Some sa -> m !! b = Some sb ->
  (forall σ', evolves σ m σ' -> Q (abr_result sa sb) σ') ->
  wp (chxabr (Some a) (Some b)) e σ Q.
Proof.
  intros W Ha Hb HQ. unfold chxabr, guard, abr_result in *. wsteps. wguard. wsteps.
  eapply wp_EMPTYCHX; [done | exact Ha |]. intros σ1 [W1 S1]. wsteps.
  destruct (bool_decide (sa = [])) eqn:Ea; wsteps.
  { rewrite bool_decide_eq_true in Ea. rewrite bool_decide_eq_true_2 in HQ by auto. by apply HQ. }
  eapply wp_EMPTYCHX; [done | exact Hb |]. intros σ2 [W2 S2]. wsteps.
  destruct (bool_decide (sb = [])) eqn:Eb; wsteps.
  { rewrite bool_decide_eq_true in Eb. rewrite bool_decide_eq_true_2 in HQ by auto. apply HQ. split; [done | congruence]. }
  rewrite bool_decide_eq_false in Ea, Eb. rewrite bool_decide_eq_false_2 in HQ by tauto.
  eapply wp_chxindex; [exact W2 | exact Ha | exact Hb | lia |]. intros σ3 [W3 S3]. wsteps.
  rewrite cindex_start by done. destruct (prefixb sb sa); wsteps.
  { apply HQ. split; [done | congruence]. }
  eapply wp_chxindex; [exact W3 | exact Hb | exact Ha | lia |]. intros σ4 [W4 S4]. wsteps.
  rewrite cindex_start by done. destruct (prefixb sa sb); wsteps; apply HQ; (split; [done | congruence]).
Qed.

(** [chxbreak]: what comes before and after the first occurrence of [pat]. *)
Definition break_result (sa spat : list Z) : Z * list Z * list Z :=
  let i := cindex sa 0 spat in
  if i <? 0 then (0, sa, []) else (1, take (Z.to_nat i) sa, drop (Z.to_nat (i + len spat)) sa).

Lemma wp_chxbreak e σ m a fore aft pat sa sfore saft spat (Q : Z -> st -> Prop) :
  wf σ m -> m !! a = Some sa -> m !! fore = Some sfore -> m !! aft = Some saft -> m !! pat = Some spat ->
  a <> fore -> a <> aft -> fore <> aft -> pat <> fore -> pat <> aft -> len sa + 25 < 2 ^ 31 ->
  let '(r, f, t) := break_result sa spat in
  (forall σ', evolves σ (<[fore := f]> (<[aft := t]> m)) σ' -> Q r σ') ->
  wp (chxbreak (Some a) (Some fore) (Some aft) (Some pat)) e σ Q.
Proof.
  intros W Ha Hf Ht Hp Haf Hat Hft Hpf Hpt Hbig.
  unfold break_result. set (i := cindex sa 0 spat).
  assert (HQ : forall r f t, (if i <? 0 then (0, sa, []) else
      (1, take (Z.to_nat i) sa, drop (Z.to_nat (i + len spat)) sa)) = (r, f, t) ->
    (forall σ', evolves σ (<[fore := f]> (<[aft := t]> m)) σ' -> Q r σ') ->
    wp (chxbreak (Some a) (Some fore) (Some aft) (Some pat)) e σ Q).
  2: { destruct (if i <? 0 then _ else _) as [[r f] t] eqn:E. by apply HQ. }
  intros r f t Er HQ. unfold chxbreak, guard. wsteps. wguard. wsteps.
  eapply wp_chxclear; [exact W | exact Ht |]. intros σ1 [W1 S1]. wsteps.
  eapply (wp_chxclear _ _ _ fore sfore); [exact W1 | by rewrite lookup_insert_ne |].
  intros σ2 [W2 S2]. wsteps.
  eapply (wp_chxindex _ _ _ a pat sa spat); [exact W2 | by rewrite !lookup_insert_ne
    | by rewrite !lookup_insert_ne | lia |]. intros σ3 [W3 S3]. wsteps. fold i.
  destruct (cindex_range sa 0 spat) as [Ei | [Ei Epre]]; [lia | |]; fold i in Ei; wsteps.
  - rewrite Ei in *. change (-1 <? 0) with true in *. injection Er as <- <- <-. wsteps.
    eapply (wp_chxcpy _ _ _ fore a [] sa); [exact W3 | by rewrite lookup_insert_eq
      | by rewrite !lookup_insert_ne | lia |].
    intros σ4 [W4 S4]. wsteps. rewrite insert_insert_eq in W4. apply HQ. split; [done | congruence].
  - replace (i <? 0) with false in * by lia. injection Er as <- <- <-. wsteps.
    eapply (wp_chxlen _ _ _ pat spat); [exact W3 | by rewrite !lookup_insert_ne |].
    intros σ4 c4 W4 S4 _ _ _. wsteps. fold i in Epre. apply prefixb_len in Epre. rewrite len_drop in Epre.
    eapply (wp_chxcatsub _ _ _ fore a [] sa); [exact W4 | done | by rewrite lookup_insert_eq
      | by rewrite !lookup_insert_ne | zlen |].
    intros σ5 [W5 S5]. wsteps. rewrite insert_insert_eq in W5.
    eapply (wp_chxcatsub _ _ _ aft a [] sa); [exact W5 | done | by rewrite lookup_insert_ne, lookup_insert_eq
      | by rewrite !lookup_insert_ne | zlen |].
    intros σ6 [W6 S6]. wsteps. rewrite (insert_insert_ne _ aft fore), insert_insert_eq in W6 by done.
    len_pos. rewrite i32_small in W6 by lia. rewrite csub_from in W6. apply HQ.
    split; [| congruence]. cbn [app] in W6. unfold csub in W6.
    replace (i =? ALLCHARS) with false in W6 by (unfold ALLCHARS; lia). exact W6.
Qed.

(** ** Replacing *)

(** Two chix exchange their structures, and so their strings. *)
Lemma wf_swap σ σ' m a z ca cz sa sz :
  wf σ m -> a <> z -> chixs σ !! a = Some ca -> chixs σ !! z = Some cz ->
  m !! a = Some sa -> m !! z = Some sz ->
  chixs σ' = <[z := ca]> (<[a := cz]> (chixs σ)) -> blocks σ' = blocks σ ->
  fresh_loc σ' = fresh_loc σ -> reserved σ' = 0 -> wf σ' (<[z := sa]> (<[a := sz]> m)).
Proof.
  intros W Hne Hca Hcz Ha Hz E1 E2 E3 E4.
  assert (Hsrc : forall l c, chixs σ' !! l = Some c -> exists l',
    chixs σ !! l' = Some c /\ <[z := sa]> (<[a := sz]> m) !! l = m !! l' /\
    (l' = a <-> l = z) /\ (l' = z <-> l = a) /\ (l = l' \/ l' = a \/ l' = z)).
  { intros l c. rewrite E1. destruct (decide (z = l)) as [<- | Hzl].
    { rewrite !lookup_insert_eq. intros [= <-]. exists a. rewrite Ha. naive_solver. }
    rewrite !(lookup_insert_ne _ z) by done. destruct (decide (a = l)) as [<- | Hal].
    { rewrite !lookup_insert_eq. intros [= <-]. exists z. rewrite Hz. naive_solver. }
    rewrite !(lookup_insert_ne _ a) by done. intros Hl. exists l. naive_solver. }
  split.
  - intros l. rewrite E1. rewrite !lookup_insert. repeat case_decide; try (split; eauto; fail). apply W.
  - intros l c s Hc Hs. destruct (Hsrc l c Hc) as (l' & Hc' & Hm & _). rewrite E2.
    eapply (wf_ok _ _ W); [exact Hc' | congruence].
  - intros l1 l2 c1 c2 H1 H2 E.
    destruct (Hsrc _ _ H1) as (k1 & K1 & _ & B1 & D1 & F1).
    destruct (Hsrc _ _ H2) as (k2 & K2 & _ & B2 & D2 & F2).
    assert (k1 = k2) as -> by (by eapply (wf_inj _ _ W)). intuition congruence.
  - intros l Hl. rewrite E3 in Hl. pose proof (wf_chixs_fresh _ _ W l Hl) as Hn. rewrite E1.
    rewrite !lookup_insert_ne by congruence. done.
  - intros l Hl. rewrite E3 in Hl. rewrite E2. by apply W.
  - done.
Qed.

Lemma wp_swap_free e σ m a z s sa (Q : unit -> st -> Prop) :
  wf σ (<[z := s]> m) -> m !! z = None -> m !! a = Some sa ->
  (forall σ', evolves σ (<[a := s]> m) σ' -> Q tt σ') ->
  wp (swap_free (Some a) (Some z)) e σ Q.
Proof.
  intros W Hz Ha HQ. assert (Hne : a <> z) by congruence. unfold swap_free.
  destruct (wf_lookup _ _ a sa W) as (ca & Hca & _); [by rewrite lookup_insert_ne |].
  destruct (wf_lookup _ _ z s W) as (cz & Hcz & _); [apply lookup_insert_eq |]. wsteps.
  eapply wp_setf; [cbn; rewrite lookup_insert_ne by done; exact Hcz |]. wsteps.
  eapply (wp_chxfree _ _ (<[z := sa]> (<[a := s]> (<[z := s]> m))) z sa).
  - eapply (wf_swap σ); try done; [by rewrite lookup_insert_ne | apply lookup_insert_eq | cbn; apply W].
  - apply lookup_insert_eq.
  - intros σ' [W' S'] _. wsteps. apply HQ. split; [| done].
    rewrite delete_insert_eq, delete_insert_ne, delete_insert_eq, delete_id in W' by done. done.
Qed.

(** The first occurrence of [b] at or after [pos], replaced by [c]. *)
Definition alter_first (s : list Z) (pos : Z) (b c : list Z) : option (list Z) :=
  let i := cindex s pos b in
  if i <? 0 then None
  else Some (take (Z.to_nat i) s ++ c ++ drop (Z.to_nat (i + len b)) s).

Lemma csub_take s n : 0 <= n -> csub s 0 n = take (Z.to_nat n) s.
Proof.
  intros H. unfold csub. replace (n =? ALLCHARS) with false by (unfold ALLCHARS; lia). done.
Qed.
Lemma csub_rest s i n : len s <= n -> csub s i n = drop (Z.to_nat i) s.
Proof.
  intros H. unfold csub. len_pos. replace (n =? ALLCHARS) with false by (unfold ALLCHARS; lia).
  apply take_ge. rewrite length_drop. unfold len in *. lia.
Qed.

Lemma cindex_nil pos b : cindex [] pos b = -1.
Proof. unfold cindex. rewrite drop_nil. by case_bool_decide. Qed.
Lemma cindex_empty s pos : cindex s pos [] = -1.
Proof. done. Qed.

(** [chxalter]; any of the three chix may be the same one. *)
Lemma wp_chxalter e σ m a b c sa sb sc pos (Q : Z -> st -> Prop) :
  wf σ m -> m !! a = Some sa -> m !! b = Some sb -> m !! c = Some sc -> 0 <= pos ->
  2 * len sa + len sb + len sc + 5 < 2 ^ 31 ->
  (forall σ', match alter_first sa pos sb sc with
     | None => evolves σ m σ' -> Q 0 σ'
     | Some s => evolves σ (<[a := s]> m) σ' -> Q 1 σ'
     end) ->
  wp (chxalter (Some a) pos (Some b) (Some c)) e σ Q.
Proof.
  intros W Ha Hb Hc Hpos Hbig HQ. unfold chxalter, chxcheck, guard, alter_first in *.
  wsteps. wguard. wsteps. cbn [Z.eqb]. wsteps. wguard. wsteps. cbn [Z.eqb]. wsteps. wguard. wsteps.
  cbn [Z.eqb]. wsteps.
  destruct (wf_lookup _ _ _ _ W Ha) as (ca0 & _ & Hoka0). destruct (wf_lookup _ _ _ _ W Hb) as (cb0 & _ & Hokb0).
  eapply wp_chxvalue; [done | exact Ha | lia |]. intros σ1 [W1 S1] _. wsteps.
  rewrite cval_first by apply Hoka0. case_bool_decide as Ea; wsteps.
  { subst. rewrite cindex_nil in HQ. by apply HQ. }
  eapply wp_chxvalue; [done | exact Hb | lia |]. intros σ2 [W2 S2] _. wsteps.
  rewrite cval_first by apply Hokb0. case_bool_decide as Eb; wsteps.
  { subst. rewrite cindex_empty in HQ. apply HQ. split; [done | congruence]. }
  eapply wp_chxindex; [exact W2 | exact Ha | exact Hb | lia |]. intros σ3 [W3 S3]. wsteps.
  destruct (cindex_range sa pos sb Hpos) as [Ei | [Ei Epre]].
  { rewrite Ei in *. change (-1 <? 0) with true in *. wsteps. apply HQ. split; [done | congruence]. }
  set (i := cindex sa pos sb) in *. replace (i <? 0) with false in * by lia. wsteps. len_pos.
  destruct (wf_lookup _ _ _ _ W3 Ha) as (ca & Hca & Hoka). destruct (wf_lookup _ _ _ _ W3 Hc) as (cc & Hcc & Hokc).
  wsteps. rewrite (ok_type _ _ _ Hoka), (ok_type _ _ _ Hokc). change (THIN <? THIN) with false. wsteps.
  eapply wp_chxalloc; [exact W3 | apply Hoka |]. intros z cz σ4 Hz [W4 S4] _ _ _ _. wsteps.
  assert (z <> a /\ z <> b /\ z <> c) as (Hza & Hzb & Hzc) by (split_and!; congruence).
  eapply (wp_chxcatsub _ _ _ z a [] sa); [exact W4 | done | apply lookup_insert_eq
    | by rewrite lookup_insert_ne | zlen |].
  intros σ5 [W5 S5]. rewrite insert_insert_eq, csub_take in W5 by lia. wsteps.
  eapply (wp_chxcat _ _ _ z c (take (Z.to_nat i) sa) sc); [exact W5 | done | apply lookup_insert_eq
    | by rewrite lookup_insert_ne | zlen |].
  intros σ6 [W6 S6]. rewrite insert_insert_eq in W6. wsteps.
  eapply (wp_chxlen _ _ _ b sb); [exact W6 | by rewrite lookup_insert_ne |]. intros σ7 c7 W7 S7 _ _ _. wsteps.
  pose proof (ok_len _ _ _ Hoka).
  eapply (wp_chxcatsub _ _ _ z a (take (Z.to_nat i) sa ++ sc) sa); [exact W7 | done | apply lookup_insert_eq
    | by rewrite lookup_insert_ne | zlen |].
  intros σ8 [W8 S8]. rewrite i32_small, csub_rest, insert_insert_eq, <- app_assoc in W8 by lia. wsteps.
  eapply wp_swap_free; [exact W8 | done | exact Ha |]. intros σ9 [W9 S9]. wsteps.
  apply HQ. split; [done | congruence].
Qed.

(** Every occurrence replaced, from left to right; [skip] characters of the
    occurrence just replaced are still to be passed over. *)
Fixpoint repl (b c : list Z) (skip : nat) (s : list Z) : list Z :=
  match s with
  | [] => []
  | x :: s' =>
      match skip with
      | S k => repl b c k s'
      | O => if prefixb b s then c ++ repl b c (length b - 1) s' else x :: repl b c 0 s'
      end
  end.

Lemma repl_skip b c k s : repl b c k s = repl b c 0 (drop k s).
Proof. revert s. induction k as [| k IH]; intros [| x s]; try done. simpl. apply IH. Qed.

Lemma repl_hit b c s : b <> [] -> repl b c 0 (b ++ s) = c ++ repl b c 0 s.
Proof.
  intros Hb. destruct b as [| x b]; [done |]. cbn [app repl].
  assert (prefixb (x :: b) (x :: b ++ s) = true) as -> by (apply prefixb_spec; by exists s).
  rewrite repl_skip. do 2 f_equal. simpl. rewrite Nat.sub_0_r. apply drop_app_length.
Qed.

Lemma repl_before b c s i k :
  0 <= i -> findsub b s i = k -> k <> -1 ->
  repl b c 0 s = take (Z.to_nat (k - i)) s ++ repl b c 0 (drop (Z.to_nat (k - i)) s).
Proof.
  revert i. induction s as [| x s IH]; intros i Hi Hk Hne; [by cbn in Hk |].
  cbn [findsub] in Hk. destruct (prefixb b (x :: s)) eqn:E.
  - subst k. by replace (i - i) with 0 by lia.
  - pose proof (findsub_ge b s (i + 1)).
    replace (Z.to_nat (k - i)) with (S (Z.to_nat (k - (i + 1)))) by lia. cbn [take drop app].
    rewrite <- IH by (done || lia). cbn [repl]. by rewrite E.
Qed.

(** The replacements as a relation: [s] is cut into occurrences of [b] and
    single characters at which [b] does not occur. *)
Inductive replaces (b c : list Z) : list Z -> list Z -> Prop :=
| replaces_nil : replaces b c [] []
| replaces_hit s r : replaces b c s r -> replaces b c (b ++ s) (c ++ r)
| replaces_miss x s r :
    ~ b `prefix_of` x :: s -> replaces b c s r -> replaces b c (x :: s) (x :: r).

Lemma repl_replaces b c s r : b <> [] -> replaces b c s r <-> repl b c 0 s = r.
Proof.
  intros Hb. split.
  - induction 1 as [| s r _ IH | x s r Hm _ IH]; [done | by rewrite repl_hit, IH |].
    cbn [repl]. destruct (prefixb b (x :: s)) eqn:E; [by apply prefixb_spec in E | by rewrite IH].
  - revert r. induction s as [s IH] using (induction_ltof1 _ (@length Z)). unfold ltof in IH. intros r <-.
    destruct s as [| x s]; [constructor |]. cbn [repl]. destruct (prefixb b (x :: s)) eqn:E.
    + apply prefixb_spec in E as [t Et]. destruct b as [| y b]; [done |]. injection Et as -> ->.
      rewrite repl_skip. simpl length. simpl Nat.sub. rewrite Nat.sub_0_r, drop_app_length.
      apply (replaces_hit (y :: b) c t). apply IH; [| done]. simpl. rewrite length_app. lia.
    + constructor; [by rewrite <- prefixb_spec, E |]. apply IH; [simpl; lia | done].
Qed.

Definition replace_all (s : list Z) (pos : Z) (b c : list Z) : option (list Z) :=
  if cindex s pos b <? 0 then None
  else Some (take (Z.to_nat pos) s ++ repl b c 0 (drop (Z.to_nat pos) s)).

Section replace.
Context (e : env) (σ : st) (m : gmap loc (list Z)) (a b c z : loc) (sa sb sc : list Z).
Context (Ha : m !! a = Some sa) (Hb : m !! b = Some sb) (Hc : m !! c = Some sc).
Context (Hz : m !! z = None) (Hsb : sb <> []).

Definition replace_inv (total : list Z) (pos : Z) (σ' : st) : Prop :=
  exists pre, evolves σ (<[z := pre]> m) σ' /\ 0 <= pos <= len sa /\
    total = pre ++ repl sb sc 0 (drop (Z.to_nat pos) sa).

Local Lemma replace_loop total pos fuel (Q : unit -> st -> Prop) σ0 :
  len total + 5 < 2 ^ 31 -> len sa + len sb + 5 < 2 ^ 31 ->
  replace_inv total pos σ0 -> (Z.to_nat (len sa - pos) < fuel)%nat ->
  (forall σ', evolves σ (<[z := total]> m) σ' -> Q tt σ') ->
  wp (loop fuel (fun pos =>
    cval ← chxvalue (Some a) pos;
    if cval =? 0 then mret (inr tt) else
    ca ← ld (Some a);
    cb ← ld (Some b);
    p ← at_p ca (pos * ctype ca);
    bp ← at_p cb 0;
    '(_, _, b_end) ← chxscan p bp;
    if negb (b_end =? 0) then
      chxcatval (Some z) (maxlen ca) cval;; mret (inl (pos + 1))
    else
      chxcat (Some z) (Some c);;
      lb ← chxlen (Some b);
      mret (inl (i32 (pos + (lb - 1)) + 1))) pos) e σ0 Q.
Proof using Ha Hb Hc Hz Hsb.
  intros Hbig Hbig' HI Hf HQ.
  assert (a <> z /\ b <> z /\ c <> z) as (Hza & Hzb & Hzc) by (split_and!; congruence).
  eapply (wp_loop (replace_inv total) (fun pos _ => Z.to_nat (len sa - pos))); [| done | done].
  clear pos fuel σ0 HI Hf. intros pos σ0 (pre & [W0 S0] & Hpos & Htot). wsteps.
  assert (Ha' : <[z := pre]> m !! a = Some sa) by (by rewrite lookup_insert_ne).
  assert (Hb' : <[z := pre]> m !! b = Some sb) by (by rewrite lookup_insert_ne).
  eapply wp_chxvalue; [exact W0 | exact Ha' | lia |]. intros σ1 [W1 S1] _. wsteps.
  destruct (wf_lookup _ _ _ _ W1 Ha') as (ca & Hca & Hoka).
  destruct (wf_lookup _ _ _ _ W1 Hb') as (cb & Hcb & Hokb).
  pose proof (ok_chars _ _ _ Hoka) as Hcha. pose proof (ok_chars _ _ _ Hokb) as Hchb.
  destruct (cval sa pos =? 0) eqn:Ev; wsteps.
  { apply Z.eqb_eq, cval_zero in Ev; [| done | lia]. apply HQ. split; [| congruence].
    rewrite drop_ge in Htot by (unfold len in *; lia). rewrite app_nil_r in Htot. by rewrite Htot. }
  assert (Hlt : pos < len sa).
  { destruct (decide (pos < len sa)); [done |]. rewrite cval_past in Ev by lia. done. }
  pose proof (cval_in sa pos Hcha ltac:(lia)) as Hcv.
  destruct (ok_buf _ _ _ Hoka) as (pa & ra & Hpa & _).
  destruct (ok_buf _ _ _ Hokb) as (pb & rb & Hpb & _). wsteps.
  rewrite (ok_type _ _ _ Hoka). change (pos * THIN) with (pos * 1). rewrite Z.mul_1_r.
  destruct (view_chix _ _ _ _ pos Hoka Hpa) as (ta & Hva & Hcha'); [lia |].
  destruct (view_chix _ _ _ _ 0 Hokb Hpb) as (tb & Hvb & _); [zlen |].
  change (drop (Z.to_nat 0) sb) with sb in Hvb.
  eapply wp_chxscan; [exact Hva | exact Hvb | done | done |]. wsteps.
  rewrite lcp_end by done. rewrite cval_drop in * by (done || lia). len_pos.
  destruct (prefixb sb (cval sa pos :: drop (Z.to_nat (pos + 1)) sa)) eqn:Ep; cbn [negb]; wsteps.
  - assert (Htot' : total = (pre ++ sc) ++ repl sb sc 0 (drop (Z.to_nat (pos + len sb)) sa)).
    { apply prefixb_spec in Ep as [t Et]. rewrite Htot, Et, repl_hit, <- app_assoc by done. do 3 f_equal.
      rewrite <- cval_drop in Et by (done || lia).
      replace (Z.to_nat (pos + len sb)) with (Z.to_nat pos + length sb)%nat by (unfold len; lia).
      rewrite <- drop_drop, Et. by rewrite drop_app_length. }
    apply prefixb_len in Ep. rewrite <- cval_drop, len_drop in Ep by (done || lia).
    assert (1 <= len sb) by (destruct sb; [done | rewrite len_cons; len_pos; lia]).
    eapply (wp_chxcat _ _ _ z c pre sc); [exact W1 | done | apply lookup_insert_eq
      | by rewrite lookup_insert_ne | rewrite Htot' in Hbig; zlen |].
    intros σ2 [W2 S2]. rewrite insert_insert_eq in W2. wsteps.
    eapply (wp_chxlen _ _ _ b sb); [exact W2 | by rewrite lookup_insert_ne |]. intros σ3 c3 W3 S3 _ _ _. wsteps.
    rewrite i32_small by lia. replace (pos + (len sb - 1) + 1) with (pos + len sb) by lia.
    split; [| lia]. exists (pre ++ sc). split_and!; [split; [done | congruence] | lia | lia | done].
  - assert (Htot' : total = (pre ++ [cval sa pos]) ++ repl sb sc 0 (drop (Z.to_nat (pos + 1)) sa)).
    { rewrite Htot. cbn [repl]. rewrite Ep, <- app_assoc. done. }
    eapply (wp_chxcatval _ _ _ z pre); [exact W1 | apply lookup_insert_eq
      | rewrite Htot' in Hbig; zlen | by rewrite land_255_id by (by apply is_char_byte) |].
    intros σ2 [W2 S2]. rewrite insert_insert_eq, land_255_id in W2 by (by apply is_char_byte). wsteps.
    split; [| lia]. exists (pre ++ [cval sa pos]). split_and!; [split; [done | congruence] | lia | lia | done].
Qed.
End replace.

Lemma replace_all_at s pos b c :
  0 <= pos -> 0 <= cindex s pos b ->
  take (Z.to_nat pos) s ++ repl b c 0 (drop (Z.to_nat pos) s) =
  take (Z.to_nat (cindex s pos b)) s ++ repl b c 0 (drop (Z.to_nat (cindex s pos b)) s).
Proof.
  intros Hpos Hi. pose proof (cindex_range s pos b Hpos) as Hr. revert Hi Hr. unfold cindex.
  case_bool_decide; [lia |]. intros Hi Hr.
  set (k := findsub b (drop (Z.to_nat pos) s) pos) in *.
  rewrite (repl_before b c _ pos k) by (done || lia). rewrite drop_drop, app_assoc.
  replace (Z.to_nat pos + Z.to_nat (k - pos))%nat with (Z.to_nat k) by lia. f_equal.
  rewrite take_take_drop. f_equal. lia.
Qed.

(** [chxreplace]; any of the three chix may be the same one. *)
Lemma wp_chxreplace e σ m a b c sa sb sc pos (Q : Z -> st -> Prop) :
  wf σ m -> m !! a = Some sa -> m !! b = Some sb -> m !! c = Some sc -> 0 <= pos ->
  len sa + len sb + 5 < 2 ^ 31 ->
  (forall s, replace_all sa pos sb sc = Some s -> len s + 5 < 2 ^ 31) ->
  (forall σ', match replace_all sa pos sb sc with
     | None => evolves σ m σ' -> Q 0 σ'
     | Some s => evolves σ (<[a := s]> m) σ' -> Q 1 σ'
     end) ->
  wp (chxreplace (Some a) pos (Some b) (Some c)) e σ Q.
Proof.
  intros W Ha Hb Hc Hpos Hbig Hbig2 HQ. unfold chxreplace, guard, replace_all in *.
  wsteps. wguard. wsteps.
  destruct (wf_lookup _ _ _ _ W Ha) as (ca0 & _ & Hoka0). destruct (wf_lookup _ _ _ _ W Hb) as (cb0 & _ & Hokb0).
  eapply wp_chxvalue; [done | exact Ha | lia |]. intros σ1 [W1 S1] _. wsteps.
  rewrite cval_first by apply Hoka0. case_bool_decide as Ea; wsteps.
  { subst. rewrite cindex_nil in HQ. by apply HQ. }
  eapply wp_chxvalue; [done | exact Hb | lia |]. intros σ2 [W2 S2] _. wsteps.
  rewrite cval_first by apply Hokb0. case_bool_decide as Eb; wsteps.
  { subst. rewrite cindex_empty in HQ. apply HQ. split; [done | congruence]. }
  eapply wp_chxindex; [exact W2 | exact Ha | exact Hb | lia |]. intros σ3 [W3 S3]. wsteps.
  pose proof (replace_all_at sa pos sb sc Hpos) as Hat.
  destruct (cindex_range sa pos sb Hpos) as [Ei | [Ei _]].
  { rewrite Ei in *. change (-1 <? 0) with true in *. wsteps. apply HQ. split; [done | congruence]. }
  set (i := cindex sa pos sb) in *. replace (i <? 0) with false in * by lia. wsteps. len_pos.
  specialize (Hat ltac:(lia)). rewrite Hat in HQ, Hbig2. specialize (Hbig2 _ eq_refl).
  destruct (wf_lookup _ _ _ _ W3 Ha) as (ca & Hca & Hoka). destruct (wf_lookup _ _ _ _ W3 Hc) as (cc & Hcc & Hokc).
  wsteps. rewrite (ok_type _ _ _ Hoka), (ok_type _ _ _ Hokc). change (THIN <? THIN) with false. wsteps.
  eapply wp_chxalloc; [exact W3 | apply Hoka |]. intros z cz σ4 Hz [W4 S4] _ _ _ _. wsteps.
  assert (z <> a) as Hza by congruence.
  eapply (wp_chxcatsub _ _ _ z a [] sa); [exact W4 | done | apply lookup_insert_eq
    | by rewrite lookup_insert_ne | zlen |].
  intros σ5 [W5 S5]. rewrite insert_insert_eq, csub_take in W5 by lia. wsteps.
  destruct (wf_lookup _ _ a sa W5) as (ca5 & Hca5 & Hoka5); [by rewrite lookup_insert_ne |].
  destruct (ok_buf _ _ _ Hoka5) as (pa & ra & Hpa & _). wsteps.
  destruct (view_chix _ _ _ _ 0 Hoka5 Hpa) as (ta & Hva & _); [lia |].
  change (drop (Z.to_nat 0) sa) with sa in Hva. rewrite Hva. cbn [from_option].
  eapply (replace_loop e σ m a b c z sa sb sc Ha Hb Hc Hz Eb _ i _ _ σ5); [exact Hbig2 | lia | | |].
  - exists (take (Z.to_nat i) sa). split_and!; [split; [done | congruence] | lia | lia | done].
  - rewrite length_app. unfold len. lia.
  - intros σ6 [W6 S6]. wsteps. eapply wp_swap_free; [exact W6 | done | exact Ha |].
    intros σ7 [W7 S7]. wsteps. apply HQ. split; [done | congruence].
Qed.

(** ** Replacing single characters *)

(** [old] replaced by [new] from position [pos] on. *)
Definition repval (s : list Z) (pos old new : Z) : list Z :=
  take (Z.to_nat pos) s ++
  map (fun v => if v =? old then new else v) (drop (Z.to_nat pos) s).

Lemma repval_past s pos old new : len s <= pos -> repval s pos old new = s.
Proof.
  intros H. unfold repval. rewrite drop_ge, take_ge by (unfold len in *; lia). apply app_nil_r.
Qed.

Lemma repval_step s pos old new v :
  0 <= pos -> s !! Z.to_nat pos = Some v ->
  repval s pos old new = repval (if v =? old then <[Z.to_nat pos := new]> s else s) (pos + 1) old new.
Proof.
  intros Hpos Hv. unfold repval. replace (Z.to_nat (pos + 1)) with (S (Z.to_nat pos)) by lia.
  assert (Hlt := lookup_lt_Some _ _ _ Hv). rewrite (drop_S _ _ _ Hv). cbn [map].
  destruct (v =? old) eqn:E.
  - rewrite drop_insert_lt by lia. rewrite (take_S_r _ _ new) by (by rewrite list_lookup_insert_eq).
    rewrite take_insert_ge by lia. by rewrite <- app_assoc.
  - rewrite (take_S_r _ _ v) by done. by rewrite <- app_assoc.
Qed.

Lemma wp_chxrepval e σ m l s pos width old new (Q : Z -> st -> Prop) :
  wf σ m -> m !! l = Some s -> 0 <= pos -> is_char (Z.land new 255) ->
  (forall σ', evolves σ (<[l := repval s pos old (Z.land new 255)]> m) σ' ->
     Q (if pos <? len s then 1 else 0) σ') ->
  wp (chxrepval (Some l) pos width old new) e σ Q.
Proof.
  intros W Hs Hpos Hv HQ. unfold chxrepval, chxcheck, guard. wsteps. wguard. wsteps. cbn [Z.eqb]. wsteps.
  eapply wp_chxlen; [done | exact Hs |]. intros σ1 c W1 S1 Hc Hact _. wsteps.
  replace (len s <=? pos) with (negb (pos <? len s)) by lia.
  destruct (pos <? len s) eqn:E; cbn [negb]; wsteps.
  2: { apply HQ. rewrite repval_past, insert_id by (done || lia). by split. }
  pose proof (wf_ok _ _ W1 _ _ _ Hc Hs) as Hok1.
  rewrite (ok_type _ _ _ Hok1). change (THIN <? THIN) with false. wsteps. cbn [Z.eqb]. wsteps.
  eapply (wp_loop (fun p σ' => exists s', evolves σ (<[l := s']> m) σ' /\ len s' = len s /\ 0 <= p /\
      repval s' p old (Z.land new 255) = repval s pos old (Z.land new 255))
    (fun p _ => Z.to_nat (len s - p))); [| | lia].
  2: { exists s. rewrite insert_id by done. by split_and!. }
  clear σ1 c W1 S1 Hc Hact Hok1. intros p σ1 (s' & [W1 S1] & Hl & Hp & Hrep).
  destruct (len s <=? p) eqn:Ep; wsteps.
  { apply HQ. rewrite <- Hrep, repval_past by lia. by split. }
  destruct (wf_lookup _ _ l s' W1) as (c & Hc & Hok); [apply lookup_insert_eq |]. wsteps.
  destruct (ok_buf _ _ _ Hok) as (b & rest & Hb & Hbuf & _ & Hroom). wsteps.
  rewrite (ok_type _ _ _ Hok). change (THIN * p) with (1 * p). rewrite Z.mul_1_l.
  destruct (lookup_lt_is_Some_2 s' (Z.to_nat p)) as [v Hlv]; [unfold len in *; lia |].
  eapply wp_ldb.
  { erewrite view_blk by (try done; lia). rewrite drop_app_le by (unfold len in *; lia).
    rewrite (drop_S _ _ _ Hlv). done. }
  assert (Hch : is_char v) by (eapply Forall_lookup_1; [apply Hok | done]).
  unfold is_char in Hch. replace (v =? 0) with false by lia. wsteps.
  rewrite (repval_step _ _ _ _ v) in Hrep by done. destruct (v =? old); wsteps.
  - eapply wp_stb; [exact Hbuf | zlen |]. wsteps. split; [| lia]. eexists. split_and!; [| | | exact Hrep].
    + split; [| done]. rewrite <- (insert_insert_eq m l _ s').
      eapply wf_store; try done; [apply lookup_insert_eq | lia].
    + by rewrite len_insert.
    + lia.
  - split; [| lia]. exists s'. split_and!; try done. lia.
Qed.

(** ** Collation and comparison *)

Lemma wp_sysfree_static_all {A} e (rs : list A) σ (Q : unit -> st -> Prop) :
  (forall n, Q tt (set_mm σ n (first_call σ) (reserved σ))) ->
  wp (foldr (fun _ m => sysfree_static sizeof_rule;; m) (mret tt) rs) e σ Q.
Proof.
  revert σ. induction rs as [| r rs IH]; intros σ HQ; simpl.
  - apply wp_ret. specialize (HQ (memused σ)). by destruct σ.
  - unfold sysfree_static. wsteps. apply IH. intros n. apply (HQ n).
Qed.

(** What a rule operation does to the rules; the strings do not change. *)
Definition rules_after (verb a b c i : Z) (rs : list rule_t) : list rule_t :=
  if verb =? CLEAR_CT then [] else if verb =? ADDRULE_CT then rs ++ [mkRule a b c i] else rs.

Definition collate_result (verb a : Z) (rs : list rule_t) : Z :=
  if (verb =? CLEAR_CT) || (verb =? ADDRULE_CT) then 0 else
  if verb =? APPLY_CT then (if a =? 0 then 0 else apply_rules rs a) else -1.

Lemma wp_chxcollate e σ m verb a b c i (Q : Z -> st -> Prop) :
  wf σ m ->
  (forall σ', wf σ' m -> stat σ' = stat (set_rules σ (rules_after verb a b c i (rules (stat σ)))) ->
     (verb = APPLY_CT -> σ' = σ) -> Q (collate_result verb a (rules (stat σ))) σ') ->
  wp (chxcollate verb a b c i) e σ Q.
Proof.
  intros W HQ. unfold chxcollate, collate_result, rules_after in *. wsteps.
  destruct (verb =? CLEAR_CT) eqn:E0; [| destruct (verb =? ADDRULE_CT) eqn:E1]; cbn [orb] in HQ; wsteps.
  - apply wp_sysfree_static_all. intros n. wsteps. apply HQ; [| done | unfold APPLY_CT, CLEAR_CT in *; lia].
    eapply (wf_same σ); try done. apply W.
  - apply wp_chxmem; [by eapply wf_fresh_ok | apply W |]. intros l σ' (X & _ & _ & Hc). wsteps.
    pose proof X as (S & R & _).
    apply HQ; [| unfold set_rules; cbn; by rewrite S | unfold APPLY_CT, ADDRULE_CT in *; lia].
    eapply (wf_same σ'); try done. eapply wf_extends; [exact W | exact X | done].
  - assert (Hst : stat σ = stat (set_rules σ (rules (stat σ)))) by (by destruct σ as [? ? ? ? ? ? ? []]).
    destruct (verb =? APPLY_CT) eqn:E2; cbn [andb]; [destruct (a =? 0) |]; wsteps; by apply HQ.
Qed.

(** The comparison that [chxcompare] makes under collation rules [rs]. *)
Definition compare_result (rs : list rule_t) (sx sy : list Z) (n : Z) : Z :=
  let d := lcp sx sy in
  let x_end := cval sx d in
  let y_end := cval sy d in
  if negb (n =? ALLCHARS) && (n <=? d) then 0 else
  if (x_end =? 0) && (y_end =? 0) then 0 else
  if (n =? ALLCHARS) && (x_end =? 0) then -1 else
  if (n =? ALLCHARS) && (y_end =? 0) then 1 else
  let xc := collate_result APPLY_CT x_end rs in
  let yc := collate_result APPLY_CT y_end rs in
  if yc <? xc then 1 else if xc <? yc then -1 else 0.

(** The string a (possibly null) argument stands for. *)
Definition text_of (m : gmap loc (list Z)) (x : Chix) (s : list Z) : Prop :=
  match x with None => s = [] | Some l => m !! l = Some s end.

Lemma wp_chix_text e σ m x s (Q : ptr -> st -> Prop) :
  wf σ m -> text_of m x s ->
  (forall q t, view (blocks σ) q = Some (s ++ 0 :: t) -> Forall is_char s -> Q q σ) ->
  wp (chix_text x) e σ Q.
Proof.
  intros W Hx HQ. destruct x as [l |]; cbn in Hx; unfold chix_text; wsteps.
  - destruct (wf_lookup _ _ _ _ W Hx) as (c & Hc & Hok).
    destruct (ok_buf _ _ _ Hok) as (b & r & Hb & _). wsteps.
    rewrite (ok_FREED _ _ _ Hok), (ok_ISCHIX _ _ _ Hok). cbn [negb andb]. wsteps.
    destruct (view_chix _ _ _ _ 0 Hok Hb) as (t & Hv & Hch); [zlen |]. by eapply HQ.
  - subst. apply (HQ _ []); done.
Qed.

Lemma wp_chxcompare e σ m x y sx sy n (Q : Z -> st -> Prop) :
  wf σ m -> text_of m x sx -> text_of m y sy ->
  Q (compare_result (rules (stat σ)) sx sy n) σ -> wp (chxcompare x y n) e σ Q.
Proof.
  intros W Hx Hy HQ. unfold chxcompare, compare_result in *. cbv zeta in HQ. wsteps.
  eapply wp_chix_text; [done | exact Hx |]. intros qx tx Hvx Hcx. wsteps.
  eapply wp_chix_text; [done | exact Hy |]. intros qy ty Hvy Hcy. wsteps.
  eapply wp_chxscan; [exact Hvx | exact Hvy | done | done |]. wsteps.
  destruct (negb (n =? ALLCHARS) && (n <=? lcp sx sy)); wsteps; [done |].
  destruct ((cval sx (lcp sx sy) =? 0) && (cval sy (lcp sx sy) =? 0)); wsteps; [done |].
  destruct ((n =? ALLCHARS) && (cval sx (lcp sx sy) =? 0)); wsteps; [done |].
  destruct ((n =? ALLCHARS) && (cval sy (lcp sx sy) =? 0)); wsteps; [done |].
  eapply wp_chxcollate; [exact W |]. intros σ1 _ _ E1. rewrite (E1 eq_refl). wsteps.
  eapply wp_chxcollate; [exact W |]. intros σ2 _ _ E2. rewrite (E2 eq_refl). wsteps.
  destruct (_ <? _); wsteps; [done |]. destruct (_ <? _); wsteps; done.
Qed.

Lemma chxcompare_ret e σ m a b sa sb n :
  limit e = None -> wf σ m -> m !! a = Some sa -> m !! b = Some sb ->
  chxcompare (Some a) (Some b) n e σ = Ret (compare_result (rules (stat σ)) sa sb n) σ.
Proof.
  intros HL W Ha Hb.
  assert (H : wp (chxcompare (Some a) (Some b) n) e σ
    (fun r σ' => r = compare_result (rules (stat σ)) sa sb n /\ σ' = σ)) by (by eapply wp_chxcompare).
  destruct (wp_total _ _ _ _ HL H) as (r & σ' & E & -> & ->). exact E.
Qed.

(** The rules that [chx_init] installs. *)
Definition LASTVALUE : Z := 100000.
Definition init_rules : list rule_t := [mkRule 33 33 0 0; mkRule 126 126 LASTVALUE 0].

Lemma init_rules_apply a :
  apply_rules init_rules a = if a =? 33 then 0 else if a =? 126 then LASTVALUE else a.
Proof.
  unfold apply_rules, init_rules. cbn [foldl rule_a rule_b rule_c rule_i].
  destruct (decide (a = 33)) as [-> | H1]; [done |]. destruct (decide (a = 126)) as [-> | H2]; [done |].
  replace ((a <? 33) || (33 <? a)) with true by lia. replace ((a <? 126) || (126 <? a)) with true by lia.
  replace (a =? 33) with false by lia. by replace (a =? 126) with false by lia.
Qed.

(** Lexicographic order on strings by a key on characters. *)
Fixpoint lexcmp (key : Z -> Z) (s t : list Z) : Z :=
  match s, t with
  | [], [] => 0
  | [], _ :: _ => -1
  | _ :: _, [] => 1
  | x :: s', y :: t' =>
      if key y <? key x then 1 else if key x <? key y then -1 else lexcmp key s' t'
  end.

Section lex.
Context (key : Z -> Z).

Lemma lexcmp_antisym s t : lexcmp key s t = - lexcmp key t s.
Proof using Type.
  revert t. induction s as [| x s IH]; intros [| y t]; try done. cbn [lexcmp].
  destruct (key y <? key x) eqn:E1; destruct (key x <? key y) eqn:E2; lia || done || apply IH.
Qed.

Lemma lexcmp_trans s t u : lexcmp key s t <= 0 -> lexcmp key t u <= 0 -> lexcmp key s u <= 0.
Proof using Type.
  revert t u. induction s as [| x s IH]; intros [| y t] [| z u]; cbn [lexcmp]; try lia.
  specialize (IH t u).
  destruct (key y <? key x) eqn:E1; destruct (key x <? key y) eqn:E2;
  destruct (key z <? key y) eqn:E3; destruct (key y <? key z) eqn:E4;
  destruct (key z <? key x) eqn:E5; destruct (key x <? key z) eqn:E6; lia.
Qed.

Lemma lexcmp_eq s t :
  (forall x y, x ∈ s -> y ∈ t -> key x = key y -> x = y) -> lexcmp key s t = 0 <-> s = t.
Proof using Type.
  revert t. induction s as [| x s IH]; intros [| y t] Hinj; try done. cbn [lexcmp].
  destruct (key y <? key x) eqn:E1; [split; [done | intros [= -> ->]; lia] |].
  destruct (key x <? key y) eqn:E2; [split; [done | intros [= -> ->]; lia] |].
  assert (x = y) as -> by (apply Hinj; [left | left | lia]).
  rewrite IH; [split; congruence |]. intros. apply Hinj; by try right.
Qed.
End lex.

Definition collate_key (rs : list rule_t) (a : Z) : Z := collate_result APPLY_CT a rs.

(** With an injective collation, [chxcompare] is the lexicographic order. *)
Lemma compare_lex rs sx sy :
  Forall is_char sx -> Forall is_char sy ->
  (forall x y, is_char x -> is_char y -> collate_key rs x = collate_key rs y -> x = y) ->
  compare_result rs sx sy ALLCHARS = lexcmp (collate_key rs) sx sy.
Proof.
  intros Hx Hy Hinj. revert sy Hy. induction Hx as [| x sx Hx Hsx IH]; intros sy Hy.
  - destruct Hy as [| y sy Hy Hsy]; [done |]. unfold is_char in Hy.
    cbn. destruct y; try lia; done.
  - destruct Hy as [| y sy Hy Hsy].
    { unfold is_char in Hx. cbn. destruct x; try lia; done. }
    cbn [lexcmp]. rewrite <- (IH sy Hsy). clear IH. unfold compare_result. cbn [lcp].
    fold (collate_key rs). destruct (x =? y) eqn:E.
    + apply Z.eqb_eq in E as ->. destruct (lcp_bounds sx sy) as [? _].
      rewrite !cval_cons, Z.ltb_irrefl by done. done.
    + change (cval (x :: sx) 0) with x. change (cval (y :: sy) 0) with y. cbn [Z.eqb andb negb].
      change (ALLCHARS =? ALLCHARS) with true. cbn [negb andb]. unfold is_char in *.
      replace (x =? 0) with false by lia. replace (y =? 0) with false by lia. cbn [andb].
      fold (collate_key rs x) (collate_key rs y). destruct (collate_key rs y <? collate_key rs x) eqn:E1; [done |].
      destruct (collate_key rs x <? collate_key rs y) eqn:E2; [done |].
      apply Z.eqb_neq in E. exfalso. apply E. apply Hinj; unfold is_char; lia.
Qed.

Lemma init_key_inj x y :
  is_char x -> is_char y -> collate_key init_rules x = collate_key init_rules y -> x = y.
Proof.
  unfold is_char, collate_key, collate_result. intros Hx Hy. cbn [Z.eqb orb]. change (APPLY_CT =? APPLY_CT) with true.
  change ((APPLY_CT =? CLEAR_CT) || (APPLY_CT =? ADDRULE_CT)) with false. cbn iota.
  rewrite !init_rules_apply. unfold LASTVALUE.
  destruct (x =? 0) eqn:?, (y =? 0) eqn:?, (x =? 33) eqn:?, (y =? 33) eqn:?, (x =? 126) eqn:?, (y =? 126) eqn:?; lia.
Qed.
