(* ===== verification/ChixParse.v ===== *)
(** Words, lines and numbers in chix, and the static chix of the library
    (chx/chxspec.c, chxblank.c, chxint4.c, chxnum.c, chxtoken.c, chxnextw.c,
    chxnextl.c, chxquick.c, chxsimp.c, chxinit.c, ascofchx.c). *)
From S2P Require Import Prelude Memory Wp Chix ChixInv ChixCore ChixEdit ChixSearch.

(** ** The operations *)
Definition SC_GET : Z := 0.
Definition SC_SET : Z := 1.
Definition SC_BLANK : Z := 2.

Definition set_sc_blanks (σ : st) (x : Chix) : st :=
  let t := stat σ in
  set_stat σ (mkStatics x (ctab t) (rules t) (bt_blank t) (bt_int4 t) (bt_token t) (bt_nextword t)).
Definition set_ctab (σ : st) (c : list Chix) : st :=
  let t := stat σ in
  set_stat σ (mkStatics (sc_blanks t) c (rules t) (bt_blank t) (bt_int4 t) (bt_token t) (bt_nextword t)).

Definition chxspecial (op type : Z) (a : Chix) : M Z :=
  if negb (op =? SC_SET) && negb (op =? SC_GET) then mret 0 else
  ok ← guard "chxspecial" [a];
  if negb ok then mret 0 else
  bl ← gets (fun σ => sc_blanks (stat σ));
  (match bl with
   | None => x ← chxalloc 16 THIN (bytes "chxspecial blanks"); modify (fun σ => set_sc_blanks σ x)
   | Some _ => mret tt
   end);;
  bl ← gets (fun σ => sc_blanks (stat σ));
  if type =? SC_BLANK then
    (if op =? SC_SET then chxcpy bl a else chxcpy a bl);; mret 1
  else mret 0.

(** The characters of [x] up to the first 0, read one by one. *)
Definition read_values (x : Chix) : M (list Z) :=
  c ← ld x;
  p ← at_p c 0;
  fuel ← room p;
  loop (S fuel) (fun '(j, acc) =>
    v ← chxvalue x j;
    if v =? 0 then mret (inr acc) else mret (inl (j + 1, acc ++ [v]))) (0, []).

(** [blanktab[v] = 1] for the values of the list. *)
Definition blanktab_of (bl : list Z) : list Z :=
  foldl (fun tab v => if v <? 256 then <[Z.to_nat v := 1]> tab else tab) (zeros 256) bl.

Definition tab_get (t : blanks_t) (v : Z) : M Z :=
  match zget (blanktab t) v with Some b => mret b | None => undef end.

(** Which of the functions that keep a table of their own. *)
Inductive table_owner := O_blank | O_int4 | O_token | O_nextword.

Definition get_table (o : table_owner) (t : statics) : option blanks_t :=
  match o with
  | O_blank => bt_blank t | O_int4 => bt_int4 t | O_token => bt_token t | O_nextword => bt_nextword t
  end.
Definition set_table (o : table_owner) (b : blanks_t) (t : statics) : statics :=
  match o with
  | O_blank => mkStatics (sc_blanks t) (ctab t) (rules t) (Some b) (bt_int4 t) (bt_token t) (bt_nextword t)
  | O_int4 => mkStatics (sc_blanks t) (ctab t) (rules t) (bt_blank t) (Some b) (bt_token t) (bt_nextword t)
  | O_token => mkStatics (sc_blanks t) (ctab t) (rules t) (bt_blank t) (bt_int4 t) (Some b) (bt_nextword t)
  | O_nextword => mkStatics (sc_blanks t) (ctab t) (rules t) (bt_blank t) (bt_int4 t) (bt_token t) (Some b)
  end.

(** The result of [sysmem] is not checked before it is written to. *)
Definition make_table (o : table_owner) (x : Chix) : M unit :=
  n ← chxlen x;
  r ← sysmem KStatic (i32 (4 * (n + 2)));
  match r with
  | None => undef
  | Some _ =>
      bl ← read_values x;
      modify (fun σ => set_stat σ (set_table o (mkBlanks bl (blanktab_of bl)) (stat σ)))
  end.

(** The blanks are fetched into [x]; a space stands in for none. *)
Definition fetch_blanks (x : Chix) : M unit :=
  chxspecial SC_GET SC_BLANK x;;
  v ← chxvalue x 0;
  when (v =? 0) (chxcatval x THIN 32;; mret tt).

(** The initialisation that chxblank, chxint4 and chxtoken share. *)
Definition init_blanks (o : table_owner) : M blanks_t :=
  t ← gets (fun σ => get_table o (stat σ));
  (match t with
   | Some _ => mret tt
   | None =>
       blanks ← chxalloc 16 THIN (bytes "chxtoken blanks");
       fetch_blanks blanks;;
       make_table o blanks;;
       chxfree blanks;;
       mret tt
   end);;
  t ← gets (fun σ => get_table o (stat σ));
  match t with Some t => mret t | None => undef end.

Definition chxblank (cval : Z) : M Z :=
  t ← init_blanks O_blank;
  tab_get t cval.

Definition DIGIT (c : Z) : bool := (48 <=? c) && (c <=? 57).

(** [i] is the value of [*i] on entry ([None] for a null pointer); the result
    comes with its value on exit. *)
Definition chxint4 (a : Chix) (i : option Z) : M (Z * Z) :=
  t ← init_blanks O_int4;
  ok ← guard "chxint4" [a];
  match i with
  | None => mret (0, 0)
  | Some i =>
      if negb ok then mret (0, i) else
      c ← ld a;
      if (i <? 0) || (maxlen c <=? i) then mret (0, i) else
      j ← loop (S (Z.to_nat (maxlen c))) (fun j =>
        v ← chxvalue a j;
        b ← tab_get t v;
        if b =? 0 then mret (inr j) else mret (inl (j + 1))) i;
      sign ← chxvalue a j;
      let minus := sign =? 45 in
      let j := if minus || (sign =? 43) then j + 1 else j in
      let j0 := j in
      '(j, result) ← loop (S (Z.to_nat (maxlen c))) (fun '(j, result) =>
        c ← chxvalue a j;
        if DIGIT c then mret (inl (j + 1, i32 (i32 (10 * result) + (c - 48))))
        else mret (inr (j, result))) (j, 0);
      if j0 =? j then mret (0, i) else
      mret (if minus then i32 (- result) else result, j)
  end.

(** The result, and what is stored through [v]. *)
Definition chxnum (a : Chix) (v : bool) : M (Z * option Z) :=
  ok ← guard "chxnum" [a];
  if negb ok then mret (0, None) else
  if negb v then mret (0, None) else
  '(r, i) ← chxint4 a (Some 0);
  mret (if i =? 0 then 0 else 1, Some r).

(** The checks on an argument that may be null. *)
Definition guard_opt (fn : string) (x : Chix) : M bool :=
  match x with None => mret true | Some _ => guard fn [x] end.

Definition chxtoken (word rest : Chix) (n : Z) (line : Chix) : M Z :=
  ok ← guard_opt "chxtoken" word;
  if negb ok then mret (-1) else
  ok ← guard_opt "chxtoken" rest;
  if negb ok then mret (-1) else
  ok ← guard "chxtoken" [line];
  if negb ok then mret (-1) else
  t ← init_blanks O_token;
  (match word with Some _ => chxclear word;; mret tt | None => mret tt end);;
  (match rest with Some _ => chxclear rest;; mret tt | None => mret tt end);;
  line_type ← chxtype line;
  cl ← ld line;
  p ← at_p cl 0;
  fuel ← room p;
  '(start, _, _, _) ← loop (S fuel) (fun '(start, i, between, w) =>
    cl ← ld line;
    p ← at_p cl i;
    c ← ldb p;
    if c =? 0 then mret (inr (start, i, between, w)) else
    space ← tab_get t c;
    if negb (space =? 0) then
      if n <=? w then mret (inr (start, i, between, w)) else
      mret (inl (start, i + 1, true, w))
    else
      let w' := if (between : bool) then w + 1 else w in
      let start' := if between && (w' =? n) then i else start in
      (match word with
       | Some _ => when (w' =? n) (chxcatval word line_type c;; mret tt)
       | None => mret tt
       end);;
      mret (inl (start', i + 1, false, w'))) (-1, 0, true, 0);
  if start <? 0 then mret (-1) else
  (match rest with Some _ => chxcatsub rest line start ALLCHARS;; mret tt | None => mret tt end);;
  mret start.

(** [text->p[i]] *)
Definition text_char (text : Chix) (i : Z) : M Z :=
  ct ← ld text; p ← at_p ct i; ldb p.

(** [pos] is [*pos] on entry; the result comes with its value on exit. *)
Definition chxnextword (word text : Chix) (pos : Z) : M (Z * Z) :=
  ok ← guard "chxnextw" [word; text];
  if negb ok then mret (-1, pos) else
  t ← gets (fun σ => get_table O_nextword (stat σ));
  (match t with
   | Some _ => mret tt
   | None =>
       fetch_blanks word;;
       chxcatval word THIN 10;;
       chxcatval word THIN 9;;
       make_table O_nextword word
   end);;
  t ← gets (fun σ => get_table O_nextword (stat σ));
  match t with
  | None => undef
  | Some t =>
      ct ← ld text;
      p ← at_p ct pos;
      fuel ← room p;
      '(ptr, c) ← loop (S fuel) (fun ptr =>
        c ← text_char text ptr;
        if c =? 0 then mret (inr (ptr, c)) else
        b ← tab_get t c;
        if b =? 0 then mret (inr (ptr, c)) else mret (inl (ptr + 1))) pos;
      let start_pos := ptr in
      if c =? 0 then mret (-1, ptr) else
      text_type ← chxtype text;
      chxclear word;;
      chxcatval word text_type c;;
      ptr ← loop (S fuel) (fun ptr =>
        c ← text_char text ptr;
        if c =? 0 then mret (inr ptr) else
        b ← tab_get t c;
        if negb (b =? 0) then mret (inr ptr) else
        chxcatval word text_type c;; mret (inl (ptr + 1))) (ptr + 1);
      mret (start_pos, ptr)
  end.

Definition chxnextline (a b : Chix) (pos : Z) : M (Z * Z) :=
  ok ← guard "chxnextline" [a];
  if negb ok then mret (0, pos) else
  match b with
  | None => chxclear a;; mret (0, pos)
  | Some _ =>
      ok ← guard "chxnextline" [b];
      if negb ok then mret (0, pos) else
      cb ← ld b;
      bp ← at_p cb pos;
      fuel ← room bp;
      '(newline, count) ← loop (S fuel) (fun count =>
        v ← ldb (padd bp count);
        if v =? 10 then mret (inr (1, count)) else
        if v =? 0 then mret (inr (0, count)) else mret (inl (count + 1))) 0;
      if count + newline =? 0 then mret (0, pos) else
      chxclear a;;
      ca ← ld a;
      when (maxlen ca <? i32 (count + 5)) (chxresize a (ctype cb) (i32 (count + 10));; mret tt);;
      ca ← ld a;
      qa ← at_p ca 0;
      cb ← ld b;
      qb ← at_p cb pos;
      chxcapc qa qb count;;
      setf a (fun c => set_actlen c (-1));;
      mret (1 + newline, i32 (pos + (count + newline)))
  end.

Definition CTABSIZE : Z := 10.

(** C's [strcpy]. *)
Definition strcpy (ap : ptr) (bp : ptr) : M unit :=
  fuel ← room bp;
  loop (S fuel) (fun '(ap, bp) =>
    v ← ldb bp;
    stb ap v;;
    if v =? 0 then mret (inr tt) else mret (inl (padd ap 1, padd bp 1))) (ap, bp).

(** [ctab[slot]] *)
Definition ctab_at (slot : Z) : M Chix :=
  t ← gets (fun σ => ctab (stat σ));
  match t !! Z.to_nat slot with Some x => mret x | None => undef end.
Definition ctab_set (slot : Z) (x : Chix) : M unit :=
  modify (fun σ => set_ctab σ (<[Z.to_nat slot := x]> (ctab (stat σ)))).

(** On the first call, the slots are allocated. *)
Definition ctab_init : M unit :=
  loop (S (Z.to_nat CTABSIZE)) (fun i =>
    if CTABSIZE <=? i then mret (inr tt) else
    x ← chxalloc 30 THIN (bytes "ctab[i]");
    ctab_set i x;;
    mret (inl (i + 1))) 0.

Definition chxquick (str : option (list Z)) (slot : Z) : M Chix :=
  let str := match str with None => [] | Some s => s end in
  let slot := if slot <? 0 then 0 else if CTABSIZE - 1 <? slot then CTABSIZE - 1 else slot in
  first ← ctab_at 0;
  (match first with
   | Some _ => mret tt
   | None => ctab_init
   end);;
  x ← ctab_at slot;
  c ← ld x;
  when (FREED c)
    (x ← chxalloc 30 THIN (bytes "ctab realloc"); ctab_set slot x);;
  let len := i32 (len str) in
  x ← ctab_at slot;
  c ← ld x;
  q ← at_p c 0;
  stb q 0;;
  setf x (fun c => set_actlen c 0);;
  c ← ld x;
  r ← (if maxlen c <? i32 (len + 5) then chxresize x (ctype c) (i32 (len + 5)) else mret 1);
  if r =? 0 then mret x else
  c ← ld x;
  q ← at_p c 0;
  strcpy q (PLit str 0);;
  setf x (fun c => set_actlen c len);;
  mret x.

Definition chxsimplify (x : Chix) : M Z :=
  ok ← guard "chxsimplify" [x];
  if negb ok then mret 0 else
  blank2 ← chxquick (Some (bytes "  ")) 2;
  blank1 ← chxquick (Some (bytes " ")) 3;
  empty ← chxquick (Some []) 4;
  c ← ld x;
  loop (S (Z.to_nat (maxlen c))) (fun _ =>
    r ← chxalter x 0 blank2 blank1;
    if r =? 0 then mret (inr tt) else mret (inl tt)) tt;;
  v ← chxvalue x 0;
  when (v =? 32) (chxalter x 0 blank1 empty;; mret tt);;
  chxtrim x;;
  mret 1.

Definition ASCII : Z := 0.
Definition JIX : Z := 1.
Definition ISO8859 : Z := 2.

Definition chx_init (type : Z) : M Z :=
  blanks ← chxalloc 8 THIN (bytes "chxinit blanks");
  chxcollate CLEAR_CT 0 0 0 0;;
  chxcollate ADDRULE_CT 33 33 0 0;;
  chxcollate ADDRULE_CT 126 126 LASTVALUE 0;;
  (if type =? JIX then
     chxcatval blanks THIN 32;;
     chxcatval blanks WIDE 41377;;
     chxcatval blanks THIN 10;;
     chxcatval blanks THIN 9;;
     chxspecial SC_SET SC_BLANK blanks;;
     chxfree blanks;;
     mret tt
   else if (type =? ASCII) || (type =? ISO8859) then
     chxcatval blanks THIN 32;;
     chxcatval blanks THIN 10;;
     chxcatval blanks THIN 9;;
     chxspecial SC_SET SC_BLANK blanks;;
     mret tt
   else logger (L_BUG "CHX_INIT:"));;
  mret 1.

(** [s] is a buffer of the caller's; [None] is a null pointer. *)
Definition ascofchx (s : option ptr) (a : Chix) (i n : Z) : M Z :=
  match s with
  | None => mret (-1)
  | Some s =>
      stb s 0;;
      ok ← guard "ascofchx" [a];
      if negb ok then mret (-1) else
      c ← ld a;
      if 2 <? ctype c then mret (-1) else
      if maxlen c <=? i then mret (-1) else
      let i := if i <? 0 then 0 else i in
      let n := if n =? ALLCHARS then maxlen c else n in
      p ← at_p c i;
      fuel ← room p;
      j ← loop (S fuel) (fun j =>
        v ← ldb (padd p j);
        if (v =? 0) || (n - 1 <=? j) then mret (inr j) else
        stb (padd s j) v;;
        mret (inl (j + 1))) 0;
      stb (padd s j) 0;;
      v ← ldb (padd p j);
      mret (if v =? 0 then 0 else j)
  end.

(** ** The blanks *)

(** [bs] is what the last SC_SET stored (nothing before the first one). *)
Definition blank_chars (σ : st) (m : gmap loc (list Z)) (bs : list Z) : Prop :=
  match sc_blanks (stat σ) with
  | None => bs = []
  | Some l => m !! l = Some bs
  end.

Lemma wf_set_stat σ m t : wf σ m -> wf (set_stat σ t) m.
Proof. intros W. eapply (wf_same σ); try done. apply W. Qed.

(** The static chix exists after the first call, and nothing else changes. *)
Lemma wp_special_chix e σ m bs (Q : unit -> st -> Prop) :
  wf σ m -> blank_chars σ m bs ->
  (forall σ' m' l, wf σ' m' -> m ⊆ m' -> m' !! l = Some bs ->
     (m !! l = None \/ sc_blanks (stat σ) = Some l) ->
     stat σ' = stat (set_sc_blanks σ (Some l)) -> Q tt σ') ->
  wp (match sc_blanks (stat σ) with
      | None => x ← chxalloc 16 THIN (bytes "chxspecial blanks"); modify (fun σ => set_sc_blanks σ x)
      | Some _ => mret tt
      end) e σ Q.
Proof.
  intros W HB HQ. unfold blank_chars in HB. destruct (sc_blanks (stat σ)) as [l |] eqn:E; wsteps.
  - eapply (HQ σ m l); auto. unfold set_sc_blanks. cbn. rewrite <- E. by destruct (stat σ).
  - eapply wp_chxalloc; [done | lia |]. intros l c σ1 Hl [W1 S1] _ _ _ _. wsteps. subst bs.
    eapply (HQ _ (<[l := []]> m) l); [by apply wf_set_stat | by apply insert_subseteq
      | apply lookup_insert_eq | by left |]. unfold set_sc_blanks. cbn. by rewrite S1.
Qed.

(** Storing the blanks. *)
Lemma wp_chxspecial_set e σ m a sa bs (Q : Z -> st -> Prop) :
  wf σ m -> m !! a = Some sa -> blank_chars σ m bs -> len sa + 25 < 2 ^ 31 ->
  (forall σ' m' l, wf σ' m' -> m' !! l = Some sa -> stat σ' = stat (set_sc_blanks σ (Some l)) ->
     (forall k, m !! k <> None -> sc_blanks (stat σ) <> Some k -> m' !! k = m !! k) ->
     m' !! a = Some sa -> Q 1 σ') ->
  wp (chxspecial SC_SET SC_BLANK (Some a)) e σ Q.
Proof.
  intros W Ha HB Hbig HQ. unfold chxspecial, guard. cbn [Z.eqb negb andb]. wsteps.
  change (SC_SET =? SC_SET) with true. cbn [negb andb]. wsteps. wguard. wsteps.
  eapply wp_special_chix; [done | exact HB |]. intros σ1 m1 l W1 Hsub Hl Hnew S1. wsteps.
  rewrite S1. cbn [sc_blanks set_sc_blanks set_stat stat]. change (SC_BLANK =? SC_BLANK) with true. wsteps.
  assert (Ha1 : m1 !! a = Some sa) by (by eapply lookup_weaken).
  eapply wp_chxcpy; [exact W1 | exact Hl | exact Ha1 | lia |]. intros σ2 [W2 S2]. wsteps.
  eapply (HQ _ _ l); [exact W2 | apply lookup_insert_eq | congruence | |].
  - intros k Hk Hkl. rewrite lookup_insert_ne by (intros ->; destruct Hnew; congruence).
    destruct (m !! k) as [s |] eqn:E; [| done]. by eapply lookup_weaken.
  - rewrite lookup_insert. case_decide; congruence.
Qed.

(** Fetching them. *)
Lemma wp_chxspecial_get e σ m a sa bs (Q : Z -> st -> Prop) :
  wf σ m -> m !! a = Some sa -> blank_chars σ m bs -> sc_blanks (stat σ) <> Some a ->
  len bs + 25 < 2 ^ 31 ->
  (forall σ' m' l, wf σ' (<[a := bs]> m') -> m ⊆ m' -> m' !! l = Some bs -> a <> l ->
     stat σ' = stat (set_sc_blanks σ (Some l)) -> Q 1 σ') ->
  wp (chxspecial SC_GET SC_BLANK (Some a)) e σ Q.
Proof.
  intros W Ha HB Hne Hbig HQ. unfold chxspecial, guard.
  change (negb (SC_GET =? SC_SET) && negb (SC_GET =? SC_GET)) with false. wsteps. wguard. wsteps.
  eapply wp_special_chix; [done | exact HB |]. intros σ1 m1 l W1 Hsub Hl Hnew S1. wsteps.
  rewrite S1. cbn [sc_blanks set_sc_blanks set_stat stat]. change (SC_BLANK =? SC_BLANK) with true.
  change (SC_GET =? SC_SET) with false. wsteps.
  assert (Ha1 : m1 !! a = Some sa) by (by eapply lookup_weaken).
  eapply wp_chxcpy; [exact W1 | exact Ha1 | exact Hl | lia |]. intros σ2 [W2 S2]. wsteps.
  eapply (HQ _ _ l); [exact W2 | done | done | | congruence].
  intros ->. destruct Hnew; congruence.
Qed.

(** ** The tables of blanks *)

Lemma wp_read_values e σ m l s (Q : list Z -> st -> Prop) :
  wf σ m -> m !! l = Some s ->
  (forall σ', evolves σ m σ' -> Q s σ') ->
  wp (read_values (Some l)) e σ Q.
Proof.
  intros W Hs HQ. destruct (wf_lookup _ _ _ _ W Hs) as (c & Hc & Hok).
  destruct (ok_buf _ _ _ Hok) as (b & r & Hb & _).
  unfold read_values. wsteps.
  destruct (view_chix _ _ _ _ 0 Hok Hb) as (t & Hv & _); [zlen |]. rewrite Hv. cbn [from_option].
  change (drop (Z.to_nat 0) s) with s in *.
  eapply (wp_loop (fun '(j, acc) σ' => evolves σ m σ' /\ 0 <= j <= len s /\ acc = take (Z.to_nat j) s)
    (fun '(j, _) _ => Z.to_nat (len s - j))).
  2: { split_and!; [by split | zlen | zlen | done]. }
  2: { rewrite length_app. unfold len. simpl. lia. }
  intros [j acc] σ1 ([W1 S1] & Hj & ->). wsteps.
  eapply wp_chxvalue; [exact W1 | exact Hs | lia |]. intros σ2 [W2 S2] _. wsteps.
  destruct (cval s j =? 0) eqn:E; wsteps.
  - apply Z.eqb_eq, cval_zero in E; [| apply Hok | lia]. rewrite take_ge by (unfold len in *; lia).
    apply HQ. split; [done | congruence].
  - assert (j < len s) by (destruct (decide (j < len s)); [done |]; rewrite cval_past in E by lia; done).
    split; [| lia]. split_and!; [by split; [| congruence] | lia | lia |].
    replace (Z.to_nat (j + 1)) with (S (Z.to_nat j)) by lia. symmetry. apply take_S_r.
    unfold cval. destruct (s !! Z.to_nat j) eqn:E'; [done |].
    apply lookup_ge_None_1 in E'. unfold len in *. lia.
Qed.

(** Character [v] is a blank. *)
Definition is_blank (bl : list Z) (v : Z) : bool := bool_decide (v ∈ bl).

Lemma blanktab_lookup bl tab v :
  Forall is_char bl -> len tab = 256 -> is_byte v ->
  zget (foldl (fun tab v => if v <? 256 then <[Z.to_nat v := 1]> tab else tab) tab bl) v =
  if is_blank bl v then Some 1 else zget tab v.
Proof.
  intros Hbl. revert tab. induction Hbl as [| u bl Hu Hbl IH]; intros tab Ht Hv; cbn [foldl]; [done |].
  unfold is_char, is_byte in *. replace (u <? 256) with true by lia.
  rewrite IH by (rewrite ?len_insert; done). unfold is_blank.
  destruct (decide (v ∈ bl)) as [Hin | Hin].
  - rewrite !bool_decide_eq_true_2 by (by try right). done.
  - rewrite (bool_decide_eq_false_2 (v ∈ bl)) by done. unfold zget. replace (v <? 0) with false by lia.
    destruct (decide (v = u)) as [-> | Hne].
    + rewrite bool_decide_eq_true_2 by left. apply list_lookup_insert_eq. unfold len in *. lia.
    + rewrite bool_decide_eq_false_2 by (rewrite elem_of_cons; tauto).
      apply list_lookup_insert_ne. lia.
Qed.

Lemma wp_tab_get e σ bl v (Q : Z -> st -> Prop) :
  Forall is_char bl -> is_byte v -> Q (if is_blank bl v then 1 else 0) σ ->
  wp (tab_get (mkBlanks bl (blanktab_of bl)) v) e σ Q.
Proof.
  intros Hbl Hv HQ. unfold tab_get. cbn [blanktab]. unfold blanktab_of.
  rewrite blanktab_lookup by done. destruct (is_blank bl v); wsteps; [done |].
  assert (zget (zeros 256) v = Some 0) as ->; [| by wsteps].
  unfold zget, zeros. unfold is_byte in Hv. replace (v <? 0) with false by lia.
  apply lookup_replicate. split; [done | lia].
Qed.

(** The blank stands in for an empty list. *)
Definition or_space (bs : list Z) : list Z := if bool_decide (bs = []) then [32] else bs.

(** What no function but chxspecial, chxquick and chxcollate changes. *)
Definition same_statics (σ σ' : st) : Prop :=
  ctab (stat σ') = ctab (stat σ) /\ rules (stat σ') = rules (stat σ).

Lemma or_space_chars bs : Forall is_char bs -> Forall is_char (or_space bs).
Proof. unfold or_space. case_bool_decide; [| done]. intros _. repeat constructor; unfold is_char; lia. Qed.

(** The blanks chxspecial holds, put into [x], a space for none. *)
Lemma wp_fetch_blanks e σ m x sx bs (Q : unit -> st -> Prop) :
  wf σ m -> m !! x = Some sx -> blank_chars σ m bs -> sc_blanks (stat σ) <> Some x ->
  len bs + 25 < 2 ^ 31 ->
  (forall σ' m' l, wf σ' (<[x := or_space bs]> m') -> m ⊆ m' -> m' !! l = Some bs -> x <> l ->
     Forall is_char bs -> stat σ' = stat (set_sc_blanks σ (Some l)) -> Q tt σ') ->
  wp (fetch_blanks (Some x)) e σ Q.
Proof.
  intros W Hx HB Hne Hbig HQ. unfold fetch_blanks. wsteps.
  eapply wp_chxspecial_get; [done | exact Hx | exact HB | done | done |].
  intros σ1 m1 l W1 Hsub Hl Hxl S1. wsteps.
  assert (Hx1 : <[x := bs]> m1 !! x = Some bs) by apply lookup_insert_eq.
  destruct (wf_lookup _ _ _ _ W1 Hx1) as (c & _ & Hok). pose proof (ok_chars _ _ _ Hok) as Hch.
  eapply wp_chxvalue; [exact W1 | exact Hx1 | lia |]. intros σ2 [W2 S2] _. wsteps.
  rewrite cval_first by done. unfold or_space in HQ. case_bool_decide as E; wsteps.
  - subst bs. eapply wp_chxcatval; [exact W2 | exact Hx1 | done | by compute |].
    intros σ3 [W3 S3]. wsteps. rewrite insert_insert_eq in W3.
    eapply (HQ _ m1 l); try done. congruence.
  - eapply (HQ _ m1 l); try done. congruence.
Qed.

Lemma wp_make_table e σ m o x s (Q : unit -> st -> Prop) :
  wf σ m -> m !! x = Some s -> limit e = None ->
  (forall σ', wf σ' m -> stat σ' = set_table o (mkBlanks s (blanktab_of s)) (stat σ) -> Q tt σ') ->
  wp (make_table o (Some x)) e σ Q.
Proof.
  intros W Hx HL HQ. unfold make_table. wsteps.
  eapply wp_chxlen; [done | exact Hx |]. intros σ1 c W1 S1 _ _ _. wsteps.
  apply wp_sysmem; [by eapply wf_fresh_ok | apply W1 | done |].
  intros l σ2 (X & _ & _ & Hc). wsteps. pose proof X as (S2 & _).
  assert (W2 : wf σ2 m) by (by eapply wf_extends).
  eapply wp_read_values; [exact W2 | exact Hx |]. intros σ3 [W3 S3]. wsteps.
  apply HQ; [by apply wf_set_stat |]. cbn. congruence.
Qed.

(** The table of [o] is made, or it can be. *)
Definition table_ready (e : env) (o : table_owner) (σ : st) (m : gmap loc (list Z)) (B : list Z) : Prop :=
  (get_table o (stat σ) = Some (mkBlanks B (blanktab_of B)) /\ Forall is_char B) \/
  (get_table o (stat σ) = None /\ limit e = None /\
   exists bs, blank_chars σ m bs /\ len bs + 25 < 2 ^ 31 /\ B = or_space bs).

Lemma get_set_table o b t : get_table o (set_table o b t) = Some b.
Proof. by destruct o. Qed.

Lemma wp_init_blanks e σ m o B (Q : blanks_t -> st -> Prop) :
  wf σ m -> table_ready e o σ m B ->
  (forall σ' m', wf σ' m' -> m ⊆ m' -> Forall is_char B -> same_statics σ σ' ->
     get_table o (stat σ') = Some (mkBlanks B (blanktab_of B)) ->
     Q (mkBlanks B (blanktab_of B)) σ') ->
  wp (init_blanks o) e σ Q.
Proof.
  intros W HT HQ. unfold init_blanks. wsteps.
  destruct HT as [[Hget Hch] | (Hget & HL & bs & HB & Hbig & ->)]; rewrite Hget; wsteps.
  { rewrite Hget. wsteps. by eapply HQ. }
  eapply wp_chxalloc; [done | lia |]. intros x c σ1 Hx [W1 S1] _ _ _ _. wsteps.
  assert (Hne : sc_blanks (stat σ) <> Some x).
  { intros E. unfold blank_chars in HB. rewrite E in HB. congruence. }
  eapply (wp_fetch_blanks _ _ _ x [] bs); [exact W1 | apply lookup_insert_eq | | by rewrite S1 | done |].
  { unfold blank_chars in *. rewrite S1. destruct (sc_blanks (stat σ)); [| done].
    rewrite lookup_insert_ne; congruence. }
  intros σ2 m2 l W2 Hsub _ _ Hch S2. wsteps.
  eapply wp_make_table; [exact W2 | apply lookup_insert_eq | done |]. intros σ3 W3 S3. wsteps.
  eapply wp_chxfree; [exact W3 | apply lookup_insert_eq |]. intros σ4 [W4 S4] _. wsteps.
  rewrite S4, S3, get_set_table. wsteps.
  eapply (HQ _ _ W4); [| by apply or_space_chars | | by rewrite S4, S3, get_set_table].
  - rewrite delete_insert_eq. apply map_subseteq_spec. intros k s Hk.
    rewrite lookup_delete_ne by congruence. eapply lookup_weaken; [| exact Hsub].
    by rewrite lookup_insert_ne by congruence.
  - unfold same_statics. rewrite S4, S3, S2. unfold set_sc_blanks. cbn. rewrite S1. by destruct o.
Qed.

(** ** Numbers *)

(** The longest prefix of characters that satisfy [f]. *)
Fixpoint span (f : Z -> bool) (s : list Z) : list Z :=
  match s with
  | [] => []
  | c :: s' => if f c then c :: span f s' else []
  end.

Lemma span_len f s : len (span f s) <= len s.
Proof. induction s as [| c s IH]; [done |]. simpl. destruct (f c); zlen. Qed.

Lemma span_drop f s : drop (Z.to_nat (len (span f s))) s = drop (length (span f s)) s.
Proof. by rewrite to_nat_len. Qed.

(** One step of a span at position [j]. *)
Lemma span_step f s j :
  Forall is_char s -> 0 <= j -> f 0 = false ->
  span f (drop (Z.to_nat j) s) =
  if f (cval s j) then cval s j :: span f (drop (Z.to_nat (j + 1)) s) else [].
Proof.
  intros Hs Hj Hf. destruct (decide (j < len s)).
  - by rewrite cval_drop by (done || lia).
  - rewrite cval_past, Hf by lia. by rewrite drop_ge by (unfold len in *; lia).
Qed.

Lemma span_in f s j :
  Forall is_char s -> 0 <= j -> f 0 = false -> f (cval s j) = true -> j < len s.
Proof.
  intros Hs Hj Hf Ht. destruct (decide (j < len s)); [done |].
  rewrite cval_past in Ht by lia. congruence.
Qed.

(** The span ends where the predicate fails. *)
Lemma span_max f s i :
  Forall is_char s -> 0 <= i -> f 0 = false ->
  f (cval s (i + len (span f (drop (Z.to_nat i) s)))) = false.
Proof.
  intros Hs Hi Hf. remember (drop (Z.to_nat i) s) as t eqn:Et. revert i Hi Et.
  induction t as [| c t IH]; intros i Hi Et.
  - cbn. rewrite cval_past; [done |]. apply (f_equal len) in Et. rewrite len_drop in Et.
    change (len (@nil Z)) with 0 in Et. change (len (@nil Z)) with 0. lia.
  - assert (Hlt : i < len s).
    { apply (f_equal len) in Et. rewrite len_drop, len_cons in Et. len_pos. lia. }
    rewrite cval_drop in Et by (done || lia). injection Et as -> ->. cbn [span].
    destruct (f (cval s i)) eqn:E; [| by rewrite Z.add_0_r].
    rewrite len_cons. replace (i + (len (span f (drop (Z.to_nat (i + 1)) s)) + 1)) with
      (i + 1 + len (span f (drop (Z.to_nat (i + 1)) s))) by lia. apply IH; [lia | done].
Qed.

Definition dec_value (d : list Z) : Z := foldl (fun r c => 10 * r + (c - 48)) 0 d.
Definition dec_value32 (d : list Z) : Z := foldl (fun r c => i32 (i32 (10 * r) + (c - 48))) 0 d.

(** What [chxint4] returns for string [s] from position [i], and where it
    leaves the position. *)
Definition int4_result (B : list Z) (s : list Z) (i : Z) : Z * Z :=
  let j := i + len (span (is_blank B) (drop (Z.to_nat i) s)) in
  let sign := cval s j in
  let j0 := if (sign =? 45) || (sign =? 43) then j + 1 else j in
  let d := span DIGIT (drop (Z.to_nat j0) s) in
  if bool_decide (d = []) then (0, i)
  else (if sign =? 45 then i32 (- dec_value32 d) else dec_value32 d, j0 + len d).

Lemma is_blank_0 B : Forall is_char B -> is_blank B 0 = false.
Proof.
  intros HB. apply bool_decide_eq_false_2. intros Hin. rewrite Forall_forall in HB.
  apply HB in Hin. unfold is_char in Hin. lia.
Qed.

Lemma cval_byte s n : Forall is_char s -> is_byte (cval s n).
Proof.
  intros Hs. unfold cval. destruct (s !! Z.to_nat n) as [v |] eqn:E; cbn; [| unfold is_byte; lia].
  apply is_char_byte. by eapply Forall_lookup_1.
Qed.

Local Lemma skip_loop e σ m a s B i fuel (Q : Z -> st -> Prop) :
  wf σ m -> m !! a = Some s -> Forall is_char B -> 0 <= i -> (Z.to_nat (len s) < fuel)%nat ->
  (forall σ', evolves σ m σ' ->
     Q (i + len (span (is_blank B) (drop (Z.to_nat i) s))) σ') ->
  wp (loop fuel (fun j =>
        v ← chxvalue (Some a) j;
        b ← tab_get (mkBlanks B (blanktab_of B)) v;
        if b =? 0 then mret (inr j) else mret (inl (j + 1))) i) e σ Q.
Proof.
  intros W Hs HB Hi Hf HQ. destruct (wf_lookup _ _ _ _ W Hs) as (c & _ & Hok).
  pose proof (ok_chars _ _ _ Hok) as Hch.
  set (J := i + len (span (is_blank B) (drop (Z.to_nat i) s))) in *.
  eapply (wp_loop (fun j σ' => evolves σ m σ' /\ i <= j /\
     j + len (span (is_blank B) (drop (Z.to_nat j) s)) = J) (fun j _ => Z.to_nat (len s - j))); [| | lia].
  2: { split_and!; [by split | lia | done]. }
  intros j σ1 ([W1 S1] & Hj & HJ). wsteps.
  eapply wp_chxvalue; [exact W1 | exact Hs | lia |]. intros σ2 [W2 S2] _. wsteps.
  apply wp_tab_get; [done | by apply cval_byte |].
  pose proof (is_blank_0 B HB) as HB0. rewrite span_step in HJ by (done || lia).
  destruct (is_blank B (cval s j)) eqn:E; cbn [Z.eqb]; wsteps.
  - pose proof (span_in (is_blank B) s j Hch ltac:(lia) HB0 E). rewrite len_cons in HJ.
    split; [split_and!; [split; [done | congruence] | lia | lia] | lia].
  - change (len (@nil Z)) with 0 in HJ. rewrite Z.add_0_r in HJ. subst J. rewrite HJ.
    apply HQ. split; [done | congruence].
Qed.

Local Lemma digits_loop e σ m a s j0 fuel (Q : Z * Z -> st -> Prop) :
  wf σ m -> m !! a = Some s -> 0 <= j0 -> (Z.to_nat (len s) < fuel)%nat ->
  (forall σ', evolves σ m σ' ->
     let d := span DIGIT (drop (Z.to_nat j0) s) in Q (j0 + len d, dec_value32 d) σ') ->
  wp (loop fuel (fun '(j, result) =>
        c ← chxvalue (Some a) j;
        if DIGIT c then mret (inl (j + 1, i32 (i32 (10 * result) + (c - 48))))
        else mret (inr (j, result))) (j0, 0)) e σ Q.
Proof.
  intros W Hs Hi Hf HQ. destruct (wf_lookup _ _ _ _ W Hs) as (c & _ & Hok).
  pose proof (ok_chars _ _ _ Hok) as Hch. cbv zeta in HQ. unfold dec_value32 in HQ.
  set (d := span DIGIT (drop (Z.to_nat j0) s)) in *.
  eapply (wp_loop (fun '(j, r) σ' => evolves σ m σ' /\ j0 <= j /\
     j + len (span DIGIT (drop (Z.to_nat j) s)) = j0 + len d /\
     foldl (fun r c => i32 (i32 (10 * r) + (c - 48))) r (span DIGIT (drop (Z.to_nat j) s)) =
     foldl (fun r c => i32 (i32 (10 * r) + (c - 48))) 0 d)
     (fun '(j, _) _ => Z.to_nat (len s - j))); [| | lia].
  2: { split_and!; [by split | lia | done | done]. }
  intros [j r] σ1 ([W1 S1] & Hj & HJ & HV). wsteps.
  eapply wp_chxvalue; [exact W1 | exact Hs | lia |]. intros σ2 [W2 S2] _. wsteps.
  rewrite span_step in HJ, HV by (done || lia).
  destruct (DIGIT (cval s j)) eqn:E; wsteps.
  - pose proof (span_in DIGIT s j Hch ltac:(lia) eq_refl E). rewrite len_cons in HJ.
    split; [split_and!; [split; [done | congruence] | lia | lia | exact HV] | lia].
  - change (len (@nil Z)) with 0 in HJ. rewrite Z.add_0_r in HJ. cbn in HV. rewrite HJ, HV.
    apply HQ. split; [done | congruence].
Qed.

(** [chxint4] parses blanks, a sign and digits. *)
Lemma wp_chxint4 e σ m a s i B (Q : Z * Z -> st -> Prop) :
  wf σ m -> m !! a = Some s -> 0 <= i <= len s -> table_ready e O_int4 σ m B ->
  (forall σ' m', wf σ' m' -> m ⊆ m' -> same_statics σ σ' -> Q (int4_result B s i) σ') ->
  wp (chxint4 (Some a) (Some i)) e σ Q.
Proof.
  intros W Hs Hi HT HQ. unfold chxint4, guard. wsteps.
  eapply wp_init_blanks; [exact W | exact HT |]. intros σ1 m1 W1 Hsub HB [C1 R1] _. wsteps.
  assert (Hs1 : m1 !! a = Some s) by (by eapply lookup_weaken). wguard. wsteps.
  destruct (wf_lookup _ _ _ _ W1 Hs1) as (c & Hc & Hok). wsteps. pose proof (ok_len _ _ _ Hok).
  replace ((i <? 0) || (maxlen c <=? i)) with false by lia. wsteps.
  eapply skip_loop; [exact W1 | exact Hs1 | done | lia | lia |]. intros σ2 [W2 S2]. wsteps.
  unfold int4_result in HQ. cbv zeta in HQ.
  set (j := i + len (span (is_blank B) (drop (Z.to_nat i) s))) in *.
  assert (0 <= j) by (subst j; len_pos; lia).
  eapply wp_chxvalue; [exact W2 | exact Hs1 | lia |]. intros σ3 [W3 S3] _. wsteps.
  set (j0 := if (cval s j =? 45) || (cval s j =? 43) then j + 1 else j) in *.
  assert (0 <= j0) by (subst j0; destruct (_ || _); lia).
  eapply digits_loop; [exact W3 | exact Hs1 | done | lia |]. intros σ4 [W4 S4]. wsteps.
  set (d := span DIGIT (drop (Z.to_nat j0) s)) in *.
  assert (HQ' := HQ σ4 m1 W4 Hsub). unfold same_statics in HQ'. rewrite S4, S3, S2 in HQ'.
  specialize (HQ' (conj C1 R1)).
  replace (j0 =? j0 + len d) with (bool_decide (d = [])).
  2: { destruct d; [by rewrite Z.add_0_r, Z.eqb_refl |]. rewrite len_cons. len_pos.
       rewrite bool_decide_eq_false_2 by done. symmetry. apply Z.eqb_neq. lia. }
  destruct (bool_decide (d = [])); wsteps; done.
Qed.

Lemma wp_chxnum e σ m a s B (Q : Z * option Z -> st -> Prop) :
  wf σ m -> m !! a = Some s -> table_ready e O_int4 σ m B ->
  (forall σ' m', wf σ' m' -> m ⊆ m' -> same_statics σ σ' ->
     let '(r, i) := int4_result B s 0 in Q (if i =? 0 then 0 else 1, Some r) σ') ->
  wp (chxnum (Some a) true) e σ Q.
Proof.
  intros W Hs HT HQ. unfold chxnum, guard. wsteps. wguard. wsteps.
  eapply wp_chxint4; [exact W | exact Hs | zlen | exact HT |]. intros σ1 m1 W1 Hsub HS.
  specialize (HQ σ1 m1 W1 Hsub HS). destruct (int4_result B s 0) as [r i]. wsteps. done.
Qed.

(** Without overflow the digits have their decimal value. *)
Lemma dec_value_app d c : dec_value (d ++ [c]) = 10 * dec_value d + (c - 48).
Proof. unfold dec_value. by rewrite foldl_app. Qed.

Lemma dec_value_nonneg d : Forall (fun c => DIGIT c = true) d -> 0 <= dec_value d.
Proof.
  intros H. induction d as [| c d IH] using rev_ind; [done |]. rewrite dec_value_app.
  apply Forall_app in H as [H1 H2]. inversion H2 as [| ? ? Hc]; subst. unfold DIGIT in Hc.
  specialize (IH H1). lia.
Qed.

Lemma dec_value32_exact d :
  Forall (fun c => DIGIT c = true) d -> dec_value d < 2 ^ 31 -> dec_value32 d = dec_value d.
Proof.
  intros H. induction d as [| c d IH] using rev_ind; intros Hv; [done |].
  rewrite dec_value_app in *. apply Forall_app in H as [H1 H2]. inversion H2 as [| ? ? Hc]; subst.
  unfold DIGIT in Hc. pose proof (dec_value_nonneg d H1).
  unfold dec_value32 in *. rewrite foldl_app. cbn [foldl]. rewrite IH by (done || lia).
  rewrite (i32_small (10 * dec_value d)) by lia. by rewrite i32_small by lia.
Qed.

Lemma span_all f s : Forall (fun c => f c = true) (span f s).
Proof. induction s as [| c s IH]; [constructor |]. simpl. destruct (f c) eqn:E; by constructor. Qed.

Lemma span_app f u v :
  Forall (fun c => f c = true) u -> (forall c, head v = Some c -> f c = false) -> span f (u ++ v) = u.
Proof.
  induction 1 as [| c u Hc _ IH]; intros Hv; simpl.
  - destruct v as [| c v]; [done |]. simpl. by rewrite (Hv c eq_refl).
  - by rewrite Hc, IH.
Qed.

Lemma cval_app s t : cval (s ++ t) (len s) = cval t 0.
Proof. unfold cval. rewrite to_nat_len, lookup_app_r by lia. by rewrite Nat.sub_diag. Qed.

(** A number in the text is read back with its sign and value. *)
Lemma int4_result_decimal B bl (neg plus : bool) d t :
  let sg := if neg then [45] else if plus then [43] else [] in
  Forall (fun c => is_blank B c = true) bl -> Forall (fun c => is_blank B c = false) (sg ++ d) ->
  Forall (fun c => DIGIT c = true) d -> d <> [] -> dec_value d < 2 ^ 31 ->
  (forall c, head t = Some c -> DIGIT c = false) ->
  int4_result B (bl ++ sg ++ d ++ t) 0 =
  (if neg then - dec_value d else dec_value d, len (bl ++ sg ++ d ++ t) - len t).
Proof.
  intros sg Hbl Hnb Hd Hne Hv Ht. unfold int4_result. change (Z.to_nat 0) with 0%nat. rewrite drop_0, Z.add_0_l.
  assert (Hhd : forall c, head (sg ++ d ++ t) = Some c -> is_blank B c = false).
  { intros c. destruct d as [| c0 d]; [done |]. subst sg.
    destruct neg; [| destruct plus]; intros [= <-]; by inversion Hnb. }
  rewrite (span_app _ bl) by done. cbv zeta. rewrite cval_app.
  destruct d as [| c d]; [done |]. inversion Hd as [| ? ? Hc _]; subst.
  pose proof (dec_value_nonneg _ Hd). pose proof (dec_value32_exact _ Hd Hv) as He.
  assert (Hc' : c <> 45 /\ c <> 43) by (unfold DIGIT in Hc; lia).
  assert (Hgo : forall u, drop (Z.to_nat (len u)) (u ++ (c :: d) ++ t) = (c :: d) ++ t) by (intros; apply drop_len_app).
  subst sg. destruct neg; [| destruct plus]; cbn [app].
  - change (cval (45 :: c :: d ++ t) 0) with 45. change (45 =? 45) with true. cbn [orb]. cbn iota.
    replace (len bl + 1) with (len (bl ++ [45])) by (rewrite len_app; done).
    replace (bl ++ 45 :: c :: d ++ t) with ((bl ++ [45]) ++ (c :: d) ++ t) by (by rewrite <- app_assoc).
    rewrite Hgo, (span_app DIGIT (c :: d)) by done. rewrite bool_decide_eq_false_2 by done.
    rewrite He, i32_small by lia. f_equal. zlen.
  - change (cval (43 :: c :: d ++ t) 0) with 43. change (43 =? 45) with false. change (43 =? 43) with true. cbn [orb]. cbn iota.
    replace (len bl + 1) with (len (bl ++ [43])) by (rewrite len_app; done).
    replace (bl ++ 43 :: c :: d ++ t) with ((bl ++ [43]) ++ (c :: d) ++ t) by (by rewrite <- app_assoc).
    rewrite Hgo, (span_app DIGIT (c :: d)) by done. rewrite bool_decide_eq_false_2 by done.
    rewrite He. f_equal. zlen.
  - change (cval (c :: d ++ t) 0) with c. replace (c =? 45) with false by lia. replace (c =? 43) with false by lia. cbn [orb]. cbn iota.
    change (c :: d ++ t) with ((c :: d) ++ t).
    rewrite Hgo, (span_app DIGIT (c :: d)) by done. rewrite bool_decide_eq_false_2 by done.
    rewrite He. f_equal. zlen.
Qed.

(** ** Words *)

(** The words of a line with their positions: the part of a word that [s]
    starts with, and the words after it. *)
Fixpoint words_from (B : list Z) (i : Z) (s : list Z) : list Z * list (Z * list Z) :=
  match s with
  | [] => ([], [])
  | c :: s' =>
      let '(w, ws) := words_from B (i + 1) s' in
      if is_blank B c then ([], if bool_decide (w = []) then ws else (i + 1, w) :: ws)
      else (c :: w, ws)
  end.

Definition words_at (B : list Z) (i : Z) (s : list Z) : list (Z * list Z) :=
  let '(w, ws) := words_from B i s in if bool_decide (w = []) then ws else (i, w) :: ws.

Definition words (B : list Z) (s : list Z) : list (Z * list Z) := words_at B 0 s.

(** The scan of [chxtoken]: the start of the [n]th word and the word. *)
Fixpoint tok (B : list Z) (n : Z) (s : list Z) (start i : Z) (between : bool) (w : Z) (acc : list Z)
    : Z * list Z :=
  match s with
  | [] => (start, acc)
  | c :: s' =>
      if is_blank B c then
        if n <=? w then (start, acc) else tok B n s' start (i + 1) true w acc
      else
        let w' := if between then w + 1 else w in
        tok B n s' (if between && (w' =? n) then i else start) (i + 1) false w'
          (if w' =? n then acc ++ [c] else acc)
  end.

(** Inside the [n]th word the scan collects the rest of it. *)
Lemma tok_inside B n s start i acc :
  tok B n s start i false n acc = (start, acc ++ (words_from B i s).1).
Proof.
  revert i acc. induction s as [| c s IH]; intros i acc; cbn [tok words_from]; [by rewrite app_nil_r |].
  specialize (IH (i + 1)). destruct (words_from B (i + 1) s) as [w ws].
  destruct (is_blank B c); cbn; [by rewrite Z.leb_refl, app_nil_r |].
  rewrite Z.eqb_refl, IH. cbn. by rewrite <- app_assoc.
Qed.

(** Before the [n]th word it looks for it among the words to come. *)
Lemma tok_before B n s between w i :
  w < n -> 0 <= w ->
  tok B n s (-1) i between w [] =
  match (if between then words_at B i s else (words_from B i s).2) !! Z.to_nat (n - w - 1) with
  | Some (p, wd) => (p, wd)
  | None => (-1, [])
  end.
Proof.
  revert between w i. induction s as [| c s IH]; intros between w i Hw H0.
  { destruct between; by rewrite ?lookup_nil. }
  cbn [tok]. unfold words_at. cbn [words_from].
  pose proof (fun acc => tok_inside B n s i (i + 1) acc) as Hin.
  assert (IHt := fun w => IH true w (i + 1)). assert (IHf := fun w => IH false w (i + 1)).
  unfold words_at in IHt. destruct (words_from B (i + 1) s) as [wd ws] eqn:Ew. cbn in *.
  destruct (is_blank B c) eqn:E; cbn.
  - replace (n <=? w) with false by lia. rewrite IHt by done. by destruct between.
  - destruct between; cbn.
    + destruct (w + 1 =? n) eqn:En.
      * apply Z.eqb_eq in En. rewrite En, Hin. by replace (n - w - 1) with 0 by lia.
      * rewrite IHf by lia. replace (Z.to_nat (n - w - 1)) with (S (Z.to_nat (n - (w + 1) - 1))) by lia. done.
    + replace (w =? n) with false by lia. by rewrite IHf by lia.
Qed.

(** A word of [s] (which starts at [i]): where it is, non-empty, without
    blanks, and ended by a blank or the end of the line. *)
Definition word_at (B : list Z) (i : Z) (s : list Z) (pw : Z * list Z) : Prop :=
  let '(p, w) := pw in
  i <= p < i + len s /\ w <> [] /\ Forall (fun c => is_blank B c = false) w /\
  exists t, drop (Z.to_nat (p - i)) s = w ++ t /\ (forall c, head t = Some c -> is_blank B c = true).

Lemma word_at_cons B i c s pw : word_at B (i + 1) s pw -> word_at B i (c :: s) pw.
Proof.
  destruct pw as [p w]. intros (Hp & Hw & Hb & t & Ht & Hh). unfold word_at. rewrite len_cons.
  split_and!; try done; try lia. exists t. split; [| done].
  replace (Z.to_nat (p - i)) with (S (Z.to_nat (p - (i + 1)))) by lia. done.
Qed.

Lemma words_from_spec B i s :
  let '(w, ws) := words_from B i s in
  Forall (fun c => is_blank B c = false) w /\
  (exists t, s = w ++ t /\ (forall c, head t = Some c -> is_blank B c = true)) /\
  Forall (word_at B i s) ws.
Proof.
  revert i. induction s as [| c s IH]; intros i; cbn [words_from].
  { split_and!; [done | by exists [] | done]. }
  specialize (IH (i + 1)). destruct (words_from B (i + 1) s) as [w ws]. destruct IH as (Hw & (t & -> & Ht) & Hws).
  assert (Hws' : Forall (word_at B i (c :: w ++ t)) ws)
    by (eapply Forall_impl; [exact Hws |]; intros pw; apply word_at_cons).
  destruct (is_blank B c) eqn:E.
  - split_and!; [done | exists (c :: w ++ t); split; [done |]; by intros ? [= <-] |].
    case_bool_decide; [done |]. constructor; [| done]. apply word_at_cons. unfold word_at.
    assert (0 < len w) by (destruct w; [done | rewrite len_cons; len_pos; lia]).
    rewrite len_app. len_pos. split_and!; try done; try lia. exists t. by replace (i + 1 - (i + 1)) with 0 by lia.
  - split_and!; [by constructor | by exists t | done].
Qed.

Lemma words_spec B i s : Forall (word_at B i s) (words_at B i s).
Proof.
  unfold words_at. pose proof (words_from_spec B i s) as H.
  destruct (words_from B i s) as [w ws]. destruct H as (Hw & (t & -> & Ht) & Hws).
  case_bool_decide; [done |]. constructor; [| done]. unfold word_at.
  assert (0 < len w) by (destruct w; [done | rewrite len_cons; len_pos; lia]).
  rewrite len_app. len_pos. split_and!; try done; try lia. exists t. by replace (i - i) with 0 by lia.
Qed.

(** The token that [chxtoken] finds: its start (-1 if there are fewer than
    [n] words), and the word. *)
Definition token_result (B : list Z) (n : Z) (s : list Z) : Z * list Z :=
  match words B s !! Z.to_nat (n - 1) with Some (p, w) => (p, w) | None => (-1, []) end.

Lemma tok_result B n s : 1 <= n -> tok B n s (-1) 0 true 0 [] = token_result B n s.
Proof. intros Hn. rewrite tok_before by lia. by replace (n - 0 - 1) with (n - 1) by lia. Qed.

Lemma token_result_spec B n s :
  match token_result B n s with
  | (p, w) => (p = -1 /\ w = []) \/ word_at B 0 s (p, w)
  end.
Proof.
  unfold token_result. destruct (words B s !! Z.to_nat (n - 1)) as [[p w] |] eqn:E; [right | by left].
  eapply (Forall_lookup_1 _ _ _ _ (words_spec B 0 s) E).
Qed.

(** The strings after storing [acc] in the optional chix [x]. *)
Definition opt_put (x : Chix) (acc : list Z) (m : gmap loc (list Z)) : gmap loc (list Z) :=
  match x with None => m | Some l => <[l := acc]> m end.

Definition opt_alive (x : Chix) (m : gmap loc (list Z)) : Prop :=
  match x with None => True | Some l => is_Some (m !! l) end.

Lemma opt_put_twice x a b m : opt_put x a (opt_put x b m) = opt_put x a m.
Proof. destruct x; cbn; [apply insert_insert_eq | done]. Qed.
Lemma opt_put_ne x a m l : x <> Some l -> opt_put x a m !! l = m !! l.
Proof. destruct x; cbn; [intros H; apply lookup_insert_ne; congruence | done]. Qed.

Lemma wp_opt_clear e σ m x (Q : unit -> st -> Prop) :
  wf σ m -> opt_alive x m ->
  (forall σ', evolves σ (opt_put x [] m) σ' -> Q tt σ') ->
  wp (match x with Some _ => chxclear x;; mret tt | None => mret tt end) e σ Q.
Proof.
  intros W Hx HQ. destruct x as [l |]; cbn [opt_alive opt_put] in *; wsteps; [| by apply HQ].
  destruct Hx as [s Hs]. eapply wp_chxclear; [done | exact Hs |]. intros σ' E. wsteps. by apply HQ.
Qed.

Lemma wp_guard_opt e σ m fn x (Q : bool -> st -> Prop) :
  wf σ m -> opt_alive x m -> Q true σ -> wp (guard_opt fn x) e σ Q.
Proof.
  intros W Hx HQ. destruct x as [l |]; unfold guard_opt, guard; [| by wsteps].
  destruct Hx as [s Hs]. eapply wp_guard; [done | | done]. repeat constructor. by eapply alive_some.
Qed.

Section token.
Context (e : env) (σ0 : st) (m : gmap loc (list Z)) (word : Chix) (line : loc) (sl B : list Z) (n ty : Z).
Context (Hline : m !! line = Some sl) (Hword : opt_alive word m) (Hne : word <> Some line).
Context (HB : Forall is_char B) (Hbig : 2 * len sl + 25 < 2 ^ 31).

Local Lemma token_loop s : forall start i between w acc fuel σ (Q : Z * Z * bool * Z -> st -> Prop),
  evolves σ0 (opt_put word acc m) σ -> 0 <= i -> drop (Z.to_nat i) sl = s -> len s + i = len sl ->
  len acc <= i -> (length s < fuel)%nat ->
  (forall σ' i' b' w',
     let '(st', acc') := tok B n s start i between w acc in
     evolves σ0 (opt_put word acc' m) σ' -> Q (st', i', b', w') σ') ->
  wp (loop fuel (fun '(start, i, between, w) =>
    cl ← ld (Some line);
    p ← at_p cl i;
    c ← ldb p;
    if c =? 0 then mret (inr (start, i, between, w)) else
    space ← tab_get (mkBlanks B (blanktab_of B)) c;
    if negb (space =? 0) then
      if n <=? w then mret (inr (start, i, between, w)) else
      mret (inl (start, i + 1, true, w))
    else
      let w' := if (between : bool) then w + 1 else w in
      let start' := if between && (w' =? n) then i else start in
      (match word with
       | Some _ => when (w' =? n) (chxcatval word ty c;; mret tt)
       | None => mret tt
       end);;
      mret (inl (start', i + 1, false, w'))) (start, i, between, w)) e σ Q.
Proof using Hline Hword Hne HB Hbig.
  induction s as [| c s IH]; intros start i between w acc fuel σ Q [W HS] Hi Hd Hl Hacc Hf HQ;
    (destruct fuel as [| fuel]; [lia |]); rewrite loop_step; wsteps;
    assert (Hline' : opt_put word acc m !! line = Some sl) by (by rewrite opt_put_ne);
    destruct (wf_lookup _ _ _ _ W Hline') as (cl & Hcl & Hok);
    destruct (ok_buf _ _ _ Hok) as (b & r & Hb & _); wsteps;
    len_pos;
    (destruct (view_chix _ _ _ _ i Hok Hb) as (t & Hv & Hch); [lia |]); rewrite Hd in Hv, Hch;
    (eapply wp_ldb; [exact Hv |]).
  { cbn [Z.eqb]. wsteps. by apply HQ. }
  inversion Hch as [| ? ? Hc Hchs]; subst. unfold is_char in Hc. replace (c =? 0) with false by lia. wsteps.
  apply wp_tab_get; [done | unfold is_byte; lia |]. cbn [tok] in HQ. rewrite len_cons in Hl.
  assert (Hd' : drop (Z.to_nat (i + 1)) sl = s).
  { replace (Z.to_nat (i + 1)) with (S (Z.to_nat i)) by lia.
    rewrite <- Nat.add_1_r, <- drop_drop, Hd. done. }
  simpl in Hf. destruct (is_blank B c); cbn [Z.eqb negb]; wsteps.
  { destruct (n <=? w); wsteps; [by apply HQ |].
    apply (IH start (i + 1) true w acc); try done; lia. }
  set (w' := if between then w + 1 else w) in *.
  apply wp_mono with (P := fun _ σ1 => evolves σ0 (opt_put word (if w' =? n then acc ++ [c] else acc) m) σ1).
  - destruct word as [x |]; wsteps; [| by split].
    destruct (w' =? n); wsteps; [| by split]. cbn in W.
    eapply wp_chxcatval; [exact W | apply lookup_insert_eq | lia
      | rewrite land_255_id; unfold is_char, is_byte; lia |].
    intros σ1 [W1 S1]. wsteps. rewrite insert_insert_eq, land_255_id in W1 by (unfold is_byte; lia).
    split; [done | congruence].
  - intros _ σ1 E1. wsteps.
    eapply (IH _ (i + 1) false w' (if w' =? n then acc ++ [c] else acc)); try done; try lia.
    destruct (w' =? n); zlen.
Qed.
End token.

(** [chxtoken]: the [n]th word of [line], and the line from it on. *)
Lemma wp_chxtoken e σ m word rest line sl n B (Q : Z -> st -> Prop) :
  wf σ m -> m !! line = Some sl -> opt_alive word m -> opt_alive rest m ->
  word <> Some line -> rest <> Some line -> (word = rest -> word = None) ->
  1 <= n -> 2 * len sl + 25 < 2 ^ 31 -> table_ready e O_token σ m B ->
  (forall σ' m', m ⊆ m' -> same_statics σ σ' ->
     let '(p, w) := token_result B n sl in
     wf σ' (opt_put rest (if p <? 0 then [] else drop (Z.to_nat p) sl) (opt_put word w m')) -> Q p σ') ->
  wp (chxtoken word rest n (Some line)) e σ Q.
Proof.
  intros W Hl Hw Hr Hwl Hrl Hwr Hn Hbig HT HQ. unfold chxtoken, guard. wsteps.
  eapply wp_guard_opt; [done | done |]. cbn [negb]. wsteps.
  eapply wp_guard_opt; [done | done |]. cbn [negb]. wsteps. wguard. wsteps.
  eapply wp_init_blanks; [exact W | exact HT |]. intros σ1 m1 W1 Hsub HB HS1 _. wsteps.
  assert (Hsome : forall x, opt_alive x m -> opt_alive x m1).
  { intros [x |]; cbn; [| done]. intros [s Hs]. exists s. by eapply lookup_weaken. }
  eapply wp_opt_clear; [exact W1 | by apply Hsome |]. intros σ2 [W2 S2]. wsteps.
  assert (Hr2 : opt_alive rest (opt_put word [] m1)).
  { destruct rest as [r |]; cbn; [| done]. destruct (decide (word = Some r)) as [-> |]; [by specialize (Hwr eq_refl) |].
    rewrite opt_put_ne by done. exact (Hsome (Some r) Hr). }
  eapply wp_opt_clear; [exact W2 | done |]. intros σ3 [W3 S3]. wsteps.
  set (m3 := opt_put rest [] m1).
  assert (Hcomm : forall a b m, opt_put rest a (opt_put word b m) = opt_put word b (opt_put rest a m)).
  { intros a b m'. destruct rest as [r |], word as [x |]; cbn; try done. apply insert_insert_ne.
    intros ->. by specialize (Hwr eq_refl). }
  assert (Hl3 : m3 !! line = Some sl) by (unfold m3; rewrite opt_put_ne by done; by eapply lookup_weaken).
  rewrite Hcomm in W3. fold m3 in W3.
  eapply wp_chxtype; [exact W3 | by rewrite opt_put_ne by done |]. wsteps.
  assert (Hl3' : opt_put word [] m3 !! line = Some sl) by (by rewrite opt_put_ne by done).
  destruct (wf_lookup _ _ _ _ W3 Hl3') as (cl & Hcl & Hok).
  destruct (ok_buf _ _ _ Hok) as (b & rr & Hb & _). wsteps.
  destruct (view_chix _ _ _ _ 0 Hok Hb) as (t & Hv & _); [zlen |]. rewrite Hv. cbn [from_option].
  change (drop (Z.to_nat 0) sl) with sl.
  assert (Hw3 : opt_alive word m3).
  { destruct word as [x |]; cbn; [| done]. unfold m3. rewrite opt_put_ne; [exact (Hsome (Some x) Hw) |].
    intros ->. by specialize (Hwr eq_refl). }
  eapply (token_loop e σ3 m3 word line sl B n THIN Hl3 Hw3 Hwl HB Hbig sl (-1) 0 true 0 []);
    [by split | lia | done | lia | done | rewrite length_app; simpl; lia |].
  intros σ4 i' b' w'. rewrite tok_result by done.
  destruct (token_result B n sl) as [p wd] eqn:Et. intros [W4 S4]. wsteps.
  assert (HS : same_statics σ σ4) by (unfold same_statics in *; by rewrite S4, S3, S2).
  pose proof (token_result_spec B n sl) as Hp. rewrite Et in Hp.
  destruct Hp as [[-> ->] | (Hp & _)].
  { change (-1 <? 0) with true. wsteps. specialize (HQ σ4 m1 Hsub HS). apply HQ. by rewrite Hcomm. }
  replace (p <? 0) with false by lia. wsteps.
  assert (HQ' : forall σ', same_statics σ σ' ->
     wf σ' (opt_put rest (drop (Z.to_nat p) sl) (opt_put word wd m1)) -> Q p σ').
  { intros σ' HS'. specialize (HQ σ' m1 Hsub HS'). by replace (p <? 0) with false in HQ by lia. }
  unfold m3 in W4. rewrite <- Hcomm in W4. clear Hcomm. subst m3. destruct rest as [r |]; cbn [opt_put] in *; wsteps; [| by apply HQ'].
  eapply (wp_chxcatsub _ _ _ r line [] sl); [exact W4 | congruence | apply lookup_insert_eq | | zlen |].
  { rewrite lookup_insert_ne by congruence. rewrite opt_put_ne by done. exact (lookup_weaken _ _ _ _ Hl Hsub). }
  intros σ5 [W5 S5]. wsteps. rewrite insert_insert_eq, csub_from in W5. apply HQ'; [| done].
  unfold same_statics in *. by rewrite S5.
Qed.

(** ** Lines *)

Definition not_newline (c : Z) : bool := negb (c =? 10).

(** [chxnextline] at position [pos]: result, line and new position. *)
Definition nextline_result (s : list Z) (pos : Z) : Z * list Z * Z :=
  let line := span not_newline (drop (Z.to_nat pos) s) in
  let newline := if cval s (pos + len line) =? 10 then 1 else 0 in
  if len line + newline =? 0 then (0, [], pos) else (1 + newline, line, pos + (len line + newline)).

Lemma span_drop_end s pos :
  Forall is_char s -> 0 <= pos <= len s ->
  let line := span not_newline (drop (Z.to_nat pos) s) in
  cval s (pos + len line) = 10 \/ pos + len line = len s.
Proof.
  intros Hs Hpos line. pose proof (span_max (fun c => negb (c =? 0) && not_newline c) s pos Hs ltac:(lia) eq_refl) as H.
  assert (E : forall t, Forall is_char t -> span (fun c => negb (c =? 0) && not_newline c) t = span not_newline t).
  { induction 1 as [| c t Hc _ IH]; [done |]. simpl. unfold is_char in Hc. replace (c =? 0) with false by lia.
    simpl. by rewrite IH. }
  rewrite E in H by (by apply Forall_drop). fold line in H. unfold not_newline in H.
  pose proof (span_len not_newline (drop (Z.to_nat pos) s)) as Hl. fold line in Hl. rewrite len_drop in Hl. len_pos.
  destruct (decide (pos + len line < len s)); [left | right; lia].
  pose proof (cval_in s (pos + len line) Hs ltac:(lia)) as Hc. unfold is_char in Hc. lia.
Qed.

Lemma span_prefix f s : s = span f s ++ drop (length (span f s)) s.
Proof. induction s as [| c s IH]; [done |]. simpl. destruct (f c); simpl; congruence. Qed.

(** The text from a position on is the line, its newline and the rest. *)
Lemma nextline_cut s pos :
  Forall is_char s -> 0 <= pos <= len s ->
  let '(r, line, pos') := nextline_result s pos in
  (r = 0 /\ pos' = pos /\ pos = len s) \/
  ((10 ∉ line) /\ pos < pos' <= len s /\
   (r = 2 /\ drop (Z.to_nat pos) s = line ++ 10 :: drop (Z.to_nat pos') s \/
    r = 1 /\ pos' = len s /\ drop (Z.to_nat pos) s = line)).
Proof.
  intros Hs Hpos. unfold nextline_result. set (line := span not_newline (drop (Z.to_nat pos) s)).
  pose proof (span_len not_newline (drop (Z.to_nat pos) s)) as Hl. fold line in Hl. rewrite len_drop in Hl.
  pose proof (span_prefix not_newline (drop (Z.to_nat pos) s)) as Hp. fold line in Hp. rewrite drop_drop in Hp.
  replace (Z.to_nat pos + length line)%nat with (Z.to_nat (pos + len line)) in Hp by (unfold len; lia). len_pos.
  assert (Hn : 10 ∉ line).
  { intros Hin. pose proof (proj1 (Forall_forall _ _) (span_all not_newline (drop (Z.to_nat pos) s)) 10 Hin). done. }
  pose proof (span_drop_end s pos Hs Hpos) as Hend. fold line in Hend.
  destruct (cval s (pos + len line) =? 10) eqn:E.
  - replace (len line + 1 =? 0) with false by lia. apply Z.eqb_eq in E. right.
    assert (pos + len line < len s).
    { destruct (decide (pos + len line < len s)); [done |]. rewrite cval_past in E by lia. done. }
    split_and!; [done | lia | lia |]. left. split; [done |]. rewrite Hp at 1. f_equal.
    rewrite cval_drop by (done || lia). rewrite E. do 2 f_equal. lia.
  - assert (Heq : pos + len line = len s) by (destruct Hend; lia).
    destruct (len line + 0 =? 0) eqn:E0; [left; split_and!; done || lia |].
    right. split_and!; [done | lia | lia |]. right. split_and!; [done | lia |].
    rewrite Hp. rewrite (drop_ge s) by (unfold len in *; lia). apply app_nil_r.
Qed.

Local Lemma line_loop e σ bp s t :
  view (blocks σ) bp = Some (s ++ 0 :: t) -> Forall is_char s ->
  forall fuel (Q : Z * Z -> st -> Prop), (length s < fuel)%nat ->
  (let l := span not_newline s in Q (if cval s (len l) =? 10 then 1 else 0, len l) σ) ->
  wp (loop fuel (fun count =>
        v ← ldb (padd bp count);
        if v =? 10 then mret (inr (1, count)) else
        if v =? 0 then mret (inr (0, count)) else mret (inl (count + 1))) 0) e σ Q.
Proof.
  intros Hv Hch fuel Q Hf HQ. cbv zeta in HQ.
  eapply (wp_loop (fun k σ' => σ' = σ /\ 0 <= k /\
      view (blocks σ) (padd bp k) = Some (drop (Z.to_nat k) (s ++ 0 :: t)) /\
      k + len (span not_newline (drop (Z.to_nat k) s)) = len (span not_newline s))
    (fun k _ => Z.to_nat (len s - k))); [| | unfold len; lia].
  2: { split_and!; [done | lia | | done]. destruct bp; cbn; rewrite Z.add_0_r; by rewrite ?drop_0. }
  intros k σ' (-> & Hk & Hvk & Hlen). wsteps.
  pose proof (span_len not_newline s).
  assert (k <= len s) by (len_pos; lia).
  rewrite drop_app_le in Hvk by (unfold len in *; lia).
  destruct (decide (k = len s)) as [-> | Hne].
  - rewrite drop_ge in Hvk, Hlen by (unfold len; lia).
    eapply wp_ldb; [exact Hvk |]. cbn [Z.eqb]. wsteps. cbn in Hlen. rewrite Z.add_0_r in Hlen.
    rewrite <- Hlen, cval_past in HQ by lia. exact HQ.
  - rewrite cval_drop in Hvk, Hlen by (done || lia).
    eapply wp_ldb; [exact Hvk |].
    pose proof (cval_in s k Hch ltac:(lia)) as Hc. unfold is_char in Hc.
    cbn [span] in Hlen. unfold not_newline at 1 in Hlen.
    destruct (cval s k =? 10) eqn:E; cbn [negb] in Hlen; wsteps.
    + change (len (@nil Z)) with 0 in Hlen. rewrite Z.add_0_r in Hlen. rewrite <- Hlen, E in HQ. exact HQ.
    + replace (cval s k =? 0) with false by lia. wsteps. rewrite len_cons in Hlen.
      split; [split_and!; [done | lia | | lia] | lia].
      apply view_padd in Hvk. replace (padd bp (k + 1)) with (padd (padd bp k) 1).
      * rewrite Hvk. rewrite drop_app_le by (unfold len in *; lia). done.
      * destruct bp; cbn; f_equal; lia.
Qed.

Lemma wp_chxnextline e σ m a b sa sb pos (Q : Z * Z -> st -> Prop) :
  wf σ m -> m !! a = Some sa -> m !! b = Some sb -> a <> b ->
  0 <= pos <= len sb -> len sb + 10 < 2 ^ 31 ->
  (forall σ', let '(r, line, pos') := nextline_result sb pos in
     evolves σ (if r =? 0 then m else <[a := line]> m) σ' -> Q (r, pos') σ') ->
  wp (chxnextline (Some a) (Some b) pos) e σ Q.
Proof.
  intros W Ha Hb Hne Hpos Hbig HQ. unfold chxnextline, guard. wsteps. wguard. wsteps. wguard. wsteps.
  destruct (wf_lookup _ _ _ _ W Hb) as (cb & Hcb & Hokb).
  destruct (ok_buf _ _ _ Hokb) as (pb & rb & Hpb & _). wsteps.
  destruct (view_chix _ _ _ _ pos Hokb Hpb) as (tb & Hvb & Hchb); [lia |]. rewrite Hvb. cbn [from_option].
  unfold nextline_result in HQ. cbv zeta in HQ. pose proof (span_len not_newline (drop (Z.to_nat pos) sb)) as Hsl.
  eapply line_loop; [exact Hvb | done | rewrite length_app; simpl; lia |]. cbv zeta. wsteps.
  set (line := span not_newline (drop (Z.to_nat pos) sb)) in *.
  assert (Ecv : cval (drop (Z.to_nat pos) sb) (len line) = cval sb (pos + len line)).
  { unfold cval. rewrite lookup_drop. len_pos. do 2 f_equal. lia. }
  rewrite Ecv. set (nl := if cval sb (pos + len line) =? 10 then 1 else 0) in *.
  assert (Hnl : 0 <= nl <= 1) by (subst nl; destruct (_ =? 10); lia). rewrite len_drop in Hsl. len_pos.
  destruct (len line + nl =? 0) eqn:E0; wsteps; [by apply HQ |].
  assert (HQ' : forall σ', evolves σ (<[a := line]> m) σ' -> Q (1 + nl, pos + (len line + nl)) σ').
  { intros σ' X. specialize (HQ σ'). replace (1 + nl =? 0) with false in HQ by lia. by apply HQ. }
  assert (Hroom : pos + (len line + nl) <= len sb).
  { subst nl. destruct (cval sb (pos + len line) =? 10) eqn:E; [| lia].
    destruct (decide (pos + len line < len sb)); [lia |]. rewrite cval_past in E by lia. done. }
  destruct (wf_lookup _ _ _ _ W Ha) as (ca0 & Hca0 & Hoka0).
  destruct (ok_buf _ _ _ Hoka0) as (pa0 & ra0 & Hpa0 & _).
  eapply chxclear_exact; [exact W | exact Hca0 | exact Ha | exact Hpa0 |]. intros σ1 W1 S1 Hc1. wsteps.
  assert (Hca1 : chixs σ1 !! a = Some (set_actlen ca0 0)) by (rewrite Hc1; apply lookup_insert_eq). wsteps.
  rewrite (i32_small (len line + 5)), (i32_small (len line + 10)) by lia.
  apply wp_mono with (P := fun _ σ2 => evolves σ (<[a := []]> m) σ2 /\
    exists c, chixs σ2 !! a = Some c /\ len line + 5 <= maxlen c).
  { destruct (maxlen (set_actlen ca0 0) <? len line + 5) eqn:E; wsteps.
    - eapply wp_chxresize; [exact W1 | exact Hca1 | apply lookup_insert_eq | lia |].
      intros σ2 c2 W2 S2 Hc2 _ _ Hmax. wsteps. split; [split; [done | congruence] |].
      exists c2. rewrite Hc2, lookup_insert_eq. split; [done | lia].
    - split; [by split |]. eexists. split; [exact Hca1 | lia]. }
  intros _ σ2 ([W2 S2] & ca & Hca & Hmax). wsteps.
  destruct (wf_lookup _ _ b sb W2) as (cb2 & Hcb2 & Hokb2); [by rewrite lookup_insert_ne |].
  assert (Ha2 : <[a := []]> m !! a = Some []) by apply lookup_insert_eq.
  pose proof (wf_ok _ _ W2 _ _ _ Hca Ha2) as Hoka.
  destruct (ok_buf _ _ _ Hoka) as (pa & ra & Hpa & Hbufa & Hra & Hla).
  destruct (ok_buf _ _ _ Hokb2) as (pb2 & rb2 & Hpb2 & _). wsteps.
  destruct (view_chix _ _ _ _ pos Hokb2 Hpb2) as (tb2 & Hvb2 & _); [lia |].
  assert (Htake : take (Z.to_nat (len line)) (drop (Z.to_nat pos) sb) = line).
  { subst line. rewrite to_nat_len. generalize (drop (Z.to_nat pos) sb) as s. clear.
    induction s as [| c s IH]; [done |]. simpl. destruct (not_newline c); simpl; congruence. }
  eapply (wp_chxcapc _ _ pa []); [exact Hbufa | | exact Hvb2 | done | | lia | | ].
  { unfold off_block. eapply other_buffer; [exact W2 | exact Hne | exact Hca | exact Hcb2 | done | done]. }
  { constructor; [unfold is_byte; lia | done]. }
  { replace (len line <? 0) with false by lia. rewrite Htake. zlen. }
  replace (len line <? 0) with false by lia. rewrite Htake. intros rest Hrest Hlr. wsteps.
  cbn [chixs set_blocks]. rewrite i32_small by lia. apply HQ'. split; [| cbn; congruence].
  rewrite <- (insert_insert_eq m a line []).
  eapply (wf_rewrite σ2); [exact W2 | exact Hca | exact Ha2 | exact Hpa | done | done | done | done | | done | | done | |].
  - by left.
  - rewrite <- Htake. by apply Forall_take.
  - lia.
  - zlen.
Qed.

(** ** The next word *)

Definition nw_ready (e : env) (σ : st) (m : gmap loc (list Z)) (B : list Z) : Prop :=
  (get_table O_nextword (stat σ) = Some (mkBlanks B (blanktab_of B)) /\ Forall is_char B) \/
  (get_table O_nextword (stat σ) = None /\ limit e = None /\
   exists bs, blank_chars σ m bs /\ len bs + 25 < 2 ^ 31 /\ B = or_space bs ++ [10; 9]).

(** On the first call [word] serves as scratch space for the blanks. *)
Lemma wp_nw_table e σ m word sw B (Q : unit -> st -> Prop) :
  wf σ m -> m !! word = Some sw -> sc_blanks (stat σ) <> Some word -> nw_ready e σ m B ->
  (forall σ' m' sw', wf σ' (<[word := sw']> m') -> m ⊆ m' -> Forall is_char B -> same_statics σ σ' ->
     get_table O_nextword (stat σ') = Some (mkBlanks B (blanktab_of B)) -> Q tt σ') ->
  wp (match get_table O_nextword (stat σ) with
      | Some _ => mret tt
      | None =>
          fetch_blanks (Some word);;
          chxcatval (Some word) THIN 10;;
          chxcatval (Some word) THIN 9;;
          make_table O_nextword (Some word)
      end) e σ Q.
Proof.
  intros W Hw Hne HT HQ.
  destruct HT as [[Hget Hch] | (Hget & HL & bs & HB & Hbig & ->)]; rewrite Hget; wsteps.
  { eapply (HQ σ m sw); try done. by rewrite insert_id. }
  eapply wp_fetch_blanks; [exact W | exact Hw | exact HB | done | done |].
  intros σ1 m1 l W1 Hsub _ _ Hch S1. wsteps.
  assert (len (or_space bs) + 20 < 2 ^ 31).
  { unfold or_space. case_bool_decide; [done | lia]. }
  eapply wp_chxcatval; [exact W1 | apply lookup_insert_eq | lia | by compute |].
  intros σ2 [W2 S2]. wsteps. rewrite insert_insert_eq in W2.
  eapply wp_chxcatval; [exact W2 | apply lookup_insert_eq | rewrite len_app; change (len [Z.land 10 255]) with 1; lia
    | by compute |].
  intros σ3 [W3 S3]. wsteps. rewrite insert_insert_eq in W3.
  eapply wp_make_table; [exact W3 | apply lookup_insert_eq | done |]. intros σ4 W4 S4.
  rewrite <- app_assoc in W4, S4. change ([Z.land 10 255] ++ [Z.land 9 255]) with [10; 9] in *.
  eapply (HQ _ m1); [exact W4 | done | | | by rewrite S4].
  - apply Forall_app. split; [by apply or_space_chars |]. repeat constructor; unfold is_char; lia.
  - unfold same_statics. rewrite S4, S3, S2, S1. done.
Qed.

(** Result, word (where one is found) and new position. *)
Definition nextword_result (B s : list Z) (pos : Z) : Z * list Z * Z :=
  let j := pos + len (span (is_blank B) (drop (Z.to_nat pos) s)) in
  let w := span (fun c => negb (is_blank B c)) (drop (Z.to_nat j) s) in
  if len s <=? j then (-1, [], j) else (j, w, j + len w).

Section nextword.
Context (e : env) (m : gmap loc (list Z)) (word text : loc) (st B : list Z) (ty : Z).
Context (Ht : m !! text = Some st) (Hne : word <> text) (HB : Forall is_char B).

(** The character of the text at position [i]. *)
Local Lemma wp_text_at σ sw i (Q : Z -> Memory.st -> Prop) :
  wf σ (<[word := sw]> m) -> 0 <= i <= len st -> Q (cval st i) σ ->
  wp (text_char (Some text) i) e σ Q.
Proof using Ht Hne.
  intros W Hi HQ. unfold text_char. destruct (wf_lookup _ _ text st W) as (c & Hc & Hok); [by rewrite lookup_insert_ne |].
  destruct (ok_buf _ _ _ Hok) as (b & r & Hb & _). wsteps.
  destruct (view_chix _ _ _ _ i Hok Hb) as (t & Hv & Hch); [lia |].
  destruct (decide (i = len st)) as [-> | Hlt].
  - rewrite drop_ge in Hv by (unfold len; lia). eapply wp_ldb; [exact Hv |]. by rewrite cval_past in HQ by lia.
  - rewrite cval_drop in Hv by (apply Hok || lia). by eapply wp_ldb; [exact Hv |].
Qed.

Local Lemma nw_skip σ0 sw pos fuel (Q : Z * Z -> Memory.st -> Prop) :
  wf σ0 (<[word := sw]> m) -> Forall is_char st -> 0 <= pos <= len st -> (Z.to_nat (len st - pos) < fuel)%nat ->
  (let j := pos + len (span (is_blank B) (drop (Z.to_nat pos) st)) in Q (j, cval st j) σ0) ->
  wp (loop fuel (fun ptr =>
      c ← text_char (Some text) ptr;
      if c =? 0 then mret (inr (ptr, c)) else
      b ← tab_get (mkBlanks B (blanktab_of B)) c;
      if b =? 0 then mret (inr (ptr, c)) else mret (inl (ptr + 1))) pos) e σ0 Q.
Proof using Ht Hne HB.
  intros W Hch Hpos Hf HQ. cbv zeta in HQ.
  set (J := pos + len (span (is_blank B) (drop (Z.to_nat pos) st))) in *.
  eapply (wp_loop (fun j σ => σ = σ0 /\ pos <= j <= len st /\
    j + len (span (is_blank B) (drop (Z.to_nat j) st)) = J) (fun j _ => Z.to_nat (len st - j))); [| | done].
  2: { split_and!; done || lia. }
  intros j σ (-> & Hj & HJ). wsteps. eapply wp_text_at; [exact W | lia |]. wsteps.
  pose proof (is_blank_0 B HB) as HB0. rewrite span_step in HJ by (done || lia).
  destruct (cval st j =? 0) eqn:E; wsteps.
  { apply Z.eqb_eq in E. rewrite E, HB0 in HJ. change (len (@nil Z)) with 0 in HJ.
    rewrite Z.add_0_r in HJ. rewrite <- HJ in HQ. exact HQ. }
  apply wp_tab_get; [done | by apply cval_byte |].
  destruct (is_blank B (cval st j)) eqn:Eb; cbn [Z.eqb]; wsteps.
  - pose proof (span_in (is_blank B) st j Hch ltac:(lia) HB0 Eb). rewrite len_cons in HJ.
    split; [split_and!; [done | lia | lia | lia] | lia].
  - change (len (@nil Z)) with 0 in HJ. rewrite Z.add_0_r in HJ. rewrite <- HJ in HQ. exact HQ.
Qed.

Local Lemma nw_collect σ0 pre j fuel (Q : Z -> Memory.st -> Prop) :
  wf σ0 (<[word := pre]> m) -> Forall is_char st -> 0 <= j <= len st ->
  len pre + len st + 5 < 2 ^ 31 -> (Z.to_nat (len st - j) < fuel)%nat ->
  (forall σ', let w := span (fun c => negb (is_blank B c)) (drop (Z.to_nat j) st) in
    evolves σ0 (<[word := pre ++ w]> m) σ' -> Q (j + len w) σ') ->
  wp (loop fuel (fun ptr =>
      c ← text_char (Some text) ptr;
      if c =? 0 then mret (inr ptr) else
      b ← tab_get (mkBlanks B (blanktab_of B)) c;
      if negb (b =? 0) then mret (inr ptr) else
      chxcatval (Some word) ty c;; mret (inl (ptr + 1))) j) e σ0 Q.
Proof using Ht Hne HB.
  intros W Hch Hj Hbig Hf HQ. cbv zeta in HQ. set (f := fun c => negb (is_blank B c)) in *.
  set (w := span f (drop (Z.to_nat j) st)) in *.
  eapply (wp_loop (fun i σ => j <= i <= len st /\ exists acc, evolves σ0 (<[word := pre ++ acc]> m) σ /\
    len acc = i - j /\ acc ++ span f (drop (Z.to_nat i) st) = w) (fun i _ => Z.to_nat (len st - i))); [| | done].
  2: { split; [lia |]. exists []. rewrite app_nil_r. split_and!; [by split | change (len (@nil Z)) with 0; lia | done]. }
  intros i σ (Hi & acc & [W1 S1] & Hacc & Hw). wsteps.
  eapply wp_text_at; [exact W1 | lia |]. wsteps.
  destruct (cval st i =? 0) eqn:E; wsteps.
  { apply Z.eqb_eq, cval_zero in E; [| done | lia]. rewrite drop_ge in Hw by (unfold len in *; lia).
    cbn in Hw. rewrite app_nil_r in Hw. subst acc. replace i with (j + len w) by lia.
    apply HQ. by split. }
  assert (i < len st) by (destruct (decide (i < len st)); [done |]; rewrite cval_past in E by lia; done).
  pose proof (cval_in st i Hch ltac:(lia)) as Hci. rewrite cval_drop in Hw by (done || lia). cbn [span] in Hw.
  unfold f at 1 in Hw. apply wp_tab_get; [done | by apply cval_byte |].
  destruct (is_blank B (cval st i)) eqn:Eb; cbn [Z.eqb negb] in *; wsteps.
  - rewrite app_nil_r in Hw. subst acc. replace i with (j + len w) by lia. apply HQ. by split.
  - eapply wp_chxcatval; [exact W1 | apply lookup_insert_eq | rewrite len_app; lia
      | by rewrite land_255_id by (by apply is_char_byte) |].
    intros σ2 [W2 S2]. wsteps. rewrite insert_insert_eq, land_255_id in W2 by (by apply is_char_byte).
    split; [| lia]. split; [lia |]. exists (acc ++ [cval st i]). rewrite app_assoc.
    split_and!; [split; [done | congruence] | rewrite len_app; change (len [cval st i]) with 1; lia |].
    by rewrite <- app_assoc.
Qed.
End nextword.

(** [chxnextword]: the next run of characters that are no blanks. *)
Lemma wp_chxnextword e σ m word text sw tx pos B (Q : Z * Z -> st -> Prop) :
  wf σ m -> m !! word = Some sw -> m !! text = Some tx -> word <> text ->
  sc_blanks (stat σ) <> Some word -> 0 <= pos <= len tx -> len tx + 10 < 2 ^ 31 -> nw_ready e σ m B ->
  (forall σ' m' sw', m ⊆ m' -> same_statics σ σ' ->
     let '(r, w, pos') := nextword_result B tx pos in
     wf σ' (<[word := if r <? 0 then sw' else w]> m') -> Q (r, pos') σ') ->
  wp (chxnextword (Some word) (Some text) pos) e σ Q.
Proof.
  intros W Hw Ht Hne Hsc Hpos Hbig HT HQ. unfold chxnextword, guard. wsteps. wguard. wsteps.
  eapply wp_nw_table; [exact W | exact Hw | done | exact HT |].
  intros σ1 m1 sw1 W1 Hsub HB HS1 Hget. wsteps. rewrite Hget. wsteps.
  assert (Ht1 : m1 !! text = Some tx) by (by eapply lookup_weaken).
  destruct (wf_lookup _ _ text tx W1) as (c & Hc & Hok); [by rewrite lookup_insert_ne |].
  pose proof (ok_chars _ _ _ Hok) as Hch.
  destruct (ok_buf _ _ _ Hok) as (b & r & Hb & _). wsteps.
  destruct (view_chix _ _ _ _ pos Hok Hb) as (t & Hv & _); [lia |]. rewrite Hv. cbn [from_option].
  assert (Hfuel : (Z.to_nat (len tx - pos) < S (length (drop (Z.to_nat pos) tx ++ 0%Z :: t)))%nat).
  { rewrite length_app, length_drop. unfold len. lia. }
  eapply (nw_skip e m1 word text tx B Ht1 Hne HB); [exact W1 | done | lia | exact Hfuel |].
  unfold nextword_result in HQ. cbv zeta in *.
  set (j := pos + len (span (is_blank B) (drop (Z.to_nat pos) tx))) in *. wsteps.
  assert (Hj : pos <= j <= len tx).
  { pose proof (span_len (is_blank B) (drop (Z.to_nat pos) tx)) as Hs. rewrite len_drop in Hs. subst j. len_pos. lia. }
  destruct (cval tx j =? 0) eqn:E; wsteps.
  { apply Z.eqb_eq, cval_zero in E; [| done | lia]. specialize (HQ σ1 m1 sw1 Hsub HS1).
    replace (len tx <=? j) with true in HQ by lia. by apply HQ. }
  assert (Hlt : j < len tx) by (destruct (decide (j < len tx)); [done |]; rewrite cval_past in E by lia; done).
  eapply wp_chxtype; [exact W1 | by rewrite lookup_insert_ne |]. wsteps.
  eapply wp_chxclear; [exact W1 | apply lookup_insert_eq |]. intros σ2 [W2 S2]. wsteps. rewrite insert_insert_eq in W2.
  pose proof (cval_in tx j Hch ltac:(lia)) as Hcj.
  eapply wp_chxcatval; [exact W2 | apply lookup_insert_eq | done | by rewrite land_255_id by (by apply is_char_byte) |].
  intros σ3 [W3 S3]. wsteps. rewrite insert_insert_eq, land_255_id in W3 by (by apply is_char_byte).
  eapply (nw_collect e m1 word text tx B THIN Ht1 Hne HB σ3 [cval tx j]);
    [exact W3 | done | lia | change (len [cval tx j]) with 1; lia | lia |].
  intros σ4. cbv zeta. intros [W4 S4]. wsteps.
  assert (HS : same_statics σ σ4) by (unfold same_statics in *; by rewrite S4, S3, S2).
  specialize (HQ σ4 m1 [] Hsub HS). replace (len tx <=? j) with false in HQ by lia.
  assert (Hnb : is_blank B (cval tx j) = false).
  { destruct (is_blank B (cval tx j)) eqn:Eb; [exfalso | done].
    assert (Hmax := span_max (is_blank B) tx pos Hch ltac:(lia) (is_blank_0 B HB)). fold j in Hmax. congruence. }
  rewrite (cval_drop tx j) in HQ by (done || lia). cbn [span] in HQ. rewrite Hnb in HQ. cbn [negb] in HQ.
  replace (j <? 0) with false in HQ by lia. rewrite len_cons in HQ.
  replace (j + 1 + len (span (fun c0 => negb (is_blank B c0)) (drop (Z.to_nat (j + 1)) tx))) with
    (j + (len (span (fun c0 => negb (is_blank B c0)) (drop (Z.to_nat (j + 1)) tx)) + 1)) by lia.
  by apply HQ.
Qed.

(** ** The quick chix *)

(** The slots of chxquick hold ten different live chix. *)
Definition ctab_live (σ : st) (m : gmap loc (list Z)) (ls : list loc) : Prop :=
  ctab (stat σ) = Some <$> ls /\ length ls = 10%nat /\ NoDup ls /\ Forall (fun l => is_Some (m !! l)) ls.

Definition ctab_ok (σ : st) (m : gmap loc (list Z)) : Prop :=
  ctab (stat σ) = replicate 10 None \/ exists ls, ctab_live σ m ls.

(** The statics that chxquick leaves alone. *)
Definition but_ctab (t t' : statics) : Prop :=
  sc_blanks t' = sc_blanks t /\ rules t' = rules t /\ bt_blank t' = bt_blank t /\
  bt_int4 t' = bt_int4 t /\ bt_token t' = bt_token t /\ bt_nextword t' = bt_nextword t.

Lemma but_ctab_refl t : but_ctab t t.
Proof. by split_and!. Qed.
Lemma but_ctab_trans t1 t2 t3 : but_ctab t1 t2 -> but_ctab t2 t3 -> but_ctab t1 t3.
Proof. unfold but_ctab. intuition congruence. Qed.

Lemma wp_ctab_init e σ m (Q : unit -> st -> Prop) :
  wf σ m -> ctab (stat σ) = replicate 10 None ->
  (forall σ' m' ls, wf σ' m' -> m ⊆ m' -> ctab_live σ' m' ls -> Forall (fun l => m !! l = None) ls ->
     but_ctab (stat σ) (stat σ') -> Q tt σ') ->
  wp ctab_init e σ Q.
Proof.
  intros W Hc HQ. unfold ctab_init, CTABSIZE.
  eapply (wp_loop (fun i σ' => exists m' ls, wf σ' m' /\ m ⊆ m' /\ i = len ls /\ (length ls <= 10)%nat /\
     ctab (stat σ') = (Some <$> ls) ++ replicate (10 - length ls) None /\ NoDup ls /\
     Forall (fun l => is_Some (m' !! l) /\ m !! l = None) ls /\ but_ctab (stat σ) (stat σ'))
    (fun i _ => Z.to_nat (10 - i))); [| | lia].
  2: { exists m, []. split_and!; try done; [simpl; lia | constructor]. }
  intros i σ1 (m1 & ls & W1 & Hsub & -> & H10 & Hct & Hnd & Hls & HB).
  destruct (10 <=? len ls) eqn:E; wsteps.
  - apply (HQ σ1 m1 ls); try done.
    + split_and!; [| unfold len in E; lia | done | eapply Forall_impl; [exact Hls |]; by intros ? [? ?]].
      rewrite Hct. replace (10 - length ls)%nat with 0%nat by (unfold len in E; lia). by rewrite app_nil_r.
    + eapply Forall_impl; [exact Hls |]; by intros ? [? ?].
  - eapply wp_chxalloc; [exact W1 | lia |]. intros l c σ2 Hl [W2 S2] _ _ _ _. unfold ctab_set. wsteps.
    assert (Hl0 : m !! l = None) by (eapply lookup_weaken_None; [exact Hl | exact Hsub]).
    unfold len in *. split; [| lia]. exists (<[l := []]> m1), (ls ++ [l]).
    split_and!.
    + by apply wf_set_stat.
    + etrans; [exact Hsub | by apply insert_subseteq].
    + rewrite length_app. simpl. lia.
    + rewrite length_app. simpl. lia.
    + cbn. rewrite S2, Hct, fmap_app, length_app. cbn [fmap length list_fmap].
      rewrite Nat2Z.id. rewrite insert_app_r_alt by (rewrite length_fmap; lia).
      rewrite length_fmap, Nat.sub_diag.
      replace (10 - length ls)%nat with (S (10 - (length ls + 1))) by lia. cbn. by rewrite <- app_assoc.
    + apply NoDup_app. split_and!; [done | | apply NoDup_singleton].
      intros k Hk Hk'. apply list_elem_of_singleton in Hk' as ->. rewrite Forall_forall in Hls.
      destruct (Hls l Hk) as [[s Hs] _]. congruence.
    + apply Forall_app. split; [| repeat constructor; [rewrite lookup_insert_eq; by eexists | done]].
      eapply Forall_impl; [exact Hls |]. intros k [[s Hs] Hk]. split; [| done].
      rewrite lookup_insert_ne by congruence. by eexists.
    + unfold but_ctab in *. cbn. by rewrite S2.
Qed.

Lemma wp_strcpy e b (s : list Z) : Forall is_char s ->
  forall σ q t pre mid (Q : unit -> st -> Prop),
  view (blocks σ) q = Some (s ++ 0 :: t) -> off_block q b ->
  blocks σ !! b = Some (pre ++ mid) -> len s < len mid ->
  Q tt (set_blocks σ (<[b := pre ++ s ++ 0 :: drop (S (length s)) mid]> (blocks σ))) ->
  forall fuel, (length s < fuel)%nat ->
  wp (loop fuel (fun '(ap, bp) =>
    v ← ldb bp;
    stb ap v;;
    if v =? 0 then mret (inr tt) else mret (inl (padd ap 1, padd bp 1))) (PBlk b (len pre), q)) e σ Q.
Proof.
  induction 1 as [| c s Hc Hs IH]; intros σ q t pre mid Q Hv Hoff Hb Hl HQ fuel Hf;
    (destruct fuel as [| fuel]; [simpl in Hf; lia |]); rewrite loop_step; wsteps;
    (eapply wp_ldb; [exact Hv |]); wsteps; len_pos;
    (destruct mid as [| y mid]; [rewrite ?len_cons in Hl; change (len (@nil Z)) with 0 in Hl; lia |]);
    (eapply wp_stb; [exact Hb | zlen |]); wsteps; rewrite insert_len_app.
  - cbn [Z.eqb]. wsteps. exact HQ.
  - unfold is_char in Hc. replace (c =? 0) with false by lia. wsteps. cbn [padd].
    replace (len pre + 1) with (len (pre ++ [c])) by (rewrite len_app; done).
    eapply IH.
    + eapply view_padd. cbn [blocks set_blocks]. rewrite view_insert by done. exact Hv.
    + by destruct q.
    + cbn. rewrite lookup_insert_eq. by rewrite <- app_assoc.
    + rewrite !len_cons in Hl. lia.
    + unfold set_blocks in *. cbn in *. rewrite insert_insert_eq, <- app_assoc. exact HQ.
    + simpl in Hf. lia.
Qed.

Definition slot_of (slot : Z) : nat :=
  Z.to_nat (if slot <? 0 then 0 else if CTABSIZE - 1 <? slot then CTABSIZE - 1 else slot).

Lemma slot_of_bound slot : (slot_of slot < 10)%nat.
Proof. unfold slot_of, CTABSIZE. destruct (slot <? 0) eqn:E1; [lia |]. destruct (10 - 1 <? slot) eqn:E2; lia. Qed.

Lemma wp_ctab_at e σ m ls slot l (Q : Chix -> st -> Prop) :
  ctab_live σ m ls -> ls !! Z.to_nat slot = Some l -> Q (Some l) σ -> wp (ctab_at slot) e σ Q.
Proof.
  intros (Hc & _) Hl HQ. unfold ctab_at. wsteps. rewrite Hc, list_lookup_fmap, Hl. cbn. by wsteps.
Qed.

Lemma ctab_live_same σ σ' m m' ls :
  ctab_live σ m ls -> ctab (stat σ') = ctab (stat σ) ->
  (forall l, is_Some (m !! l) -> is_Some (m' !! l)) -> ctab_live σ' m' ls.
Proof.
  intros (H1 & H2 & H3 & H4) Hc Hm. split_and!; [congruence | done | done |].
  eapply Forall_impl; [exact H4 | exact Hm].
Qed.

(** [chxquick] returns the slot's chix, holding the string. *)
Lemma wp_chxquick e σ m str slot (Q : Chix -> st -> Prop) :
  wf σ m -> ctab_ok σ m -> Forall is_char str -> len str + 5 < 2 ^ 31 ->
  (forall σ' m1 ls l, m ⊆ m1 -> wf σ' (<[l := str]> m1) -> ctab_live σ' (<[l := str]> m1) ls ->
     ls !! slot_of slot = Some l -> but_ctab (stat σ) (stat σ') ->
     (ctab (stat σ) = Some <$> ls /\ stat σ' = stat σ /\ m1 = m) \/
     (ctab (stat σ) = replicate 10 None /\ Forall (fun l => m !! l = None) ls) -> Q (Some l) σ') ->
  wp (chxquick (Some str) slot) e σ Q.
Proof.
  intros W HT Hstr Hbig HQ. unfold chxquick. wsteps.
  apply wp_mono with (P := fun first σ' => σ' = σ /\ (first = None <-> ctab (stat σ) = replicate 10 None)).
  { destruct HT as [Hc | (ls & Hl)].
    - unfold ctab_at. wsteps. rewrite Hc. cbn. by wsteps.
    - pose proof Hl as (Hc & H10 & _). destruct ls as [| l ls]; [done |].
      eapply (wp_ctab_at _ _ _ _ 0 l); [exact Hl | done |]. split; [done |]. rewrite Hc. done. }
  intros first σ1 [-> Hfirst]. wsteps.
  apply wp_mono with (P := fun _ σ1 => exists m1 ls, wf σ1 m1 /\ m ⊆ m1 /\ ctab_live σ1 m1 ls /\
    but_ctab (stat σ) (stat σ1) /\
    ((ctab (stat σ) = Some <$> ls /\ stat σ1 = stat σ /\ m1 = m) \/
     (ctab (stat σ) = replicate 10 None /\ Forall (fun l => m !! l = None) ls))).
  { destruct first as [x |].
    - wsteps. destruct HT as [Hc | (ls & Hl)]; [by apply Hfirst in Hc |].
      exists m, ls. split_and!; try done. left. split_and!; [apply Hl | done | done].
    - eapply wp_ctab_init; [exact W | by apply Hfirst |]. intros σ' m' ls W' Hsub Hl Hn HB.
      exists m', ls. split_and!; try done; try apply HB. right. split; [by apply Hfirst | done]. }
  intros _ σ1 (m1 & ls & W1 & Hsub & Hl & HB & Hor). wsteps.
  pose proof Hl as (Hc & H10 & Hnd & Hlive).
  destruct (lookup_lt_is_Some_2 ls (slot_of slot)) as [l Hslot]; [pose proof (slot_of_bound slot); lia |].
  eapply wp_ctab_at; [exact Hl | exact Hslot |]. wsteps.
  destruct (Forall_lookup_1 _ _ _ _ Hlive Hslot) as [s0 Hs0].
  destruct (wf_lookup _ _ _ _ W1 Hs0) as (c & Hcx & Hok). wsteps.
  rewrite (ok_FREED _ _ _ Hok). wsteps.
  eapply wp_ctab_at; [exact Hl | exact Hslot |]. wsteps.
  destruct (ok_buf _ _ _ Hok) as (b & rest & Hp & Hbuf & Hrest & Hroom). wsteps. len_pos.
  eapply wp_stb; [exact Hbuf | zlen |]. wsteps.
  cbn [chixs set_blocks].
  assert (W2 : wf (set_chixs (set_blocks σ1 (<[b := <[Z.to_nat 0 := 0]> (s0 ++ 0 :: rest)]> (blocks σ1)))
     (<[l := set_actlen c 0]> (chixs σ1))) (<[l := []]> m1)).
  { apply (wf_cut σ1 _ m1 l c b s0 rest 0); try done. }
  set (σ2 := set_chixs _ _) in *.
  assert (Hc2 : chixs σ2 !! l = Some (set_actlen c 0)) by (cbn; apply lookup_insert_eq).
  assert (Hl2 : <[l := []]> m1 !! l = Some []) by apply lookup_insert_eq.
  rewrite (i32_small (len str)), (i32_small (len str + 5)) by lia.
  apply wp_mono with (P := fun r σ3 => r = 1 /\ evolves σ1 (<[l := []]> m1) σ3 /\
    exists c, chixs σ3 !! l = Some c /\ len str + 5 <= maxlen c).
  { destruct (maxlen (set_actlen c 0) <? len str + 5) eqn:E; wsteps.
    - eapply wp_chxresize; [exact W2 | exact Hc2 | exact Hl2 | lia |]. intros σ3 c3 W3 S3 Hc3 _ _ Hmax.
      split_and!; [done | by split |]. exists c3. rewrite Hc3, lookup_insert_eq. split; [done | lia].
    - split_and!; [done | by split |]. eexists. split; [exact Hc2 | lia]. }
  intros r σ3 (-> & [W3 S3] & c3 & Hc3 & Hmax). cbn [Z.eqb]. wsteps.
  destruct (ok_buf _ _ _ (wf_ok _ _ W3 _ _ _ Hc3 Hl2)) as (b3 & rest3 & Hp3 & Hbuf3 & Hr3 & Hroom3). wsteps.
  unfold strcpy. wsteps. cbn in Hroom3.
  eapply (wp_strcpy e b3 str Hstr _ _ [] []); [done | done | exact Hbuf3 | rewrite len_cons; change (len (@nil Z)) with 0 in Hroom3; lia | | simpl; change (Z.to_nat 0) with 0%nat; rewrite drop_0, length_app; simpl; lia].
  wsteps. cbn [chixs set_blocks]. eapply (HQ _ m1 ls l); try done.
  - rewrite <- (insert_insert_eq m1 l str []).
    eapply (wf_rewrite σ3); [exact W3 | exact Hc3 | exact Hl2 | exact Hp3 | done | done | done | done | by right | done | done | | lia |].
    + cbn [drop]. by apply Forall_drop.
    + cbn [drop]. rewrite len_drop. change (len (@nil Z)) with 0 in Hroom3. unfold len in *. lia.
  - eapply (ctab_live_same σ1 _ m1); [exact Hl | cbn; by rewrite S3 |].
    intros k Hk. rewrite lookup_insert. case_decide; [by eexists | done].
  - eapply but_ctab_trans; [exact HB |]. cbn. rewrite S3. apply but_ctab_refl.
  - destruct Hor as [(E1 & E2 & E3) | Hor]; [left | by right]. split_and!; [done | cbn; by rewrite S3 | done].
Qed.

(** With the slots in place it only stores the string. *)
Lemma wp_chxquick_live e σ m ls l str slot (Q : Chix -> st -> Prop) :
  wf σ m -> ctab_live σ m ls -> ls !! slot_of slot = Some l -> Forall is_char str -> len str + 5 < 2 ^ 31 ->
  (forall σ', evolves σ (<[l := str]> m) σ' -> Q (Some l) σ') ->
  wp (chxquick (Some str) slot) e σ Q.
Proof.
  intros W HL Hl Hs Hbig HQ. eapply wp_chxquick; [exact W | by right; exists ls | done | done |].
  intros σ' m1 ls' l' Hsub W' _ Hl' _ [(E1 & E2 & ->) | [E _]].
  - destruct HL as (E & _). rewrite E in E1. apply (inj (fmap Some)) in E1 as ->.
    assert (l' = l) as -> by congruence. apply HQ. by split.
  - destruct HL as (E' & H10 & _). rewrite E in E'. destruct ls; done.
Qed.

(** ** Simplifying blanks *)

(** Every run of blanks reduced to one. *)
Fixpoint squeeze (s : list Z) : list Z :=
  match s with
  | [] => []
  | c :: s' => if (c =? 32) && bool_decide (head s' = Some 32) then squeeze s' else c :: squeeze s'
  end.

Definition lstrip1 (s : list Z) : list Z :=
  match s with c :: s' => if c =? 32 then s' else s | [] => [] end.

Definition simplify (s : list Z) : list Z := rstrip (fun v => v =? 32) (lstrip1 (squeeze s)).

Lemma squeeze_dup u v : squeeze (u ++ 32 :: 32 :: v) = squeeze (u ++ 32 :: v).
Proof.
  induction u as [| c u IH]; [done |]. cbn [app squeeze]. rewrite IH.
  by destruct u.
Qed.

Lemma squeeze_id s :
  (forall j, 0 <= j < len s -> prefixb [32; 32] (drop (Z.to_nat j) s) = false) -> squeeze s = s.
Proof.
  induction s as [| c s IH]; intros H; [done |]. cbn [squeeze].
  destruct ((c =? 32) && bool_decide (head s = Some 32)) eqn:E.
  - exfalso. apply andb_true_iff in E as [E1 E2]. apply Z.eqb_eq in E1 as ->. apply bool_decide_eq_true in E2.
    destruct s as [| d s]; [done |]. injection E2 as ->. specialize (H 0). rewrite !len_cons in H. len_pos.
    specialize (H ltac:(lia)). done.
  - f_equal. apply IH. intros j Hj. specialize (H (j + 1)). rewrite len_cons in H.
    replace (Z.to_nat (j + 1)) with (S (Z.to_nat j)) in H by lia. apply H. lia.
Qed.

Lemma alter_blanks s :
  match alter_first s 0 [32; 32] [32] with
  | None => squeeze s = s
  | Some s' => squeeze s' = squeeze s /\ len s' + 1 = len s
  end.
Proof.
  unfold alter_first, cindex. rewrite bool_decide_eq_false_2 by done. change (drop (Z.to_nat 0) s) with s.
  set (k := findsub [32; 32] s 0). destruct (findsub_ge [32; 32] s 0) as [E | E]; fold k in E.
  - rewrite E. change (-1 <? 0) with true. cbn iota. apply squeeze_id. by apply (findsub_none _ _ 0).
  - replace (k <? 0) with false by lia.
    destruct (findsub_found [32; 32] s 0 k) as [Hp _]; [lia | done | lia |].
    rewrite Z.sub_0_r in Hp. apply prefixb_spec in Hp as [v Hv].
    assert (Hs : s = take (Z.to_nat k) s ++ 32 :: 32 :: v) by (rewrite <- (take_drop (Z.to_nat k) s) at 1; by rewrite Hv).
    replace (drop (Z.to_nat (k + len [32; 32])) s) with v.
    2: { change (len [32; 32]) with 2. replace (Z.to_nat (k + 2)) with (Z.to_nat k + 2)%nat by lia.
         rewrite <- drop_drop, Hv. done. }
    split.
    + rewrite Hs at 2. rewrite squeeze_dup. done.
    + rewrite Hs at 2. zlen.
Qed.

Lemma squeeze_len s : len (squeeze s) <= len s.
Proof. induction s as [| c s IH]; [done |]. cbn [squeeze]. destruct (_ && _); zlen. Qed.

(** No two blanks are adjacent. *)
Definition no_double (s : list Z) : Prop := forall u v, s <> u ++ 32 :: 32 :: v.

Lemma squeeze_no_double s : no_double (squeeze s).
Proof.
  induction s as [| c s IH]; intros u v E; [by destruct u |]. cbn [squeeze] in E.
  destruct ((c =? 32) && bool_decide (head s = Some 32)) eqn:Ec; [by apply IH in E |].
  destruct u as [| d u]; [| injection E as -> E; by apply IH in E].
  injection E as -> E. change (32 =? 32) with true in Ec. cbn [andb] in Ec. apply bool_decide_eq_false in Ec.
  destruct s as [| d s]; [done |]. cbn in Ec, E.
  destruct ((d =? 32) && bool_decide (head s = Some 32)) eqn:Ed.
  - apply andb_true_iff in Ed as [Ed _]. apply Z.eqb_eq in Ed. congruence.
  - injection E as -> _. done.
Qed.

Lemma no_double_tail c s : no_double (c :: s) -> no_double s.
Proof. intros H u v ->. by apply (H (c :: u) v). Qed.

Lemma no_double_prefix s t : no_double (s ++ t) -> no_double s.
Proof. intros H u v ->. apply (H u (v ++ t)). by rewrite <- app_assoc. Qed.

(** The result of simplifying: no blank at either end, no two together, and
    the same characters otherwise. *)
Lemma simplify_spec s :
  head (simplify s) <> Some 32 /\ last (simplify s) <> Some 32 /\ no_double (simplify s) /\
  filter (fun c => c <> 32) (simplify s) = filter (fun c => c <> 32) s.
Proof.
  unfold simplify. pose proof (squeeze_no_double s) as Hnd.
  assert (Hf : filter (fun c => c <> 32) (squeeze s) = filter (fun c => c <> 32) s).
  { clear. induction s as [| c s IH]; [done |]. cbn [squeeze].
    destruct ((c =? 32) && bool_decide (head s = Some 32)) eqn:E.
    - apply andb_true_iff in E as [E _]. apply Z.eqb_eq in E as ->. by rewrite filter_cons_False by tauto.
    - rewrite !filter_cons, IH. done. }
  assert (Hl : head (lstrip1 (squeeze s)) <> Some 32 /\ no_double (lstrip1 (squeeze s)) /\
    filter (fun c => c <> 32) (lstrip1 (squeeze s)) = filter (fun c => c <> 32) s).
  { rewrite <- Hf. destruct (squeeze s) as [| c t]; [done |]. cbn [lstrip1]. destruct (c =? 32) eqn:E.
    - apply Z.eqb_eq in E as ->. split_and!; [| by eapply no_double_tail | by rewrite filter_cons_False by tauto].
      intros Hh. destruct t as [| d t]; [done |]. injection Hh as ->. by apply (Hnd [] t).
    - split_and!; [| done | done]. intros [= ->]. done. }
  destruct Hl as (H1 & H2 & H3). destruct (rstrip_spec (fun v => v =? 32) (lstrip1 (squeeze s))) as (R1 & t & R2 & R3).
  set (r := rstrip _ _) in *. split_and!.
  - intros Hh. apply H1. rewrite R2. by destruct r.
  - intros Hla. by apply R1 in Hla.
  - rewrite R2 in H2. by eapply no_double_prefix.
  - rewrite <- H3, R2, filter_app. replace (filter (fun c => c <> 32) t) with (@nil Z); [by rewrite app_nil_r |].
    clear - R3. induction R3 as [| c t Hc _ IH]; [done |]. apply Z.eqb_eq in Hc as ->. by rewrite filter_cons_False by tauto.
Qed.

Lemma slots_differ (ls : list loc) i j a b :
  NoDup ls -> ls !! i = Some a -> ls !! j = Some b -> i <> j -> a <> b.
Proof. intros H Ha Hb Hij ->. apply Hij. by eapply NoDup_lookup. Qed.

(** Collapsing the blanks of [x], one double blank at a time. *)
Lemma wp_squeeze_loop e σ m x b2 b1 s fuel (Q : unit -> st -> Prop) :
  wf σ m -> m !! x = Some s -> m !! b2 = Some [32; 32] -> m !! b1 = Some [32] ->
  b2 <> x -> b1 <> x -> 2 * len s + 20 < 2 ^ 31 -> (Z.to_nat (len s) < fuel)%nat ->
  (forall σ', evolves σ (<[x := squeeze s]> m) σ' -> Q tt σ') ->
  wp (loop fuel (fun _ : unit =>
    r ← chxalter (Some x) 0 (Some b2) (Some b1);
    if r =? 0 then mret (inr tt) else mret (inl tt)) tt) e σ Q.
Proof.
  intros W Hx H2 H1 N2 N1 Hbig Hf HQ. revert σ m s W Hx H2 H1 Hbig Hf HQ.
  induction fuel as [| fuel IH]; intros σ m s W Hx H2 H1 Hbig Hf HQ; [lia |].
  rewrite loop_step. wsteps. pose proof (alter_blanks s) as Hs.
  eapply wp_chxalter; [exact W | exact Hx | exact H2 | exact H1 | lia
    | change (len [32; 32]) with 2; change (len [32]) with 1; lia |].
  intros σ1. destruct (alter_first s 0 [32; 32] [32]) as [s' |]; intros [W1 S1]; cbn [Z.eqb]; wsteps.
  - destruct Hs as [Hs Hl]. eapply (IH σ1 _ s'); [exact W1 | apply lookup_insert_eq
      | by rewrite lookup_insert_ne | by rewrite lookup_insert_ne | lia | len_pos; lia |].
    intros σ2 [W2 S2]. rewrite insert_insert_eq, Hs in W2. apply HQ. split; [done | congruence].
  - apply HQ. rewrite Hs, insert_id by done. by split.
Qed.

Lemma wp_chxsimplify e σ m x s (Q : Z -> st -> Prop) :
  wf σ m -> m !! x = Some s -> ctab_ok σ m -> Some x ∉ ctab (stat σ) -> 2 * len s + 20 < 2 ^ 31 ->
  (forall σ' m', wf σ' m' -> m' !! x = Some (simplify s) -> ctab_ok σ' m' -> but_ctab (stat σ) (stat σ') ->
     (forall k, k <> x -> is_Some (m !! k) -> Some k ∉ ctab (stat σ) -> m' !! k = m !! k) -> Q 1 σ') ->
  wp (chxsimplify (Some x)) e σ Q.
Proof.
  intros W Hx HT Hnx Hbig HQ. unfold chxsimplify, guard. wsteps. wguard. wsteps.
  eapply (wp_chxquick _ _ _ (bytes "  ") 2); [exact W | done | repeat constructor; unfold is_char; cbn; lia | done |].
  intros σ1 m1 ls l2 Hsub W1 HL1 Hl2 B1 Hor. wsteps.
  assert (Hout : forall k, is_Some (m !! k) -> Some k ∉ ctab (stat σ) -> (k ∉ ls) /\ m1 !! k = m !! k).
  { intros k [sk Hk] Hnk. split; [| rewrite Hk; by eapply lookup_weaken].
    destruct Hor as [(E & _) | [_ Hn]]; [rewrite E in Hnk; contradict Hnk; by apply list_elem_of_fmap_2 |].
    intros Hin. rewrite Forall_forall in Hn. rewrite (Hn k Hin) in Hk. done. }
  destruct (Hout x) as [Hxls Hx1]; [by eexists | done |]. rewrite Hx in Hx1.
  pose proof HL1 as (_ & H10 & Hnd & Hlive).
  destruct (lookup_lt_is_Some_2 ls 3) as [l3 Hl3]; [lia |]. destruct (lookup_lt_is_Some_2 ls 4) as [l4 Hl4]; [lia |].
  assert (l2 <> l3 /\ l2 <> l4 /\ l3 <> l4) as (H23 & H24 & H34).
  { split_and!; eapply slots_differ; try eassumption; by cbv. }
  assert (Hx234 : l2 <> x /\ l3 <> x /\ l4 <> x).
  { split_and!; intros ->; apply Hxls; by eapply list_elem_of_lookup_2. }
  destruct Hx234 as (N2 & N3 & N4).
  eapply (wp_chxquick_live _ _ _ ls l3 (bytes " ") 3); [exact W1 | exact HL1 | exact Hl3
    | repeat constructor; unfold is_char; cbn; lia | done |]. intros σ2 [W2 S2]. wsteps.
  assert (HL2 : ctab_live σ2 (<[l3 := bytes " "]> (<[l2 := bytes "  "]> m1)) ls).
  { eapply ctab_live_same; [exact HL1 | by rewrite S2 |].
    intros k Hk. rewrite lookup_insert. case_decide; [by eexists | done]. }
  eapply (wp_chxquick_live _ _ _ ls l4 [] 4); [exact W2 | exact HL2 | exact Hl4 | done | done |].
  intros σ3 [W3 S3]. wsteps.
  set (m3 := <[l4 := []]> (<[l3 := bytes " "]> (<[l2 := bytes "  "]> m1))) in *.
  assert (HL3 : ctab_live σ3 m3 ls).
  { eapply ctab_live_same; [exact HL2 | by rewrite S3 |].
    intros k Hk. unfold m3. rewrite lookup_insert. case_decide; [by eexists | done]. }
  assert (E2 : m3 !! l2 = Some [32; 32])
    by (unfold m3; rewrite lookup_insert_ne, lookup_insert_ne, lookup_insert_eq by congruence; done).
  assert (E3 : m3 !! l3 = Some [32]) by (unfold m3; rewrite lookup_insert_ne, lookup_insert_eq by congruence; done).
  assert (E4 : m3 !! l4 = Some []) by apply lookup_insert_eq.
  assert (Ex : m3 !! x = Some s) by (unfold m3; by rewrite !lookup_insert_ne).
  destruct (wf_lookup _ _ _ _ W3 Ex) as (c & Hc & Hok). wsteps. pose proof (ok_len _ _ _ Hok).
  eapply wp_squeeze_loop; [exact W3 | exact Ex | exact E2 | exact E3 | done | done | lia | lia |].
  intros σ4 [W4 S4]. wsteps.
  eapply wp_chxvalue; [exact W4 | apply lookup_insert_eq | lia |]. intros σ5 [W5 S5] _. wsteps.
  pose proof (squeeze_len s) as Hsq.
  apply wp_mono with (P := fun _ σ6 => evolves σ3 (<[x := lstrip1 (squeeze s)]> m3) σ6).
  { destruct (cval (squeeze s) 0 =? 32) eqn:E; wsteps.
    - eapply wp_chxalter; [exact W5 | apply lookup_insert_eq | rewrite lookup_insert_ne by done; exact E3
        | rewrite lookup_insert_ne by done; exact E4 | lia | change (len [32]) with 1; change (len (@nil Z)) with 0; lia |].
      intros σ6. destruct (squeeze s) as [| d t]; [done |]. apply Z.eqb_eq in E. change (d = 32) in E. subst d.
      cbn [alter_first]. unfold alter_first. change (cindex (32 :: t) 0 [32]) with 0. cbn iota.
      change (Z.to_nat 0) with 0%nat. change (Z.to_nat (0 + len [32])) with 1%nat. cbn [take drop app Z.ltb].
      change (0 <? 0) with false. cbn iota. intros [W6 S6]. wsteps. rewrite insert_insert_eq in W6.
      split; [done | congruence].
    - split; [| congruence]. destruct (squeeze s) as [| d t]; [done |]. change (cval (d :: t) 0) with d in E.
      cbn [lstrip1]. by rewrite E. }
  intros _ σ6 [W6 S6]. wsteps.
  unfold chxtrim, guard. wsteps.
  assert (Hx6 : <[x := lstrip1 (squeeze s)]> m3 !! x = Some (lstrip1 (squeeze s))) by apply lookup_insert_eq.
  wguard. wsteps. eapply wp_trim_with; [exact W6 | exact Hx6 |]. intros σ7 [W7 S7]. wsteps.
  rewrite insert_insert_eq in W7. eapply (HQ _ _ W7); [apply lookup_insert_eq | | |].
  - right. exists ls. eapply ctab_live_same; [exact HL3 | by rewrite S7, S6 |].
    intros k Hk. rewrite lookup_insert. case_decide; [by eexists | done].
  - rewrite S7, S6, S3, S2. exact B1.
  - intros k Hkx Hk Hnk. destruct (Hout k Hk Hnk) as [Hkls <-].
    assert (l2 <> k /\ l3 <> k /\ l4 <> k) as (? & ? & ?).
    { split_and!; intros ->; apply Hkls; by eapply list_elem_of_lookup_2. }
    unfold m3. by rewrite !lookup_insert_ne.
Qed.

(** ** Initialisation *)

(** After [chx_init] the collation is the standard one, and blank, newline and
    tab separate words. *)
Lemma wp_chx_init e σ m bs type (Q : Z -> st -> Prop) :
  wf σ m -> blank_chars σ m bs -> type = ASCII \/ type = ISO8859 ->
  (forall σ' m', wf σ' m' -> rules (stat σ') = init_rules -> blank_chars σ' m' [32; 10; 9] ->
     ctab (stat σ') = ctab (stat σ) ->
     (forall k, m !! k <> None -> sc_blanks (stat σ) <> Some k -> m' !! k = m !! k) -> Q 1 σ') ->
  wp (chx_init type) e σ Q.
Proof.
  intros W HB Ht HQ. unfold chx_init. wsteps.
  eapply wp_chxalloc; [done | lia |]. intros x c σ1 Hx [W1 S1] _ _ _ _. wsteps.
  eapply wp_chxcollate; [exact W1 |]. intros σ2 W2 S2 _. wsteps.
  eapply wp_chxcollate; [exact W2 |]. intros σ3 W3 S3 _. wsteps.
  eapply wp_chxcollate; [exact W3 |]. intros σ4 W4 S4 _. wsteps.
  assert (HR : rules (stat σ4) = init_rules) by (rewrite S4; cbn; rewrite S3; cbn; by rewrite S2).
  assert (HC : ctab (stat σ4) = ctab (stat σ)) by (rewrite S4; cbn; rewrite S3; cbn; rewrite S2; cbn; by rewrite S1).
  assert (Hsc : sc_blanks (stat σ4) = sc_blanks (stat σ)) by (rewrite S4; cbn; rewrite S3; cbn; rewrite S2; cbn; by rewrite S1).
  replace (type =? JIX) with false by (destruct Ht as [-> | ->]; done).
  replace ((type =? ASCII) || (type =? ISO8859)) with true by (destruct Ht as [-> | ->]; done). wsteps.
  eapply wp_chxcatval; [exact W4 | apply lookup_insert_eq | done | by compute |]. intros σ5 [W5 S5]. wsteps.
  rewrite insert_insert_eq in W5.
  eapply wp_chxcatval; [exact W5 | apply lookup_insert_eq | done | by compute |]. intros σ6 [W6 S6]. wsteps.
  rewrite insert_insert_eq in W6.
  eapply wp_chxcatval; [exact W6 | apply lookup_insert_eq | done | by compute |]. intros σ7 [W7 S7]. wsteps.
  rewrite insert_insert_eq in W7. change ((([] ++ [Z.land 32 255]) ++ [Z.land 10 255]) ++ [Z.land 9 255]) with [32; 10; 9] in W7.
  assert (S47 : stat σ7 = stat σ4) by congruence.
  assert (HB7 : blank_chars σ7 (<[x := [32; 10; 9]]> m) bs).
  { unfold blank_chars in *. rewrite S47, Hsc. destruct (sc_blanks (stat σ)); [| done].
    rewrite lookup_insert_ne; congruence. }
  eapply wp_chxspecial_set; [exact W7 | apply lookup_insert_eq | exact HB7 | done |].
  intros σ8 m8 l W8 Hl S8 Hk _. wsteps. eapply (HQ _ m8); [exact W8 | | | |].
  - rewrite S8. cbn. by rewrite S47.
  - unfold blank_chars. rewrite S8. exact Hl.
  - rewrite S8. cbn. by rewrite S47.
  - intros k Hk1 Hk2. rewrite Hk; [by rewrite lookup_insert_ne by congruence | | by rewrite S47, Hsc].
    by rewrite lookup_insert_ne by congruence.
Qed.

(** ** To a C string *)

(** Block [d] belongs to the caller, not to a chix. *)
Definition foreign (σ : st) (d : loc) : Prop :=
  forall l c, chixs σ !! l = Some c -> cp c <> Some d.

Lemma wf_foreign σ m d buf :
  wf σ m -> foreign σ d -> is_Some (blocks σ !! d) ->
  wf (set_blocks σ (<[d := buf]> (blocks σ))) m.
Proof.
  intros [D O I F1 F2 R] HF [old Hd]. split; try done.
  - intros l c s H1 H2. apply chix_ok_frame; [by eapply HF | by eapply O].
  - intros l Hl. cbn in *. rewrite lookup_insert_ne; [by apply F2 |]. intros <-. rewrite F2 in Hd; done.
Qed.

(** How many characters fit: all that are left, or [n - 1]. *)
Definition asc_count (s : list Z) (i n : Z) : Z := Z.min (Z.max 0 (len s - i)) (Z.max 0 (n - 1)).

Lemma wp_ascofchx e σ m a s d buf i n (Q : Z -> st -> Prop) :
  wf σ m -> m !! a = Some s -> blocks σ !! d = Some buf -> foreign σ d ->
  0 <= i <= len s -> n <> ALLCHARS -> asc_count s i n < len buf ->
  (forall buf', let k := asc_count s i n in
     take (Z.to_nat (k + 1)) buf' = take (Z.to_nat k) (drop (Z.to_nat i) s) ++ [0] ->
     len buf' = len buf ->
     wf (set_blocks σ (<[d := buf']> (blocks σ))) m ->
     Q (if i + k =? len s then 0 else k) (set_blocks σ (<[d := buf']> (blocks σ)))) ->
  wp (ascofchx (Some (PBlk d 0)) (Some a) i n) e σ Q.
Proof.
  intros W Hs Hd HF Hi Hn Hroom HQ. unfold ascofchx, guard. wsteps. cbv zeta in HQ.
  set (k := asc_count s i n) in *. assert (Hk : 0 <= k) by (subst k; unfold asc_count; lia).
  eapply wp_stb; [exact Hd | lia |]. wsteps.
  set (buf0 := <[Z.to_nat 0 := 0]> buf).
  assert (W0 : wf (set_blocks σ (<[d := buf0]> (blocks σ))) m) by (apply wf_foreign; [done | done | by eexists]).
  wguard. wsteps. destruct (wf_lookup _ _ _ _ W0 Hs) as (c & Hc & Hok). wsteps.
  rewrite (ok_type _ _ _ Hok). change (2 <? THIN) with false. cbn iota. pose proof (ok_len _ _ _ Hok).
  replace (maxlen c <=? i) with false by lia. replace (i <? 0) with false by lia.
  replace (n =? ALLCHARS) with false by lia.
  destruct (ok_buf _ _ _ Hok) as (b & rest & Hb & Hbuf & _). wsteps.
  assert (Hbd : b <> d) by (intros ->; by eapply HF).
  destruct (view_chix _ _ _ _ i Hok Hb) as (t & Hv & Hch); [lia |]. rewrite Hv. cbn [from_option].
  cbn [blocks set_blocks] in Hbuf. rewrite lookup_insert_ne in Hbuf by done.
  assert (Hrd : forall j buf1, 0 <= j <= len s - i ->
    view (<[d := buf1]> (blocks σ)) (PBlk b (i + j)) = Some (drop (Z.to_nat (i + j)) s ++ 0 :: rest)).
  { intros j buf1 Hj. erewrite view_blk by (rewrite ?lookup_insert_ne by done; done || lia).
    rewrite drop_app_le by (unfold len in *; lia). done. }
  assert (Hchs := ok_chars _ _ _ Hok).
  assert (Hld : forall j buf1 Q1, 0 <= j <= len s - i ->
     (cval s (i + j) = 0 <-> j = len s - i) ->
     Q1 (cval s (i + j)) (set_blocks σ (<[d := buf1]> (blocks σ))) ->
     wp (ldb (PBlk b (i + j))) e (set_blocks σ (<[d := buf1]> (blocks σ))) Q1).
  { intros j buf1 Q1 Hj Hz HQ1. destruct (decide (j = len s - i)) as [E | E].
    - eapply wp_ldb; [cbn [blocks set_blocks]; rewrite Hrd by done; rewrite drop_ge by (unfold len in *; lia); done |].
      rewrite (proj2 Hz E) in HQ1. exact HQ1.
    - eapply wp_ldb; [| exact HQ1]. cbn [blocks set_blocks]. rewrite Hrd by done.
      rewrite cval_drop by (done || lia). done. }
  assert (Hz : forall j, 0 <= j <= len s - i -> (cval s (i + j) = 0 <-> j = len s - i)).
  { intros j Hj. rewrite cval_zero by (done || lia). lia. }
  assert (Hbl : len buf0 = len buf) by apply len_insert.
  eapply (wp_loop (fun j σ' => 0 <= j <= k /\ exists buf1,
      σ' = set_blocks σ (<[d := buf1]> (blocks σ)) /\ len buf1 = len buf /\
      take (Z.to_nat j) buf1 = take (Z.to_nat j) (drop (Z.to_nat i) s)) (fun j _ => Z.to_nat (k - j))).
  3: { subst k. unfold asc_count. rewrite length_app, length_drop. unfold len in *. simpl. lia. }
  2: { split; [lia |]. exists buf0. done. }
  intros j σ1 (Hj & buf1 & -> & Hl1 & Ht1). wsteps. cbn [padd].
  assert (Hjs : 0 <= j <= len s - i) by (subst k; unfold asc_count in *; lia).
  apply Hld; [done | by apply Hz |]. pose proof (Hz j Hjs) as Hzj.
  destruct ((cval s (i + j) =? 0) || (n - 1 <=? j)) eqn:E; wsteps.
  - assert (j = k) as -> by (subst k; unfold asc_count in *; lia).
    cbn [padd]. eapply wp_stb; [apply lookup_insert_eq | lia |]. wsteps.
    rewrite set_blocks_twice. cbn [blocks set_blocks]. rewrite insert_insert_eq.
    apply Hld; [done | done |]. wsteps. rewrite Z.add_0_l.
    replace (cval s (i + k) =? 0) with (i + k =? len s) by (apply eq_true_iff_eq; rewrite !Z.eqb_eq; lia).
    apply HQ.
    + replace (Z.to_nat (k + 1)) with (S (Z.to_nat k)) by lia.
      rewrite (take_S_r _ _ 0) by (apply list_lookup_insert_eq; unfold len in *; lia).
      rewrite take_insert_ge by lia. by rewrite Ht1.
    + by rewrite len_insert.
    + apply wf_foreign; [done | done | by eexists].
  - cbn [padd]. eapply wp_stb; [apply lookup_insert_eq | subst k; unfold asc_count in *; lia |]. wsteps.
    rewrite set_blocks_twice. cbn [blocks set_blocks]. rewrite insert_insert_eq, Z.add_0_l.
    assert (Hjk : j < k) by (subst k; unfold asc_count in *; lia).
    split; [| lia]. split; [lia |]. eexists. split_and!; [done | by rewrite len_insert |].
    replace (Z.to_nat (j + 1)) with (S (Z.to_nat j)) by lia.
    rewrite (take_S_r _ _ (cval s (i + j))) by (apply list_lookup_insert_eq; unfold len in *; lia).
    rewrite take_insert_ge by lia. rewrite Ht1. symmetry. apply take_S_r.
    rewrite lookup_drop. unfold cval. replace (Z.to_nat i + Z.to_nat j)%nat with (Z.to_nat (i + j)) by lia.
    destruct (s !! Z.to_nat (i + j)) eqn:El; [done |]. apply lookup_ge_None_1 in El. unfold len in *. lia.
Qed.
