(* ===== verification/ChixClient.v ===== *)
(** Client programs of the chix library, and what they compute: every
    sequence of library calls on chix the client has allocated and not freed
    refines the same sequence on plain strings. *)
From S2P Require Import Prelude Memory Wp Chix ChixInv ChixCore ChixEdit ChixSearch.

(** ** Programs

    Variables are numbered in the order of their allocation. *)
Inductive op : Type :=
| New (maxl : Z) | NewSub (i : nat) (p n : Z) | Free (i : nat)
| Clear (i : nat) | SetStr (i : nat) (s : list Z)
| Cat (i j : nat) | CatSub (i j : nat) (p n : Z) | CatVal (i : nat) (v : Z)
| Cpy (i j : nat) | Conc (i j k : nat)
| Trunc (i : nat) (p : Z) | Trim (i : nat) | Chomp (i : nat) | SetVal (i : nat) (p v : Z)
| RepVal (i : nat) (p o n : Z) | Alter (i : nat) (p : Z) (j k : nat) | Replace (i : nat) (p : Z) (j k : nat)
| Break (i f t p : nat)
| Len (i : nat) | Value (i : nat) (p : Z) | Index (i : nat) (p : Z) (j : nat) | Revdex (i : nat) (p : Z) (j : nat)
| Subeq (i : nat) (p : Z) (j : nat) | Eq (i j : nat) | Abr (i j : nat) | Compare (i j : nat) (n : Z).

(** ** The strings *)
Abbreviation strings := (list (option (list Z))) (only parsing).

Definition get (A : strings) (i : nat) : option (list Z) := mjoin (A !! i).
Definition put (A : strings) (i : nat) (s : list Z) : strings := <[i := Some s]> A.

(** The strings a client may build: well below the range of [int4]. *)
Definition BIG : Z := 2 ^ 28.
Definition fits (s : list Z) : bool := len s <? BIG.

(** Store [s] in variable [i], if it fits. *)
Definition store (A : strings) (i : nat) (s : list Z) (r : Z) : option (strings * Z) :=
  if fits s then Some (put A i s, r) else None.

(** What each call does to the strings; [None] where the client breaks the
    rules of the library: a freed or unknown variable, a negative position, a
    zero character, variables that must differ. *)
Definition astep (rs : list rule_t) (A : strings) (o : op) : option (strings * Z) :=
  match o with
  | New maxl => if maxl <? BIG then Some (A ++ [Some []], 1) else None
  | NewSub i p n => s ← get A i; Some (A ++ [Some (csub s p n)], 1)
  | Free i => _ ← get A i; Some (<[i := None]> A, 1)
  | Clear i => _ ← get A i; store A i [] 1
  | SetStr i s => _ ← get A i; if forallb (fun v => bool_decide (is_char v)) s then store A i s 1 else None
  | Cat i j => s ← get A i; t ← get A j;
      if bool_decide (i = j) then None else store A i (s ++ t) 1
  | CatSub i j p n => s ← get A i; t ← get A j;
      if bool_decide (i = j) then None else store A i (s ++ csub t p n) 1
  | CatVal i v => s ← get A i;
      if bool_decide (is_char (Z.land v 255)) then store A i (s ++ [Z.land v 255]) 1 else None
  | Cpy i j => _ ← get A i; t ← get A j; store A i t 1
  | Conc i j k => _ ← get A i; t ← get A j; u ← get A k; store A i (t ++ u) 1
  | Trunc i p => s ← get A i;
      if p <? 0 then None else store A i (take (Z.to_nat p) s) (if p <? len s then 1 else 0)
  | Trim i => s ← get A i; store A i (rstrip (fun v => v =? 32) s) 1
  | Chomp i => s ← get A i; store A i (rstrip (fun v => (v =? 10) || (v =? 13)) s) 1
  | SetVal i p v => s ← get A i;
      if (p <? 0) || negb (bool_decide (is_char (Z.land v 255))) then None
      else store A i (<[Z.to_nat p := Z.land v 255]> s) (if p <? len s then 1 else 0)
  | RepVal i p o n => s ← get A i;
      if (p <? 0) || negb (bool_decide (is_char (Z.land n 255))) then None
      else store A i (repval s p o (Z.land n 255)) (if p <? len s then 1 else 0)
  | Alter i p j k => s ← get A i; t ← get A j; u ← get A k;
      if p <? 0 then None else
      match alter_first s p t u with None => Some (A, 0) | Some s' => store A i s' 1 end
  | Replace i p j k => s ← get A i; t ← get A j; u ← get A k;
      if p <? 0 then None else
      match replace_all s p t u with None => Some (A, 0) | Some s' => store A i s' 1 end
  | Break i f t p => s ← get A i; _ ← get A f; _ ← get A t; u ← get A p;
      if bool_decide (i = f \/ i = t \/ f = t \/ p = f \/ p = t) then None else
      let '(r, fore, aft) := break_result s u in Some (put (put A t aft) f fore, r)
  | Len i => s ← get A i; Some (A, len s)
  | Value i p => s ← get A i; if p <? 0 then None else Some (A, cval s p)
  | Index i p j => s ← get A i; t ← get A j; if p <? 0 then None else Some (A, cindex s p t)
  | Revdex i p j => s ← get A i; t ← get A j; Some (A, crevdex s p t)
  | Subeq i p j => s ← get A i; t ← get A j;
      if (p <? 0) || (len s <? p) then None
      else Some (A, if prefixb t (drop (Z.to_nat p) s) then 1 else 0)
  | Eq i j => s ← get A i; t ← get A j; Some (A, if bool_decide (s = t) then 1 else 0)
  | Abr i j => s ← get A i; t ← get A j; Some (A, abr_result s t)
  | Compare i j n => s ← get A i; t ← get A j; Some (A, compare_result rs s t n)
  end.

Fixpoint arun (rs : list rule_t) (A : strings) (os : list op) : option (strings * list Z) :=
  match os with
  | [] => Some (A, [])
  | o :: os' =>
      '(A', r) ← astep rs A o;
      '(A'', l) ← arun rs A' os';
      Some (A'', r :: l)
  end.

(** ** The calls *)
Definition var (V : list loc) (i : nat) : Chix := V !! i.

Definition cstep (V : list loc) (o : op) : M (list loc * Z) :=
  match o with
  | New maxl => x ← chxalloc maxl THIN (bytes "client new");
      match x with Some l => mret (V ++ [l], 1) | None => undef end
  | NewSub i p n => x ← chxalsub (var V i) p n;
      match x with Some l => mret (V ++ [l], 1) | None => undef end
  | Free i => r ← chxfree (var V i); mret (V, r)
  | Clear i => r ← chxclear (var V i); mret (V, r)
  | SetStr i s => r ← chxofascii (var V i) (Some s); mret (V, r)
  | Cat i j => r ← chxcat (var V i) (var V j); mret (V, r)
  | CatSub i j p n => r ← chxcatsub (var V i) (var V j) p n; mret (V, r)
  | CatVal i v => r ← chxcatval (var V i) THIN v; mret (V, r)
  | Cpy i j => r ← chxcpy (var V i) (var V j); mret (V, r)
  | Conc i j k => r ← chxconc (var V i) (var V j) (var V k); mret (V, r)
  | Trunc i p => r ← chxtrunc (var V i) p; mret (V, r)
  | Trim i => r ← chxtrim (var V i); mret (V, r)
  | Chomp i => r ← chxchomp (var V i); mret (V, r)
  | SetVal i p v => r ← chxsetval (var V i) p THIN v; mret (V, r)
  | RepVal i p o n => r ← chxrepval (var V i) p THIN o n; mret (V, r)
  | Alter i p j k => r ← chxalter (var V i) p (var V j) (var V k); mret (V, r)
  | Replace i p j k => r ← chxreplace (var V i) p (var V j) (var V k); mret (V, r)
  | Break i f t p => r ← chxbreak (var V i) (var V f) (var V t) (var V p); mret (V, r)
  | Len i => r ← chxlen (var V i); mret (V, r)
  | Value i p => r ← chxvalue (var V i) p; mret (V, r)
  | Index i p j => r ← chxindex (var V i) p (var V j); mret (V, r)
  | Revdex i p j => r ← chxrevdex (var V i) p (var V j); mret (V, r)
  | Subeq i p j => r ← chxsubeq (var V i) p (var V j); mret (V, r)
  | Eq i j => r ← chxeq (var V i) (var V j); mret (V, r)
  | Abr i j => r ← chxabr (var V i) (var V j); mret (V, r)
  | Compare i j n => r ← chxcompare (var V i) (var V j) n; mret (V, r)
  end.

Fixpoint crun (V : list loc) (os : list op) : M (list loc * list Z) :=
  match os with
  | [] => mret (V, [])
  | o :: os' =>
      '(V', r) ← cstep V o;
      '(V'', l) ← crun V' os';
      mret (V'', r :: l)
  end.

(** ** The simulation *)

(** The variables hold different live chix with these strings. *)
Record sim (A : strings) (V : list loc) (m : gmap loc (list Z)) : Prop := {
  sim_len : length A = length V;
  sim_get : forall i s, get A i = Some s -> exists l, V !! i = Some l /\ m !! l = Some s;
  sim_inj : forall i j s t l, get A i = Some s -> get A j = Some t ->
    V !! i = Some l -> V !! j = Some l -> i = j;
  sim_fits : forall i s, get A i = Some s -> len s < BIG }.

Lemma get_put A i j s t :
  get A i = Some t -> get (put A i s) j = if decide (i = j) then Some s else get A j.
Proof.
  intros Hi. unfold get, put in *. case_decide as E.
  - subst j. rewrite list_lookup_insert_eq; [done |].
    destruct (A !! i) eqn:E; [by eapply lookup_lt_Some | done].
  - by rewrite list_lookup_insert_ne.
Qed.

Lemma sim_var A V m i s :
  sim A V m -> get A i = Some s ->
  exists l, var V i = Some l /\ m !! l = Some s /\ len s < BIG /\ V !! i = Some l.
Proof.
  intros H Hi. destruct (sim_get _ _ _ H i s Hi) as (l & Hl & Hs).
  exists l. split_and!; [done | done | by eapply sim_fits | done].
Qed.

Lemma sim_ne A V m i j s t l k :
  sim A V m -> get A i = Some s -> get A j = Some t -> V !! i = Some l -> V !! j = Some k ->
  i <> j -> l <> k.
Proof. intros H Hi Hj Hl Hk Hne ->. apply Hne. by eapply sim_inj. Qed.

Lemma sim_put A V m i l s t :
  sim A V m -> get A i = Some t -> V !! i = Some l -> len s < BIG ->
  sim (put A i s) V (<[l := s]> m).
Proof.
  intros H Hi Hl Hfit. split; [unfold put; rewrite length_insert; apply H | | |].
  - intros j u. rewrite (get_put _ _ _ _ _ Hi). case_decide as E.
    + subst j. intros [= <-]. exists l. by rewrite lookup_insert_eq.
    + intros Hj. destruct (sim_get _ _ _ H j u Hj) as (k & Hk & Hu). exists k. split; [done |].
      rewrite lookup_insert_ne; [done |]. by apply (sim_ne _ _ _ _ _ _ _ _ _ H Hi Hj Hl Hk).
  - intros j k u v n. rewrite !(get_put _ _ _ _ _ Hi). intros Hj Hk.
    apply (sim_inj _ _ _ H j k (if decide (i = j) then t else u) (if decide (i = k) then t else v));
      repeat case_decide; congruence.
  - intros j u. rewrite (get_put _ _ _ _ _ Hi). case_decide; [by intros [= <-] | apply H].
Qed.

Lemma sim_del A V m i l s :
  sim A V m -> get A i = Some s -> V !! i = Some l ->
  sim (<[i := None]> A) V (delete l m).
Proof.
  intros H Hi Hl.
  assert (Hg : forall j u, get (<[i := None]> A) j = Some u -> i <> j /\ get A j = Some u).
  { intros j u. unfold get. destruct (decide (i = j)) as [<- | E]; [| by rewrite list_lookup_insert_ne].
    destruct (decide (i < length A)%nat); [by rewrite list_lookup_insert_eq |].
    rewrite list_insert_ge by lia. unfold get in Hi. destruct (A !! i) eqn:E; [apply lookup_lt_Some in E; lia | done]. }
  split; [rewrite length_insert; apply H | | |].
  - intros j u Hj. destruct (Hg j u Hj) as [Hne Hj']. destruct (sim_get _ _ _ H j u Hj') as (k & Hk & Hu).
    exists k. split; [done |]. rewrite lookup_delete_ne; [done |].
    by apply (sim_ne _ _ _ _ _ _ _ _ _ H Hi Hj' Hl Hk).
  - intros j k u v n Hj Hk. destruct (Hg _ _ Hj), (Hg _ _ Hk). by apply (sim_inj _ _ _ H j k u v).
  - intros j u Hj. destruct (Hg _ _ Hj). by eapply sim_fits.
Qed.

Lemma sim_new A V m l s :
  sim A V m -> m !! l = None -> len s < BIG ->
  sim (A ++ [Some s]) (V ++ [l]) (<[l := s]> m).
Proof.
  intros H Hl Hfit. pose proof (sim_len _ _ _ H) as Hlen.
  assert (Hg : forall j u, get (A ++ [Some s]) j = Some u ->
    (j < length A)%nat /\ get A j = Some u \/ j = length A /\ u = s).
  { intros j u. unfold get. rewrite lookup_app. destruct (A !! j) eqn:E.
    - left. split; [by eapply lookup_lt_Some | done].
    - apply lookup_ge_None in E. destruct (decide (j = length A)) as [-> | Hne].
      + rewrite Nat.sub_diag. intros [= <-]. by right.
      + destruct (j - length A)%nat as [| n] eqn:En; [lia |]. by destruct n. }
  split; [rewrite !length_app; simpl; lia | | |].
  - intros j u Hj. destruct (Hg j u Hj) as [[Hlt Hj'] | [-> ->]].
    + destruct (sim_get _ _ _ H j u Hj') as (k & Hk & Hu). exists k.
      rewrite lookup_app_l by lia. split; [done |]. rewrite lookup_insert_ne; congruence.
    + exists l. rewrite Hlen, lookup_app_r, Nat.sub_diag, lookup_insert_eq by lia. done.
  - assert (Hold : forall j u, get A j = Some u -> (j < length A)%nat -> (V ++ [l]) !! j <> Some l).
    { intros j u Hj Hlt E. rewrite lookup_app_l in E by lia.
      destruct (sim_get _ _ _ H j u Hj) as (k & Hk & Hu). congruence. }
    assert (Hlast : (V ++ [l]) !! length A = Some l) by (by rewrite Hlen, lookup_app_r, Nat.sub_diag by lia).
    intros j k u v n Hj Hk En Ek. destruct (Hg _ _ Hj) as [[Hlj Hj'] | [-> ->]], (Hg _ _ Hk) as [[Hlk Hk'] | [-> ->]].
    + rewrite lookup_app_l in En, Ek by lia. by apply (sim_inj _ _ _ H j k u v n).
    + exfalso. eapply (Hold j u); [done | done | congruence].
    + exfalso. eapply (Hold k v); [done | done | congruence].
    + done.
  - intros j u Hj. destruct (Hg j u Hj) as [[_ Hj'] | [_ ->]]; [by eapply sim_fits | done].
Qed.

(** Take one variable of the client: its address and its string. *)
Ltac getvar HS :=
  match goal with
  | H : (mbind _ (get ?A ?i)) = Some _ |- _ =>
      let s := fresh "s" in let E := fresh "E" in
      destruct (get A i) as [s |] eqn:E; [| done]; cbn [mbind option_bind] in H;
      let l := fresh "l" in let Hv := fresh "Hv" in let Hm := fresh "Hm" in
      let Hb := fresh "Hb" in let Hl := fresh "Hl" in
      destruct (sim_var _ _ _ _ _ HS E) as (l & Hv & Hm & Hb & Hl); try rewrite !Hv
  end.

Ltac splitif H :=
  match type of H with
  | (if ?b then _ else _) = Some _ => let E := fresh "Ec" in destruct b eqn:E; try done
  end.

Section step.
Context (e : env) (A : strings) (V : list loc) (σ : st) (m : gmap loc (list Z)).
Context (W : wf σ m) (HS : sim A V m).

Definition after (A' : strings) (r : Z) (Vr : list loc * Z) (σ' : st) : Prop :=
  Vr.2 = r /\ stat σ' = stat σ /\ exists m', wf σ' m' /\ sim A' Vr.1 m'.

(** The end of a call that stores into one variable ... *)
Lemma after_store i l s t r A' r' σ' :
  store A i s r = Some (A', r') -> evolves σ (<[l := s]> m) σ' ->
  get A i = Some t -> V !! i = Some l -> after A' r' (V, r) σ'.
Proof using W HS.
  unfold store, fits. destruct (len s <? BIG) eqn:Ef; [| done]. intros [= <- <-] [W' S'] Hi Hl.
  split_and!; [done | done |]. eexists. split; [exact W' |]. eapply sim_put; try done. lia.
Qed.

(** ... and of one that stores nothing. *)
Lemma after_same r σ' : evolves σ m σ' -> after A r (V, r) σ'.
Proof using W HS. intros [W' S']. split_and!; [done | done |]. exists m. by split. Qed.

Ltac begin H := intros H; cbn [astep cstep] in *; repeat getvar HS.
Ltac fin := wsteps; first [by eapply after_store | by apply after_same].

Lemma step_alloc rs o A' r :
  match o with New _ | NewSub _ _ _ | Free _ => True | _ => False end ->
  astep rs A o = Some (A', r) -> wp (cstep V o) e σ (after A' r).
Proof using W HS.
  intros Ho. destruct o as [maxl | i p n | i | | | | | | | | | | | | | | | | | | | | | | |]; try done; begin H.
  - splitif H. injection H as <- <-. wsteps. eapply wp_chxalloc; [exact W | unfold BIG in *; lia |].
    intros l c σ' Hl [W' S'] _ _ _ _. wsteps. split_and!; [done | done |]. eexists. split; [exact W' |]. by eapply sim_new.
  - injection H as <- <-. wsteps. eapply wp_chxalsub; [exact W | exact Hm | unfold BIG in *; lia |].
    intros k σ' Hk [W' S']. wsteps. split_and!; [done | done |]. eexists. split; [exact W' |]. eapply sim_new; try done.
    pose proof (csub_len s p n). lia.
  - injection H as <- <-. wsteps. eapply wp_chxfree; [exact W | exact Hm |].
    intros σ' [W' S'] _. wsteps. split_and!; [done | done |]. eexists. split; [exact W' |]. by eapply sim_del.
Qed.

Lemma step_write rs o A' r :
  match o with
  | Clear _ | SetStr _ _ | Cat _ _ | CatSub _ _ _ _ | CatVal _ _ | Cpy _ _ | Conc _ _ _ => True
  | _ => False end ->
  astep rs A o = Some (A', r) -> wp (cstep V o) e σ (after A' r).
Proof using W HS.
  intros Ho. destruct o; try done; begin H; unfold BIG in *; wsteps.
  - eapply wp_chxclear; [exact W | exact Hm |]. intros. fin.
  - splitif H. rename s into str. assert (Hs : Forall is_char str).
    { apply Forall_forall. intros v Hv'. rewrite forallb_forall in Ec.
      apply (proj1 (bool_decide_eq_true (is_char v))), Ec. by apply list_elem_of_In. }
    unfold store, fits, BIG in H. destruct (len str <? 2 ^ 28) eqn:Ef; [| done]. injection H as <- <-.
    eapply wp_chxofascii; [exact W | exact Hm | done | lia |]. intros σ' X. wsteps.
    eapply after_store; [| exact X | done | done]. unfold store, fits, BIG. by rewrite Ef.
  - splitif H. apply bool_decide_eq_false in Ec.
    eapply wp_chxcat; [exact W | by eapply (sim_ne _ _ _ i j) | exact Hm | exact Hm0 | lia |]. intros. fin.
  - splitif H. apply bool_decide_eq_false in Ec.
    eapply wp_chxcatsub; [exact W | by eapply (sim_ne _ _ _ i j) | exact Hm | exact Hm0 | lia |]. intros. fin.
  - splitif H. apply bool_decide_eq_true in Ec.
    eapply wp_chxcatval; [exact W | exact Hm | lia | done |]. intros. fin.
  - eapply wp_chxcpy; [exact W | exact Hm | exact Hm0 | lia |]. intros. fin.
  - eapply wp_chxconc; [exact W | exact Hm | exact Hm0 | exact Hm1 | lia |]. intros. fin.
Qed.

Lemma step_edit rs o A' r :
  match o with
  | Trunc _ _ | Trim _ | Chomp _ | SetVal _ _ _ | RepVal _ _ _ _ | Alter _ _ _ _ | Replace _ _ _ _ => True
  | _ => False end ->
  astep rs A o = Some (A', r) -> wp (cstep V o) e σ (after A' r).
Proof using W HS.
  intros Ho. destruct o; try done; begin H; unfold BIG in *; wsteps.
  - splitif H. eapply wp_chxtrunc; [exact W | exact Hm | lia |]. intros. fin.
  - unfold chxtrim, guard. wsteps. wguard. eapply wp_trim_with; [exact W | exact Hm |]. intros. fin.
  - unfold chxchomp, guard. wsteps. wguard. eapply wp_trim_with; [exact W | exact Hm |]. intros. fin.
  - splitif H. apply orb_false_iff in Ec as [Ep Ec]. apply negb_false_iff, bool_decide_eq_true in Ec.
    eapply wp_chxsetval; [exact W | exact Hm | lia | done |]. intros. fin.
  - splitif H. apply orb_false_iff in Ec as [Ep Ec]. apply negb_false_iff, bool_decide_eq_true in Ec.
    eapply wp_chxrepval; [exact W | exact Hm | lia | done |]. intros. fin.
  - splitif H. eapply wp_chxalter; [exact W | exact Hm | exact Hm0 | exact Hm1 | lia | lia |].
    intros σ'. destruct (alter_first s p s0 s1) as [s' |]; intros X; [fin |].
    injection H as <- <-. fin.
  - splitif H. eapply wp_chxreplace; [exact W | exact Hm | exact Hm0 | exact Hm1 | lia | lia | |].
    + intros s' Es. rewrite Es in H. unfold store, fits, BIG in H. destruct (len s' <? 2 ^ 28) eqn:Ef; [lia | done].
    + intros σ'. destruct (replace_all s p s0 s1) as [s' |]; intros X; [fin |].
      injection H as <- <-. fin.
Qed.

Lemma step_observe rs o A' r :
  rules (stat σ) = rs ->
  match o with
  | Len _ | Value _ _ | Index _ _ _ | Revdex _ _ _ | Subeq _ _ _ | Eq _ _ | Abr _ _ | Compare _ _ _ => True
  | _ => False end ->
  astep rs A o = Some (A', r) -> wp (cstep V o) e σ (after A' r).
Proof using W HS.
  intros Hrs Ho. destruct o; try done; begin H; unfold BIG in *; wsteps.
  - injection H as <- <-. eapply wp_chxlen; [exact W | exact Hm |]. intros σ' c W' S' _ _ _. wsteps.
    apply after_same. by split.
  - splitif H. injection H as <- <-. eapply wp_chxvalue; [exact W | exact Hm | lia |]. intros σ' X _. fin.
  - splitif H. injection H as <- <-. eapply wp_chxindex; [exact W | exact Hm | exact Hm0 | lia |]. intros. fin.
  - injection H as <- <-. eapply wp_chxrevdex; [exact W | exact Hm | exact Hm0 |]. intros. fin.
  - splitif H. injection H as <- <-. eapply wp_chxsubeq; [exact W | exact Hm | exact Hm0 | lia |]. intros. fin.
  - injection H as <- <-. eapply wp_chxeq; [exact W | exact Hm | exact Hm0 |]. wsteps. apply after_same. by split.
  - injection H as <- <-. eapply wp_chxabr; [exact W | exact Hm | exact Hm0 |]. intros. fin.
  - injection H as <- <-. eapply wp_chxcompare; [exact W | exact Hm | exact Hm0 |].
    rewrite Hrs. wsteps. apply after_same. by split.
Qed.

Lemma break_fits s u r f t : break_result s u = (r, f, t) -> len f <= len s /\ len t <= len s.
Proof using Type.
  unfold break_result. destruct (cindex s 0 u <? 0); intros [= <- <- <-].
  - change (len (@nil Z)) with 0. len_pos. lia.
  - rewrite len_take, len_drop. len_pos. lia.
Qed.

Lemma step_break rs i f t p A' r :
  astep rs A (Break i f t p) = Some (A', r) -> wp (cstep V (Break i f t p)) e σ (after A' r).
Proof using W HS.
  begin H. unfold BIG in *. splitif H. apply bool_decide_eq_false in Ec.
  destruct (break_result s s2) as [[r0 fore] aft] eqn:Eb. injection H as <- <-. wsteps.
  pose proof (break_fits _ _ _ _ _ Eb) as [Hf Ht].
  assert (Hw := wp_chxbreak e σ m l l0 l1 l2 s s0 s1 s2 (fun a σ' => wp (mret (V, a)) e σ' (after (put (put A t aft) f fore) r0))).
  assert (i <> f /\ i <> t /\ f <> t /\ p <> f /\ p <> t) as (N1 & N2 & N3 & N4 & N5) by (split_and!; tauto).
  pose proof (sim_ne _ _ _ _ _ _ _ _ _ HS E E0 Hl Hl0 N1). pose proof (sim_ne _ _ _ _ _ _ _ _ _ HS E E1 Hl Hl1 N2).
  pose proof (sim_ne _ _ _ _ _ _ _ _ _ HS E0 E1 Hl0 Hl1 N3). pose proof (sim_ne _ _ _ _ _ _ _ _ _ HS E2 E0 Hl2 Hl0 N4).
  pose proof (sim_ne _ _ _ _ _ _ _ _ _ HS E2 E1 Hl2 Hl1 N5).
  rewrite Eb in Hw. apply Hw; clear Hw; try done; [lia |].
  intros σ' [W' S']. wsteps. split_and!; [done | done |]. eexists. split; [exact W' |].
  unfold BIG.
  eapply sim_put; [eapply sim_put; [exact HS | done | done | unfold BIG; lia] | | done | unfold BIG; lia].
  rewrite (get_put _ _ _ _ _ E1). by rewrite decide_False by congruence.
Qed.

Lemma step_ok rs o A' r :
  rules (stat σ) = rs -> astep rs A o = Some (A', r) -> wp (cstep V o) e σ (after A' r).
Proof using W HS.
  intros Hrs H. destruct o;
    first [by eapply step_break | by eapply step_alloc | by eapply step_write
          | by eapply step_edit | by eapply step_observe].
Qed.
End step.

(** The simulation of whole programs. *)
Lemma run_ok e rs os : forall A V σ m A' l,
  wf σ m -> sim A V m -> rules (stat σ) = rs -> arun rs A os = Some (A', l) ->
  wp (crun V os) e σ (fun '(V', l') σ' =>
    l' = l /\ stat σ' = stat σ /\ exists m', wf σ' m' /\ sim A' V' m').
Proof.
  induction os as [| o os IH]; intros A V σ m A' l W HS Hrs H; cbn [arun crun] in *.
  { injection H as <- <-. wsteps. eauto. }
  destruct (astep rs A o) as [[A1 r] |] eqn:E1; [| done]. cbn [mbind option_bind] in H.
  destruct (arun rs A1 os) as [[A2 l2] |] eqn:E2; [| done]. injection H as <- <-.
  eapply wp_chain; [by eapply step_ok |]. intros [V1 r1] σ1 (Hr & S1 & m1 & W1 & HS1). cbn in Hr, HS1. subst r1.
  wsteps. eapply wp_mono; [eapply (IH A1 V1 σ1 m1); try done; by rewrite S1 |].
  intros [V2 l'] σ2 (-> & S2 & m2 & W2 & HS2). wsteps. split_and!; [done | congruence | by exists m2].
Qed.
