(* ===== verification/ChixTheorems.v ===== *)
(** The theorems about the chix library: what its calls guarantee, and where
    they do not. *)
From S2P Require Import Prelude Memory Wp Chix ChixInv ChixCore ChixEdit ChixSearch ChixParse ChixClient.

(** ** Example stores *)

Definition no_statics : statics := mkStatics None (replicate 10 None) [] None None None None.

(** A process before its first library call. *)
Definition start : st := mkSt ∅ ∅ 1 0 true 0 [] no_statics.
Definition unlimited : env := mkEnv None false.

Lemma wf_start : wf start ∅.
Proof. split; try done; intros l; rewrite !lookup_empty; split; by intros []. Qed.

(** A store with one more chix. *)
Definition add_chix (σ : st) (s : list Z) : st :=
  let l := fresh_loc σ in
  let b := (l + 1)%positive in
  mkSt (<[l := mkChix CHIX_MAGIC (bytes "example ") 63 (Some b) (len s) 0 0 THIN]> (chixs σ))
       (<[b := s ++ 0 :: zeros (65 - len s)]> (blocks σ)) (l + 2)%positive
       (memused σ) (first_call σ) (reserved σ) (elog σ) (stat σ).

Lemma wf_add_chix σ m s :
  wf σ m -> Forall is_char s -> len s < 63 -> wf (add_chix σ s) (<[fresh_loc σ := s]> m).
Proof.
  intros W Hs Hl. len_pos. eapply (wf_put σ); [exact W | done | | apply W | |].
  - split; cbn; intros l Hfr.
    + rewrite lookup_insert_ne by lia. apply W. lia.
    + rewrite lookup_insert_ne by lia. apply W. lia.
  - intros l c Hne Hc.
    assert (Hold : forall b, cp c = Some b -> b <> (fresh_loc σ + 1)%positive).
    { intros b Hb. eapply wf_old_block; [exact W | exact Hc | exact Hb | lia]. }
    cbn. split; [intros E; by apply (Hold _ E) |].
    intros b Hb. rewrite lookup_insert_ne; [done |]. intros <-. by apply (Hold _ Hb).
  - split; cbn; try done; try lia.
    exists (fresh_loc σ + 1)%positive, (zeros (65 - len s)). rewrite lookup_insert_eq.
    split_and!; try done; [apply zeros_bytes | rewrite len_zeros; lia].
Qed.

(** Chix 1, 3 and 5 with three strings. *)
Definition three (s t u : list Z) : st := add_chix (add_chix (add_chix start s) t) u.
Definition three_map (s t u : list Z) : gmap loc (list Z) :=
  <[5%positive := u]> (<[3%positive := t]> (<[1%positive := s]> ∅)).

Lemma wf_three s t u :
  forallb (fun v => bool_decide (is_char v)) (s ++ t ++ u) = true ->
  (len s <? 63) && (len t <? 63) && (len u <? 63) = true -> wf (three s t u) (three_map s t u).
Proof.
  intros H Hl. rewrite !forallb_app, !andb_true_iff in H. destruct H as (H1 & H2 & H3).
  assert (Hc : forall x, forallb (fun v => bool_decide (is_char v)) x = true -> Forall is_char x).
  { intros x Hx. apply Forall_forall. intros v Hv. rewrite forallb_forall in Hx.
    apply (proj1 (bool_decide_eq_true (is_char v))), Hx. by apply list_elem_of_In. }
  apply (wf_add_chix (add_chix (add_chix start s) t)); [| by apply Hc | lia].
  apply (wf_add_chix (add_chix start s)); [| by apply Hc | lia].
  apply (wf_add_chix start); [apply wf_start | by apply Hc | lia].
Qed.

(** ** Client programs *)

(** C1: a program of any length over the calls of the library, on the chix it
    has allocated and not freed, has defined behaviour and computes, call by
    call, what the same program computes on plain strings, with a well formed
    store at the end; it can only be cut short by memory exhaustion. *)
Theorem client_refines (e : env) (os : list op) (A : strings) (rs : list Z) :
  arun [] [] os = Some (A, rs) ->
  match crun [] os e start with
  | Ret (V, rs') σ => rs' = rs /\ exists m, wf σ m /\ sim A V m
  | Exit _ => limit e <> None
  | Undef | NoFuel => False
  end.
Proof.
  intros H. assert (S0 : sim [] [] ∅) by (by split).
  pose proof (run_ok e [] os [] [] start ∅ A rs wf_start S0 eq_refl H) as R. unfold wp in R.
  destruct (crun [] os e start) as [[V l] σ | | |]; [| done..].
  destruct R as (-> & _ & m & W & HS). split; [done | by exists m].
Qed.

Definition sample : list op :=
  [New 10; New 10; New 10; SetStr 0 (bytes "one, two, two"); SetStr 1 (bytes "two"); SetStr 2 (bytes "three");
   Index 0 0 1; Replace 0 0 1 2; CatVal 0 33; Len 0; Free 1; Compare 0 2 ALLCHARS].

Lemma client_refines_witness :
  let A := [Some (bytes "one, three, three!"); None; Some (bytes "three")] in
  let rs := [1; 1; 1; 1; 1; 1; 5; 1; 1; 18; 1; -1] in
  match crun [] sample (mkEnv (Some 20000) false) start with
  | Ret (V, rs') σ => rs' = rs /\ exists m, wf σ m /\ sim A V m
  | Exit _ => limit (mkEnv (Some 20000) false) <> None
  | Undef | NoFuel => False
  end.
Proof. apply client_refines. vm_compute. reflexivity. Defined.

(** ** Single calls *)

(** C31: [chxreplace] replaces every occurrence, from the given position on,
    scanning from left to right, whatever of its arguments are the same chix;
    it returns 0 and changes nothing when there is none. *)
Theorem chxreplace_all e σ m a b c sa sb sc pos :
  wf σ m -> m !! a = Some sa -> m !! b = Some sb -> m !! c = Some sc -> 0 <= pos ->
  len sa + len sb + 5 < 2 ^ 31 ->
  (forall r, replaces sb sc (drop (Z.to_nat pos) sa) r -> len sa + len r + 5 < 2 ^ 31) ->
  wp (chxreplace (Some a) pos (Some b) (Some c)) e σ (fun r σ' =>
    (r = 0 /\ evolves σ m σ' /\ (sb = [] \/ forall j, pos <= j < len sa -> ~ sb `prefix_of` drop (Z.to_nat j) sa)) \/
    (r = 1 /\ exists t, replaces sb sc (drop (Z.to_nat pos) sa) t /\
       evolves σ (<[a := take (Z.to_nat pos) sa ++ t]> m) σ')).
Proof.
  intros W Ha Hb Hc Hpos Hbig Hres.
  eapply wp_chxreplace; [exact W | exact Ha | exact Hb | exact Hc | done | done | |].
  - intros s. unfold replace_all. destruct (cindex sa pos sb <? 0) eqn:E; [done |]. intros [= <-].
    destruct (decide (sb = [])) as [-> | Hne]; [by rewrite cindex_empty in E |].
    specialize (Hres _ (proj2 (repl_replaces sb sc _ _ Hne) eq_refl)). rewrite len_app, len_take. lia.
  - intros σ'. unfold replace_all. destruct (cindex sa pos sb <? 0) eqn:E.
    + intros X. left. split_and!; [done | exact X |].
      destruct (decide (sb = [])) as [-> | Hne]; [by left | right].
      intros j Hj. rewrite <- prefixb_spec. unfold cindex in E. rewrite bool_decide_eq_false_2 in E by done.
      destruct (findsub_ge sb (drop (Z.to_nat pos) sa) pos) as [En | ?]; [| lia].
      pose proof (findsub_none _ _ _ Hpos En (j - pos)) as Hn. rewrite len_drop, drop_drop in Hn.
      replace (Z.to_nat pos + Z.to_nat (j - pos))%nat with (Z.to_nat j) in Hn by lia. rewrite Hn by lia. done.
    + intros X. right. split; [done |]. eexists. split; [| exact X].
      apply repl_replaces; [| done]. intros ->. by rewrite cindex_empty in E.
Qed.

(** In a concrete store: "aabaab" with "aab" for "b". *)
Lemma chxreplace_all_witness :
  wp (chxreplace (Some 1%positive) 0 (Some 3%positive) (Some 5%positive)) unlimited
    (three (bytes "aabaab") (bytes "b") (bytes "aab")) (fun r σ' =>
    (r = 0 /\ evolves (three (bytes "aabaab") (bytes "b") (bytes "aab")) (three_map (bytes "aabaab") (bytes "b") (bytes "aab")) σ' /\
      (bytes "b" = [] \/ forall j, 0 <= j < len (bytes "aabaab") -> ~ bytes "b" `prefix_of` drop (Z.to_nat j) (bytes "aabaab"))) \/
    (r = 1 /\ exists t, replaces (bytes "b") (bytes "aab") (drop (Z.to_nat 0) (bytes "aabaab")) t /\
       evolves (three (bytes "aabaab") (bytes "b") (bytes "aab"))
         (<[1%positive := take (Z.to_nat 0) (bytes "aabaab") ++ t]> (three_map (bytes "aabaab") (bytes "b") (bytes "aab"))) σ')).
Proof.
  apply (chxreplace_all unlimited _ _ 1 3 5 (bytes "aabaab") (bytes "b") (bytes "aab") 0);
    [by apply wf_three | done | done | done | lia | done |].
  intros r Hr. apply (repl_replaces (bytes "b") (bytes "aab") _ _ ltac:(done)) in Hr. subst r. done.
Defined.

(** C32: [chxtoken] finds the [n]th word of a line: it returns where the word
    starts, stores the word and the line from there on, and returns -1 when
    the line has fewer words; either target may be null. *)
Theorem chxtoken_word e σ m word rest line sl n B :
  wf σ m -> m !! line = Some sl -> opt_alive word m -> opt_alive rest m ->
  word <> Some line -> rest <> Some line -> (word = rest -> word = None) ->
  1 <= n -> 2 * len sl + 25 < 2 ^ 31 -> table_ready e O_token σ m B ->
  wp (chxtoken word rest n (Some line)) e σ (fun p σ' => exists m' w, m ⊆ m' /\
    wf σ' (opt_put rest (if p <? 0 then [] else drop (Z.to_nat p) sl) (opt_put word w m')) /\
    if p <? 0 then p = -1 /\ w = [] /\ len (words B sl) < n
    else words B sl !! Z.to_nat (n - 1) = Some (p, w) /\ word_at B 0 sl (p, w)).
Proof.
  intros W Hl Hw Hr Hwl Hrl Hwr Hn Hbig HT. eapply wp_chxtoken; try done. intros σ' m' Hsub _.
  pose proof (token_result_spec B n sl) as Hs. unfold token_result in *.
  destruct (words B sl !! Z.to_nat (n - 1)) as [[p w] |] eqn:E.
  - intros W'. exists m', w. assert (Hwa : word_at B 0 sl (p, w)) by (eapply (Forall_lookup_1 _ _ _ _ (words_spec B 0 sl) E)).
    pose proof Hwa as (Hp & _). replace (p <? 0) with false in * by lia. by split_and!.
  - intros W'. exists m', []. cbn [Z.ltb] in *. change (-1 <? 0) with true in *. split_and!; try done.
    apply lookup_ge_None_1 in E. unfold len. lia.
Qed.

Lemma chxtoken_word_witness :
  let s := three (bytes "add  user joe") [] [] in
  let m := three_map (bytes "add  user joe") [] [] in
  wp (chxtoken (Some 3%positive) (Some 5%positive) 2 (Some 1%positive)) unlimited s (fun p σ' =>
    exists m' w, m ⊆ m' /\
    wf σ' (opt_put (Some 5%positive) (if p <? 0 then [] else drop (Z.to_nat p) (bytes "add  user joe"))
             (opt_put (Some 3%positive) w m')) /\
    if p <? 0 then p = -1 /\ w = [] /\ len (words [32] (bytes "add  user joe")) < 2
    else words [32] (bytes "add  user joe") !! Z.to_nat (2 - 1) = Some (p, w) /\
         word_at [32] 0 (bytes "add  user joe") (p, w)).
Proof.
  apply chxtoken_word; [by apply wf_three | done | by eexists | by eexists | done | done | done | lia | done |].
  right. split_and!; [done | done |]. exists []. done.
Defined.

(** [chxsimplify] leaves no blank at either end and no two together, keeps
    every other character in order, and touches no other chix of the client. *)
Theorem chxsimplify_blanks e σ m x s :
  wf σ m -> m !! x = Some s -> ctab_ok σ m -> Some x ∉ ctab (stat σ) -> 2 * len s + 20 < 2 ^ 31 ->
  wp (chxsimplify (Some x)) e σ (fun r σ' => r = 1 /\ exists m' t, wf σ' m' /\ m' !! x = Some t /\
    head t <> Some 32 /\ last t <> Some 32 /\ no_double t /\
    filter (fun c => c <> 32) t = filter (fun c => c <> 32) s /\
    (forall k, k <> x -> is_Some (m !! k) -> Some k ∉ ctab (stat σ) -> m' !! k = m !! k)).
Proof.
  intros W Hx HT Hn Hbig. eapply wp_chxsimplify; try done. intros σ' m' W' Hx' _ _ Hk.
  split; [done |]. exists m', (simplify s). destruct (simplify_spec s) as (? & ? & ? & ?). by split_and!.
Qed.

Lemma chxsimplify_blanks_witness :
  let m := three_map (bytes "  a   b ") [] [] in
  wp (chxsimplify (Some 1%positive)) unlimited (three (bytes "  a   b ") [] []) (fun r σ' =>
    r = 1 /\ exists m' t, wf σ' m' /\ m' !! 1%positive = Some t /\
    head t <> Some 32 /\ last t <> Some 32 /\ no_double t /\
    filter (fun c => c <> 32) t = filter (fun c => c <> 32) (bytes "  a   b ") /\
    (forall k, k <> 1%positive -> is_Some (m !! k) ->
       Some k ∉ ctab (stat (three (bytes "  a   b ") [] [])) -> m' !! k = m !! k)).
Proof.
  apply chxsimplify_blanks; [by apply wf_three | done | by left | | done].
  apply (bool_decide_unpack _). vm_compute. exact I.
Defined.

(** Under the collation rules that [chx_init] installs, [chxcompare] over
    whole strings is a total order on them: it has the sign of a comparison,
    0 exactly for equal strings, the opposite sign for swapped arguments, and
    it is transitive. *)
Theorem chxcompare_order e σ m x y z sx sy sz :
  limit e = None -> wf σ m -> rules (stat σ) = init_rules ->
  m !! x = Some sx -> m !! y = Some sy -> m !! z = Some sz ->
  exists rxy ryx ryz rxz,
    chxcompare (Some x) (Some y) ALLCHARS e σ = Ret rxy σ /\ chxcompare (Some y) (Some x) ALLCHARS e σ = Ret ryx σ /\
    chxcompare (Some y) (Some z) ALLCHARS e σ = Ret ryz σ /\ chxcompare (Some x) (Some z) ALLCHARS e σ = Ret rxz σ /\
    ryx = - rxy /\ (rxy = 0 <-> sx = sy) /\ (rxy <= 0 -> ryz <= 0 -> rxz <= 0).
Proof.
  intros HL W Hr Hx Hy Hz. pose proof init_key_inj as Hinj.
  assert (Hch : forall l s, m !! l = Some s -> Forall is_char s).
  { intros l s Hs. destruct (wf_lookup _ _ _ _ W Hs) as (c & _ & Hok). apply Hok. }
  assert (Hc : forall a b sa sb, m !! a = Some sa -> m !! b = Some sb ->
    chxcompare (Some a) (Some b) ALLCHARS e σ = Ret (lexcmp (collate_key init_rules) sa sb) σ).
  { intros a b sa sb Ha Hb. rewrite <- compare_lex, <- Hr by eauto. by apply (chxcompare_ret e σ m). }
  do 4 eexists. split_and!; [by apply Hc | by apply Hc | by apply Hc | by apply Hc | | |].
  - apply lexcmp_antisym.
  - apply lexcmp_eq. intros a b Ha Hb.
    pose proof (proj1 (Forall_forall _ _) (Hch _ _ Hx) a Ha). pose proof (proj1 (Forall_forall _ _) (Hch _ _ Hy) b Hb).
    by apply Hinj.
  - apply lexcmp_trans.
Qed.

(** Three strings under those rules. *)
Definition three_init (s t u : list Z) : st := set_rules (three s t u) init_rules.
Lemma wf_three_init s t u m : wf (three s t u) m -> wf (three_init s t u) m.
Proof. apply wf_set_stat. Qed.

Lemma chxcompare_order_witness :
  let σ := three_init (bytes "item!") (bytes "item~") (bytes "items") in
  exists rxy ryx ryz rxz,
    chxcompare (Some 1%positive) (Some 3%positive) ALLCHARS unlimited σ = Ret rxy σ /\
    chxcompare (Some 3%positive) (Some 1%positive) ALLCHARS unlimited σ = Ret ryx σ /\
    chxcompare (Some 3%positive) (Some 5%positive) ALLCHARS unlimited σ = Ret ryz σ /\
    chxcompare (Some 1%positive) (Some 5%positive) ALLCHARS unlimited σ = Ret rxz σ /\
    ryx = - rxy /\ (rxy = 0 <-> bytes "item!" = bytes "item~") /\ (rxy <= 0 -> ryz <= 0 -> rxz <= 0).
Proof.
  apply (chxcompare_order unlimited _ (three_map (bytes "item!") (bytes "item~") (bytes "items")) 1 3 5
    (bytes "item!") (bytes "item~") (bytes "items")); try done. apply wf_three_init. by apply wf_three.
Defined.

(** [chxint4] reads an optional sign and the decimal number after any
    blanks, and leaves the position after it, when the number is below 2^31
    and the blanks of the library contain no sign or digit. *)
Theorem chxint4_decimal e σ m a B bl (neg plus : bool) d t :
  let s := bl ++ (if neg then [45] else if plus then [43] else []) ++ d ++ t in
  wf σ m -> m !! a = Some s -> table_ready e O_int4 σ m B ->
  Forall (fun c => is_blank B c = true) bl ->
  Forall (fun c => is_blank B c = false) ((if neg then [45] else if plus then [43] else []) ++ d) ->
  Forall (fun c => DIGIT c = true) d -> d <> [] -> dec_value d < 2 ^ 31 ->
  (forall c, head t = Some c -> DIGIT c = false) ->
  wp (chxint4 (Some a) (Some 0)) e σ (fun r σ' =>
    r = (if neg then - dec_value d else dec_value d, len s - len t) /\ exists m', wf σ' m' /\ m ⊆ m').
Proof.
  intros s W Ha HT Hbl Hnb Hd Hne Hv Ht.
  eapply wp_chxint4; [exact W | exact Ha | unfold s; zlen | exact HT |]. intros σ' m' W' Hsub _.
  split; [| by exists m']. apply int4_result_decimal; done.
Qed.

Lemma chxint4_decimal_witness :
  let s := bytes "  -42 x" in
  let m := three_map s [] [] in
  wp (chxint4 (Some 1%positive) (Some 0)) unlimited (three s [] []) (fun r σ' =>
    r = (-42, 5) /\ exists m', wf σ' m' /\ m ⊆ m').
Proof.
  apply (chxint4_decimal unlimited _ _ 1 [32] (bytes "  ") true false (bytes "42") (bytes " x"));
    [by apply wf_three | done | | by repeat constructor | by repeat constructor | by repeat constructor | done | done |].
  - right. split_and!; [done | done |]. exists []. done.
  - by intros c [= <-].
Defined.

(** [chxnextline] cuts a text into its lines: a line without its newline,
    2 where a newline ended it and 1 where the text did, and 0 only at the end
    of the text; the line, the newline and the text after the new position
    make up the text after the old one. *)
Theorem chxnextline_cuts e σ m a b sa sb pos :
  wf σ m -> m !! a = Some sa -> m !! b = Some sb -> a <> b ->
  0 <= pos <= len sb -> len sb + 10 < 2 ^ 31 ->
  wp (chxnextline (Some a) (Some b) pos) e σ (fun '(r, pos') σ' =>
    (r = 0 /\ pos' = pos /\ pos = len sb /\ evolves σ m σ') \/
    (exists line, evolves σ (<[a := line]> m) σ' /\ (10 ∉ line) /\ pos < pos' <= len sb /\
      (r = 2 /\ drop (Z.to_nat pos) sb = line ++ 10 :: drop (Z.to_nat pos') sb \/
       r = 1 /\ pos' = len sb /\ drop (Z.to_nat pos) sb = line))).
Proof.
  intros W Ha Hb Hne Hpos Hbig.
  assert (Hch : Forall is_char sb) by (destruct (wf_lookup _ _ _ _ W Hb) as (c & _ & Hok); apply Hok).
  eapply wp_chxnextline; [exact W | exact Ha | exact Hb | done | lia | lia |]. intros σ'.
  pose proof (nextline_cut sb pos Hch Hpos) as Hcut.
  destruct (nextline_result sb pos) as [[r line] pos']. destruct Hcut as [(-> & -> & ->) | (Hn & Hlt & Hcut)].
  - intros X. left. by split_and!.
  - intros X. right. exists line. destruct Hcut as [[-> E] | (-> & E1 & E2)]; (split_and!; [exact X | done | lia | lia |]); auto.
Qed.

Lemma chxnextline_cuts_witness :
  wp (chxnextline (Some 3%positive) (Some 1%positive) 0) unlimited (three [104; 105; 10; 120] [] []) (fun '(r, pos') σ' =>
    (r = 0 /\ pos' = 0 /\ 0 = len [104; 105; 10; 120] /\
       evolves (three [104; 105; 10; 120] [] []) (three_map [104; 105; 10; 120] [] []) σ') \/
    (exists line, evolves (three [104; 105; 10; 120] [] []) (<[3%positive := line]> (three_map [104; 105; 10; 120] [] [])) σ' /\
      (10 ∉ line) /\ 0 < pos' <= len [104; 105; 10; 120] /\
      (r = 2 /\ drop (Z.to_nat 0) [104; 105; 10; 120] = line ++ 10 :: drop (Z.to_nat pos') [104; 105; 10; 120] \/
       r = 1 /\ pos' = len [104; 105; 10; 120] /\ drop (Z.to_nat 0) [104; 105; 10; 120] = line))).
Proof. eapply chxnextline_cuts; [by apply wf_three | done | done | done | done | done]. Defined.

(** [ascofchx] with a limit of [n] bytes copies the characters from [i] on
    that fit, terminates them, and writes nothing else: it returns 0 if the
    whole string was copied and the number of characters otherwise. *)
Theorem ascofchx_bounded e σ m a s d buf i n :
  wf σ m -> m !! a = Some s -> blocks σ !! d = Some buf -> foreign σ d ->
  0 <= i <= len s -> 1 <= n <= len buf ->
  wp (ascofchx (Some (PBlk d 0)) (Some a) i n) e σ (fun r σ' => exists buf' k,
    σ' = set_blocks σ (<[d := buf']> (blocks σ)) /\ wf σ' m /\ len buf' = len buf /\
    cstr buf' = take (Z.to_nat k) (drop (Z.to_nat i) s) /\ 0 <= k <= n - 1 /\
    (r = 0 /\ k = len s - i \/ r = n - 1 /\ k = n - 1 /\ k < len s - i)).
Proof.
  intros W Hs Hd HF Hi Hn.
  assert (Hch : Forall is_char s) by (destruct (wf_lookup _ _ _ _ W Hs) as (c & _ & Hok); apply Hok).
  eapply wp_ascofchx; [exact W | exact Hs | exact Hd | done | done | unfold ALLCHARS; lia | unfold asc_count; lia |].
  intros buf'. cbv zeta. set (k := asc_count s i n). intros Ht Hl W'. exists buf', k.
  assert (Hk : k = Z.min (len s - i) (n - 1)) by (subst k; unfold asc_count; lia).
  split_and!; [done | done | done | | lia | lia |].
  - rewrite <- (take_drop (Z.to_nat (k + 1)) buf'), Ht, <- app_assoc. apply cstr_app.
    apply Forall_take, Forall_drop, Hch.
  - destruct (i + k =? len s) eqn:E; lia.
Qed.

(** A store in which block 9 is a 4 byte buffer of the caller's. *)
Definition with_buffer (σ : st) : st :=
  mkSt (chixs σ) (<[9%positive := zeros 4]> (blocks σ)) 10 (memused σ) (first_call σ) (reserved σ) (elog σ) (stat σ).

Lemma wf_with_buffer s t u m :
  wf (three s t u) m -> wf (with_buffer (three s t u)) m /\ foreign (with_buffer (three s t u)) 9.
Proof.
  intros W. assert (HF : forall l c, chixs (three s t u) !! l = Some c -> cp c <> Some 9%positive).
  { intros l c Hc E. destruct (wf_block _ _ _ _ _ W Hc E) as [b Hb].
    rewrite (wf_blocks_fresh _ _ W) in Hb by (vm_compute; discriminate). done. }
  split; [| exact HF]. destruct W as [D O I F1 F2 R]. split; try done.
  - intros l c s' H1 H2. apply chix_ok_frame; [by eapply HF | by eapply O].
  - intros l Hl. apply F1. cbn in *. lia.
  - intros l Hl. cbn in *. rewrite !lookup_insert_ne by lia. done.
Qed.

Lemma ascofchx_bounded_witness :
  let σ := with_buffer (three (bytes "hello") [] []) in
  let m := three_map (bytes "hello") [] [] in
  wp (ascofchx (Some (PBlk 9%positive 0)) (Some 1%positive) 1 4) unlimited σ (fun r σ' => exists buf' k,
    σ' = set_blocks σ (<[9%positive := buf']> (blocks σ)) /\ wf σ' m /\ len buf' = len (zeros 4) /\
    cstr buf' = take (Z.to_nat k) (drop (Z.to_nat 1) (bytes "hello")) /\ 0 <= k <= 4 - 1 /\
    (r = 0 /\ k = len (bytes "hello") - 1 \/ r = 4 - 1 /\ k = 4 - 1 /\ k < len (bytes "hello") - 1)).
Proof.
  assert (W := wf_with_buffer (bytes "hello") [] [] _ (wf_three (bytes "hello") [] [] eq_refl eq_refl)).
  apply ascofchx_bounded; [apply W | done | done | apply W | done | done].
Defined.

(** ** Errors *)

(** What is logged for a null argument. *)
Definition null_logged (σ : st) (f : string) : st := set_elog σ (elog σ ++ [L_NULL f]).

(** Every call of the library accepts a null chix: the calls that need it
    log the error and return their failure value, changing no string, whatever
    their other arguments; a null chix has length 0 and compares as empty. *)
Theorem null_arguments e σ x y p n :
  debug e = false ->
  chxlen None e σ = Ret 0 σ /\ EMPTYCHX None e σ = Ret true σ /\ chxtype None e σ = Ret 0 σ /\
  chxclear None e σ = Ret 1 (null_logged σ "chxclear") /\
  chxfree None e σ = Ret 1 (null_logged σ "chxfree") /\
  chxcat None x e σ = Ret 0 (null_logged σ "chxcat") /\ chxcat x None e σ = Ret 0 (null_logged σ "chxcat") /\
  chxcpy None x e σ = Ret 1 (null_logged σ "chxcpy") /\ chxcpy x None e σ = Ret 1 (null_logged σ "chxcpy") /\
  chxcatsub x None p n e σ = Ret 1 (null_logged σ "chxcat") /\
  chxcatval None p n e σ = Ret 0 (null_logged σ "chxcatval") /\
  chxconc x None y e σ = Ret 1 (null_logged σ "chxconc") /\
  chxvalue None p e σ = Ret (-1) (null_logged σ "chxvalue") /\
  chxindex x p None e σ = Ret (-1) (null_logged σ "chxindex") /\
  chxrevdex None p x e σ = Ret (-1) (null_logged σ "chxrevdex") /\
  chxeq x None e σ = Ret 0 (null_logged σ "chxeq") /\
  chxalter None p x y e σ = Ret 0 (null_logged σ "chxalter") /\
  chxreplace x p None y e σ = Ret 0 (null_logged σ "chxreplace") /\
  chxtoken None None p None e σ = Ret (-1) (null_logged σ "chxtoken") /\
  chxcompare None None ALLCHARS e σ = Ret 0 σ.
Proof.
  intros Hd. unfold chxfree, asks, mbind, M_bind, when. rewrite Hd.
  split_and!; try done; try (by destruct x); try (by destruct x, y).
Qed.

Lemma null_arguments_witness :
  chxcat (Some 1%positive) None unlimited start = Ret 0 (null_logged start "chxcat").
Proof.
  destruct (null_arguments unlimited start (Some 1%positive) None 0 0 eq_refl) as (_ & _ & _ & _ & _ & _ & H & _). exact H.
Defined.

(** After [chxfree] the chix is gone: any call that is given it again
    reads freed memory before it can tell, so the checks for a freed chix
    cannot be relied on. *)
Theorem freed_is_dangling e σ m l s :
  wf σ m -> m !! l = Some s ->
  wp (chxfree (Some l)) e σ (fun r σ' => r = 1 /\ wf σ' (delete l m) /\
    (forall e', chxlen (Some l) e' σ' = Undef /\ chxcheck (Some l) "x" e' σ' = Undef /\
       chxfree (Some l) e' σ' = Undef)).
Proof.
  intros W Hs. eapply wp_chxfree; [exact W | exact Hs |]. intros σ' [W' _] _. split_and!; [done | done |].
  assert (Hl : chixs σ' !! l = None).
  { destruct (chixs σ' !! l) eqn:E; [| done]. destruct (proj1 (wf_dom _ _ W' l)) as [t Ht]; [by eexists |].
    by rewrite lookup_delete_eq in Ht. }
  assert (Hld : forall e', ld (Some l) e' σ' = Undef) by (intros e'; unfold ld; by rewrite Hl).
  assert (Hg : forall e' f, guard f [Some l] e' σ' = Undef).
  { intros e' f. unfold guard, guard_as, mbind, M_bind. cbn. unfold mbind, M_bind. by rewrite Hld. }
  intros e'. split_and!.
  - unfold chxlen, mbind, M_bind. by rewrite Hld.
  - unfold chxcheck, mbind, M_bind. by rewrite Hg.
  - unfold chxfree, mbind, M_bind, asks. destruct (debug e'); cbn [when]; unfold mbind, M_bind, mret, M_ret;
      by rewrite ?Hld, ?Hg.
Qed.

Lemma freed_is_dangling_witness :
  wp (chxfree (Some 1%positive)) unlimited (three (bytes "x") [] []) (fun r σ' => r = 1 /\
    wf σ' (delete 1%positive (three_map (bytes "x") [] [])) /\
    (forall e', chxlen (Some 1%positive) e' σ' = Undef /\ chxcheck (Some 1%positive) "x" e' σ' = Undef /\
       chxfree (Some 1%positive) e' σ' = Undef)).
Proof. eapply freed_is_dangling; [by apply wf_three | done]. Defined.

(** When memory runs out [chxmem] logs the shortage twice and ends the
    process; the reserve it set aside on its first call is not given back
    first, so the second attempt is made with no more memory than the first. *)
Theorem chxmem_exhausted e σ k size nm L :
  limit e = Some L -> first_call σ = false -> reserved σ = 0 ->
  L < memused σ + u32 (i32 (size + 2)) ->
  exists σ', chxmem k size nm e σ = Exit σ' /\ memused σ' = memused σ /\
    elog σ' = elog σ ++ [L_LOMEM "chxmem" nm; L_NOMEM "chxmem"].
Proof.
  intros HL HF HR Hlow.
  assert (Hno : forall σ', memused σ' = memused σ -> sysmem k size e σ' = Ret None σ').
  { intros σ' E. unfold sysmem. rewrite HL, E. by replace (memused σ + u32 (i32 (size + 2)) <=? L) with false by lia. }
  unfold chxmem, mbind, M_bind, gets. rewrite HF. cbn [when]. unfold mret, M_ret.
  rewrite Hno by done. unfold sysfree_reserved, mbind, M_bind, gets. rewrite HR. cbn [Z.eqb].
  unfold mret, M_ret, modify, chxerror, logger, mbind, M_bind, modify, mret, M_ret. cbn beta iota zeta.
  rewrite Hno by done.
  eexists. split_and!; [done | done |]. cbn. by rewrite <- app_assoc.
Qed.

Lemma chxmem_exhausted_witness :
  let σ := set_mm start 4098 false 0 in
  exists σ', chxmem KBytes 100 (bytes "x") (mkEnv (Some 4100) false) σ = Exit σ' /\ memused σ' = memused σ /\
    elog σ' = elog σ ++ [L_LOMEM "chxmem" (bytes "x"); L_NOMEM "chxmem"].
Proof. by apply (chxmem_exhausted _ _ _ _ _ 4100). Defined.

(** ** Where the calls fail *)

(** [chxcat (a, a)] overwrites the terminator it is looking for and runs off
    the buffer; [chxcatsub] refuses this case. *)
Example chxcat_self : chxcat (Some 1%positive) (Some 1%positive) unlimited (three (bytes "ab") [] []) = Undef.
Proof. vm_compute. reflexivity. Qed.

(** Raw bytes without a zero: the length reported is one more than that of
    the string, whose last character is lost. *)
Example chxofraw_length :
  match (chxofraw (Some 1%positive) (Some (PLit (bytes "abc") 0)) 1 3;; chxlen (Some 1%positive))
          unlimited (three [] [] []) with
  | Ret n σ => n = 3 /\ exists c b, chixs σ !! 1%positive = Some c /\ cp c = Some b /\
      from_option cstr [] (blocks σ !! b) = bytes "ab"
  | _ => False
  end.
Proof. vm_compute. split; [done |]. by do 2 eexists. Qed.
