(* ===== verification/Rlist.v ===== *)
(** Lists of rectangles of items and responses (src/CV2/api: amakrlis.c,
    addtorl.c, andrlist.c, orrlist.c, rlall.c, rlofsele.c, rbound.c,
    oneresp.c).  A range of responses may end in -1, "the last response". *)
From S2P Require Import Prelude.

(** ** Data *)

(** [struct Rlist_t] (include/api.h), without its tag and debugging name; an
    [Rlist] is the list of the nodes a pointer leads to, [[]] for a null one.
    The first node of a whole Rlist is a header that holds no range. *)
Record rnode := mkR { i0 : Z; i1 : Z; r0 : Z; r1 : Z }.
Abbreviation Rlist := (list rnode) (only parsing).

Definition HIGHBOUND : Z := 20000.

#[export] Instance rnode_eq_dec : EqDecision rnode.
Proof. solve_decision. Defined.

(** Assignments to the [short] fields. *)
Definition set_i1 (p : rnode) (v : Z) : rnode := mkR (i0 p) (i16 v) (r0 p) (r1 p).
Definition set_r1 (p : rnode) (v : Z) : rnode := mkR (i0 p) (i1 p) (r0 p) (i16 v).
Definition rect (a b c d : Z) : rnode := mkR (i16 a) (i16 b) (i16 c) (i16 d).

(** ** Operations *)

Definition a_mak_rlist : rnode := mkR (-9999) (-9999) 0 (-1).

(** The list from [oldptr] on, and the index in it of the node returned;
    [None] for a null pointer, whose successor would be written to. *)
Fixpoint add_to_rlist (oldptr : Rlist) (item r0' r1' : Z) : option (Rlist * nat) :=
  match oldptr with
  | [] => None
  | p :: rest =>
      if (item =? i1 p + 1) && (r0' =? r0 p) && (r1' =? r1 p) then Some (set_i1 p item :: rest, 0%nat)
      else match rest with
           | [] => Some ([p; rect item item r0' r1'], 1%nat)
           | _ => match add_to_rlist rest item r0' r1' with
                  | Some (l, k) => Some (p :: l, S k)
                  | None => None
                  end
           end
  end.

Definition norm (r : Z) : Z := if r =? -1 then HIGHBOUND else r.
Definition denorm (r : Z) : Z := if r =? HIGHBOUND then -1 else r.

(** The rectangle two nodes have in common. *)
Definition and_node (pa pb : rnode) : option rnode :=
  let ilo := Z.max (i0 pa) (i0 pb) in
  let ihi := Z.min (i1 pa) (i1 pb) in
  if ihi <? ilo then None else
  let rlo := Z.max (norm (r0 pa)) (norm (r0 pb)) in
  let rhi := Z.min (norm (r1 pa)) (norm (r1 pb)) in
  if rhi <? rlo then None else
  Some (rect ilo ihi (denorm rlo) (denorm rhi)).

Definition and_rlist (rla rlb : Rlist) : Rlist :=
  match rla, rlb with
  | _ :: la, _ :: lb =>
      a_mak_rlist :: flat_map (fun pa => omap (fun pb => and_node pa pb) lb) la
  | _, _ => []
  end.

Definition INSIDE (item : Z) (px : Rlist) : option rnode :=
  match px with
  | p :: _ => if (i0 p <=? item) && (item <=? i1 p) then Some p else None
  | [] => None
  end.

(** [if (px != RLNULL && item > px->i1) px = px->next] *)
Definition advance (item : Z) (px : Rlist) : Rlist :=
  match px with
  | p :: rest => if i1 p <? item then rest else px
  | [] => []
  end.

(** The lowest and highest response of the item, as the two lists have it. *)
Definition lowest (item : Z) (pa pb : Rlist) : Z :=
  let lo x rlo := match INSIDE item x with Some p => Z.min rlo (norm (r0 p)) | None => rlo end in
  lo pb (lo pa HIGHBOUND).
Definition highest (item : Z) (pa pb : Rlist) : Z :=
  let hi x rhi := match INSIDE item x with Some p => Z.max rhi (norm (r1 p)) | None => rhi end in
  hi pb (hi pa 0).

(** [tail->i1 = ...], the tail being the last node. *)
Definition set_tail (l : Rlist) (p : rnode) : Rlist := removelast l ++ [p].

(** One item: what it adds to the result. *)
Definition or_item (item ilo : Z) (pa pb acc : Rlist) : Rlist :=
  let rlo := lowest item pa pb in
  let rhi := highest item pa pb in
  if rhi <? rlo then acc else
  let fresh := rect item item rlo rhi in
  if item =? ilo then acc ++ [fresh] else
  match last acc with
  | Some t =>
      if (i1 t + 1 =? item) && (r0 t =? rlo) && (r1 t =? rhi) then set_tail acc (set_i1 t item)
      else acc ++ [fresh]
  | None => acc ++ [fresh]
  end.

Fixpoint or_loop (fuel : nat) (item ilo : Z) (pa pb acc : Rlist) : option Rlist :=
  match fuel with
  | O => None
  | S fuel' =>
      match pa, pb with
      | [], [] => Some acc
      | _, _ =>
          let pa := advance item pa in
          let pb := advance item pb in
          or_loop fuel' (item + 1) ilo pa pb (or_item item ilo pa pb acc)
      end
  end.

(** The highest item of either list bounds the loop. *)
Definition max_item (l : Rlist) (d : Z) : Z := foldr (fun p m => Z.max (i1 p) m) d l.

Definition or_rlist (rla rlb : Rlist) : option Rlist :=
  match rla, rlb with
  | _ :: pa, _ :: pb =>
      let lo x ilo := match x with p :: _ => Z.min ilo (i0 p) | [] => ilo end in
      let ilo := lo pb (lo pa HIGHBOUND) in
      let fuel := (Z.to_nat (max_item pb (max_item pa ilo) - ilo + 1) + length pa + length pb + 1)%nat in
      match or_loop fuel ilo ilo pa pb [a_mak_rlist] with
      | Some (h :: l) => Some (h :: map (fun pr => if r1 pr =? HIGHBOUND then set_r1 pr (-1) else pr) l)
      | r => r
      end
  | _, _ => Some []
  end.

Definition rl_all (items : Z) : Rlist := [a_mak_rlist; rect 1 items 0 (-1)].

(** [select[0]] is not used; [None] when an item is outside the array. *)
Fixpoint rl_select_loop (fuel : nat) (select : list Z) (maxitems item prev : Z) (acc : Rlist) : option Rlist :=
  match fuel with
  | O => None
  | S fuel' =>
      if maxitems <? item then Some acc else
      match zget select item with
      | None => None
      | Some v =>
          if v <? 0 then rl_select_loop fuel' select maxitems (item + 1) 0 acc
          else if prev =? 0 then
            rl_select_loop fuel' select maxitems (item + 1) item (acc ++ [rect item item v (-1)])
          else match last acc with
               | Some t =>
                   if v =? r0 t then rl_select_loop fuel' select maxitems (item + 1) prev (set_tail acc (set_i1 t item))
                   else rl_select_loop fuel' select maxitems (item - 1 + 1) 0 acc
               | None => None
               end
      end
  end.

Definition rl_of_select (select : list Z) (maxitems : Z) : option Rlist :=
  rl_select_loop (S (2 * Z.to_nat maxitems)) select maxitems 1 0 [a_mak_rlist].

(** Responses 1 .. [n] of an item, the last one that is not deleted; 0 if all
    are.  Which are deleted is read through the API ([live]). *)
Fixpoint last_live (live : Z -> bool) (n : nat) : Z :=
  match n with
  | O => 0
  | S n' => if live (Z.of_nat n) then Z.of_nat n else last_live live n'
  end.

(** [first], [last], [final] and whether the range is possible. *)
Definition r_bound (rl : rnode) (live : Z -> bool) (maxresp : Z) : Z * Z * Z * bool :=
  let lastund := if maxresp <=? 0 then maxresp else last_live live (Z.to_nat maxresp) in
  let final := if r1 rl <? 0 then maxresp else r1 rl in
  let last := if r1 rl <? 0 then lastund else r1 rl in
  let last := if maxresp <? last then maxresp else last in
  let first := if r0 rl <? 0 then lastund else r0 rl in
  (first, last, final, first <=? final).

(** The first item and response of the list; [responses] are the numbers of
    responses of the items. *)
Fixpoint one_item (p : rnode) (live : Z -> Z -> bool) (responses : Z -> Z) (n : nat) (item : Z) : option (Z * Z) :=
  match n with
  | O => None
  | S n' =>
      if item <=? 0 then one_item p live responses n' (item + 1) else
      match r_bound p (live item) (responses item) with
      | (first, _, _, true) => Some (item, first)
      | _ => one_item p live responses n' (item + 1)
      end
  end.

Fixpoint one_response (rl : Rlist) (live : Z -> Z -> bool) (responses : Z -> Z) : Z * Z * Z :=
  match rl with
  | [] => (0, -1, -1)
  | p :: rest =>
      match one_item p live responses (Z.to_nat (i1 p - i0 p + 1)) (i0 p) with
      | Some (item, resp) => (1, item, resp)
      | None => one_response rest live responses
      end
  end.

(** ** What an Rlist stands for *)

(** The node's rectangle holds response [r] of item [i]; the last response is
    counted as [HIGHBOUND]. *)
Definition in_node (p : rnode) (i r : Z) : Prop :=
  i0 p <= i <= i1 p /\ norm (r0 p) <= r <= norm (r1 p).

Definition covers (l : Rlist) (i r : Z) : Prop := exists p, p ∈ l /\ in_node p i r.

Definition is_short (z : Z) : Prop := - 2 ^ 15 <= z < 2 ^ 15.
Definition short_node (p : rnode) : Prop :=
  is_short (i0 p) /\ is_short (i1 p) /\ is_short (r0 p) /\ is_short (r1 p).

Lemma norm_denorm r : r <> -1 -> norm (denorm r) = r.
Proof. unfold norm, denorm, HIGHBOUND. intros H. destruct (r =? 20000) eqn:E; [cbn; lia |]. by replace (r =? -1) with false by lia. Qed.

Lemma norm_not_last r : norm r <> -1.
Proof. unfold norm, HIGHBOUND. destruct (r =? -1) eqn:E; lia. Qed.

Lemma norm_short r : is_short r -> is_short (norm r).
Proof. unfold norm, HIGHBOUND, is_short. destruct (r =? -1); lia. Qed.

Lemma denorm_short r : is_short r -> is_short (denorm r).
Proof. unfold denorm, HIGHBOUND, is_short. destruct (r =? 20000); lia. Qed.

Lemma rect_short a b c d :
  is_short a -> is_short b -> is_short c -> is_short d -> rect a b c d = mkR a b c d.
Proof. intros. unfold rect. by rewrite !i16_small. Qed.

Lemma covers_nil i r : ~ covers [] i r.
Proof. intros (p & Hp & _). by apply not_elem_of_nil in Hp. Qed.

Lemma covers_cons p l i r : covers (p :: l) i r <-> in_node p i r \/ covers l i r.
Proof.
  unfold covers. split.
  - intros (q & Hq & H). apply elem_of_cons in Hq as [-> | Hq]; [by left | right; eauto].
  - intros [H | (q & Hq & H)]; [exists p; split; [left | done] | exists q; split; [by right | done]].
Qed.

Lemma covers_app l k i r : covers (l ++ k) i r <-> covers l i r \/ covers k i r.
Proof.
  induction l as [| p l IH]; cbn [app].
  - split; [by right | intros [H | H]; [by apply covers_nil in H | done]].
  - rewrite !covers_cons, IH. tauto.
Qed.

Lemma covers_one p i r : covers [p] i r <-> in_node p i r.
Proof. rewrite covers_cons. pose proof (covers_nil i r). tauto. Qed.

(** ** Intersection *)

Lemma and_node_spec pa pb i r :
  short_node pa -> short_node pb ->
  (exists p, and_node pa pb = Some p /\ in_node p i r) <-> in_node pa i r /\ in_node pb i r.
Proof.
  intros (A1 & A2 & A3 & A4) (B1 & B2 & B3 & B4). unfold and_node, in_node.
  pose proof (norm_not_last (r0 pa)). pose proof (norm_not_last (r1 pa)).
  pose proof (norm_not_last (r0 pb)). pose proof (norm_not_last (r1 pb)).
  apply norm_short in A3, A4, B3, B4.
  destruct (Z.min (i1 pa) (i1 pb) <? Z.max (i0 pa) (i0 pb)) eqn:E1.
  { split; [by intros (p & ? & _) | lia]. }
  destruct (Z.min (norm (r1 pa)) (norm (r1 pb)) <? Z.max (norm (r0 pa)) (norm (r0 pb))) eqn:E2.
  { split; [by intros (p & ? & _) | lia]. }
  rewrite rect_short by (first [apply denorm_short | idtac]; unfold is_short in *; lia).
  split.
  - intros (p & [= <-] & K1 & K2). cbn in K1, K2. rewrite !norm_denorm in K2 by lia. lia.
  - intros H'. eexists. split; [done |]. cbn. rewrite !norm_denorm by lia. lia.
Qed.

Lemma covers_and la lb i r :
  Forall short_node la -> Forall short_node lb ->
  covers (flat_map (fun pa => omap (fun pb => and_node pa pb) lb) la) i r <-> covers la i r /\ covers lb i r.
Proof.
  intros Ha Hb. induction Ha as [| pa la Hpa Ha IH]; cbn [flat_map].
  - pose proof (covers_nil i r). tauto.
  - rewrite covers_app, covers_cons, IH.
    assert (H : covers (omap (fun pb => and_node pa pb) lb) i r <-> in_node pa i r /\ covers lb i r).
    { unfold covers. split.
      - intros (p & Hp & Hi). apply list_elem_of_omap in Hp as (pb & Hpb & E).
        destruct (proj1 (and_node_spec pa pb i r Hpa (proj1 (Forall_forall _ _) Hb pb Hpb))) as [? ?]; [by exists p |].
        split; [done |]. by exists pb.
      - intros (Hi & pb & Hpb & Hib).
        destruct (proj2 (and_node_spec pa pb i r Hpa (proj1 (Forall_forall _ _) Hb pb Hpb))) as (p & E & Hp); [done |].
        exists p. split; [| done]. apply list_elem_of_omap. by exists pb. }
    rewrite H. tauto.
Qed.

(** ** Adding an item *)

Lemma add_to_rlist_spec l item a b l' k :
  Forall short_node l -> Forall (fun p => i0 p <= i1 p) l ->
  is_short item -> is_short a -> is_short b ->
  add_to_rlist l item a b = Some (l', k) ->
  (forall i r, covers l' i r <-> covers l i r \/ (i = item /\ norm a <= r <= norm b)) /\
  exists p, l' !! k = Some p /\ i1 p = item /\ r0 p = a /\ r1 p = b.
Proof.
  intros Hs Ho Hi Ha Hb. revert l' k. induction l as [| p l IH]; intros l' k; [done |].
  inversion Hs as [| ? ? Hp Hl]; inversion Ho as [| ? ? Op Ol]; subst. cbn [add_to_rlist].
  destruct ((item =? i1 p + 1) && (a =? r0 p) && (b =? r1 p)) eqn:E.
  - intros [= <- <-]. assert (item = i1 p + 1 /\ a = r0 p /\ b = r1 p) as (E1 & -> & ->) by lia. split.
    + intros i r. rewrite !covers_cons. unfold in_node, set_i1. cbn. rewrite i16_small by done.
      split; [| intros [[H | H] | H]; [left; lia | by right | left; lia]].
      intros [H | H]; [| tauto]. destruct (decide (i = item)); [right; lia | left; left; lia].
    + eexists. split; [done |]. cbn. by rewrite i16_small.
  - destruct l as [| q l].
    + intros [= <- <-]. rewrite rect_short by done. split; [| by eexists].
      intros i r. rewrite !covers_cons. unfold in_node. cbn. pose proof (covers_nil i r). intuition lia.
    + destruct (add_to_rlist (q :: l) item a b) as [[l1 k1] |] eqn:E1; [| done]. intros [= <- <-].
      destruct (IH Hl Ol l1 k1 eq_refl) as [H1 H2]. split; [| exact H2].
      intros i r. rewrite (covers_cons p l1), (covers_cons p (q :: l)), H1. tauto.
Qed.

Lemma add_to_rlist_total l item a b : l <> [] -> exists l' k, add_to_rlist l item a b = Some (l', k).
Proof.
  induction l as [| p l IH]; intros H; [done |]. cbn [add_to_rlist].
  destruct ((item =? i1 p + 1) && (a =? r0 p) && (b =? r1 p)); [eauto |].
  destruct l as [| q l]; [eauto |]. destruct IH as (l' & k & E); [done |]. rewrite E. eauto.
Qed.

(** ** Selections *)

Lemma set_tail_snoc l t p : set_tail (l ++ [t]) p = l ++ [p].
Proof. unfold set_tail. by rewrite removelast_last. Qed.

Section select.
Context (select : list Z) (maxitems : Z).
Context (Hmax : 0 <= maxitems < 2 ^ 15) (Hsel : maxitems < len select) (Hshort : Forall is_short select).

(** Response [r] of item [i] is selected. *)
Definition selected (i r : Z) : Prop := exists v, zget select i = Some v /\ 0 <= v <= r /\ r <= HIGHBOUND.

Definition sel_inv (item prev : Z) (l : Rlist) : Prop :=
  1 <= item <= maxitems + 1 /\
  (forall i r, covers l i r <-> 1 <= i < item /\ selected i r) /\
  (prev = 0 \/ exists l0 t, l = l0 ++ [t] /\ i0 t <= i1 t /\ i1 t = item - 1 /\ 0 <= r0 t /\ r1 t = -1 /\ is_short (r0 t)).

Lemma sel_get item : 1 <= item <= maxitems -> exists v, zget select item = Some v /\ is_short v.
Proof using Hsel Hshort.
  intros H. unfold zget. replace (item <? 0) with false by lia.
  destruct (lookup_lt_is_Some_2 select (Z.to_nat item)) as [v Hv]; [unfold len in *; lia |].
  exists v. split; [done | by eapply Forall_lookup_1].
Qed.

(** One more item, with value [v], put into the last block or a new one. *)
Lemma covers_extend l k item v :
  1 <= item -> zget select item = Some v -> 0 <= v ->
  (forall i r, covers l i r <-> 1 <= i < item /\ selected i r) ->
  (forall i r, covers k i r <-> covers l i r \/ (i = item /\ v <= r <= HIGHBOUND)) ->
  forall i r, covers k i r <-> 1 <= i < item + 1 /\ selected i r.
Proof using Type.
  intros H1 Hv H0 Hl Hk i r. rewrite Hk, Hl. unfold selected. split.
  - intros [[Hi Hs] | [-> Hr]]; [split; [lia | done] |]. split; [lia |]. exists v. split; [done | lia].
  - intros (Hi & w & Hw & Hr). destruct (decide (i = item)) as [-> | Hne].
    + right. assert (w = v) as -> by congruence. lia.
    + left. split; [lia |]. by exists w.
Qed.

Lemma rl_select_loop_spec fuel : forall item prev l,
  sel_inv item prev l ->
  (Z.to_nat (2 * (maxitems + 1 - item) + (if prev =? 0 then 0 else 1)%Z)%Z < fuel)%nat ->
  exists l', rl_select_loop fuel select maxitems item prev (a_mak_rlist :: l) = Some (a_mak_rlist :: l') /\
    forall i r, covers l' i r <-> 1 <= i <= maxitems /\ selected i r.
Proof using Hmax Hsel Hshort.
  induction fuel as [| fuel IH]; intros item prev l (Hi & Hc & Hp) Hf; [lia |]. cbn [rl_select_loop].
  destruct (maxitems <? item) eqn:E.
  { exists l. split; [done |]. intros i r. rewrite Hc. assert (item = maxitems + 1) as -> by lia.
    split; intros [? ?]; (split; [lia | done]). }
  destruct (sel_get item) as (v & Hv & Hvs); [lia |]. rewrite Hv.
  destruct (v <? 0) eqn:E0.
  { apply IH; [| change (0 =? 0) with true; cbn iota; destruct (prev =? 0); lia]. split_and!; [lia | lia | | by left].
    intros i r. rewrite Hc. unfold selected. split.
    - intros [Hb Hs]. split; [lia | done].
    - intros (Hb & w & Hw & Hr). split; [| by exists w]. assert (i <> item) by (intros ->; assert (w = v) by congruence; lia). lia. }
  assert (Hnew : prev = 0 -> exists l', rl_select_loop fuel select maxitems (item + 1) item
      ((a_mak_rlist :: l) ++ [rect item item v (-1)]) = Some (a_mak_rlist :: l') /\
      forall i r, covers l' i r <-> 1 <= i <= maxitems /\ selected i r).
  { intros ->. cbn [app]. rewrite rect_short by (unfold is_short in *; lia).
    apply IH; [| replace (item =? 0) with false by lia; change (0 =? 0) with true in Hf; cbn iota in *; lia].
    split_and!; [lia | lia | | right; exists l, (mkR item item v (-1)); cbn; split_and!; done || lia].
    eapply (covers_extend l); [lia | exact Hv | lia | exact Hc |].
    intros i r. rewrite covers_app, covers_one. unfold in_node, norm. cbn.
    replace (v =? -1) with false by lia. change (-1 =? -1) with true. cbn iota. intuition lia. }
  destruct (prev =? 0) eqn:Ep; [apply Hnew; lia |].
  destruct Hp as [-> | (l0 & t & -> & Ht1 & Ht2 & Ht3 & Ht4 & Hts)]; [done |].
  change (a_mak_rlist :: l0 ++ [t]) with ((a_mak_rlist :: l0) ++ [t]). rewrite last_snoc.
  destruct (v =? r0 t) eqn:Ev.
  - rewrite set_tail_snoc. cbn [app]. apply IH; [| rewrite Ep in *; lia].
    split_and!; [lia | lia | |].
    + eapply (covers_extend (l0 ++ [t])); [lia | exact Hv | lia | exact Hc |].
      intros i r. rewrite !covers_app, !covers_one. unfold in_node, set_i1, norm. cbn.
      rewrite i16_small by lia. rewrite Ht4. replace (r0 t =? -1) with false by lia.
      change (-1 =? -1) with true. cbn iota. destruct (decide (i = item)); intuition lia.
    + right. exists l0, (set_i1 t item). cbn. rewrite i16_small by lia. split_and!; done || lia.
  - replace (item - 1 + 1) with item by lia. apply (IH item 0 (l0 ++ [t])); [| change (0 =? 0) with true; cbn iota in *; lia].
    split_and!; [lia | lia | done | by left].
Qed.

Lemma rl_of_select_covers :
  exists l, rl_of_select select maxitems = Some (a_mak_rlist :: l) /\
    forall i r, covers l i r <-> 1 <= i <= maxitems /\ selected i r.
Proof using Hmax Hsel Hshort.
  apply (rl_select_loop_spec _ 1 0 []); [| cbn; lia].
  split_and!; [lia | lia | | by left]. intros i r. pose proof (covers_nil i r). split; [tauto | lia].
Qed.
End select.

(** ** Union, item by item *)

Lemma max_item_ge l d : d <= max_item l d /\ Forall (fun p => i1 p <= max_item l d) l.
Proof.
  induction l as [| p l [IH1 IH2]]; [by split; [| constructor] |].
  change (max_item (p :: l) d) with (Z.max (i1 p) (max_item l d)). split; [lia |].
  constructor; [lia |]. eapply Forall_impl; [exact IH2 |]. cbn beta. intros q Hq. lia.
Qed.

Lemma advance_forall (P : rnode -> Prop) item l : Forall P l -> Forall P (advance item l).
Proof. intros H. destruct H as [| p l Hp Hl]; cbn; [done |]. destruct (i1 p <? item); [done | by constructor]. Qed.

Lemma advance_shorter item l H :
  Forall (fun p => i1 p <= H) l ->
  (length (advance item l) <= length l)%nat /\
  (H < item -> l <> [] -> (length (advance item l) < length l)%nat).
Proof.
  intros Hl. destruct Hl as [| p l Hp Hl]; cbn; [split; [lia | done] |].
  destruct (i1 p <? item) eqn:E; cbn; split; try lia.
Qed.

(** The loop ends, whatever the lists. *)
Lemma or_loop_total H fuel : forall item ilo pa pb acc,
  Forall (fun p => i1 p <= H) pa -> Forall (fun p => i1 p <= H) pb ->
  (Z.to_nat (H - item + 1) + length pa + length pb < fuel)%nat ->
  exists l, or_loop fuel item ilo pa pb acc = Some l.
Proof.
  induction fuel as [| fuel IH]; intros item ilo pa pb acc Ha Hb Hf; [lia |]. cbn [or_loop].
  destruct (advance_shorter item pa H Ha) as [A1 A2]. destruct (advance_shorter item pb H Hb) as [B1 B2].
  assert (Hgo : pa <> [] \/ pb <> [] -> exists l, or_loop fuel (item + 1) ilo (advance item pa) (advance item pb)
    (or_item item ilo (advance item pa) (advance item pb) acc) = Some l).
  { intros Hne. apply IH; [by apply advance_forall | by apply advance_forall |].
    destruct (decide (H < item)) as [Hlt | Hge]; [| lia].
    destruct Hne as [Hne | Hne]; [specialize (A2 Hlt Hne) | specialize (B2 Hlt Hne)]; lia. }
  destruct pa as [| p pa]; [destruct pb as [| q pb]; [by eexists |] |]; apply Hgo; auto.
Qed.

(** Nodes in ascending order of their items, none empty, from [k] on. *)
Fixpoint asc (k : Z) (l : Rlist) : Prop :=
  match l with
  | [] => True
  | p :: l' => k <= i0 p /\ i0 p <= i1 p /\ asc (i1 p + 1) l'
  end.

(** The node that holds an item. *)
Fixpoint find_item (l : Rlist) (i : Z) : option rnode :=
  match l with
  | [] => None
  | p :: l' => if (i0 p <=? i) && (i <=? i1 p) then Some p else find_item l' i
  end.

Lemma find_item_below k l i : asc k l -> i < k -> find_item l i = None.
Proof.
  revert k. induction l as [| p l IH]; intros k H Hi; [done |]. destruct H as (H1 & H2 & H3). cbn.
  replace ((i0 p <=? i) && (i <=? i1 p)) with false by lia. apply (IH _ H3). lia.
Qed.

Lemma find_item_in l i p : find_item l i = Some p -> p ∈ l /\ i0 p <= i <= i1 p.
Proof.
  induction l as [| q l IH]; [done |]. cbn. destruct ((i0 q <=? i) && (i <=? i1 q)) eqn:E.
  - intros [= ->]. split; [left | lia].
  - intros H. destruct (IH H). split; [by right | done].
Qed.

(** What the pointer [px] into list [l] is for, before item [item]. *)
Definition cursor (l : Rlist) (item : Z) (px : Rlist) : Prop :=
  (exists k, asc k px) /\ Forall short_node px /\
  (forall i, item <= i -> find_item px i = find_item l i) /\
  match px with p :: _ => item - 1 <= i1 p | [] => True end.

Lemma cursor_advance l item px :
  cursor l item px ->
  cursor l (item + 1) (advance item px) /\ INSIDE item (advance item px) = find_item l item.
Proof.
  intros ((k & Hk) & Hs & Hf & Hh). destruct px as [| p px]; cbn [advance].
  - split; [| apply (Hf item); lia]. split_and!; [by exists 0 | done | intros i Hi; apply Hf; lia | done].
  - destruct Hk as (H1 & H2 & H3). inversion Hs as [| ? ? Hp Hpx]; subst. destruct (i1 p <? item) eqn:E.
    + assert (Hf' : forall i, item <= i -> find_item px i = find_item l i).
      { intros i Hi. rewrite <- (Hf i Hi). cbn. by replace ((i0 p <=? i) && (i <=? i1 p)) with false by lia. }
      split.
      * split_and!; [by exists (i1 p + 1) | done | intros i Hi; apply Hf'; lia |].
        destruct px as [| q px]; [done |]. destruct H3 as (? & ? & _). lia.
      * rewrite <- (Hf' item) by lia. destruct px as [| q px]; [done |]. destruct H3 as (? & ? & Hq). cbn.
        destruct ((i0 q <=? item) && (item <=? i1 q)) eqn:Eq; [done |]. symmetry. eapply find_item_below; [exact Hq | lia].
    + split.
      * split_and!; [by exists k | done | intros i Hi; apply Hf; lia | lia].
      * rewrite <- (Hf item) by lia. cbn.
        destruct ((i0 p <=? item) && (item <=? i1 p)) eqn:Eq; [done |]. symmetry. eapply find_item_below; [exact H3 | lia].
Qed.

Section union.
Context (la lb : Rlist) (ilo : Z).

(** The hull of the response ranges the two lists have for item [i]. *)
Definition lo_of (i : Z) : Z :=
  let lo l r := match find_item l i with Some p => Z.min r (norm (r0 p)) | None => r end in
  lo lb (lo la HIGHBOUND).
Definition hi_of (i : Z) : Z :=
  let hi l r := match find_item l i with Some p => Z.max r (norm (r1 p)) | None => r end in
  hi lb (hi la 0).
Definition hull (i r : Z) : Prop := lo_of i <= r <= hi_of i.

Context (Hla : Forall short_node la) (Hlb : Forall short_node lb).

Lemma lo_hi_facts i :
  lo_of i <> -1 /\ 0 <= hi_of i /\ is_short (lo_of i) /\ is_short (hi_of i) /\ (lo_of i <= hi_of i -> is_short i).
Proof using Hla Hlb.
  assert (Hn : forall l p, Forall short_node l -> find_item l i = Some p ->
    is_short (norm (r0 p)) /\ is_short (norm (r1 p)) /\ is_short i /\ norm (r0 p) <> -1).
  { intros l p Hl Hp. destruct (find_item_in _ _ _ Hp) as [Hin Hi].
    destruct (proj1 (Forall_forall _ _) Hl p Hin) as (S1 & S2 & S3 & S4).
    split_and!; [by apply norm_short | by apply norm_short | unfold is_short in *; lia | apply norm_not_last]. }
  unfold lo_of, hi_of. destruct (find_item la i) as [p |] eqn:Ea; destruct (find_item lb i) as [q |] eqn:Eb;
    try (destruct (Hn la p Hla Ea) as (? & ? & ? & ?)); try (destruct (Hn lb q Hlb Eb) as (? & ? & ? & ?));
    unfold is_short, HIGHBOUND in *; split_and!; lia.
Qed.

Definition acc_inv (item : Z) (l : Rlist) : Prop :=
  (forall i r, covers l i r <-> ilo <= i < item /\ hull i r) /\
  Forall (fun p => i0 p <= i1 p /\ r0 p <> -1 /\ r1 p <> -1) l.

Lemma acc_extend l k item :
  ilo <= item -> acc_inv item l ->
  (forall i r, covers k i r <-> covers l i r \/ (i = item /\ hull item r)) ->
  Forall (fun p => i0 p <= i1 p /\ r0 p <> -1 /\ r1 p <> -1) k -> acc_inv (item + 1) k.
Proof using Type.
  intros Hi [Hc _] Hk HF. split; [| done]. intros i r. rewrite Hk, Hc. split.
  - intros [[? ?] | [-> ?]]; (split; [lia | done]).
  - intros [? Hh]. destruct (decide (i = item)) as [-> | ?]; [by right | left; split; [lia | done]].
Qed.

Lemma or_item_spec item pa pb l :
  ilo <= item -> INSIDE item pa = find_item la item -> INSIDE item pb = find_item lb item -> acc_inv item l ->
  exists l', or_item item ilo pa pb (a_mak_rlist :: l) = a_mak_rlist :: l' /\ acc_inv (item + 1) l'.
Proof using Hla Hlb.
  intros Hi Ea Eb HI. unfold or_item.
  assert (Elo : lowest item pa pb = lo_of item) by (unfold lowest, lo_of; by rewrite Ea, Eb).
  assert (Ehi : highest item pa pb = hi_of item) by (unfold highest, hi_of; by rewrite Ea, Eb).
  rewrite Elo, Ehi. destruct (lo_hi_facts item) as (H1 & H2 & H3 & H4 & H5).
  destruct (hi_of item <? lo_of item) eqn:E.
  { exists l. split; [done |]. eapply acc_extend; [done | exact HI | | apply HI].
    intros i r. unfold hull. split; [by left | intros [? | [-> ?]]; [done | lia]]. }
  specialize (H5 ltac:(lia)). rewrite rect_short by done.
  assert (Hnew : acc_inv (item + 1) (l ++ [mkR item item (lo_of item) (hi_of item)])).
  { eapply acc_extend; [done | exact HI | |].
    - intros i r. rewrite covers_app, covers_one. unfold in_node, hull, norm. cbn.
      replace (lo_of item =? -1) with false by lia. replace (hi_of item =? -1) with false by lia. intuition lia.
    - apply Forall_app. split; [apply HI |]. repeat constructor; cbn; lia. }
  destruct (item =? ilo); [by exists (l ++ [mkR item item (lo_of item) (hi_of item)]) |].
  destruct l as [| t l _] using rev_ind.
  { cbn [last a_mak_rlist i1 r0 r1]. replace (-1 =? hi_of item) with false by lia. rewrite andb_false_r. by eexists. }
  rewrite app_comm_cons, last_snoc.
  destruct ((i1 t + 1 =? item) && (r0 t =? lo_of item) && (r1 t =? hi_of item)) eqn:Et; [| by eexists].
  rewrite set_tail_snoc. eexists. split; [done |].
  destruct HI as [Hc HF]. pose proof HF as HF'. apply Forall_app in HF' as [HF1 HF2].
  inversion HF2 as [| ? ? (Ht1 & Ht2 & Ht3) _]; subst.
  eapply (acc_extend (l ++ [t])); [done | by split | |].
  + intros i r. rewrite !covers_app, !covers_one. unfold in_node, hull, set_i1, norm. cbn. rewrite i16_small by done.
    replace (r0 t =? -1) with false by lia. replace (r1 t =? -1) with false by lia.
    destruct (decide (i = item)); intuition lia.
  + apply Forall_app. split; [done |]. repeat constructor; cbn; rewrite ?i16_small by done; lia.
Qed.

Lemma or_loop_spec fuel : forall item pa pb l res,
  ilo <= item -> cursor la item pa -> cursor lb item pb -> acc_inv item l ->
  or_loop fuel item ilo pa pb (a_mak_rlist :: l) = Some res ->
  exists l', res = a_mak_rlist :: l' /\
    (forall i r, covers l' i r <-> ilo <= i /\ hull i r) /\ Forall (fun p => r0 p <> -1 /\ r1 p <> -1) l'.
Proof using Hla Hlb.
  induction fuel as [| fuel IH]; intros item pa pb l res Hi Ca Cb HI; [done |]. cbn [or_loop].
  destruct (cursor_advance _ _ _ Ca) as [Ca' Ea]. destruct (cursor_advance _ _ _ Cb) as [Cb' Eb].
  destruct (or_item_spec item (advance item pa) (advance item pb) l Hi Ea Eb HI) as (l1 & E1 & HI1).
  assert (Hgo : forall res, or_loop fuel (item + 1) ilo (advance item pa) (advance item pb)
      (or_item item ilo (advance item pa) (advance item pb) (a_mak_rlist :: l)) = Some res ->
    exists l', res = a_mak_rlist :: l' /\
    (forall i r, covers l' i r <-> ilo <= i /\ hull i r) /\ Forall (fun p => r0 p <> -1 /\ r1 p <> -1) l').
  { intros res'. rewrite E1. apply IH; [lia | done | done | done]. }
  destruct pa as [| p pa]; [destruct pb as [| q pb] |]; [| exact (Hgo res) | exact (Hgo res)].
  intros [= <-]. exists l. destruct HI as [Hc HF]. split_and!; [done | | eapply Forall_impl; [exact HF |]; by intros ? (? & ? & ?)].
  intros i r. rewrite Hc. split; [intros [? ?]; split; [lia | done] |]. intros [Hlo Hh]. split; [| done].
  split; [lia |]. destruct (decide (i < item)); [done | exfalso].
  destruct Ca as (_ & _ & Fa & _), Cb as (_ & _ & Fb & _). unfold hull, lo_of, hi_of in Hh.
  rewrite <- (Fa i), <- (Fb i) in Hh by lia. cbn in Hh. unfold HIGHBOUND in Hh. lia.
Qed.
End union.

(** The first item the union looks at. *)
Lemma asc_cursor l k d : asc k l -> Forall short_node l ->
  cursor l (match l with p :: _ => Z.min d (i0 p) | [] => d end) l /\
  forall j, j <= match l with p :: _ => Z.min d (i0 p) | [] => d end -> cursor l j l.
Proof.
  intros H Hs. assert (Hc : forall j, j <= match l with p :: _ => Z.min d (i0 p) | [] => d end -> cursor l j l).
  { intros j Hj. split_and!; [by exists k | done | done |]. destruct l as [| p l]; [done |]. destruct H as (? & ? & _). lia. }
  split; [apply Hc; lia | exact Hc].
Qed.

Lemma find_item_first l k i j :
  asc k l -> j <= match l with p :: _ => i0 p | [] => j end -> i < j -> find_item l i = None.
Proof.
  intros H Hj Hi. destruct l as [| p l]; [done |]. destruct H as (H1 & H2 & H3). eapply (find_item_below (i0 p)); [| lia].
  cbn. split_and!; [lia | lia | done].
Qed.

Lemma fixup_covers l i r :
  Forall (fun p => r0 p <> -1 /\ r1 p <> -1) l ->
  covers (map (fun pr => if r1 pr =? HIGHBOUND then set_r1 pr (-1) else pr) l) i r <-> covers l i r.
Proof.
  induction 1 as [| p l [H1 H2] Hl IH]; [done |]. cbn [map]. rewrite !covers_cons, IH.
  destruct (r1 p =? HIGHBOUND) eqn:E; [| done]. apply Z.eqb_eq in E.
  assert (in_node (set_r1 p (-1)) i r <-> in_node p i r) as ->; [| done].
  unfold in_node, set_r1. cbn. rewrite E. done.
Qed.

Lemma or_rlist_ends ha hb la lb : exists l, or_rlist (ha :: la) (hb :: lb) = Some l.
Proof.
  unfold or_rlist.
  set (ilo := match lb with p :: _ => Z.min _ (i0 p) | [] => _ end).
  destruct (max_item_ge la ilo) as [_ A]. destruct (max_item_ge lb (max_item la ilo)) as [B1 B].
  edestruct (or_loop_total (max_item lb (max_item la ilo))) as [l E]; [| exact B | | rewrite E; destruct l; eauto].
  - eapply Forall_impl; [exact A |]. cbn beta. lia.
  - lia.
Qed.

Lemma or_rlist_covers ha hb la lb ka kb :
  asc ka la -> asc kb lb -> Forall short_node la -> Forall short_node lb ->
  exists l, or_rlist (ha :: la) (hb :: lb) = Some (a_mak_rlist :: l) /\
    forall i r, covers l i r <-> hull la lb i r.
Proof.
  intros Aa Ab Sa Sb. destruct (or_rlist_ends ha hb la lb) as [res E]. revert E. unfold or_rlist.
  set (ilo := match lb with p :: _ => Z.min _ (i0 p) | [] => _ end).
  set (fuel := (_ + _)%nat). destruct (or_loop fuel ilo ilo la lb [a_mak_rlist]) as [acc |] eqn:El; [| done].
  assert (Hla : ilo <= match la with p :: _ => Z.min HIGHBOUND (i0 p) | [] => HIGHBOUND end).
  { subst ilo. destruct lb; lia. }
  assert (Hlb : ilo <= match lb with p :: _ => Z.min HIGHBOUND (i0 p) | [] => HIGHBOUND end).
  { subst ilo. destruct lb, la; lia. }
  edestruct (or_loop_spec la lb ilo Sa Sb fuel ilo la lb [] acc) as (l & -> & Hc & HF);
    [lia | by eapply asc_cursor | by eapply asc_cursor | | exact El |].
  { split; [| constructor]. intros i r. pose proof (covers_nil i r). split; [tauto | lia]. }
  intros [= <-]. eexists. split; [done |]. intros i r. rewrite fixup_covers by done. rewrite Hc. split; [by intros [? ?] |].
  intros Hh. split; [| done]. destruct (decide (ilo <= i)); [done | exfalso].
  unfold hull, lo_of, hi_of, HIGHBOUND in Hh.
  rewrite (find_item_first la ka i ilo), (find_item_first lb kb i ilo) in Hh; try done; try lia;
    [destruct lb; lia | destruct la; lia].
Qed.

(** The hull holds what either list covers. *)
Lemma asc_find k l i p : asc k l -> p ∈ l -> i0 p <= i <= i1 p -> find_item l i = Some p /\ k <= i.
Proof.
  revert k. induction l as [| q l IH]; intros k H Hp Hi; [by apply not_elem_of_nil in Hp |].
  destruct H as (H1 & H2 & H3). cbn. apply elem_of_cons in Hp as [-> | Hp].
  - replace ((i0 q <=? i) && (i <=? i1 q)) with true by lia. split; [done | lia].
  - destruct (IH _ H3 Hp Hi) as [E Hk]. replace ((i0 q <=? i) && (i <=? i1 q)) with false by lia. split; [done | lia].
Qed.

Lemma hull_contains la lb ka kb i r :
  asc ka la -> asc kb lb -> covers la i r \/ covers lb i r -> r <= HIGHBOUND -> 0 <= r -> hull la lb i r.
Proof.
  intros Aa Ab H H1 H2. unfold hull, lo_of, hi_of.
  destruct H as [(p & Hp & Hi & Hr) | (p & Hp & Hi & Hr)].
  - destruct (asc_find ka la i p Aa Hp Hi) as [-> _]. destruct (find_item lb i); lia.
  - destruct (asc_find kb lb i p Ab Hp Hi) as [-> _]. destruct (find_item la i); lia.
Qed.

(** ** Theorems *)

(** The intersection of two Rlists covers a response of an item exactly
    when both of them do. *)
Theorem and_rlist_intersects ha hb la lb i r :
  Forall short_node la -> Forall short_node lb ->
  covers (tail (and_rlist (ha :: la) (hb :: lb))) i r <-> covers la i r /\ covers lb i r.
Proof. apply covers_and. Qed.

Definition sample_a : Rlist := [mkR 1 10 0 (-1); mkR 12 12 3 7].
Definition sample_b : Rlist := [mkR 5 12 2 5].

Lemma sample_short : Forall short_node sample_a /\ Forall short_node sample_b.
Proof. split; repeat constructor; unfold is_short; cbn; lia. Qed.

Lemma and_rlist_intersects_witness :
  covers (tail (and_rlist (a_mak_rlist :: sample_a) (a_mak_rlist :: sample_b))) 12 4 <->
  covers sample_a 12 4 /\ covers sample_b 12 4.
Proof. apply and_rlist_intersects; apply sample_short. Defined.

(** For Rlists in ascending order of items the union covers, for each
    item, exactly the smallest range of responses that holds the ranges of
    both lists; in particular all that either of them covers. *)
Theorem or_rlist_hull ha hb la lb ka kb :
  asc ka la -> asc kb lb -> Forall short_node la -> Forall short_node lb ->
  exists l, or_rlist (ha :: la) (hb :: lb) = Some (a_mak_rlist :: l) /\
    (forall i r, covers l i r <-> hull la lb i r) /\
    (forall i r, covers la i r \/ covers lb i r -> r <= HIGHBOUND -> 0 <= r -> covers l i r).
Proof.
  intros Aa Ab Sa Sb. destruct (or_rlist_covers ha hb la lb ka kb Aa Ab Sa Sb) as (l & E & Hc).
  exists l. split_and!; [done | done |]. intros i r Hcov H1 H2. apply Hc. by eapply hull_contains.
Qed.

Lemma or_rlist_hull_witness :
  exists l, or_rlist (a_mak_rlist :: sample_a) (a_mak_rlist :: sample_b) = Some (a_mak_rlist :: l) /\
    (forall i r, covers l i r <-> hull sample_a sample_b i r) /\
    (forall i r, covers sample_a i r \/ covers sample_b i r -> r <= HIGHBOUND -> 0 <= r -> covers l i r).
Proof.
  apply (or_rlist_hull _ _ _ _ 1 5); [cbn; lia | cbn; lia | apply sample_short | apply sample_short].
Defined.

(** [rl_of_select] terminates and its Rlist covers exactly the selected
    items, each from its first selected response to the last one. *)
Theorem rl_of_select_selects select maxitems :
  0 <= maxitems < 2 ^ 15 -> maxitems < len select -> Forall is_short select ->
  exists l, rl_of_select select maxitems = Some (a_mak_rlist :: l) /\
    forall i r, covers l i r <-> 1 <= i <= maxitems /\ selected select i r.
Proof. apply rl_of_select_covers. Qed.

Lemma rl_of_select_selects_witness :
  exists l, rl_of_select [0; 2; 2; -1; 5; 2] 5 = Some (a_mak_rlist :: l) /\
    forall i r, covers l i r <-> 1 <= i <= 5 /\ selected [0; 2; 2; -1; 5; 2] i r.
Proof.
  apply rl_of_select_selects; [lia | done |]. repeat constructor; unfold is_short; lia.
Defined.

(** [add_to_rlist] always finds or makes a node for an item, and adds
    exactly that item's range of responses to what the list covers. *)
Theorem add_to_rlist_adds l item a b :
  l <> [] -> Forall short_node l -> Forall (fun p => i0 p <= i1 p) l ->
  is_short item -> is_short a -> is_short b ->
  exists l' k, add_to_rlist l item a b = Some (l', k) /\
    (forall i r, covers l' i r <-> covers l i r \/ (i = item /\ norm a <= r <= norm b)) /\
    exists p, l' !! k = Some p /\ i1 p = item /\ r0 p = a /\ r1 p = b.
Proof.
  intros Hne Hs Ho Hi Ha Hb. destruct (add_to_rlist_total l item a b Hne) as (l' & k & E).
  exists l', k. split; [done |]. by apply (add_to_rlist_spec l).
Qed.

Lemma add_to_rlist_adds_witness :
  exists l' k, add_to_rlist (a_mak_rlist :: sample_a) 13 3 7 = Some (l', k) /\
    (forall i r, covers l' i r <-> covers (a_mak_rlist :: sample_a) i r \/ (i = 13 /\ norm 3 <= r <= norm 7)) /\
    exists p, l' !! k = Some p /\ i1 p = 13 /\ r0 p = 3 /\ r1 p = 7.
Proof.
  apply add_to_rlist_adds; [done | | repeat constructor; cbn; lia | unfold is_short; lia | unfold is_short; lia | unfold is_short; lia].
  constructor; [unfold short_node, is_short; cbn; lia | apply sample_short].
Defined.
