(* ===== verification/Str.v ===== *)
(** C string helpers (src/CV2/str) and the sequence numbers of transactions
    (src/CV2/xaction/greater.c, incremen.c).

    A function that only reads its C strings takes them as lists of non-zero
    bytes, the end of the list standing for the terminator.  A function that
    writes works on a flat memory, a list of bytes in which a pointer is an
    index, so that overlapping arguments are modelled; an access outside the
    memory gives [None]. *)
From S2P Require Import Prelude Memory Chix ChixEdit ChixSearch ChixParse.

(** ** Character classes *)

Definition cf_digit (c : Z) : bool := (48 <=? c) && (c <=? 57).
Definition cf_lower (c : Z) : bool := (97 <=? c) && (c <=? 122).
Definition cf_upper (c : Z) : bool := (65 <=? c) && (c <=? 90).
Definition cf_value (d : Z) : Z := d - 48.

(** [strlower]: upper case letters to lower case, in place. *)
Definition strlower (s : list Z) : list Z :=
  map (fun c => if (65 <=? c) && (c <=? 90) then c + 32 else c) s.

(** ** Base 36 *)

Definition alphanums : list Z := bytes "0123456789ABCDEFGHIJKLMNOPQRSTUVWXYZ".

(** The do-while loop that produces the digits, the lowest first. *)
Fixpoint digits36 (fuel : nat) (num : Z) : option (list Z) :=
  match fuel with
  | O => None
  | S fuel' =>
      c ← zget alphanums (Z.rem num 36);
      if 0 <? Z.quot num 36 then (fun l => c :: l) <$> digits36 fuel' (Z.quot num 36) else Some [c]
  end.

(** The loop that reverses the string by exchanges from both ends. *)
Fixpoint reverse_loop (fuel : nat) (str : list Z) (j k : Z) : option (list Z) :=
  match fuel with
  | O => None
  | S fuel' =>
      if j <? k then
        c ← zget str j; d ← zget str k;
        str1 ← zset str j d; str2 ← zset str1 k c;
        reverse_loop fuel' str2 (j + 1) (k - 1)
      else Some str
  end.

(** The string [strito36] leaves at [str]. *)
Definition strito36 (num len : Z) : option (list Z) :=
  l ← digits36 32 num;
  let str := l ++ replicate (Z.to_nat len - length l) 48 in
  reverse_loop (S (length str)) str 0 (Prelude.len str - 1).

(** The search for a digit in [alphanums]: its index, the length if none. *)
Fixpoint index_of (c : Z) (l : list Z) : Z :=
  match l with
  | [] => 0
  | d :: l' => if d =? c then 0 else 1 + index_of c l'
  end.

Fixpoint read36 (s : list Z) (num : Z) : Z :=
  match s with
  | [] => num
  | c :: s' =>
      if (47 <? c) && (c <? 58) || (64 <? c) && (c <? 91) then
        let j := index_of c alphanums in
        if j =? 36 then -1 else read36 s' (i32 (i32 (36 * num) + j))
      else num
  end.

(** [str36toi]: the string it leaves (in upper case), and the number. *)
Definition str36toi (str : list Z) : list Z * Z :=
  let s := map (fun c => if cf_lower c then c - 32 else c) str in (s, read36 s 0).

(** ** Reading numbers *)

(** [strscan]: the number, and the string from where [*s] is left. *)
Fixpoint scan_digits (s : list Z) (result : Z) : Z * list Z :=
  match s with
  | c :: s' => if cf_digit c then scan_digits s' (i32 (i32 (10 * result) + cf_value c)) else (result, s)
  | [] => (result, [])
  end.

Definition skip_blanks (s : list Z) : list Z := skip_spaces s.

Definition strscan (s : option (list Z)) : Z * option (list Z) :=
  match s with
  | None => (-1, None)
  | Some p =>
      let t := skip_blanks p in
      match t with
      | c :: _ => if cf_digit c then let '(r, u) := scan_digits t 0 in (r, Some u) else (0, Some p)
      | [] => (0, Some p)
      end
  end.

(** [strnum]: the return code and the value stored in [*i], if any. *)
Definition strnum (s : list Z) : Z * option Z :=
  let t := skip_blanks s in
  let '(minus, t) := match t with c :: t' => if c =? 45 then (true, t') else (false, t) | [] => (false, t) end in
  match strscan (Some t) with
  | (temp, Some u) =>
      if bool_decide (u = t) then (0, None)
      else (1, Some (if minus then i32 (- temp) else temp))
  | (_, None) => (0, None)
  end.

(** One number of [strshort]: the text before it (with the character just
    before it), and its digits, accumulated in a [short]. *)
Fixpoint short_skip (s : list Z) (prevchar : Z) : Z * list Z :=
  match s with
  | c :: s' => if cf_digit c then (prevchar, s) else short_skip s' c
  | [] => (prevchar, [])
  end.

Fixpoint short_digits (s : list Z) (v : Z) : Z * list Z :=
  match s with
  | c :: s' => if cf_digit c then short_digits s' (i16 (v * 10 + cf_value c)) else (v, s)
  | [] => (v, [])
  end.

Fixpoint strshort (number : nat) (str : list Z) : list Z :=
  match number with
  | O => []
  | S n =>
      let '(prevchar, s1) := short_skip str 0 in
      let '(v, s2) := short_digits s1 0 in
      (if prevchar =? 45 then i16 (- v) else v) :: strshort n s2
  end.

(** ** Comparing and searching *)

(** [streq] with its null pointers. *)
Fixpoint streq_loop (s t : list Z) : Z :=
  match s, t with
  | [], [] => 1
  | c :: s', d :: t' => if c =? d then streq_loop s' t' else 0
  | _, _ => 0
  end.

Definition streq (s t : option (list Z)) : Z :=
  match s, t with Some s, Some t => streq_loop s t | _, _ => 0 end.

(** The inner loop of [strindex]: does [t] end before it differs from [s]? *)
Fixpoint starts_with (t s : list Z) : bool :=
  match t with
  | [] => true
  | d :: t' => match s with c :: s' => (c =? d) && starts_with t' s' | [] => false end
  end.

Fixpoint strindex_loop (s t : list Z) (i : Z) : Z :=
  match s with
  | [] => -1
  | _ :: s' => if starts_with t s then i else strindex_loop s' t (i + 1)
  end.

Definition strindex (s t : list Z) : Z := strindex_loop s t 0.

(** ** The table search, a state machine *)

Inductive table_state := BETWEEN | CHECKWORD | SKIPWORD.

(** What is left of the table ([sp]) and of the word ([wp]). *)
Record table_cfg := mkTable { tb_state : table_state; tb_sp : list Z; tb_wp : list Z; tb_which : Z }.

(** One turn of the loop: the next configuration, or the value returned. *)
Definition table_step (word : list Z) (t : table_cfg) : table_cfg + Z :=
  let '(mkTable state sp wp which) := t in
  match state with
  | BETWEEN =>
      match sp with
      | [] => inr (-2)
      | c :: sp' => if c =? 32 then inl (mkTable BETWEEN sp' wp which)
                    else inl (mkTable CHECKWORD sp word (which + 1))
      end
  | CHECKWORD =>
      match wp, sp with
      | [], [] => inr which
      | [], c :: _ => if c =? 32 then inr which else inl (mkTable SKIPWORD sp wp which)
      | _ :: _, [] => inr (-3)
      | d :: wp', c :: sp' => if c =? d then inl (mkTable CHECKWORD sp' wp' which)
                              else inl (mkTable SKIPWORD sp wp which)
      end
  | SKIPWORD =>
      match sp with
      | [] => inr (-4)
      | c :: sp' => inl (mkTable (if c =? 32 then BETWEEN else SKIPWORD) sp' wp which)
      end
  end.

Fixpoint table_loop (fuel : nat) (word : list Z) (t : table_cfg) : option Z :=
  match fuel with
  | O => None
  | S fuel' => match table_step word t with inl t' => table_loop fuel' word t' | inr r => Some r end
  end.

Definition strtable (table word : list Z) : option Z :=
  match table, word with
  | [], _ | _, [] => Some (-1)
  | _, _ => table_loop (3 * length table + 3) word (mkTable BETWEEN table word (-1))
  end.

(** ** Words *)

(** [strtoken]: the scan of the rest of the line at [i], with the word
    collected so far in [buf] (300 bytes, its terminator included) and where
    it started; the result is the word and its start, [None] when the line is
    used up.  The outer [None] is a write beyond [buf]. *)
Fixpoint token_loop (pos : Z) (line : list Z) (i start : Z) (between : bool) (buf : list Z)
    : option (option (Z * list Z)) :=
  match line with
  | [] =>
      if between then Some None
      else if 300 <=? len buf then None
      else if pos - 1 <=? 0 then Some (Some (start, buf)) else Some None
  | c :: line' =>
      if c =? 32 then
        if between then token_loop pos line' (i + 1) start true buf
        else if 300 <=? len buf then None
        else if pos - 1 <=? 0 then Some (Some (start, buf))
        else token_loop (pos - 1) line' (i + 1) start true buf
      else if between then token_loop pos line' (i + 1) i false [c]
      else if 300 <=? len buf then None
      else token_loop pos line' (i + 1) start false (buf ++ [c])
  end.

Definition strtoken (pos : Z) (line : list Z) : option (option (Z * list Z)) :=
  token_loop pos line 0 0 true [].

(** ** Functions that write memory *)

(** The C string at [p]; [None] if the memory ends before a terminator. *)
Fixpoint read_str (l : list Z) : option (list Z) :=
  match l with
  | [] => None
  | b :: l' => if b =? 0 then Some [] else (fun s => b :: s) <$> read_str l'
  end.

Definition getstr (m : list Z) (p : Z) : option (list Z) :=
  if p <? 0 then None else read_str (drop (Z.to_nat p) m).

Definition strlen (m : list Z) (p : Z) : option Z := len <$> getstr m p.

(** [for (i = first; n more turns; ++i)] and [--i]. *)
Fixpoint for_up (n : nat) (i : Z) (f : Z -> list Z -> option (list Z)) (m : list Z) : option (list Z) :=
  match n with
  | O => Some m
  | S n' => m' ← f i m; for_up n' (i + 1) f m'
  end.

Fixpoint for_down (n : nat) (i : Z) (f : Z -> list Z -> option (list Z)) (m : list Z) : option (list Z) :=
  match n with
  | O => Some m
  | S n' => m' ← f i m; for_down n' (i - 1) f m'
  end.

(** [dst[i + d] = src[i]]. *)
Definition move (src dst : Z) (i : Z) (m : list Z) : option (list Z) :=
  v ← zget m (src + i); zset m (dst + i) v.

Definition strconc (m : list Z) (a b c : Z) : option (list Z) :=
  blen ← strlen m b;
  clen ← strlen m c;
  m1 ← for_down (Z.to_nat (clen + 1)) clen (move c (a + blen)) m;
  for_up (Z.to_nat blen) 0 (move b a) m1.

Definition strsub (m : list Z) (result str start len : Z) : option (list Z) :=
  slen ← strlen m str;
  let start := Z.max start 0 in
  let last := Z.min (start + len - 1) (slen - 1) in
  let n := Z.max 0 (last - start + 1) in
  m1 ← for_up (Z.to_nat n) 0 (move (str + start) result) m;
  zset m1 (result + n) 0.

(** The return value and the memory. *)
Definition stralter (m : list Z) (sss old new : Z) : option (Z * list Z) :=
  s ← getstr m sss; o ← getstr m old; w ← getstr m new;
  if (len s =? 0) || (len o =? 0) then Some (0, m) else
  let pos := strindex s o in
  if pos <? 0 then Some (0, m) else
  let delta := len w - len o in
  let n := Z.to_nat (len s - (pos + len o) + 1) in
  m1 ← if 0 <? delta then for_down n (len s) (move sss (sss + delta)) m else Some m;
  m2 ← if delta <? 0 then for_up n (pos + len o) (move sss (sss + delta)) m1 else Some m1;
  m3 ← for_up (length w) 0 (move new (sss + pos)) m2;
  Some (1, m3).

Fixpoint copytil_loop (fuel : nat) (m : list Z) (b a c : Z) : option (list Z) :=
  match fuel with
  | O => None
  | S fuel' =>
      v ← zget m a;
      if negb (v =? 0) && negb (v =? c) then m' ← zset m b v; copytil_loop fuel' m' (b + 1) (a + 1) c
      else zset m b 0
  end.

Definition strcpytil (m : list Z) (b a c : Z) : option (list Z) :=
  copytil_loop (S (length m)) m b a c.

(** [strtol (s, NULL, 16)]. *)
Definition hex_digit (c : Z) : option Z :=
  if (48 <=? c) && (c <=? 57) then Some (c - 48)
  else if (65 <=? c) && (c <=? 70) then Some (c - 55)
  else if (97 <=? c) && (c <=? 102) then Some (c - 87) else None.

Fixpoint hex_value (s : list Z) (v : Z) : Z :=
  match s with
  | c :: s' => match hex_digit c with Some d => hex_value s' (16 * v + d) | None => v end
  | [] => v
  end.

Definition hex_prefix (s : list Z) : list Z :=
  match s with
  | z :: x :: d :: s' =>
      if (z =? 48) && ((x =? 120) || (x =? 88)) && bool_decide (is_Some (hex_digit d)) then d :: s' else s
  | _ => s
  end.

Fixpoint skip_isspace (s : list Z) : list Z :=
  match s with
  | c :: s' => if (c =? 32) || ((9 <=? c) && (c <=? 13)) then skip_isspace s' else s
  | [] => []
  end.

Definition strtol16 (s : list Z) : Z :=
  match skip_isspace s with
  | c :: s' => if c =? 45 then - hex_value (hex_prefix s') 0
               else hex_value (hex_prefix (if c =? 43 then s' else c :: s')) 0
  | [] => 0
  end.

(** [strunescape], in place: [s] reads and [t] writes. *)
Fixpoint unescape_loop (fuel : nat) (m : list Z) (s t : Z) : option (list Z) :=
  match fuel with
  | O => None
  | S fuel' =>
      c ← zget m s;
      if c =? 0 then zset m t 0
      else
        esc ← (if negb (c =? 37) then Some None
               else h ← zget m (s + 1);
                    if h =? 0 then Some None
                    else l ← zget m (s + 2); Some (if l =? 0 then None else Some [h; l]));
        match esc with
        | None => m' ← zset m t c; unescape_loop fuel' m' (s + 1) (t + 1)
        | Some hex => m' ← zset m t (Z.land (strtol16 hex) 255); unescape_loop fuel' m' (s + 3) (t + 1)
        end
  end.

Definition strunescape (m : list Z) (str : Z) : option (list Z) :=
  unescape_loop (S (length m)) m str str.

(** [strplain]: the mask stops after sixteen characters. *)
Definition PLAIN_ENC_STR : list Z := [170; 149; 170; 149; 170; 149; 170; 149; 170; 149; 170; 149; 170; 149; 170; 149].

Definition strplain (str : list Z) : list Z := zip_with Z.lxor str PLAIN_ENC_STR.

(** ** Sequence numbers *)

Definition increment (old modulo : Z) : Z := Z.rem (i32 (i32 (old + modulo) + 1)) modulo.

Definition greater_than (a b modulo : Z) : bool :=
  let half := i32 (b + Z.quot modulo 2) in
  ((b <? a) && (a <? half)) ||
  (let a := i32 (a + modulo) in (b <? a) && (a <? half)).

(** ** Lemmas: arrays and strings in memory *)

Lemma zset_some (l : list Z) i v : 0 <= i < len l -> exists l', zset l i v = Some l' /\ len l' = len l /\
  zget l' i = Some v /\ forall k, k <> i -> zget l' k = zget l k.
Proof.
  intros Hi. unfold zset. replace (i <? 0) with false by lia. replace (len l <=? i) with false by lia.
  eexists. split_and!; [done | zlen | |].
  - unfold zget. replace (i <? 0) with false by lia. apply list_lookup_insert_eq. unfold len in Hi. lia.
  - intros k Hk. unfold zget. destruct (k <? 0) eqn:E; [done |]. apply list_lookup_insert_ne. lia.
Qed.

Lemma zget_in {A} (l : list A) i : 0 <= i < len l -> exists v, zget l i = Some v.
Proof.
  intros Hi. unfold zget. replace (i <? 0) with false by lia. unfold len in Hi.
  destruct (lookup_lt_is_Some_2 l (Z.to_nat i)) as [v Hv]; [lia |]. eauto.
Qed.

Lemma zget_range {A} (l : list A) i v : zget l i = Some v -> 0 <= i < len l.
Proof.
  unfold zget. destruct (i <? 0) eqn:E; [done |]. intros H%lookup_lt_Some. unfold len. lia.
Qed.

Lemma zget_app_l {A} (l k : list A) i : i < len l -> zget (l ++ k) i = zget l i.
Proof. intros H. unfold zget. destruct (i <? 0) eqn:E; [done |]. apply lookup_app_l. unfold len in H. lia. Qed.

Lemma zget_app_r {A} (l k : list A) i : len l <= i -> zget (l ++ k) i = zget k (i - len l).
Proof.
  intros H. unfold zget. len_pos. replace (i <? 0) with false by lia. replace (i - len l <? 0) with false by lia.
  rewrite lookup_app_r by (unfold len in *; lia). f_equal. unfold len in *. lia.
Qed.

(** The string [s] with its terminator is at [p]. *)
Definition str_at (m : list Z) (p : Z) (s : list Z) : Prop :=
  0 <= p /\ Forall (fun c => c <> 0) s /\
  (forall i, 0 <= i < len s -> zget m (p + i) = zget s i) /\ zget m (p + len s) = Some 0.

Lemma read_str_spec l s :
  read_str l = Some s <-> Forall (fun c => c <> 0) s /\ exists t, l = s ++ 0 :: t.
Proof.
  revert s. induction l as [| b l IH]; intros s; cbn [read_str].
  - split; [done | intros [_ [t Ht]]; by destruct s].
  - destruct (b =? 0) eqn:E.
    + apply Z.eqb_eq in E as ->. split; [intros [= <-]; split; [done | by exists l] |].
      intros [Hs [t Ht]]. destruct s as [| c s]; [done |]. injection Ht as <- _. by apply Forall_cons in Hs as [? _].
    + rewrite fmap_Some. split.
      * intros (s' & Hs' & ->). apply IH in Hs' as [H [t ->]]. split; [constructor; [lia | done] | by exists t].
      * intros [Hs [t Ht]]. destruct s as [| c s]; [injection Ht as -> _; lia |]. injection Ht as <- ->.
        apply Forall_cons in Hs as [_ Hs]. exists s. split; [apply IH; eauto | done].
Qed.

Lemma getstr_str_at m p s : getstr m p = Some s <-> str_at m p s.
Proof.
  unfold getstr, str_at. destruct (p <? 0) eqn:E; [split; [done | lia] |]. rewrite read_str_spec.
  assert (Hd : forall i, 0 <= i -> zget m (p + i) = zget (drop (Z.to_nat p) m) i).
  { intros i Hi. unfold zget. replace (p + i <? 0) with false by lia. replace (i <? 0) with false by lia.
    rewrite lookup_drop. f_equal. lia. }
  split.
  - intros [Hs [t Ht]]. split_and!; [lia | done | |].
    + intros i Hi. rewrite Hd, Ht, zget_app_l by lia. done.
    + len_pos. rewrite Hd, Ht, zget_app_r by lia. by replace (len s - len s) with 0 by lia.
  - intros (Hp & Hs & Hi & H0). split; [done |]. exists (drop (S (length s)) (drop (Z.to_nat p) m)).
    apply list_eq. intros k. destruct (decide (k < length s)%nat).
    + rewrite lookup_app_l by lia. specialize (Hi (Z.of_nat k)). rewrite Hd in Hi by lia. unfold zget in Hi.
      replace (Z.of_nat k <? 0) with false in Hi by lia. rewrite Nat2Z.id in Hi. apply Hi. unfold len. lia.
    + rewrite lookup_app_r by lia. remember (drop (S (length s)) (drop (Z.to_nat p) m)) as t eqn:Et.
      destruct (k - length s)%nat as [| j] eqn:Ek;
        [change ((0 :: t) !! 0%nat) with (Some 0) | change ((0 :: t) !! S j) with (t !! j)]; subst t.
      * len_pos. rewrite Hd in H0 by lia. unfold zget in H0. replace (len s <? 0) with false in H0 by lia.
        rewrite to_nat_len in H0. by replace k with (length s) by lia.
      * rewrite drop_drop, !lookup_drop. f_equal. lia.
Qed.

Lemma str_at_end m p s : str_at m p s -> 0 <= p /\ p + len s < len m.
Proof. intros (Hp & _ & _ & H). apply zget_range in H. lia. Qed.

(** A string that is not written to stays. *)
Lemma str_at_frame m m' p s :
  str_at m p s -> (forall k, p <= k <= p + len s -> zget m' k = zget m k) -> str_at m' p s.
Proof.
  intros (Hp & Hs & Hi & H0) Hk. len_pos. split_and!; [done | done | |].
  - intros i Hr. rewrite Hk by lia. by apply Hi.
  - rewrite Hk by lia. done.
Qed.

(** Copying upwards is right when the target is not inside the source. *)
Lemma move_up n i src dst m :
  (dst <= src \/ src + Z.of_nat n <= dst) ->
  0 <= src + i -> src + i + Z.of_nat n <= len m -> 0 <= dst + i -> dst + i + Z.of_nat n <= len m ->
  exists m', for_up n i (move src dst) m = Some m' /\ len m' = len m /\
    (forall k, i <= k < i + Z.of_nat n -> zget m' (dst + k) = zget m (src + k)) /\
    (forall k, k < dst + i \/ dst + i + Z.of_nat n <= k -> zget m' k = zget m k).
Proof.
  revert i m. induction n as [| n IH]; intros i m Ho H1 H2 H3 H4; cbn [for_up].
  { exists m. split_and!; try done; intros; lia. }
  unfold move at 2. destruct (zget_in m (src + i)) as [v Hv]; [lia |]. rewrite Hv. cbn.
  destruct (zset_some m (dst + i) v) as (m1 & -> & L1 & G1 & N1); [lia |]. cbn.
  destruct (IH (i + 1) m1) as (m' & Hm' & L' & Hin & Hout); try lia.
  exists m'. split_and!; [done | lia | |].
  - intros k Hk. destruct (decide (k = i)) as [-> | Hne].
    + rewrite Hout by lia. rewrite G1. done.
    + rewrite Hin by lia. apply N1. lia.
  - intros k Hk. rewrite Hout by lia. apply N1. lia.
Qed.

(** Copying downwards is right when the source is not inside the target. *)
Lemma move_down n i src dst m :
  (src <= dst \/ dst + Z.of_nat n <= src) ->
  0 <= src + i - Z.of_nat n + 1 -> src + i < len m -> 0 <= dst + i - Z.of_nat n + 1 -> dst + i < len m ->
  exists m', for_down n i (move src dst) m = Some m' /\ len m' = len m /\
    (forall k, i - Z.of_nat n < k <= i -> zget m' (dst + k) = zget m (src + k)) /\
    (forall k, k <= dst + i - Z.of_nat n \/ dst + i < k -> zget m' k = zget m k).
Proof.
  revert i m. induction n as [| n IH]; intros i m Ho H1 H2 H3 H4; cbn [for_down].
  { exists m. split_and!; try done; intros; lia. }
  unfold move at 2. destruct (zget_in m (src + i)) as [v Hv]; [lia |]. rewrite Hv. cbn.
  destruct (zset_some m (dst + i) v) as (m1 & -> & L1 & G1 & N1); [lia |]. cbn.
  destruct (IH (i - 1) m1) as (m' & Hm' & L' & Hin & Hout); try lia.
  exists m'. split_and!; [done | lia | |].
  - intros k Hk. destruct (decide (k = i)) as [-> | Hne].
    + rewrite Hout by lia. rewrite G1. done.
    + rewrite Hin by lia. apply N1. lia.
  - intros k Hk. rewrite Hout by lia. apply N1. lia.
Qed.

Lemma strlen_at m p s : str_at m p s -> strlen m p = Some (len s).
Proof. intros H. unfold strlen. apply getstr_str_at in H. by rewrite H. Qed.

(** A string put together from pieces in memory. *)
Lemma str_at_join m p s t :
  0 <= p -> Forall (fun c => c <> 0) s -> (forall i, 0 <= i < len s -> zget m (p + i) = zget s i) ->
  str_at m (p + len s) t -> str_at m p (s ++ t).
Proof.
  intros Hp Hs Hi (_ & Ht & Hj & H0). split_and!; [done | by apply Forall_app | |].
  - intros i Hr. destruct (decide (i < len s)).
    + rewrite zget_app_l by lia. apply Hi. lia.
    + rewrite len_app in Hr. rewrite zget_app_r by lia. rewrite <- Hj by lia. f_equal. lia.
  - rewrite len_app, Z.add_assoc. done.
Qed.

(** [strconc (a, b, c)] leaves [b] followed by [c] at [a] and changes
    nothing else, also when [a] is [b] or [c] itself (so that it prepends in
    place), as long as [b] is not otherwise overwritten and [c] does not
    start inside the place its copy ends in. *)
Theorem strconc_joins m a b c sb sc :
  str_at m b sb -> str_at m c sc -> 0 <= a -> a + len sb + len sc < len m ->
  (b = a \/ b + len sb <= a \/ a + len sb + len sc < b) ->
  (c <= a + len sb \/ a + len sb + len sc < c) ->
  exists m', strconc m a b c = Some m' /\ getstr m' a = Some (sb ++ sc) /\
    forall k, k < a \/ a + len sb + len sc < k -> zget m' k = zget m k.
Proof.
  intros Hb Hc Ha Hroom Hab Hac. pose proof (str_at_end _ _ _ Hb). pose proof (str_at_end _ _ _ Hc).
  unfold strconc. rewrite (strlen_at _ _ _ Hb), (strlen_at _ _ _ Hc). cbn. len_pos.
  destruct (move_down (Z.to_nat (len sc + 1)) (len sc) c (a + len sb) m) as (m1 & -> & L1 & In1 & Out1); try lia.
  cbn. destruct (move_up (Z.to_nat (len sb)) 0 b a m1) as (m2 & -> & L2 & In2 & Out2); try lia.
  eexists. split_and!; [done | | intros k Hk; rewrite Out2, Out1 by lia; done].
  apply getstr_str_at. apply str_at_join; [done | apply Hb | |].
  - intros i Hi. rewrite In2, Out1 by lia. by apply Hb.
  - destruct Hc as (_ & Hs & Hi & Hz). split_and!; [lia | done | |].
    + intros i Hr. rewrite Out2, In1 by lia. by apply Hi.
    + rewrite Out2, In1 by lia. done.
Qed.

(** The memory of the witnesses: a greeting at 0, a name at 10, a longer name
    at 20. *)
Definition sample_mem : list Z :=
  bytes "to Bob, " ++ [0; 0] ++ bytes "Bob" ++ zeros 7 ++ bytes "Alice" ++ zeros 15.

Ltac str_sample := apply getstr_str_at; vm_compute; reflexivity.

(** Prepending the greeting to the name in place. *)
Lemma strconc_joins_witness :
  exists m', strconc sample_mem 20 0 20 = Some m' /\ getstr m' 20 = Some (bytes "to Bob, Alice") /\
    forall k, k < 20 \/ 33 < k -> zget m' k = zget sample_mem k.
Proof.
  assert (H0 : str_at sample_mem 0 (bytes "to Bob, ")) by str_sample.
  assert (H1 : str_at sample_mem 20 (bytes "Alice")) by str_sample.
  apply (strconc_joins sample_mem 20 0 20 _ _ H0 H1); vm_compute; intuition discriminate.
Defined.

Lemma starts_with_prefixb t s : starts_with t s = prefixb t s.
Proof.
  revert s. induction t as [| d t IH]; intros s; [done |]. destruct s as [| c s]; [done |]. cbn.
  by rewrite IH, Z.eqb_sym.
Qed.

Lemma strindex_cindex s t : t <> [] -> strindex s t = cindex s 0 t.
Proof.
  intros Ht. unfold strindex, cindex. rewrite bool_decide_eq_false_2 by done.
  change (drop (Z.to_nat 0) s) with s. generalize 0. revert s. clear Ht.
  intros s. induction s as [| c s IH]; intros i; [done |].
  cbn [strindex_loop findsub]. by rewrite starts_with_prefixb, IH.
Qed.

(** The two loops of [stralter] that make room: the characters from [q] to
    the terminator move by [delta], the others up to there stay. *)
Lemma shift_tail m sss q n delta :
  0 <= q -> 0 <= sss -> q <= n -> sss + n < len m -> 0 <= sss + q + delta -> sss + n + delta < len m ->
  exists m1 m2,
    (if 0 <? delta then for_down (Z.to_nat (n - q + 1)) n (move sss (sss + delta)) m else Some m) = Some m1 /\
    (if delta <? 0 then for_up (Z.to_nat (n - q + 1)) q (move sss (sss + delta)) m1 else Some m1) = Some m2 /\
    len m2 = len m /\
    (forall k, q <= k <= n -> zget m2 (sss + delta + k) = zget m (sss + k)) /\
    (forall k, k < sss + q + delta \/ sss + n + delta < k -> zget m2 k = zget m k).
Proof.
  intros Hq Hs Hqn Hn H1 H2. destruct (Z.lt_total delta 0) as [Hd | [Hd | Hd]].
  - exists m. destruct (move_up (Z.to_nat (n - q + 1)) q sss (sss + delta) m) as (m2 & E & L & In & Out); try lia.
    exists m2. replace (0 <? delta) with false by lia. replace (delta <? 0) with true by lia.
    split_and!; try done; intros k Hk; [apply In; lia | apply Out; lia].
  - subst delta. exists m, m. cbn. split_and!; try done. intros k Hk. f_equal. lia.
  - destruct (move_down (Z.to_nat (n - q + 1)) n sss (sss + delta) m) as (m2 & E & L & In & Out); try lia.
    exists m2, m2. replace (0 <? delta) with true by lia. replace (delta <? 0) with false by lia.
    split_and!; try done; intros k Hk; [apply In; lia | apply Out; lia].
Qed.

Lemma zget_take {A} (s : list A) n i : i < n -> zget (take (Z.to_nat n) s) i = zget s i.
Proof.
  intros H. unfold zget. destruct (i <? 0) eqn:E; [done |]. apply lookup_take_lt. lia.
Qed.

Lemma zget_drop {A} (s : list A) n i : 0 <= n -> 0 <= i -> zget (drop (Z.to_nat n) s) i = zget s (n + i).
Proof.
  intros Hn Hi. unfold zget. replace (i <? 0) with false by lia. replace (n + i <? 0) with false by lia.
  rewrite lookup_drop. f_equal. lia.
Qed.

(** The tail of a string in memory is a string. *)
Lemma str_at_drop m p s n :
  str_at m p s -> 0 <= n <= len s -> str_at m (p + n) (drop (Z.to_nat n) s).
Proof.
  intros (Hp & Hs & Hi & H0) Hn. split_and!; [lia | by apply Forall_drop | |].
  - intros i Hr. rewrite len_drop in Hr. rewrite zget_drop by lia. rewrite <- Hi by lia. f_equal. lia.
  - rewrite len_drop, Z2Nat.id by lia. rewrite Z.max_r by lia. rewrite <- H0. f_equal. lia.
Qed.

Lemma stralter_found m sss old new s o w :
  str_at m sss s -> str_at m old o -> str_at m new w ->
  let r := cindex s 0 o in
  0 <= r -> sss + len s + (len w - len o) < len m ->
  (new + len w <= sss \/ sss + len s + Z.max 0 (len w - len o) < new) ->
  exists m', stralter m sss old new = Some (1, m') /\
    str_at m' sss (take (Z.to_nat r) s ++ w ++ drop (Z.to_nat (r + len o)) s) /\
    forall k, k < sss \/ sss + len s + Z.max 0 (len w - len o) < k -> zget m' k = zget m k.
Proof.
  intros Hs Ho Hw r Hr Hroom Hnew. pose proof (str_at_end _ _ _ Hs). pose proof (str_at_end _ _ _ Hw).
  assert (Hone : o <> []) by (intros ->; cbn in r; lia).
  destruct (cindex_range s 0 o) as [Hx | [Hrs Hpre]]; [lia | fold r in Hx; lia | fold r in Hrs, Hpre].
  apply prefixb_len in Hpre. rewrite len_drop in Hpre. len_pos.
  assert (0 < len o) by (destruct o; [done | rewrite len_cons; len_pos; lia]).
  unfold stralter. apply getstr_str_at in Hs as Gs. apply getstr_str_at in Ho as Go. apply getstr_str_at in Hw as Gw.
  rewrite Gs, Go, Gw. cbn. replace (len s =? 0) with false by lia. replace (len o =? 0) with false by lia. cbn.
  rewrite strindex_cindex by done. fold r. replace (r <? 0) with false by lia.
  destruct (shift_tail m sss (r + len o) (len s) (len w - len o)) as (m1 & m2 & -> & E2 & L2 & In2 & Out2); try lia.
  cbn. rewrite E2. cbn.
  destruct (move_up (length w) 0 new (sss + r) m2) as (m3 & -> & L3 & In3 & Out3); try (unfold len in *; lia).
  fold (len w) in *. exists m3. split; [done |]. split; [| intros k Hk; rewrite Out3, Out2 by lia; done].
  apply str_at_join; [lia | apply Forall_take; apply Hs | |].
  { intros i Hi. rewrite len_take in Hi. rewrite Out3, Out2, zget_take by lia. apply Hs. lia. }
  rewrite len_take, Z2Nat.id, Z.min_l by lia. apply str_at_join; [lia | apply Hw | |].
  { intros i Hi. rewrite In3, Out2 by lia. apply Hw. lia. }
  assert (Hd : str_at m (sss + (r + len o)) (drop (Z.to_nat (r + len o)) s)) by (apply str_at_drop; [done | lia]).
  destruct Hd as (_ & Hc & Hi & Hz). rewrite len_drop, Z2Nat.id in * by lia.
  split_and!; [lia | done | |].
  - intros i Hri. rewrite len_drop, Z2Nat.id in Hri by lia. rewrite Out3 by lia.
    rewrite <- Hi by lia. replace (sss + r + len w + i) with (sss + (len w - len o) + (r + len o + i)) by lia.
    rewrite In2 by lia. f_equal. lia.
  - rewrite len_drop, Z2Nat.id in * by lia. rewrite Out3 by lia.
    replace (sss + r + len w + Z.max 0 (len s - (r + len o))) with (sss + (len w - len o) + len s) by lia.
    rewrite In2 by lia. rewrite <- Hz. f_equal. lia.
Qed.

(** [stralter] replaces the first occurrence of [old] in [sss] by [new]
    in place, whether the text grows or shrinks, and returns 1; without an
    occurrence it returns 0 and writes nothing. *)
Theorem stralter_first m sss old new s o w :
  str_at m sss s -> str_at m old o -> str_at m new w ->
  sss + len s + (len w - len o) < len m ->
  (new + len w <= sss \/ sss + len s + Z.max 0 (len w - len o) < new) ->
  match alter_first s 0 o w with
  | None => stralter m sss old new = Some (0, m)
  | Some r => exists m', stralter m sss old new = Some (1, m') /\ getstr m' sss = Some r /\
      forall k, k < sss \/ sss + len s + Z.max 0 (len w - len o) < k -> zget m' k = zget m k
  end.
Proof.
  intros Hs Ho Hw Hroom Hnew. unfold alter_first. destruct (cindex s 0 o <? 0) eqn:E.
  - apply getstr_str_at in Hs. apply getstr_str_at in Ho. apply getstr_str_at in Hw.
    unfold stralter. rewrite Hs, Ho, Hw. cbn. destruct ((len s =? 0) || (len o =? 0)) eqn:E0; [done |].
    rewrite strindex_cindex by (intros ->; cbn in E0; rewrite orb_true_r in E0; done). by rewrite E.
  - destruct (stralter_found m sss old new s o w) as (m' & E1 & E2 & E3); try done; [lia |].
    exists m'. split_and!; [done | by apply getstr_str_at | done].
Qed.

Lemma stralter_first_witness :
  exists m', stralter sample_mem 0 10 20 = Some (1, m') /\ getstr m' 0 = Some (bytes "to Alice, ") /\
      forall k, k < 0 \/ 10 < k -> zget m' k = zget sample_mem k.
Proof.
  assert (H0 : str_at sample_mem 0 (bytes "to Bob, ")) by str_sample.
  assert (H1 : str_at sample_mem 10 (bytes "Bob")) by str_sample.
  assert (H2 : str_at sample_mem 20 (bytes "Alice")) by str_sample.
  apply (stralter_first sample_mem 0 10 20 _ _ _ H0 H1 H2); vm_compute; intuition discriminate.
Defined.

(** ** Lemmas: base 36 *)

Lemma reverse_loop_rev fuel u s v :
  (length s < fuel)%nat ->
  reverse_loop fuel (u ++ s ++ v) (len u) (len u + len s - 1) = Some (u ++ reverse s ++ v).
Proof.
  revert u s v. induction fuel as [| fuel IH]; intros u s v Hf; [lia |]. cbn [reverse_loop].
  destruct s as [| a s]; [cbn [len length]; replace (len u <? len u + len (@nil Z) - 1) with false; [done | symmetry; change (len (@nil Z)) with 0; lia] |].
  destruct s as [| b s _] using rev_ind.
  { rewrite len_cons, len_nil. replace (len u <? _) with false by lia. done. }
  rewrite len_cons, len_app, len_cons, len_nil. len_pos.
  replace (len u <? len u + (len s + (0 + 1) + 1) - 1) with true by lia.
  replace (len u + (len s + (0 + 1) + 1) - 1) with (len u + 1 + len s) by lia.
  assert (E : forall x y, u ++ (x :: s ++ [y]) ++ v = u ++ x :: s ++ y :: v) by (intros; by rewrite <- app_comm_cons, <- app_assoc).
  rewrite E. replace (reverse (a :: s ++ [b])) with (b :: reverse s ++ [a]) by (by rewrite reverse_cons, reverse_app).
  assert (Hget : zget (u ++ a :: s ++ b :: v) (len u) = Some a)
    by (rewrite zget_app_r, Z.sub_diag by lia; done).
  assert (Hset : forall x y t, zset (u ++ x :: t) (len u) y = Some (u ++ y :: t)).
  { intros x y t. unfold zset. rewrite len_app, len_cons. len_pos. replace (len u <? 0) with false by lia.
    replace (len u + (len t + 1) <=? len u) with false by lia. cbn. by rewrite insert_len_app. }
  assert (Hget2 : zget (u ++ a :: s ++ b :: v) (len u + 1 + len s) = Some b).
  { change (u ++ a :: s ++ b :: v) with (u ++ [a] ++ s ++ b :: v). rewrite !app_assoc, zget_app_r; rewrite !len_app, len_cons, len_nil; [| lia].
    replace (len u + 1 + len s - (len u + (0 + 1) + len s)) with 0 by lia. done. }
  assert (Hset2 : zset (u ++ b :: s ++ b :: v) (len u + 1 + len s) a = Some (u ++ b :: s ++ a :: v)).
  { unfold zset. rewrite len_app, len_cons, len_app, len_cons. len_pos.
    replace (len u + 1 + len s <? 0) with false by lia.
    replace (_ <=? len u + 1 + len s) with false by lia. cbn.
    replace (u ++ b :: s ++ b :: v) with ((u ++ b :: s) ++ b :: v) by (by rewrite <- app_assoc).
    replace (len u + 1 + len s) with (len (u ++ b :: s)) by zlen. rewrite insert_len_app.
    by rewrite <- app_assoc. }
  rewrite Hget. cbn. rewrite Hget2. cbn. rewrite Hset. cbn. rewrite Hset2. cbn.
  specialize (IH (u ++ [b]) s (a :: v)). rewrite len_app, len_cons, len_nil in IH.
  replace (u ++ b :: s ++ a :: v) with ((u ++ [b]) ++ s ++ a :: v) by (by rewrite <- app_assoc).
  replace (len u + 1) with (len u + (0 + 1)) by lia.
  rewrite IH by (rewrite length_cons, length_app in Hf; cbn in Hf; lia).
  by rewrite <- !app_assoc.
Qed.

(** The value of digits listed from the lowest. *)
Fixpoint value36 (l : list Z) : Z :=
  match l with [] => 0 | c :: l' => index_of c alphanums + 36 * value36 l' end.

Definition is_digit36 (c : Z) : Prop := exists j, 0 <= j < 36 /\ zget alphanums j = Some c.

Lemma index_of_digit j c : zget alphanums j = Some c -> index_of c alphanums = j /\ 0 <= j < 36.
Proof.
  intros H. pose proof (zget_range _ _ _ H) as Hr. change (len alphanums) with 36 in Hr. split; [| done].
  assert (Hall : Forall (fun i => forall d, zget alphanums i = Some d -> index_of d alphanums = i) (seqZ 0 36)).
  { vm_compute. repeat constructor; by intros ? [= <-]. }
  rewrite Forall_forall in Hall. apply (Hall j); [apply elem_of_seqZ; lia | done].
Qed.

Lemma digits36_spec fuel num :
  0 <= num < 36 ^ Z.of_nat fuel -> (0 < fuel)%nat ->
  exists l, digits36 fuel num = Some l /\ Forall is_digit36 l /\ value36 l = num /\
    1 <= len l /\ (num = 0 \/ 36 ^ (len l - 1) <= num) /\ num < 36 ^ len l.
Proof.
  revert num. induction fuel as [| fuel IH]; intros num Hn Hf; [lia |]. cbn [digits36].
  rewrite Nat2Z.inj_succ, Z.pow_succ_r in Hn by lia.
  rewrite Z.rem_mod_nonneg, Z.quot_div_nonneg by lia.
  pose proof (Z.mod_pos_bound num 36). pose proof (Z_div_mod_eq_full num 36).
  destruct (zget_in alphanums (num `mod` 36)) as [c Hc]; [change (len alphanums) with 36; lia |].
  pose proof (index_of_digit _ _ Hc) as [Hi _]. rewrite Hc. cbn.
  assert (Hd : is_digit36 c) by (exists (num `mod` 36); split; [lia | done]).
  destruct (0 <? num `div` 36) eqn:E.
  - destruct fuel as [| fuel]; [cbn in Hn; lia |].
    destruct (IH (num `div` 36)) as (l & -> & Hl & Hv & Hlen & Hlo & Hhi); [lia | lia |].
    exists (c :: l). cbn [value36]. rewrite Hv, Hi, len_cons. split_and!; [done | by constructor | lia | lia | |].
    + right. destruct Hlo as [? | Hlo]; [lia |]. replace (len l + 1 - 1) with (Z.succ (len l - 1)) by lia.
      rewrite Z.pow_succ_r by lia. lia.
    + replace (len l + 1) with (Z.succ (len l)) by lia. rewrite Z.pow_succ_r by lia. lia.
  - exists [c]. cbn [value36]. rewrite Hi. change (len [c]) with 1. split_and!; [done | by constructor | lia | lia | | lia].
    change (36 ^ (1 - 1)) with 1. lia.
Qed.

Lemma value36_app l k : value36 (l ++ k) = value36 l + 36 ^ len l * value36 k.
Proof.
  induction l as [| c l IH]; [cbn [app]; change (value36 []) with 0; change (36 ^ len []) with 1; lia |].
  rewrite <- app_comm_cons. cbn [value36]. rewrite IH, len_cons.
  replace (len l + 1) with (Z.succ (len l)) by lia. rewrite Z.pow_succ_r by zlen. ring.
Qed.

Lemma value36_zeros n : value36 (replicate n 48) = 0.
Proof. induction n as [| n IH]; [done |]. cbn [replicate value36]. rewrite IH. done. Qed.

Lemma value36_bounds l : Forall is_digit36 l -> 0 <= value36 l < 36 ^ len l.
Proof.
  induction 1 as [| c l (j & Hj & Hc) Hl IH]; [done |]. cbn [value36]. apply index_of_digit in Hc as [-> _].
  rewrite len_cons. replace (len l + 1) with (Z.succ (len l)) by lia. rewrite Z.pow_succ_r by zlen. lia.
Qed.

(** Reading digits from the highest. *)
Lemma read36_value l num :
  Forall is_digit36 l -> 0 <= num -> num * 36 ^ len l + value36 (reverse l) < 2 ^ 31 ->
  read36 l num = num * 36 ^ len l + value36 (reverse l).
Proof.
  intros Hl. revert num. induction Hl as [| c l (j & Hj & Hc) Hl IH]; intros num Hn Hb.
  { change (36 ^ len []) with 1. cbn. lia. }
  assert (Hclass : (47 <? c) && (c <? 58) || (64 <? c) && (c <? 91) = true).
  { assert (Hall : Forall (fun c => (47 <? c) && (c <? 58) || (64 <? c) && (c <? 91) = true) alphanums)
      by (vm_compute; repeat constructor).
    rewrite Forall_lookup in Hall. unfold zget in Hc. replace (j <? 0) with false in Hc by lia. eauto. }
  cbn [read36]. rewrite Hclass. apply index_of_digit in Hc as [Ei _]. rewrite Ei. replace (j =? 36) with false by lia.
  rewrite reverse_cons, value36_app, len_cons in Hb. rewrite reverse_cons, value36_app, len_cons.
  cbn [value36] in *. rewrite Ei in *.
  assert (El : len (reverse l) = len l) by (unfold len; by rewrite length_reverse). rewrite El in *.
  replace (len l + 1) with (Z.succ (len l)) in * by lia. rewrite Z.pow_succ_r in * by zlen.
  assert (Hp : 1 <= 36 ^ len l) by (pose proof (Z.pow_pos_nonneg 36 (len l)); len_pos; lia).
  assert (Hv : 0 <= value36 (reverse l)) by (apply value36_bounds; by apply Forall_reverse).
  assert (Hs : 36 * num + j < 2 ^ 31) by nia.
  rewrite (i32_small (36 * num)), i32_small by lia. rewrite IH by nia. ring.
Qed.

Lemma digit36_upper c : is_digit36 c -> (if cf_lower c then c - 32 else c) = c.
Proof.
  intros (j & Hj & Hc). assert (Hall : Forall (fun c => cf_lower c = false) alphanums) by (vm_compute; repeat constructor).
  rewrite Forall_lookup in Hall. unfold zget in Hc. replace (j <? 0) with false in Hc by lia.
  by rewrite (Hall _ _ Hc).
Qed.

Lemma map_upper_digits l : Forall is_digit36 l -> map (fun c => if cf_lower c then c - 32 else c) l = l.
Proof. induction 1 as [| c l Hc Hl IH]; [done |]. cbn [map]. by rewrite digit36_upper, IH. Qed.

(** A file number written by [strito36] is read back by [str36toi]; it
    has at least [len] digits, and exactly [len] when the number fits in
    them. *)
Theorem base36_roundtrip num len :
  0 <= num < 2 ^ 31 -> 0 < len ->
  exists s, strito36 num len = Some s /\ str36toi s = (s, num) /\ len <= Prelude.len s /\
    (num < 36 ^ len -> Prelude.len s = len).
Proof.
  intros Hn Hl. destruct (digits36_spec 32 num) as (l & E & Hd & Hv & H1 & Hlo & Hhi); [lia | lia |].
  unfold strito36. rewrite E. cbn [mbind option_bind].
  set (str := l ++ replicate (Z.to_nat len - length l) 48).
  assert (Hstr : Forall is_digit36 str).
  { apply Forall_app. split; [done |]. apply Forall_replicate. exists 0. split; [lia | done]. }
  assert (Hval : value36 str = num) by (unfold str; rewrite value36_app, value36_zeros; lia).
  assert (Hlen : Prelude.len str = Z.max len (Prelude.len l))
    by (unfold str, Prelude.len in *; rewrite length_app, length_replicate; lia).
  pose proof (reverse_loop_rev (S (length str)) [] str [] ltac:(lia)) as Hrev.
  rewrite !app_nil_r, !app_nil_l in Hrev. change (Prelude.len []) with 0 in Hrev.
  replace (0 + Prelude.len str - 1) with (Prelude.len str - 1) in Hrev by lia.
  exists (reverse str). split; [exact Hrev |].
  assert (El : Prelude.len (reverse str) = Prelude.len str) by (unfold Prelude.len; by rewrite length_reverse).
  rewrite El, Hlen. assert (Hr : Forall is_digit36 (reverse str)) by (by apply Forall_reverse).
  split_and!; [| lia |].
  - unfold str36toi. rewrite map_upper_digits by done. f_equal.
    rewrite read36_value; rewrite ?reverse_involutive, ?Hval; try done; lia.
  - intros Hfit. destruct Hlo as [-> | Hlo]; [| apply Z.max_l; apply Z.nlt_ge; intros Hc].
    + assert (l = [48]) as -> by (by injection E as <-). unfold Prelude.len. cbn. lia.
    + assert (36 ^ len <= 36 ^ (Prelude.len l - 1)) by (apply Z.pow_le_mono_r; lia). lia.
Qed.

Lemma base36_roundtrip_witness :
  exists s, strito36 4053 4 = Some s /\ str36toi s = (s, 4053) /\ 4 <= len s /\ (4053 < 36 ^ 4 -> len s = 4).
Proof. apply (base36_roundtrip 4053 4); lia. Defined.

(** ** Lemmas: tables and tokens *)

Definition blank_b : list Z := [32].

Lemma is_blank_32 c : is_blank blank_b c = (c =? 32).
Proof.
  unfold is_blank, blank_b. destruct (c =? 32) eqn:E; [apply bool_decide_eq_true_2; set_solver by lia |].
  apply bool_decide_eq_false_2. rewrite list_elem_of_singleton. lia.
Qed.

(** The index of the first word equal to [w], counting from [i]. *)
Fixpoint first_index (w : list Z) (ws : list (list Z)) (i : Z) : option Z :=
  match ws with
  | [] => None
  | v :: ws' => if bool_decide (v = w) then Some i else first_index w ws' (i + 1)
  end.

(** What the table search may return. *)
Definition table_answer (found : option Z) (r : option Z) : Prop :=
  exists z, r = Some z /\ match found with Some i => z = i | None => z < 0 end.

Section table.
Context (word : list Z) (Hword : Forall (fun c => c <> 32) word).

Let rest (i : Z) (sp : list Z) (which : Z) : option Z :=
  first_index word (map snd (words_from blank_b i sp).2) (which + 1).

Lemma table_loops sp :
  (forall fuel wp which i, (3 * length sp + 1 <= fuel)%nat ->
     table_answer (rest i sp which) (table_loop fuel word (mkTable SKIPWORD sp wp which))) /\
  (forall fuel wp which i, (3 * length sp + 2 <= fuel)%nat -> Forall (fun c => c <> 32) wp ->
     table_answer (if bool_decide ((words_from blank_b i sp).1 = wp) then Some which else rest i sp which)
       (table_loop fuel word (mkTable CHECKWORD sp wp which))) /\
  (forall fuel wp which i, (3 * length sp + 3 <= fuel)%nat ->
     table_answer (first_index word (map snd (words_at blank_b i sp)) (which + 1))
       (table_loop fuel word (mkTable BETWEEN sp wp which))).
Proof.
  induction sp as [| c sp (IHs & IHc & IHb)].
  { split_and!; intros fuel wp which i Hf; (destruct fuel as [| fuel]; [cbn in Hf; lia |]).
    - exists (-4). done.
    - intros _. destruct wp; [by exists which | by exists (-3)].
    - exists (-2). done. }
  assert (Hskip : forall fuel wp which i, (3 * length (c :: sp) + 1 <= fuel)%nat ->
     table_answer (rest i (c :: sp) which) (table_loop fuel word (mkTable SKIPWORD (c :: sp) wp which))).
  { intros fuel wp which i Hf. destruct fuel as [| fuel]; [cbn in Hf; lia |]. cbn [length] in Hf.
    cbn [table_loop table_step]. unfold rest. cbn [words_from].
    specialize (IHb fuel wp which (i + 1) ltac:(lia)). specialize (IHs fuel wp which (i + 1) ltac:(lia)).
    unfold words_at in IHb. unfold rest in IHs. destruct (words_from blank_b (i + 1) sp) as [w ws].
    rewrite is_blank_32. destruct (c =? 32); done. }
  assert (Hcheck : forall fuel wp which i, (3 * length (c :: sp) + 2 <= fuel)%nat -> Forall (fun c => c <> 32) wp ->
     table_answer (if bool_decide ((words_from blank_b i (c :: sp)).1 = wp) then Some which else rest i (c :: sp) which)
       (table_loop fuel word (mkTable CHECKWORD (c :: sp) wp which))).
  { intros fuel wp which i Hf Hwp. destruct fuel as [| fuel]; [cbn in Hf; lia |]. cbn [length] in Hf.
    cbn [table_loop table_step]. specialize (Hskip fuel wp which i ltac:(cbn [length]; lia)).
    unfold rest in *. cbn [words_from] in *.
    specialize (fun wp' => IHc fuel wp' which (i + 1) ltac:(lia)).
    destruct (words_from blank_b (i + 1) sp) as [w ws]. rewrite is_blank_32 in *.
    destruct wp as [| d wp]; destruct (c =? 32) eqn:E; cbn [fst snd] in *.
    - by exists which.
    - done.
    - apply Forall_cons in Hwp as [Hd _]. replace (c =? d) with false by lia. done.
    - apply Forall_cons in Hwp as [Hd Hwp]. destruct (c =? d) eqn:Ed.
      + apply Z.eqb_eq in Ed as ->. specialize (IHc wp Hwp).
        destruct (decide (w = wp)) as [-> | Hne].
        * rewrite bool_decide_eq_true_2 in IHc by done. by rewrite bool_decide_eq_true_2.
        * rewrite bool_decide_eq_false_2 in IHc by done. rewrite bool_decide_eq_false_2 by congruence. done.
      + rewrite bool_decide_eq_false_2; [done |]. intros [= ? ?]. lia. }
  split_and!; [done | done |]. intros fuel wp which i Hf. destruct fuel as [| fuel]; [cbn in Hf; lia |].
  cbn [length] in Hf. cbn [table_loop table_step]. unfold words_at.
  specialize (IHb fuel wp which (i + 1) ltac:(lia)).
  specialize (Hcheck fuel word (which + 1) i ltac:(cbn [length]; lia) Hword).
  unfold rest, words_at in *. cbn [words_from] in *. destruct (words_from blank_b (i + 1) sp) as [w ws].
  rewrite is_blank_32 in *. destruct (c =? 32) eqn:E; [done |].
  cbn [fst snd] in Hcheck. rewrite (bool_decide_eq_false_2 (c :: w = [])) by done. cbn [map first_index snd]. done.
Qed.
End table.

(** [strtable] always comes to an end; the value it returns is the
    number (from 0) of the first word of the table that is equal to the word
    searched for, and is negative when there is none. *)
Theorem strtable_finds table word :
  word <> [] -> Forall (fun c => c <> 32) word ->
  exists r, strtable table word = Some r /\
    match first_index word (map snd (words [32] table)) 0 with
    | Some i => r = i
    | None => r < 0
    end.
Proof.
  intros Hne Hw. unfold strtable. destruct table as [| c table]; [by exists (-1) |].
  destruct word as [| d word]; [done |].
  destruct (table_loops (d :: word) Hw (c :: table)) as (_ & _ & Hb).
  exact (Hb (3 * length (c :: table) + 3)%nat (d :: word) (-1) 0 ltac:(lia)).
Qed.

Lemma strtable_finds_witness :
  exists r, strtable (bytes "add  adds added") (bytes "added") = Some r /\ r = 2.
Proof. apply (strtable_finds (bytes "add  adds added") (bytes "added")); [done | vm_compute; repeat constructor; done]. Defined.

Lemma token_loop_spec line pos i start buf :
  Forall (fun pw => len pw.2 < 300) (words_from blank_b i line).2 ->
  (len (words_from blank_b i line).1 < 300 ->
    token_loop pos line i start true buf = Some (words_at blank_b i line !! Z.to_nat (pos - 1))) /\
  (len buf + len (words_from blank_b i line).1 < 300 ->
    token_loop pos line i start false buf =
    Some (if pos <=? 1 then Some (start, buf ++ (words_from blank_b i line).1)
          else (words_from blank_b i line).2 !! Z.to_nat (pos - 2))).
Proof.
  revert pos i start buf. induction line as [| c line IH]; intros pos i start buf; unfold words_at;
    cbn [words_from token_loop fst snd].
  { intros _. split; intros Hb; [done |]. rewrite len_nil in Hb. replace (300 <=? len buf) with false by lia.
    replace (pos - 1 <=? 0) with (pos <=? 1) by lia. rewrite app_nil_r. by destruct (pos <=? 1). }
  pose proof (fun pos st bf => IH pos (i + 1) st bf) as IH'. unfold words_at in IH'.
  destruct (words_from blank_b (i + 1) line) as [w ws]. cbn [fst snd] in IH'. rewrite is_blank_32.
  destruct (c =? 32) eqn:E; cbn [fst snd]; intros Hws.
  - assert (Hall : Forall (fun pw => len pw.2 < 300) ws /\ len w < 300).
    { case_bool_decide as Ew; [subst; by rewrite len_nil | by apply Forall_cons in Hws as [? ?]]. }
    destruct Hall as [Hall Hw]. split; intros Hb.
    + by apply IH'.
    + rewrite len_nil in Hb. replace (300 <=? len buf) with false by lia.
      replace (pos - 1 <=? 0) with (pos <=? 1) by lia. destruct (pos <=? 1); [by rewrite app_nil_r |].
      destruct (IH' (pos - 1) start buf Hall) as [-> _]; [| done]. by replace (pos - 1 - 1) with (pos - 2) by lia.
  - rewrite (bool_decide_eq_false_2 (c :: w = [])) by done. rewrite len_cons. split; intros Hb.
    + destruct (IH' pos i [c] Hws) as [_ ->]; [| rewrite len_cons, len_nil; lia].
      destruct (pos <=? 1) eqn:Ep; [by replace (Z.to_nat (pos - 1)) with 0%nat by lia |].
      by replace (Z.to_nat (pos - 1)) with (S (Z.to_nat (pos - 2))) by lia.
    + len_pos. replace (300 <=? len buf) with false by lia.
      destruct (IH' pos start (buf ++ [c]) Hws) as [_ ->]; [by rewrite <- app_assoc | rewrite len_app, len_cons, len_nil; lia].
Qed.

(** On a line whose words have fewer than 300 characters (the size of
    its buffer), [strtoken] gives the word numbered [pos] (from 1; any smaller
    number means the first) with its position, and a null pointer when the
    line has fewer words. *)
Theorem strtoken_word pos line :
  Forall (fun pw => len pw.2 < 300) (words [32] line) ->
  strtoken pos line = Some (words [32] line !! Z.to_nat (pos - 1)).
Proof.
  unfold words, words_at. fold blank_b. intros H.
  destruct (token_loop_spec line pos 0 0 []) as [Ht _].
  - destruct (words_from blank_b 0 line) as [w ws]. case_bool_decide; [done | by apply Forall_cons in H as [_ ?]].
  - apply Ht. destruct (words_from blank_b 0 line) as [w ws]. case_bool_decide; [subst; cbn [fst]; rewrite len_nil; lia | by apply Forall_cons in H as [? _]].
Qed.

Lemma strtoken_word_witness :
  strtoken 2 (bytes " show  item 7") = Some (words [32] (bytes " show  item 7") !! 1%nat).
Proof. apply (strtoken_word 2 (bytes " show  item 7")). vm_compute. repeat constructor. Defined.

(** A longer word is written past the end of the buffer. *)
Example strtoken_overflow : strtoken 1 (replicate 300 97) = None.
Proof. vm_compute. reflexivity. Qed.

(** ** Lemmas: unescaping in place *)

(** The text with its [%xx] sequences decoded. *)
Fixpoint unescape (s : list Z) : list Z :=
  match s with
  | [] => []
  | c :: s' =>
      if negb (c =? 37) then c :: unescape s'
      else match s' with
           | h :: l :: s'' => Z.land (strtol16 [h; l]) 255 :: unescape s''
           | _ => c :: unescape s'
           end
  end.

Lemma str_at_nil m p : str_at m p [] -> zget m p = Some 0.
Proof. intros (_ & _ & _ & H). by rewrite len_nil, Z.add_0_r in H. Qed.

Lemma str_at_cons m p c s : str_at m p (c :: s) -> zget m p = Some c /\ c <> 0 /\ str_at m (p + 1) s.
Proof.
  intros H. pose proof (str_at_drop m p (c :: s) 1 H ltac:(zlen)) as Hd.
  destruct H as (Hp & Hs & Hi & _). apply Forall_cons in Hs as [Hc _]. split_and!; [| done | exact Hd].
  specialize (Hi 0 ltac:(zlen)). by rewrite Z.add_0_r in Hi.
Qed.

(** [u] and a terminator are at [t], the rest of the memory is unchanged. *)
Definition written (m m' : list Z) (t : Z) (u : list Z) : Prop :=
  len m' = len m /\ (forall i, 0 <= i < len u -> zget m' (t + i) = zget u i) /\
  zget m' (t + len u) = Some 0 /\ forall k, k < t \/ t + len u < k -> zget m' k = zget m k.

Lemma written_cons m m1 m' t v u :
  len m1 = len m -> zget m1 t = Some v -> (forall k, k <> t -> zget m1 k = zget m k) ->
  written m1 m' (t + 1) u -> written m m' t (v :: u).
Proof.
  intros L1 G1 N1 (L & Hi & H0 & Hk). len_pos. split_and!; [lia | | |]; rewrite ?len_cons.
  - intros i Hr. destruct (decide (i = 0)) as [-> | Hne].
    + rewrite Z.add_0_r, Hk, G1 by lia. done.
    + replace (t + i) with (t + 1 + (i - 1)) by lia. rewrite Hi by lia.
      unfold zget. replace (i - 1 <? 0) with false by lia. replace (i <? 0) with false by lia.
      replace (Z.to_nat i) with (S (Z.to_nat (i - 1))) by lia. done.
  - replace (t + (len u + 1)) with (t + 1 + len u) by lia. done.
  - intros k Hr. rewrite Hk by lia. apply N1. lia.
Qed.

Lemma unescape_loop_spec fuel m s t str :
  (length str < fuel)%nat -> str_at m s str -> 0 <= t <= s ->
  exists m', unescape_loop fuel m s t = Some m' /\ written m m' t (unescape str).
Proof.
  revert m s t str. induction fuel as [| fuel IH]; intros m s t str Hf Hs Ht; [lia |].
  pose proof (str_at_end _ _ _ Hs) as Hend. len_pos. cbn [unescape_loop].
  assert (Hstep : forall v s1 str1, (length str1 < fuel)%nat -> str_at m s1 str1 -> s + 1 <= s1 ->
    exists m', (m1 ← zset m t v; unescape_loop fuel m1 s1 (t + 1)) = Some m' /\ written m m' t (v :: unescape str1)).
  { intros v s1 str1 Hl H1 Hs1. destruct (zset_some m t v) as (m1 & -> & L1 & G1 & N1); [lia |]. cbn.
    destruct (IH m1 s1 (t + 1) str1) as (m' & E & W); [done | | lia |].
    - eapply str_at_frame; [done |]. intros k Hk. apply N1. lia.
    - exists m'. split; [done |]. by eapply written_cons. }
  destruct str as [| c str].
  { apply str_at_nil in Hs as ->. cbn. destruct (zset_some m t 0) as (m1 & -> & L1 & G1 & N1); [lia |].
    exists m1. split; [done |]. unfold written. change (unescape []) with (@nil Z). change (len (@nil Z)) with 0.
    rewrite Z.add_0_r. split_and!; [done | lia | done |]. intros k Hk. apply N1. lia. }
  cbn [length] in Hf. apply str_at_cons in Hs as (-> & Hc & Hs). cbn. replace (c =? 0) with false by lia.
  destruct (c =? 37); cbn; [| by apply Hstep; [lia | |]].
  destruct str as [| h str]; [apply str_at_nil in Hs as Hz; rewrite Hz; cbn;
    apply (Hstep c (s + 1) []); [cbn in *; lia | done | lia] |].
  apply str_at_cons in Hs as Hh. destruct Hh as (-> & Hh & Hs1). cbn. replace (h =? 0) with false by lia.
  destruct str as [| l str].
  { apply str_at_nil in Hs1 as Hz. replace (s + 1 + 1) with (s + 2) in Hz by lia. rewrite Hz. cbn.
    apply (Hstep c (s + 1) [h]); [cbn in *; lia | done | lia]. }
  apply str_at_cons in Hs1 as (Hl & Hln & Hs2). replace (s + 1 + 1) with (s + 2) in * by lia. rewrite Hl. cbn.
  replace (l =? 0) with false by lia. cbn [length] in Hf. replace (s + 2 + 1) with (s + 3) in Hs2 by lia.
  by apply Hstep; [lia | | lia].
Qed.

Lemma strunescape_spec m p s :
  str_at m p s -> exists m', strunescape m p = Some m' /\ written m m' p (unescape s).
Proof.
  intros H. pose proof (str_at_end _ _ _ H). apply unescape_loop_spec; [unfold len in *; lia | done | lia].
Qed.

(** A string written without zeros is a string. *)
Lemma written_str_at m m' p u :
  0 <= p -> Forall (fun c => c <> 0) u -> written m m' p u -> str_at m' p u.
Proof. intros Hp Hu (_ & Hi & H0 & _). by split_and!. Qed.

(** ** License strings and sequence numbers *)

Lemma lxor_cancel a b : Z.lxor (Z.lxor a b) b = a.
Proof. by rewrite Z.lxor_assoc, Z.lxor_nilpotent, Z.lxor_0_r. Qed.

(** [strplain] undoes itself on license strings of at most 16 characters
    that never agree with the mask; the encrypted text then has no zero byte
    in it, so it is a C string of the same length. *)
Theorem strplain_involutive s :
  len s <= 16 -> Forall2 (fun c k => c <> k) s (take (length s) PLAIN_ENC_STR) ->
  strplain (strplain s) = s /\ Forall (fun c => c <> 0) (strplain s) /\ len (strplain s) = len s.
Proof.
  intros Hl Hk. unfold strplain. assert (Hle : (length s <= length PLAIN_ENC_STR)%nat) by (unfold len in Hl; cbn; lia).
  clear Hl. revert Hk Hle. generalize PLAIN_ENC_STR. induction s as [| c s IH]; intros key Hk Hle; [done |].
  destruct key as [| k key]; [cbn in Hle; lia |]. cbn [length take] in Hk. apply Forall2_cons in Hk as [Hc Hk].
  cbn [length] in Hle. destruct (IH key Hk ltac:(lia)) as (E1 & E2 & E3). cbn [zip_with]. split_and!.
  - by rewrite lxor_cancel, E1.
  - constructor; [| done]. intros E0. apply Z.lxor_eq in E0. done.
  - rewrite !len_cons. lia.
Qed.

Lemma strplain_involutive_witness :
  strplain (strplain (bytes "Caucus")) = bytes "Caucus" /\
  Forall (fun c => c <> 0) (strplain (bytes "Caucus")) /\ len (strplain (bytes "Caucus")) = 6.
Proof. apply (strplain_involutive (bytes "Caucus")); vm_compute; [discriminate | repeat constructor; discriminate]. Defined.

Lemma increment_mod x m : 0 < m < 2 ^ 29 -> 0 <= x < m -> increment x m = (x + 1) `mod` m.
Proof.
  intros Hm Hx. unfold increment. rewrite (i32_small (x + m)), i32_small by lia.
  rewrite Z.rem_mod_nonneg by lia. replace (x + m + 1) with (x + 1 + 1 * m) by lia. apply Z_mod_plus_full.
Qed.

Lemma iter_increment b m k :
  0 < m < 2 ^ 29 -> 0 <= b < m ->
  Nat.iter k (fun x => increment x m) b = (b + Z.of_nat k) `mod` m.
Proof.
  intros Hm Hb. induction k as [| k IH]; [cbn; rewrite Z.add_0_r, Z.mod_small; lia |].
  rewrite Nat.iter_succ. pose proof (Z.mod_pos_bound (b + Z.of_nat k) m).
  rewrite IH, increment_mod by lia. rewrite Zplus_mod_idemp_l. f_equal. lia.
Qed.

Lemma greater_than_window a b m :
  0 < m < 2 ^ 29 -> 0 <= a < m -> 0 <= b < m ->
  greater_than a b m = bool_decide (0 < (a - b) `mod` m < m `div` 2).
Proof.
  intros Hm Ha Hb. unfold greater_than. rewrite Z.quot_div_nonneg by lia.
  pose proof (Z_div_mod_eq_full m 2). pose proof (Z.mod_pos_bound m 2).
  rewrite !i32_small by lia. apply eq_bool_prop_intro. rewrite Is_true_true, Is_true_true, bool_decide_eq_true.
  destruct (decide (b <= a)).
  - rewrite (Z.mod_small (a - b)) by lia. lia.
  - replace ((a - b) `mod` m) with (a - b + m); [lia |].
    apply (Z.mod_unique_pos _ _ (-1)); lia.
Qed.

(** Sequence numbers count modulo [m].  A number reached from [b] by
    [k] increments is greater than [b] exactly when [k], modulo [m], is less
    than half the modulus, and two numbers are never greater than each other. *)
Theorem sequence_order b m k :
  0 < m < 2 ^ 29 -> 0 <= b < m ->
  let a := Nat.iter k (fun x => increment x m) b in
  0 <= a < m /\
  (greater_than a b m = true <-> 0 < Z.of_nat k `mod` m < m `div` 2) /\
  (greater_than a b m = true -> greater_than b a m = false).
Proof.
  intros Hm Hb a. assert (Ea : a = (b + Z.of_nat k) `mod` m) by (by apply iter_increment).
  assert (Ha : 0 <= a < m) by (rewrite Ea; apply Z.mod_pos_bound; lia). split; [done |].
  rewrite !greater_than_window, !bool_decide_eq_true, bool_decide_eq_false by lia.
  assert (Ed : (a - b) `mod` m = Z.of_nat k `mod` m).
  { rewrite Ea, Zminus_mod_idemp_l. f_equal. lia. }
  rewrite Ed. split; [done |]. intros Hw. assert (Eo : (b - a) `mod` m = m - Z.of_nat k `mod` m).
  { rewrite <- Ed. replace (b - a) with (- (a - b)) by lia. apply Z.mod_opp_l_nz; lia. }
  pose proof (Z_div_mod_eq_full m 2). pose proof (Z.mod_pos_bound m 2). lia.
Qed.

Lemma sequence_order_witness :
  let a := Nat.iter 5 (fun x => increment x 1679616) 1679614 in
  0 <= a < 1679616 /\
  (greater_than a 1679614 1679616 = true <-> 0 < Z.of_nat 5 `mod` 1679616 < 1679616 `div` 2) /\
  (greater_than a 1679614 1679616 = true -> greater_than 1679614 a 1679616 = false).
Proof. apply (sequence_order 1679614 1679616 5); lia. Defined.

(** ** Numbers *)

Lemma cf_digit_DIGIT c : cf_digit c = DIGIT c.
Proof. done. Qed.

(** What a string that follows a number may start with. *)
Definition no_digit_first (t : list Z) : Prop := forall c, head t = Some c -> cf_digit c = false.

Lemma scan_digits_app d t r :
  Forall (fun c => cf_digit c = true) d -> no_digit_first t ->
  scan_digits (d ++ t) r = (foldl (fun r c => i32 (i32 (10 * r) + (c - 48))) r d, t).
Proof.
  intros Hd Ht. revert r. induction Hd as [| c d Hc Hd IH]; intros r.
  - destruct t as [| c t]; [done |]. cbn. by rewrite (Ht c).
  - cbn [app scan_digits foldl]. rewrite Hc. apply IH.
Qed.

Lemma skip_spaces_app n s : (forall c, head s = Some c -> c <> 32) -> skip_spaces (replicate n 32 ++ s) = s.
Proof.
  intros Hs. induction n as [| n IH]; [| done]. destruct s as [| c s]; [done |]. cbn.
  specialize (Hs c eq_refl). by replace (c =? 32) with false by lia.
Qed.

Lemma cf_digit_range c : cf_digit c = true -> 48 <= c <= 57.
Proof. unfold cf_digit. lia. Qed.

(** [strnum] reads an optionally negative decimal number after any
    number of blanks, whatever follows it. *)
Theorem strnum_decimal n (neg : bool) d t :
  d <> [] -> Forall (fun c => cf_digit c = true) d -> dec_value d < 2 ^ 31 -> no_digit_first t ->
  strnum (replicate n 32 ++ (if neg then [45] else []) ++ d ++ t) =
  (1, Some (if neg then - dec_value d else dec_value d)).
Proof.
  intros Hne Hd Hv Ht. destruct d as [| c d]; [done |]. pose proof Hd as Hd'. apply Forall_cons in Hd' as [Hc _].
  pose proof (cf_digit_range c Hc) as Hr. unfold strnum, skip_blanks.
  rewrite skip_spaces_app by (destruct neg; cbn; intros ? [= <-]; lia).
  assert (Hscan : strscan (Some ((c :: d) ++ t)) = (dec_value (c :: d), Some t)).
  { unfold strscan, skip_blanks. pose proof (skip_spaces_app 0 ((c :: d) ++ t)) as Hsk.
    cbn [app replicate] in Hsk |- *. rewrite Hsk by (intros ? [= <-]; lia). rewrite Hc. change (c :: d ++ t) with ((c :: d) ++ t). rewrite scan_digits_app by done.
    fold (dec_value32 (c :: d)). by rewrite dec_value32_exact. }
  assert (Hneq : t <> (c :: d) ++ t) by (intros E; apply (f_equal length) in E; rewrite length_app in E; cbn in E; lia).
  assert (H0 : 0 <= dec_value (c :: d)) by (by apply dec_value_nonneg).
  destruct neg; cbn [app].
  - change (45 =? 45) with true. cbv beta iota zeta. change (c :: d ++ t) with ((c :: d) ++ t).
    rewrite Hscan, bool_decide_eq_false_2, i32_small by (done || lia). done.
  - replace (c =? 45) with false by lia. cbv beta iota zeta. change (c :: d ++ t) with ((c :: d) ++ t).
    rewrite Hscan, bool_decide_eq_false_2 by done. done.
Qed.

Lemma strnum_decimal_witness : strnum (bytes "  -42 items") = (1, Some (-42)).
Proof.
  apply (strnum_decimal 2 true (bytes "42") (bytes " items")); [done | vm_compute; repeat constructor | done |].
  by intros ? [= <-].
Defined.
