(* ===== verification/Html.v ===== *)
(** Filters of the CML interpreter that encode text for the web (src/CV2/sweb:
    urlEncode.c, cencode.c, funcxmlesc.c, funct2hbr.c, funct2esc.c,
    funcescq.c, funcescs.c, quoter.c, commalist.c, itemtuplet.c, strnamva.c).

    A Chix argument is its text, and a filter gives the text it appends to
    its result.  Calls of the Chix library are the functions on texts that
    ChixEdit, ChixSearch and ChixParse prove of them: [cval] for [chxvalue],
    [replace_all] for [chxreplace], [repval] for [chxrepval],
    [nextword_result] for [chxnextword], [token_result] for [chxtoken]; a
    loop over the characters up to the terminator is a map over the text. *)
From S2P Require Import Prelude Memory Chix ChixEdit ChixSearch ChixParse Str.

(** ** Definitions *)

(** [sprintf "%02x"] of a byte, and [sprintf "%x"]. *)
Definition hexchar (d : Z) : Z := if d <? 10 then 48 + d else 87 + d.
Definition hex02 (v : Z) : list Z := [hexchar (v `div` 16); hexchar (v `mod` 16)].
Definition hexx (v : Z) : list Z := if v <? 16 then [hexchar v] else hex02 v.

Definition isalnum (c : Z) : bool :=
  (48 <=? c) && (c <=? 57) || (65 <=? c) && (c <=? 90) || (97 <=? c) && (c <=? 122).

Definition url_char (val : Z) : list Z :=
  if isalnum val || (val =? 45) || (val =? 95) || (val =? 46) || (val =? 126) then [val]
  else 37 :: hex02 val.

(** What [urlEncode] leaves in [outChix]. *)
Definition urlEncode (inChix : list Z) : list Z := flat_map url_char inChix.

(** [cencode], with its static [coded], set by the first call for good. *)
Definition cencode (coded : option (list Z)) (cval : Z) (arg : list Z) : option (list Z) * list Z :=
  let code := default (37 :: hex02 cval) coded in
  (Some code, flat_map (fun cv => if cv =? cval then code else [cv]) arg).

Definition xml_char (cval : Z) : list Z :=
  if cval =? 38 then bytes "&amp;"
  else if cval =? 60 then bytes "&lt;"
  else if cval =? 62 then bytes "&gt;"
  else if (cval =? 10) || (cval =? 9) then [cval]
  else if cval <? 32 then bytes "&#xE0" ++ hex02 cval ++ bytes ";"
  else if 126 <? cval then bytes "&#x" ++ hexx cval ++ bytes ";"
  else [cval].

Definition func_xmlesc (arg : list Z) : list Z := flat_map xml_char arg.

Definition hbr_char (value : Z) : list Z :=
  if value =? 10 then bytes "<BR>" ++ [10]
  else if value =? 60 then bytes "&lt;"
  else if value =? 62 then bytes "&gt;"
  else if value =? 38 then bytes "&amp;"
  else if value =? 34 then bytes "&quot;"
  else if value =? 1 then bytes "<B>"
  else if value =? 2 then bytes "</B>"
  else [value].

Definition func_t2hbr (arg : list Z) : list Z := flat_map hbr_char arg.

(** [chxreplace (temp, 0, b, c)]: without an occurrence the text stays. *)
Definition replaced (temp b c : list Z) : list Z := default temp (replace_all temp 0 b c).

Definition func_t2esc (arg : list Z) : list Z :=
  let temp := arg in
  let temp := replaced temp (bytes "&") (bytes "&amp;") in
  let temp := replaced temp (bytes "<") (bytes "&lt;") in
  replaced temp (bytes ">") (bytes "&gt;").

Definition func_escquote (arg : list Z) : list Z := replaced arg [34] (bytes "&quot;").

(** The character after a backslash is copied with it; at the end of the text
    that is the terminator. *)
Fixpoint func_escsingle (arg : list Z) : list Z :=
  match arg with
  | [] => []
  | c :: rest =>
      if c =? 39 then 92 :: 39 :: func_escsingle rest
      else if c =? 10 then 92 :: 110 :: func_escsingle rest
      else if c =? 13 then 92 :: 114 :: func_escsingle rest
      else if c =? 92 then match rest with d :: rest' => 92 :: d :: func_escsingle rest' | [] => [92; 0] end
      else c :: func_escsingle rest
  end.

(** [quoter]: the blanks of [chxspecial], as far as there are codes. *)
Definition ispace : list Z := [1; 2; 3; 4; 5; 6; 15; 16; 17; 18; 19; 20; 21; 22; 23; 24; 25; 26].
Definition bspace (blanks : list Z) : list (Z * Z) := zip blanks ispace.

Definition quote (blanks arg : list Z) : list Z :=
  foldl (fun result '(b, i) => repval result 0 b i) arg (bspace blanks).
Definition unquote (blanks arg : list Z) : list Z :=
  foldl (fun result '(b, i) => repval result 0 i b) arg (bspace blanks).

(** [jixreduce] on a text of one byte a character. *)
Definition jixreduce (s : list Z) : list Z :=
  map (fun c => if (65 <=? c) && (c <=? 90) then c - 65 + 97 else c) s.

(** [commaList]: the loop over the words from [pos] on. *)
Fixpoint comma_loop (fuel : nat) (B arg : list Z) (quoted : bool) (count pos : Z) : option (list Z) :=
  match fuel with
  | O => None
  | S fuel' =>
      let '(r, word, pos) := nextword_result B arg pos in
      if r <? 0 then Some []
      else
        let item := if quoted then [39] ++ func_escsingle word ++ [39] else word in
        (fun rest => (if 0 <? count then [44] else []) ++ item ++ rest)
          <$> comma_loop fuel' B arg quoted (count + 1) pos
  end.

Definition commaList (B arg : list Z) : option (list Z) :=
  let '(r, word, pos) := nextword_result B arg 0 in
  if r <? 0 then Some [] else
  let quoted := cval (jixreduce word) 0 =? 115 in
  comma_loop (S (length arg)) B arg quoted 0 pos.

(** [item_tuplet]: the six numbers up to the first that starts with a 0. *)
Fixpoint tuplet_loop (n : nat) (B arg : list Z) (i : Z) : list Z :=
  match n with
  | O => []
  | S n' =>
      let '(r, temp) := token_result B i arg in
      if r <? 0 then [] else if cval temp 0 =? 48 then []
      else (if 1 <? i then [46] else []) ++ temp ++ tuplet_loop n' B arg (i + 1)
  end.

Definition item_tuplet (B arg : list Z) : list Z := tuplet_loop 6 B arg 1.

(** [str_nam_value]: whether the pair was found, and [value].  The buffer for
    the name, the equals sign and the quote has 200 bytes. *)
Definition str_nam_value (name text : list Z) : option (Z * list Z) :=
  if 200 <=? len name + 2 then None else
  let find := name ++ [61; 34] in
  let pos := strindex text find in
  if pos <? 0 then Some (0, []) else
  let l := strindex (drop (Z.to_nat (pos + len find)) text) [34] in
  if l <? 0 then Some (0, []) else
  Some (1, take (Z.to_nat l) (drop (Z.to_nat (pos + len find)) text)).

(** ** Codes *)

(** A code of single characters that can be read back: no code word is empty
    or the beginning of another. *)
Definition prefix_free (code : Z -> list Z) : Prop :=
  forall a b, is_char a -> is_char b -> code a <> [] /\ (prefixb (code a) (code b) = true -> a = b).

Definition chars : list Z := seqZ 1 255.

Lemma elem_of_chars c : c ∈ chars <-> is_char c.
Proof. unfold chars, is_char. rewrite elem_of_seqZ. lia. Qed.

(** A boolean property of all characters, by evaluation. *)
Lemma all_chars (f : Z -> bool) : forallb f chars = true -> forall c, is_char c -> f c = true.
Proof. rewrite forallb_forall. intros H c Hc. apply H, list_elem_of_In, elem_of_chars, Hc. Qed.

(** The decision over all pairs of characters. *)
Definition prefix_free_b (code : Z -> list Z) : bool :=
  forallb (fun a => negb (bool_decide (code a = [])) &&
    forallb (fun b => negb (prefixb (code a) (code b)) || (a =? b)) chars) chars.

Lemma prefix_free_b_spec code : prefix_free_b code = true -> prefix_free code.
Proof.
  unfold prefix_free_b. rewrite forallb_forall. intros H a b Ha Hb.
  apply elem_of_chars, list_elem_of_In in Ha, Hb. specialize (H a Ha). apply andb_prop in H as [H1 H2].
  split; [by apply negb_true_iff, bool_decide_eq_false in H1 |]. rewrite forallb_forall in H2.
  specialize (H2 b Hb). intros Hp. rewrite Hp in H2. cbn in H2. lia.
Qed.

Lemma prefix_free_injective code s t :
  prefix_free code -> Forall is_char s -> Forall is_char t ->
  flat_map code s = flat_map code t -> s = t.
Proof.
  intros Hc Hs. revert t. induction Hs as [| a s Ha Hs IH]; intros t Ht E.
  - destruct Ht as [| b t Hb _]; [done |]. cbn in E. destruct (Hc b b Hb Hb) as [Hn _].
    by destruct (code b).
  - destruct Ht as [| b t Hb Ht]; cbn in E; [destruct (Hc a a Ha Ha) as [Hn _]; by destruct (code a) |].
    assert (Hp : code a `prefix_of` code b \/ code b `prefix_of` code a).
    { apply (prefix_weak_total _ _ (code b ++ flat_map code t)); [rewrite <- E |]; by eexists. }
    assert (a = b) as ->.
    { destruct Hp as [Hp | Hp]; apply prefixb_spec in Hp; [by apply (Hc a b) | symmetry; by apply (Hc b a)]. }
    apply app_inv_head in E. f_equal. by apply IH.
Qed.

(** ** Encoding for links *)

Lemma strtol16_hex v : is_char v -> Z.land (strtol16 (hex02 v)) 255 = v.
Proof.
  intros H. apply Z.eqb_eq. revert v H.
  apply (all_chars (fun v => Z.land (strtol16 (hex02 v)) 255 =? v)). vm_compute. reflexivity.
Qed.

Lemma url_char_cases v :
  is_char v -> (url_char v = [v] /\ v <> 37) \/ url_char v = 37 :: hex02 v.
Proof. intros _. unfold url_char, isalnum. case_match eqn:E; [left | by right]. split; [done |]. intros ->. done. Qed.

Lemma unescape_url s : Forall is_char s -> unescape (urlEncode s) = s.
Proof.
  induction 1 as [| c s Hc Hs IH]; [done |]. unfold urlEncode in *. cbn [flat_map].
  destruct (url_char_cases c Hc) as [[-> Hn] | ->].
  - cbn. replace (c =? 37) with false by lia. cbn. by rewrite IH.
  - cbn [app unescape hex02]. change (37 =? 37) with true. cbn [negb]. fold (hex02 c). by rewrite strtol16_hex, IH.
Qed.

(** The characters of an encoded text that are not part of a percent code. *)
Definition url_safe (c : Z) : bool := isalnum c || (c =? 45) || (c =? 95) || (c =? 46) || (c =? 126) || (c =? 37).

Lemma url_code_safe c : is_char c -> Forall (fun d => url_safe d = true /\ d <> 0) (url_char c).
Proof.
  intros H. assert (Hall : forallb (fun d => url_safe d && negb (d =? 0)) (url_char c) = true).
  { revert c H. apply (all_chars (fun c => forallb (fun d => url_safe d && negb (d =? 0)) (url_char c))).
    vm_compute. reflexivity. }
  rewrite forallb_forall in Hall. apply Forall_forall. intros d Hd%list_elem_of_In. specialize (Hall d Hd).
  apply andb_prop in Hall as [? ?]. split; [done | lia].
Qed.

Lemma url_encoded_safe s : Forall is_char s -> Forall (fun d => url_safe d = true /\ d <> 0) (urlEncode s).
Proof.
  induction 1 as [| c s Hc Hs IH]; [done |]. unfold urlEncode. cbn [flat_map]. apply Forall_app.
  split; [by apply url_code_safe | done].
Qed.

(** A text encoded by [urlEncode] consists of letters, digits, [-_.~] and
    percent signs, and [strunescape], run in place on it, restores the text and
    touches no memory outside it. *)
Theorem url_roundtrip s m p :
  Forall is_char s -> str_at m p (urlEncode s) ->
  Forall (fun d => url_safe d = true) (urlEncode s) /\
  exists m', strunescape m p = Some m' /\ getstr m' p = Some s /\
    forall k, k < p \/ p + len s < k -> zget m' k = zget m k.
Proof.
  intros Hs Hat. split.
  { eapply Forall_impl; [by apply url_encoded_safe |]. by intros d []. }
  destruct (strunescape_spec m p (urlEncode s) Hat) as (m' & E & W). rewrite unescape_url in W by done.
  exists m'. split; [done |]. split; [| by destruct W as (_ & _ & _ & Hk)].
  apply getstr_str_at. eapply written_str_at; [by destruct Hat | | done].
  eapply Forall_impl; [exact Hs |]. unfold is_char. lia.
Qed.

Lemma url_roundtrip_witness :
  Forall (fun d => url_safe d = true) (urlEncode (bytes "a b&c/d")) /\
  exists m', strunescape (urlEncode (bytes "a b&c/d") ++ zeros 4) 0 = Some m' /\ getstr m' 0 = Some (bytes "a b&c/d") /\
    forall k, k < 0 \/ 7 < k -> zget m' k = zget (urlEncode (bytes "a b&c/d") ++ zeros 4) k.
Proof.
  apply (url_roundtrip (bytes "a b&c/d")).
  - vm_compute. repeat constructor; discriminate.
  - apply getstr_str_at. vm_compute. reflexivity.
Defined.

(** ** Escaping markup *)

Lemma repl_char x c s : repl [x] c 0 s = flat_map (fun a => if a =? x then c else [a]) s.
Proof.
  induction s as [| a s IH]; [done |]. cbn [repl flat_map prefixb length Nat.sub]. rewrite Z.eqb_sym.
  destruct (a =? x); cbn; by rewrite IH.
Qed.

(** [chxreplace] of a single character is a code. *)
Lemma replaced_char s x c : replaced s [x] c = flat_map (fun a => if a =? x then c else [a]) s.
Proof.
  unfold replaced, replace_all. destruct (cindex s 0 [x] <? 0) eqn:E; cbn; [| by rewrite repl_char].
  assert (Hno : forall i a, s !! i = Some a -> a <> x).
  { intros i a Hi ->. unfold cindex in E. rewrite bool_decide_eq_false_2 in E by done.
    pose proof (findsub_ge [x] (drop (Z.to_nat 0) s) 0). apply lookup_lt_Some in Hi as Hl.
    pose proof (findsub_none [x] s 0 ltac:(lia) ltac:(change (drop (Z.to_nat 0) s) with s in *; lia) (Z.of_nat i)
      ltac:(unfold len; lia)) as Hp.
    rewrite Nat2Z.id, (drop_S _ _ _ Hi) in Hp. cbn in Hp. by rewrite Z.eqb_refl in Hp. }
  symmetry. clear E. induction s as [| a s IH]; [done |]. cbn.
  replace (a =? x) with false by (specialize (Hno 0%nat a eq_refl); lia). cbn. f_equal. apply IH.
  intros i b Hi. by apply (Hno (S i)).
Qed.

Lemma flat_map_flat_map {A B C} (f : B -> list C) (g : A -> list B) s :
  flat_map f (flat_map g s) = flat_map (fun a => flat_map f (g a)) s.
Proof. induction s as [| a s IH]; [done |]. cbn. by rewrite flat_map_app, IH. Qed.

(** The code of [func_t2esc]: the ampersands of the later replacements are
    not escaped again. *)
Definition esc_char (c : Z) : list Z :=
  if c =? 38 then bytes "&amp;" else if c =? 60 then bytes "&lt;" else if c =? 62 then bytes "&gt;" else [c].

Lemma func_t2esc_code s : func_t2esc s = flat_map esc_char s.
Proof.
  unfold func_t2esc. cbn zeta. change (bytes "&") with [38]. change (bytes "<") with [60]. change (bytes ">") with [62].
  rewrite !replaced_char, !flat_map_flat_map. apply flat_map_ext. intros c. unfold esc_char.
  destruct (c =? 38) eqn:E1; [done |]. cbn. rewrite app_nil_r. destruct (c =? 60) eqn:E2; [done |].
  cbn. rewrite app_nil_r. done.
Qed.

(** A property of all the characters a code produces. *)
Lemma flat_map_forall (f : Z -> bool) code s :
  forallb (fun c => forallb f (code c)) chars = true -> Forall is_char s ->
  Forall (fun d => f d = true) (flat_map code s).
Proof.
  intros Hf. induction 1 as [| c s Hc Hs IH]; [done |]. cbn. apply Forall_app. split; [| done].
  pose proof (all_chars _ Hf c Hc) as Ha. rewrite forallb_forall in Ha.
  apply Forall_forall. intros d Hd%list_elem_of_In. by apply Ha.
Qed.

Definition no_markup (c : Z) : bool := negb (c =? 60) && negb (c =? 62).
Definition xml_text (c : Z) : bool := no_markup c && ((32 <=? c) && (c <=? 126) || (c =? 9) || (c =? 10)).

(** C40: The filters neutralise markup: what [func_t2esc] and [func_xmlesc]
    append has no angle bracket in it, and what [func_xmlesc] appends is
    printable ASCII, tabs and newlines whatever bytes it is given. *)
Theorem escapes_neutralise s :
  Forall is_char s ->
  Forall (fun c => no_markup c = true) (func_t2esc s) /\
  Forall (fun c => xml_text c = true) (func_xmlesc s).
Proof.
  intros Hs. rewrite func_t2esc_code. unfold func_xmlesc.
  split; apply flat_map_forall; try done; vm_compute; reflexivity.
Qed.

Lemma escapes_neutralise_witness :
  Forall (fun c => no_markup c = true) (func_t2esc (bytes "<b>&")) /\
  Forall (fun c => xml_text c = true) (func_xmlesc (bytes "<b>&")).
Proof. apply (escapes_neutralise (bytes "<b>&")). vm_compute. repeat constructor; discriminate. Defined.

(** The filters lose nothing: two texts with the same escaped form are
    the same text, for [func_t2esc], [func_xmlesc] and [func_t2hbr]. *)
Theorem escapes_lossless s t :
  Forall is_char s -> Forall is_char t ->
  (func_t2esc s = func_t2esc t -> s = t) /\
  (func_xmlesc s = func_xmlesc t -> s = t) /\
  (func_t2hbr s = func_t2hbr t -> s = t).
Proof.
  intros Hs Ht. rewrite !func_t2esc_code. unfold func_xmlesc, func_t2hbr.
  split_and!; apply prefix_free_injective; try done; apply prefix_free_b_spec; vm_compute; reflexivity.
Qed.

Lemma escapes_lossless_witness :
  (func_t2esc (bytes "<b>") = func_t2esc (bytes "&lt;b>") -> bytes "<b>" = bytes "&lt;b>") /\
  (func_xmlesc (bytes "<b>") = func_xmlesc (bytes "&lt;b>") -> bytes "<b>" = bytes "&lt;b>") /\
  (func_t2hbr (bytes "<b>") = func_t2hbr (bytes "&lt;b>") -> bytes "<b>" = bytes "&lt;b>").
Proof. apply (escapes_lossless (bytes "<b>") (bytes "&lt;b>")); vm_compute; repeat constructor; discriminate. Defined.

(** [func_escquote] is not: a literal entity and a quote look the same. *)
Example escquote_collides : func_escquote (bytes "&quot;") = func_escquote [34].
Proof. reflexivity. Qed.

(** ** Text inside a quoted JavaScript string *)

(** What follows a string literal whose body starts here: a backslash takes
    the next character with it, a bare line end leaves the literal open. *)
Fixpoint after_literal (s : list Z) : option (list Z) :=
  match s with
  | [] => None
  | c :: t =>
      if c =? 39 then Some t
      else if (c =? 10) || (c =? 13) then None
      else if c =? 92 then match t with _ :: t' => after_literal t' | [] => None end
      else after_literal t
  end.

(** No backslash without a character to escape. *)
Fixpoint paired (s : list Z) : bool :=
  match s with
  | [] => true
  | c :: t => if c =? 92 then match t with _ :: t' => paired t' | [] => false end else paired t
  end.

(** Put between single quotes, the text of [func_escsingle] is one
    complete literal, whatever follows it, and escaping an escaped text again
    changes nothing; except for a text that ends in a lone backslash. *)
Theorem escsingle_literal s :
  paired s = true ->
  (forall t, after_literal (func_escsingle s ++ 39 :: t) = Some t) /\
  func_escsingle (func_escsingle s) = func_escsingle s.
Proof.
  remember (length s) as n eqn:En. revert s En. induction n as [n IH] using lt_wf_ind.
  intros s -> Hp. destruct s as [| c s]; [done |]. cbn [paired func_escsingle] in *.
  destruct (c =? 39) eqn:E1.
  { apply Z.eqb_eq in E1 as ->. change (39 =? 92) with false in Hp.
    destruct (IH (length s) ltac:(cbn; lia) s eq_refl Hp) as [H1 H2]. split; [exact H1 |]. cbn. by rewrite H2. }
  destruct (c =? 10) eqn:E2.
  { apply Z.eqb_eq in E2 as ->. change (10 =? 92) with false in Hp.
    destruct (IH (length s) ltac:(cbn; lia) s eq_refl Hp) as [H1 H2]. split; [exact H1 |]. cbn. by rewrite H2. }
  destruct (c =? 13) eqn:E3.
  { apply Z.eqb_eq in E3 as ->. change (13 =? 92) with false in Hp.
    destruct (IH (length s) ltac:(cbn; lia) s eq_refl Hp) as [H1 H2]. split; [exact H1 |]. cbn. by rewrite H2. }
  destruct (c =? 92) eqn:E4.
  - apply Z.eqb_eq in E4 as ->. destruct s as [| d s]; [done |].
    destruct (IH (length s) ltac:(cbn; lia) s eq_refl Hp) as [H1 H2]. split; [exact H1 |]. cbn. by rewrite H2.
  - destruct (IH (length s) ltac:(cbn; lia) s eq_refl Hp) as [H1 H2].
    cbn [app after_literal func_escsingle]. rewrite E1, E2, E3, E4, H2. by split.
Qed.

Lemma escsingle_literal_witness :
  (forall t, after_literal (func_escsingle (bytes "it's" ++ [10; 92; 39]) ++ 39 :: t) = Some t) /\
  func_escsingle (func_escsingle (bytes "it's" ++ [10; 92; 39])) = func_escsingle (bytes "it's" ++ [10; 92; 39]).
Proof. apply (escsingle_literal (bytes "it's" ++ [10; 92; 39])). reflexivity. Defined.

(** A lone backslash at the end takes the terminator with it. *)
Example escsingle_terminator : func_escsingle (bytes "a" ++ [92]) = [97; 92; 0].
Proof. reflexivity. Qed.

(** ** Quoted arguments *)

(** What all the passes over the table do to one character. *)
Definition sub_char (v : Z) (bi : Z * Z) : Z := if v =? bi.1 then bi.2 else v.
Definition subs (l : list (Z * Z)) (v : Z) : Z := foldl sub_char v l.
Definition swap (bi : Z * Z) : Z * Z := (bi.2, bi.1).

Lemma quote_map l s :
  foldl (fun result '(b, i) => repval result 0 b i) s l = map (subs l) s.
Proof.
  revert s. induction l as [| [b i] l IH]; intros s; cbn [foldl]; [by rewrite map_id |].
  rewrite IH. change (repval s 0 b i) with (map (fun v => sub_char v (b, i)) s). by rewrite map_map.
Qed.

Lemma unquote_map l s :
  foldl (fun result '(b, i) => repval result 0 i b) s l = map (subs (map swap l)) s.
Proof.
  revert s. induction l as [| [b i] l IH]; intros s; cbn [foldl]; [by rewrite map_id |].
  rewrite IH. change (repval s 0 i b) with (map (fun v => sub_char v (i, b)) s). by rewrite map_map.
Qed.

(** A value that no entry of the table names passes through it; one that an
    entry names is replaced once. *)
Lemma subs_miss l v : v ∉ l.*1 -> subs l v = v.
Proof.
  induction l as [| [b i] l IH]; intros Hv; [done |]. apply not_elem_of_cons in Hv as [Hb Hv].
  unfold subs. cbn [foldl]. unfold sub_char at 2. cbn in Hb. cbn [fst]. replace (v =? b) with false by lia. by apply IH.
Qed.

Lemma subs_hit l v j :
  NoDup l.*1 -> (forall b, b ∈ l.*1 -> b ∉ l.*2) -> (v, j) ∈ l -> subs l v = j.
Proof.
  induction l as [| [b i] l IH]; intros Hn Hd Hv; [by apply not_elem_of_nil in Hv |].
  rewrite fmap_cons in Hn. apply NoDup_cons in Hn as [Hb Hn]. unfold subs. cbn [foldl]. unfold sub_char at 2. cbn [fst snd].
  apply elem_of_cons in Hv as [[= <- <-] | Hv].
  - rewrite Z.eqb_refl. apply subs_miss. intros Hj. apply (Hd j); cbn; [by right | by left].
  - assert (v ∈ l.*1) by (apply (list_elem_of_fmap_2 fst) in Hv; done).
    replace (v =? b) with false by (symmetry; apply Z.eqb_neq; intros ->; done).
    apply IH; [done | | done]. intros x Hx Hx'. apply (Hd x); cbn; by right.
Qed.

Lemma map_swap_fst l : (map swap l).*1 = l.*2.
Proof. induction l as [| [b i] l IH]; cbn; [done |]. by f_equal. Qed.
Lemma map_swap_snd l : (map swap l).*2 = l.*1.
Proof. induction l as [| [b i] l IH]; cbn; [done |]. by f_equal. Qed.

Lemma subs_back l v :
  NoDup l.*1 -> NoDup l.*2 -> (forall b, b ∈ l.*1 -> b ∉ l.*2) -> v ∉ l.*2 ->
  (subs l v ∉ l.*1) /\ subs (map swap l) (subs l v) = v.
Proof.
  intros H1 H2 Hd Hv. destruct (decide (v ∈ l.*1)) as [Hin | Hout].
  - apply list_elem_of_fmap_1 in Hin as ([b j] & Hb & Hin). cbn in Hb. subst b.
    assert (Hj : j ∈ l.*2) by (apply (list_elem_of_fmap_2 snd) in Hin; done).
    rewrite (subs_hit l v j) by done. split; [intros Hj'; by apply (Hd j) |].
    apply subs_hit; [by rewrite map_swap_fst | rewrite map_swap_fst, map_swap_snd; intros b Hb Hb'; by apply (Hd b) |].
    apply (list_elem_of_fmap_2 swap) in Hin. exact Hin.
  - rewrite subs_miss by done. split; [done |]. apply subs_miss. by rewrite map_swap_fst.
Qed.

Lemma bspace_parts blanks :
  (length blanks <= 18)%nat -> (bspace blanks).*1 = blanks /\ (bspace blanks).*2 = take (length blanks) ispace.
Proof.
  intros H. unfold bspace. split; [by apply fst_zip |].
  rewrite <- (take_drop (length blanks) ispace) at 1.
  assert (Hl : length (take (length blanks) ispace) = length blanks) by (rewrite length_take; cbn; lia).
  revert Hl. generalize (take (length blanks) ispace) (drop (length blanks) ispace). clear H.
  induction blanks as [| b blanks IH]; intros [| i l] k Hl; try done. cbn. f_equal. apply IH. by injection Hl.
Qed.

(** A text without control codes comes back from [$unquote] of [$quote],
    and its quoted form has no blank in it, so that the CML functions take it
    as one word (for up to 18 different blanks, none of them a code). *)
Theorem quote_roundtrip blanks s :
  (length blanks <= 18)%nat -> NoDup blanks -> Forall (fun b => b ∉ ispace) blanks -> Forall (fun c => c ∉ ispace) s ->
  unquote blanks (quote blanks s) = s /\ Forall (fun c => c ∉ blanks) (quote blanks s).
Proof.
  intros Hl Hn Hb Hs. destruct (bspace_parts blanks Hl) as [E1 E2]. unfold quote, unquote.
  rewrite quote_map, unquote_map, map_map.
  assert (Hsub : forall x, x ∈ take (length blanks) ispace -> x ∈ ispace) by (intros x; apply subseteq_take).
  assert (Hback : forall c, c ∉ ispace -> (subs (bspace blanks) c ∉ blanks) /\
    subs (map swap (bspace blanks)) (subs (bspace blanks) c) = c).
  { intros c Hc. pose proof (subs_back (bspace blanks) c) as Hx. rewrite E1, E2 in Hx. apply Hx; [done | | |].
    - apply (sublist_NoDup _ ispace); [by apply (bool_decide_unpack (NoDup ispace)) | apply sublist_take].
    - intros b Hb1 Hb2. rewrite Forall_forall in Hb. by apply (Hb b), Hsub.
    - intros Hc'. by apply Hc, Hsub. }
  split.
  - rewrite <- (map_id s) at 2. apply map_ext_in. intros c Hc%list_elem_of_In. apply Hback.
    rewrite Forall_forall in Hs. by apply Hs.
  - apply Forall_fmap. eapply Forall_impl; [exact Hs |]. intros c Hc. by apply Hback.
Qed.

Lemma quote_roundtrip_witness :
  unquote [32; 10; 9] (quote [32; 10; 9] (bytes "two words")) = bytes "two words" /\
  Forall (fun c => c ∉ [32; 10; 9]) (quote [32; 10; 9] (bytes "two words")).
Proof.
  apply (quote_roundtrip [32; 10; 9] (bytes "two words")); [cbn; lia | | |];
    refine (bool_decide_unpack _ _); vm_compute; exact I.
Defined.
