(* ===== verification/Numbers.v ===== *)
(** Numbers in texts, shared by the CML functions on lists of numbers:
    printing with the d format of [sprintf], and reading number after number
    with [chxint4] and word after word with [chxnextword]. *)
From S2P Require Import Prelude Memory Chix ChixEdit ChixSearch ChixParse.

(** ** Printing *)

(** The digits of a number that is not negative. *)
Fixpoint dec_pos (fuel : nat) (n : Z) : list Z :=
  match fuel with
  | O => []
  | S fuel' => (if 10 <=? n then dec_pos fuel' (n `div` 10) else []) ++ [48 + n `mod` 10]
  end.

(** [sprintf (temp, "%d", n)]; an [int] has at most ten digits. *)
Definition show (n : Z) : list Z := if n <? 0 then 45 :: dec_pos 10 (- n) else dec_pos 10 n.

(** The numbers as [sprintf (temp, "%d ", n)] prints them one by one. *)
Definition ints_text (ns : list Z) : list Z := flat_map (fun n => show n ++ [32]) ns.

Lemma dec_pos_spec fuel n :
  0 <= n < 10 ^ Z.of_nat fuel -> (0 < fuel)%nat ->
  Forall (fun c => DIGIT c = true) (dec_pos fuel n) /\ dec_pos fuel n <> [] /\ dec_value (dec_pos fuel n) = n.
Proof.
  revert n. induction fuel as [| fuel IH]; intros n Hn Hf; [lia |]. cbn [dec_pos].
  pose proof (Z.mod_pos_bound n 10). pose proof (Z_div_mod_eq_full n 10).
  assert (Hd : DIGIT (48 + n `mod` 10) = true) by (unfold DIGIT; lia).
  rewrite Nat2Z.inj_succ, Z.pow_succ_r in Hn by lia.
  destruct (10 <=? n) eqn:E.
  - destruct fuel as [| fuel]; [cbn in Hn; lia |].
    destruct (IH (n `div` 10)) as (H1 & H2 & H3); [lia | lia |]. split_and!.
    + apply Forall_app. split; [done | by constructor].
    + by destruct (dec_pos (S fuel) (n `div` 10)).
    + rewrite dec_value_app, H3. lia.
  - split_and!; [by constructor | done |]. unfold dec_value. cbn [app foldl]. lia.
Qed.

(** The numbers that are printed and read back: all but the least [int4]. *)
Definition is_int (n : Z) : Prop := - 2 ^ 31 < n < 2 ^ 31.

Lemma show_spec n :
  is_int n -> exists d, show n = (if n <? 0 then [45] else []) ++ d /\
    Forall (fun c => DIGIT c = true) d /\ d <> [] /\ dec_value d = Z.abs n.
Proof.
  unfold is_int, show. intros Hn. destruct (n <? 0) eqn:E.
  - exists (dec_pos 10 (- n)). destruct (dec_pos_spec 10 (- n)) as (H1 & H2 & H3); [lia | lia |].
    split_and!; try done. lia.
  - exists (dec_pos 10 n). destruct (dec_pos_spec 10 n) as (H1 & H2 & H3); [lia | lia |].
    split_and!; try done. lia.
Qed.

(** ** Reading behind a prefix *)

Lemma drop_shift {A} (u s : list A) i : 0 <= i -> drop (Z.to_nat (len u + i)) (u ++ s) = drop (Z.to_nat i) s.
Proof.
  intros Hi. rewrite Z2Nat.inj_add, to_nat_len by (unfold len; lia). rewrite drop_app_ge by lia. f_equal. lia.
Qed.

Lemma cval_shift u s i : 0 <= i -> cval (u ++ s) (len u + i) = cval s i.
Proof.
  intros Hi. unfold cval. rewrite Z2Nat.inj_add, to_nat_len by (unfold len; lia).
  rewrite lookup_app_r by lia. do 2 f_equal. lia.
Qed.

Lemma int4_result_shift B u s i :
  0 <= i -> int4_result B (u ++ s) (len u + i) = ((int4_result B s i).1, len u + (int4_result B s i).2).
Proof.
  intros Hi. unfold int4_result. rewrite drop_shift by done.
  set (k := len (span (is_blank B) (drop (Z.to_nat i) s))). assert (0 <= k) by apply len_nonneg.
  rewrite <- !Z.add_assoc, cval_shift by lia. set (sg := cval s (i + k)).
  destruct ((sg =? 45) || (sg =? 43)); rewrite <- ?Z.add_assoc, drop_shift by lia.
  - case_bool_decide; cbn; f_equal; lia.
  - case_bool_decide; cbn; f_equal; lia.
Qed.

Lemma nextword_result_shift B u s i :
  0 <= i -> let '(r, w, p) := nextword_result B s i in
  nextword_result B (u ++ s) (len u + i) = (if r <? 0 then r else len u + r, w, len u + p).
Proof.
  intros Hi. unfold nextword_result. rewrite drop_shift by done.
  set (k := len (span (is_blank B) (drop (Z.to_nat i) s))). assert (0 <= k) by apply len_nonneg.
  rewrite <- !Z.add_assoc, drop_shift by lia. rewrite len_app.
  replace (len u + len s <=? len u + (i + k)) with (len s <=? i + k) by lia.
  destruct (len s <=? i + k).
  - cbn. f_equal; lia.
  - replace (i + k <? 0) with false by lia. repeat f_equal; lia.
Qed.

(** ** Lists of numbers *)

Section ints.
Context (B : list Z).

(** Digits and signs are no blanks, the space is. *)
Definition good_blanks : Prop :=
  is_blank B 32 = true /\ forall c, DIGIT c = true \/ c = 45 -> is_blank B c = false.
Context (HB : good_blanks).

(** From [pos] on, [s] holds the numbers [ns], after some blanks. *)
Definition ints_at (s : list Z) (pos : Z) (ns : list Z) : Prop :=
  exists u bl, s = u ++ bl ++ ints_text ns /\ len u = pos /\ Forall (fun c => is_blank B c = true) bl.

Lemma ints_at_start ns : ints_at (ints_text ns) 0 ns.
Proof. by exists [], []. Qed.

Lemma ints_at_nonneg s pos ns : ints_at s pos ns -> 0 <= pos.
Proof. intros (u & bl & _ & <- & _). apply len_nonneg. Qed.

Lemma show_nonblank n : is_int n -> Forall (fun c => is_blank B c = false) (show n) /\ show n <> [].
Proof.
  intros Hn. destruct (show_spec n Hn) as (d & -> & Hd & Hne & _). destruct HB as [_ Hb]. split.
  - apply Forall_app. split.
    + destruct (n <? 0); [| done]. constructor; [apply Hb; by right | done].
    + eapply Forall_impl; [exact Hd |]. intros c Hc. apply Hb. by left.
  - by destruct (n <? 0), d.
Qed.

Lemma ints_at_next u bl n ns :
  ints_at (u ++ bl ++ show n ++ 32 :: ints_text ns) (len u + (len bl + len (show n))) ns.
Proof.
  exists (u ++ bl ++ show n), [32]. split; [by rewrite <- !app_assoc |].
  split; [rewrite !len_app; lia | constructor; [apply HB | done]].
Qed.

(** Reading a number moves on to the ones behind it. *)
Lemma int4_ints s pos n ns :
  is_int n -> ints_at s pos (n :: ns) ->
  exists pos', int4_result B s pos = (n, pos') /\ pos < pos' /\ ints_at s pos' ns.
Proof.
  intros Hn (u & bl & -> & <- & Hbl). destruct (show_nonblank n Hn) as [Hnb Hne].
  destruct (show_spec n Hn) as (d & Es & Hd & Hdn & Hv).
  assert (Et : ints_text (n :: ns) = show n ++ 32 :: ints_text ns) by (cbn; by rewrite <- app_assoc).
  rewrite Et. exists (len u + (len bl + len (show n))).
  pose proof (int4_result_decimal B bl (n <? 0) false d (32 :: ints_text ns)) as Hr. cbv zeta iota in Hr.
  rewrite <- Es in Hr. rewrite (app_assoc _ d), <- Es in Hr.
  split_and!; [| | apply ints_at_next].
  - replace (len u) with (len u + 0) at 1 by lia. rewrite int4_result_shift by lia.
    rewrite Hr; [| done | done | done | done | unfold is_int in Hn; lia | by intros ? [= <-]].
    rewrite Hv. cbn [fst snd]. f_equal; [destruct (n <? 0) eqn:E; lia |]. rewrite !len_app. lia.
  - destruct (show n); [done |]. rewrite len_cons. len_pos. lia.
Qed.

Lemma int4_ints_end s pos : ints_at s pos [] -> int4_result B s pos = (0, pos).
Proof.
  intros (u & bl & -> & <- & Hbl). cbn [ints_text flat_map]. rewrite app_nil_r.
  replace (len u) with (len u + 0) at 1 by lia. rewrite int4_result_shift by lia.
  unfold int4_result. change (Z.to_nat 0) with 0%nat. rewrite drop_0, Z.add_0_l.
  assert (Hs : span (is_blank B) bl = bl) by (rewrite <- (app_nil_r bl) at 1; by apply span_app).
  rewrite Hs, cval_past by lia. cbn [Z.eqb orb]. rewrite drop_ge by (unfold len; lia). cbn. f_equal. lia.
Qed.

(** The same for words. *)
Lemma nextword_ints s pos n ns :
  is_int n -> ints_at s pos (n :: ns) ->
  exists r pos', nextword_result B s pos = (r, show n, pos') /\ 0 <= r /\ pos < pos' /\ ints_at s pos' ns.
Proof.
  intros Hn (u & bl & -> & <- & Hbl). destruct (show_nonblank n Hn) as [Hnb Hne].
  assert (Et : ints_text (n :: ns) = show n ++ 32 :: ints_text ns) by (cbn; by rewrite <- app_assoc).
  rewrite Et. exists (len u + len bl), (len u + (len bl + len (show n))).
  assert (Hs : span (is_blank B) (bl ++ show n ++ 32 :: ints_text ns) = bl).
  { apply span_app; [done |]. destruct (show n) as [| c w]; [done |]. intros ? [= <-]. by apply Forall_cons in Hnb as [? _]. }
  assert (Hw : span (fun c => negb (is_blank B c)) (show n ++ 32 :: ints_text ns) = show n).
  { apply span_app; [eapply Forall_impl; [exact Hnb |]; by intros c -> |]. intros ? [= <-]. by rewrite (proj1 HB). }
  pose proof (nextword_result_shift B u (bl ++ show n ++ 32 :: ints_text ns) 0 ltac:(lia)) as Hx.
  unfold nextword_result in Hx at 1. change (Z.to_nat 0) with 0%nat in Hx.
  rewrite drop_0, Z.add_0_l, Hs, drop_len_app, Hw in Hx.
  assert (0 < len (show n)) by (destruct (show n); [done | rewrite len_cons; len_pos; lia]). len_pos.
  replace (len (bl ++ show n ++ 32 :: ints_text ns) <=? len bl) with false in Hx
    by (symmetry; rewrite !len_app; len_pos; lia).
  replace (len bl <? 0) with false in Hx by lia. rewrite Z.add_0_r in Hx.
  split_and!; [exact Hx | lia | lia | apply ints_at_next].
Qed.

Lemma nextword_ints_end s pos : ints_at s pos [] -> exists p, nextword_result B s pos = (-1, [], p).
Proof.
  intros (u & bl & -> & <- & Hbl). cbn [ints_text flat_map]. rewrite app_nil_r.
  assert (Hs : span (is_blank B) bl = bl) by (rewrite <- (app_nil_r bl) at 1; by apply span_app).
  unfold nextword_result. rewrite drop_len_app, Hs, len_app. eexists.
  by replace (len u + len bl <=? len u + len bl) with true by lia.
Qed.

End ints.

(** The blanks that [chx_init] sets up for ASCII. *)
Lemma ascii_blanks : good_blanks [32; 10; 9].
Proof.
  split; [done |]. unfold DIGIT. intros c Hc. apply bool_decide_eq_false_2. rewrite !elem_of_cons. intros H.
  rewrite elem_of_nil in H. lia.
Qed.

(** The loop that counts words, [for (count=0; chxnextword (...) >= 0; ++count)]. *)
Fixpoint count_words (fuel : nat) (B s : list Z) (pos : Z) : option Z :=
  match fuel with
  | O => None
  | S fuel' =>
      let '(r, _, pos') := nextword_result B s pos in
      if r <? 0 then Some 0 else Z.add 1 <$> count_words fuel' B s pos'
  end.

(** [n] numbers in a row, and where reading them stops. *)
Fixpoint read_ints (n : nat) (B s : list Z) (pos : Z) : list Z * Z :=
  match n with
  | O => ([], pos)
  | S n' => let '(v, pos') := int4_result B s pos in
            let '(vs, p) := read_ints n' B s pos' in (v :: vs, p)
  end.

Lemma count_words_ints B s pos ns fuel :
  good_blanks B -> Forall is_int ns -> ints_at B s pos ns -> (length ns < fuel)%nat ->
  count_words fuel B s pos = Some (len ns).
Proof.
  intros HB Hns. revert pos fuel. induction Hns as [| n ns Hn Hns IH]; intros pos fuel Hat Hf;
    (destruct fuel as [| fuel]; [cbn in Hf; lia |]); cbn [count_words].
  - destruct (nextword_ints_end B s pos Hat) as [p ->]. done.
  - destruct (nextword_ints B HB s pos n ns Hn Hat) as (r & p & -> & Hr & _ & Hat').
    replace (r <? 0) with false by lia. cbn [length] in Hf. rewrite (IH p fuel Hat') by lia. cbn.
    f_equal. rewrite len_cons. lia.
Qed.

Lemma read_ints_ints B s pos ns ms :
  good_blanks B -> Forall is_int ns -> ints_at B s pos (ns ++ ms) ->
  exists p, read_ints (length ns) B s pos = (ns, p) /\ ints_at B s p ms.
Proof.
  intros HB Hns. revert pos. induction Hns as [| n ns Hn Hns IH]; intros pos Hat; cbn [length read_ints].
  - by exists pos.
  - destruct (int4_ints B HB s pos n (ns ++ ms) Hn Hat) as (p & -> & _ & Hat').
    destruct (IH p Hat') as (q & -> & Hq). by exists q.
Qed.

(** A text has at least as many characters as it has words. *)
Lemma ints_at_length B s pos ns : good_blanks B -> Forall is_int ns -> ints_at B s pos ns -> (length ns <= length s)%nat.
Proof.
  intros HB Hns (u & bl & -> & _ & _). rewrite !length_app.
  assert (length ns <= length (ints_text ns))%nat; [| lia].
  induction Hns as [| n ns Hn _ IH]; [done |]. cbn [ints_text flat_map]. rewrite !length_app. cbn [length].
  unfold ints_text in IH. lia.
Qed.
