(* ===== verification/CmlLists.v ===== *)
(** CML functions on lists of numbers and texts (src/CV2/sweb: funcbit.c,
    funcstack.c, numsort.c, tripsort.c, pullparens.c).  Texts stand for Chix
    arguments as in Html; [B] are the blanks. *)
From S2P Require Import Prelude Memory Chix ChixCore ChixEdit ChixSearch ChixParse Str Numbers.
From Stdlib Require Import Sorting.Sorted Sorting.Permutation.

(** ** Bit functions *)

(** The do-while loop of [bit_or] and [bit_and]. *)
Fixpoint bit_loop (fuel : nat) (B : list Z) (op : Z -> Z -> Z) (arg : list Z) (val1 val2 pos2 : Z) : option Z :=
  match fuel with
  | O => None
  | S fuel' =>
      let val1 := op val1 val2 in
      let '(val2, p) := int4_result B arg pos2 in
      if p =? pos2 then Some val1 else bit_loop fuel' B op arg val1 val2 p
  end.

(** The text appended to the result. *)
Definition func_bit (B what arg : list Z) : option (list Z) :=
  if streq (Some what) (Some (bytes "bit_or")) =? 1 then
    show <$> bit_loop (S (length arg)) B Z.lor arg 0 0 0
  else if streq (Some what) (Some (bytes "bit_and")) =? 1 then
    show <$> bit_loop (S (length arg)) B Z.land arg (-1) (-1) 0
  else if streq (Some what) (Some (bytes "bit_not")) =? 1 then
    Some (show (Z.land (Z.lnot (int4_result B arg 0).1) 65535))
  else Some [].

(** ** The circular stack *)

Definition STACKSIZE : Z := 25.

Record cstack := mkStack { slots : list (list Z); sptr : Z }.

Definition stack_init : cstack := mkStack (replicate 25 []) 0.

(** [None]: an access outside the array. *)
Definition func_stack (B : list Z) (st : cstack) (what arg : list Z) : option (cstack * list Z) :=
  if streq (Some what) (Some (bytes "stack_push")) =? 1 then
    let ptr2 := Z.rem (sptr st + 1) STACKSIZE in
    top ← zget (slots st) (sptr st);
    if bool_decide (top = arg) then Some (st, [])
    else sl ← zset (slots st) ptr2 arg; Some (mkStack sl ptr2, [])
  else if streq (Some what) (Some (bytes "stack_pop")) =? 1 then
    top ← zget (slots st) (sptr st);
    sl ← zset (slots st) (sptr st) [];
    Some (mkStack sl (Z.rem (sptr st - 1 + STACKSIZE) STACKSIZE), if cval top 0 =? 0 then arg else top)
  else if streq (Some what) (Some (bytes "stack_top")) =? 1 then
    let '(down, pos) := int4_result B arg 0 in
    let down := if pos =? 0 then 0 else down in
    top ← zget (slots st) (Z.rem (i32 (i32 (sptr st + down) + STACKSIZE)) STACKSIZE);
    Some (st, top)
  else if streq (Some what) (Some (bytes "stack_clear")) =? 1 then
    Some (mkStack (map (fun _ => []) (slots st)) 0, [])
  else Some (st, []).

(** ** Sorting numbers *)

(** The exchange of neighbours, and one pass over the array. *)
Definition exchange (direction a b : Z) : bool :=
  ((0 <? direction) && (b <? a)) || ((direction <? 0) && (a <? b)).

Fixpoint pass_from (gt : Z -> Z -> bool) (a : Z) (l : list Z) : list Z :=
  match l with
  | [] => [a]
  | b :: l' => if gt a b then b :: pass_from gt a l' else a :: pass_from gt b l'
  end.

Definition bubble_pass (gt : Z -> Z -> bool) (l : list Z) : list Z :=
  match l with [] => [] | a :: l' => pass_from gt a l' end.

Definition num_sort (B arg : list Z) : option (list Z) :=
  let '(direction, pos1) := int4_result B arg 0 in
  count ← count_words (S (length arg)) B arg pos1;
  let value := (read_ints (Z.to_nat count) B arg pos1).1 in
  let value := Nat.iter (Z.to_nat (count - 1)) (bubble_pass (exchange direction)) value in
  Some (ints_text value).

(** ** Sorting triplets *)

Abbreviation triplet := (Z * Z * Z)%type (only parsing).

(** [continue]: the item goes behind [post]. *)
Definition goes_behind (direction : Z) (item post : triplet) : bool :=
  let '(ic, ii, ir) := item in
  let '(pc, pi, pr) := post in
  if 0 <? direction then
    (pc <? ic) || ((ic =? pc) && ((pi <? ii) || ((ii =? pi) && (pr <? ir))))
  else
    (ic <? pc) || ((ic =? pc) && ((ii <? pi) || ((ii =? pi) && (ir <? pr)))).

Fixpoint trip_insert (direction : Z) (item : triplet) (l : list triplet) : list triplet :=
  match l with
  | [] => [item]
  | post :: l' => if goes_behind direction item post then post :: trip_insert direction item l' else item :: l
  end.

(** The triplets read from [pos] on. *)
Fixpoint read_triplets (n : nat) (B arg : list Z) (pos : Z) : list triplet :=
  match n with
  | O => []
  | S n' =>
      let '(c, pos) := int4_result B arg pos in
      let '(i, pos) := int4_result B arg pos in
      let '(r, pos) := int4_result B arg pos in
      (c, i, r) :: read_triplets n' B arg pos
  end.

Definition triplet_ints (t : triplet) : list Z := let '(c, i, r) := t in [c; i; r].

Definition trip_sort (B arg : list Z) : option (list Z) :=
  let '(direction, pos) := int4_result B arg 0 in
  count ← count_words (S (length arg)) B arg pos;
  let items := read_triplets (Z.to_nat (Z.quot count 3)) B arg pos in
  let sorted := foldl (fun l item => trip_insert direction item l) [] items in
  Some (ints_text (flat_map triplet_ints sorted)).

(** ** Parentheses *)

(** The loop that looks for the closing parenthesis, from [p] on. *)
Fixpoint close_paren (s : list Z) (parens p : Z) : option Z :=
  match s with
  | [] => None
  | c :: s' =>
      if (c =? 41) && (parens =? 0) then Some p
      else close_paren s' (if c =? 40 then parens + 1 else if c =? 41 then parens - 1 else parens) (p + 1)
  end.

(** The value returned, the new [source] and [expr]. *)
Definition pullParens (source : list Z) : Z * list Z * list Z :=
  let p0 := cindex source 0 [40] in
  if p0 <? 0 then (0, source, []) else
  let p1 := cindex source p0 [41] in
  if p1 <? 0 then (0, source, []) else
  match close_paren (drop (Z.to_nat (p0 + 1)) source) 0 (p0 + 1) with
  | None => (0, source, [])
  | Some p =>
      let expr := csub source p0 (p - p0 + 1) in
      (1, default source (alter_first source p0 expr []), expr)
  end.

(** ** Theorems: bit functions *)

Lemma bit_loop_ints B op s pos ns fuel val1 val2 :
  good_blanks B -> Forall is_int ns -> ints_at B s pos ns -> (length ns < fuel)%nat ->
  bit_loop fuel B op s val1 val2 pos = Some (foldl op (op val1 val2) ns).
Proof.
  intros HB Hns. revert pos fuel val1 val2. induction Hns as [| n ns Hn Hns IH]; intros pos fuel val1 val2 Hat Hf;
    (destruct fuel as [| fuel]; [cbn in Hf; lia |]); cbn [bit_loop].
  - rewrite int4_ints_end by done. by rewrite Z.eqb_refl.
  - destruct (int4_ints B HB s pos n ns Hn Hat) as (p & -> & Hp & Hat').
    replace (p =? pos) with false by lia. cbn [length] in Hf. cbn [foldl]. apply IH; [done | lia].
Qed.

(** The bit functions print the bitwise or and and of all the numbers of
    their argument. *)
Theorem func_bit_folds B ns :
  good_blanks B -> Forall is_int ns ->
  func_bit B (bytes "bit_or") (ints_text ns) = Some (show (foldl Z.lor 0 ns)) /\
  func_bit B (bytes "bit_and") (ints_text ns) = Some (show (foldl Z.land (-1) ns)).
Proof.
  intros HB Hns. pose proof (ints_at_length B _ _ _ HB Hns (ints_at_start B ns)) as Hl. unfold func_bit.
  split; cbn -[bit_loop show].
  - rewrite (bit_loop_ints B Z.lor _ 0 ns) by (done || apply ints_at_start || lia). done.
  - rewrite (bit_loop_ints B Z.land _ 0 ns) by (done || apply ints_at_start || lia). done.
Qed.

Lemma func_bit_folds_witness :
  func_bit [32; 10; 9] (bytes "bit_or") (ints_text [5; 8]) = Some (bytes "13") /\
  func_bit [32; 10; 9] (bytes "bit_and") (ints_text [5; 8]) = Some (bytes "0").
Proof. apply (func_bit_folds [32; 10; 9] [5; 8]); [apply ascii_blanks | repeat constructor; unfold is_int; lia]. Defined.

(** ** Theorems: the stack *)

(** The slots from the top down, around the circle. *)
Definition stack_view (st : cstack) : list (list Z) :=
  map (fun i => default [] (slots st !! Z.to_nat ((sptr st - Z.of_nat i) `mod` 25))) (seq 0 25).

Definition stack_ok (st : cstack) : Prop :=
  length (slots st) = 25%nat /\ 0 <= sptr st < 25 /\ Forall (Forall is_char) (slots st).

Inductive stack_call := push (x : list Z) | pop (y : list Z) | top (down : Z) | clear.

Definition call_name (c : stack_call) : list Z :=
  match c with push _ => bytes "stack_push" | pop _ => bytes "stack_pop" | top _ => bytes "stack_top" | clear => bytes "stack_clear" end.
Definition call_arg (c : stack_call) : list Z :=
  match c with push x => x | pop y => y | top d => show d | clear => [] end.

(** The promise: 25 texts, the top first.  A push moves the others down and
    loses the last one, unless the text is on top already; a pop moves them up;
    a text [down] below the top is read around the circle. *)
Definition stack_spec (v : list (list Z)) (c : stack_call) : list (list Z) * list Z :=
  let h := default [] (head v) in
  match c with
  | push x => (if bool_decide (h = x) then v else x :: removelast v, [])
  | pop y => (tail v ++ [[]], if bool_decide (h = []) then y else h)
  | top d => (v, default [] (v !! Z.to_nat ((- d) `mod` 25)))
  | clear => (replicate 25 [], [])
  end.

Definition call_ok (c : stack_call) : Prop :=
  match c with push x => Forall is_char x | top d => -25 <= d < 2 ^ 31 - 50 | _ => True end.

Local Ltac mod25 := Z.div_mod_to_equations; lia.

Lemma view_lookup st i :
  stack_ok st -> 0 <= i < 25 ->
  stack_view st !! Z.to_nat i = Some (default [] (slots st !! Z.to_nat ((sptr st - i) `mod` 25))).
Proof.
  intros Hok Hi. unfold stack_view. rewrite list_lookup_fmap, lookup_seq_lt by lia.
  cbn -[Z.of_nat Z.to_nat]. by rewrite Z2Nat.id by lia.
Qed.

Lemma view_length st : length (stack_view st) = 25%nat.
Proof. unfold stack_view. by rewrite length_map, length_seq. Qed.

(** Two views agree when they do at every depth. *)
Lemma view_ext st (v : list (list Z)) :
  stack_ok st -> length v = 25%nat ->
  (forall i, 0 <= i < 25 -> v !! Z.to_nat i = Some (default [] (slots st !! Z.to_nat ((sptr st - i) `mod` 25)))) ->
  stack_view st = v.
Proof.
  intros Hok Hl H. apply list_eq_same_length with 25%nat; [by symmetry | apply view_length |].
  intros i x y Hi Hx Hy. rewrite <- (Nat2Z.id i), view_lookup in Hx by (done || lia).
  rewrite <- (Nat2Z.id i), H in Hy by lia. congruence.
Qed.

Lemma int4_show B n : good_blanks B -> is_int n -> int4_result B (show n) 0 = (n, len (show n)) /\ 0 < len (show n).
Proof.
  intros HB Hn. destruct (show_nonblank B HB n Hn) as [Hnb Hne]. destruct (show_spec n Hn) as (d & Es & Hd & Hdn & Hv).
  pose proof (int4_result_decimal B [] (n <? 0) false d []) as Hr. cbv zeta iota in Hr.
  rewrite app_nil_r, app_nil_l, <- Es in Hr. rewrite Hr; try done; [| unfold is_int in Hn; lia].
  split; [| destruct (show n); [done | rewrite len_cons; len_pos; lia]].
  rewrite Hv. f_equal; [destruct (n <? 0) eqn:E; lia |]. rewrite len_nil. lia.
Qed.

Lemma zget_slot st i : stack_ok st -> 0 <= i < 25 ->
  exists x, zget (slots st) i = Some x /\ slots st !! Z.to_nat i = Some x /\ Forall is_char x.
Proof.
  intros (Hl & _ & Hc) Hi. destruct (zget_in (slots st) i) as [x Hx]; [unfold len; lia |].
  exists x. split; [done |]. unfold zget in Hx. replace (i <? 0) with false in Hx by lia.
  split; [done |]. by eapply Forall_lookup_1.
Qed.

Lemma view_head st x : stack_ok st -> zget (slots st) (sptr st) = Some x -> head (stack_view st) = Some x.
Proof.
  intros Hok Hx. pose proof (view_lookup st 0 Hok ltac:(lia)) as H. destruct Hok as (Hl & Hp & _).
  rewrite Z.sub_0_r, Z.mod_small in H by lia. unfold zget in Hx. replace (sptr st <? 0) with false in Hx by lia.
  rewrite Hx in H. by destruct (stack_view st).
Qed.

Lemma zset_slot st i x : stack_ok st -> 0 <= i < 25 -> zset (slots st) i x = Some (<[Z.to_nat i := x]> (slots st)).
Proof.
  intros (Hl & _) Hi. unfold zset. replace (i <? 0) with false by lia.
  replace (len (slots st) <=? i) with false by (unfold len; lia). done.
Qed.

(** The new state of a push and of a pop, and its view. *)
Lemma view_push st x :
  stack_ok st -> Forall is_char x ->
  let p := (sptr st + 1) `mod` 25 in
  let st' := mkStack (<[Z.to_nat p := x]> (slots st)) p in
  stack_ok st' /\ stack_view st' = x :: removelast (stack_view st).
Proof.
  intros Hok Hx p st'. assert (Hp : 0 <= p < 25) by (unfold p; mod25).
  assert (Hok' : stack_ok st').
  { destruct Hok as (Hl & _ & Hc). split_and!; cbn; [by rewrite length_insert | lia | lia | by apply Forall_insert]. }
  split; [done |]. apply view_ext; [done | |].
  { cbn [length]. rewrite removelast_firstn_len, length_take, view_length. done. }
  intros i Hi. change (slots st') with (<[Z.to_nat p := x]> (slots st)). change (sptr st') with p.
  destruct (decide (i = 0)) as [-> | Hne].
  - change (Z.to_nat 0) with 0%nat. rewrite Z.sub_0_r, Z.mod_small by lia. rewrite list_lookup_insert_eq; [done |]. destruct Hok as (-> & _). lia.
  - replace (Z.to_nat i) with (S (Z.to_nat (i - 1))) by lia.
    change ((x :: removelast (stack_view st)) !! S (Z.to_nat (i - 1))) with (removelast (stack_view st) !! Z.to_nat (i - 1)).
    rewrite removelast_firstn_len, lookup_take_lt, view_lookup by (rewrite ?view_length; done || lia). do 2 f_equal.
    destruct Hok as (_ & Hs & _). rewrite list_lookup_insert_ne; [| unfold p; mod25].
    f_equal. f_equal. unfold p. mod25.
Qed.

Lemma view_pop st :
  stack_ok st ->
  let st' := mkStack (<[Z.to_nat (sptr st) := []]> (slots st)) ((sptr st - 1 + 25) `mod` 25) in
  stack_ok st' /\ stack_view st' = tail (stack_view st) ++ [[]].
Proof.
  intros Hok st'. pose proof Hok as (Hl & Hp & Hc).
  assert (Hok' : stack_ok st').
  { split_and!; cbn; [by rewrite length_insert | mod25 | mod25 | by apply Forall_insert]. }
  split; [done |]. pose proof (view_length st) as Hv. apply view_ext; [done | |].
  { rewrite length_app. destruct (stack_view st); [done |]. cbn in *. lia. }
  intros i Hi. destruct (decide (i = 24)) as [-> | Hne].
  - rewrite lookup_app_r by (destruct (stack_view st); cbn in *; lia).
    replace (Z.to_nat 24 - length (tail (stack_view st)))%nat with 0%nat by (destruct (stack_view st); cbn in *; lia).
    cbn [slots sptr st']. replace (((sptr st - 1 + 25) `mod` 25 - 24) `mod` 25) with (sptr st) by mod25.
    rewrite list_lookup_insert_eq by lia. done.
  - rewrite lookup_app_l by (destruct (stack_view st); cbn in *; lia).
    replace (tail (stack_view st) !! Z.to_nat i) with (stack_view st !! Z.to_nat (i + 1)).
    2: { replace (Z.to_nat (i + 1)) with (S (Z.to_nat i)) by lia. by destruct (stack_view st). }
    rewrite view_lookup by (done || lia). do 2 f_equal. cbn [slots sptr st'].
    rewrite list_lookup_insert_ne by mod25. f_equal. f_equal. mod25.
Qed.

Lemma view_empty : stack_ok stack_init /\ stack_view stack_init = replicate 25 [].
Proof.
  split; [| vm_compute; reflexivity]. split_and!; [done | cbn; lia | cbn; lia |].
  by apply Forall_replicate.
Qed.

(** Evaluate the comparisons of a call's name. *)
Local Ltac names :=
  repeat match goal with
  | |- context [streq (Some (bytes ?a)) (Some (bytes ?b)) =? 1] =>
      let v := eval vm_compute in (streq (Some (bytes a)) (Some (bytes b)) =? 1) in
      change (streq (Some (bytes a)) (Some (bytes b)) =? 1) with v
  end; cbv iota.

#[local] Arguments stack_view : simpl never.
#[local] Arguments Z.rem : simpl never.

(** Each call does to the view what the specification says. *)
Lemma stack_step B st c :
  good_blanks B -> stack_ok st -> call_ok c ->
  exists st', func_stack B st (call_name c) (call_arg c) = Some (st', (stack_spec (stack_view st) c).2) /\
    stack_ok st' /\ stack_view st' = (stack_spec (stack_view st) c).1.
Proof.
  intros HB Hok Hc. pose proof Hok as (Hl & Hp & Hch). destruct (zget_slot st (sptr st) Hok Hp) as (x & Hx & _ & Hxc).
  pose proof (view_head st x Hok Hx) as Hh. unfold stack_spec. rewrite Hh. cbn [default from_option].
  destruct c as [a | y | d |]; cbn [call_name call_arg]; unfold func_stack, STACKSIZE; names.
  - rewrite Hx. cbn -[Z.rem]. case_bool_decide; [by exists st |].
    rewrite Z.rem_mod_nonneg by lia. rewrite zset_slot by (done || mod25). cbn.
    destruct (view_push st a Hok Hc) as [H1 H2]. eexists. split; [done |]. by split.
  - rewrite Hx. cbn -[Z.rem]. rewrite zset_slot by (done || lia). cbn -[Z.rem]. rewrite Z.rem_mod_nonneg by lia.
    rewrite cval_first by done. destruct (view_pop st Hok) as [H1 H2].
    eexists. split; [done |]. by split.
  - cbn in Hc. destruct (int4_show B d HB) as [-> Hpos]; [unfold is_int; lia |].
    replace (len (show d) =? 0) with false by lia. rewrite (i32_small (sptr st + d)), i32_small by lia.
    rewrite Z.rem_mod_nonneg by lia. set (k := (sptr st + d + 25) `mod` 25).
    destruct (zget_slot st k Hok) as (t & Ht & Ht' & _); [unfold k; mod25 |]. rewrite Ht. cbn.
    exists st. split; [| done]. do 2 f_equal. rewrite view_lookup by (done || mod25). cbn.
    replace ((sptr st - (- d) `mod` 25) `mod` 25) with k by (unfold k; mod25). by rewrite Ht'.
  - eexists. split; [done |].
    assert (Hm : map (fun _ : list Z => @nil Z) (slots st) = replicate 25 []).
    { rewrite <- Hl. clear. induction (slots st) as [| a l IH]; [done |]. cbn. by rewrite IH. }
    rewrite Hm. apply view_empty.
Qed.

(** The texts that a sequence of calls appends. *)
Fixpoint run_stack (B : list Z) (st : cstack) (cs : list stack_call) : option (list (list Z)) :=
  match cs with
  | [] => Some []
  | c :: cs' =>
      '(st', out) ← func_stack B st (call_name c) (call_arg c);
      (fun outs => out :: outs) <$> run_stack B st' cs'
  end.

Fixpoint run_spec (v : list (list Z)) (cs : list stack_call) : list (list Z) :=
  match cs with
  | [] => []
  | c :: cs' => (stack_spec v c).2 :: run_spec (stack_spec v c).1 cs'
  end.

Lemma run_stack_view B st cs :
  good_blanks B -> stack_ok st -> Forall call_ok cs ->
  run_stack B st cs = Some (run_spec (stack_view st) cs).
Proof.
  intros HB Hok Hcs. revert st Hok. induction Hcs as [| c cs Hc Hcs IH]; intros st Hok; [done |].
  cbn [run_stack run_spec]. destruct (stack_step B st c HB Hok Hc) as (st' & -> & Hok' & <-). cbn.
  by rewrite (IH st' Hok').
Qed.

(** Every sequence of [stack_push], [stack_pop], [stack_top] and
    [stack_clear] calls gives the texts that the 25-place stack of the
    specification gives, although the program keeps them in a circle. *)
Theorem stack_refines B cs :
  good_blanks B -> Forall call_ok cs ->
  run_stack B stack_init cs = Some (run_spec (replicate 25 []) cs).
Proof.
  intros HB Hcs. destruct view_empty as [Hok <-]. by apply run_stack_view.
Qed.

Lemma stack_refines_witness :
  run_stack [32; 10; 9] stack_init [push (bytes "a"); push (bytes "b"); top (-1); pop []; pop []; pop (bytes "none")]
  = Some [[]; []; bytes "a"; bytes "b"; bytes "a"; bytes "none"].
Proof.
  apply (stack_refines [32; 10; 9] [push (bytes "a"); push (bytes "b"); top (-1); pop []; pop []; pop (bytes "none")]);
    [apply ascii_blanks |].
  repeat constructor; cbn; lia.
Defined.

(** Neighbours in the order they are pushed are different. *)
Fixpoint changing (x : list Z) (xs : list (list Z)) : Prop :=
  match xs with [] => True | y :: ys => x <> y /\ changing y ys end.

Lemma spec_pushes v xs cs :
  length v = 25%nat -> changing (default [] (head v)) xs ->
  run_spec v (map push xs ++ cs) = map (fun _ => []) xs ++ run_spec (take 25 (reverse xs ++ v)) cs.
Proof.
  revert v. induction xs as [| x xs IH]; intros v Hl Hch.
  { cbn. by rewrite take_ge by lia. }
  destruct Hch as [Hne Hch]. cbn [map app run_spec stack_spec fst snd].
  rewrite bool_decide_eq_false_2 by done. f_equal.
  assert (Hv : x :: removelast v = take 25 (x :: v)) by (cbn; rewrite removelast_firstn_len, Hl; done).
  rewrite IH; [| rewrite Hv, length_take, length_cons; lia | done]. f_equal. f_equal. rewrite Hv, reverse_cons, <- app_assoc.
  cbn [app]. rewrite !take_app. f_equal. rewrite take_take. f_equal. lia.
Qed.

Lemma spec_pops rs w ys :
  Forall (fun r => r <> []) rs -> length ys = length rs ->
  run_spec (rs ++ w) (map pop ys) = rs.
Proof.
  intros Hrs. revert w ys. induction Hrs as [| r rs Hr Hrs IH]; intros w ys Hy; destruct ys as [| y ys]; try done.
  cbn [map run_spec stack_spec fst snd app head default from_option tail]. rewrite bool_decide_eq_false_2 by done.
  f_equal. rewrite <- app_assoc. apply IH. by injection Hy.
Qed.

(** Up to 25 non-empty texts, each different from the one before it,
    come back from the stack in the reverse order. *)
Theorem stack_lifo B xs ys :
  good_blanks B -> (length xs <= 25)%nat -> length ys = length xs -> changing [] xs ->
  Forall (fun x => x <> [] /\ Forall is_char x) xs ->
  run_stack B stack_init (map push xs ++ map pop ys) = Some (map (fun _ => []) xs ++ reverse xs).
Proof.
  intros HB Hl Hy Hch Hxs. destruct view_empty as [Hok Hv]. rewrite run_stack_view; [| done | done |].
  2: { apply Forall_app. split; apply Forall_map; [| by apply Forall_true].
       eapply Forall_impl; [exact Hxs |]. by intros x []. }
  f_equal. rewrite Hv, spec_pushes by done. f_equal. rewrite take_app_ge by (rewrite length_reverse; lia).
  apply spec_pops; [| by rewrite length_reverse]. apply Forall_reverse. eapply Forall_impl; [exact Hxs |]. by intros x [].
Qed.

Lemma stack_lifo_witness :
  run_stack [32; 10; 9] stack_init (map push [bytes "p1"; bytes "p2"] ++ map pop [[]; []]) =
  Some (map (fun _ => []) [bytes "p1"; bytes "p2"] ++ reverse [bytes "p1"; bytes "p2"]).
Proof.
  apply (stack_lifo [32; 10; 9] [bytes "p1"; bytes "p2"] [[]; []]); [apply ascii_blanks | cbn; lia | done | done |].
  vm_compute. repeat constructor; discriminate.
Defined.

(** ** Theorems: sorting *)

Section bubble.
Context (gt : Z -> Z -> bool).
Let le (a b : Z) : Prop := gt a b = false.
Context (le_trans : forall a b c, le a b -> le b c -> le a c) (gt_le : forall a b, gt a b = true -> le b a)
        (le_refl : forall a, le a a).

Lemma pass_perm a l : Permutation (pass_from gt a l) (a :: l).
Proof.
  revert a. induction l as [| b l IH]; intros a; [done |]. cbn. destruct (gt a b).
  - rewrite IH. apply perm_swap.
  - by rewrite IH.
Qed.

Lemma pass_sorted a l : StronglySorted le (a :: l) -> pass_from gt a l = a :: l.
Proof.
  revert a. induction l as [| b l IH]; intros a Hs; [done |]. cbn.
  apply StronglySorted_inv in Hs as [Hs Ha]. apply Forall_cons in Ha as [Hab _].
  unfold le in Hab. rewrite Hab. by rewrite IH.
Qed.

(** A pass leaves alone a sorted end that is above everything before it. *)
Lemma pass_app a u v :
  StronglySorted le v -> Forall (fun x => Forall (le x) v) (a :: u) ->
  pass_from gt a (u ++ v) = pass_from gt a u ++ v.
Proof.
  intros Hv. revert a. induction u as [| b u IH]; intros a Ha; cbn [app].
  - apply Forall_cons in Ha as [Ha _]. rewrite pass_sorted; [done |]. by constructor.
  - apply Forall_cons in Ha as [Ha Hb]. pose proof Hb as Hb'. apply Forall_cons in Hb' as [Hbv Hu].
    cbn [pass_from]. destruct (gt a b); cbn; f_equal; apply IH; by constructor.
Qed.

(** A pass carries a greatest element to the end. *)
Lemma pass_max a l : exists u m, pass_from gt a l = u ++ [m] /\ Forall (fun x => le x m) (a :: l).
Proof.
  revert a. induction l as [| b l IH]; intros a; cbn.
  - exists [], a. split; [done |]. constructor; [apply le_refl | done].
  - destruct (gt a b) eqn:E.
    + destruct (IH a) as (u & m & -> & Hm). exists (b :: u), m. split; [done |].
      apply Forall_cons in Hm as [Ha Hl]. repeat constructor; try done. eapply le_trans; [by apply gt_le | done].
    + destruct (IH b) as (u & m & -> & Hm). exists (a :: u), m. split; [done |].
      pose proof Hm as Hm'. apply Forall_cons in Hm' as [Hb _]. constructor; [by eapply le_trans | done].
Qed.

Lemma sorted_app u v :
  StronglySorted le u -> StronglySorted le v -> Forall (fun x => Forall (le x) v) u -> StronglySorted le (u ++ v).
Proof.
  intros Hu Hv. induction Hu as [| a u Hu IH Ha]; intros Huv; [done |]. apply Forall_cons in Huv as [Hav Huv].
  cbn. constructor; [by apply IH |]. by apply Forall_app.
Qed.

(** After [k] passes the last [k] elements are in place. *)
Lemma passes_inv k l :
  (k <= length l)%nat -> exists u v, Nat.iter k (bubble_pass gt) l = u ++ v /\ length v = k /\
    Permutation (u ++ v) l /\ StronglySorted le v /\ Forall (fun x => Forall (le x) v) u.
Proof.
  induction k as [| k IH]; intros Hk.
  { exists l, []. rewrite app_nil_r. split_and!; [done | done | done | constructor |]. by apply Forall_true. }
  destruct IH as (u & v & E & Hv & Hp & Hs & Hf); [lia |]. rewrite Nat.iter_succ, E.
  assert (Hu : (length u + k = length l)%nat) by (apply Permutation_length in Hp; rewrite length_app in Hp; lia).
  destruct u as [| a u]; [cbn in Hu; lia |]. cbn [app bubble_pass]. rewrite pass_app by done.
  destruct (pass_max a u) as (w & m & Ew & Hm). pose proof (pass_perm a u) as Hpp. rewrite Ew in Hpp.
  exists w, (m :: v). rewrite Ew, <- app_assoc. split; [done |]. split; [cbn; lia |].
  assert (Hin : forall x, x ∈ w ++ [m] -> x ∈ a :: u) by (intros x; by rewrite Hpp).
  rewrite Forall_forall in Hf, Hm. split_and!.
  - change (m :: v) with ([m] ++ v). rewrite app_assoc, Hpp. done.
  - constructor; [done |]. apply Hf, Hin. set_solver.
  - apply Forall_forall. intros x Hx. constructor; [apply Hm, Hin; set_solver | apply Hf, Hin; set_solver].
Qed.

Lemma bubble_sorts l :
  let r := Nat.iter (length l - 1) (bubble_pass gt) l in Permutation r l /\ StronglySorted le r.
Proof.
  destruct (passes_inv (length l - 1) l ltac:(lia)) as (u & v & E & Hv & Hp & Hs & Hf). cbn zeta. rewrite E.
  split; [done |]. assert (Hl : (length u <= 1)%nat) by (apply Permutation_length in Hp; rewrite length_app in Hp; lia).
  apply sorted_app; [| done | done]. destruct u as [| a [| b u]]; [constructor | | cbn in Hl; lia].
  repeat constructor.
Qed.
End bubble.

Lemma StronglySorted_mono {A} (R S : A -> A -> Prop) l :
  (forall a b, R a b -> S a b) -> StronglySorted R l -> StronglySorted S l.
Proof. intros H. induction 1; constructor; [done |]. eapply Forall_impl; [done | auto]. Qed.

Lemma iter_id {A} (f : A -> A) n x : f x = x -> Nat.iter n f x = x.
Proof. intros H. induction n as [| n IH]; [done |]. by rewrite Nat.iter_succ, IH. Qed.

(** Without a direction nothing is exchanged. *)
Lemma pass_none l : bubble_pass (exchange 0) l = l.
Proof. destruct l as [| a l]; [done |]. cbn. revert a. induction l as [| b l IH]; intros a; [done |]. cbn. by rewrite IH. Qed.

(** [num_sort] prints the numbers behind the first one in ascending order
    when that is positive, in descending order when it is negative, and as
    they are when it is 0. *)
Theorem num_sort_sorts B direction ns :
  good_blanks B -> is_int direction -> Forall is_int ns ->
  exists ms, num_sort B (ints_text (direction :: ns)) = Some (ints_text ms) /\ Permutation ms ns /\
    (0 < direction -> StronglySorted (fun a b => (a <= b)) ms) /\
    (direction < 0 -> StronglySorted (fun a b => (b <= a)) ms) /\ (direction = 0 -> ms = ns).
Proof.
  intros HB Hd Hns. unfold num_sort.
  pose proof (ints_at_length B _ _ _ HB (Forall_cons_2 _ _ _ Hd Hns) (ints_at_start B (direction :: ns))) as Hl.
  cbn [length] in Hl.
  destruct (int4_ints B HB _ 0 direction ns Hd (ints_at_start B (direction :: ns))) as (p & -> & _ & Hat).
  rewrite (count_words_ints B _ p ns) by (done || lia). cbn [mbind option_bind].
  destruct (read_ints_ints B (ints_text (direction :: ns)) p ns [] HB Hns) as (q & Hr & _); [by rewrite app_nil_r |].
  rewrite to_nat_len, Hr. cbn [fst]. replace (Z.to_nat (len ns - 1)) with (length ns - 1)%nat by (unfold len; lia).
  eexists. split; [done |]. destruct (Z.lt_total direction 0) as [Hlt | [-> | Hgt]].
  - destruct (bubble_sorts (exchange direction)) with (l := ns) as [H1 H2]; unfold exchange; try (intros; lia).
    split_and!; [done | lia | | lia]. intros _. eapply StronglySorted_mono; [| exact H2]. unfold exchange. cbn. lia.
  - rewrite iter_id by apply pass_none. split_and!; [done | lia | lia | done].
  - destruct (bubble_sorts (exchange direction)) with (l := ns) as [H1 H2]; unfold exchange; try (intros; lia).
    split_and!; [done | | lia | lia]. intros _. eapply StronglySorted_mono; [| exact H2]. unfold exchange. cbn. lia.
Qed.

Lemma num_sort_sorts_witness :
  exists ms, num_sort [32; 10; 9] (ints_text [1; 30; -4; 7]) = Some (ints_text ms) /\ Permutation ms [30; -4; 7] /\
    (0 < 1 -> StronglySorted (fun a b => (a <= b)) ms) /\
    (1 < 0 -> StronglySorted (fun a b => (b <= a)) ms) /\ (1 = 0 -> ms = [30; -4; 7]).
Proof.
  apply (num_sort_sorts [32; 10; 9] 1 [30; -4; 7]); [apply ascii_blanks | unfold is_int; lia |].
  repeat constructor; unfold is_int; lia.
Defined.

(** The order of triplets: by conference, then item, then response. *)
Definition trip_le (a b : triplet) : Prop :=
  let '(ac, ai, ar) := a in let '(bc, bi, br) := b in
  ac < bc \/ (ac = bc /\ (ai < bi \/ (ai = bi /\ ar <= br))).

Definition trip_order (direction : Z) (a b : triplet) : Prop :=
  if 0 <? direction then trip_le a b else trip_le b a.

Lemma behind_true d a b : goes_behind d a b = true -> trip_order d b a.
Proof. destruct a as [[ac ai] ar], b as [[bc bi] br]. unfold goes_behind, trip_order, trip_le. destruct (0 <? d); lia. Qed.

Lemma behind_false d a b : goes_behind d a b = false -> trip_order d a b.
Proof. destruct a as [[ac ai] ar], b as [[bc bi] br]. unfold goes_behind, trip_order, trip_le. destruct (0 <? d); lia. Qed.

Lemma trip_order_trans d a b c : trip_order d a b -> trip_order d b c -> trip_order d a c.
Proof.
  destruct a as [[ac ai] ar], b as [[bc bi] br], c as [[cc ci] cr]. unfold trip_order, trip_le.
  destruct (0 <? d); lia.
Qed.

Lemma trip_insert_perm d t l : Permutation (trip_insert d t l) (t :: l).
Proof.
  induction l as [| p l IH]; [done |]. cbn. destruct (goes_behind d t p); [| done]. rewrite IH. apply perm_swap.
Qed.

Lemma trip_insert_sorted d t l :
  StronglySorted (trip_order d) l -> StronglySorted (trip_order d) (trip_insert d t l).
Proof.
  induction 1 as [| p l Hl IH Hp]; [repeat constructor |]. cbn. destruct (goes_behind d t p) eqn:E.
  - constructor; [done |]. rewrite trip_insert_perm. constructor; [by apply behind_true | done].
  - apply behind_false in E. constructor; [by constructor |]. constructor; [done |].
    eapply Forall_impl; [exact Hp |]. intros q Hq. by eapply trip_order_trans.
Qed.

Lemma trip_insert_all d ts l :
  StronglySorted (trip_order d) l ->
  let r := foldl (fun l item => trip_insert d item l) l ts in
  Permutation r (l ++ ts) /\ StronglySorted (trip_order d) r.
Proof.
  revert l. induction ts as [| t ts IH]; intros l Hl; cbn; [by rewrite app_nil_r |].
  destruct (IH _ (trip_insert_sorted d t l Hl)) as [H1 H2]. split; [| done].
  rewrite H1, trip_insert_perm. apply Permutation_middle.
Qed.

Lemma read_triplets_ints B s pos ts :
  good_blanks B -> Forall (fun t => Forall is_int (triplet_ints t)) ts -> ints_at B s pos (flat_map triplet_ints ts) ->
  read_triplets (length ts) B s pos = ts.
Proof.
  intros HB Hts. revert pos. induction Hts as [| [[c i] r] ts Ht Hts IH]; intros pos Hat; [done |].
  cbn [triplet_ints] in Ht. apply Forall_cons in Ht as [Hc Ht]. apply Forall_cons in Ht as [Hi Ht].
  apply Forall_cons in Ht as [Hr _]. cbn [length read_triplets]. cbn [flat_map triplet_ints app] in Hat.
  destruct (int4_ints B HB s pos c _ Hc Hat) as (p1 & -> & _ & Hat1).
  destruct (int4_ints B HB s p1 i _ Hi Hat1) as (p2 & -> & _ & Hat2).
  destruct (int4_ints B HB s p2 r _ Hr Hat2) as (p3 & -> & _ & Hat3). by rewrite IH.
Qed.

Lemma triplet_ints_all ts :
  Forall (fun t => Forall is_int (triplet_ints t)) ts ->
  Forall is_int (flat_map triplet_ints ts) /\ len (flat_map triplet_ints ts) = 3 * len ts.
Proof.
  induction 1 as [| [[c i] r] ts Ht Hts [IH1 IH2]]; [done |]. cbn [flat_map]. split; [by apply Forall_app |].
  rewrite len_app, IH2, len_cons. change (len (triplet_ints (c, i, r))) with 3. lia.
Qed.

(** [trip_sort] prints the triplets behind the direction ordered by
    conference, item and response, ascending for a positive direction and
    descending otherwise. *)
Theorem trip_sort_sorts B direction ts :
  good_blanks B -> is_int direction -> Forall (fun t => Forall is_int (triplet_ints t)) ts ->
  exists us, trip_sort B (ints_text (direction :: flat_map triplet_ints ts)) =
      Some (ints_text (flat_map triplet_ints us)) /\
    Permutation us ts /\ StronglySorted (trip_order direction) us.
Proof.
  intros HB Hd Hts. destruct (triplet_ints_all ts Hts) as [Hns Hlen]. set (ns := flat_map triplet_ints ts) in *.
  unfold trip_sort.
  pose proof (ints_at_length B _ _ _ HB (Forall_cons_2 _ _ _ Hd Hns) (ints_at_start B (direction :: ns))) as Hl.
  cbn [length] in Hl.
  destruct (int4_ints B HB _ 0 direction ns Hd (ints_at_start B (direction :: ns))) as (p & -> & _ & Hat).
  rewrite (count_words_ints B _ p ns) by (done || lia). cbn [mbind option_bind].
  rewrite Hlen, Z.mul_comm, Z.quot_mul, to_nat_len by lia. rewrite (read_triplets_ints B _ p ts HB Hts Hat).
  destruct (trip_insert_all direction ts [] ltac:(constructor)) as [H1 H2]. eexists. split; [done |]. by split.
Qed.

Lemma trip_sort_sorts_witness :
  exists us, trip_sort [32; 10; 9] (ints_text (1 :: flat_map triplet_ints [(2, 1, 0); (1, 9, 4); (1, 9, 3)])) =
      Some (ints_text (flat_map triplet_ints us)) /\
    Permutation us [(2, 1, 0); (1, 9, 4); (1, 9, 3)] /\ StronglySorted (trip_order 1) us.
Proof.
  apply (trip_sort_sorts [32; 10; 9] 1 [(2, 1, 0); (1, 9, 4); (1, 9, 3)]); [apply ascii_blanks | unfold is_int; lia |].
  repeat constructor; unfold is_int; lia.
Defined.

(** ** Theorems: parentheses *)

(** [d] parentheses are open before [s]: none is closed too many, and all are
    closed at its end. *)
Fixpoint balanced (d : Z) (s : list Z) : Prop :=
  match s with
  | [] => d = 0
  | c :: s' =>
      if c =? 40 then balanced (d + 1) s'
      else if c =? 41 then 0 < d /\ balanced (d - 1) s'
      else balanced d s'
  end.

Lemma close_paren_found body rest d p :
  balanced d body -> 0 <= d -> close_paren (body ++ 41 :: rest) d p = Some (p + len body).
Proof.
  revert d p. induction body as [| c body IH]; intros d p Hb Hd; cbn [app close_paren balanced] in *.
  - subst d. cbn. f_equal. rewrite len_nil. lia.
  - rewrite len_cons. destruct (c =? 40) eqn:E1.
    + replace (c =? 41) with false by lia. cbn [andb]. rewrite IH by (done || lia). f_equal. lia.
    + destruct (c =? 41) eqn:E2.
      * destruct Hb as [H0 Hb]. replace (d =? 0) with false by lia. cbn [andb]. rewrite IH by (done || lia). f_equal. lia.
      * cbn [andb]. rewrite IH by (done || lia). f_equal. lia.
Qed.

Lemma findsub_skip x u s i :
  Forall (fun c => c <> x) u -> findsub [x] (u ++ x :: s) i = i + len u.
Proof.
  intros Hu. revert i. induction Hu as [| c u Hc Hu IH]; intros i.
  - cbn [app findsub prefixb]. rewrite Z.eqb_refl, len_nil. destruct s; cbn; lia.
  - cbn [app findsub prefixb]. replace (x =? c) with false by lia. cbn [andb]. rewrite IH, len_cons. lia.
Qed.

Lemma findsub_some x s i : x ∈ s -> 0 <= i -> i <= findsub [x] s i.
Proof.
  intros Hx. revert i. induction s as [| c s IH]; intros i Hi; [by apply not_elem_of_nil in Hx |].
  cbn [findsub prefixb]. destruct (x =? c) eqn:E; cbn; [lia |]. apply elem_of_cons in Hx as [-> | Hx]; [lia |].
  specialize (IH Hx (i + 1)). lia.
Qed.

(** [pullParens] takes the first parenthesised expression, with nested
    parentheses inside it, out of the source. *)
Theorem pullParens_first u body v :
  Forall (fun c => c <> 40) u -> balanced 0 body ->
  pullParens (u ++ 40 :: body ++ 41 :: v) = (1, u ++ v, 40 :: body ++ [41]).
Proof.
  intros Hu Hb. unfold pullParens. set (s := u ++ 40 :: body ++ 41 :: v).
  pose proof (len_nonneg u) as Hlu. pose proof (len_nonneg body) as Hlb.
  assert (E0 : cindex s 0 [40] = len u).
  { unfold cindex. rewrite bool_decide_eq_false_2 by done. change (drop (Z.to_nat 0) s) with s.
    unfold s. by rewrite findsub_skip. }
  assert (Ed : drop (Z.to_nat (len u)) s = 40 :: body ++ 41 :: v) by apply drop_len_app.
  assert (E1 : 0 <= cindex s (len u) [41]).
  { unfold cindex. rewrite bool_decide_eq_false_2 by done. rewrite Ed.
    pose proof (findsub_some 41 (40 :: body ++ 41 :: v) (len u) ltac:(set_solver) ltac:(lia)). lia. }
  assert (Ed1 : drop (Z.to_nat (len u + 1)) s = body ++ 41 :: v).
  { unfold s. change (u ++ 40 :: body ++ 41 :: v) with (u ++ [40] ++ body ++ 41 :: v). rewrite app_assoc.
    replace (len u + 1) with (len (u ++ [40])) by zlen. apply drop_len_app. }
  rewrite E0. replace (len u <? 0) with false by lia.
  replace (cindex s (len u) [41] <? 0) with false by lia. rewrite Ed1, close_paren_found by (done || lia).
  assert (Ec : csub s (len u) (len u + 1 + len body - len u + 1) = 40 :: body ++ [41]).
  { unfold csub, ALLCHARS. replace (len u + 1 + len body - len u + 1 =? -1000) with false by lia. rewrite Ed.
    replace (40 :: body ++ 41 :: v) with ((40 :: body ++ [41]) ++ v) by (cbn; by rewrite <- app_assoc).
    replace (len u + 1 + len body - len u + 1) with (len (40 :: body ++ [41])) by zlen.
    rewrite to_nat_len. apply take_app_length. }
  rewrite Ec. do 2 f_equal. unfold alter_first.
  assert (E2 : cindex s (len u) (40 :: body ++ [41]) = len u).
  { unfold cindex. rewrite bool_decide_eq_false_2 by done. rewrite Ed. cbn [findsub].
    assert (prefixb (40 :: body ++ [41]) (40 :: body ++ 41 :: v) = true) as ->; [| done].
    apply prefixb_spec. exists v. cbn. by rewrite <- app_assoc. }
  rewrite E2. replace (len u <? 0) with false by lia. cbn [default from_option app].
  assert (Et : take (Z.to_nat (len u)) s = u) by (unfold s; rewrite to_nat_len; apply take_app_length). rewrite Et.
  f_equal. unfold s. replace (u ++ 40 :: body ++ 41 :: v) with ((u ++ 40 :: body ++ [41]) ++ v)
    by (rewrite <- app_assoc; cbn; by rewrite <- app_assoc).
  rewrite <- len_app, drop_len_app. done.
Qed.

Lemma pullParens_first_witness :
  pullParens (bytes "select " ++ 40 :: bytes "f(x) y" ++ 41 :: bytes " (z)") =
  (1, bytes "select " ++ bytes " (z)", 40 :: bytes "f(x) y" ++ [41]).
Proof. apply (pullParens_first (bytes "select ") (bytes "f(x) y") (bytes " (z)")); vm_compute; [repeat constructor; discriminate | done]. Defined.
