(* ===== verification/Table.v ===== *)
(** Looking words up in tables (src/CV2/glyph: tablefin.c, tablepar.c,
    tablemat.c).  A table is a text of entries separated by blanks; the
    entries that [tablematch] searches may list alternatives between slashes.
    Texts stand for Chix arguments as in Html, [None] for a null one. *)
From S2P Require Import Prelude Memory Chix ChixEdit ChixSearch ChixParse.

(** ** Definitions *)

(** The loop of [tablefind] over the tokens; [i] is a [short]. *)
Fixpoint find_loop (fuel : nat) (B table word : list Z) (i : Z) : option Z :=
  match fuel with
  | O => None
  | S fuel' =>
      if 32767 <? i then None else
      let '(r, token) := token_result B i table in
      if r =? -1 then Some (-1)
      else if bool_decide (word = token) then Some (i - 1)
      else find_loop fuel' B table word (i + 1)
  end.

Definition tablefind (B : list Z) (table word : option (list Z)) : option Z :=
  match table, word with
  | Some (c :: t), Some (d :: w) => find_loop (S (S (length t))) B (c :: t) (d :: w) 1
  | _, _ => Some (-1)
  end.

Inductive part_state := P_BLANK | P_TEST | P_SKIP.

(** The loop of [tablepart].  On the first character of an entry [pos--] has
    the same character looked at again in the new state. *)
Fixpoint part_loop (fuel : nat) (B table word : list Z) (pos start which : Z) (state : part_state) : option Z :=
  match fuel with
  | O => None
  | S fuel' =>
      let val := cval table pos in
      if val =? 0 then Some (match state with P_TEST => which | _ => -1 end)
      else
        match state with
        | P_BLANK =>
            if is_blank B val then part_loop fuel' B table word (pos + 1) start which P_BLANK
            else part_loop fuel' B table word pos pos (which + 1) P_TEST
        | P_TEST =>
            if is_blank B val then Some which
            else part_loop fuel' B table word (pos + 1) start which
                   (if val =? cval word (pos - start) then P_TEST else P_SKIP)
        | P_SKIP =>
            part_loop fuel' B table word (pos + 1) start which (if is_blank B val then P_BLANK else P_SKIP)
        end
  end.

Definition tablepart (B : list Z) (table word : option (list Z)) : option Z :=
  match table, word with
  | Some (c :: t), Some (d :: w) => part_loop (2 * length (c :: t) + 2) B (c :: t) (d :: w) 0 0 (-1) P_BLANK
  | _, _ => Some (-1)
  end.

Inductive match_state := STARTWORD | CHECKWORD | NEXTPART | NEXTWORD.

(** The loop of [tablematch]: [sp] is what is left of the table (its terminator
    included), [None] when it has been passed; [wp] is what is left of the
    word. *)
Fixpoint match_loop (fuel : nat) (B word : list Z) (state : match_state) (sp : option (list Z)) (wp : list Z)
    (which res : Z) : option Z :=
  match fuel with
  | O => None
  | S fuel' =>
      match sp with
      | None => Some res
      | Some t =>
          let s := default 0 (head t) in
          let w := default 0 (head wp) in
          let sp1 := match t with _ :: t' => Some t' | [] => None end in
          match state with
          | STARTWORD =>
              if is_blank B s then match_loop fuel' B word STARTWORD sp1 wp which res
              else match_loop fuel' B word CHECKWORD sp word which res
          | CHECKWORD =>
              if (w =? 0) && (0 <=? res) then Some (-2)
              else if w =? 0 then match_loop fuel' B word NEXTWORD sp wp which which
              else if w =? s then match_loop fuel' B word CHECKWORD sp1 (tail wp) which res
              else match_loop fuel' B word NEXTPART sp wp which res
          | NEXTPART =>
              if s =? 47 then match_loop fuel' B word CHECKWORD sp1 word which res
              else if is_blank B s then match_loop fuel' B word STARTWORD sp wp (which + 1) res
              else match_loop fuel' B word NEXTPART sp1 wp which res
          | NEXTWORD =>
              if is_blank B s then match_loop fuel' B word STARTWORD sp wp (which + 1) res
              else match_loop fuel' B word NEXTWORD sp1 wp which res
          end
      end
  end.

Definition tablematch (B : list Z) (table word : option (list Z)) : option Z :=
  match table, word with
  | Some (c :: t), Some (d :: w) =>
      match_loop (4 * length (c :: t) + 4) B (d :: w) STARTWORD (Some (c :: t)) [] 0 (-1)
  | _, _ => Some (-1)
  end.

(** ** Abbreviations *)

(** Some alternative of an entry starts with the word: the first, or one
    behind a slash. *)
Fixpoint slash_part (word e : list Z) : bool :=
  match e with
  | [] => false
  | c :: e' => ((c =? 47) && prefixb word e') || slash_part word e'
  end.

Definition abbreviates (word e : list Z) : bool := prefixb word e || slash_part word e.

(** The numbers of the entries that a word abbreviates, counting from [i]. *)
Fixpoint hits (word : list Z) (es : list (list Z)) (i : Z) : list Z :=
  match es with
  | [] => []
  | e :: es' => (if abbreviates word e then [i] else []) ++ hits word es' (i + 1)
  end.

Definition unique_hit (l : list Z) : Z := match l with [] => -1 | [i] => i | _ => -2 end.

(** What the rest of the entries makes of a result so far. *)
Fixpoint tally (word : list Z) (es : list (list Z)) (which res : Z) : Z :=
  match es with
  | [] => res
  | e :: es' =>
      if abbreviates word e then (if 0 <=? res then -2 else tally word es' (which + 1) which)
      else tally word es' (which + 1) res
  end.

Lemma tally_hits_found word es which res :
  0 <= which -> 0 <= res -> tally word es which res = match hits word es which with [] => res | _ => -2 end.
Proof.
  revert which. induction es as [| e es IH]; intros which Hw Hr; [done |]. cbn [tally hits].
  destruct (abbreviates word e); cbn; [by replace (0 <=? res) with true by lia |]. apply IH; lia.
Qed.

Lemma tally_hits word es which : 0 <= which -> tally word es which (-1) = unique_hit (hits word es which).
Proof.
  revert which. induction es as [| e es IH]; intros which Hw; [done |]. cbn [tally hits].
  destruct (abbreviates word e); cbn [app]; [| apply IH; lia]. change (0 <=? -1) with false. cbv iota.
  rewrite tally_hits_found by lia. by destruct (hits word es (which + 1)).
Qed.

Section matching.
Context (B word : list Z).
Context (Hword : Forall (fun c => c <> 0 /\ c <> 47 /\ is_blank B c = false) word).
Context (H0 : is_blank B 0 = false) (H47 : is_blank B 47 = false) (Hne : word <> []).

(** A hit on the current entry, or not, and then the entries [ws]. *)
Let after_hit (hit : bool) (ws : list (Z * list Z)) (which res : Z) : Z :=
  if hit then (if 0 <=? res then -2 else tally word (map snd ws) (which + 1) which)
  else tally word (map snd ws) (which + 1) res.

Lemma match_loops sp :
  Forall (fun c => c <> 0) sp ->
  (forall fuel wp which res i, (4 * length sp + 2 <= fuel)%nat ->
     match_loop fuel B word NEXTWORD (Some sp) wp which res =
     Some (tally word (map snd (words_from B i sp).2) (which + 1) res)) /\
  (forall fuel wp which res i, (4 * length sp + 2 <= fuel)%nat ->
     match_loop fuel B word NEXTPART (Some sp) wp which res =
     Some (after_hit (slash_part word (words_from B i sp).1) (words_from B i sp).2 which res)) /\
  (forall fuel wp which res i, (4 * length sp + 3 <= fuel)%nat ->
     Forall (fun c => c <> 0 /\ c <> 47 /\ is_blank B c = false) wp ->
     match_loop fuel B word CHECKWORD (Some sp) wp which res =
     Some (after_hit (prefixb wp (words_from B i sp).1 || slash_part word (words_from B i sp).1)
             (words_from B i sp).2 which res)) /\
  (forall fuel wp which res i, (4 * length sp + 4 <= fuel)%nat ->
     match_loop fuel B word STARTWORD (Some sp) wp which res =
     Some (tally word (map snd (words_at B i sp)) which res)).
Proof.
  induction sp as [| c sp IH]; intros Hsp.
  { assert (HW : forall fuel wp which res, (2 <= fuel)%nat ->
      match_loop fuel B word NEXTWORD (Some []) wp which res = Some res).
    { intros [| [| fuel]] wp which res Hf; [lia | lia |]. cbn. by rewrite H0. }
    assert (HP : forall fuel wp which res, (2 <= fuel)%nat ->
      match_loop fuel B word NEXTPART (Some []) wp which res = Some res).
    { intros [| [| fuel]] wp which res Hf; [lia | lia |]. cbn. by rewrite H0. }
    assert (HC : forall fuel wp which res, (3 <= fuel)%nat ->
      Forall (fun c => c <> 0 /\ c <> 47 /\ is_blank B c = false) wp ->
      match_loop fuel B word CHECKWORD (Some []) wp which res = Some (after_hit (prefixb wp []) [] which res)).
    { intros [| fuel] wp which res Hf Hwp; [lia |]. destruct Hwp as [| d wp (Hd & _) Hwp]; cbn.
      - destruct (0 <=? res); [done |]. apply HW. lia.
      - replace (d =? 0) with false by lia. cbn. apply HP. lia. }
    split_and!; intros fuel wp which res i Hf; cbn [length] in Hf.
    - apply HW. lia.
    - apply HP. lia.
    - intros Hwp. cbn [words_from fst snd slash_part]. rewrite orb_false_r. apply HC; [lia | done].
    - destruct fuel as [| fuel]; [lia |]. cbn. rewrite H0. rewrite HC by (done || lia). by destruct word. }
  apply Forall_cons in Hsp as [Hc Hsp]. specialize (IH Hsp) as (IHW & IHP & IHC & IHS).
  cbn [length]. destruct (is_blank B c) eqn:Eb.
  - (* the entry ends here *)
    assert (HS : forall fuel wp which res i, (4 * S (length sp) + 1 <= fuel)%nat ->
      match_loop fuel B word STARTWORD (Some (c :: sp)) wp which res =
      Some (tally word (map snd (words_at B i (c :: sp))) which res)).
    { intros [| fuel] wp which res i Hf; [lia |]. cbn -[is_blank tally]. rewrite Eb.
      rewrite (IHS fuel wp which res (i + 1)) by lia. unfold words_at. cbn [words_from].
      destruct (words_from B (i + 1) sp) as [w ws]. by rewrite Eb. }
    assert (Hfrom : forall i, words_from B i (c :: sp) = ([], words_at B i (c :: sp))).
    { intros i. unfold words_at. cbn [words_from]. destruct (words_from B (i + 1) sp) as [w ws]. by rewrite Eb. }
    assert (Hc47 : c <> 47) by (intros ->; congruence).
    assert (HW : forall fuel wp which res i, (4 * S (length sp) + 2 <= fuel)%nat ->
      match_loop fuel B word NEXTWORD (Some (c :: sp)) wp which res =
      Some (tally word (map snd (words_from B i (c :: sp)).2) (which + 1) res)).
    { intros [| fuel] wp which res i Hf; [lia |]. cbn -[is_blank tally words_from]. rewrite Eb, Hfrom. apply HS. lia. }
    assert (HP : forall fuel wp which res i, (4 * S (length sp) + 2 <= fuel)%nat ->
      match_loop fuel B word NEXTPART (Some (c :: sp)) wp which res =
      Some (after_hit (slash_part word (words_from B i (c :: sp)).1) (words_from B i (c :: sp)).2 which res)).
    { intros [| fuel] wp which res i Hf; [lia |]. cbn -[is_blank tally words_from Z.eqb].
      replace (c =? 47) with false by lia. rewrite Eb, Hfrom. apply HS. lia. }
    split_and!; [done | done | |].
    + intros [| fuel] wp which res i Hf Hwp; [lia |]. destruct Hwp as [| d wp (Hd & _ & Hdb) Hwp].
      * cbn -[is_blank tally words_from]. unfold after_hit. destruct (0 <=? res); [done |].
        rewrite (HW fuel [] which which i) by lia. done.
      * cbn -[is_blank tally words_from Z.eqb slash_part prefixb]. replace (d =? 0) with false by lia. cbn [andb].
        replace (d =? c) with false by (symmetry; apply Z.eqb_neq; congruence).
        rewrite (HP fuel _ which res i) by lia. rewrite Hfrom. done.
    + intros fuel wp which res i Hf. apply HS. lia.
  - (* a character of the entry *)
    assert (Hfrom : forall i, words_from B i (c :: sp) = (c :: (words_from B (i + 1) sp).1, (words_from B (i + 1) sp).2)).
    { intros i. cbn [words_from]. destruct (words_from B (i + 1) sp) as [w ws]. by rewrite Eb. }
    assert (HW : forall fuel wp which res i, (4 * S (length sp) + 2 <= fuel)%nat ->
      match_loop fuel B word NEXTWORD (Some (c :: sp)) wp which res =
      Some (tally word (map snd (words_from B i (c :: sp)).2) (which + 1) res)).
    { intros [| fuel] wp which res i Hf; [lia |]. cbn -[is_blank tally words_from]. rewrite Eb, Hfrom. apply IHW. lia. }
    assert (HP : forall fuel wp which res i, (4 * S (length sp) + 2 <= fuel)%nat ->
      match_loop fuel B word NEXTPART (Some (c :: sp)) wp which res =
      Some (after_hit (slash_part word (words_from B i (c :: sp)).1) (words_from B i (c :: sp)).2 which res)).
    { intros [| fuel] wp which res i Hf; [lia |]. cbn -[is_blank tally words_from Z.eqb slash_part]. rewrite Eb, Hfrom.
      cbn [fst snd slash_part]. destruct (c =? 47); cbn [andb orb]; [apply IHC; [lia | done] | apply IHP; lia]. }
    assert (HC : forall fuel wp which res i, (4 * S (length sp) + 3 <= fuel)%nat ->
      Forall (fun c => c <> 0 /\ c <> 47 /\ is_blank B c = false) wp ->
      match_loop fuel B word CHECKWORD (Some (c :: sp)) wp which res =
      Some (after_hit (prefixb wp (words_from B i (c :: sp)).1 || slash_part word (words_from B i (c :: sp)).1)
             (words_from B i (c :: sp)).2 which res)).
    { intros [| fuel] wp which res i Hf Hwp; [lia |]. destruct Hwp as [| d wp (Hd & Hd47 & Hdb) Hwp].
      - cbn -[is_blank tally words_from slash_part]. unfold after_hit. destruct (0 <=? res); [done |].
        rewrite (HW fuel [] which which i) by lia. done.
      - cbn -[is_blank tally words_from Z.eqb slash_part prefixb]. replace (d =? 0) with false by lia. cbn [andb].
        destruct (d =? c) eqn:E.
        + apply Z.eqb_eq in E as <-. rewrite (IHC fuel wp which res (i + 1)) by (done || lia). rewrite Hfrom.
          cbn [fst snd prefixb slash_part]. rewrite Z.eqb_refl. replace (d =? 47) with false by lia. done.
        + rewrite (HP fuel _ which res i) by lia. rewrite Hfrom. cbn [fst snd prefixb]. rewrite E. done. }
    split_and!; [done | done | done |]. intros [| fuel] wp which res i Hf; [lia |].
    cbn -[is_blank tally words_from slash_part]. rewrite Eb, (HC fuel word which res i) by (done || lia).
    unfold words_at. rewrite Hfrom. cbn [fst snd]. rewrite (bool_decide_eq_false_2 (c :: _ = [])) by done.
    cbn [map tally snd]. unfold after_hit, abbreviates. done.
Qed.
End matching.

(** [tablematch] gives the number of the one entry that the word
    abbreviates (in one of its alternatives), -1 when there is none and -2
    when there are several. *)
Theorem tablematch_unique B table word :
  table <> [] -> word <> [] -> Forall (fun c => c <> 0) table ->
  Forall (fun c => c <> 0 /\ c <> 47 /\ is_blank B c = false) word ->
  is_blank B 0 = false -> is_blank B 47 = false ->
  tablematch B (Some table) (Some word) = Some (unique_hit (hits word (map snd (words B table)) 0)).
Proof.
  intros Ht Hw Htab Hword H0 H47. destruct table as [| c t]; [done |]. destruct word as [| d w]; [done |].
  destruct (match_loops B (d :: w) Hword H0 H47 Hw (c :: t) Htab) as (_ & _ & _ & HS).
  unfold tablematch. rewrite (HS _ _ _ _ 0) by lia. f_equal. by apply tally_hits.
Qed.

Lemma tablematch_unique_witness :
  tablematch [32; 10; 9] (Some (bytes "yes  no help/?")) (Some (bytes "?")) = Some 2.
Proof.
  apply (tablematch_unique [32; 10; 9] (bytes "yes  no help/?") (bytes "?")); try done;
    vm_compute; repeat constructor; discriminate.
Defined.

(** ** Other searches *)

(** The number of the first entry that satisfies [f], counting from [i]. *)
Fixpoint first_where (f : list Z -> bool) (es : list (list Z)) (i : Z) : Z :=
  match es with
  | [] => -1
  | e :: es' => if f e then i else first_where f es' (i + 1)
  end.

Lemma words_from_count B i s :
  (length (words_from B i s).2 + (if bool_decide ((words_from B i s).1 = []) then 0 else 1) <= length s)%nat.
Proof.
  revert i. induction s as [| c s IH]; intros i; [done |]. cbn [words_from length]. specialize (IH (i + 1)).
  destruct (words_from B (i + 1) s) as [w ws]. cbn [fst snd] in IH. destruct (is_blank B c); cbn [fst snd].
  - rewrite (bool_decide_eq_true_2 (@nil Z = [])) by done. case_bool_decide; cbn [length]; lia.
  - rewrite (bool_decide_eq_false_2 (c :: w = [])) by done. case_bool_decide; lia.
Qed.

Lemma words_count B s : (length (words B s) <= length s)%nat.
Proof.
  unfold words, words_at. pose proof (words_from_count B 0 s) as H. destruct (words_from B 0 s) as [w ws].
  cbn [fst snd] in H. case_bool_decide; cbn [length]; lia.
Qed.

Lemma find_loop_spec B table word i fuel :
  len (words B table) <= 32766 -> 1 <= i <= Z.of_nat (length (words B table)) + 1 ->
  (length (words B table) + 2 <= fuel + Z.to_nat i)%nat ->
  find_loop fuel B table word i =
  Some (first_where (fun e => bool_decide (word = e)) (map snd (drop (Z.to_nat (i - 1)) (words B table))) (i - 1)).
Proof.
  unfold len. intros Hn. revert i. induction fuel as [| fuel IH]; intros i Hi Hf; [lia |]. cbn [find_loop].
  replace (32767 <? i) with false by lia. unfold token_result.
  destruct (words B table !! Z.to_nat (i - 1)) as [[p w] |] eqn:E.
  - rewrite (drop_S _ _ _ E). cbn [map snd first_where]. apply lookup_lt_Some in E as Hl.
    pose proof (Forall_lookup_1 _ _ _ _ (words_spec B 0 table) E) as Hw. destruct Hw as [Hp _].
    replace (p =? -1) with false by lia. case_bool_decide; [done |]. rewrite IH by lia.
    replace (i + 1 - 1) with (i - 1 + 1) by lia. by replace (Z.to_nat (i - 1 + 1)) with (S (Z.to_nat (i - 1))) by lia.
  - cbn. apply lookup_ge_None in E. by rewrite drop_ge by lia.
Qed.

(** The number of a word in a table, -1 if it is not there. *)
Definition word_index (B table w : list Z) : Z :=
  match table, w with
  | [], _ | _, [] => -1
  | _, _ => first_where (fun e => bool_decide (w = e)) (map snd (words B table)) 0
  end.

Lemma tablefind_index B table w : len table <= 32766 -> tablefind B (Some table) (Some w) = Some (word_index B table w).
Proof.
  intros Ht. unfold tablefind, word_index. destruct table as [| c t]; [done |]. destruct w as [| d w]; [done |].
  pose proof (words_count B (c :: t)) as Hc. unfold len in *. cbn [length] in *.
  rewrite find_loop_spec by (unfold len; lia). done.
Qed.

Section part.
Context (B table word : list Z) (Htab : Forall (fun c => c <> 0) table).

Lemma part_loops suf :
  (forall fuel pos start which i, drop (Z.to_nat pos) table = suf -> 0 <= pos -> (2 * length suf + 1 <= fuel)%nat ->
     part_loop fuel B table word pos start which P_SKIP =
     Some (first_where (fun e => prefixb e word) (map snd (words_from B i suf).2) (which + 1))) /\
  (forall fuel pos start which i, drop (Z.to_nat pos) table = suf -> 0 <= start <= pos -> (2 * length suf + 1 <= fuel)%nat ->
     part_loop fuel B table word pos start which P_TEST =
     Some (if prefixb (words_from B i suf).1 (drop (Z.to_nat (pos - start)) word) then which
           else first_where (fun e => prefixb e word) (map snd (words_from B i suf).2) (which + 1))) /\
  (forall fuel pos start which i, drop (Z.to_nat pos) table = suf -> 0 <= pos -> (2 * length suf + 2 <= fuel)%nat ->
     part_loop fuel B table word pos start which P_BLANK =
     Some (first_where (fun e => prefixb e word) (map snd (words_at B i suf)) (which + 1))).
Proof.
  induction suf as [| c suf (IHS & IHT & IHB)].
  { assert (Hend : forall pos, 0 <= pos -> drop (Z.to_nat pos) table = [] -> cval table pos = 0).
    { intros pos Hp Hd. unfold cval. pose proof (lookup_drop table (Z.to_nat pos) 0) as Hl. rewrite Hd, Nat.add_0_r in Hl.
      by rewrite <- Hl. }
    split_and!; intros [| fuel] pos start which i Hd Hp Hf; cbn [length] in Hf; try lia; cbn [part_loop];
      rewrite (Hend pos) by (done || lia); done. }
  assert (Hat : forall pos, 0 <= pos -> drop (Z.to_nat pos) table = c :: suf ->
    cval table pos = c /\ c <> 0 /\ drop (Z.to_nat (pos + 1)) table = suf).
  { intros pos Hp Hd. pose proof (lookup_drop table (Z.to_nat pos) 0) as Hl. rewrite Hd, Nat.add_0_r in Hl. cbn in Hl.
    split_and!; [unfold cval; by rewrite <- Hl | symmetry in Hl; exact (Forall_lookup_1 _ _ _ _ Htab Hl) |].
    replace (Z.to_nat (pos + 1)) with (Z.to_nat pos + 1)%nat by lia. rewrite <- drop_drop, Hd. done. }
  cbn [length].
  assert (HT : forall fuel pos start which i, drop (Z.to_nat pos) table = c :: suf -> 0 <= start <= pos ->
     (2 * S (length suf) + 1 <= fuel)%nat ->
     part_loop fuel B table word pos start which P_TEST =
     Some (if prefixb (words_from B i (c :: suf)).1 (drop (Z.to_nat (pos - start)) word) then which
           else first_where (fun e => prefixb e word) (map snd (words_from B i (c :: suf)).2) (which + 1))).
  { intros [| fuel] pos start which i Hd Hp Hf; [lia |]. destruct (Hat pos ltac:(lia) Hd) as (Ec & Hc & Hd').
    cbn [part_loop]. rewrite Ec. replace (c =? 0) with false by lia. cbn [words_from].
    pose proof (IHT fuel (pos + 1) start which (i + 1) Hd' ltac:(lia) ltac:(lia)) as HT'.
    pose proof (IHS fuel (pos + 1) start which (i + 1) Hd' ltac:(lia) ltac:(lia)) as HS'.
    destruct (words_from B (i + 1) suf) as [w ws]. destruct (is_blank B c); [done |]. cbn [fst snd] in *.
    assert (Hpre : prefixb (c :: w) (drop (Z.to_nat (pos - start)) word) =
      (c =? cval word (pos - start)) && prefixb w (drop (Z.to_nat (pos + 1 - start)) word)).
    { replace (Z.to_nat (pos + 1 - start)) with (S (Z.to_nat (pos - start))) by lia. unfold cval.
      destruct (word !! Z.to_nat (pos - start)) as [d |] eqn:Ed.
      - by rewrite (drop_S _ _ _ Ed).
      - apply lookup_ge_None in Ed. rewrite (drop_ge word (Z.to_nat (pos - start))) by lia. cbn.
        by replace (c =? 0) with false by lia. }
    rewrite Hpre. destruct (c =? cval word (pos - start)); cbn [andb]; done. }
  split_and!; [| done |].
  - intros [| fuel] pos start which i Hd Hp Hf; [lia |]. destruct (Hat pos Hp Hd) as (Ec & Hc & Hd').
    cbn [part_loop]. rewrite Ec. replace (c =? 0) with false by lia. cbn [words_from].
    pose proof (IHB fuel (pos + 1) start which (i + 1) Hd' ltac:(lia) ltac:(lia)) as HB'.
    pose proof (IHS fuel (pos + 1) start which (i + 1) Hd' ltac:(lia) ltac:(lia)) as HS'. unfold words_at in HB'.
    destruct (words_from B (i + 1) suf) as [w ws]. by destruct (is_blank B c).
  - intros [| fuel] pos start which i Hd Hp Hf; [lia |]. destruct (Hat pos Hp Hd) as (Ec & Hc & Hd').
    cbn [part_loop]. rewrite Ec. replace (c =? 0) with false by lia. unfold words_at.
    destruct (is_blank B c) eqn:Eb.
    + pose proof (IHB fuel (pos + 1) start which (i + 1) Hd' ltac:(lia) ltac:(lia)) as HB'. unfold words_at in HB'.
      cbn [words_from]. destruct (words_from B (i + 1) suf) as [w ws]. rewrite Eb. done.
    + rewrite (HT fuel pos pos (which + 1) i Hd) by lia. cbn [words_from].
      destruct (words_from B (i + 1) suf) as [w ws]. rewrite Eb. rewrite (bool_decide_eq_false_2 (c :: w = [])) by done.
      rewrite Z.sub_diag. done.
Qed.
End part.

(** [tablefind] gives the number of the first entry equal to the word,
    [tablepart] the number of the first entry that the word starts with, and
    both -1 when there is none. *)
Theorem table_searches B table word :
  table <> [] -> word <> [] -> Forall (fun c => c <> 0) table -> len (words B table) <= 32766 ->
  tablefind B (Some table) (Some word) =
    Some (first_where (fun e => bool_decide (word = e)) (map snd (words B table)) 0) /\
  tablepart B (Some table) (Some word) =
    Some (first_where (fun e => prefixb e word) (map snd (words B table)) 0).
Proof.
  intros Ht Hw Htab Hn. destruct table as [| c t]; [done |]. destruct word as [| d w]; [done |]. split.
  - unfold tablefind. pose proof (words_count B (c :: t)) as Hc. cbn [length] in Hc. rewrite find_loop_spec by (done || lia). done.
  - destruct (part_loops B (c :: t) (d :: w) Htab (c :: t)) as (_ & _ & HB).
    exact (HB (2 * length (c :: t) + 2)%nat 0 0 (-1) 0 eq_refl ltac:(lia) ltac:(lia)).
Qed.

Lemma table_searches_witness :
  tablefind [32; 10; 9] (Some (bytes "foo bar ba")) (Some (bytes "ba")) = Some 2 /\
  tablepart [32; 10; 9] (Some (bytes "foo bar ba")) (Some (bytes "ban")) = Some 2.
Proof.
  assert (H : tablefind [32; 10; 9] (Some (bytes "foo bar ba")) (Some (bytes "ba")) = Some 2)
    by (apply (table_searches [32; 10; 9] (bytes "foo bar ba") (bytes "ba")); try done;
        vm_compute; repeat constructor; discriminate).
  split; [exact H |].
  apply (table_searches [32; 10; 9] (bytes "foo bar ba") (bytes "ban")); try done;
    vm_compute; repeat constructor; discriminate.
Defined.
