(* ===== verification/ItemRange.v ===== *)
(** Ranges of items as text (src/CV2/sweb: itpack.c, itparse.c): [it_pack]
    prints the items of a list of triplets as ranges such as 1-5, 7, and
    [it_parse] reads such a text back into triplets, through an Rlist.  Texts
    stand for Chix arguments as in Html. *)
From S2P Require Import Prelude Memory Chix ChixEdit ChixSearch ChixParse Rlist Str Html Numbers CmlLists.
From Stdlib Require Import Sorting.Sorted.

(** ** Packing *)

(** The highest item of conference [cnum]. *)
Definition highest_item (cnum : Z) (ts : list triplet) : Z :=
  foldl (fun highest '(tc, ti, _) => if negb (tc =? cnum) then highest else if highest <? ti then ti else highest) 0 ts.

(** [mask[ti] = 1] for its items; [None] for an item outside the mask. *)
Fixpoint fill_mask (cnum : Z) (ts : list triplet) (mask : list Z) : option (list Z) :=
  match ts with
  | [] => Some mask
  | (tc, ti, _) :: ts' =>
      if negb (tc =? cnum) then fill_mask cnum ts' mask
      else mask' ← zset mask ti 1; fill_mask cnum ts' mask'
  end.

(** One range, with what separates it from the one before. *)
Definition range_text (comma : Z) (add_trailer : bool) (seq0 seq1 : Z) : list Z :=
  (if add_trailer then (if comma =? 0 then [32] else [44; 32]) else []) ++
  (if seq0 <? seq1 then show seq0 ++ 45 :: show seq1 else show seq0).

(** The loop over the mask from [count] on. *)
Fixpoint pack_scan (comma : Z) (mask : list Z) (count seq0 seq1 : Z) (add_trailer : bool) : list Z :=
  match mask with
  | [] => []
  | b :: mask' =>
      if negb (b =? 0) then pack_scan comma mask' (count + 1) (if seq0 =? 0 then count else seq0) count add_trailer
      else if negb (seq0 =? 0) then
        range_text comma add_trailer seq0 seq1 ++ pack_scan comma mask' (count + 1) 0 0 true
      else pack_scan comma mask' (count + 1) seq0 seq1 add_trailer
  end.

(** The value returned and the text appended. *)
Definition it_pack (B arg : list Z) : option (Z * list Z) :=
  count ← count_words (S (length arg)) B arg 0;
  let triplets := Z.quot (count - 1) 3 in
  let '(cnum, pos) := int4_result B arg 0 in
  if cnum <=? 0 then Some (0, []) else
  let '(comma, psave) := int4_result B arg pos in
  let ts := read_triplets (Z.to_nat triplets) B arg psave in
  let highest := highest_item cnum ts in
  if highest =? 0 then Some (0, []) else
  let highest := highest + 1 in
  mask ← fill_mask cnum ts (zeros (highest + 1));
  Some (1, pack_scan comma mask 0 0 0 false).

(** ** Parsing *)

Inductive range_state := ST_NULL | ST_NUM | ST_NUM2 | ST_QUOTE | ST_WORD | ST_WORD2 | ST_SINCE.

Record parser := mkParser { p_state : range_state; p_num1 : Z; p_word : list Z; p_rl : Rlist }.

(** [itp_addn]: [rl] or a node for the items, without [num1] for one item. *)
Definition itp_addn (num0 num1 : Z) (rl : Rlist) : option Rlist :=
  let num1 := if num1 =? 0 then num0 else num1 in
  let range := [a_mak_rlist; mkR (i16 num0) (i16 num1) 0 (-1)] in
  new ← or_rlist rl range;
  match rl, new with h :: _, _ :: l => Some (h :: l) | _, _ => None end.

(** The indexes of a conference that the text manager keeps (src/CV2/api:
    agetpeop.c, agetname.c): the ids of the people a part of a name stands for,
    and the items that a property and a part of a name select in conference
    [cnum], [None] unless the answer is [A_OK]. *)
Class item_index := {
  a_get_people : Z -> list Z -> list (list Z);
  a_get_namex : Z -> Z -> list Z -> option Rlist
}.

Definition P_TITLE : Z := 0x2.
Definition P_NAME : Z := 0x8.
Definition P_RSINCE : Z := 0x80000.

Section parse.
Context (names : item_index) (B : list Z) (cnum : Z).

(** The text from token [n] on, as [chxtoken] leaves it in [rest]. *)
Definition rest_from (n : Z) (word : list Z) : list Z :=
  let '(p, _) := token_result B n word in
  if p <? 0 then [] else drop (Z.to_nat p) word.

(** [itp_adds]: [rl] or the items that the word selects. *)
Definition itp_adds (word : list Z) (rl : Rlist) : option Rlist :=
  let word1 := jixreduce (snd (token_result B 1 word)) in
  let '(property, namepart) :=
    if bool_decide (word1 = bytes "since") then (P_RSINCE, rest_from 2 word)
    else if bool_decide (word1 = bytes "author") then
      (P_NAME, flat_map (fun id => id ++ [32]) (a_get_people cnum (rest_from 2 word)))
    else (P_TITLE, word) in
  match a_get_namex cnum property namepart with
  | None => Some rl
  | Some found =>
      new ← or_rlist rl found;
      match rl, new with h :: _, _ :: l => Some (h :: l) | _, _ => None end
  end.

(** The next input: a number (-1 and its value), a run of blanks, or a
    character, and the position behind it. *)
Definition range_token (arg : list Z) (pos : Z) : Z * Z * Z :=
  let d := span DIGIT (drop (Z.to_nat pos) arg) in
  if bool_decide (d = []) then
    let b := span (fun c => (c =? 9) || (c =? 32)) (drop (Z.to_nat pos) arg) in
    if bool_decide (b = []) then (cval arg pos, 0, pos + 1) else (32, 0, pos + len b)
  else (-1, dec_value32 d, pos + len d).

Definition set_state (p : parser) (s : range_state) : parser := mkParser s (p_num1 p) (p_word p) (p_rl p).
Definition set_num (p : parser) (s : range_state) (n : Z) : parser := mkParser s n (p_word p) (p_rl p).
Definition set_word (p : parser) (s : range_state) (w : list Z) : parser := mkParser s (p_num1 p) w (p_rl p).
Definition addn (p : parser) (n q : Z) : option parser :=
  rl ← itp_addn n q (p_rl p); Some (mkParser (p_state p) (p_num1 p) (p_word p) rl).
Definition adds (p : parser) : option parser :=
  rl ← itp_adds (p_word p) (p_rl p); Some (mkParser (p_state p) (p_num1 p) (p_word p) rl).

(** [inl]: the loop goes on; [inr]: it breaks. *)
Definition range_step (p : parser) (cv val : Z) : option (parser + parser) :=
  let IS x := cv =? x in
  let next r := q ← (r : option parser); Some (inl q) in
  let stop r := q ← (r : option parser); Some (inr q) in
  let number := show val in
  let w := p_word p in
  match p_state p with
  | ST_NULL =>
      if IS (-1) then next (Some (set_num p ST_NUM val))
      else if IS 45 then next (Some p)
      else if IS 44 then next (Some p)
      else if IS 34 then next (Some (set_word p ST_QUOTE []))
      else if IS 0 then stop (Some p)
      else if IS 32 then next (Some p)
      else next (Some (set_word p ST_WORD [cv]))
  | ST_NUM =>
      p ← (if negb (IS 45 || IS 32) then addn p (p_num1 p) 0 else Some p);
      if IS (-1) then next (Some (set_num p ST_NUM val))
      else if IS 45 then next (Some (set_state p ST_NUM2))
      else if IS 44 then next (Some (set_state p ST_NULL))
      else if IS 34 then next (Some (set_word p ST_QUOTE []))
      else if IS 0 then stop (Some p)
      else if IS 32 then next (Some p)
      else next (Some (set_word p ST_WORD []))
  | ST_NUM2 =>
      if IS (-1) then next (q ← addn p (p_num1 p) val; Some (set_state q ST_NULL))
      else if IS 45 then next (Some p)
      else if IS 44 then next (q ← addn p (p_num1 p) 0; Some (set_state q ST_NULL))
      else if IS 34 then next (q ← addn p (p_num1 p) 0; Some (set_word q ST_QUOTE []))
      else if IS 0 then stop (addn p (p_num1 p) 0)
      else if IS 32 then next (Some p)
      else next (q ← addn p (p_num1 p) 0; Some (set_word q ST_WORD []))
  | ST_QUOTE =>
      if IS (-1) then next (Some (set_word p ST_QUOTE (w ++ number)))
      else if IS 34 then next (q ← adds p; Some (set_state q ST_NULL))
      else if IS 0 then stop (adds p)
      else next (Some (set_word p ST_QUOTE (w ++ [cv])))
  | ST_WORD =>
      if IS (-1) then next (Some (set_word p ST_WORD (w ++ number)))
      else if IS 45 then next (Some (set_word p ST_WORD (w ++ [cv])))
      else if IS 44 then next (q ← adds p; Some (set_state q ST_NULL))
      else if IS 34 then next (q ← adds p; Some (set_state q ST_QUOTE))
      else if IS 0 then stop (adds p)
      else if IS 32 then
        let word := w ++ [cv] in
        next (Some (set_word p (if bool_decide (jixreduce word = bytes "since ") then ST_SINCE else ST_WORD2) word))
      else next (Some (set_word p ST_WORD (w ++ [cv])))
  | ST_WORD2 =>
      if IS (-1) then next (q ← adds p; Some (set_num q ST_NUM val))
      else if IS 45 then next (Some p)
      else if IS 44 then next (q ← adds p; Some (set_state q ST_NULL))
      else if IS 34 then next (q ← adds p; Some (set_state q ST_QUOTE))
      else if IS 0 then stop (adds p)
      else if IS 32 then next (Some p)
      else next (Some (set_word p ST_WORD (w ++ [cv])))
  | ST_SINCE =>
      if IS (-1) then next (Some (set_word p ST_SINCE (w ++ number)))
      else if IS 45 then next (Some (set_word p ST_SINCE (w ++ [cv])))
      else if IS 44 then next (q ← adds p; Some (set_state q ST_NULL))
      else if IS 34 then next (q ← adds p; Some (set_state q ST_QUOTE))
      else if IS 0 then stop (adds p)
      else if IS 32 then next (q ← adds p; Some (set_state q ST_NULL))
      else next (Some (set_word p ST_WORD (w ++ [cv])))
  end.

Fixpoint range_loop (fuel : nat) (arg : list Z) (p : parser) (pos : Z) : option parser :=
  match fuel with
  | O => None
  | S fuel' =>
      let '(cv, val, pos') := range_token arg pos in
      r ← range_step p cv val;
      match r with inl q => range_loop fuel' arg q pos' | inr q => Some q end
  end.

End parse.

(** The triplets of the nodes. *)
Definition rlist_items (cnum : Z) (rl : Rlist) : list Z :=
  flat_map (fun this => flat_map (fun item => [cnum; item; r0 this]) (seqZ (i0 this) (i1 this - i0 this + 1))) (tail rl).

(** The text appended. *)
Definition it_parse (names : item_index) (B arg : list Z) : option (list Z) :=
  let '(cnum, pos) := int4_result B arg 0 in
  p ← range_loop names B cnum (S (length arg)) arg (mkParser ST_NULL 0 [] [a_mak_rlist]) pos;
  Some (ints_text (rlist_items cnum (p_rl p))).

(** ** Lemmas: Rlists of whole items *)

(** A node for all the responses of its items. *)
Definition full (p : rnode) : Prop := r0 p = 0 /\ r1 p = -1 /\ is_short (i0 p) /\ is_short (i1 p).

Definition item_in (l : Rlist) (i : Z) : Prop := exists p, p ∈ l /\ i0 p <= i <= i1 p.

Lemma full_short l : Forall full l -> Forall short_node l.
Proof.
  intros H. eapply Forall_impl; [exact H |]. intros p (H0 & H1 & H2 & H3). unfold short_node, is_short in *. lia.
Qed.

Lemma asc_snoc k l p :
  asc k (l ++ [p]) <-> asc k l /\ Forall (fun q => i1 q < i0 p) l /\ k <= i0 p <= i1 p.
Proof.
  revert k. induction l as [| q l IH]; intros k; cbn [app asc].
  - split; [intros (? & ? & _); split_and!; [done | done | lia | lia] | intros (_ & _ & ?); split_and!; [lia | lia | done]].
  - rewrite IH, Forall_cons. split.
    + intros (H1 & H2 & H3 & H4 & H5). split_and!; try done; lia.
    + intros ((H1 & H2 & H3) & (H4 & H5) & H6). split_and!; try done; lia.
Qed.

Lemma asc_weaken k k' l : k' <= k -> asc k l -> asc k' l.
Proof. destruct l as [| p l]; [done |]. cbn. intros ? (? & ? & ?). split_and!; [lia | done | done]. Qed.

(** The list built so far by the union of such lists. *)
Definition grown (ilo item : Z) (l : Rlist) : Prop :=
  asc ilo l /\ Forall (fun p => i1 p < item /\ r0 p = 0 /\ r1 p = HIGHBOUND /\ is_short (i0 p) /\ is_short (i1 p)) l.

Lemma grown_next ilo item l : grown ilo item l -> grown ilo (item + 1) l.
Proof.
  intros [Ha Hf]. split; [done |]. eapply Forall_impl; [exact Hf |]. intros p (H1 & H2). split; [lia | done].
Qed.

Lemma or_item_grown ilo item pa pb l :
  ilo <= item -> Forall full pa -> Forall full pb -> grown ilo item l ->
  exists l', or_item item ilo pa pb (a_mak_rlist :: l) = a_mak_rlist :: l' /\ grown ilo (item + 1) l'.
Proof.
  intros Hi Fa Fb Hg. unfold or_item.
  assert (Hin : forall px p, Forall full px -> INSIDE item px = Some p -> full p /\ is_short item).
  { intros px p Hpx Hp. destruct Hpx as [| q px Hq Hpx]; [done |]. cbn in Hp.
    destruct ((i0 q <=? item) && (item <=? i1 q)) eqn:E; [| done]. injection Hp as <-. split; [done |].
    destruct Hq as (_ & _ & H1 & H2). unfold is_short in *. lia. }
  assert (Hcase : (lowest item pa pb = HIGHBOUND /\ highest item pa pb = 0) \/
                  (lowest item pa pb = 0 /\ highest item pa pb = HIGHBOUND /\ is_short item)).
  { unfold lowest, highest. destruct (INSIDE item pa) as [p |] eqn:Ea, (INSIDE item pb) as [q |] eqn:Eb;
      try (destruct (Hin pa p Fa Ea) as [(-> & -> & _) ?]); try (destruct (Hin pb q Fb Eb) as [(-> & -> & _) ?]);
      unfold norm, HIGHBOUND; cbn; auto. }
  destruct Hcase as [[-> ->] | (-> & -> & Hs)].
  { cbn. exists l. split; [done | by apply grown_next]. }
  change (HIGHBOUND <? 0) with false. cbv iota. unfold rect. rewrite !(i16_small item) by done.
  change (i16 0) with 0. change (i16 HIGHBOUND) with HIGHBOUND.
  assert (Hnew : grown ilo (item + 1) (l ++ [mkR item item 0 HIGHBOUND])).
  { destruct Hg as [Ha Hf]. split.
    - apply asc_snoc. split_and!; [done | | cbn; lia | cbn; lia].
      eapply Forall_impl; [exact Hf |]. cbn. intros p (? & _). lia.
    - apply Forall_app. split; [| repeat constructor; cbn; try lia; apply Hs].
      eapply Forall_impl; [exact Hf |]. intros p (? & ?). split; [lia | done]. }
  destruct (item =? ilo); [by eexists |].
  destruct l as [| t l _] using rev_ind; [cbn; rewrite andb_false_r; by eexists |].
  rewrite app_comm_cons, last_snoc.
  destruct ((i1 t + 1 =? item) && (r0 t =? 0) && (r1 t =? HIGHBOUND)) eqn:Et; [| by eexists].
  rewrite set_tail_snoc. eexists. split; [done |]. destruct Hg as [Ha Hf].
  apply asc_snoc in Ha as (Ha & Hb & Hc). apply Forall_app in Hf as [Hf Hft]. apply Forall_cons in Hft as [(H1 & H2 & H3 & H4 & H5) _].
  unfold set_i1. rewrite i16_small by done. split.
  - apply asc_snoc. split_and!; [done | done | cbn; lia | cbn; lia].
  - apply Forall_app. split; [eapply Forall_impl; [exact Hf |]; intros p (? & ?); split; [lia | done] |].
    repeat constructor; cbn; try done; try lia; try apply Hs; apply H4.
Qed.

Lemma or_loop_grown ilo fuel item pa pb l res :
  ilo <= item -> Forall full pa -> Forall full pb -> grown ilo item l ->
  or_loop fuel item ilo pa pb (a_mak_rlist :: l) = Some res ->
  exists l' top, res = a_mak_rlist :: l' /\ grown ilo top l'.
Proof.
  revert item pa pb l res. induction fuel as [| fuel IH]; intros item pa pb l res Hi Fa Fb Hg; [done |]. cbn [or_loop].
  pose proof (advance_forall full item pa Fa) as Fa'. pose proof (advance_forall full item pb Fb) as Fb'.
  destruct (or_item_grown ilo item _ _ l Hi Fa' Fb' Hg) as (l1 & E1 & Hg1).
  assert (Hgo : forall r, or_loop fuel (item + 1) ilo (advance item pa) (advance item pb)
      (or_item item ilo (advance item pa) (advance item pb) (a_mak_rlist :: l)) = Some r ->
      exists l' top, r = a_mak_rlist :: l' /\ grown ilo top l').
  { intros r. rewrite E1. apply IH; [lia | done | done | done]. }
  destruct pa as [| p pa]; [destruct pb as [| q pb] |]; [| exact (Hgo res) | exact (Hgo res)].
  intros [= <-]. by exists l, item.
Qed.

Lemma covers_full l i : Forall full l -> covers l i 0 <-> item_in l i.
Proof.
  intros H. unfold covers, item_in, in_node. rewrite Forall_forall in H. split; intros (p & Hp & Hi).
  - exists p. split; [done | lia].
  - exists p. destruct (H p Hp) as (-> & -> & _). split; [done |]. unfold norm, HIGHBOUND. cbn. lia.
Qed.

Lemma find_full l i : Forall full l -> match find_item l i with
  | Some p => item_in l i /\ norm (r0 p) = 0 /\ norm (r1 p) = HIGHBOUND
  | None => ~ item_in l i end.
Proof.
  induction 1 as [| q l Hq Hl IH]; cbn; [by intros (p & Hp%not_elem_of_nil & _) |].
  destruct ((i0 q <=? i) && (i <=? i1 q)) eqn:E.
  - destruct Hq as (-> & -> & _). split_and!; [exists q; split; [left | lia] | done | done].
  - destruct (find_item l i) as [p |].
    + destruct IH as ((p' & Hp' & Hi) & H1 & H2). split_and!; [exists p'; split; [by right | done] | done | done].
    + intros (p & Hp & Hi). apply elem_of_cons in Hp as [-> | Hp]; [lia |]. apply IH. by exists p.
Qed.

Lemma hull_full la lb i : Forall full la -> Forall full lb -> hull la lb i 0 <-> item_in la i \/ item_in lb i.
Proof.
  intros Ha Hb. pose proof (find_full la i Ha) as Fa. pose proof (find_full lb i Hb) as Fb.
  unfold hull, lo_of, hi_of. destruct (find_item la i) as [p |], (find_item lb i) as [q |];
    try destruct Fa as (Fa & -> & ->); try destruct Fb as (Fb & -> & ->); unfold HIGHBOUND; split; intros H; try lia; auto.
  destruct H; contradiction.
Qed.

(** The union of lists of whole items is one, in order, with the items of
    both. *)
Lemma or_rlist_full ha hb la lb ka kb :
  asc ka la -> asc kb lb -> Forall full la -> Forall full lb ->
  exists l k, or_rlist (ha :: la) (hb :: lb) = Some (a_mak_rlist :: l) /\ asc k l /\ Forall full l /\
    forall i, item_in l i <-> item_in la i \/ item_in lb i.
Proof.
  intros Aa Ab Fa Fb. destruct (or_rlist_covers ha hb la lb ka kb Aa Ab (full_short _ Fa) (full_short _ Fb)) as (l & E & Hc).
  assert (Hshape : exists k, asc k l /\ Forall full l).
  { revert E. unfold or_rlist. set (ilo := match lb with p :: _ => Z.min _ (i0 p) | [] => _ end).
    set (fuel := (_ + _)%nat). destruct (or_loop fuel ilo ilo la lb [a_mak_rlist]) as [acc |] eqn:El; [| done].
    destruct (or_loop_grown ilo fuel ilo la lb [] acc) as (l' & top & -> & Hg); [lia | done | done | by split | exact El |].
    intros [= <-]. exists ilo. destruct Hg as [Ha Hf]. clear El Hc Aa Ab. split.
    - revert Ha. generalize ilo. clear Hf. induction l' as [| p l' IH]; [done |]. intros k (H1 & H2 & H3). cbn.
      destruct (r1 p =? HIGHBOUND); cbn; split_and!; try done; by apply IH.
    - apply Forall_fmap. eapply Forall_impl; [exact Hf |]. intros p (_ & H1 & H2 & H3 & H4). cbn. rewrite H2. cbn.
      by split_and!. }
  destruct Hshape as (k & Hk & Hf). exists l, k. split_and!; try done.
  intros i. rewrite <- covers_full by done. rewrite Hc. by apply hull_full.
Qed.

(** ** Lemmas: reading ranges *)

(** The Rlist holds whole items, in order: those of [I]. *)
Definition items_of (rl : Rlist) (I : Z -> Prop) : Prop :=
  exists h l k, rl = h :: l /\ asc k l /\ Forall full l /\ forall i, item_in l i <-> I i.

Definition good_range (ab : Z * Z) : Prop := 1 <= ab.1 <= ab.2 /\ ab.2 < 2 ^ 15.
Definition in_ranges (rs : list (Z * Z)) (i : Z) : Prop := exists a b, (a, b) ∈ rs /\ a <= i <= b.

Lemma items_of_iff rl I J : (forall i, I i <-> J i) -> items_of rl I -> items_of rl J.
Proof. intros H (h & l & k & -> & Hk & Hf & Hi). exists h, l, k. split_and!; try done. intros i. by rewrite Hi. Qed.

Lemma itp_addn_adds a b rl I :
  1 <= a < 2 ^ 15 -> (b = 0 \/ a <= b < 2 ^ 15) -> items_of rl I ->
  exists rl', itp_addn a b rl = Some rl' /\ items_of rl' (fun i => I i \/ a <= i <= (if b =? 0 then a else b)).
Proof.
  intros Ha Hb (h & l & k & -> & Hk & Hf & Hi). unfold itp_addn. set (b' := if b =? 0 then a else b).
  assert (Hb' : a <= b' < 2 ^ 15) by (subst b'; destruct (b =? 0) eqn:E; lia).
  rewrite !i16_small by lia.
  destruct (or_rlist_full h a_mak_rlist l [mkR a b' 0 (-1)] k a) as (l' & k' & -> & Hk' & Hf' & Hin); [done | | done | |].
  { cbn. lia. }
  { repeat constructor; cbn; try done; lia. }
  cbn. exists (h :: l'). split; [done |]. exists h, l', k'. split_and!; try done.
  intros i. rewrite Hin, Hi. split; (intros [? | Hx]; [by left | right]).
  - destruct Hx as (p & Hp%list_elem_of_singleton & Hr). subst p. done.
  - exists (mkR a b' 0 (-1)). split; [by apply list_elem_of_singleton | done].
Qed.

Fixpoint ranges_text (comma : Z) (tr : bool) (rs : list (Z * Z)) : list Z :=
  match rs with
  | [] => []
  | (a, b) :: rs' => range_text comma tr a b ++ ranges_text comma true rs'
  end.

(** Inputs at the position behind [u]. *)
Lemma token_number u n t :
  0 <= n < 2 ^ 31 -> (forall c, head t = Some c -> DIGIT c = false) ->
  range_token (u ++ show n ++ t) (len u) = (-1, n, len u + len (show n)).
Proof.
  intros Hn Ht. destruct (show_spec n) as (d & Es & Hd & Hne & Hv); [unfold is_int; lia |].
  replace (n <? 0) with false in Es by lia. cbn in Es. rewrite Es. unfold range_token. rewrite drop_len_app.
  rewrite (span_app DIGIT d t) by done. rewrite bool_decide_eq_false_2 by done.
  rewrite dec_value32_exact by (done || lia). do 2 f_equal. lia.
Qed.

Lemma token_char u c t :
  DIGIT c = false -> c <> 9 -> c <> 32 -> range_token (u ++ c :: t) (len u) = (c, 0, len u + 1).
Proof.
  intros H1 H2 H3. unfold range_token. rewrite drop_len_app. cbn [span]. rewrite H1.
  replace ((c =? 9) || (c =? 32)) with false by lia. cbn. by rewrite cval_app.
Qed.

Lemma token_blank u t :
  (forall c, head t = Some c -> c <> 9 /\ c <> 32) -> range_token (u ++ 32 :: t) (len u) = (32, 0, len u + 1).
Proof.
  intros Ht. unfold range_token. rewrite drop_len_app. cbn.
  assert (span (fun c => (c =? 9) || (c =? 32)) t = []) as ->; [| done].
  destruct t as [| c t]; [done |]. cbn. destruct (Ht c eq_refl). by replace ((c =? 9) || (c =? 32)) with false by lia.
Qed.

Lemma token_end u : range_token u (len u) = (0, 0, len u + 1).
Proof.
  unfold range_token. rewrite drop_ge by (unfold len; lia). cbn. by rewrite cval_past by lia.
Qed.

Lemma show_head n t : 0 <= n < 2 ^ 31 -> exists c w, show n ++ t = c :: w /\ DIGIT c = true.
Proof.
  intros Hn. destruct (show_spec n) as (d & Es & Hd & Hne & _); [unfold is_int; lia |].
  replace (n <? 0) with false in Es by lia. cbn in Es. rewrite Es. destruct Hd as [| c d Hc Hd]; [done |]. by exists c, (d ++ t).
Qed.

(** What may follow a number in a text of ranges. *)
Lemma ranges_head comma rs :
  (forall c, head (ranges_text comma true rs) = Some c -> DIGIT c = false).
Proof.
  destruct rs as [| [a b] rs]; [done |]. cbn. unfold range_text. intros c. destruct (comma =? 0); cbn; by intros [= <-].
Qed.

Lemma len_snoc {A} (u : list A) c : len u + 1 = len (u ++ [c]).
Proof. rewrite len_app, len_cons, len_nil. lia. Qed.

Section ranges.
Context (names : item_index) (B : list Z) (cnum comma : Z) (arg : list Z).

(** Started in this state before [t], the parser ends with the items [J]. *)
Definition parses (t : list Z) (p : parser) (J : Z -> Prop) : Prop :=
  forall u fuel, arg = u ++ t -> (length t < fuel)%nat ->
  exists q, range_loop names B cnum fuel arg p (len u) = Some q /\ items_of (p_rl q) J.

(** One turn of the loop. *)
Lemma parses_step t1 t2 p cv val q J :
  t1 <> [] -> (forall u, range_token (u ++ t1 ++ t2) (len u) = (cv, val, len u + len t1)) ->
  range_step names B cnum p cv val = Some (inl q) -> parses t2 q J -> parses (t1 ++ t2) p J.
Proof.
  intros Hne Ht Hs Hp u fuel Hu Hf. destruct fuel as [| fuel]; [lia |]. cbn [range_loop].
  assert (Htok : range_token arg (len u) = (cv, val, len u + len t1)) by (rewrite Hu; apply Ht).
  rewrite Htok, Hs. cbn. rewrite length_app in Hf.
  assert (0 < length t1)%nat by (destruct t1; [done | cbn; lia]).
  rewrite <- len_app. apply (Hp (u ++ t1)); [by rewrite Hu, <- app_assoc | lia].
Qed.

Lemma parses_iff t p I J : (forall i, I i <-> J i) -> parses t p I -> parses t p J.
Proof.
  intros H Hp u fuel Hu Hf. destruct (Hp u fuel Hu Hf) as (q & E & Hq). exists q. split; [done |].
  by eapply items_of_iff.
Qed.

(** The two states between the numbers of a text of ranges: nothing pending,
    or one number that may still become the start of a range. *)
Let idle n w rl := mkParser ST_NULL n w rl.
Let pending n w rl := mkParser ST_NUM n w rl.

(** The end of the text. *)
Lemma parses_end_idle n w rl I : items_of rl I -> parses [] (idle n w rl) I.
Proof.
  intros HI u fuel Hu Hf. rewrite app_nil_r in Hu. destruct fuel as [| fuel]; [lia |]. cbn [range_loop].
  rewrite Hu, token_end. cbn. eauto.
Qed.

Lemma parses_end_pending n w rl I :
  1 <= n < 2 ^ 15 -> items_of rl I -> parses [] (pending n w rl) (fun i => I i \/ i = n).
Proof.
  intros Hn HI u fuel Hu Hf. rewrite app_nil_r in Hu. destruct fuel as [| fuel]; [lia |]. cbn [range_loop].
  rewrite Hu, token_end. destruct (itp_addn_adds n 0 rl I) as (rl' & E & HI'); [done | by left | done |].
  unfold range_step, addn. cbn. rewrite E. cbn. eexists. split; [done |]. eapply items_of_iff; [| exact HI']. cbn.
  intros i. intuition lia.
Qed.

(** A comma, a blank, a number. *)
Lemma parses_comma_idle t n w rl J : parses t (idle n w rl) J -> parses (44 :: t) (idle n w rl) J.
Proof. apply (parses_step [44] t _ 44 0); [done | | done]. intros u. by apply token_char. Qed.

Lemma parses_comma_pending t n w rl I J :
  1 <= n < 2 ^ 15 -> items_of rl I ->
  (forall rl', items_of rl' (fun i => I i \/ i = n) -> parses t (idle n w rl') J) ->
  parses (44 :: t) (pending n w rl) J.
Proof.
  intros Hn HI Hp. destruct (itp_addn_adds n 0 rl I) as (rl' & E & HI'); [done | by left | done |].
  eapply (parses_step [44] t _ 44 0); [done | intros u; by apply token_char | | apply (Hp rl')].
  - unfold range_step, addn. cbn. by rewrite E.
  - eapply items_of_iff; [| exact HI']. cbn. intros i. intuition lia.
Qed.

Lemma parses_blank t p J :
  (p_state p = ST_NULL \/ p_state p = ST_NUM) -> (forall c, head t = Some c -> c <> 9 /\ c <> 32) ->
  parses t p J -> parses (32 :: t) p J.
Proof.
  intros Hs Ht. apply (parses_step [32] t _ 32 0); [done | intros u; by apply token_blank |].
  destruct p as [st n w rl]. cbn in Hs. by destruct Hs as [-> | ->].
Qed.

Lemma parses_number_idle t a n w rl J :
  0 <= a < 2 ^ 31 -> (forall c, head t = Some c -> DIGIT c = false) ->
  parses t (pending a w rl) J -> parses (show a ++ t) (idle n w rl) J.
Proof.
  intros Ha Ht. apply parses_step with (cv := -1) (val := a); [| intros u; by apply token_number | done].
  destruct (show_head a [] Ha) as (c & w' & E & _). rewrite app_nil_r in E. by rewrite E.
Qed.

Lemma parses_number_pending t a n w rl I J :
  0 <= a < 2 ^ 31 -> (forall c, head t = Some c -> DIGIT c = false) -> 1 <= n < 2 ^ 15 -> items_of rl I ->
  (forall rl', items_of rl' (fun i => I i \/ i = n) -> parses t (pending a w rl') J) ->
  parses (show a ++ t) (pending n w rl) J.
Proof.
  intros Ha Ht Hn HI Hp. destruct (itp_addn_adds n 0 rl I) as (rl' & E & HI'); [done | by left | done |].
  eapply parses_step with (cv := -1) (val := a); [| intros u; by apply token_number | | apply (Hp rl')].
  - destruct (show_head a [] Ha) as (c & w' & Ec & _). rewrite app_nil_r in Ec. by rewrite Ec.
  - unfold range_step, addn. cbn. by rewrite E.
  - eapply items_of_iff; [| exact HI']. cbn. intros i. intuition lia.
Qed.

(** The rest of a range whose start is pending. *)
Lemma parses_range t a b w rl I J :
  1 <= a < b -> b < 2 ^ 15 -> (forall c, head t = Some c -> DIGIT c = false) -> items_of rl I ->
  (forall rl', items_of rl' (fun i => I i \/ a <= i <= b) -> parses t (idle a w rl') J) ->
  parses (45 :: show b ++ t) (pending a w rl) J.
Proof.
  intros Hab Hb Ht HI Hp.
  apply (parses_step [45] (show b ++ t) _ 45 0 (mkParser ST_NUM2 a w rl)); [done | intros u; by apply token_char | done |].
  destruct (itp_addn_adds a b rl I) as (rl' & E & HI'); [lia | right; lia | done |].
  eapply parses_step with (cv := -1) (val := b); [| intros u; apply token_number; [lia | done] | | apply (Hp rl')].
  - destruct (show_head b [] ltac:(lia)) as (c & w' & Ec & _). rewrite app_nil_r in Ec. by rewrite Ec.
  - unfold range_step, addn. cbn. by rewrite E.
  - eapply items_of_iff; [| exact HI']. cbn. replace (b =? 0) with false by lia. done.
Qed.

Lemma in_ranges_cons a b rs i : in_ranges ((a, b) :: rs) i <-> a <= i <= b \/ in_ranges rs i.
Proof.
  unfold in_ranges. split.
  - intros (x & y & Hin & Hi). apply elem_of_cons in Hin as [[= -> ->] | Hin]; [by left | right; eauto].
  - intros [Hi | (x & y & Hin & Hi)]; [exists a, b | exists x, y]; (split; [| done]); [left | by right].
Qed.

Lemma in_ranges_nil i : ~ in_ranges [] i.
Proof. by intros (x & y & H%not_elem_of_nil & _). Qed.

(** A digit is no blank. *)
Lemma show_not_blank a t c : 0 <= a < 2 ^ 31 -> head (show a ++ t) = Some c -> c <> 9 /\ c <> 32.
Proof.
  intros Ha Hc. destruct (show_head a t Ha) as (d & w & E & Hd). rewrite E in Hc. injection Hc as <-.
  unfold DIGIT in Hd. lia.
Qed.

Lemma parses_ranges rs :
  Forall good_range rs ->
  (forall tr n w rl I, items_of rl I -> parses (ranges_text comma tr rs) (idle n w rl) (fun i => I i \/ in_ranges rs i)) /\
  (forall n w rl I, 1 <= n < 2 ^ 15 -> items_of rl I ->
     parses (ranges_text comma true rs) (pending n w rl) (fun i => I i \/ i = n \/ in_ranges rs i)).
Proof.
  induction 1 as [| [a b] rs [Hab Hb] Hrs [IHi IHp]].
  { split; intros; eapply parses_iff; [| by apply parses_end_idle | | by apply parses_end_pending];
      intros i; pose proof (in_ranges_nil i); tauto. }
  cbn [fst snd] in Hab, Hb. pose proof (ranges_head comma rs) as Hh.
  (* behind the start of the range *)
  set (tl := (if a <? b then 45 :: show b else []) ++ ranges_text comma true rs).
  assert (Htl : forall c, head tl = Some c -> DIGIT c = false).
  { unfold tl. destruct (a <? b); [by intros ? [= <-] | done]. }
  assert (Htail : forall w rl I, items_of rl I -> parses tl (pending a w rl) (fun i => I i \/ in_ranges ((a, b) :: rs) i)).
  { intros w rl I HI. unfold tl. destruct (a <? b) eqn:E; cbn [app].
    - eapply parses_range; [lia | done | done | exact HI |]. intros rl' HI'.
      eapply parses_iff; [| apply IHi, HI']. intros i. rewrite in_ranges_cons. tauto.
    - eapply parses_iff; [| apply IHp; [lia | exact HI]]. intros i. rewrite in_ranges_cons. intuition lia. }
  assert (Etext : forall tr, ranges_text comma tr ((a, b) :: rs) =
    (if tr then (if comma =? 0 then [32] else [44; 32]) else []) ++ show a ++ tl).
  { intros tr. cbn [ranges_text]. unfold range_text, tl. rewrite <- app_assoc. f_equal.
    destruct (a <? b); cbn; by rewrite <- ?app_assoc. }
  assert (Hnb : forall c, head (show a ++ tl) = Some c -> c <> 9 /\ c <> 32) by (intros c; apply show_not_blank; lia).
  split.
  - intros tr n w rl I HI. rewrite Etext.
    assert (Hn : parses (show a ++ tl) (idle n w rl) (fun i => I i \/ in_ranges ((a, b) :: rs) i)).
    { apply parses_number_idle; [lia | done | by apply Htail]. }
    destruct tr; [| done]. destruct (comma =? 0); cbn [app]; [| apply parses_comma_idle];
      (apply parses_blank; [by left | done | done]).
  - intros n w rl I Hn HI. rewrite Etext. destruct (comma =? 0); cbn [app].
    + apply parses_blank; [by right | done |]. eapply parses_number_pending; [lia | done | done | exact HI |].
      intros rl' HI'. eapply parses_iff; [| apply Htail, HI']. intros i. tauto.
    + eapply parses_comma_pending; [done | exact HI |]. intros rl' HI'. apply parses_blank; [by left | done |].
      apply parses_number_idle; [lia | done |]. eapply parses_iff; [| apply Htail, HI']. intros i. tauto.
Qed.
End ranges.

(** ** Lemmas: listing the items *)

Definition rlist_numbers (l : Rlist) : list Z := flat_map (fun p => seqZ (i0 p) (i1 p - i0 p + 1)) l.

Lemma elem_of_numbers l i : i ∈ rlist_numbers l <-> item_in l i.
Proof.
  unfold rlist_numbers, item_in. rewrite list_elem_of_In, in_flat_map. split.
  - intros (p & Hp & Hi). apply list_elem_of_In in Hp, Hi. rewrite elem_of_seqZ in Hi. exists p. split; [done | lia].
  - intros (p & Hp & Hi). exists p. split; [by apply list_elem_of_In |]. apply list_elem_of_In, elem_of_seqZ. lia.
Qed.

Lemma seqZ_sorted m n : StronglySorted Z.lt (seqZ m n).
Proof.
  destruct (decide (0 <= n)); [| by rewrite seqZ_nil by lia; constructor].
  revert m. generalize dependent n. apply (natlike_ind (fun n => forall m, StronglySorted Z.lt (seqZ m n))).
  - intros m. rewrite seqZ_nil by lia. constructor.
  - intros n Hn IH m. rewrite seqZ_cons, Z.pred_succ by lia. constructor; [apply IH |].
    apply Forall_forall. intros x Hx%elem_of_seqZ. lia.
Qed.

Lemma sorted_lt_app u v :
  StronglySorted Z.lt u -> StronglySorted Z.lt v -> (forall x y, x ∈ u -> y ∈ v -> x < y) -> StronglySorted Z.lt (u ++ v).
Proof.
  intros Hu Hv. induction Hu as [| a u Hu IH Ha]; intros H; [done |]. cbn. constructor.
  - apply IH. intros x y Hx. apply H. by right.
  - apply Forall_app. split; [done |]. apply Forall_forall. intros y Hy. apply H; [left | done].
Qed.

Lemma asc_items k l i : asc k l -> item_in l i -> k <= i.
Proof.
  revert k. induction l as [| p l IH]; intros k Hk (q & Hq & Hi); [by apply not_elem_of_nil in Hq |].
  destruct Hk as (H1 & H2 & H3). apply elem_of_cons in Hq as [-> | Hq]; [lia |].
  specialize (IH _ H3 (ex_intro _ q (conj Hq Hi))). lia.
Qed.

Lemma numbers_sorted k l : asc k l -> StronglySorted Z.lt (rlist_numbers l).
Proof.
  revert k. induction l as [| p l IH]; intros k Hk; [constructor |]. destruct Hk as (H1 & H2 & H3).
  apply sorted_lt_app; [apply seqZ_sorted | by eapply IH |]. intros x y Hx%elem_of_seqZ Hy%elem_of_numbers.
  pose proof (asc_items _ _ _ H3 Hy). lia.
Qed.

Lemma rlist_items_full cnum h l :
  Forall full l -> rlist_items cnum (h :: l) = flat_map (fun i => [cnum; i; 0]) (rlist_numbers l).
Proof.
  unfold rlist_items, rlist_numbers. cbn [tail]. induction 1 as [| p l Hp Hl IH]; [done |].
  cbn [flat_map]. by rewrite flat_map_app, IH, (proj1 Hp).
Qed.

(** ** Lemmas: packing *)

(** The triplets name item [i] of the conference. *)
Definition named (cnum : Z) (ts : list triplet) (i : Z) : Prop := exists r, (cnum, i, r) ∈ ts.

Lemma named_cons cnum c i0 r0 ts i : named cnum ((c, i0, r0) :: ts) i <-> (c = cnum /\ i0 = i) \/ named cnum ts i.
Proof.
  unfold named. split.
  - intros (r & Hr). apply elem_of_cons in Hr as [[= -> -> ->] | Hr]; [by left | right; eauto].
  - intros [[-> ->] | (r & Hr)]; eexists; [left | right; done].
Qed.

Lemma highest_item_spec cnum ts :
  0 <= highest_item cnum ts /\ (forall i, named cnum ts i -> i <= highest_item cnum ts) /\
  (highest_item cnum ts = 0 \/ named cnum ts (highest_item cnum ts)).
Proof.
  unfold highest_item.
  assert (H : forall h, 0 <= h -> let m := foldl (fun highest '(tc, ti, _) =>
      if negb (tc =? cnum) then highest else if highest <? ti then ti else highest) h ts in
    h <= m /\ (forall i, named cnum ts i -> i <= m) /\ (m = h \/ named cnum ts m)).
  { induction ts as [| [[c i] r] ts IH]; intros h Hh; cbn [foldl].
    - split_and!; [lia | by intros j (s & Hs%not_elem_of_nil) | by left].
    - cbv zeta in IH |- *. destruct (c =? cnum) eqn:Ec; cbn [negb].
      + apply Z.eqb_eq in Ec as ->. destruct (IH (if h <? i then i else h)) as (H1 & H2 & H3); [destruct (h <? i) eqn:E; lia |].
        set (m := foldl _ _ ts) in *. split_and!.
        * destruct (h <? i) eqn:E; lia.
        * intros j Hj. apply named_cons in Hj as [[_ ->] | Hj]; [destruct (h <? j) eqn:E; lia | by apply H2].
        * rewrite named_cons. destruct H3 as [H3 | H3]; [| by right; right]. rewrite H3. destruct (h <? i); [right; left; done | by left].
      + destruct (IH h Hh) as (H1 & H2 & H3). set (m := foldl _ _ ts) in *. split_and!; [done | |].
        * intros j Hj. apply named_cons in Hj as [[-> _] | Hj]; [lia | by apply H2].
        * rewrite named_cons. destruct H3; [by left | by right; right]. }
  destruct (H 0 ltac:(lia)) as (H1 & H2 & H3). by split_and!.
Qed.

Lemma fill_mask_spec cnum ts mask :
  (forall i, named cnum ts i -> 0 <= i < len mask) ->
  exists mask', fill_mask cnum ts mask = Some mask' /\ len mask' = len mask /\
    forall i, (named cnum ts i -> zget mask' i = Some 1) /\ (~ named cnum ts i -> zget mask' i = zget mask i).
Proof.
  revert mask. induction ts as [| [[c i] r] ts IH]; intros mask Hr; cbn [fill_mask].
  { exists mask. split_and!; try done. intros i. split; [by intros (s & Hs%not_elem_of_nil) | done]. }
  destruct (c =? cnum) eqn:Ec; cbn [negb].
  - apply Z.eqb_eq in Ec as ->.
    destruct (zset_some mask i 1) as (m1 & -> & L1 & G1 & N1); [apply Hr, named_cons; by left |]. cbn.
    destruct (IH m1) as (m2 & -> & L2 & H2); [intros j Hj; rewrite L1; apply Hr, named_cons; by right |].
    exists m2. split_and!; [done | lia |]. intros j. destruct (H2 j) as [H3 H4]. rewrite named_cons. split.
    + intros [[_ <-] | Hj]; [| by apply H3]. destruct (decide (zget m2 i = Some 1)); [done |].
      rewrite H4; [done |]. intros Hn. by apply H3 in Hn.
    + intros Hn. rewrite H4 by tauto. apply N1. intros ->. tauto.
  - destruct (IH mask) as (m2 & -> & L2 & H2); [intros j Hj; apply Hr, named_cons; by right |].
    exists m2. split_and!; [done | done |]. intros j. destruct (H2 j) as [H3 H4]. rewrite named_cons. split.
    + intros [[-> _] | Hj]; [lia | by apply H3].
    + intros Hn. apply H4. tauto.
Qed.

Definition marked (mask : list Z) (count i : Z) : Prop := exists b, zget mask (i - count) = Some b /\ b <> 0.

Lemma marked_cons b mask count i : marked (b :: mask) count i <-> (i = count /\ b <> 0) \/ marked mask (count + 1) i.
Proof.
  assert (H : forall j, j <> 0 -> zget (b :: mask) j = zget mask (j - 1)).
  { intros j Hj. unfold zget. destruct (j <? 0) eqn:E1; [by replace (j - 1 <? 0) with true by lia |].
    replace (j - 1 <? 0) with false by lia. by replace (Z.to_nat j) with (S (Z.to_nat (j - 1))) by lia. }
  unfold marked. split.
  - intros (x & Hx & Hn). destruct (decide (i = count)) as [-> | Hne].
    + rewrite Z.sub_diag in Hx. injection Hx as <-. by left.
    + right. exists x. rewrite H in Hx by lia. by replace (i - (count + 1)) with (i - count - 1) by lia.
  - intros [[-> Hb] | (x & Hx & Hn)].
    + exists b. by rewrite Z.sub_diag.
    + exists x. pose proof (zget_range _ _ _ Hx). rewrite H by lia. by replace (i - count - 1) with (i - (count + 1)) by lia.
Qed.

(** The loop over the mask prints the runs of marked items; [seq0] is the
    start of a run that is still open. *)
Lemma pack_scan_ranges comma mask count seq0 seq1 tr :
  last mask = Some 0 \/ (mask = [] /\ seq0 = 0) -> 1 <= count -> count + len mask <= 2 ^ 15 ->
  (seq0 = 0 \/ (1 <= seq0 <= seq1 /\ seq1 = count - 1)) ->
  exists rs, pack_scan comma mask count seq0 seq1 tr = ranges_text comma tr rs /\ Forall good_range rs /\
    forall i, in_ranges rs i <-> (seq0 <> 0 /\ seq0 <= i <= seq1) \/ marked mask count i.
Proof.
  revert count seq0 seq1 tr. induction mask as [| b mask IH]; intros count seq0 seq1 tr Hl Hc Hlen Hs.
  { destruct Hl as [Hl | [_ ->]]; [done |]. exists []. split_and!; [done | constructor |]. intros i.
    pose proof (in_ranges_nil i). split; [done |]. intros [[? _] | (x & Hx & _)]; [done |].
    unfold zget in Hx. destruct (i - count <? 0); [done | by rewrite lookup_nil in Hx]. }
  rewrite len_cons in Hlen. pose proof (len_nonneg mask) as Hm.
  assert (Hl' : (last mask = Some 0 \/ mask = []) /\ (mask = [] -> b = 0)).
  { destruct Hl as [Hl | [Hl _]]; [| done]. destruct mask as [| x mask]; [injection Hl as ->; auto |].
    rewrite last_cons_cons in Hl. split; [by left | done]. }
  destruct Hl' as [Hl' Hb0]. cbn [pack_scan]. destruct (b =? 0) eqn:Eb; cbn [negb].
  - apply Z.eqb_eq in Eb as ->. destruct (seq0 =? 0) eqn:E0; cbn [negb].
    + apply Z.eqb_eq in E0 as ->. destruct (IH (count + 1) 0 seq1 tr) as (rs & E & Hg & Hi); try lia; [tauto |].
      exists rs. split_and!; try done. intros i. rewrite Hi, marked_cons. tauto.
    + apply Z.eqb_neq in E0. destruct Hs as [? | [Hs1 Hs2]]; [done |].
      destruct (IH (count + 1) 0 0 true) as (rs & E & Hg & Hi); try lia; [tauto |].
      exists ((seq0, seq1) :: rs). split_and!.
      * cbn [ranges_text]. by rewrite E.
      * constructor; [| done]. unfold good_range. cbn. lia.
      * intros i. rewrite in_ranges_cons, Hi, marked_cons. tauto.
  - apply Z.eqb_neq in Eb. set (s0 := if seq0 =? 0 then count else seq0).
    assert (Hs0 : 1 <= s0 <= count) by (unfold s0; destruct (seq0 =? 0) eqn:E; lia).
    destruct (IH (count + 1) s0 count tr) as (rs & E & Hg & Hi); try lia.
    { destruct Hl' as [? | ->]; [by left | by specialize (Hb0 eq_refl)]. }
    exists rs. split_and!; try done. intros i. rewrite Hi, marked_cons. unfold s0.
    destruct (seq0 =? 0) eqn:E0; [apply Z.eqb_eq in E0 | apply Z.eqb_neq in E0]; intuition lia.
Qed.

#[local] Instance named_dec cnum ts i : Decision (named cnum ts i).
Proof.
  destruct (decide (i ∈ map (fun '(_, j, _) => j) (filter (fun '(c, _, _) => c = cnum) ts))) as [Hi | Hi]; [left | right].
  - apply list_elem_of_fmap_1 in Hi as ([[c k] r] & -> & Hd). apply list_elem_of_filter in Hd as [-> Hd]. by exists r.
  - intros (r & Hr). apply Hi. apply (list_elem_of_fmap_2' _ _ (cnum, i, r)); [| done]. by apply list_elem_of_filter.
Defined.

(** The mask of the items up to [h], with a cell before and one behind. *)
Lemma fill_mask_marks cnum ts h :
  0 <= h -> (forall i, named cnum ts i -> 1 <= i <= h) ->
  exists mask, fill_mask cnum ts (zeros (h + 1 + 1)) = Some (0 :: mask) /\ len mask = h + 1 /\
    last mask = Some 0 /\ forall j, marked mask 1 j <-> named cnum ts j.
Proof.
  intros H0 Hr. destruct (fill_mask_spec cnum ts (zeros (h + 1 + 1))) as (mask & -> & Lm & Hm).
  { intros j Hj. rewrite len_zeros by lia. specialize (Hr j Hj). lia. }
  rewrite len_zeros in Lm by lia.
  assert (Hz : forall j, 0 <= j <= h + 1 -> ~ named cnum ts j -> zget mask j = Some 0).
  { intros j Hj Hn. rewrite (proj2 (Hm j) Hn). unfold zget, zeros. replace (j <? 0) with false by lia.
    apply lookup_replicate_2. lia. }
  destruct mask as [| b mask]; [rewrite len_nil in Lm; lia |].
  assert (Hb : zget (b :: mask) 0 = Some 0) by (apply Hz; [lia | intros Hn; apply Hr in Hn; lia]).
  change (Some b = Some 0) in Hb. injection Hb as ->. rewrite len_cons in Lm.
  exists mask. split_and!; [done | lia | |].
  - assert (Hx : zget (0 :: mask) (h + 1) = Some 0) by (apply Hz; [lia | intros Hn; apply Hr in Hn; lia]).
    unfold zget in Hx. replace (h + 1 <? 0) with false in Hx by lia.
    replace (Z.to_nat (h + 1)) with (S (Z.to_nat h)) in Hx by lia.
    cbn in Hx. rewrite last_lookup, <- Hx. f_equal. unfold len in Lm. lia.
  - intros j. assert (Hmark : marked mask 1 j <-> marked (0 :: mask) 0 j) by (rewrite marked_cons; tauto).
    rewrite Hmark. unfold marked. rewrite Z.sub_0_r. split.
    + intros (x & Hx & Hn). destruct (decide (named cnum ts j)) as [| Hnn]; [done |].
      pose proof (zget_range _ _ _ Hx) as Hrg. rewrite len_cons in Hrg. rewrite Hz in Hx by (done || lia). congruence.
    + intros Hn. exists 1. split; [by apply Hm | done].
Qed.

(** What [it_pack] makes of a list of triplets. *)
Lemma it_pack_ranges B cnum comma ts :
  good_blanks B -> 0 < cnum -> is_int cnum -> is_int comma ->
  Forall (fun t => Forall is_int (triplet_ints t)) ts ->
  (forall i, named cnum ts i -> 1 <= i < 2 ^ 15 - 1) -> (exists i, named cnum ts i) ->
  exists rs, it_pack B (ints_text (cnum :: comma :: flat_map triplet_ints ts)) = Some (1, ranges_text comma false rs) /\
    Forall good_range rs /\ forall i, in_ranges rs i <-> named cnum ts i.
Proof.
  intros HB Hpos Hcn Hco Hts Hr [i Hi]. destruct (triplet_ints_all ts Hts) as [Hns Hlen].
  set (ns := flat_map triplet_ints ts) in *. unfold it_pack.
  assert (Hall : Forall is_int (cnum :: comma :: ns)) by (by constructor; [| constructor]).
  pose proof (ints_at_start B (cnum :: comma :: ns)) as Hat.
  pose proof (ints_at_length B _ _ _ HB Hall Hat) as Hl. cbn [length] in Hl.
  rewrite (count_words_ints B _ 0 _ _ HB Hall Hat) by (cbn [length]; lia). cbn [mbind option_bind].
  destruct (int4_ints B HB _ 0 cnum _ Hcn Hat) as (p1 & -> & _ & Hat1). replace (cnum <=? 0) with false by lia.
  destruct (int4_ints B HB _ p1 comma _ Hco Hat1) as (p2 & -> & _ & Hat2).
  assert (Hq : Z.quot (len (cnum :: comma :: ns) - 1) 3 = len ts).
  { rewrite !len_cons, Hlen. pose proof (len_nonneg ts). rewrite Z.quot_div_nonneg by lia.
    symmetry. apply (Z.div_unique_pos _ _ _ 1); lia. }
  rewrite Hq, to_nat_len, (read_triplets_ints B _ p2 ts HB Hts Hat2).
  destruct (highest_item_spec cnum ts) as (H0 & H1 & H2). pose proof (Hr i Hi). pose proof (H1 i Hi).
  set (h := highest_item cnum ts) in *. replace (h =? 0) with false by lia.
  assert (Hh : h < 2 ^ 15 - 1) by (destruct H2 as [H2 | H2]; [lia | apply Hr in H2; lia]).
  destruct (fill_mask_marks cnum ts h H0) as (mask & -> & Lm & Hlast & Hm).
  { intros j Hj. specialize (H1 j Hj). specialize (Hr j Hj). lia. }
  cbn [mbind option_bind]. change (pack_scan comma (0 :: mask) 0 0 0 false) with (pack_scan comma mask 1 0 0 false).
  destruct (pack_scan_ranges comma mask 1 0 0 false) as (rs & -> & Hg & Hin); [by left | lia | lia | by left |].
  exists rs. split_and!; [done | done |]. intros j. rewrite Hin, Hm. intuition.
Qed.

(** [it_parse] reads back what [it_pack] prints: for triplets with items
    of conference [cnum] below 32767, packing them (with or without commas) and
    parsing the text gives the triplets of exactly these items, each once, in
    ascending order, with response 0, whatever names the data base knows. *)
Theorem pack_parse B names cnum comma ts :
  good_blanks B -> 0 < cnum -> is_int cnum -> is_int comma ->
  Forall (fun t => Forall is_int (triplet_ints t)) ts ->
  (forall i, named cnum ts i -> 1 <= i < 2 ^ 15 - 1) -> (exists i, named cnum ts i) ->
  exists text items,
    it_pack B (ints_text (cnum :: comma :: flat_map triplet_ints ts)) = Some (1, text) /\
    it_parse names B (show cnum ++ 32 :: text) = Some (ints_text (flat_map (fun i => [cnum; i; 0]) items)) /\
    StronglySorted Z.lt items /\ forall i, i ∈ items <-> named cnum ts i.
Proof.
  intros HB Hpos Hcn Hco Hts Hr Hex.
  destruct (it_pack_ranges B cnum comma ts HB Hpos Hcn Hco Hts Hr Hex) as (rs & Ep & Hg & Hin).
  exists (ranges_text comma false rs). set (text := ranges_text comma false rs) in *.
  unfold it_parse.
  destruct (show_nonblank B HB cnum Hcn) as [Hnb _]. destruct (show_spec cnum Hcn) as (d & Es & Hd & Hdn & Hv).
  pose proof (int4_result_decimal B [] (cnum <? 0) false d (32 :: text)) as Hr4. cbv zeta iota in Hr4.
  rewrite app_nil_l, (app_assoc _ d), <- Es in Hr4.
  rewrite Hr4; [| done | done | done | done | unfold is_int in Hcn; lia | by intros ? [= <-]].
  replace (cnum <? 0) with false by lia. rewrite Hv, Z.abs_eq by lia.
  replace (len (show cnum ++ 32 :: text) - len (32 :: text)) with (len (show cnum)) by zlen.
  assert (H0 : items_of [a_mak_rlist] (fun _ => False)).
  { exists a_mak_rlist, [], 0. split_and!; try done. intros i. split; [| done]. by intros (p & Hp%not_elem_of_nil & _). }
  destruct (parses_ranges names B cnum comma (show cnum ++ 32 :: text) rs Hg) as [Hidle _].
  assert (Hhead : forall c, head text = Some c -> c <> 9 /\ c <> 32).
  { unfold text. destruct Hg as [| [a b] rs [Ha Hb] _]; [done |]. cbn [ranges_text]. unfold range_text. cbn [app fst snd] in *.
    intros c. destruct (a <? b); rewrite <- ?app_assoc; apply show_not_blank; lia. }
  destruct (parses_blank names B cnum (show cnum ++ 32 :: text) text (mkParser ST_NULL 0 [] [a_mak_rlist])
    (fun i => False \/ in_ranges rs i) (or_introl eq_refl) Hhead (Hidle false 0 [] _ _ H0)
    (show cnum) (S (length (show cnum ++ 32 :: text))) eq_refl) as (q & -> & Hq).
  { rewrite length_app. cbn [length]. lia. }
  destruct Hq as (h & l & k & Erl & Hk & Hf & Hi). cbn [mbind option_bind]. rewrite Erl, rlist_items_full by done.
  exists (rlist_numbers l). split_and!; [done | done | by eapply numbers_sorted |].
  intros i. rewrite elem_of_numbers, Hi, Hin. tauto.
Qed.

(** An index that knows no names. *)
Definition no_items : item_index := {| a_get_people _ _ := []; a_get_namex _ _ _ := None |}.

Lemma pack_parse_witness :
  exists text items,
    it_pack [32; 10; 9] (ints_text (4 :: 1 :: flat_map triplet_ints [(4, 3, 0); (4, 1, 0); (9, 5, 0); (4, 2, 6)])) = Some (1, text) /\
    it_parse no_items [32; 10; 9] (show 4 ++ 32 :: text) = Some (ints_text (flat_map (fun i => [4; i; 0]) items)) /\
    StronglySorted Z.lt items /\ forall i, i ∈ items <-> named 4 [(4, 3, 0); (4, 1, 0); (9, 5, 0); (4, 2, 6)] i.
Proof.
  apply (pack_parse [32; 10; 9] no_items 4 1 [(4, 3, 0); (4, 1, 0); (9, 5, 0); (4, 2, 6)]);
    [apply ascii_blanks | lia | unfold is_int; lia | unfold is_int; lia | repeat constructor; unfold is_int; lia | | exists 3, 0; left].
  intros i (r & Hr). rewrite !elem_of_cons, elem_of_nil in Hr.
  destruct Hr as [[= -> ->] | [[= -> ->] | [[=] | [[= -> ->] | []]]]]; lia.
Defined.

(** ** Every text is parsed *)

Lemma or_item_cons item ilo pa pb acc : acc <> [] -> or_item item ilo pa pb acc <> [].
Proof.
  intros H. unfold or_item, set_tail. repeat case_match; try done; by intros [_ ?]%app_eq_nil.
Qed.

Lemma or_loop_cons fuel : forall item ilo pa pb acc l,
  acc <> [] -> or_loop fuel item ilo pa pb acc = Some l -> l <> [].
Proof.
  induction fuel as [| fuel IH]; intros item ilo pa pb acc l Hacc; [done |]. cbn [or_loop].
  destruct pa, pb; [by intros [= <-] | ..]; apply IH; by apply or_item_cons.
Qed.

Lemma or_rlist_cons rla rlb : rla <> [] -> rlb <> [] -> exists h l, or_rlist rla rlb = Some (h :: l).
Proof.
  destruct rla as [| ha la], rlb as [| hb lb]; try done. intros _ _.
  destruct (or_rlist_ends ha hb la lb) as [l E]. revert E. unfold or_rlist. intros E. rewrite E.
  destruct (or_loop _ _ _ _ _ _) as [[| h acc] |] eqn:El; [| injection E as <-; eauto | done].
  by apply or_loop_cons in El.
Qed.

(** The lists of an index have their header node. *)
Definition index_ok (names : item_index) : Prop :=
  forall cnum property namepart l, a_get_namex cnum property namepart = Some l -> l <> [].

Section total.
Context (names : item_index) (Hnames : index_ok names) (B : list Z) (cnum : Z).

Definition has_list (p : parser) : Prop := p_rl p <> [].

Lemma addn_total p n q : has_list p -> exists p', addn p n q = Some p' /\ has_list p'.
Proof.
  intros Hp. unfold addn, itp_addn, has_list in *. destruct (p_rl p) as [| h l]; [done |].
  set (range := [a_mak_rlist; _]). destruct (or_rlist_cons (h :: l) range) as (? & ? & ->); [done | done | cbn; by eexists].
Qed.

Lemma adds_total p : has_list p -> exists p', adds names B cnum p = Some p' /\ has_list p'.
Proof.
  intros Hp. unfold adds, itp_adds, has_list in *. destruct (if bool_decide _ then _ else _) as [property namepart].
  destruct (a_get_namex cnum property namepart) as [found |] eqn:E; [| by eexists].
  destruct (p_rl p) as [| h l]; [done |].
  destruct (or_rlist_cons (h :: l) found) as (? & ? & ->); [done | by eapply Hnames | cbn; by eexists].
Qed.

(** The loop goes on only before the end of the text. *)
Lemma range_step_total p cv val :
  has_list p ->
  exists r, range_step names B cnum p cv val = Some r /\
    match r with inl q => has_list q /\ cv <> 0 | inr _ => True end.
Proof.
  intros Hp. unfold range_step.
  destruct (addn_total p (p_num1 p) 0 Hp) as (pa & Ea & Ha).
  destruct (addn_total p (p_num1 p) val Hp) as (pv & Ev & Hv).
  destruct (adds_total p Hp) as (ps & Es & Hs).
  destruct (p_state p); rewrite ?Ea, ?Ev, ?Es; cbn [mbind option_bind];
    repeat (case_match; cbn [mbind option_bind]); eexists; (split; [reflexivity |]); cbn; try done;
    (split; [done | lia]).
Qed.

Lemma range_token_next arg pos :
  0 <= pos ->
  let '(cv, _, pos') := range_token arg pos in pos < pos' /\ (len arg <= pos -> cv = 0).
Proof.
  intros H0. assert (Hspan : forall f, span f (drop (Z.to_nat pos) arg) <> [] ->
    0 < len (span f (drop (Z.to_nat pos) arg)) /\ pos < len arg).
  { intros f Hf. split; [destruct (span f _); [done |]; rewrite len_cons; len_pos; lia |].
    destruct (decide (pos < len arg)) as [| Hl]; [done |]. destruct Hf. rewrite drop_ge by (unfold len in Hl; lia). done. }
  unfold range_token. case_bool_decide as Hd; [case_bool_decide as Hb |].
  - split; [lia | apply cval_past].
  - apply Hspan in Hb. lia.
  - apply Hspan in Hd. lia.
Qed.

Lemma range_loop_total arg fuel : forall p pos,
  has_list p -> 0 <= pos -> len arg - pos < Z.of_nat fuel -> (0 < fuel)%nat ->
  exists q, range_loop names B cnum fuel arg p pos = Some q.
Proof.
  induction fuel as [| fuel IH]; intros p pos Hp H0 Hf Hpos; [lia |]. cbn [range_loop].
  pose proof (range_token_next arg pos H0) as Ht. destruct (range_token arg pos) as [[cv val] pos'].
  destruct Ht as [Hnext Hend]. destruct (range_step_total p cv val Hp) as (r & -> & Hr). cbn.
  destruct r as [q | q]; [| by eexists]. destruct Hr as [Hq Hcv].
  assert (pos < len arg) by (destruct (decide (len arg <= pos)); [tauto | lia]).
  apply IH; [done | lia | lia | lia].
Qed.
End total.

Lemma int4_result_forward B s i : 0 <= i -> 0 <= snd (int4_result B s i).
Proof.
  intros Hi. unfold int4_result. pose proof (len_nonneg (span (is_blank B) (drop (Z.to_nat i) s))).
  repeat case_match; cbn; len_pos; lia.
Qed.

(** [it_parse] ends with a result on every text, whatever its state
    machine meets in it (numbers, quotes, words, dates, any other bytes): each
    turn of its loop moves on by a character at least, the end of the text
    leaves the loop in every state, and the lists stay well formed. *)
Theorem it_parse_total names B arg :
  index_ok names -> exists text, it_parse names B arg = Some text.
Proof.
  intros Hn. unfold it_parse. pose proof (int4_result_forward B arg 0 ltac:(lia)) as H0.
  destruct (int4_result B arg 0) as [cnum pos]. cbn in H0.
  destruct (range_loop_total names Hn B cnum arg (S (length arg)) (mkParser ST_NULL 0 [] [a_mak_rlist]) pos) as [q ->];
    [done | done | unfold len; lia | lia | by eexists].
Qed.

(** An index that finds item 7 by any title. *)
Definition title_index : item_index :=
  {| a_get_people _ _ := [bytes "smith"];
     a_get_namex _ property _ := if property =? P_TITLE then Some [a_mak_rlist; mkR 7 7 0 (-1)] else None |}.

Lemma it_parse_total_witness :
  exists text, it_parse title_index [32; 10; 9] (bytes "4 2-3, plans, since yesterday 5x") = Some text.
Proof.
  apply it_parse_total. intros cnum property namepart l. cbn. destruct (property =? P_TITLE); by intros [= <-].
Defined.

Example it_parse_mixed :
  it_parse title_index [32; 10; 9] (bytes "4 2-3, plans, since yesterday") = Some (ints_text [4; 2; 0; 4; 3; 0; 4; 7; 0]).
Proof. reflexivity. Qed.

(** A letter that follows a number at once is lost: the word that [itp_adds]
    looks up starts behind it. *)
Example word_after_number :
  let looked_up : item_index :=
    {| a_get_people _ _ := [];
       a_get_namex _ _ w := if bool_decide (w = bytes "lans") then Some [a_mak_rlist; mkR 7 7 0 (-1)] else None |} in
  it_parse looked_up [32; 10; 9] (bytes "4 2plans") = Some (ints_text [4; 2; 0; 4; 7; 0]).
Proof. reflexivity. Qed.
