(* ===== verification/Vartab.v ===== *)
(** Tables of variables (src/CV2/api: amakvart.c, vartis.c, vartfind.c,
    vartadd.c) and the protection stack (src/CV2/sweb/prot.c): the state of the
    CML interpreter that its statements and functions share.  Names and values
    are the texts of the Chix in the slots of a table. *)
From S2P Require Import Prelude Memory Chix ChixEdit.

Abbreviation text := (list Z) (only parsing).

(** ** Tables *)

(** [struct Vartab_t] (include/api.h): [vt->used] is the length of [slots]. *)
Record vartab := mkVartab { vt_max : Z; slots : list (text * text) }.

Definition used (vt : vartab) : Z := len (slots vt).

Definition INITIAL_SIZE : Z := 100.
Definition a_mak_vartab : vartab := mkVartab INITIAL_SIZE [].

Fixpoint is_loop (l : list (text * text)) (name : text) (num : Z) : Z :=
  match l with
  | [] => -1
  | (n, _) :: l' => if bool_decide (n = name) then num else is_loop l' name (num + 1)
  end.

Definition vartab_is (vt : vartab) (name : text) : Z := is_loop (slots vt) name 0.

(** The scan of [vartab_find]: the slot found, or the last one without a name. *)
Fixpoint find_slot (l : list (text * text)) (name : text) (num new : Z) : Z + Z :=
  match l with
  | [] => inr new
  | (n, _) :: l' =>
      if bool_decide (n = name) then inl num
      else find_slot l' name (num + 1) (if cval n 0 =? 0 then num else new)
  end.

(** [vartab_exp], when there is memory. *)
Definition vartab_exp (vt : vartab) : vartab := mkVartab (vt_max vt * 2) (slots vt).

Definition vartab_new (vt : vartab) (name : text) (new : Z) : Z * vartab :=
  let '(new, vt) :=
    if (new <? 0) || (used vt <=? new) then (used vt, mkVartab (vt_max vt) (slots vt ++ [([], [])])) else (new, vt) in
  let vt := if vt_max vt - 5 <? new then vartab_exp vt else vt in
  (new, mkVartab (vt_max vt) (<[Z.to_nat new := (name, [])]> (slots vt))).

Definition vartab_find (vt : vartab) (name : text) : Z * vartab :=
  match find_slot (slots vt) name 0 (-1) with
  | inl num => (num, vt)
  | inr new => vartab_new vt name new
  end.

(** A new value in the slot of a variable. *)
Definition set_value (vt : vartab) (i : Z) (w : text) : vartab :=
  mkVartab (vt_max vt) (alter (fun '(n, _) => (n, w)) (Z.to_nat i) (slots vt)).

Definition vartab_add (vt : vartab) (name value : text) : Z * vartab :=
  let '(slot, vt) := vartab_find vt name in
  (slot, if 0 <=? slot then set_value vt slot value else vt).

(** The value in slot [slot]. *)
Definition value_at (vt : vartab) (slot : Z) : option text := snd <$> zget (slots vt) slot.

(** ** A table is a finite map *)

(** What the table stands for: the first slot with a name holds its value. *)
Definition map_of (l : list (text * text)) : gmap text text :=
  foldr (fun '(n, v) m => if bool_decide (n = []) then m else <[n := v]> m) ∅ l.
Definition vars_of (vt : vartab) : gmap text text := map_of (slots vt).

(** There is room for one more variable in the arrays. *)
Definition vartab_ok (vt : vartab) : Prop := 8 <= vt_max vt /\ used vt <= vt_max vt - 4.

Lemma cval_0 (n : text) : Forall is_char n -> (cval n 0 =? 0) = bool_decide (n = []).
Proof. destruct 1 as [| c n Hc _]; [done |]. unfold is_char in Hc. rewrite bool_decide_eq_false_2 by done. change (cval (c :: n) 0) with c. by apply Z.eqb_neq; lia. Qed.

Definition names_ok (l : list (text * text)) : Prop := Forall (fun p => Forall is_char p.1) l.

Lemma is_loop_spec l name num :
  name <> [] ->
  (is_loop l name num = -1 /\ map_of l !! name = None) \/
  exists i v, is_loop l name num = num + Z.of_nat i /\ l !! i = Some (name, v) /\ map_of l !! name = Some v.
Proof.
  intros Hne. revert num. induction l as [| [n v] l IH]; intros num; cbn [is_loop map_of foldr]; [by left |].
  case_bool_decide as Hn.
  - subst n. rewrite bool_decide_eq_false_2 by done. right. exists 0%nat, v.
    rewrite lookup_insert_eq. split_and!; [lia | done | done].
  - assert (Hskip : forall m : gmap text text, (if bool_decide (n = []) then m else <[n := v]> m) !! name = m !! name).
    { intros m. case_bool_decide; [done | by rewrite lookup_insert_ne]. }
    rewrite Hskip. destruct (IH (num + 1)) as [[-> ?] | (i & w & -> & Hi & ?)]; [by left | right].
    exists (S i), w. split_and!; [lia | done | done].
Qed.

Lemma find_slot_is l name num new :
  match find_slot l name num new with
  | inl i => i = is_loop l name num /\ num <= i < num + len l
  | inr _ => is_loop l name num = -1
  end.
Proof.
  revert num new. induction l as [| [n v] l IH]; intros num new; cbn [find_slot is_loop]; [done |].
  rewrite len_cons. case_bool_decide; [len_pos; lia |]. specialize (IH (num + 1) (if cval n 0 =? 0 then num else new)).
  destruct (find_slot _ _ _ _); [| done]. lia.
Qed.

(** A slot offered for reuse has no name. *)
Lemma find_slot_new l name k new i :
  names_ok l -> find_slot l name k new = inr i ->
  i = new \/ exists j v, i = k + Z.of_nat j /\ l !! j = Some ([], v).
Proof.
  intros Hl. revert k new. induction Hl as [| [n v] l Hn Hl IH]; intros k new; cbn [find_slot]; [intros [= ->]; by left |].
  case_bool_decide; [done |]. intros Hi. apply IH in Hi as [-> | (j & w & -> & Hj)].
  - rewrite cval_0 by done. case_bool_decide as He; [| by left]. cbn in He. subst n. right. exists 0%nat, v. split; [lia | done].
  - right. exists (S j), w. split; [lia | done].
Qed.

(** Updating a slot of the map: the one that holds [name] first. *)
Lemma map_of_set l name value i w :
  name <> [] -> is_loop l name 0 = Z.of_nat i -> l !! i = Some (name, w) ->
  map_of (<[i := (name, value)]> l) = <[name := value]> (map_of l).
Proof.
  intros Hne. assert (H : forall k, is_loop l name k = k + Z.of_nat i -> l !! i = Some (name, w) ->
    map_of (<[i := (name, value)]> l) = <[name := value]> (map_of l)); [| intros H1; by apply (H 0)].
  revert i. induction l as [| [n v] l IH]; intros i k; [done |]. cbn [is_loop].
  case_bool_decide as Hn.
  - intros Hi Hl. assert (i = 0%nat) as -> by lia. cbn. subst n.
    rewrite !bool_decide_eq_false_2 by done. by rewrite insert_insert_eq.
  - intros Hi Hl. destruct i as [| i]; [cbn in Hl; congruence |]. cbn [list_insert insert map_of foldr].
    change (list_insert i (name, value) l) with (<[i := (name, value)]> l).
    change (foldr _ ∅ (<[i := (name, value)]> l)) with (map_of (<[i := (name, value)]> l)).
    change (foldr _ ∅ l) with (map_of l).
    rewrite (IH i (k + 1)); [| lia | done]. case_bool_decide; [done |]. by rewrite insert_insert_ne.
Qed.

(** A new name in a slot without one, or behind the others. *)
Lemma map_of_fresh l name value i v :
  name <> [] -> map_of l !! name = None -> l !! i = Some ([], v) ->
  map_of (<[i := (name, value)]> l) = <[name := value]> (map_of l).
Proof.
  intros Hne. revert i. induction l as [| [n w] l IH]; intros i Hno Hi; [done |]. cbn [map_of foldr] in Hno.
  change (foldr _ ∅ l) with (map_of l) in Hno. destruct i as [| i].
  - injection Hi as -> ->. cbn. by rewrite bool_decide_eq_false_2.
  - cbn [list_insert insert map_of foldr].
    change (list_insert i (name, value) l) with (<[i := (name, value)]> l).
    change (foldr _ ∅ (<[i := (name, value)]> l)) with (map_of (<[i := (name, value)]> l)).
    change (foldr _ ∅ l) with (map_of l).
    case_bool_decide; [by apply IH |]. destruct (decide (n = name)) as [-> | Hn]; [by rewrite lookup_insert_eq in Hno |].
    rewrite lookup_insert_ne in Hno by done. rewrite IH by done. by rewrite insert_insert_ne.
Qed.

Lemma map_of_snoc l : map_of (l ++ [([], [])]) = map_of l.
Proof. induction l as [| [n v] l IH]; [done |]. cbn. change (foldr _ ∅ ?l) with (map_of l). by rewrite IH. Qed.

Lemma zget_nat {A} (l : list A) i : zget l (Z.of_nat i) = l !! i.
Proof. unfold zget. rewrite (proj2 (Z.ltb_ge _ _)) by lia. by rewrite Nat2Z.id. Qed.

(** Reading a variable through its slot is looking it up. *)
Lemma vartab_is_lookup vt name : name <> [] -> value_at vt (vartab_is vt name) = vars_of vt !! name.
Proof.
  intros Hne. unfold value_at, vartab_is, vars_of.
  destruct (is_loop_spec (slots vt) name 0 Hne) as [[-> ->] | (i & v & -> & Hi & ->)]; [done |].
  by rewrite Z.add_0_l, zget_nat, Hi.
Qed.

Lemma vartab_is_none vt name : name <> [] -> vartab_is vt name < 0 <-> vars_of vt !! name = None.
Proof.
  intros Hne. unfold vartab_is, vars_of.
  destruct (is_loop_spec (slots vt) name 0 Hne) as [[-> ->] | (i & v & -> & Hi & ->)]; split; try done; lia.
Qed.

Lemma names_ok_insert l i name v : names_ok l -> Forall is_char name -> names_ok (<[i := (name, v)]> l).
Proof. intros. by apply Forall_insert. Qed.

(** The slot of a new name. *)
Lemma vartab_new_refines vt name new :
  vartab_ok vt -> names_ok (slots vt) -> Forall is_char name -> name <> [] -> vars_of vt !! name = None ->
  (new = -1 \/ exists j v, new = Z.of_nat j /\ slots vt !! j = Some ([], v)) ->
  let '(slot, vt') := vartab_new vt name new in
  exists i, slot = Z.of_nat i /\ slots vt' !! i = Some (name, []) /\ vartab_ok vt' /\ names_ok (slots vt') /\
    forall value, map_of (<[i := (name, value)]> (slots vt')) = <[name := value]> (vars_of vt).
Proof.
  intros [Hmax Huse] Hn Hc Hne Hno Hnew. unfold vartab_new.
  set (p := if (new <? 0) || (used vt <=? new) then _ else _). assert (Hp : exists i v, p.1 = Z.of_nat i /\ slots p.2 !! i = Some ([], v) /\
    vars_of p.2 = vars_of vt /\ names_ok (slots p.2) /\ vt_max p.2 = vt_max vt /\ used p.2 <= Z.max (vt_max vt - 4) (Z.of_nat i + 1) /\
    (i < length (slots p.2))%nat /\ Z.of_nat i <= used vt).
  { subst p. unfold used, vars_of in *. destruct Hnew as [-> | (j & v & -> & Hj)].
    - exists (length (slots vt)), []. cbn. rewrite len_app, len_cons, len_nil, map_of_snoc, length_app. split_and!; try done.
      + rewrite lookup_app_r by lia. by rewrite Nat.sub_diag.
      + apply Forall_app. split; [done | by repeat constructor].
      + unfold len; lia.
      + cbn. lia.
    - pose proof (lookup_lt_Some _ _ _ Hj) as Hlt. unfold len in *.
      replace ((Z.of_nat j <? 0) || (Z.of_nat (length (slots vt)) <=? Z.of_nat j)) with false by lia.
      exists j, v. cbn. split_and!; try done; lia. }
  destruct p as [slot vt1]. cbn [fst snd] in Hp. destruct Hp as (i & v & -> & Hi & Hv & Hn1 & Hm & Hu & Hlt & Hle).
  exists i. cbn [slots]. rewrite Nat2Z.id.
  set (vt2 := if vt_max vt1 - 5 <? Z.of_nat i then vartab_exp vt1 else vt1).
  assert (Hs : slots vt2 = slots vt1 /\ vt_max vt <= vt_max vt2 /\ used vt1 <= vt_max vt2 - 4).
  { subst vt2. unfold used, len in *. cbn in Hu. rewrite Hm. destruct (vt_max vt - 5 <? Z.of_nat i) eqn:E; cbn; rewrite ?Hm; split_and!; try done; try lia. }
  destruct Hs as (-> & Hm2 & Hu2). split_and!.
  - done.
  - by apply list_lookup_insert_eq.
  - unfold vartab_ok, used in *. cbn. rewrite len_insert. lia.
  - by apply names_ok_insert.
  - intros value. rewrite list_insert_insert_eq, <- Hv. apply (map_of_fresh _ _ _ _ v); [done | by rewrite <- Hv in Hno | done].
Qed.

(** ** The slot of a variable *)

Definition good_name (n : text) : Prop := n <> [] /\ Forall is_char n.

(** [vartab_find]: the slot that holds [name], and what setting it does. *)
Lemma vartab_find_refines vt name :
  vartab_ok vt -> names_ok (slots vt) -> Forall is_char name -> name <> [] ->
  let '(slot, vt') := vartab_find vt name in
  exists i, slot = Z.of_nat i /\ slots vt' !! i = Some (name, default [] (vars_of vt !! name)) /\ vartab_ok vt' /\ names_ok (slots vt') /\
    forall value, map_of (<[i := (name, value)]> (slots vt')) = <[name := value]> (vars_of vt).
Proof.
  intros Hok Hn Hc Hne. unfold vartab_find. pose proof (find_slot_is (slots vt) name 0 (-1)) as Hf.
  destruct (find_slot (slots vt) name 0 (-1)) as [num | new] eqn:E.
  - destruct Hf as [-> Hr]. destruct (is_loop_spec (slots vt) name 0 Hne) as [[H _] | (i & v & Hi & Hl & Hv)]; [lia |].
    exists i. unfold vars_of. rewrite Hv. split_and!; [lia | done | done | done |]. intros value. eapply map_of_set; [done | lia | done].
  - assert (Hno : vars_of vt !! name = None).
    { destruct (is_loop_spec (slots vt) name 0 Hne) as [[_ H] | (i & v & Hi & _)]; [done | lia]. }
    apply find_slot_new in E; [| done]. pose proof (vartab_new_refines vt name new Hok Hn Hc Hne Hno E) as Hv.
    destruct (vartab_new vt name new) as [slot vt']. by rewrite Hno.
Qed.

Lemma is_loop_fst l l' name k : l.*1 = l'.*1 -> is_loop l name k = is_loop l' name k.
Proof.
  revert l' k. induction l as [| [n v] l IH]; intros [| [n' v'] l'] k; try done. cbn. intros [= -> H].
  case_bool_decide; [done | by apply IH].
Qed.

Lemma is_loop_app l l' name k : is_loop l name k <> -1 -> is_loop (l ++ l') name k = is_loop l name k.
Proof. revert k. induction l as [| [n v] l IH]; intros k; [done |]. cbn. case_bool_decide; [done | by apply IH]. Qed.

(** Another name put where [name] is not. *)
Lemma is_loop_insert l j p name k :
  p.1 <> name -> (forall q, l !! j = Some q -> q.1 <> name) -> is_loop (<[j := p]> l) name k = is_loop l name k.
Proof.
  revert j k. induction l as [| [n v] l IH]; intros j k Hp Hj; [done |]. destruct p as [n' v']. destruct j as [| j].
  - cbn. specialize (Hj _ eq_refl). cbn in *. by rewrite !bool_decide_eq_false_2.
  - cbn [list_insert insert is_loop]. change (list_insert j (n', v') l) with (<[j := (n', v')]> l).
    case_bool_decide; [done |]. by apply IH.
Qed.

Lemma list_insert_fst (l : list (text * text)) (i : nat) n v w : l !! i = Some (n, v) -> (<[i := (n, w)]> l).*1 = l.*1.
Proof. intros Hi. rewrite list_fmap_insert. cbn. rewrite list_insert_id; [done |]. by rewrite list_lookup_fmap, Hi. Qed.

(** Slot [i] is the one of [name], with value [v]. *)
Definition slot_of (vt : vartab) (i : nat) (name v : text) : Prop :=
  slots vt !! i = Some (name, v) /\ vartab_is vt name = Z.of_nat i.

Lemma vartab_find_slot vt name :
  vartab_ok vt -> names_ok (slots vt) -> good_name name ->
  let '(slot, vt') := vartab_find vt name in
  let v := default [] (vars_of vt !! name) in
  exists i, slot = Z.of_nat i /\ slot_of vt' i name v /\ vartab_ok vt' /\ names_ok (slots vt') /\ vars_of vt' = <[name := v]> (vars_of vt).
Proof.
  intros Hok Hn [Hne Hc]. pose proof (vartab_find_refines vt name Hok Hn Hc Hne) as H.
  destruct (vartab_find vt name) as [slot vt']. destruct H as (i & -> & Hi & Hok' & Hn' & Hm). set (v := default [] _) in *.
  exists i. split_and!; try done.
  - split; [done |]. unfold vartab_is.
    assert (Hfst : forall w, is_loop (<[i := (name, w)]> (slots vt')) name 0 = is_loop (slots vt') name 0).
    { intros w. apply is_loop_fst. by eapply list_insert_fst. }
    assert (Hat : forall w j x, is_loop (slots vt') name 0 = Z.of_nat j -> i <> j -> slots vt' !! j = Some (name, x) -> w = x).
    { intros w j x Hj Hij Hx. destruct (is_loop_spec (<[i := (name, w)]> (slots vt')) name 0 Hne) as [[H _] | (j' & y & H & Hy & Hm')].
      - rewrite Hfst in H. lia.
      - rewrite Hfst in H. assert (j' = j) as -> by lia. rewrite list_lookup_insert_ne, Hx in Hy by done.
        rewrite Hm, lookup_insert_eq in Hm'. congruence. }
    destruct (is_loop_spec (slots vt') name 0 Hne) as [[_ H] | (j & x & Hj & Hx & _)].
    + specialize (Hm v). rewrite list_insert_id in Hm by done. rewrite Hm, lookup_insert_eq in H. done.
    + destruct (decide (i = j)) as [-> | Hij]; [lia |]. exfalso. pose proof (Hat (x ++ [1]) j x ltac:(lia) Hij Hx) as H.
      apply (f_equal length) in H. rewrite length_app in H. cbn in H. lia.
  - specialize (Hm v). by rewrite list_insert_id in Hm.
Qed.

(** The slots of other names stay where they are. *)
Lemma vartab_find_keeps vt name i n v :
  names_ok (slots vt) -> slot_of vt i n v -> n <> [] -> n <> name -> slot_of (vartab_find vt name).2 i n v.
Proof.
  intros Hn [Hi His] Hne Hnn. unfold vartab_find.
  destruct (find_slot (slots vt) name 0 (-1)) as [num | new] eqn:E; [by split |]. apply find_slot_new in E; [| done].
  unfold vartab_new. set (p := if (new <? 0) || (used vt <=? new) then _ else _).
  assert (Hp : slot_of p.2 i n v /\ forall q, slots p.2 !! Z.to_nat p.1 = Some q -> q.1 = []).
  { subst p. destruct ((new <? 0) || (used vt <=? new)) eqn:En; cbn [fst snd].
    - unfold used. rewrite to_nat_len. split; [split |]; cbn [slots].
      + by apply lookup_app_l_Some.
      + unfold vartab_is in *. cbn. rewrite is_loop_app; [done | lia].
      + intros q. rewrite lookup_app_r by lia. rewrite Nat.sub_diag. by intros [= <-].
    - split; [done |]. intros q Hq. destruct E as [-> | (j & w & -> & Hj)]; [done |]. rewrite Z.add_0_l, Nat2Z.id, Hj in Hq. by injection Hq as <-. }
  destruct p as [slot vt1]. cbn [fst snd] in Hp. destruct Hp as [[Hi1 His1] Hq].
  assert (Hs : slots (if vt_max vt1 - 5 <? slot then vartab_exp vt1 else vt1) = slots vt1) by by destruct (_ <? _).
  cbn [snd]. rewrite Hs. split; cbn [slots].
  - rewrite list_lookup_insert_ne; [done |]. intros H. subst i. apply Hq in Hi1. done.
  - unfold vartab_is in *. cbn. rewrite is_loop_insert; [done | done |]. intros q H Hqn. apply Hq in H. congruence.
Qed.

Lemma set_value_slot vt i name v w :
  slot_of vt i name v -> name <> [] -> vartab_ok vt -> names_ok (slots vt) ->
  let vt' := set_value vt (Z.of_nat i) w in
  slot_of vt' i name w /\ vartab_ok vt' /\ names_ok (slots vt') /\ vars_of vt' = <[name := w]> (vars_of vt) /\
  forall j n u, i <> j -> slot_of vt j n u -> slot_of vt' j n u.
Proof.
  intros [Hi His] Hne Hok Hn. unfold set_value. rewrite Nat2Z.id.
  assert (Hs : alter (fun '(n, _) => (n, w)) i (slots vt) = <[i := (name, w)]> (slots vt)).
  { apply list_eq. intros j. destruct (decide (i = j)) as [-> | Hj].
    - rewrite list_lookup_alter_eq, Hi, list_lookup_insert_eq; [done | by eapply lookup_lt_Some].
    - by rewrite list_lookup_alter_ne, list_lookup_insert_ne. }
  rewrite Hs. assert (Hfst : (<[i := (name, w)]> (slots vt)).*1 = (slots vt).*1) by by eapply list_insert_fst.
  split_and!.
  - split; cbn; [apply list_lookup_insert_eq; by eapply lookup_lt_Some |]. unfold vartab_is in *. cbn. by rewrite (is_loop_fst _ _ _ _ Hfst).
  - unfold vartab_ok, used in *. cbn. by rewrite len_insert.
  - cbn. apply names_ok_insert; [done |]. unfold names_ok in Hn. rewrite Forall_forall in Hn. apply (Hn (name, v)). by eapply list_elem_of_lookup_2.
  - by eapply map_of_set.
  - intros j n u Hij [Hj Hjs]. split; cbn; [by rewrite list_lookup_insert_ne |]. unfold vartab_is in *. cbn. by rewrite (is_loop_fst _ _ _ _ Hfst).
Qed.

(** A table with a variable more: what [vartab_add] does to the map, and that
    the arrays keep room. *)
Lemma vartab_add_refines vt name value :
  vartab_ok vt -> names_ok (slots vt) -> Forall is_char name -> name <> [] ->
  let '(slot, vt') := vartab_add vt name value in
  0 <= slot < used vt' /\ used vt' <= vt_max vt' /\ value_at vt' slot = Some value /\
  vars_of vt' = <[name := value]> (vars_of vt) /\ vartab_ok vt' /\ names_ok (slots vt').
Proof.
  intros Hok Hn Hc Hne. unfold vartab_add. pose proof (vartab_find_slot vt name Hok Hn (conj Hne Hc)) as H.
  destruct (vartab_find vt name) as [slot vt1]. destruct H as (i & -> & Hs & Hok1 & Hn1 & Hv).
  rewrite (proj2 (Z.leb_le _ _)) by lia. destruct (set_value_slot vt1 i name _ value Hs Hne Hok1 Hn1) as ([Hi _] & Hok2 & Hn2 & Hv2 & _).
  pose proof (lookup_lt_Some _ _ _ Hi). unfold value_at. rewrite zget_nat, Hi, Hv2, Hv, insert_insert_eq.
  unfold vartab_ok, used, len in *. split_and!; try done; lia.
Qed.

(** ** The protection stack *)

Definition MAXPROT : Z := 40.

Record prot_stack := mkProt { protstack : list Z; top : Z }.

Definition prot_init : prot_stack := mkProt (zeros MAXPROT) 0.

(** [None]: outside the array. *)
Definition prot_top (p : prot_stack) : option Z := zget (protstack p) (top p).
Definition prot_push (n : Z) (p : prot_stack) : option prot_stack :=
  if top p <? MAXPROT - 1 then st ← zset (protstack p) (top p + 1) n; Some (mkProt st (top p + 1)) else Some p.
Definition prot_pop (p : prot_stack) : prot_stack :=
  if 0 <? top p then mkProt (protstack p) (top p - 1) else p.

(** What is in force: the values up to the top, the latest first. *)
Definition in_force (p : prot_stack) : list Z := reverse (take (Z.to_nat (top p + 1)) (protstack p)).

Definition prot_ok (p : prot_stack) : Prop := len (protstack p) = MAXPROT /\ 0 <= top p < MAXPROT.

Lemma prot_init_ok : prot_ok prot_init.
Proof. done. Qed.

Lemma prot_push_spec n p :
  prot_ok p -> top p < MAXPROT - 1 ->
  exists p', prot_push n p = Some p' /\ prot_ok p' /\ top p' = top p + 1 /\ prot_top p' = Some n /\
    in_force p' = n :: in_force p /\ in_force (prot_pop p') = in_force p.
Proof.
  intros [Hl Ht] Hr. unfold prot_push, prot_top, in_force, prot_pop. rewrite (proj2 (Z.ltb_lt _ _)) by done.
  unfold zset. replace ((top p + 1 <? 0) || (len (protstack p) <=? top p + 1)) with false by lia. cbn.
  eexists. split; [done |]. unfold prot_ok. cbn. rewrite len_insert.
  assert (Hlt : (Z.to_nat (top p + 1) < length (protstack p))%nat) by (unfold len in Hl; unfold MAXPROT in *; lia).
  split_and!; try done; try lia.
  - unfold zget. replace (top p + 1 <? 0) with false by lia. by apply list_lookup_insert_eq.
  - replace (Z.to_nat (top p + 1 + 1)) with (S (Z.to_nat (top p + 1))) by lia.
    rewrite (take_S_r _ _ n) by (by apply list_lookup_insert_eq).
    by rewrite take_insert_ge, reverse_snoc by lia.
  - replace (0 <? top p + 1) with true by lia. cbn. replace (top p + 1 - 1 + 1) with (top p + 1) by lia.
    by rewrite take_insert_ge by lia.
Qed.

(** At the bottom of the array a value pushed is lost, and the pop that goes
    with it takes off the value below. *)
Lemma prot_push_full n p : top p = MAXPROT - 1 -> prot_push n p = Some p.
Proof. intros Ht. unfold prot_push. by rewrite Ht. Qed.

(** ** Properties *)

(** Any number of [vartab_add]s. *)
Definition vartab_adds (vt : vartab) (l : list (text * text)) : vartab :=
  foldl (fun vt '(n, v) => (vartab_add vt n v).2) vt l.

Lemma vartab_adds_ok l vt :
  vartab_ok vt -> names_ok (slots vt) -> Forall (fun p => good_name p.1) l ->
  vartab_ok (vartab_adds vt l) /\ names_ok (slots (vartab_adds vt l)) /\
  vars_of (vartab_adds vt l) = foldl (fun m '(n, v) => <[n := v]> m) (vars_of vt) l.
Proof.
  intros Hok Hn Hl. revert vt Hok Hn. induction Hl as [| [n v] l [Hne Hc] Hl IH]; intros vt Hok Hn; [done |].
  pose proof (vartab_add_refines vt n v Hok Hn Hc Hne) as H. unfold vartab_adds in *. cbn.
  destruct (vartab_add vt n v) as [slot vt']. destruct H as (_ & _ & _ & Hv & Hok' & Hn'). cbn.
  rewrite <- Hv. by apply IH.
Qed.

Lemma foldl_insert_map (l : list (text * text)) (m : gmap text text) name :
  foldl (fun m '(n, v) => <[n := v]> m) m l !! name =
  match (list_to_map (reverse l) : gmap text text) !! name with Some v => Some v | None => m !! name end.
Proof.
  revert m. induction l as [| [n v] l IH] using rev_ind; intros m.
  - reflexivity.
  - rewrite foldl_app, reverse_snoc, list_to_map_cons. cbn [foldl]. destruct (decide (n = name)) as [-> | Hn].
    + by rewrite !lookup_insert_eq.
    + by rewrite !lookup_insert_ne by done.
Qed.

(** C37: a table of variables implements a finite map: after any sequence of
    [vartab_add]s on a new table, reading a variable through [vartab_is] gives
    the value it was given last, a name never added is not found, and the
    arrays, which double when they are nearly full, have always room. *)
Theorem vartab_implements_map l name :
  Forall (fun p => good_name p.1) l -> name <> [] ->
  let vt := vartab_adds a_mak_vartab l in
  used vt <= vt_max vt - 4 /\
  value_at vt (vartab_is vt name) = (list_to_map (reverse l) : gmap text text) !! name /\
  (vartab_is vt name < 0 <-> (list_to_map (reverse l) : gmap text text) !! name = None).
Proof.
  intros Hl Hne vt. destruct (vartab_adds_ok l a_mak_vartab) as ([_ Hok] & _ & Hv); [done | by constructor | done |].
  fold vt in Hv, Hok. rewrite vartab_is_lookup, vartab_is_none, Hv by done. rewrite foldl_insert_map.
  change (vars_of a_mak_vartab) with (∅ : gmap text text). rewrite lookup_empty. by destruct (list_to_map _ !! name).
Qed.

Definition sample_adds : list (text * text) := [(bytes "x", bytes "1"); (bytes "y", bytes "2"); (bytes "x", bytes "3")].

Lemma vartab_implements_map_witness :
  let vt := vartab_adds a_mak_vartab sample_adds in
  used vt <= vt_max vt - 4 /\
  value_at vt (vartab_is vt (bytes "x")) = (list_to_map (reverse sample_adds) : gmap text text) !! bytes "x" /\
  (vartab_is vt (bytes "x") < 0 <-> (list_to_map (reverse sample_adds) : gmap text text) !! bytes "x" = None).
Proof.
  apply (vartab_implements_map sample_adds (bytes "x")); [| done].
  repeat constructor; cbn; try done; unfold is_char; lia.
Defined.

Example vartab_sample : value_at (vartab_adds a_mak_vartab sample_adds) 0 = Some (bytes "3").
Proof. reflexivity. Qed.
