(* ===== verification/CmlState.v ===== *)
(** The state of the CML interpreter (src/CV2/sweb), what it asks of the rest
    of the server, and the CML functions that only compute with their
    argument (src/CV2/sweb: funcvalue.c, funcstr.c).  Texts stand for Chix
    arguments as in Html. *)
From S2P Require Import Prelude Memory Chix ChixCore ChixEdit ChixSearch ChixParse Str Html Numbers CmlLists Table Vartab.

(** ** State *)

(** [struct cmlfile_t] (include/sweb.h): [lines] up to [size]. *)
Record cml_file := mkFile { filename : text; lines : list text; lnums : list Z }.

(** The statics of loadcml: where each file was found, the highest version of
    each directory, a slot of [dirtab] with the number in its [code]. *)
Record load_cache := mkCache { cmlnametab : vartab; dirtab : vartab; dircode : gmap Z Z }.

(** The state that the calls of the interpreter share: the tables of
    variables, form data and macros, the arguments of the page, the text of
    the errors, the statics of func_scan, prot.c, cencode and include.c, the
    file and line that errors are reported for, and the output: a Chix
    ([to_chix]), with its text in [out], or the connection, in the [world]. *)
Record cml (W : Type) := mkCml {
  vars : vartab; form : vartab; macs : vartab;
  cmlargs : text; errtext : text;
  prot : prot_stack; recursive_evaluation : bool; call_depth : Z;
  coded : option text; allow_functions : bool;
  cfile : text; lnum : Z;
  to_chix : bool; out : text;
  icache : list cml_file;
  caches : load_cache;
  world : W }.
Arguments mkCml {W}. Arguments vars {W}. Arguments form {W}. Arguments macs {W}. Arguments cmlargs {W}.
Arguments errtext {W}. Arguments prot {W}. Arguments recursive_evaluation {W}. Arguments call_depth {W}.
Arguments coded {W}. Arguments allow_functions {W}. Arguments cfile {W}. Arguments lnum {W}. Arguments to_chix {W}.
Arguments out {W}. Arguments icache {W}. Arguments caches {W}. Arguments world {W}.

Section updates.
Context {W : Type}.
Implicit Type σ : cml W.
Definition set_vars σ v := mkCml v (form σ) (macs σ) (cmlargs σ) (errtext σ) (prot σ) (recursive_evaluation σ) (call_depth σ) (coded σ) (allow_functions σ) (cfile σ) (lnum σ) (to_chix σ) (out σ) (icache σ) (caches σ) (world σ).
Definition set_macs σ v := mkCml (vars σ) (form σ) v (cmlargs σ) (errtext σ) (prot σ) (recursive_evaluation σ) (call_depth σ) (coded σ) (allow_functions σ) (cfile σ) (lnum σ) (to_chix σ) (out σ) (icache σ) (caches σ) (world σ).
Definition set_cmlargs σ v := mkCml (vars σ) (form σ) (macs σ) v (errtext σ) (prot σ) (recursive_evaluation σ) (call_depth σ) (coded σ) (allow_functions σ) (cfile σ) (lnum σ) (to_chix σ) (out σ) (icache σ) (caches σ) (world σ).
Definition set_errtext σ v := mkCml (vars σ) (form σ) (macs σ) (cmlargs σ) v (prot σ) (recursive_evaluation σ) (call_depth σ) (coded σ) (allow_functions σ) (cfile σ) (lnum σ) (to_chix σ) (out σ) (icache σ) (caches σ) (world σ).
Definition set_prot σ v := mkCml (vars σ) (form σ) (macs σ) (cmlargs σ) (errtext σ) v (recursive_evaluation σ) (call_depth σ) (coded σ) (allow_functions σ) (cfile σ) (lnum σ) (to_chix σ) (out σ) (icache σ) (caches σ) (world σ).
Definition set_reval σ v := mkCml (vars σ) (form σ) (macs σ) (cmlargs σ) (errtext σ) (prot σ) v (call_depth σ) (coded σ) (allow_functions σ) (cfile σ) (lnum σ) (to_chix σ) (out σ) (icache σ) (caches σ) (world σ).
Definition set_depth σ v := mkCml (vars σ) (form σ) (macs σ) (cmlargs σ) (errtext σ) (prot σ) (recursive_evaluation σ) v (coded σ) (allow_functions σ) (cfile σ) (lnum σ) (to_chix σ) (out σ) (icache σ) (caches σ) (world σ).
Definition set_coded σ v := mkCml (vars σ) (form σ) (macs σ) (cmlargs σ) (errtext σ) (prot σ) (recursive_evaluation σ) (call_depth σ) v (allow_functions σ) (cfile σ) (lnum σ) (to_chix σ) (out σ) (icache σ) (caches σ) (world σ).
Definition set_allow σ v := mkCml (vars σ) (form σ) (macs σ) (cmlargs σ) (errtext σ) (prot σ) (recursive_evaluation σ) (call_depth σ) (coded σ) v (cfile σ) (lnum σ) (to_chix σ) (out σ) (icache σ) (caches σ) (world σ).
Definition set_where σ f n := mkCml (vars σ) (form σ) (macs σ) (cmlargs σ) (errtext σ) (prot σ) (recursive_evaluation σ) (call_depth σ) (coded σ) (allow_functions σ) f n (to_chix σ) (out σ) (icache σ) (caches σ) (world σ).
Definition set_target σ c o := mkCml (vars σ) (form σ) (macs σ) (cmlargs σ) (errtext σ) (prot σ) (recursive_evaluation σ) (call_depth σ) (coded σ) (allow_functions σ) (cfile σ) (lnum σ) c o (icache σ) (caches σ) (world σ).
Definition set_icache σ v := mkCml (vars σ) (form σ) (macs σ) (cmlargs σ) (errtext σ) (prot σ) (recursive_evaluation σ) (call_depth σ) (coded σ) (allow_functions σ) (cfile σ) (lnum σ) (to_chix σ) (out σ) v (caches σ) (world σ).
Definition set_caches σ v := mkCml (vars σ) (form σ) (macs σ) (cmlargs σ) (errtext σ) (prot σ) (recursive_evaluation σ) (call_depth σ) (coded σ) (allow_functions σ) (cfile σ) (lnum σ) (to_chix σ) (out σ) (icache σ) v (world σ).
Definition set_world σ (v : W) := mkCml (vars σ) (form σ) (macs σ) (cmlargs σ) (errtext σ) (prot σ) (recursive_evaluation σ) (call_depth σ) (coded σ) (allow_functions σ) (cfile σ) (lnum σ) (to_chix σ) (out σ) (icache σ) (caches σ) v.

(** An error report. *)
Definition report σ (msg : text) : cml W :=
  set_errtext σ (errtext σ ++ [10] ++ cfile σ ++ [58] ++ show (lnum σ) ++ [32] ++ msg ++ [10]).
End updates.

(** The parameters of a call that the interpreter only passes on. *)
Record ctx := mkCtx { incvars : text; aref : text }.

(** What the interpreter calls recursively: [func_scan] with the old text of
    its result, [func_mac], and [include_cml], which gives the number of the
    last line (when it is set) and whether the file ran into a break or a
    continue.  [None] is fuel exhausted, or undefined behaviour. *)
Record calls (W : Type) := mkCalls {
  c_scan : text -> text -> ctx -> cml W -> option (text * cml W);
  c_mac : text -> ctx -> cml W -> option (text * cml W);
  c_include : text -> ctx -> cml W -> option (option Z * bool * bool * cml W) }.
Arguments mkCalls {W}. Arguments c_scan {W}. Arguments c_mac {W}. Arguments c_include {W}.

(** The rest of the server: the blanks of [chxspecial]; the CML functions that
    reach the data base, files, the operating system or floating point, which
    may call the interpreter again, and give their text, or nothing when there
    is no such function; the objects of [otab]; writing to the connection (0
    when it is gone); and the operating system's files: [sysisdir],
    [syscheck], and opening a file, which gives its text. *)
Class cml_env (W : Type) := {
  blanks : list Z;
  foreign : calls W -> text -> text -> ctx -> cml W -> option (option text * cml W);
  ob_value : text -> cml W -> text * text * W;
  ob_set : text -> text -> cml W -> bool * text * W;
  convert_and_write : text -> W -> bool * W;
  cache_include : bool;
  cml_path : text;
  sysisdir : text -> W -> bool;
  syscheck : text -> W -> bool;
  fopen : text -> W -> option text
}.

(** ** Functions of their argument alone *)

(** [chxtoken] for any number: there is no token 0. *)
Definition token (B : list Z) (n : Z) (s : text) : Z * text := if n <=? 0 then (-1, []) else token_result B n s.
Definition word_of (B : list Z) (n : Z) (s : text) : text := snd (token B n s).
Definition rest_of (B : list Z) (n : Z) (s : text) : text :=
  let '(p, _) := token B n s in if p <? 0 then [] else drop (Z.to_nat p) s.

Definition truth_text (b : bool) : text := [if b then 49 else 48].

(** The do-while loop of [and] and [or]. *)
Fixpoint logic_loop (fuel : nat) (B : list Z) (op : bool -> bool -> bool) (arg : text) (val1 val2 : bool) (pos2 : Z)
    : option (bool * Z) :=
  match fuel with
  | O => None
  | S fuel' =>
      let val1 := op val1 val2 in
      let '(v, p) := int4_result B arg pos2 in
      if p =? pos2 then Some (val1, p) else logic_loop fuel' B op arg val1 (negb (v =? 0)) p
  end.

Definition cml_and (B arg : text) : option text :=
  '(val1, pos2) ← logic_loop (S (length arg)) B andb arg true true 0;
  Some (show (if pos2 =? 0 then 0 else if val1 : bool then 1 else 0)).
Definition cml_or (B arg : text) : option text :=
  '(val1, _) ← logic_loop (S (length arg)) B orb arg false false 0;
  Some (show (if val1 : bool then 1 else 0)).

Definition cml_charval (B arg : text) : option text :=
  let '(val1, pos) := int4_result B arg 0 in
  let i := i32 (pos + 1 + val1) in
  if i <? 0 then None else Some (show (cval arg i)).
Definition cml_char (B arg : text) : text :=
  let c := Z.land (fst (int4_result B arg 0)) 255 in if c =? 0 then [] else [c].

Definition cml_equal (B arg : text) : bool := bool_decide (word_of B 1 arg = word_of B 2 arg).
Definition cml_not (B arg : text) : text :=
  let '(val1, pos) := int4_result B arg 0 in
  show (if pos =? 0 then 1 else if val1 =? 0 then 1 else 0).
Definition cml_numeric (B arg : text) : text :=
  truth_text (cval (word_of B 1 arg) (snd (int4_result B arg 0)) =? 0).
Definition cml_if (B arg : text) : text :=
  if fst (int4_result B arg 0) =? 0 then rest_of B 3 arg else word_of B 2 arg.
Definition cml_ifthen (B arg : text) : text :=
  if fst (int4_result B arg 0) =? 0 then [] else rest_of B 2 arg.

(** [pad]: at most the 100 characters of [blanks]. *)
Definition cml_pad (B arg : text) : text :=
  replicate (Z.to_nat (Z.min 100 (Z.abs (fst (int4_result B arg 0))))) 32.

Definition cml_word (B arg : text) : option text :=
  let val1 := fst (int4_result B arg 0) in
  val1 ← (if val1 <? 0 then n ← count_words (S (length arg)) B arg 0; Some (n + val1) else Some val1);
  Some (if 0 <? val1 then word_of B (val1 + 1) arg else []).

(** The loop of [words] from word [n] on. *)
Fixpoint words_loop (fuel : nat) (B arg : text) (n count : Z) : option text :=
  match fuel with
  | O => None
  | S fuel' =>
      if count <=? 0 then Some [] else
      let '(p, w) := token B n arg in
      if p <? 0 then Some [] else r ← words_loop fuel' B arg (n + 1) (count - 1); Some (w ++ [32] ++ r)
  end.
Definition cml_words (B arg : text) : option text :=
  let '(val1, pos) := int4_result B arg 0 in
  let '(val2, _) := int4_result B arg pos in
  if val1 <=? 0 then Some []
  else if val2 <? 0 then Some (rest_of B (val1 + 2) arg)
  else words_loop (S (length arg)) B arg (val1 + 2) val2.
Definition cml_wordpos (B arg : text) : text :=
  let val1 := fst (int4_result B arg 0) in
  show (fst (token B (val1 + 1) arg) - fst (token B 2 arg)).

Fixpoint cml_upper1 (blank : bool) (s : text) : text :=
  match s with
  | [] => []
  | c :: s' => (if blank && (97 <=? c) && (c <=? 122) then c + 65 - 97 else c) :: cml_upper1 (c =? 32) s'
  end.

(** [tablefind] and [tablematch]; the first compares in lower case. *)
Definition cml_tablefind (B arg : text) : option text :=
  v ← tablefind B (Some (jixreduce (rest_of B 2 arg))) (Some (jixreduce (word_of B 1 arg))); Some (show (v + 1)).
Definition cml_tablematch (B arg : text) : option text :=
  v ← tablefind B (Some (rest_of B 2 arg)) (Some (word_of B 1 arg)); Some (show (v + 1)).

(** [func_str]; any other name that starts with [str] gives nothing. *)
Definition func_str (B what arg : text) : text :=
  if bool_decide (what = bytes "str_index") then
    show (if 0 <? fst (token B 2 arg) then cindex (rest_of B 2 arg) 0 (word_of B 1 arg) else -1)
  else if bool_decide (what = bytes "str_revdex") then
    show (if 0 <? fst (token B 2 arg) then crevdex (rest_of B 2 arg) ALLCHARS (word_of B 1 arg) else -1)
  else if bool_decide (what = bytes "str_sub") then
    let '(pos, ptr) := int4_result B arg 0 in
    csub (rest_of B 3 arg) pos (fst (int4_result B arg ptr))
  else if bool_decide (what = bytes "strlen") then show (len arg)
  else if bool_decide (what = bytes "str_replace") then
    replaced (rest_of B 3 arg) (unquote B (word_of B 1 arg)) (unquote B (word_of B 2 arg))
  else [].
