(* ===== verification/CmlScan.v ===== *)
(** Evaluation of CML text (src/CV2/sweb: funcscan.c, funcvalue.c, funcmac.c,
    macexpand.c, macdefine.c): functions and macros inside a line.

    The functions of the interpreter call each other without end in sight; each
    is defined over [calls], the functions it calls, and CmlParse ties the
    knot with fuel. *)
From S2P Require Import Prelude Memory Chix ChixCore ChixEdit ChixSearch ChixParse Str Html Numbers CmlLists Table Vartab CmlState.

(** ** Functions *)

(** The functions that only compute with their argument: [None] for any other
    name, [Some None] where the code is undefined. *)
Definition pure_function (B what arg : text) : option (option text) :=
  let IS x := bool_decide (what = bytes x) in
  if IS "and" then Some (cml_and B arg)
  else if IS "asc2dec" then Some (Some (flat_map (fun v => show v ++ [32]) arg))
  else if strindex what (bytes "bit_") =? 0 then Some (func_bit B what arg)
  else if IS "charval" then Some (cml_charval B arg)
  else if IS "charvals" then Some (Some (flat_map (fun v => [32] ++ show v) arg))
  else if IS "char" then Some (Some (cml_char B arg))
  else if IS "commaList" then Some (commaList B arg)
  else if IS "err" || IS "ERR" then Some (Some ([127] ++ bytes "ERR"))
  else if IS "empty" then Some (Some (truth_text (bool_decide (word_of B 1 arg = []))))
  else if IS "equal" then Some (Some (truth_text (cml_equal B arg)))
  else if IS "eval" then Some (Some [])
  else if IS "escquote" then Some (Some (func_escquote arg))
  else if IS "escsingle" then Some (Some (func_escsingle arg))
  else if IS "if" then Some (Some (cml_if B arg))
  else if IS "ifthen" then Some (Some (cml_ifthen B arg))
  else if IS "is_num" then Some (Some (show (snd (int4_result B arg 0))))
  else if IS "item_tuplet" then Some (Some (item_tuplet B arg))
  else if IS "lower" then Some (Some (jixreduce arg))
  else if IS "newline" then Some (Some [10])
  else if IS "not" then Some (Some (cml_not B arg))
  else if IS "not_equal" then Some (Some (truth_text (negb (cml_equal B arg))))
  else if IS "not_empty" then Some (Some (truth_text (negb (bool_decide (word_of B 1 arg = [])))))
  else if IS "numeric" then Some (Some (cml_numeric B arg))
  else if IS "num_sort" then Some (num_sort B arg)
  else if IS "or" then Some (cml_or B arg)
  else if IS "pad" then Some (Some (cml_pad B arg))
  else if IS "protect" then Some (Some arg)
  else if IS "quote" then Some (Some (quote B arg))
  else if IS "rest" then Some (Some (rest_of B (fst (int4_result B arg 0) + 1) arg))
  else if IS "reval" then Some (Some arg)
  else if strindex what (bytes "str") =? 0 then Some (Some (func_str B what arg))
  else if IS "sizeof" then Some (show <$> count_words (S (length arg)) B arg 0)
  else if IS "t2esc" then Some (Some (func_t2esc arg))
  else if IS "t2hbr" then Some (Some (func_t2hbr arg))
  else if IS "tablefind" then Some (cml_tablefind B arg)
  else if IS "tablematch" then Some (cml_tablematch B arg)
  else if IS "triplet_sort" then Some (trip_sort B arg)
  else if IS "unquote" then Some (Some (unquote B arg))
  else if IS "upper1" then Some (Some (cml_upper1 true arg))
  else if IS "url_encode" then Some (Some (urlEncode arg))
  else if IS "word" then Some (cml_word B arg)
  else if IS "words" then Some (cml_words B arg)
  else if IS "wordpos" then Some (Some (cml_wordpos B arg))
  else if IS "xmlesc" then Some (Some (func_xmlesc arg))
  else None.

Section scan.
Context {W : Type} `{env : !cml_env W} (k : calls W).
Implicit Type σ : cml W.

(** An object is named by a code 127 in front, or, to be set, by a dot. *)
Definition is_object (name : text) : bool := cval name 0 =? 127.
Definition is_object_ref (name : text) : bool := is_object name || (cval name 0 =? 46).

(** [ob_set] or [vartab_add]; whether it worked. *)
Definition set_variable (name value : text) σ : bool * cml W :=
  if is_object_ref name then
    let '(ok, err, w) := ob_set name value σ in (ok, set_world (set_errtext σ err) w)
  else (true, set_vars σ (snd (vartab_add (vars σ) name value))).

(** The function without a name: the value of a variable. *)
Definition variable_value (arg : text) σ : text * cml W :=
  let word1 := word_of blanks 1 arg in
  if is_object word1 then
    let '(v, err, w) := ob_value word1 σ in (v, set_world (set_errtext σ err) w)
  else (default [] (value_at (vars σ) (vartab_is (vars σ) word1)), σ).

Definition mac_define (arg : text) σ : cml W :=
  set_macs σ (snd (vartab_add (macs σ) (word_of blanks 1 arg) (rest_of blanks 2 arg))).

(** Anything else: a function outside the model, or none. *)
Definition other_function (name what arg : text) (c : ctx) σ : option (text * cml W) :=
  '(r, σ) ← foreign k what arg c σ;
  Some (match r with
        | Some t => (t, σ)
        | None =>
            (bytes " === " ++ name ++ [40] ++ arg ++ bytes ") === ",
             report σ (bytes "No such function $" ++ what ++ bytes "()"))
        end).

(** [func_value]: the text appended to its result.  A name that [func_scan]
    has read holds no percent sign, so the field width is that of [pad]. *)
Definition func_value (name arg : text) (c : ctx) σ : option (text * cml W) :=
  let what := take 99 name in
  let IS x := bool_decide (what = bytes x) in
  protect ← prot_top (prot σ);
  match pure_function blanks what arg with
  | Some r => t ← r; Some (t, σ)
  | None =>
      if bool_decide (what = []) then Some (variable_value arg σ)
      else if IS "arg" then
        r ← strtoken (fst (int4_result blanks arg 0)) (cmlargs σ);
        Some (match r with Some (_, w) => w | None => [] end, σ)
      else if IS "encode" then
        let '(code, t) := cencode (coded σ) (fst (int4_result blanks arg 0)) (rest_of blanks 2 arg) in
        Some (t, set_coded σ code)
      else if IS "errors" then Some (errtext σ, set_errtext σ [])
      else if IS "form" then Some (default [] (value_at (form σ) (vartab_is (form σ) arg)), σ)
      else if IS "inc" then
        Some (repval (word_of blanks (fst (int4_result blanks arg 0)) (incvars c)) 0 1 32, σ)
      else if IS "includecml" then
        '(_, _, _, σ') ← c_include k (word_of blanks 1 arg) (mkCtx (rest_of blanks 2 arg) (aref c))
          (set_cmlargs (set_target σ true []) []);
        Some (out σ', set_cmlargs (set_target σ' (to_chix σ) (out σ)) (cmlargs σ))
      else if IS "mac_define" then
        Some ([], if allow_functions σ && (protect =? 0) then mac_define arg σ else σ)
      else if IS "mac_expand" then c_mac k arg c σ
      else if IS "set" then Some ([], snd (set_variable (word_of blanks 1 arg) (rest_of blanks 2 arg) σ))
      else other_function name what arg c σ
  end.

(** ** Scanning for functions *)

Inductive scan_state := ST_TEXT | ST_NAME | ST_ARG.

(** The variables of the loops of [func_scan] and [func_mac]; [s_start] is
    [posdollar] or [start_from]; [s_recurs] and [s_fscan] keep their text. *)
Record scan := mkScan {
  s_pos : Z; s_state : scan_state; s_name : text; s_args : text; s_parens : Z; s_start : Z;
  s_recurs : text; s_fscan : text; s_result : text }.

Definition scan_start : scan := mkScan 0 ST_TEXT [] [] 0 0 [] [] [].
Definition put_text (r : scan) (t : text) : scan :=
  mkScan (s_pos r) ST_TEXT (s_name r) (s_args r) (s_parens r) (s_start r) (s_recurs r) (s_fscan r) (s_result r ++ t).
Definition move_to (r : scan) (pos : Z) : scan :=
  mkScan pos (s_state r) (s_name r) (s_args r) (s_parens r) (s_start r) (s_recurs r) (s_fscan r) (s_result r).
Definition begin_name (r : scan) : scan :=
  mkScan (s_pos r) ST_NAME [] (s_args r) (s_parens r) (s_pos r) (s_recurs r) (s_fscan r) (s_result r).
Definition put_name (r : scan) (v : Z) : scan :=
  mkScan (s_pos r) ST_NAME (s_name r ++ [v]) (s_args r) (s_parens r) (s_start r) (s_recurs r) (s_fscan r) (s_result r).
Definition begin_args (r : scan) : scan :=
  mkScan (s_pos r) ST_ARG (s_name r) [] 0 (s_start r) (s_recurs r) (s_fscan r) (s_result r).
Definition put_arg (r : scan) (parens v : Z) : scan :=
  mkScan (s_pos r) ST_ARG (s_name r) (s_args r ++ [v]) parens (s_start r) (s_recurs r) (s_fscan r) (s_result r).
Definition keep (r : scan) (recurs fscan : text) : scan :=
  mkScan (s_pos r) (s_state r) (s_name r) (s_args r) (s_parens r) (s_start r) recurs fscan (s_result r).

Definition has (c : Z) (s : text) : bool := 0 <=? cindex s 0 [c].

(** The loops of [func_scan] and [func_mac] over the text: [step] is one turn,
    the position of the next turn is one further. *)
Fixpoint text_loop (step : text -> scan -> Z -> cml W -> option (scan * cml W)) (fuel : nat) (line : text) (r : scan) σ
    : option (scan * cml W) :=
  match fuel with
  | O => None
  | S fuel' =>
      let value := cval line (s_pos r) in
      if value =? 0 then Some (r, σ) else
      '(r, σ) ← step line r value σ;
      text_loop step fuel' line (move_to r (s_pos r + 1)) σ
  end.

(** Twice the length: what was read as a name may be read again as text. *)
Definition scan_fuel (line : text) : nat := S (2 * length line).

(** The complaint about a line that ends inside a name or an argument. *)
Definition scan_end (what : string) (sign : Z) (r : scan) σ : cml W :=
  match s_state r with
  | ST_TEXT => σ
  | ST_NAME => report σ (bytes "No ()'s after apparent " ++ bytes what ++ [32; sign] ++ take 999 (s_name r))
  | ST_ARG => report σ (bytes "No closing ) after " ++ bytes (if sign =? 36 then "function call" else what) ++
                        [32; sign] ++ take 999 (s_name r) ++ bytes "(...")
  end.

Definition goodname (v : Z) : bool := isalnum v || (v =? 95).

Section function_scan.
(** What evaluates a function: [func_value] below, for [func_scan]. *)
Context (value : text -> text -> ctx -> cml W -> option (text * cml W)).

(** The end of an argument list: the function is evaluated. *)
Definition call_function (c : ctx) (r : scan) σ : option (scan * cml W) :=
  let ascname := take 99 (s_name r) in
  let reval := bool_decide (ascname = bytes "reval") in
  let protect := bool_decide (ascname = bytes "protect") in
  p ← (if protect then prot_push 1 (prot σ) else Some (prot σ));
  let σ := set_prot σ p in
  '(append, recurs, σ) ←
    (if has 36 (s_args r) then
       '(recurs, σ) ← c_scan k (s_recurs r) (s_args r) c σ;
       '(append, σ) ← value (s_name r) recurs c σ;
       Some (append, recurs, σ)
     else
       '(append, σ) ← value (s_name r) (s_args r) c σ;
       Some (append, s_recurs r, σ));
  let σ := if reval then set_reval σ true else σ in
  '(append, recurs, σ) ←
    (if recursive_evaluation σ && has 36 append then
       '(recurs, σ) ← c_scan k recurs append c σ; Some (recurs, recurs, σ)
     else Some (append, recurs, σ));
  let σ := if reval then set_reval σ false else σ in
  let σ := if protect then set_prot σ (prot_pop (prot σ)) else σ in
  Some (put_text (keep r recurs (s_fscan r)) append, σ).

Definition scan_step (c : ctx) (line : text) (r : scan) (v : Z) σ : option (scan * cml W) :=
  match s_state r with
  | ST_TEXT =>
      if v =? 36 then Some (begin_name r, σ)
      else if (v =? 92) && (cval line (s_pos r + 1) =? 36) then
        Some (put_text (move_to r (s_pos r + 1)) [36], σ)
      else Some (put_text r [v], σ)
  | ST_NAME =>
      if v =? 40 then Some (begin_args r, σ)
      else if v =? 32 then Some (r, σ)
      else if goodname v then Some (put_name r v, σ)
      else Some (put_text (move_to r (s_start r)) [36],
                 report σ (bytes "No ()'s after apparent function $" ++ take 999 (s_name r)))
  | ST_ARG =>
      if v =? 40 then Some (put_arg r (s_parens r + 1) v, σ)
      else if (v =? 41) && (0 <? s_parens r) then Some (put_arg r (s_parens r - 1) v, σ)
      else if v =? 41 then call_function c r σ
      else Some (put_arg r (s_parens r) v, σ)
  end.

Definition DEEPEST_CALL : Z := 100.

Definition scan_with (old line : text) (c : ctx) σ : option (text * cml W) :=
  if DEEPEST_CALL <? call_depth σ then
    Some (old ++ bytes " --- ERROR: infinite recursion in function or macro call ---", σ)
  else
    let σ := set_depth σ (call_depth σ + 1) in
    '(r, σ) ← text_loop (scan_step c) (scan_fuel line) line scan_start σ;
    let σ := scan_end "function" 36 r σ in
    Some (s_result r, set_depth σ (call_depth σ - 1)).
End function_scan.

Definition func_scan : text -> text -> ctx -> cml W -> option (text * cml W) := scan_with func_value.

(** ** Macros *)

(** The text of a macro with its arguments in place of @1 ... @9 and @@. *)
Definition substitute (B body args : text) : text :=
  replaced (foldl (fun t num => replaced t (64 :: show num) (word_of B num args)) body (seqZ 1 9)) [64; 64] args.

Definition mac_expand (name args : text) (c : ctx) σ : option (text * cml W) :=
  match value_at (macs σ) (vartab_is (macs σ) name) with
  | None => Some ([], report σ (bytes "No such macro %" ++ take 999 name ++ bytes "()"))
  | Some body => c_scan k [] (substitute blanks body args) c σ
  end.

Definition goodmac (v : Z) : bool := isalnum v || (v =? 95) || (v =? 46).

(** The end of the arguments of a macro. *)
Definition call_macro (c : ctx) (r : scan) σ : option (scan * cml W) :=
  let slash s := replaced s [92; 36] [92; 92; 36] in
  '(fscan, recurs, σ) ←
    (if has 37 (s_args r) then
       '(recurs, σ) ← c_mac k (s_args r) c σ;
       '(fscan, σ) ← c_scan k (s_fscan r) (slash recurs) c σ; Some (fscan, slash recurs, σ)
     else
       '(fscan, σ) ← c_scan k (s_fscan r) (slash (s_args r)) c σ; Some (fscan, s_recurs r, σ));
  '(append, σ) ← mac_expand (s_name r) fscan c σ;
  '(append, σ) ← (if has 37 append then c_mac k append c σ else Some (append, σ));
  Some (put_text (keep r recurs fscan) append, σ).

Definition mac_step (c : ctx) (line : text) (r : scan) (value : Z) σ : option (scan * cml W) :=
  match s_state r with
  | ST_TEXT =>
      if (value =? 37) && goodmac (cval line (s_pos r + 1)) then Some (begin_name r, σ)
      else if (value =? 92) && (cval line (s_pos r + 1) =? 37) then
        Some (put_text (move_to r (s_pos r + 1)) [37], σ)
      else Some (put_text r [value], σ)
  | ST_NAME =>
      if value =? 40 then
        if vartab_is (macs σ) (s_name r) <? 0 then
          Some (put_text (move_to (begin_args r) (s_start r)) [37],
                report σ (bytes "No such macro %" ++ take 999 (s_name r) ++ bytes "()"))
        else Some (begin_args r, σ)
      else if value =? 32 then Some (r, σ)
      else if negb (goodmac value) then Some (put_text (move_to r (s_start r)) [37], σ)
      else Some (put_name r value, σ)
  | ST_ARG =>
      if value =? 40 then Some (put_arg r (s_parens r + 1) value, σ)
      else if (value =? 41) && (0 <? s_parens r) then Some (put_arg r (s_parens r - 1) value, σ)
      else if value =? 41 then call_macro c r σ
      else Some (put_arg r (s_parens r) value, σ)
  end.

Definition func_mac (arg : text) (c : ctx) σ : option (text * cml W) :=
  '(r, σ) ← text_loop (mac_step c) (scan_fuel arg) arg scan_start σ;
  Some (s_result r, scan_end "macro" 37 r σ).
End scan.
