(* ===== verification/CmlLoad.v ===== *)
(** Loading CML files (src/CV2/sweb: readcml.c, loadcml.c; glyph/chxinsid.c):
    lines with their comments and continuations, the highest version of a
    directory, and files that are included while they are loaded. *)
From S2P Require Import Prelude Memory Chix ChixCore ChixEdit ChixSearch ChixParse Str Html Numbers CmlLists Table Vartab CmlState.

(** ** Lines *)

(** What [fgets], called until it meets a newline, takes from a file; [None] at
    its end.  A text read from a file holds no zero byte. *)
Fixpoint next_raw (f : text) : option (text * text) :=
  match f with
  | [] => None
  | v :: f' =>
      if v =? 10 then Some ([10], f')
      else match next_raw f' with
           | Some (l, rest) => Some (v :: l, rest)
           | None => Some ([v], [])
           end
  end.

Definition chomp (x : text) : text := rstrip (fun v => (v =? 10) || (v =? 13)) x.

(** The first character that is no blank, or the last one. *)
Fixpoint non_blank_from (B work : text) (pos : Z) : Z :=
  match work with
  | [] => pos - 1
  | v :: work' => if is_blank B v then non_blank_from B work' (pos + 1) else pos
  end.
Definition non_blank (B work : text) : Z := non_blank_from B work 0.

(** The search for a backslash with only blanks behind it, from position
    [last] down; position 0 is not looked at. *)
Fixpoint backslash_at (B work : text) (last : nat) : option Z :=
  match last with
  | O => None
  | S last' =>
      let cval := cval work (Z.of_nat last) in
      if cval =? 92 then Some (Z.of_nat last)
      else if is_blank B cval then backslash_at B work last' else None
  end.

(** [readcml]: a line, the rest of the file and the number of physical lines so
    far; [None] at the end of the file.  Continued lines are joined in [line];
    [success] is whether there was one. *)
Fixpoint read_lines (fuel : nat) (B f line : text) (is_cont success : bool) (lnum : Z) : option (option text * text * Z) :=
  match fuel with
  | O => None
  | S fuel' =>
      match next_raw f with
      | None => Some (if success then Some line else None, [], lnum)
      | Some (raw, f') =>
          let lnum := lnum + 1 in
          let work := replaced (chomp raw) [9] [32] in
          if len work =? 0 then read_lines fuel' B f' line is_cont success lnum
          else if negb is_cont && (cval work (non_blank B work) =? 35) then read_lines fuel' B f' line is_cont success lnum
          else
            let start := if is_cont then non_blank B work else 0 in
            match backslash_at B work (length work - 1) with
            | Some last => read_lines fuel' B f' (line ++ csub work start (last - start)) true true lnum
            | None => Some (Some (line ++ csub work start ALLCHARS), f', lnum)
            end
      end
  end.
Definition readcml (B f : text) (lnum : Z) : option (option text * text * Z) :=
  read_lines (S (length f)) B f [] false false lnum.

(** ** Finding a file *)

(** [splitcml]: the directory and the name behind the last slash. *)
Fixpoint splitcml (path : text) : option (text * text) :=
  match path with
  | [] => None
  | v :: path' =>
      match splitcml path' with
      | Some (dir, file) => Some (v :: dir, file)
      | None => if v =? 47 then Some ([], path') else None
      end
  end.

(** dir.N, and file in it. *)
Definition version (dir : text) (level : nat) : text := dir ++ [46] ++ show (Z.of_nat level).
Definition CMAX : Z := 250.
Definition MAXCML : Z := 2000.

(** [chxinside] for parentheses: the text from the first left one to the right
    one behind it. *)
Fixpoint upto (sign : Z) (s : text) : option text :=
  match s with [] => None | v :: s' => if v =? sign then Some [] else cons v <$> upto sign s' end.
Fixpoint chxinside (s : text) (left rite : Z) : option text :=
  match s with [] => None | v :: s' => if v =? left then upto rite s' else chxinside s' left rite end.

Section load.
Context {W : Type} `{env : !cml_env W} (k : calls W).
Implicit Type σ : cml W.

(** The highest version, from [level] down, of which [there] holds; 0 if
    there is none. *)
Fixpoint highest (there : nat -> bool) (level : nat) : nat :=
  match level with O => O | S level' => if there level then level else highest there level' end.

Definition path_of (name : text) : text := cml_path ++ [47] ++ name.

(** The level of a directory, from the cache of directories, or looked up. *)
Definition dir_level (dir : text) σ : option (nat * cml W) :=
  let cc := caches σ in
  let slot := vartab_is (dirtab cc) dir in
  if slot <? 0 then
    if CMAX <=? len (path_of dir) + 2 then None else
    let level := highest (fun n => sysisdir (path_of (version dir n)) (world σ)) 9 in
    let '(slot, tab) := vartab_add (dirtab cc) dir dir in
    Some (level, set_caches σ (mkCache (cmlnametab cc) tab (<[slot := Z.of_nat level]> (dircode cc))))
  else level ← dircode cc !! slot; Some (Z.to_nat level, σ).

(** Where the file [name] is, from the cache of names, or looked up. *)
Definition locate (name : text) σ : option (text * cml W) :=
  let slot := vartab_is (cmlnametab (caches σ)) name in
  if slot <? 0 then
    '(found, σ) ←
      (match splitcml name with
       | None => Some (name, σ)
       | Some (dir, file) =>
           '(levelmax, σ) ← dir_level dir σ;
           if (0 <? Z.of_nat levelmax) && (CMAX <=? len (path_of name) + 2) then None else
           let level := highest (fun n => syscheck (path_of (version dir n ++ [47] ++ file)) (world σ)) levelmax in
           Some (match level with O => name | _ => version dir level ++ [47] ++ file end, σ)
       end);
    let cc := caches σ in
    Some (found, set_caches σ (mkCache (vartab_add (cmlnametab cc) name found).2 (dirtab cc) (dircode cc)))
  else place ← value_at (cmlnametab (caches σ)) slot; Some (place, σ).

(** Opening the file [name]: there are 250 bytes for a path, and 200 for the
    name that [cfile] keeps. *)
Definition open_cml (name : text) σ : option (option text * cml W) :=
  '(place, σ) ← locate name σ;
  let cmlfull := path_of place in
  if CMAX <=? len cmlfull then None else
  match fopen cmlfull (world σ) with
  | None => Some (None, σ)
  | Some text => if 200 <=? len name then None else Some (Some text, σ)
  end.

(** The loop of [loadcml] over the rest [f] of a file: the lines [ls] so far,
    with their numbers, and the name that errors are reported for, which is
    that of the last file opened.  The line behind an included file is empty
    and its number is never set: 0 here.  Too many lines is undefined: a Chix
    is printed as a string. *)
Fixpoint load_lines (fuel : nat) (c : ctx) (fname f : text) (lnum : Z) (ls : list (text * Z)) σ
    : option (text * list (text * Z) * cml W) :=
  match fuel with
  | O => None
  | S fuel' =>
      if MAXCML - 5 <? len ls then None else
      '(line, f, lnum) ← readcml blanks f lnum;
      match line with
      | None => Some (fname, ls, σ)
      | Some line =>
          if negb (bool_decide (take 8 (word_of blanks 1 line) = bytes "$include")) then
            load_lines fuel' c fname f lnum (ls ++ [(line, i16 lnum)]) σ
          else
            '(result, σ) ← c_scan k [] line (mkCtx [] (aref c)) (set_where σ fname 0);
            match chxinside result 40 41 with
            | None => load_lines fuel' c fname f lnum (ls ++ [(line, i16 lnum)]) σ
            | Some word =>
                if 1000 <=? len word then None else
                let name := filter (fun v => v <> 32) word in
                '(opened, σ) ← open_cml name σ;
                match opened with
                | None => load_lines fuel' c fname f lnum (ls ++ [([], i16 lnum)]) σ
                | Some text =>
                    '(fname, ls, σ) ← load_lines fuel' c name text 0 ls σ;
                    load_lines fuel' c fname f lnum (ls ++ [([], 0)]) σ
                end
            end
      end
  end.

(** [loadcml] for a new [cfile], and whether there is such a file.  The name of
    a file that is not found is not set. *)
Definition loadcml (fuel : nat) (c : ctx) (cml_orig : text) σ : option (bool * cml_file * cml W) :=
  '(opened, σ1) ← open_cml cml_orig σ;
  match opened with
  | None => Some (false, mkFile [] [] [], σ1)
  | Some text =>
      '(fname, ls, σ2) ← load_lines fuel c cml_orig text 0 [] σ1;
      Some (true, mkFile fname (map fst ls) (map snd ls), set_where σ2 (cfile σ) (lnum σ))
  end.
End load.
