(* ===== verification/CmlParse.v ===== *)
(** Interpretation of CML files (src/CV2/sweb: parsecml.c, skipcml.c, ishtml.c,
    clean.c, include.c): the statements of the language and their nesting, and
    the interpreter as a whole, [interp]. *)
From S2P Require Import Prelude Memory Chix ChixCore ChixEdit ChixSearch ChixParse Str Html Numbers CmlLists Table Vartab CmlState CmlScan CmlLoad.

(** ** Lines *)

Fixpoint is_html_from (line : text) (pos : Z) : Z :=
  match line with
  | [] => -1
  | v :: line' => if (v =? 32) || (v =? 9) then is_html_from line' (pos + 1) else if v =? 34 then pos else -1
  end.
Definition is_html (line : text) : Z := is_html_from line 0.

Definition clean_newlines (x : text) : text := replaced x [10] [32].
Definition trim (x : text) : text := rstrip (fun v => v =? 32) x.

(** The first word of a line, in the 100 bytes of [verb]. *)
Definition verb_of (B : list Z) (line : text) : text := take 99 (trim (clean_newlines (word_of B 1 line))).

Definition opens (verb : text) : bool :=
  let IS x := bool_decide (verb = bytes x) in
  IS "for" || IS "if" || IS "else" || IS "elif" || IS "while" || IS "count".

(** [skip_cml]: the line of the [end] that closes the block [num] is in.  One
    unit of fuel a line. *)
Fixpoint skip_cml (fuel : nat) (B : list Z) (ls : list text) (num : Z) : option Z :=
  match fuel with
  | O => None
  | S fuel' =>
      if len ls <=? num then Some (len ls) else
      line ← zget ls num;
      if 0 <=? is_html line then skip_cml fuel' B ls (num + 1) else
      let temp := verb_of B line in
      if bool_decide (temp = bytes "end") then Some num
      else if opens temp then num' ← skip_cml fuel' B ls (num + 1); skip_cml fuel' B ls (num' + 1)
      else skip_cml fuel' B ls (num + 1)
  end.

Definition S_INFINITY : Z := 1000000.

(** ** Statements *)

(** Where a call of [parse_cml] stopped: the line, [*broke], [*contd]. *)
Abbreviation stopped W := (Z * bool * bool * cml W)%type (only parsing).

(** The local variables of [parse_cml] that outlive a line: [newnum] is not
    set at first; [p_result] is the text in [result]. *)
Record locals := mkLocals { was_if : bool; truth : Z; newnum : option Z; p_result : text }.
Definition locals_start : locals := mkLocals false 0 None [].

(** A statement goes on behind a line, or leaves [parse_cml]. *)
Inductive after (W : Type) : Type :=
| Goto (num : Z) (l : locals) (σ : cml W)
| Done (r : stopped W).
Arguments Goto {W}. Arguments Done {W}.

Section statements.
Context {W : Type} `{env : !cml_env W} (k : calls W).
Implicit Type σ : cml W.

(** Macros, then functions. *)
Definition eval_line (old line : text) (c : ctx) σ : option (text * cml W) :=
  '(pastmac, σ) ← func_mac k line c σ;
  func_scan k old pastmac c σ.

(** The number in word [n], as [chxnum] leaves it, and whether there is one. *)
Definition num_of (n : Z) (s : text) : bool * Z :=
  let '(v, p) := int4_result blanks (word_of blanks n s) 0 in (negb (p =? 0), v).

(** The condition of [if], [elif]; 0 without a number. *)
Definition condition (result : text) : Z := snd (num_of 2 result).

Section block.
(** The file, the line [num] of the statement, the block behind it, and fuel
    for loops and for [skip_cml]. *)
Context (f : cml_file) (num : Z) (body : cml W -> option (stopped W)) (fuel : nat) (c : ctx).

Definition skip_block : option Z := skip_cml fuel blanks (lines f) (num + 1).

(** After a block of [if], [elif] or [else]. *)
Definition after_block (l : locals) (r : stopped W) : after W :=
  let '(n, b, ct, σ) := r in
  if b : bool then Done (n, true, false, σ)
  else if ct : bool then Done (n, false, true, σ)
  else if S_INFINITY - 1 <=? n then Done (n, false, false, σ)
  else Goto n l σ.

Definition run_if (taken : bool) (l : locals) σ : option (after W) :=
  r ← (if taken then body σ else n ← skip_block; Some (n, false, false, σ));
  Some (after_block l r).

Definition html_line (line : text) (l : locals) σ : option (after W) :=
  '(result, σ) ← eval_line (p_result l) line c σ;
  let pos := is_html result + 1 in
  let result := result ++ [10] in
  let l := mkLocals false (truth l) (newnum l) result in
  let t := csub result pos ALLCHARS in
  if to_chix σ then Some (Goto num l (set_target σ true (out σ ++ t)))
  else
    let '(ok, w) := convert_and_write t (world σ) in
    let σ := set_world σ w in
    Some (if ok : bool then Goto num l σ else Done (len (lines f), false, false, σ)).

(** The variables of a [for], one value each; whether there was one more. *)
Fixpoint assign_vars (n : nat) (which vn : Z) (result : text) (more : bool) σ : bool * cml W :=
  match n with
  | O => (more, σ)
  | S n' =>
      let '(p, value) := token blanks (which + vn) result in
      let '(ok, σ) := set_variable (word_of blanks (vn + 2) result) value σ in
      if ok : bool then assign_vars n' which (vn + 1) result (0 <? p) σ else (false, σ)
  end.

(** The end of a loop: the line it goes on behind, and what [newnum] is. *)
Definition leave_loop (skipped : bool) (nn : option Z) (result : text) (l : locals) σ : option (after W) :=
  n ← (if skipped then skip_block else nn);
  Some (if S_INFINITY - 1 <=? n then Done (n, false, false, σ) else Goto n (mkLocals false (truth l) nn result) σ).

Fixpoint for_loop (fuel' : nat) (first which numvars : Z) (result : text) (l : locals) (hit_cont : bool) (nn : option Z) σ
    : option (after W) :=
  match fuel' with
  | O => None
  | S fuel'' =>
      let '(more, σ) := assign_vars (Z.to_nat numvars) which 0 result false σ in
      if negb more then leave_loop (hit_cont || (which =? first)) nn result l σ else
      '(n, b, ct, σ) ← body σ;
      if ct : bool then for_loop fuel'' first (which + numvars) numvars result l true (Some n) σ
      else if b : bool then leave_loop true (Some n) result l σ
      else if S_INFINITY - 1 <=? n then Some (Done (n, false, false, σ))
      else for_loop fuel'' first (which + numvars) numvars result l false (Some n) σ
  end.

Definition for_stmt (line : text) (l : locals) σ : option (after W) :=
  '(result, σ) ← eval_line (p_result l) line c σ;
  let result := clean_newlines result in
  in_ ← tablefind blanks (Some result) (Some (bytes "in"));
  let '(in_, numvars) := if in_ <? 0 then (2, 1) else (in_ + 1, in_ + 1 - 2) in
  if numvars <=? 0 then None else
  for_loop fuel (in_ + 1) (in_ + 1) numvars result l false (newnum l) σ.

Fixpoint while_loop (fuel' : nat) (line : text) (l : locals) (nn : option Z) (old : text) σ : option (after W) :=
  match fuel' with
  | O => None
  | S fuel'' =>
      '(result, σ) ← eval_line old line c σ;
      let result := clean_newlines result in
      let '(ok, count) := num_of 2 result in
      if negb ok || (count =? 0) then leave_loop true nn result l σ else
      '(n, b, ct, σ) ← body σ;
      if ct : bool then while_loop fuel'' line l (Some n) result σ
      else if b : bool then leave_loop true (Some n) result l σ
      else if S_INFINITY - 1 <=? n then Some (Done (n, false, false, σ))
      else while_loop fuel'' line l (Some n) result σ
  end.

Fixpoint count_loop (fuel' : nat) (vname : text) (count count1 : Z) (result : text) (l : locals) (hit_cont : bool)
    (nn : option Z) σ : option (after W) :=
  match fuel' with
  | O => None
  | S fuel'' =>
      if negb (count <=? count1) then leave_loop hit_cont nn result l σ else
      let '(ok, σ) := set_variable vname (show count) σ in
      if negb ok then leave_loop false nn result l σ else
      '(n, b, ct, σ) ← body σ;
      if ct : bool then count_loop fuel'' vname (i32 (count + 1)) count1 result l true (Some n) σ
      else if b : bool then leave_loop true (Some n) result l σ
      else if S_INFINITY - 1 <=? n then Some (Done (n, false, false, σ))
      else count_loop fuel'' vname (i32 (count + 1)) count1 result l false (Some n) σ
  end.

(** A first bound that is no number is left 0 by [chxnum], like the second. *)
Definition count_bounds (result : text) : Z * Z :=
  let '(ok0, count0) := num_of 3 result in
  if ok0 : bool then let '(ok1, count1) := num_of 4 result in (count0, if ok1 : bool then count1 else count0)
  else (count0, 0).

Definition count_stmt (line : text) (l : locals) σ : option (after W) :=
  '(result, σ) ← eval_line (p_result l) line c σ;
  let result := clean_newlines result in
  let '(count0, count1) := count_bounds result in
  nn ← (if count1 <? count0 then Some <$> skip_block else Some (newnum l));
  count_loop fuel (word_of blanks 2 result) count0 count1 result l false nn σ.

(** [set arg(n) word]: the n-th argument of the page, in place; the buffers for
    the words have 200 bytes. *)
Definition set_arg (vname value : text) σ : option (cml W) :=
  let argn := fst (int4_result blanks vname 4) in
  if argn <=? 0 then Some σ else
  r ← strtoken argn (cmlargs σ);
  match r with
  | None => Some σ
  | Some (start, argword) =>
      r' ← strtoken 1 (take 999 value);
      let argreplace := match r' with Some (_, w) => w | None => [] end in
      if (200 <=? len argword) || (200 <=? len argreplace) then None else
      Some (set_cmlargs σ (take (Z.to_nat start) (cmlargs σ) ++ argreplace ++ drop (Z.to_nat (start + len argword)) (cmlargs σ)))
  end.

Definition set_stmt (verb line : text) (l : locals) σ : option (after W) :=
  '(result, σ) ← eval_line (p_result l) line c σ;
  let '(vptr, vname) := token blanks 2 result in
  let value := if bool_decide (verb = bytes "set") then rest_of blanks 3 result
               else csub result (vptr + len vname + 1) ALLCHARS in
  σ ← (if 0 <=? cindex vname 0 (bytes "arg(") then set_arg vname value σ
       else Some (snd (set_variable vname value σ)));
  Some (Goto num (mkLocals false (truth l) (newnum l) result) σ).

Definition include_stmt (line : text) (l : locals) σ : option (after W) :=
  '(result, σ) ← eval_line (p_result l) line c σ;
  let result := trim (clean_newlines result) in
  let l := mkLocals false (truth l) (newnum l) result in
  '(include_lnum, b, ct, σ) ← c_include k (word_of blanks 2 result) (mkCtx (rest_of blanks 3 result) (aref c)) σ;
  n ← (include_lnum : option Z);
  Some (if b : bool then Done (num, true, false, σ)
        else if ct : bool then Done (num, false, true, σ)
        else if n =? S_INFINITY then Done (S_INFINITY, false, false, σ)
        else Goto num l σ).

Definition if_stmt (line : text) (l : locals) σ : option (after W) :=
  '(result, σ) ← eval_line (p_result l) line c σ;
  let result := clean_newlines result in
  let t := condition result in
  run_if (negb (t =? 0)) (mkLocals true t (newnum l) result) σ.

Definition elif_stmt (line : text) (l : locals) σ : option (after W) :=
  if negb (was_if l) || negb (truth l =? 0) then n ← skip_block; Some (Goto n l σ) else
  '(result, σ) ← eval_line (p_result l) line c σ;
  let result := clean_newlines result in
  let t := condition result in
  run_if (negb (t =? 0)) (mkLocals (was_if l) t (newnum l) result) σ.

Definition else_stmt (l : locals) σ : option (after W) :=
  run_if (negb (negb (was_if l) || negb (truth l =? 0))) (mkLocals false (truth l) (newnum l) (p_result l)) σ.

Definition break_stmt (b ct : bool) σ : option (after W) :=
  n ← skip_block; Some (Done (n, b, ct, σ)).

(** One line of the file. *)
Definition statement (line : text) (l : locals) σ : option (after W) :=
  if 0 <=? is_html line then html_line line l σ else
  let verb := verb_of blanks line in
  let IS x := bool_decide (verb = bytes x) in
  if bool_decide (verb = []) then Some (Goto num l σ)
  else if IS "end" then Some (Done (num, false, false, σ))
  else if IS "return" then Some (Done (S_INFINITY - 1, false, false, σ))
  else if IS "quit" then Some (Done (S_INFINITY, false, false, σ))
  else if IS "break" then break_stmt true false σ
  else if IS "continue" then break_stmt false true σ
  else if IS "for" then for_stmt line l σ
  else if IS "while" then while_loop fuel line l (newnum l) (p_result l) σ
  else if IS "set" || IS "copy" then set_stmt verb line l σ
  else if IS "eval" then
    '(result, σ) ← eval_line (p_result l) line c σ;
    Some (Goto num (mkLocals false (truth l) (newnum l) result) σ)
  else if IS "include" then include_stmt line l σ
  else if IS "count" then count_stmt line l σ
  else if IS "if" then if_stmt line l σ
  else if IS "elif" then elif_stmt line l σ
  else if IS "else" then else_stmt l σ
  else Some (Goto num l (report σ (bytes "Illegal keyword '" ++ verb ++ bytes "'"))).
End block.

(** [parse_cml] from line [num] on.  One unit of fuel a line, a block or a turn
    of a loop. *)
Fixpoint parse_from (fuel : nat) (f : cml_file) (c : ctx) (num : Z) (l : locals) σ : option (stopped W) :=
  match fuel with
  | O => None
  | S fuel' =>
      if len (lines f) <=? num then Some (len (lines f), false, false, σ) else
      line ← zget (lines f) num;
      ln ← zget (lnums f) num;
      let σ := set_where σ (filename f) ln in
      r ← statement f num (parse_from fuel' f c (num + 1) locals_start) fuel' c line l σ;
      match r with
      | Goto num' l σ => parse_from fuel' f c (num' + 1) l σ
      | Done r => Some r
      end
  end.

Definition parse_cml (fuel : nat) (f : cml_file) (start : Z) (c : ctx) σ : option (stopped W) :=
  parse_from fuel f c start locals_start σ.

(** ** Files *)

Definition MAXINC : Z := 100.

(** The file to include: from the cache, or loaded; whether to complain that
    there is none. *)
Definition find_include (fuel : nat) (c : ctx) (name : text) σ : option (cml_file * bool * cml W) :=
  match (if cache_include then list_find (fun f => filename f = name) (icache σ) else None) with
  | Some (_, f) => Some (f, false, σ)
  | None =>
      '(found, f, σ) ← loadcml k fuel c name σ;
      Some (if cache_include then (f, false, if len (icache σ) <? MAXINC then set_icache σ (icache σ ++ [f]) else σ)
            else (f, negb found, σ))
  end.

(** [include_cml].  The number it returns for a file without lines is never
    set. *)
Definition include_cml (fuel : nat) (cmlname : text) (c : ctx) σ : option (option Z * bool * bool * cml W) :=
  let name := take 254 cmlname in
  p ← prot_push 0 (prot σ);
  '(newfile, missing, σ1) ← find_include fuel c name (set_prot σ p);
  '(n, b, ct, σ2) ←
    (if bool_decide (lines newfile = []) then
       Some (None, false, false,
             if missing : bool then report σ1 (bytes "Can't open include file '" ++ name ++ bytes "'") else σ1)
     else '(n, b, ct, σ2) ← parse_cml fuel newfile 0 c σ1; Some (Some n, b, ct, σ2));
  Some (n, b, ct, set_where (set_prot σ2 (prot_pop (prot σ2))) (cfile σ) (lnum σ)).
End statements.

(** ** The interpreter *)

(** The calls of the interpreter, [n] deep. *)
Fixpoint interp {W} `{!cml_env W} (n : nat) : calls W :=
  match n with
  | O => mkCalls (fun _ _ _ _ => None) (fun _ _ _ => None) (fun _ _ _ => None)
  | S n' => let k := interp n' in mkCalls (func_scan k) (func_mac k) (include_cml k n')
  end.

(** A page, as [process_request] has it run. *)
Definition run_page {W} `{!cml_env W} (n : nat) (f : cml_file) (σ : cml W) : option (stopped W) :=
  parse_cml (interp n) n f 0 (mkCtx [] []) σ.
