(* ===== verification/CmlProg.v ===== *)
(** CML programs as trees: what the interpreter's line numbers, flags and
    skipping of blocks amount to.  A reference interpreter, [run], works on
    nested blocks; [parse_cml] on the lines of a program computes the same. *)
From S2P Require Import Prelude Memory Chix ChixCore ChixEdit ChixSearch ChixParse Str Html Numbers CmlLists Table Vartab CmlState CmlScan CmlParse.

(** ** Nesting *)

Inductive kind := KOpen | KEnd | KOther.
Definition kind_of (B : list Z) (line : text) : kind :=
  if 0 <=? is_html line then KOther
  else if bool_decide (verb_of B line = bytes "end") then KEnd
  else if opens (verb_of B line) then KOpen else KOther.

(** The line that closes [d + 1] blocks, or the end of the file. *)
Fixpoint find_end (ks : list kind) (i : Z) (d : nat) : Z :=
  match ks with
  | [] => i
  | KEnd :: ks' => match d with O => i | S d' => find_end ks' (i + 1) d' end
  | KOpen :: ks' => find_end ks' (i + 1) (S d)
  | KOther :: ks' => find_end ks' (i + 1) d
  end.

Lemma find_end_range ks i d : i <= find_end ks i d <= i + len ks.
Proof.
  revert i d. induction ks as [| [] ks IH]; intros i d; cbn [find_end]; rewrite ?len_nil, ?len_cons; len_pos; try lia.
  - specialize (IH (i + 1) (S d)). lia.
  - destruct d as [| d]; [lia |]. specialize (IH (i + 1) d). lia.
  - specialize (IH (i + 1) d). lia.
Qed.

(** Closing one block more is closing the innermost first. *)
Lemma find_end_S ks i d :
  find_end ks i (S d) =
  let j := find_end ks i O in
  if i + len ks <=? j then j else find_end (drop (Z.to_nat (j - i + 1)) ks) (j + 1) d.
Proof.
  assert (H : forall n ks i d e, (length ks <= n)%nat -> find_end ks i (S (d + e)) =
    let j := find_end ks i d in if i + len ks <=? j then j else find_end (drop (Z.to_nat (j - i + 1)) ks) (j + 1) e).
  { clear. induction n as [| n IH]; intros ks i d e Hn.
    { destruct ks; [| cbn in Hn; lia]. cbn. by replace (i + len [] <=? i) with true by (rewrite len_nil; lia). }
    destruct ks as [| x ks]; [cbn; by replace (i + len [] <=? i) with true by (rewrite len_nil; lia) |].
    cbn [length] in Hn. cbv zeta. rewrite len_cons.
    assert (Hgo : forall d', find_end ks (i + 1) (S (d' + e)) =
      (if i + (len ks + 1) <=? find_end ks (i + 1) d' then find_end ks (i + 1) d'
       else find_end (drop (Z.to_nat (find_end ks (i + 1) d' - i + 1)) (x :: ks)) (find_end ks (i + 1) d' + 1) e)).
    { intros d'. rewrite IH by lia. cbv zeta. replace (i + 1 + len ks) with (i + (len ks + 1)) by lia.
      pose proof (find_end_range ks (i + 1) d').
      by replace (Z.to_nat (find_end ks (i + 1) d' - i + 1)) with (S (Z.to_nat (find_end ks (i + 1) d' - (i + 1) + 1))) by lia. }
    destruct x; cbn [find_end].
    - exact (Hgo (S d)).
    - destruct d as [| d]; cbn [Nat.add]; [| exact (Hgo d)]. len_pos. replace (i + (len ks + 1) <=? i) with false by lia.
      by replace (Z.to_nat (i - i + 1)) with 1%nat by lia.
    - exact (Hgo d). }
  exact (H (length ks) ks i O d (Nat.le_refl _)).
Qed.

Section skipping.
Context (B : list Z) (ls : list text).

Definition kinds (num : Z) : list kind := map (kind_of B) (drop (Z.to_nat num) ls).

Lemma kinds_cons num line : 0 <= num -> zget ls num = Some line -> kinds num = kind_of B line :: kinds (num + 1).
Proof.
  intros H0 Hl. unfold kinds, zget in *. replace (num <? 0) with false in Hl by lia.
  rewrite (drop_S _ _ _ Hl). cbn. by replace (Z.to_nat (num + 1)) with (S (Z.to_nat num)) by lia.
Qed.

Lemma kinds_len num : 0 <= num <= len ls -> len (kinds num) = len ls - num.
Proof. intros H. unfold kinds, len in *. rewrite length_map, length_drop. lia. Qed.

(** [skip_cml] finds the closing line, for enough fuel. *)
Lemma skip_cml_find fuel num :
  0 <= num -> len ls - num < Z.of_nat fuel -> (0 < fuel)%nat ->
  skip_cml fuel B ls num = Some (if len ls <=? num then len ls else find_end (kinds num) num 0).
Proof.
  revert num. induction fuel as [| fuel IH]; intros num H0 Hf Hp; [lia |]. cbn [skip_cml].
  destruct (len ls <=? num) eqn:Hn; [done |].
  destruct (zget ls num) as [line |] eqn:Hl.
  2: { unfold zget in Hl. replace (num <? 0) with false in Hl by lia.
       apply lookup_ge_None in Hl. unfold len in Hn. lia. }
  cbn [mbind option_bind]. rewrite (kinds_cons num line) by done. unfold kind_of.
  assert (Hnext : skip_cml fuel B ls (num + 1) = Some (find_end (kinds (num + 1)) (num + 1) 0)).
  { rewrite IH by lia. destruct (len ls <=? num + 1) eqn:Hn1; [| done].
    unfold kinds. rewrite drop_ge by (unfold len in *; lia). cbn. f_equal. lia. }
  destruct (0 <=? is_html line); [cbn [find_end]; done |].
  case_bool_decide; [done |]. destruct (opens _); [| cbn [find_end]; done].
  rewrite Hnext. cbn [mbind option_bind find_end]. rewrite find_end_S. cbv zeta.
  pose proof (find_end_range (kinds (num + 1)) (num + 1) 0) as Hr. rewrite kinds_len in * by lia.
  set (j := find_end (kinds (num + 1)) (num + 1) 0) in *. rewrite IH by lia. f_equal.
  destruct (len ls <=? j + 1) eqn:Hj.
  - destruct (num + 1 + (len ls - (num + 1)) <=? j) eqn:Hk; [lia |].
    unfold kinds. rewrite skipn_map, drop_drop, drop_ge by (unfold len in *; lia). cbn. lia.
  - replace (num + 1 + (len ls - (num + 1)) <=? j) with false by lia.
    f_equal. unfold kinds. rewrite skipn_map, drop_drop. do 2 f_equal. lia.
Qed.
End skipping.

(** ** Programs *)

(** A line with its number in the file. *)
Abbreviation src := (text * Z)%type (only parsing).

(** A line for itself, or a line that opens a block, the block, and the line
    that closes it. *)
#[warnings="-register-all"]
Inductive stmt : Type :=
| SLine (ln : text * Z)
| SBlock (ln : text * Z) (b : list stmt) (e : text * Z).

Fixpoint source (s : stmt) : list src :=
  match s with
  | SLine ln => [ln]
  | SBlock ln b e => ln :: flat_map source b ++ [e]
  end.
Definition sources (p : list stmt) : list src := flat_map source p.

Fixpoint good_stmt (B : list Z) (s : stmt) : bool :=
  let kind_is line x := match kind_of B line, x with KOpen, KOpen | KEnd, KEnd | KOther, KOther => true | _, _ => false end in
  match s with
  | SLine ln => kind_is ln.1 KOther
  | SBlock ln b e => kind_is ln.1 KOpen && kind_is e.1 KEnd && forallb (good_stmt B) b
  end.
Definition good_prog (B : list Z) (p : list stmt) : bool := forallb (good_stmt B) p.

(** Statements of a tree have smaller trees in them. *)
Fixpoint size (s : stmt) : nat :=
  match s with SLine _ => 1 | SBlock _ b _ => S (S (list_sum (map size b))) end.

Lemma find_end_block B p :
  good_prog B p = true ->
  forall ks i d, find_end (map (fun ln => kind_of B ln.1) (sources p) ++ ks) i d = find_end ks (i + len (sources p)) d.
Proof.
  remember (list_sum (map size p)) as n eqn:Hn. assert (Hle : (list_sum (map size p) <= n)%nat) by lia. clear Hn.
  revert p Hle. induction n as [| n IH]; intros [| s p] Hle Hg ks i d;
    try (cbn; by rewrite Z.add_0_r); [destruct s; cbn in Hle; lia |].
  unfold good_prog in *. cbn [forallb] in Hg. apply andb_prop in Hg as [Hs Hp].
  change (sources (s :: p)) with (source s ++ sources p). rewrite map_app, <- app_assoc, len_app.
  destruct s as [ln | ln b e]; cbn [good_stmt source] in *.
  - destruct (kind_of B ln.1) eqn:Ek; try done. cbn [map app find_end]. rewrite Ek. cbn [find_end].
    change (1 + list_sum (map size p) <= S n)%nat in Hle. rewrite IH; [| lia | done]. f_equal. rewrite len_cons, len_nil. lia.
  - change (list_sum (map size (SBlock ln b e :: p))) with (S (S (list_sum (map size b))) + list_sum (map size p))%nat in Hle.
    apply andb_prop in Hs as [Hs Hb]. apply andb_prop in Hs as [Ho He].
    destruct (kind_of B ln.1) eqn:Ek; try done. destruct (kind_of B e.1) eqn:Ee; try done.
    cbn [map app find_end]. rewrite Ek, map_app, <- app_assoc. cbn [find_end].
    rewrite (IH b) by (done || lia). cbn [map app find_end]. rewrite Ee. cbn [find_end].
    rewrite (IH p) by (done || lia). f_equal. unfold sources. zlen.
Qed.

(** The file that holds [all]. *)
Definition file_of (name : text) (all : list src) : cml_file := mkFile name (map fst all) (map snd all).

Lemma skip_good B pre p e post fuel :
  good_prog B p = true -> kind_of B e.1 = KEnd ->
  len (pre ++ sources p ++ e :: post) < Z.of_nat fuel ->
  skip_cml fuel B (map fst (pre ++ sources p ++ e :: post)) (len pre) = Some (len pre + len (sources p)).
Proof.
  intros Hg He Hf.
  assert (Hl : len (map fst (pre ++ sources p ++ e :: post)) = len pre + len (sources p) + 1 + len post).
  { unfold len. rewrite length_map, !length_app. cbn [length]. lia. }
  rewrite !len_app, len_cons in Hf. len_pos. rewrite skip_cml_find by (rewrite ?Hl; lia). rewrite Hl.
  replace (len pre + len (sources p) + 1 + len post <=? len pre) with false by lia. f_equal.
  unfold kinds. rewrite map_app, drop_app_length' by (unfold len; rewrite length_map; lia).
  rewrite map_map, map_app. cbn [map]. rewrite find_end_block by done. cbn [find_end]. by rewrite He.
Qed.

(** ** The reference interpreter *)

(** How a block ends: at its end, by a break or a continue for the loop around
    it, or by leaving the file for good. *)
Inductive result := Fell | Broke | Contd | Left (n : Z).

Section running.
Context {W : Type} `{env : !cml_env W} (k : calls W) (name : text) (c : ctx).
Implicit Type σ : cml W.

(** What a statement does: go on, or end the block it is in. *)
Abbreviation effect := ((locals * cml W) + (result * cml W))%type (only parsing).

(** A line that opens no block does what its handler does. *)
Definition run_line (line : text) (l : locals) σ : option effect :=
  let verb := verb_of blanks line in
  let code := negb (0 <=? is_html line) in
  if code && bool_decide (verb = bytes "break") then Some (inr (Broke, σ))
  else if code && bool_decide (verb = bytes "continue") then Some (inr (Contd, σ))
  else
    a ← statement k (mkFile [] [] []) 0 (fun _ => None) 0 c line l σ;
    match a with
    | Goto _ l σ => Some (inl (l, σ))
    | Done (n, b, ct, σ) =>
        if b : bool then Some (inr (Broke, σ)) else if ct : bool then Some (inr (Contd, σ))
        else if S_INFINITY - 1 <=? n then Some (inr (Left n, σ)) else None
    end.

Section block.
Context (body : cml W -> option (result * cml W)).

Definition run_branch (taken : bool) (l : locals) σ : option effect :=
  if taken then '(r, σ) ← body σ; Some (match r with Fell => inl (l, σ) | _ => inr (r, σ) end)
  else Some (inl (l, σ)).

(** Loops: whether the file was left, and how. *)
Fixpoint run_for (fuel : nat) (which numvars : Z) (values : text) σ : option (option Z * cml W) :=
  match fuel with
  | O => None
  | S fuel' =>
      let '(more, σ) := assign_vars (Z.to_nat numvars) which 0 values false σ in
      if negb more then Some (None, σ) else
      '(r, σ) ← body σ;
      match r with
      | Broke => Some (None, σ)
      | Left n => Some (Some n, σ)
      | _ => run_for fuel' (which + numvars) numvars values σ
      end
  end.

Fixpoint run_while (fuel : nat) (line old : text) σ : option (option Z * text * cml W) :=
  match fuel with
  | O => None
  | S fuel' =>
      '(value, σ) ← eval_line k old line c σ;
      let value := clean_newlines value in
      let '(ok, count) := num_of 2 value in
      if negb ok || (count =? 0) then Some (None, value, σ) else
      '(r, σ) ← body σ;
      match r with
      | Broke => Some (None, value, σ)
      | Left n => Some (Some n, value, σ)
      | _ => run_while fuel' line value σ
      end
  end.

(** A variable that cannot be set ends the loop; it has to be behind a whole
    turn: for the first value, and after a continue, the code goes on at a line
    that has nothing to do with the loop. *)
Fixpoint run_count (fuel : nat) (vname : text) (count count1 : Z) (whole : bool) σ : option (option Z * cml W) :=
  match fuel with
  | O => None
  | S fuel' =>
      if negb (count <=? count1) then Some (None, σ) else
      let '(ok, σ) := set_variable vname (show count) σ in
      if negb ok then (if whole then Some (None, σ) else None) else
      '(r, σ) ← body σ;
      match r with
      | Broke => Some (None, σ)
      | Left n => Some (Some n, σ)
      | Fell => run_count fuel' vname (i32 (count + 1)) count1 true σ
      | Contd => run_count fuel' vname (i32 (count + 1)) count1 false σ
      end
  end.

(** Behind a loop the branches of an earlier [if] are over. *)
Definition after_loop (values : text) (l : locals) (r : option Z) σ : effect :=
  match r with
  | Some n => inr (Left n, σ)
  | None => inl (mkLocals false (truth l) None values, σ)
  end.

Definition run_block (fuel : nat) (line : text) (l : locals) σ : option effect :=
  let IS x := bool_decide (verb_of blanks line = bytes x) in
  if IS "while" then
    '(r, value, σ) ← run_while fuel line (p_result l) σ; Some (after_loop value l r σ)
  else if IS "else" then
    run_branch (negb (negb (was_if l) || negb (truth l =? 0))) (mkLocals false (truth l) None (p_result l)) σ
  else if IS "elif" && (negb (was_if l) || negb (truth l =? 0)) then Some (inl (l, σ))
  else
    '(value, σ) ← eval_line k (p_result l) line c σ;
    let value := clean_newlines value in
    if IS "for" then
      in_ ← tablefind blanks (Some value) (Some (bytes "in"));
      let '(in_, numvars) := if in_ <? 0 then (2, 1) else (in_ + 1, in_ + 1 - 2) in
      if numvars <=? 0 then None else
      '(r, σ) ← run_for fuel (in_ + 1) numvars value σ; Some (after_loop value l r σ)
    else if IS "count" then
      let '(count0, count1) := count_bounds value in
      '(r, σ) ← run_count fuel (word_of blanks 2 value) count0 count1 false σ; Some (after_loop value l r σ)
    else
      let t := condition value in
      run_branch (negb (t =? 0)) (mkLocals (if IS "if" then true else was_if l) t None value) σ.
End block.

Definition run_start : locals := mkLocals false 0 None [].

(** The line that closes a block is the last one reached in it. *)
Definition close (e : src) (r : result * cml W) : result * cml W :=
  match r with (Fell, σ) => (Fell, set_where σ name e.2) | _ => r end.

Fixpoint run (fuel : nat) (p : list stmt) (l : locals) σ : option (result * cml W) :=
  match fuel with
  | O => None
  | S fuel' =>
      match p with
      | [] => Some (Fell, σ)
      | s :: p' =>
          r ← (match s with
               | SLine ln => run_line ln.1 l (set_where σ name ln.2)
               | SBlock ln b e => run_block (fun σ => close e <$> run fuel' b run_start σ) fuel' ln.1 l (set_where σ name ln.2)
               end);
          match r with inl (l, σ) => run fuel' p' l σ | inr r => Some r end
      end
  end.
End running.

(** ** The interpreter runs the tree *)

Section refinement.
Context {W : Type} `{env : !cml_env W} (k : calls W) (c : ctx).
Implicit Type σ : cml W.

(** What [parse_cml] returns for a block that is to end at line [n0]. *)
Definition stops (n0 : Z) (r : result * cml W) (o : stopped W) : Prop :=
  match r with
  | (Fell, σ) => o = (n0, false, false, σ)
  | (Broke, σ) => exists n, o = (n, true, false, σ)
  | (Contd, σ) => exists n, o = (n, false, true, σ)
  | (Left n, σ) => o = (n, false, false, σ) /\ S_INFINITY - 1 <= n
  end.

Definition set_newnum (l : locals) (nn : option Z) : locals := mkLocals (was_if l) (truth l) nn (p_result l).

(** What [parse_cml] does with a statement that is over at line [num]. *)
Definition moves (num : Z) (e : (locals * cml W) + (result * cml W)) (a : after W) : Prop :=
  match e with
  | inl (l, σ) => exists nn, a = Goto num (set_newnum l nn) σ
  | inr (r, σ) => r <> Fell /\ exists o, a = Done o /\ stops 0 (r, σ) o
  end.

Lemma stops_early n0 n0' r σ o : r <> Fell -> stops n0 (r, σ) o -> stops n0' (r, σ) o.
Proof. by destruct r. Qed.

(** A line that opens no block. *)
Lemma run_line_moves f num body fuel line l σ e nn n :
  kind_of blanks line = KOther -> skip_cml fuel blanks (lines f) (num + 1) = Some n ->
  run_line k c line l σ = Some e ->
  exists a, statement k f num body fuel c line (set_newnum l nn) σ = Some a /\ moves num e a.
Proof.
  intros Hk Hskip. unfold run_line, statement, kind_of in *.
  destruct (0 <=? is_html line) eqn:Eh; cbn [negb andb].
  { unfold html_line. change (p_result (set_newnum l nn)) with (p_result l).
    destruct (eval_line k (p_result l) line c σ) as [[value σ1] |]; [| done]. cbn [mbind option_bind].
    destruct (to_chix σ1).
    - intros [= <-]. eexists. split; [done |]. by exists nn.
    - destruct (convert_and_write _ _) as [[] w]; intros [= <-]. eexists. split; [done |]. by exists nn. }
  destruct (bool_decide (verb_of blanks line = bytes "end")) eqn:Eend; [done |].
  destruct (opens (verb_of blanks line)) eqn:Eo; [done |]. unfold opens in Eo.
  repeat (apply orb_false_iff in Eo as [Eo ?]). clear Hk.
  destruct (bool_decide (verb_of blanks line = bytes "break")) eqn:Eb; cbn [andb].
  { intros [= <-]. apply bool_decide_eq_true in Eb. rewrite Eb. unfold break_stmt, skip_block. rewrite Hskip. cbn.
    eexists. split; [done |]. split; [done |]. eexists. split; [done |]. by eexists. }
  destruct (bool_decide (verb_of blanks line = bytes "continue")) eqn:Ec; cbn [andb].
  { intros [= <-]. apply bool_decide_eq_true in Ec. rewrite Ec. unfold break_stmt, skip_block. rewrite Hskip. cbn.
    eexists. split; [done |]. split; [done |]. eexists. split; [done |]. by eexists. }
  destruct (bool_decide (verb_of blanks line = [])).
  { intros [= <-]. eexists. split; [done |]. by exists nn. }
  destruct (bool_decide (verb_of blanks line = bytes "return")).
  { intros [= <-]. eexists. split; [done |]. split; [done |]. eexists. split; [done |]. done. }
  destruct (bool_decide (verb_of blanks line = bytes "quit")).
  { intros [= <-]. eexists. split; [done |]. split; [done |]. eexists. split; [done |]. done. }
  repeat match goal with H : bool_decide _ = false |- _ => rewrite H; clear H end.
  destruct (_ || _).
  { unfold set_stmt. change (p_result (set_newnum l nn)) with (p_result l).
    destruct (eval_line k (p_result l) line c σ) as [[value σ1] |]; [| done]. cbn [mbind option_bind].
    destruct (token blanks 2 value) as [vptr vname].
    match goal with |- context [if 0 <=? cindex ?a ?b ?d then ?x else ?y] =>
      destruct (if 0 <=? cindex a b d then x else y) as [σ2 |] end; [| done].
    intros [= <-]. eexists. split; [done |]. by exists nn. }
  destruct (bool_decide (verb_of blanks line = bytes "eval")).
  { change (p_result (set_newnum l nn)) with (p_result l).
    destruct (eval_line k (p_result l) line c σ) as [[value σ1] |]; [| done].
    intros [= <-]. eexists. split; [done |]. by exists nn. }
  destruct (bool_decide (verb_of blanks line = bytes "include")).
  { unfold include_stmt. change (p_result (set_newnum l nn)) with (p_result l).
    destruct (eval_line k (p_result l) line c σ) as [[value σ1] |]; [| done]. cbn [mbind option_bind].
    destruct (c_include k _ _ σ1) as [[[[[m |] b] ct] σ2] |]; [| done | done]. cbn [mbind option_bind].
    destruct b; [intros [= <-] | destruct ct; [intros [= <-] | destruct (m =? S_INFINITY); intros [= <-]]];
      (eexists; split; [done |]); try (by exists nn); (split; [done |]; eexists; split; [done |]; first [by eexists | done]). }
  intros [= <-]. eexists. split; [done |]. by exists nn.
Qed.

Section block.
Context (f : cml_file) (num n0 : Z) (rbody : cml W -> option (result * cml W)) (body : cml W -> option (stopped W)).
Context (fuel0 : nat).
Hypothesis Hskip : skip_cml fuel0 blanks (lines f) (num + 1) = Some n0.
Hypothesis Hbody : forall σ r, rbody σ = Some r -> exists o, body σ = Some o /\ stops n0 r o.
Hypothesis Hn0 : n0 < S_INFINITY - 1.

Lemma leave_loop_moves skipped nn value l σ :
  skipped = true \/ nn = Some n0 ->
  exists nn', leave_loop f num fuel0 skipped nn value l σ = Some (Goto n0 (set_newnum (mkLocals false (truth l) None value) nn') σ).
Proof.
  intros H. unfold leave_loop, skip_block. exists nn.
  destruct H as [-> | ->]; [rewrite Hskip | destruct skipped; [rewrite Hskip |]]; cbn;
    by rewrite (proj2 (Z.leb_gt _ _)) by (unfold S_INFINITY in *; lia).
Qed.

Lemma run_branch_moves taken l σ e nn :
  run_branch rbody taken l σ = Some e ->
  exists a, run_if f num body fuel0 taken (set_newnum l nn) σ = Some a /\ moves n0 e a.
Proof.
  unfold run_branch, run_if, skip_block. destruct taken.
  - destruct (rbody σ) as [[r σ1] |] eqn:Er; [| done]. intros [= <-].
    destruct (Hbody _ _ Er) as (o & -> & Ho). cbn. eexists. split; [done |].
    destruct r as [| | | n]; cbn in Ho.
    + subst o. unfold after_block. rewrite (proj2 (Z.leb_gt _ _)) by (unfold S_INFINITY in *; lia). by exists nn.
    + destruct Ho as [n ->]. split; [done |]. eexists. split; [done |]. by eexists.
    + destruct Ho as [n ->]. split; [done |]. eexists. split; [done |]. by eexists.
    + destruct Ho as [-> Hn]. split; [done |]. unfold after_block. rewrite (proj2 (Z.leb_le _ _)) by done.
      eexists. split; [done |]. done.
  - intros [= <-]. rewrite Hskip. cbn. rewrite (proj2 (Z.leb_gt _ _)) by (unfold S_INFINITY in *; lia).
    eexists. split; [done |]. by exists nn.
Qed.

(** What a loop does is what it left, or to go on behind its end. *)
Definition loop_moves (value : text) (l : locals) (r : option Z) σ (a : option (after W)) : Prop :=
  exists a', a = Some a' /\ moves n0 (after_loop value l r σ) a'.

Lemma loop_moves_left value l n σ :
  S_INFINITY - 1 <= n -> loop_moves value l (Some n) σ (Some (Done (n, false, false, σ))).
Proof. intros Hn. eexists. split; [done |]. split; [done |]. eexists. split; [done |]. done. Qed.

Lemma loop_moves_over skipped nn value l l' σ :
  skipped = true \/ nn = Some n0 -> truth l = truth l' ->
  loop_moves value l' None σ (leave_loop f num fuel0 skipped nn value l σ).
Proof.
  intros H Ht. destruct (leave_loop_moves skipped nn value l σ H) as [nn' ->]. eexists. split; [done |].
  exists nn'. by rewrite Ht.
Qed.

Ltac body_case Er :=
  match type of Er with rbody ?σ = Some (?r, ?σ1) =>
    destruct (Hbody _ _ Er) as (o & -> & Ho); destruct r as [| | | z]; cbn in Ho;
    [subst o | destruct Ho as [z ->] | destruct Ho as [z ->] | destruct Ho as [-> Hz]]; cbn [mbind option_bind]
  end.

Lemma run_for_moves m fuel first which numvars value l hit_cont nn σ r σ' :
  (m <= fuel)%nat ->
  (hit_cont = true \/ which = first \/ nn = Some n0) -> first <= which -> 0 < numvars ->
  run_for rbody m which numvars value σ = Some (r, σ') ->
  loop_moves value l r σ' (for_loop f num body fuel0 fuel first which numvars value l hit_cont nn σ).
Proof.
  revert fuel which hit_cont nn σ. induction m as [| m IH]; intros fuel which hit_cont nn σ Hm Hi Hw Hv; [done |].
  destruct fuel as [| fuel]; [lia |]. cbn [run_for for_loop]. destruct (assign_vars _ _ _ _ _ σ) as [more σ1]. destruct more; cbn [negb].
  - destruct (rbody σ1) as [[res σ2] |] eqn:Er; [| done]. cbn [mbind option_bind]. body_case Er.
    + rewrite (proj2 (Z.leb_gt _ _)) by (unfold S_INFINITY in *; lia). apply IH; [lia | right; by right | lia | lia].
    + intros [= <- <-]. by apply loop_moves_over; [left |].
    + apply IH; [lia | by left | lia | lia].
    + rewrite (proj2 (Z.leb_le _ _)) by done. intros [= <- <-]. by apply loop_moves_left.
  - intros [= <- <-]. apply loop_moves_over; [| done].
    destruct Hi as [-> | [-> | ->]]; [by left | left; by rewrite Z.eqb_refl, orb_true_r | by right].
Qed.

Lemma run_while_moves m fuel line old l nn σ r value σ' :
  (m <= fuel)%nat ->
  run_while k c rbody m line old σ = Some (r, value, σ') ->
  loop_moves value l r σ' (while_loop k f num body fuel0 c fuel line l nn old σ).
Proof.
  revert fuel old nn σ. induction m as [| m IH]; intros fuel old nn σ Hm; [done |].
  destruct fuel as [| fuel]; [lia |]. cbn [run_while while_loop].
  destruct (eval_line k old line c σ) as [[v σ1] |]; [| done]. cbn [mbind option_bind].
  destruct (num_of 2 (clean_newlines v)) as [ok count]. destruct (_ || _).
  { intros [= <- <- <-]. by apply loop_moves_over; [left |]. }
  destruct (rbody σ1) as [[res σ2] |] eqn:Er; [| done]. cbn [mbind option_bind]. body_case Er.
  - rewrite (proj2 (Z.leb_gt _ _)) by (unfold S_INFINITY in *; lia). apply IH. lia.
  - intros [= <- <- <-]. by apply loop_moves_over; [left |].
  - apply IH. lia.
  - rewrite (proj2 (Z.leb_le _ _)) by done. intros [= <- <- <-]. by apply loop_moves_left.
Qed.

Lemma run_count_moves m fuel vname count count1 (whole : bool) value l hit_cont nn σ r σ' :
  (m <= fuel)%nat -> (whole = true -> nn = Some n0) -> (count <= count1 \/ hit_cont = true \/ nn = Some n0) ->
  run_count rbody m vname count count1 whole σ = Some (r, σ') ->
  loop_moves value l r σ' (count_loop f num body fuel0 fuel vname count count1 value l hit_cont nn σ).
Proof.
  revert fuel count whole hit_cont nn σ. induction m as [| m IH]; intros fuel count whole hit_cont nn σ Hm Hw Hi; [done |].
  destruct fuel as [| fuel]; [lia |]. cbn [run_count count_loop]. destruct (count <=? count1) eqn:Ec; cbn [negb].
  2: { intros [= <- <-]. apply loop_moves_over; [| done]. destruct Hi as [? | Hi]; [lia | done]. }
  destruct (set_variable vname (show count) σ) as [ok σ1]. destruct ok; cbn [negb].
  2: { destruct whole; [| done]. intros [= <- <-]. apply loop_moves_over; [right; by apply Hw | done]. }
  destruct (rbody σ1) as [[res σ2] |] eqn:Er; [| done]. cbn [mbind option_bind]. body_case Er.
  - rewrite (proj2 (Z.leb_gt _ _)) by (unfold S_INFINITY in *; lia). apply IH; [lia | done | right; by right].
  - intros [= <- <-]. by apply loop_moves_over; [left |].
  - apply IH; [lia | done | right; by left].
  - rewrite (proj2 (Z.leb_le _ _)) by done. intros [= <- <-]. by apply loop_moves_left.
Qed.

Lemma run_block_moves m line l σ e nn :
  kind_of blanks line = KOpen -> (m <= fuel0)%nat ->
  run_block k c rbody m line l σ = Some e ->
  exists a, statement k f num body fuel0 c line (set_newnum l nn) σ = Some a /\ moves n0 e a.
Proof.
  unfold kind_of, run_block, statement. destruct (0 <=? is_html line); [done |].
  destruct (bool_decide (verb_of blanks line = bytes "end")); [done |].
  destruct (opens (verb_of blanks line)) eqn:Eo; [| done]. intros _ Hf.
  unfold opens in Eo. set (verb := verb_of blanks line) in *.
  assert (Hv : verb = bytes "for" \/ verb = bytes "if" \/ verb = bytes "else" \/ verb = bytes "elif" \/
    verb = bytes "while" \/ verb = bytes "count").
  { repeat (apply orb_true_iff in Eo as [Eo | Eo]); apply bool_decide_eq_true in Eo; auto 7. }
  clear Eo. clearbody verb. destruct Hv as [-> | [-> | [-> | [-> | [-> | ->]]]]];
    repeat match goal with |- context [bool_decide (bytes ?x = bytes ?y)] =>
      let b := eval vm_compute in (bool_decide (bytes x = bytes y)) in
      change (bool_decide (bytes x = bytes y)) with b end;
    repeat match goal with |- context [bool_decide (bytes ?x = [])] => change (bool_decide (bytes x = [])) with false end;
    cbn [orb andb].
  - unfold for_stmt. change (p_result (set_newnum l nn)) with (p_result l).
    destruct (eval_line k (p_result l) line c σ) as [[value σ1] |]; [| done]. cbn [mbind option_bind].
    destruct (tablefind _ _ _) as [i |]; [| done]. cbn [mbind option_bind].
    set (q := if i <? 0 then (2, 1) else (i + 1, i + 1 - 2)). destruct q as [i' numvars].
    destruct (numvars <=? 0) eqn:En; [done |].
    destruct (run_for rbody m (i' + 1) numvars (clean_newlines value) σ1) as [[r σ2] |] eqn:Er; [| done].
    cbn [mbind option_bind]. intros [= <-].
    apply (run_for_moves m fuel0 (i' + 1) (i' + 1) numvars (clean_newlines value) (set_newnum l nn) false nn) in Er; [exact Er | done | right; by left | lia | lia].
  - unfold if_stmt. change (p_result (set_newnum l nn)) with (p_result l).
    destruct (eval_line k (p_result l) line c σ) as [[value σ1] |]; [| done]. cbn [mbind option_bind].
    apply (run_branch_moves _ (mkLocals true (condition (clean_newlines value)) None (clean_newlines value)) _ _ nn).
  - unfold else_stmt. apply (run_branch_moves _ (mkLocals false (truth l) None (p_result l)) _ _ nn).
  - unfold elif_stmt. change (p_result (set_newnum l nn)) with (p_result l).
    change (was_if (set_newnum l nn)) with (was_if l). change (truth (set_newnum l nn)) with (truth l).
    destruct (negb (was_if l) || negb (truth l =? 0)).
    + intros [= <-]. unfold skip_block. rewrite Hskip. eexists. split; [done |]. by exists nn.
    + destruct (eval_line k (p_result l) line c σ) as [[value σ1] |]; [| done]. cbn [mbind option_bind].
      apply (run_branch_moves _ (mkLocals (was_if l) (condition (clean_newlines value)) None (clean_newlines value)) _ _ nn).
  - change (p_result (set_newnum l nn)) with (p_result l).
    destruct (run_while k c rbody m line (p_result l) σ) as [[[r value] σ2] |] eqn:Er; [| done].
    cbn [mbind option_bind]. intros [= <-].
    by apply (run_while_moves m fuel0 line (p_result l) (set_newnum l nn) nn) in Er.
  - unfold count_stmt. change (p_result (set_newnum l nn)) with (p_result l).
    destruct (eval_line k (p_result l) line c σ) as [[value σ1] |]; [| done]. cbn [mbind option_bind].
    destruct (count_bounds (clean_newlines value)) as [count0 count1].
    destruct (run_count rbody m _ count0 count1 false σ1) as [[r σ2] |] eqn:Er; [| done].
    cbn [mbind option_bind]. intros [= <-].
    destruct (count1 <? count0) eqn:Ec; [unfold skip_block; rewrite Hskip |]; cbn [fmap option_fmap option_map mbind option_bind];
      eapply (run_count_moves m fuel0 _ _ _ _ _ (set_newnum l nn) false) in Er;
        [exact Er | done | done | first [right; by right | left; lia]
        | exact Er | done | done | first [right; by right | left; lia]].
Qed.
End block.

Section lines.
Context (name : text) (all : list src) (extra : nat).
Hypothesis Hall : len all < S_INFINITY - 1.
Hypothesis Hextra : len all < Z.of_nat extra.

(** What closes the block: nothing, at the end of the file, or its last line. *)
Definition closed (post : list src) (r : result * cml W) : result * cml W :=
  match post with [] => r | e :: _ => close name e r end.
Definition closes (post : list src) : Prop :=
  match post with [] => True | e :: _ => kind_of blanks e.1 = KEnd end.

Lemma parse_step fuel pre ln post l σ :
  all = pre ++ ln :: post ->
  parse_from k (S fuel) (file_of name all) c (len pre) l σ =
    (r ← statement k (file_of name all) (len pre) (parse_from k fuel (file_of name all) c (len pre + 1) locals_start) fuel c
           ln.1 l (set_where σ name ln.2);
     match r with Goto num' l σ => parse_from k fuel (file_of name all) c (num' + 1) l σ | Done r => Some r end).
Proof.
  intros E. cbn [parse_from]. unfold file_of. cbn [lines lnums filename].
  assert (Hl : len (map fst all) = len pre + 1 + len post).
  { rewrite E. unfold len. rewrite length_map, length_app. cbn [length]. lia. }
  len_pos. rewrite (proj2 (Z.leb_gt _ _)) by lia.
  assert (Hz : forall {A} (g : src -> A), zget (map g all) (len pre) = Some (g ln)).
  { intros A g. unfold len. rewrite zget_nat, list_lookup_fmap, E, lookup_app_r by lia. by rewrite Nat.sub_diag. }
  by rewrite !Hz.
Qed.

Lemma parse_end fuel pre post l σ :
  all = pre ++ post -> closes post -> (0 < fuel)%nat ->
  exists o, parse_from k fuel (file_of name all) c (len pre) l σ = Some o /\ stops (len pre) (closed post (Fell, σ)) o.
Proof.
  intros E Hc Hf. destruct fuel as [| fuel]; [lia |]. destruct post as [| e post].
  - cbn [parse_from]. unfold file_of. cbn [lines]. rewrite app_nil_r in E. subst all.
    assert (len (map fst pre) = len pre) as -> by (unfold len; by rewrite length_map). rewrite Z.leb_refl.
    eexists. split; [done |]. done.
  - rewrite (parse_step fuel pre e post) by done. cbn in Hc. unfold kind_of, statement in *.
    destruct (0 <=? is_html e.1); [done |]. destruct (bool_decide (verb_of blanks e.1 = bytes "end")) eqn:Ee.
    2: { by destruct (opens _). }
    apply bool_decide_eq_true in Ee. rewrite Ee. cbn. eexists. split; [done |]. done.
Qed.

Lemma stops_weaken n0 n0' r o : (r.1 = Fell -> n0 = n0') -> stops n0 r o -> stops n0' r o.
Proof. destruct r as [[] σ]; cbn; try done. intros H. by rewrite H. Qed.

Lemma closed_early post r σ : r <> Fell -> closed post (r, σ) = (r, σ).
Proof. destruct post; [done |]. by destruct r. Qed.

Lemma run_parse fuel : forall p pre post l nn σ r,
  all = pre ++ sources p ++ post -> closes post -> good_prog blanks p = true ->
  run k name c fuel p l σ = Some r ->
  exists o, parse_from k (fuel + extra) (file_of name all) c (len pre) (set_newnum l nn) σ = Some o /\
    stops (len pre + len (sources p)) (closed post r) o.
Proof.
  induction fuel as [| fuel IH]; intros p pre post l nn σ r E Hc Hg; [done |]. cbn [run].
  destruct p as [| s p].
  { intros [= <-]. destruct (parse_end (S fuel + extra) pre post (set_newnum l nn) σ) as (o & -> & Ho); [done | done | lia |].
    exists o. split; [done |]. change (len (sources [])) with 0; by rewrite Z.add_0_r. }
  unfold good_prog in Hg. cbn [forallb] in Hg. apply andb_prop in Hg as [Hs Hp].
  change (sources (s :: p)) with (source s ++ sources p) in *. rewrite <- app_assoc in E.
  (* the statement, then the others from line [n1 + 1] on *)
  assert (Hrest : forall n1 e a σ1, n1 + 1 = len pre + len (source s) -> moves n1 e a ->
    match e with inl (l, σ) => run k name c fuel p l σ | inr r => Some r end = Some r ->
    exists o, match a with Goto num' l σ => parse_from k (fuel + extra) (file_of name all) c (num' + 1) l σ | Done r => Some r end
      = Some o /\ stops (len pre + len (source s ++ sources p)) (closed post r) o).
  { intros n1 e a _ Hn1 Hm Hr. destruct e as [[l1 σ1] | [r1 σ1]].
    - destruct Hm as [nn1 ->]. rewrite Hn1.
      destruct (IH p (pre ++ source s) post l1 nn1 σ1 r) as (o & Ho & Hst); [by rewrite <- app_assoc | done | done | done |].
      rewrite len_app in Ho, Hst. exists o. split; [done |]. rewrite len_app, Z.add_assoc. exact Hst.
    - injection Hr as <-. destruct Hm as (Hne & o & -> & Ho). exists o. split; [done |].
      rewrite closed_early by done. eapply stops_early; [done | exact Ho]. }
  assert (Hfit : len pre + len (source s ++ sources p ++ post) = len all) by (rewrite E, !len_app; lia).
  destruct s as [ln | ln b e].
  - cbn [source app good_stmt] in *. rewrite (parse_step (fuel + extra) pre ln (sources p ++ post)) by done.
    destruct (run_line k c ln.1 l (set_where σ name ln.2)) as [ef |] eqn:Er; [| done]. cbn [mbind option_bind]. intros Hr.
    assert (Hk : kind_of blanks ln.1 = KOther) by (by destruct (kind_of blanks ln.1)).
    assert (Hsk : exists n, skip_cml (fuel + extra) blanks (lines (file_of name all)) (len pre + 1) = Some n).
    { rewrite skip_cml_find; [by eexists | len_pos; lia | | len_pos; lia].
      unfold file_of, len in *. cbn [lines]. rewrite length_map. lia. }
    destruct Hsk as [n Hsk].
    destruct (run_line_moves (file_of name all) (len pre) (parse_from k (fuel + extra) (file_of name all) c (len pre + 1) locals_start)
      (fuel + extra) ln.1 l (set_where σ name ln.2) ef nn n Hk Hsk Er) as (a & -> & Hm). cbn [mbind option_bind].
    apply (Hrest (len pre) ef a σ); [rewrite len_cons, len_nil; lia | | done].
    destruct ef as [[l1 σ1] | ?]; [| done]. exact Hm.
  - cbn [source good_stmt] in *. apply andb_prop in Hs as [Hs Hb]. apply andb_prop in Hs as [Hk He].
    assert (Hko : kind_of blanks ln.1 = KOpen) by (by destruct (kind_of blanks ln.1)).
    assert (Hke : kind_of blanks e.1 = KEnd) by (by destruct (kind_of blanks e.1)). clear Hk He.
    change (flat_map source b) with (sources b) in *.
    assert (E1 : all = (pre ++ [ln]) ++ sources b ++ e :: (sources p ++ post)).
    { rewrite E. cbn [app]. rewrite <- !app_assoc. done. }
    rewrite (parse_step (fuel + extra) pre ln ((sources b ++ [e]) ++ sources p ++ post)) by done.
    set (n0 := len pre + 1 + len (sources b)).
    assert (Hn0 : n0 < S_INFINITY - 1).
    { rewrite E1 in Hall. revert Hall. unfold n0. rewrite !len_app, !len_cons, len_nil. len_pos. lia. }
    assert (Hskip : skip_cml (fuel + extra) blanks (lines (file_of name all)) (len pre + 1) = Some n0).
    { unfold file_of. cbn [lines]. rewrite E1. replace (len pre + 1) with (len (pre ++ [ln])) by (by rewrite len_app).
      rewrite skip_good; [by rewrite len_app | exact Hb | done |]. rewrite <- E1. lia. }
    destruct (run_block k c _ fuel ln.1 l (set_where σ name ln.2)) as [ef |] eqn:Er; [| done]. cbn [mbind option_bind]. intros Hr.
    destruct (run_block_moves (file_of name all) (len pre) n0
      (fun σ => close name e <$> run k name c fuel b run_start σ)
      (parse_from k (fuel + extra) (file_of name all) c (len pre + 1) locals_start) (fuel + extra) Hskip) with (m := fuel) (line := ln.1)
      (l := l) (σ := set_where σ name ln.2) (e := ef) (nn := nn) as (a & -> & Hm); [| done | done | lia | done |].
    + intros σ1 r1 Hr1. destruct (run k name c fuel b run_start σ1) as [r2 |] eqn:Er2; [| done]. injection Hr1 as <-.
      destruct (IH b (pre ++ [ln]) (e :: sources p ++ post) run_start None σ1 r2) as (o & Ho & Hst);
        [exact E1 | done | exact Hb | done |].
      rewrite len_app in Ho, Hst. exists o. split; [exact Ho |]. exact Hst.
    + cbn [mbind option_bind]. apply (Hrest n0 ef a σ); [| done | done]. unfold n0. rewrite len_cons, len_app, len_cons, len_nil. lia.
Qed.
End lines.
End refinement.
