(* ===== verification/CmlEval.v ===== *)
(** What the evaluation of CML text gives: escaped text is itself again, a call
    in a line is replaced by its value, a macro by its text, and evaluation
    ends because the depth of calls is limited. *)
From S2P Require Import Prelude Memory Chix ChixCore ChixEdit ChixSearch ChixParse Str Html Numbers CmlLists Table Vartab CmlState CmlScan CmlParse.

(** ** The loop over a text *)

Section loop.
Context {W : Type}.
Implicit Type σ : cml W.
Abbreviation step_fun := (text -> scan -> Z -> cml W -> option (scan * cml W)) (only parsing).

Lemma text_loop_more (step : step_fun) f f' line r σ x :
  (f <= f')%nat -> text_loop step f line r σ = Some x -> text_loop step f' line r σ = Some x.
Proof.
  revert f' r σ. induction f as [| f IH]; intros f' r σ Hf; [done |].
  destruct f' as [| f']; [lia |]. cbn [text_loop]. destruct (cval line (s_pos r) =? 0); [done |].
  destruct (step line r (cval line (s_pos r)) σ) as [[r1 σ1] |]; [| done]. cbn [mbind option_bind].
  apply IH. lia.
Qed.

(** [n] turns lead from one configuration to another. *)
Definition turns (step : step_fun) (line : text) (n : nat) (x y : scan * cml W) : Prop :=
  forall f, text_loop step (n + f) line x.1 x.2 = text_loop step f line y.1 y.2.

Lemma turns_0 step line x : turns step line 0 x x.
Proof. by intros f. Qed.

Lemma turns_app step line n m x y z : turns step line n x y -> turns step line m y z -> turns step line (n + m) x z.
Proof. intros H1 H2 f. rewrite <- Nat.add_assoc, H1. apply H2. Qed.

Lemma turns_1 (step : step_fun) line r σ r' σ' :
  cval line (s_pos r) <> 0 -> step line r (cval line (s_pos r)) σ = Some (r', σ') ->
  turns step line 1 (r, σ) (move_to r' (s_pos r' + 1), σ').
Proof.
  intros H0 Hs f. cbn [Nat.add text_loop fst snd]. rewrite (proj2 (Z.eqb_neq _ _)) by done. by rewrite Hs.
Qed.

Lemma turns_end step line n r σ r' σ' f :
  turns step line n (r, σ) (r', σ') -> cval line (s_pos r') = 0 -> (n < f)%nat ->
  text_loop step f line r σ = Some (r', σ').
Proof.
  intros Ht H0 Hf. apply (text_loop_more _ (n + 1)); [lia |]. specialize (Ht 1%nat). cbn [fst snd] in Ht. rewrite Ht.
  cbn [text_loop]. by rewrite H0.
Qed.
End loop.

(** ** Text *)

(** The text [t] read, [n] characters of the line. *)
Definition read_text (r : scan) (t : text) (n : Z) : scan := move_to (put_text r t) (s_pos r + n).

Lemma read_text_nil r : s_state r = ST_TEXT -> read_text r [] 0 = r.
Proof. destruct r. cbn. intros ->. unfold read_text, move_to, put_text. cbn. by rewrite app_nil_r, Z.add_0_r. Qed.

Lemma read_text_app r t u n m : read_text (read_text r t n) u m = read_text r (t ++ u) (n + m).
Proof. unfold read_text, move_to, put_text. cbn. by rewrite <- app_assoc, Z.add_assoc. Qed.

Definition quoted (sign v : Z) : text := if v =? sign then [92; v] else [v].
Definition escape (sign : Z) (t : text) : text := flat_map (quoted sign) t.

(** A text that does not end in a backslash right before the sign. *)
Definition apart (sign : Z) (t v : text) : Prop := last t = Some 92 -> head v <> Some sign.

Lemma cval_head_tail (u : text) x v : cval (u ++ x :: v) (len u + 1) = default 0 (head v).
Proof.
  unfold cval. replace (Z.to_nat (len u + 1)) with (length u + 1)%nat by (unfold len; lia).
  rewrite lookup_app_r by lia. replace (length u + 1 - length u)%nat with 1%nat by lia. by destruct v.
Qed.

Section text.
Context {W : Type} `{env : !cml_env W} (k : calls W).
Context (step : text -> scan -> Z -> cml W -> option (scan * cml W)) (sign : Z).
Implicit Type σ : cml W.

Hypothesis step_plain : forall line r v σ,
  s_state r = ST_TEXT -> v <> sign -> (v <> 92 \/ cval line (s_pos r + 1) <> sign) ->
  step line r v σ = Some (put_text r [v], σ).
Hypothesis step_escaped : forall line r σ,
  s_state r = ST_TEXT -> cval line (s_pos r + 1) = sign ->
  step line r 92 σ = Some (put_text (move_to r (s_pos r + 1)) [sign], σ).
Hypothesis Hsign : sign <> 0 /\ sign <> 92.

Lemma head_escape t v : t <> [] -> head (escape sign t ++ v) <> Some sign.
Proof.
  destruct t as [| x t]; [done |]. intros _. cbn. unfold quoted. destruct (x =? sign) eqn:E; cbn; intros [= H]; lia.
Qed.

(** An escaped text is read as itself, a turn for each character. *)
Lemma turns_escaped t : forall u v r σ,
  Forall is_char t -> apart sign t v -> s_state r = ST_TEXT -> s_pos r = len u ->
  turns step (u ++ escape sign t ++ v) (length t) (r, σ) (read_text r t (len (escape sign t)), σ).
Proof.
  induction t as [| x t IH]; intros u v r σ Ht Ha Hr Hp.
  { rewrite read_text_nil by done. apply turns_0. }
  apply Forall_cons in Ht as [Hx Ht]. unfold is_char in Hx.
  assert (Ha' : apart sign t v) by (intros Hl; apply Ha; destruct t; [done | by rewrite last_cons_cons]).
  change (escape sign (x :: t)) with (quoted sign x ++ escape sign t). unfold quoted. destruct (x =? sign) eqn:E.
  - apply Z.eqb_eq in E as ->. cbn [length app]. change (S (length t)) with (1 + length t)%nat.
    eapply turns_app; [apply turns_1; rewrite Hp, ?cval_app |].
    + done.
    + apply step_escaped; [done |]. by rewrite Hp, cval_head_tail.
    + cbn [s_pos put_text move_to app]. replace (u ++ 92 :: sign :: escape sign t ++ v) with ((u ++ [92; sign]) ++ escape sign t ++ v) by (by rewrite <- app_assoc).
      specialize (IH (u ++ [92; sign]) v (read_text r [sign] 2) σ Ht Ha' eq_refl). rewrite read_text_app in IH.
      assert (Hq : s_pos (read_text r [sign] 2) = len (u ++ [92; sign])) by (cbn; rewrite Hp, len_app; done).
      specialize (IH Hq). unfold read_text at 1 in IH.
      replace (len (92 :: sign :: escape sign t)) with (2 + len (escape sign t)) by (rewrite !len_cons; lia).
      replace (s_pos r + 1 + 1) with (s_pos r + 2) by lia. exact IH.
  - cbn [length app]. change (S (length t)) with (1 + length t)%nat. apply Z.eqb_neq in E.
    eapply turns_app; [apply turns_1; rewrite Hp, ?cval_app |].
    + change (x <> 0). lia.
    + change (cval (x :: escape sign t ++ v) 0) with x. apply step_plain; [done | done |]. rewrite Hp, cval_head_tail. destruct (decide (x = 92)) as [-> |]; [right | by left].
      assert (Hh : head (escape sign t ++ v) <> Some sign).
      { destruct t as [| y t]; [by apply Ha | by apply head_escape]. }
      destruct (head _) as [y |]; cbn; [congruence | lia].
    + cbn [s_pos put_text move_to]. rewrite (app_cons_assoc u x).
      specialize (IH (u ++ [x]) v (read_text r [x] 1) σ Ht Ha' eq_refl). rewrite read_text_app in IH.
      assert (Hq : s_pos (read_text r [x] 1) = len (u ++ [x])) by (cbn; rewrite Hp, len_app; done).
      specialize (IH Hq). unfold read_text at 1 in IH.
      replace (len (x :: escape sign t)) with (1 + len (escape sign t)) by (rewrite !len_cons; lia). exact IH.
Qed.

(** A text without the sign is its own escaped form. *)
Lemma escape_plain t : sign ∉ t -> escape sign t = t.
Proof.
  induction t as [| x t IH]; [done |]. intros [Hx Ht]%not_elem_of_cons.
  change (escape sign (x :: t)) with (quoted sign x ++ escape sign t). rewrite IH by done. unfold quoted.
  by rewrite (proj2 (Z.eqb_neq _ _)) by congruence.
Qed.
End text.

(** ** A call in a line *)

Definition call_text (sign : Z) (name args : text) : text := sign :: name ++ 40 :: args ++ [41].

Section call.
Context {W : Type}.
Context (step : text -> scan -> Z -> cml W -> option (scan * cml W)) (sign : Z) (good start : Z -> bool).
Implicit Type σ : cml W.

Hypothesis good_name_char : forall v, good v = true -> is_char v /\ v <> 40.
Hypothesis step_begin : forall line r σ,
  s_state r = ST_TEXT -> start (cval line (s_pos r + 1)) = true -> step line r sign σ = Some (begin_name r, σ).
Hypothesis step_name : forall line r v σ, s_state r = ST_NAME -> good v = true -> step line r v σ = Some (put_name r v, σ).
Hypothesis step_arg : forall line r v σ,
  s_state r = ST_ARG -> v <> 41 \/ 0 < s_parens r ->
  step line r v σ = Some (put_arg r (if v =? 40 then s_parens r + 1 else if v =? 41 then s_parens r - 1 else s_parens r) v, σ).

Definition read_name (r : scan) (s : text) : scan :=
  mkScan (s_pos r + len s) ST_NAME (s_name r ++ s) (s_args r) (s_parens r) (s_start r) (s_recurs r) (s_fscan r) (s_result r).
Definition read_args (r : scan) (s : text) : scan :=
  mkScan (s_pos r + len s) ST_ARG (s_name r) (s_args r ++ s) 0 (s_start r) (s_recurs r) (s_fscan r) (s_result r).

Lemma turns_name s : forall u v r σ,
  Forall (fun x => good x = true) s -> s_state r = ST_NAME -> s_pos r = len u ->
  turns step (u ++ s ++ v) (length s) (r, σ) (read_name r s, σ).
Proof.
  induction s as [| x s IH]; intros u v r σ Hs Hr Hp.
  { destruct r. cbn in *. subst. unfold read_name. cbn. rewrite Z.add_0_r, app_nil_r. apply turns_0. }
  apply Forall_cons in Hs as [Hx Hs]. destruct (good_name_char x Hx) as [Hc _]. unfold is_char in Hc.
  change (length (x :: s)) with (1 + length s)%nat. eapply turns_app; [apply turns_1; rewrite Hp, cval_app |].
  - change (x <> 0). lia.
  - change (cval (x :: s ++ v) 0) with x. by apply step_name.
  - cbn [app]. rewrite (app_cons_assoc u x).
    specialize (IH (u ++ [x]) v (move_to (put_name r x) (s_pos (put_name r x) + 1)) σ Hs eq_refl).
    assert (Hq : s_pos (move_to (put_name r x) (s_pos (put_name r x) + 1)) = len (u ++ [x])) by (cbn; rewrite Hp, len_app; done).
    specialize (IH Hq). unfold read_name in *. cbn in *. rewrite <- (app_assoc (s_name r)), <- Z.add_assoc in IH.
    rewrite len_cons, (Z.add_comm (len s)). exact IH.
Qed.

Lemma turns_args s : forall u v r σ,
  Forall is_char s -> balanced (s_parens r) s -> s_state r = ST_ARG -> s_pos r = len u ->
  turns step (u ++ s ++ v) (length s) (r, σ) (read_args r s, σ).
Proof.
  induction s as [| x s IH]; intros u v r σ Hs Hb Hr Hp.
  { destruct r. cbn in *. subst. unfold read_args. cbn. rewrite Z.add_0_r, app_nil_r. apply turns_0. }
  apply Forall_cons in Hs as [Hc Hs]. unfold is_char in Hc.
  set (d := if x =? 40 then s_parens r + 1 else if x =? 41 then s_parens r - 1 else s_parens r).
  assert (Hd : balanced d s /\ (x <> 41 \/ 0 < s_parens r)).
  { subst d. cbn in Hb. destruct (x =? 40) eqn:E1; [split; [done | lia] |]. destruct (x =? 41) eqn:E2; [tauto |].
    split; [done | lia]. }
  destruct Hd as [Hd Hx]. change (length (x :: s)) with (1 + length s)%nat.
  eapply turns_app; [apply turns_1; rewrite Hp, cval_app |].
  - change (x <> 0). lia.
  - change (cval (x :: s ++ v) 0) with x. by apply step_arg.
  - fold d. cbn [app]. rewrite (app_cons_assoc u x). set (r1 := put_arg r d x).
    specialize (IH (u ++ [x]) v (move_to r1 (s_pos r1 + 1)) σ Hs Hd eq_refl).
    assert (Hq : s_pos (move_to r1 (s_pos r1 + 1)) = len (u ++ [x])) by (cbn; rewrite Hp, len_app; done).
    specialize (IH Hq). unfold read_args in *. cbn in *. rewrite <- (app_assoc (s_args r)), <- Z.add_assoc in IH.
    rewrite len_cons, (Z.add_comm (len s)). exact IH.
Qed.

(** What is known when the arguments have been read. *)
Definition called (r : scan) (pos : Z) (name args : text) : scan :=
  mkScan pos ST_ARG name args 0 (s_pos r) (s_recurs r) (s_fscan r) (s_result r).

Lemma turns_call name args u v r σ r2 σ2 :
  sign <> 0 -> Forall (fun x => good x = true) name -> start (default 40 (head name)) = true -> Forall is_char args -> balanced 0 args ->
  (forall line r, s_state r = ST_NAME -> s_name r = name -> step line r 40 σ = Some (begin_args r, σ)) ->
  s_state r = ST_TEXT -> s_pos r = len u ->
  step (u ++ call_text sign name args ++ v) (called r (len u + len (call_text sign name args) - 1) name args) 41 σ = Some (r2, σ2) ->
  turns step (u ++ call_text sign name args ++ v) (length (call_text sign name args)) (r, σ) (move_to r2 (s_pos r2 + 1), σ2).
Proof.
  intros Hsign Hn Hne Ha Hb Hopen Hr Hp Hcall.
  set (line := u ++ call_text sign name args ++ v) in *.
  assert (Hl1 : line = (u ++ [sign]) ++ name ++ (40 :: args ++ [41]) ++ v).
  { subst line. unfold call_text. cbn [app]. rewrite <- !app_assoc. cbn [app]. by rewrite <- !app_assoc. }
  assert (Hl2 : line = ((u ++ [sign]) ++ name ++ [40]) ++ args ++ [41] ++ v).
  { rewrite Hl1. rewrite <- !app_assoc. cbn [app]. by rewrite <- !app_assoc. }
  assert (Hl3 : line = (((u ++ [sign]) ++ name ++ [40]) ++ args) ++ 41 :: v) by (by rewrite Hl2, <- (app_assoc _ args)).
  assert (Hl4 : line = ((u ++ [sign]) ++ name) ++ 40 :: args ++ [41] ++ v).
  { rewrite Hl2, <- !app_assoc. done. }
  assert (Hgood : start (cval line (len u + 1)) = true).
  { subst line. unfold call_text. cbn [app]. rewrite cval_head_tail. by destruct name. }
  replace (length (call_text sign name args)) with (1 + (length name + (1 + (length args + 1))))%nat
    by (unfold call_text; cbn [length]; rewrite length_app; cbn [length]; rewrite length_app; cbn [length]; lia).
  assert (Hc0 : cval line (len u) = sign) by (subst line; by rewrite cval_app).
  eapply turns_app; [apply turns_1; rewrite Hp, Hc0; [done | apply step_begin; [done | by rewrite Hp]] |].
  set (r1 := move_to (begin_name r) (s_pos (begin_name r) + 1)).
  assert (Hp1 : s_pos r1 = len (u ++ [sign])) by (cbn; rewrite Hp, len_app; done).
  eapply turns_app; [rewrite Hl1; by apply turns_name |].
  set (r3 := read_name r1 name).
  assert (Hp3 : s_pos r3 = len ((u ++ [sign]) ++ name)) by (unfold r3, read_name; cbn [s_pos]; by rewrite Hp1, <- len_app).
  assert (Hn3 : s_name r3 = name) by done.
  assert (Hc3 : cval line (s_pos r3) = 40) by (rewrite Hp3, Hl4; by rewrite cval_app).
  eapply turns_app; [apply turns_1; rewrite Hc3; [done | by apply Hopen] |].
  set (r4 := move_to (begin_args r3) (s_pos (begin_args r3) + 1)).
  assert (Hp4 : s_pos r4 = len ((u ++ [sign]) ++ name ++ [40])).
  { unfold r4. cbn [s_pos move_to begin_args]. rewrite Hp3, (app_assoc _ name), (len_app _ [40]). done. }
  eapply turns_app; [rewrite Hl2; by apply turns_args |].
  assert (Hr5 : read_args r4 args = called r (len u + len (call_text sign name args) - 1) name args).
  { unfold read_args. rewrite Hp4. unfold called, r4, r3, r1, call_text. cbn. f_equal.
    rewrite !len_app, !len_cons, !len_app, !len_cons, !len_app, len_cons, len_nil. lia. }
  assert (Hc5 : cval line (s_pos (read_args r4 args)) = 41).
  { unfold read_args. cbn [s_pos]. rewrite Hp4, <- len_app, Hl3. by rewrite cval_app. }
  apply turns_1; rewrite Hc5; [done |]. by rewrite Hr5.
Qed.
End call.

(** ** The steps of the two scanners *)

Lemma goodname_char v : goodname v = true -> is_char v /\ v <> 40.
Proof. unfold goodname, isalnum, is_char. lia. Qed.
Lemma goodmac_char v : goodmac v = true -> is_char v /\ v <> 40.
Proof. unfold goodmac, isalnum, is_char. lia. Qed.

Section steps.
Context {W : Type} `{env : !cml_env W} (k : calls W) (value : text -> text -> ctx -> cml W -> option (text * cml W)) (c : ctx).
Implicit Type σ : cml W.

Lemma scan_step_plain line r v σ :
  s_state r = ST_TEXT -> v <> 36 -> (v <> 92 \/ cval line (s_pos r + 1) <> 36) ->
  scan_step k value c line r v σ = Some (put_text r [v], σ).
Proof.
  intros Hr H1 H2. unfold scan_step. rewrite Hr, (proj2 (Z.eqb_neq _ _)) by done.
  by replace ((v =? 92) && (cval line (s_pos r + 1) =? 36)) with false by lia.
Qed.

Lemma scan_step_escaped line r σ :
  s_state r = ST_TEXT -> cval line (s_pos r + 1) = 36 ->
  scan_step k value c line r 92 σ = Some (put_text (move_to r (s_pos r + 1)) [36], σ).
Proof. intros Hr H. unfold scan_step. by rewrite Hr, H. Qed.

Lemma scan_step_begin line r σ :
  s_state r = ST_TEXT -> true = true -> scan_step k value c line r 36 σ = Some (begin_name r, σ).
Proof. intros Hr _. unfold scan_step. by rewrite Hr. Qed.

Lemma scan_step_name line r v σ :
  s_state r = ST_NAME -> goodname v = true -> scan_step k value c line r v σ = Some (put_name r v, σ).
Proof.
  intros Hr Hv. destruct (goodname_char v Hv) as [_ Hv']. unfold scan_step. rewrite Hr, Hv.
  unfold goodname, isalnum in Hv. by rewrite !(proj2 (Z.eqb_neq _ _)) by lia.
Qed.

Lemma scan_step_arg line r v σ :
  s_state r = ST_ARG -> v <> 41 \/ 0 < s_parens r ->
  scan_step k value c line r v σ =
    Some (put_arg r (if v =? 40 then s_parens r + 1 else if v =? 41 then s_parens r - 1 else s_parens r) v, σ).
Proof.
  intros Hr H. unfold scan_step. rewrite Hr. destruct (v =? 40); [done |]. destruct (v =? 41) eqn:E; cbn; [| done].
  by rewrite (proj2 (Z.ltb_lt _ _)) by lia.
Qed.

Lemma mac_step_plain line r v σ :
  s_state r = ST_TEXT -> v <> 37 -> (v <> 92 \/ cval line (s_pos r + 1) <> 37) ->
  mac_step k c line r v σ = Some (put_text r [v], σ).
Proof.
  intros Hr H1 H2. unfold mac_step. rewrite Hr, (proj2 (Z.eqb_neq _ _)) by done. cbn [andb].
  by replace ((v =? 92) && (cval line (s_pos r + 1) =? 37)) with false by lia.
Qed.

Lemma mac_step_escaped line r σ :
  s_state r = ST_TEXT -> cval line (s_pos r + 1) = 37 ->
  mac_step k c line r 92 σ = Some (put_text (move_to r (s_pos r + 1)) [37], σ).
Proof. intros Hr H. unfold mac_step. by rewrite Hr, H. Qed.

Lemma mac_step_begin line r σ :
  s_state r = ST_TEXT -> goodmac (cval line (s_pos r + 1)) = true -> mac_step k c line r 37 σ = Some (begin_name r, σ).
Proof. intros Hr H. unfold mac_step. by rewrite Hr, H. Qed.

Lemma mac_step_name line r v σ :
  s_state r = ST_NAME -> goodmac v = true -> mac_step k c line r v σ = Some (put_name r v, σ).
Proof.
  intros Hr Hv. destruct (goodmac_char v Hv) as [_ Hv']. unfold mac_step. rewrite Hr, Hv.
  unfold goodmac, isalnum in Hv. by rewrite !(proj2 (Z.eqb_neq _ _)) by lia.
Qed.

Lemma mac_step_arg line r v σ :
  s_state r = ST_ARG -> v <> 41 \/ 0 < s_parens r ->
  mac_step k c line r v σ =
    Some (put_arg r (if v =? 40 then s_parens r + 1 else if v =? 41 then s_parens r - 1 else s_parens r) v, σ).
Proof.
  intros Hr H. unfold mac_step. rewrite Hr. destruct (v =? 40); [done |]. destruct (v =? 41) eqn:E; cbn; [| done].
  by rewrite (proj2 (Z.ltb_lt _ _)) by lia.
Qed.

(** ** Lines with a call in escaped text *)

Lemma escape_length sign t : (length t <= length (escape sign t))%nat.
Proof.
  induction t as [| x t IH]; [done |]. change (escape sign (x :: t)) with (quoted sign x ++ escape sign t).
  rewrite length_app. unfold quoted. destruct (x =? sign); cbn [length]; lia.
Qed.

Lemma set_depth_back σ : set_depth (set_depth σ (call_depth σ + 1)) (call_depth σ + 1 - 1) = σ.
Proof. destruct σ. unfold set_depth. cbn. f_equal. lia. Qed.

Lemma escape_chars sign t : sign <> 0 -> Forall is_char t -> Forall is_char (escape sign t).
Proof.
  intros Hs. induction 1 as [| x t Hx Ht IH]; [constructor |].
  change (escape sign (x :: t)) with (quoted sign x ++ escape sign t). apply Forall_app. split; [| done].
  unfold quoted. destruct (x =? sign); repeat (apply Forall_cons; split); try done; unfold is_char; lia.
Qed.

(** Reading escaped text only, by either scanner. *)
Lemma read_escaped (step : text -> scan -> Z -> cml W -> option (scan * cml W)) sign t σ :
  (forall line r v σ, s_state r = ST_TEXT -> v <> sign -> (v <> 92 \/ cval line (s_pos r + 1) <> sign) ->
     step line r v σ = Some (put_text r [v], σ)) ->
  (forall line r σ, s_state r = ST_TEXT -> cval line (s_pos r + 1) = sign ->
     step line r 92 σ = Some (put_text (move_to r (s_pos r + 1)) [sign], σ)) ->
  sign <> 0 /\ sign <> 92 -> Forall is_char t ->
  text_loop step (scan_fuel (escape sign t)) (escape sign t) scan_start σ =
    Some (read_text scan_start t (len (escape sign t)), σ).
Proof.
  intros H1 H2 Hs Ht. pose proof (turns_escaped step sign H1 H2 Hs t [] [] scan_start σ Ht) as H.
  rewrite app_nil_l, app_nil_r in H. eapply turns_end; [apply H; try done; by intros _ | |].
  - cbn. by rewrite Z.add_0_l, cval_past by lia.
  - pose proof (escape_length sign t). unfold scan_fuel. lia.
Qed.

Lemma scan_escaped old t σ :
  Forall is_char t -> call_depth σ <= DEEPEST_CALL -> scan_with k value old (escape 36 t) c σ = Some (t, σ).
Proof.
  intros Ht Hd. unfold scan_with. rewrite (proj2 (Z.ltb_ge _ _)) by done.
  rewrite (read_escaped _ 36) by (done || apply scan_step_plain || apply scan_step_escaped).
  cbn. by rewrite set_depth_back.
Qed.

Lemma mac_escaped t σ : Forall is_char t -> func_mac k (escape 37 t) c σ = Some (t, σ).
Proof.
  intros Ht. unfold func_mac. rewrite (read_escaped _ 37) by (done || apply mac_step_plain || apply mac_step_escaped). done.
Qed.
End steps.

(** ** A call between escaped texts *)

Lemma read_start t n : read_text scan_start t n = mkScan n ST_TEXT [] [] 0 0 [] [] t.
Proof. unfold read_text, move_to, put_text. cbn. by rewrite Z.add_0_l. Qed.

Section line_with_call.
Context {W : Type} `{env : !cml_env W} (k : calls W).
Context (step : text -> scan -> Z -> cml W -> option (scan * cml W)) (sign : Z) (good start : Z -> bool).
Implicit Type σ : cml W.
Hypothesis step_plain : forall line r v σ,
  s_state r = ST_TEXT -> v <> sign -> (v <> 92 \/ cval line (s_pos r + 1) <> sign) ->
  step line r v σ = Some (put_text r [v], σ).
Hypothesis step_escaped : forall line r σ,
  s_state r = ST_TEXT -> cval line (s_pos r + 1) = sign ->
  step line r 92 σ = Some (put_text (move_to r (s_pos r + 1)) [sign], σ).
Hypothesis good_name_char : forall v, good v = true -> is_char v /\ v <> 40.
Hypothesis step_begin : forall line r σ,
  s_state r = ST_TEXT -> start (cval line (s_pos r + 1)) = true -> step line r sign σ = Some (begin_name r, σ).
Hypothesis step_name : forall line r v σ, s_state r = ST_NAME -> good v = true -> step line r v σ = Some (put_name r v, σ).
Hypothesis step_arg : forall line r v σ,
  s_state r = ST_ARG -> v <> 41 \/ 0 < s_parens r ->
  step line r v σ = Some (put_arg r (if v =? 40 then s_parens r + 1 else if v =? 41 then s_parens r - 1 else s_parens r) v, σ).
Hypothesis Hsign : sign <> 0 /\ sign <> 92.

(** The line read to its end, given what the call leaves. *)
Lemma read_call u name args v σ r2 t σ2 :
  Forall is_char u -> last u <> Some 92 -> Forall is_char v ->
  Forall (fun x => good x = true) name -> start (default 40 (head name)) = true -> Forall is_char args -> balanced 0 args ->
  let line := escape sign u ++ call_text sign name args ++ escape sign v in
  let close := len (escape sign u) + len (call_text sign name args) - 1 in
  (forall line r, s_state r = ST_NAME -> s_name r = name -> step line r 40 σ = Some (begin_args r, σ)) ->
  s_pos r2 = close -> s_state r2 = ST_TEXT -> s_result r2 = u ++ t ->
  step line (mkScan close ST_ARG name args 0 (len (escape sign u)) [] [] u) 41 σ = Some (r2, σ2) ->
  exists r3, text_loop step (scan_fuel line) line scan_start σ = Some (r3, σ2) /\
    s_state r3 = ST_TEXT /\ s_result r3 = u ++ t ++ v.
Proof.
  intros Hu Hl Hv Hn Hst Ha Hb line close Hopen Hp2 Hs2 Hr2 Hcall.
  set (call := call_text sign name args) in *.
  pose proof (turns_escaped step sign step_plain step_escaped Hsign u [] (call ++ escape sign v) scan_start σ Hu) as H1.
  rewrite app_nil_l, read_start in H1. specialize (H1 ltac:(intros ?; congruence) eq_refl eq_refl).
  set (r1 := mkScan (len (escape sign u)) ST_TEXT [] [] 0 0 [] [] u) in *.
  pose proof (turns_call step sign good start good_name_char step_begin step_name step_arg name args
    (escape sign u) (escape sign v) r1 σ r2 σ2) as H2.
  specialize (H2 ltac:(tauto) Hn Hst Ha Hb Hopen eq_refl eq_refl Hcall).
  set (r2' := move_to r2 (s_pos r2 + 1)) in *.
  pose proof (turns_escaped step sign step_plain step_escaped Hsign v (escape sign u ++ call) [] r2' σ2 Hv) as H3.
  rewrite app_nil_r, <- app_assoc in H3.
  specialize (H3 ltac:(by intros _) Hs2).
  assert (Hp : s_pos r2' = len (escape sign u ++ call)) by (unfold r2', move_to; cbn [s_pos]; rewrite Hp2, len_app; unfold close; lia).
  specialize (H3 Hp). exists (read_text r2' v (len (escape sign v))). split_and!.
  - eapply turns_end; [exact (turns_app _ _ _ _ _ _ _ H1 (turns_app _ _ _ _ _ _ _ H2 H3)) | |].
    + cbn [read_text s_pos move_to]. fold line. rewrite Hp, cval_past; [done |].
      unfold line. rewrite !len_app. fold call. lia.
    + pose proof (escape_length sign u). pose proof (escape_length sign v). unfold scan_fuel, line. fold call. rewrite !length_app. lia.
  - done.
  - unfold read_text, r2'. cbn. by rewrite Hr2, app_assoc.
Qed.
End line_with_call.

(** Whether a text has a character. *)
Lemma has_spec c s : has c s = true <-> c ∈ s.
Proof.
  unfold has, cindex. rewrite bool_decide_eq_false_2 by done. rewrite drop_0.
  assert (H : forall i, 0 <= i -> (0 <=? findsub [c] s i) = true <-> c ∈ s); [| by apply H].
  induction s as [| x s IH]; intros i Hi; cbn [findsub prefixb].
  - split; [by destruct i | by intros ?%elem_of_nil].
  - rewrite andb_true_r, elem_of_cons. destruct (c =? x) eqn:E.
    + apply Z.eqb_eq in E as ->. split; [by left | lia].
    + apply Z.eqb_neq in E. rewrite IH by lia. split; [by right | by intros [? | ?]].
Qed.

Lemma has_false c s : has c s = false <-> c ∉ s.
Proof. rewrite <- has_spec. by destruct (has c s). Qed.

(** What evaluates the arguments of a call: they are text, or scanned first. *)
Definition scan_args {W} (k : calls W) (args : text) (c : ctx) (σ : cml W) : option (text * cml W) :=
  if has 36 args then c_scan k [] args c σ else Some (args, σ).

(** Names that mean something to [func_scan] itself. *)
Definition plain_name (name : text) : Prop := take 99 name <> bytes "reval" /\ take 99 name <> bytes "protect".

Section scan_call.
Context {W : Type} `{env : !cml_env W} (k : calls W) (value : text -> text -> ctx -> cml W -> option (text * cml W)) (c : ctx).
Implicit Type σ : cml W.

Lemma call_function_plain r σ a σ1 t σ2 :
  plain_name (s_name r) -> s_recurs r = [] ->
  scan_args k (s_args r) c σ = Some (a, σ1) -> value (s_name r) a c σ1 = Some (t, σ2) ->
  recursive_evaluation σ2 = false \/ 36 ∉ t ->
  exists recurs, call_function k value c r σ = Some (put_text (keep r recurs (s_fscan r)) t, σ2).
Proof.
  intros [Hr Hp] Hrec Ha Hv Ht. unfold call_function, scan_args in *.
  rewrite !bool_decide_eq_false_2 by done. cbn [mbind option_bind]. rewrite Hrec.
  assert (Hs : set_prot σ (prot σ) = σ) by (by destruct σ). rewrite Hs. clear Hs.
  assert (Hh : recursive_evaluation σ2 && has 36 t = false).
  { destruct Ht as [-> | Ht]; [done |]. apply andb_false_intro2. by apply has_false. }
  destruct (has 36 (s_args r)).
  - rewrite Ha. cbn [mbind option_bind]. rewrite Hv. cbn [mbind option_bind]. rewrite Hh. cbn [mbind option_bind]. by eexists.
  - injection Ha as <- <-. rewrite Hv. cbn [mbind option_bind]. rewrite Hh. cbn [mbind option_bind]. by eexists.
Qed.

(** A call is replaced by its value. *)
Lemma scan_call old u name args v σ a σ1 t σ2 :
  call_depth σ <= DEEPEST_CALL -> Forall is_char u -> last u <> Some 92 -> Forall is_char v ->
  Forall (fun x => goodname x = true) name -> plain_name name -> Forall is_char args -> balanced 0 args ->
  scan_args k args c (set_depth σ (call_depth σ + 1)) = Some (a, σ1) -> value name a c σ1 = Some (t, σ2) ->
  recursive_evaluation σ2 = false \/ 36 ∉ t ->
  scan_with k value old (escape 36 u ++ call_text 36 name args ++ escape 36 v) c σ =
    Some (u ++ t ++ v, set_depth σ2 (call_depth σ2 - 1)).
Proof.
  intros Hd Hu Hl Hv Hn Hp Ha Hb Hargs Hval Ht. unfold scan_with. rewrite (proj2 (Z.ltb_ge _ _)) by done.
  set (r := mkScan (len (escape 36 u) + len (call_text 36 name args) - 1) ST_ARG name args 0 (len (escape 36 u)) [] [] u).
  destruct (call_function_plain r (set_depth σ (call_depth σ + 1)) a σ1 t σ2 Hp eq_refl Hargs Hval Ht) as [recurs Hc].
  destruct (read_call (scan_step k value c) 36 goodname (fun _ => true)) with (u := u) (name := name) (args := args) (v := v)
    (σ := set_depth σ (call_depth σ + 1)) (r2 := put_text (keep r recurs (s_fscan r)) t) (t := t) (σ2 := σ2) as (r3 & Hr & Hst & Hres);
    eauto using scan_step_plain, scan_step_escaped, goodname_char, scan_step_begin, scan_step_name, scan_step_arg.
  - intros line r0 Hs _. unfold scan_step. by rewrite Hs.
  - rewrite Hr. cbn [mbind option_bind]. unfold scan_end. by rewrite Hst, Hres.
Qed.
End scan_call.

(** What evaluates the arguments of a macro. *)
Definition mac_args {W} (k : calls W) (args : text) (c : ctx) (σ : cml W) : option (text * cml W) :=
  '(args, σ) ← (if has 37 args then c_mac k args c σ else Some (args, σ));
  c_scan k [] (replaced args [92; 36] [92; 92; 36]) c σ.

(** The text of a macro, with the macros in it. *)
Definition mac_value {W} `{!cml_env W} (k : calls W) (name args : text) (c : ctx) (σ : cml W) : option (text * cml W) :=
  '(t, σ) ← mac_expand k name args c σ; if has 37 t then c_mac k t c σ else Some (t, σ).

Section mac_call.
Context {W : Type} `{env : !cml_env W} (k : calls W) (c : ctx).
Implicit Type σ : cml W.

Lemma mac_call u name args v σ a σ1 t σ2 :
  Forall is_char u -> last u <> Some 92 -> Forall is_char v ->
  name <> [] -> Forall (fun x => goodmac x = true) name -> 0 <= vartab_is (macs σ) name -> Forall is_char args -> balanced 0 args ->
  mac_args k args c σ = Some (a, σ1) -> mac_value k name a c σ1 = Some (t, σ2) ->
  func_mac k (escape 37 u ++ call_text 37 name args ++ escape 37 v) c σ = Some (u ++ t ++ v, σ2).
Proof.
  intros Hu Hl Hv Hne Hn Hm Ha Hb Hargs Hval. unfold func_mac.
  set (r := mkScan (len (escape 37 u) + len (call_text 37 name args) - 1) ST_ARG name args 0 (len (escape 37 u)) [] [] u).
  assert (Hc : exists recurs fscan, call_macro k c r σ = Some (put_text (keep r recurs fscan) t, σ2)).
  { unfold call_macro, mac_args, mac_value in *. cbn [s_args s_name s_fscan s_recurs r] in *. destruct (has 37 args).
    - destruct (c_mac k args c σ) as [[rec σ0] |]; [| done]. cbn [mbind option_bind] in *. rewrite Hargs. cbn [mbind option_bind] in *.
      destruct (mac_expand k name a c σ1) as [[x σ3] |]; [| done]. cbn [mbind option_bind] in *. rewrite Hval. by do 2 eexists.
    - cbn [mbind option_bind] in *. rewrite Hargs. cbn [mbind option_bind] in *.
      destruct (mac_expand k name a c σ1) as [[x σ3] |]; [| done]. cbn [mbind option_bind] in *. rewrite Hval. by do 2 eexists. }
  destruct Hc as (recurs & fscan & Hc).
  destruct name as [| x name]; [done |]. pose proof Hn as Hx. apply Forall_cons in Hx as [Hx _].
  destruct (read_call (mac_step k c) 37 goodmac goodmac) with
    (u := u) (name := x :: name) (args := args) (v := v)
    (σ := σ) (r2 := put_text (keep r recurs fscan) t) (t := t) (σ2 := σ2) as (r3 & Hr & Hst & Hres);
    eauto using mac_step_plain, mac_step_escaped, goodmac_char, mac_step_begin, mac_step_name, mac_step_arg.
  - intros line r0 Hs Hnm. unfold mac_step. rewrite Hs, Hnm. cbn [Z.eqb Pos.eqb]. by rewrite (proj2 (Z.ltb_ge _ _)) by done.
  - rewrite Hr. cbn [mbind option_bind]. unfold scan_end. by rewrite Hst, Hres.
Qed.
End mac_call.
