(* ===== verification/CmlInv.v ===== *)
(** What no evaluation of CML changes for good, or breaks: the depth of calls,
    the target of the output and the file that errors are reported for are
    restored, and the tables, the protection stack and the cache of included
    files stay inside their arrays. *)
From S2P Require Import Prelude Memory Chix ChixCore ChixEdit ChixSearch ChixParse Str Html Numbers CmlLists Table Vartab CmlState CmlScan CmlLoad CmlParse.

(** ** The invariant *)

Lemma vartab_new_room vt name new : vartab_ok vt -> vartab_ok (vartab_new vt name new).2.
Proof.
  intros [Hm Hu]. unfold vartab_new, vartab_ok, used in *.
  destruct ((new <? 0) || (len (slots vt) <=? new)) eqn:E; cbn [vt_max slots snd].
  - destruct (vt_max vt - 5 <? len (slots vt)) eqn:E1; cbn; rewrite len_insert, len_app, len_cons, len_nil; lia.
  - destruct (vt_max vt - 5 <? new) eqn:E1; cbn; rewrite len_insert; lia.
Qed.

Lemma vartab_find_room vt name : vartab_ok vt -> vartab_ok (vartab_find vt name).2.
Proof. intros H. unfold vartab_find. destruct (find_slot _ _ _ _); [done | by apply vartab_new_room]. Qed.

Lemma vartab_add_room vt name value : vartab_ok vt -> vartab_ok (vartab_add vt name value).2.
Proof.
  intros H. unfold vartab_add. apply (vartab_find_room vt name) in H. destruct (vartab_find vt name) as [slot vt'].
  cbn [snd] in *. destruct (0 <=? slot); [| done]. unfold set_value, vartab_ok, used, len in *. cbn [vt_max slots]. by rewrite length_alter.
Qed.

Lemma prot_push_ok n p p' : prot_ok p -> prot_push n p = Some p' -> prot_ok p'.
Proof.
  intros Hp. destruct (decide (top p < MAXPROT - 1)) as [E | E].
  - destruct (prot_push_spec n p Hp E) as (q & -> & Hok & _). by intros [= <-].
  - unfold prot_push. rewrite (proj2 (Z.ltb_ge _ _)) by lia. by intros [= <-].
Qed.

Lemma prot_pop_ok p : prot_ok p -> prot_ok (prot_pop p).
Proof. intros [Hl Ht]. unfold prot_pop. destruct (0 <? top p) eqn:E; [| done]. split; [done | cbn; lia]. Qed.

Section kept.
Context {W : Type}.
Implicit Type σ : cml W.

(** The arrays hold what is in them. *)
Definition in_bounds σ : Prop :=
  prot_ok (prot σ) /\ vartab_ok (vars σ) /\ vartab_ok (macs σ) /\ len (icache σ) <= MAXINC /\
  vartab_ok (cmlnametab (caches σ)) /\ vartab_ok (dirtab (caches σ)).

(** From one state to another with the same depth of calls, target and form
    data, inside the arrays if it was before. *)
Definition kept σ σ' : Prop :=
  call_depth σ' = call_depth σ /\ to_chix σ' = to_chix σ /\ form σ' = form σ /\ (in_bounds σ -> in_bounds σ').

Definition same_place σ σ' : Prop := cfile σ' = cfile σ /\ lnum σ' = lnum σ.

(** Both, for a call that comes back to where it was made. *)
Definition returns σ σ' : Prop := kept σ σ' /\ same_place σ σ'.

#[export] Instance kept_preorder : PreOrder kept.
Proof. unfold kept. split; [intros σ; tauto | intros x y z; intuition congruence]. Qed.
#[export] Instance returns_preorder : PreOrder returns.
Proof.
  unfold returns, same_place. split; [intros σ; split; [reflexivity | done] |].
  intros x y z [H1 ?] [H2 ?]. split; [by transitivity y | intuition congruence].
Qed.

Lemma returns_kept σ σ' : returns σ σ' -> kept σ σ'.
Proof. by intros []. Qed.
End kept.

(** Changes of a single field. *)
Ltac by_field := unfold returns, kept, same_place, in_bounds; cbn; intuition auto using vartab_add_room, prot_pop_ok.

Section fields.
Context {W : Type}.
Implicit Type σ : cml W.
Lemma returns_report σ msg : returns σ (report σ msg). Proof. by_field. Qed.
Lemma returns_err σ t : returns σ (set_errtext σ t). Proof. by_field. Qed.
Lemma returns_world σ w : returns σ (set_world σ w). Proof. by_field. Qed.
Lemma returns_coded σ x : returns σ (set_coded σ x). Proof. by_field. Qed.
Lemma returns_allow σ x : returns σ (set_allow σ x). Proof. by_field. Qed.
Lemma returns_args σ x : returns σ (set_cmlargs σ x). Proof. by_field. Qed.
Lemma returns_reval σ x : returns σ (set_reval σ x). Proof. by_field. Qed.
Lemma returns_pop σ : returns σ (set_prot σ (prot_pop (prot σ))). Proof. by_field. Qed.
Lemma returns_out σ x : returns σ (set_target σ (to_chix σ) x). Proof. by_field. Qed.
Lemma returns_add σ n v : returns σ (set_vars σ (vartab_add (vars σ) n v).2). Proof. by_field. Qed.
Lemma returns_macro σ n v : returns σ (set_macs σ (vartab_add (macs σ) n v).2). Proof. by_field. Qed.
Lemma kept_where σ f n : kept σ (set_where σ f n). Proof. by_field. Qed.
Lemma returns_push σ n p : prot_push n (prot σ) = Some p -> returns σ (set_prot σ p).
Proof. intros H. by_field. by eapply prot_push_ok. Qed.
End fields.

Create HintDb kept discriminated.
#[export] Hint Constants Opaque : kept.
#[export] Hint Resolve returns_report returns_err returns_world returns_coded returns_allow returns_args returns_reval
  returns_pop returns_out returns_add returns_macro kept_where returns_push returns_kept : kept.

(** What the calls of the interpreter promise each other. *)
Record calls_return {W} (k : calls W) : Prop := {
  scan_returns : forall old t c σ t' σ', c_scan k old t c σ = Some (t', σ') -> returns σ σ';
  mac_returns : forall t c σ t' σ', c_mac k t c σ = Some (t', σ') -> returns σ σ';
  include_returns : forall t c σ n b ct σ', c_include k t c σ = Some (n, b, ct, σ') -> returns σ σ' }.

(** What the rest of the server owes: functions outside the model break none of
    this, as long as the calls of the interpreter that they make do not. *)
Class cml_laws (W : Type) `{!cml_env W} : Prop :=
  foreign_returns : forall k, calls_return k -> forall what arg c (σ : cml W) r σ',
    foreign k what arg c σ = Some (r, σ') -> returns σ σ'.

(** Take apart what a computation [H] that succeeded was made of. *)
Ltac run H :=
  match type of H with
  | mbind _ ?m = Some _ =>
      let x := fresh "x" in let E := fresh "E" in
      destruct m as [x |] eqn:E; [| discriminate H]; cbn [mbind option_bind] in H; run E; run H
  | (let '(_, _) := ?p in _) = Some _ => is_var p; destruct p; run H
  | (let '(_, _) := ?p in _) = Some _ => let E := fresh "E" in destruct p eqn:E; run H
  | (if ?b then _ else _) = Some _ => let E := fresh "E" in destruct b eqn:E; run H
  | (match ?o with _ => _ end) = Some _ => let E := fresh "E" in destruct o eqn:E; run H
  | Some _ = Some _ => injection H; clear H; intros; subst
  | None = Some _ => discriminate H
  | _ => idtac
  end.

(** The state that a change was made to. *)
Ltac before σ' :=
  match σ' with
  | set_world ?σ _ => σ | set_errtext ?σ _ => σ | report ?σ _ => σ | set_coded ?σ _ => σ | set_allow ?σ _ => σ
  | set_cmlargs ?σ _ => σ | set_reval ?σ _ => σ | set_prot ?σ _ => σ | set_target ?σ _ _ => σ | set_vars ?σ _ => σ
  | set_macs ?σ _ => σ | set_where ?σ _ _ => σ
  end.

(** Go back from the last state to the first. *)
Ltac chain :=
  lazymatch goal with
  | |- returns ?σ ?σ => reflexivity
  | |- kept ?σ ?σ => reflexivity
  | |- _ => first
      [ assumption
      | match goal with H : returns ?σ1 ?σ2 |- returns _ ?σ2 => transitivity σ1; [| exact H] end; chain
      | match goal with H : kept ?σ1 ?σ2 |- kept _ ?σ2 => transitivity σ1; [| exact H] end; chain
      | match goal with H : returns ?σ1 ?σ2 |- kept _ ?σ2 => transitivity σ1; [| exact (returns_kept _ _ H)] end; chain
      | match goal with |- _ ?σ' => let σ1 := before σ' in transitivity σ1; [| solve [auto with kept]] end; chain ]
  end.

Section returning.
Context {W : Type} `{env : !cml_env W} {laws : cml_laws W} (k : calls W) (Hk : calls_return k).
Implicit Type σ : cml W.

Lemma c_scan_returns old t c σ t' σ' : c_scan k old t c σ = Some (t', σ') -> returns σ σ'.
Proof. apply (scan_returns k Hk). Qed.
Lemma c_mac_returns t c σ t' σ' : c_mac k t c σ = Some (t', σ') -> returns σ σ'.
Proof. apply (mac_returns k Hk). Qed.

Lemma set_variable_returns name value σ ok σ' : set_variable name value σ = (ok, σ') -> returns σ σ'.
Proof.
  unfold set_variable. destruct (is_object_ref name).
  - destruct (ob_set name value σ) as [[ok' err] w]. intros [= <- <-]. chain.
  - intros [= <- <-]. chain.
Qed.

Lemma variable_value_returns arg σ t σ' : variable_value arg σ = (t, σ') -> returns σ σ'.
Proof.
  unfold variable_value. destruct (is_object _).
  - destruct (ob_value _ σ) as [[v err] w]. intros [= <- <-]. chain.
  - by intros [= <- <-].
Qed.

Lemma other_function_returns name what arg c σ t σ' : other_function k name what arg c σ = Some (t, σ') -> returns σ σ'.
Proof.
  unfold other_function. intros H. destruct (foreign k what arg c σ) as [[r σ1] |] eqn:E; [| done].
  apply (foreign_returns k Hk) in E. destruct r; injection H as <- <-; [done | chain].
Qed.

Lemma func_value_returns name arg c σ t σ' : func_value k name arg c σ = Some (t, σ') -> returns σ σ'.
Proof.
  unfold func_value. cbv zeta. intros H. destruct (prot_top (prot σ)) as [protect |]; [| done]. cbn [mbind option_bind] in H.
  destruct (pure_function _ _ _) as [r |]; [run H; chain |].
  repeat match type of H with (if ?b then _ else _) = Some _ => destruct b eqn:? end.
  all: try (run H; chain).
  - injection H as H. by eapply variable_value_returns.
  - destruct (c_include k _ _ _) as [[[[n b] ct] σ1] |] eqn:Ei; [| done]. injection H as <- <-.
    apply (include_returns k Hk) in Ei. destruct Ei as [(Hd & _ & Hf & Hb) Hp].
    split; [| exact Hp]. unfold kept. by split_and!.
  - injection H as <- <-. destruct (_ && _); [apply returns_macro | reflexivity].
  - by eapply c_mac_returns.
  - injection H as <- <-. destruct (set_variable _ _ σ) as [ok σ1] eqn:E. by eapply set_variable_returns.
  - by eapply other_function_returns.
Qed.

(** The loops over a text, for steps that return. *)
Lemma text_loop_returns step fuel line r σ r' σ' :
  (forall r v σ r' σ', step line r v σ = Some (r', σ') -> returns σ σ') ->
  text_loop step fuel line r σ = Some (r', σ') -> returns σ σ'.
Proof.
  intros Hs. revert r σ. induction fuel as [| fuel IH]; intros r σ; [done |]. cbn [text_loop].
  destruct (_ =? 0); [by intros [= <- <-] |]. destruct (step _ _ _ _) as [[r1 σ1] |] eqn:E; [| done].
  cbn [mbind option_bind]. intros H. transitivity σ1; [by eapply Hs | by eapply IH].
Qed.

Lemma scan_end_returns what sign r σ : returns σ (scan_end what sign r σ).
Proof. unfold scan_end. destruct (s_state r); [reflexivity | apply returns_report | apply returns_report]. Qed.

Lemma call_function_returns c r σ r' σ' : call_function k (func_value k) c r σ = Some (r', σ') -> returns σ σ'.
Proof.
  unfold call_function. cbv zeta. set (rv := bool_decide (_ = bytes "reval")). set (pr := bool_decide (_ = bytes "protect")).
  intros H. destruct (if pr then prot_push 1 (prot σ) else Some (prot σ)) as [p |] eqn:Ep; [| done]. cbn [mbind option_bind] in H.
  assert (H0 : returns σ (set_prot σ p)).
  { destruct pr; [by eapply returns_push |]. injection Ep as <-. by_field. }
  match type of H with mbind _ ?m = _ => destruct m as [[[a1 rec1] σ1] |] eqn:E1; [| done] end. cbn [mbind option_bind] in H.
  assert (H1 : returns (set_prot σ p) σ1).
  { run E1; repeat match goal with
      | E : c_scan k _ _ _ _ = Some _ |- _ => apply c_scan_returns in E
      | E : func_value k _ _ _ _ = Some _ |- _ => apply func_value_returns in E end; chain. }
  match type of H with mbind _ ?m = _ => destruct m as [[[a2 rec2] σ2] |] eqn:E2; [| done] end. cbn [mbind option_bind] in H.
  assert (H2 : returns σ1 σ2).
  { transitivity (if rv then set_reval σ1 true else σ1); [destruct rv; chain |].
    run E2; repeat match goal with E : c_scan k _ _ _ _ = Some _ |- _ => apply c_scan_returns in E end; chain. }
  injection H as <- <-. destruct pr, rv; chain.
Qed.

Lemma scan_step_returns c line r v σ r' σ' : scan_step k (func_value k) c line r v σ = Some (r', σ') -> returns σ σ'.
Proof.
  unfold scan_step. intros H. destruct (s_state r); run H; try chain. by eapply call_function_returns.
Qed.

Lemma func_scan_returns old line c σ t σ' : func_scan k old line c σ = Some (t, σ') -> returns σ σ'.
Proof.
  unfold func_scan, scan_with. intros H. destruct (DEEPEST_CALL <? call_depth σ); [run H; chain |].
  destruct (text_loop _ _ _ _ _) as [[r σ1] |] eqn:E; [| done]. injection H as <- <-.
  apply text_loop_returns in E; [| intros *; apply scan_step_returns].
  pose proof (scan_end_returns "function" 36 r σ1) as He. pose proof (transitivity E He) as [(Hd & Ht & Hf & Hb) Hp].
  split; [| exact Hp]. unfold kept. cbn in *. rewrite Hd. split_and!; try done. lia.
Qed.

Lemma mac_expand_returns name args c σ t σ' : mac_expand k name args c σ = Some (t, σ') -> returns σ σ'.
Proof. unfold mac_expand. intros H. run H; [by eapply c_scan_returns | chain]. Qed.

Lemma call_macro_returns c r σ r' σ' : call_macro k c r σ = Some (r', σ') -> returns σ σ'.
Proof.
  unfold call_macro. cbv zeta. intros H.
  run H; repeat match goal with
    | E : c_scan k _ _ _ _ = Some _ |- _ => apply c_scan_returns in E
    | E : c_mac k _ _ _ = Some _ |- _ => apply c_mac_returns in E
    | E : mac_expand k _ _ _ _ = Some _ |- _ => apply mac_expand_returns in E end; chain.
Qed.

Lemma func_mac_returns arg c σ t σ' : func_mac k arg c σ = Some (t, σ') -> returns σ σ'.
Proof.
  unfold func_mac. intros H. run H. etransitivity; [| apply scan_end_returns].
  eapply text_loop_returns; [| eassumption]. clear - Hk laws. intros r0 v σ0 r1 σ1. unfold mac_step. intros H.
  destruct (s_state r0); run H; try chain. by eapply call_macro_returns.
Qed.

Lemma eval_line_returns old line c σ t σ' : eval_line k old line c σ = Some (t, σ') -> returns σ σ'.
Proof.
  unfold eval_line. intros H. destruct (func_mac k line c σ) as [[m σ1] |] eqn:E; [| done].
  apply func_mac_returns in E. apply func_scan_returns in H. by transitivity σ1.
Qed.

Lemma assign_vars_returns n which vn result more σ b σ' : assign_vars n which vn result more σ = (b, σ') -> returns σ σ'.
Proof.
  revert vn more σ. induction n as [| n IH]; intros vn more σ; cbn [assign_vars]; [by intros [= <- <-] |].
  destruct (token blanks _ result) as [p value]. destruct (set_variable _ _ σ) as [ok σ1] eqn:E. apply set_variable_returns in E.
  destruct ok; [intros H; apply IH in H; by transitivity σ1 | by intros [= <- <-]].
Qed.

(** ** Statements *)

Definition state_of (a : after W) : cml W := match a with Goto _ _ σ => σ | Done (_, _, _, σ) => σ end.

Section block_kept.
Context (f : cml_file) (num : Z) (body : cml W -> option (stopped W)) (fuel : nat) (c : ctx).
Hypothesis Hbody : forall σ n b ct σ', body σ = Some (n, b, ct, σ') -> kept σ σ'.

(** Use what is known of the parts of a computation. *)
Ltac known := repeat match goal with
  | E : eval_line k _ _ _ _ = Some _ |- _ => apply eval_line_returns in E
  | E : assign_vars _ _ _ _ _ _ = _ |- _ => apply assign_vars_returns in E
  | E : set_variable _ _ _ = _ |- _ => apply set_variable_returns in E
  | E : body _ = Some _ |- _ => apply Hbody in E
  | E : c_include k _ _ _ = Some _ |- _ => apply (include_returns k Hk) in E
  end.

Lemma leave_loop_kept skipped nn result l σ a : leave_loop f num fuel skipped nn result l σ = Some a -> kept σ (state_of a).
Proof.
  unfold leave_loop. destruct (if skipped then _ else _) as [n |]; [| done]. cbn [mbind option_bind].
  destruct (_ <=? n); intros [= <-]; reflexivity.
Qed.

Lemma run_if_kept taken l σ a : run_if f num body fuel taken l σ = Some a -> kept σ (state_of a).
Proof.
  unfold run_if. intros H.
  assert (Hr : exists n b ct σ1, after_block l (n, b, ct, σ1) = a /\ kept σ σ1).
  { destruct taken.
    - destruct (body σ) as [[[[n b] ct] σ1] |] eqn:E; [| done]. injection H as <-. apply Hbody in E. by exists n, b, ct, σ1.
    - destruct (skip_block f num fuel) as [n |]; [| done]. injection H as <-. by exists n, false, false, σ. }
  destruct Hr as (n & b & ct & σ1 & <- & Hr). unfold after_block. destruct b, ct; try done. by destruct (_ <=? n).
Qed.

Lemma html_line_kept line l σ a : html_line k f num c line l σ = Some a -> kept σ (state_of a).
Proof.
  unfold html_line. intros H. destruct (eval_line k _ line c σ) as [[t σ1] |] eqn:E; [| done]. cbn [mbind option_bind] in H.
  known. destruct (to_chix σ1) eqn:Et.
  - injection H as <-. cbn [state_of]. rewrite <- Et. chain.
  - destruct (convert_and_write _ _) as [ok w]. injection H as <-. destruct ok; cbn [state_of]; chain.
Qed.

Lemma for_loop_kept fuel' first which numvars result l hit nn σ a :
  for_loop f num body fuel fuel' first which numvars result l hit nn σ = Some a -> kept σ (state_of a).
Proof.
  revert which hit nn σ. induction fuel' as [| fuel' IH]; intros which hit nn σ; [done |]. cbn [for_loop]. intros H.
  destruct (assign_vars _ _ _ _ _ σ) as [more σ1] eqn:E. known. destruct more; cbn [negb] in H.
  - destruct (body σ1) as [[[[n b] ct] σ2] |] eqn:Eb; [| done]. cbn [mbind option_bind] in H. known.
    destruct ct; [| destruct b; [| destruct (_ <=? n)]].
    + apply IH in H. chain.
    + apply leave_loop_kept in H. chain.
    + injection H as <-. cbn [state_of]. chain.
    + apply IH in H. chain.
  - apply leave_loop_kept in H. chain.
Qed.

Lemma while_loop_kept fuel' line l nn old σ a :
  while_loop k f num body fuel c fuel' line l nn old σ = Some a -> kept σ (state_of a).
Proof.
  revert nn old σ. induction fuel' as [| fuel' IH]; intros nn old σ; [done |]. cbn [while_loop]. intros H.
  destruct (eval_line k old line c σ) as [[t σ1] |] eqn:E; [| done]. cbn [mbind option_bind] in H. known.
  destruct (num_of 2 _) as [ok count]. destruct (_ || _); [apply leave_loop_kept in H; chain |].
  destruct (body σ1) as [[[[n b] ct] σ2] |] eqn:Eb; [| done]. cbn [mbind option_bind] in H. known.
  destruct ct; [| destruct b; [| destruct (_ <=? n)]].
  - apply IH in H. chain.
  - apply leave_loop_kept in H. chain.
  - injection H as <-. cbn [state_of]. chain.
  - apply IH in H. chain.
Qed.

Lemma count_loop_kept fuel' vname count count1 result l hit nn σ a :
  count_loop f num body fuel fuel' vname count count1 result l hit nn σ = Some a -> kept σ (state_of a).
Proof.
  revert count hit nn σ. induction fuel' as [| fuel' IH]; intros count hit nn σ; [done |]. cbn [count_loop]. intros H.
  destruct (count <=? count1); cbn [negb] in H; [| by apply leave_loop_kept in H].
  destruct (set_variable _ _ σ) as [ok σ1] eqn:E. known. destruct ok; cbn [negb] in H; [| apply leave_loop_kept in H; chain].
  destruct (body σ1) as [[[[n b] ct] σ2] |] eqn:Eb; [| done]. cbn [mbind option_bind] in H. known.
  destruct ct; [| destruct b; [| destruct (_ <=? n)]].
  - apply IH in H. chain.
  - apply leave_loop_kept in H. chain.
  - injection H as <-. cbn [state_of]. chain.
  - apply IH in H. chain.
Qed.

Lemma set_arg_returns vname value σ σ' : set_arg vname value σ = Some σ' -> returns σ σ'.
Proof. unfold set_arg. cbv zeta. intros H. run H; chain. Qed.

Lemma set_stmt_kept verb line l σ a : set_stmt k num c verb line l σ = Some a -> kept σ (state_of a).
Proof.
  unfold set_stmt. intros H. destruct (eval_line k _ line c σ) as [[t σ1] |] eqn:E; [| done]. cbn [mbind option_bind] in H. known.
  destruct (token blanks 2 t) as [p vname]. cbv zeta in H.
  match type of H with mbind _ ?m = _ => destruct m as [σ2 |] eqn:E2; [| done] end. injection H as <-. cbn [state_of].
  destruct (0 <=? cindex vname 0 _); [apply set_arg_returns in E2; chain |]. injection E2 as <-.
  destruct (set_variable _ _ σ1) as [ok σ3] eqn:E3. known. cbn [snd]. chain.
Qed.

Lemma include_stmt_kept line l σ a : include_stmt k num c line l σ = Some a -> kept σ (state_of a).
Proof.
  unfold include_stmt. cbv zeta. intros H. destruct (eval_line k _ line c σ) as [[t σ1] |] eqn:E; [| done].
  cbn [mbind option_bind] in H. destruct (c_include k _ _ σ1) as [[[[n b] ct] σ2] |] eqn:Ei; [| done].
  cbn [mbind option_bind] in H. destruct n as [n |]; [| done]. cbn [mbind option_bind] in H. known.
  injection H as <-. destruct b; [| destruct ct; [| destruct (n =? S_INFINITY)]]; cbn [state_of]; chain.
Qed.

Lemma statement_kept line l σ a : statement k f num body fuel c line l σ = Some a -> kept σ (state_of a).
Proof.
  unfold statement. cbv zeta. intros H.
  repeat match type of H with (if ?b then _ else _) = Some _ => destruct b end.
  all: try (injection H as <-; cbn [state_of]; chain).
  - by eapply html_line_kept.
  - unfold break_stmt in H. run H. reflexivity.
  - unfold break_stmt in H. run H. reflexivity.
  - unfold for_stmt in H. cbv zeta in H. destruct (eval_line k _ line c σ) as [[t σ1] |] eqn:E; [| done].
    cbn [mbind option_bind] in H. known. destruct (tablefind _ _ _) as [i |]; [| done]. cbn [mbind option_bind] in H.
    destruct (if i <? 0 then _ else _) as [i' numvars]. destruct (numvars <=? 0); [done |]. apply for_loop_kept in H. chain.
  - by eapply while_loop_kept.
  - by eapply set_stmt_kept.
  - destruct (eval_line k _ line c σ) as [[t σ1] |] eqn:E; [| done]. injection H as <-. known. cbn [state_of]. chain.
  - by eapply include_stmt_kept.
  - unfold count_stmt in H. cbv zeta in H. destruct (eval_line k _ line c σ) as [[t σ1] |] eqn:E; [| done].
    cbn [mbind option_bind] in H. known. destruct (count_bounds _) as [count0 count1].
    destruct (if count1 <? count0 then _ else _) as [nn |]; [| done]. apply count_loop_kept in H. chain.
  - unfold if_stmt in H. cbv zeta in H. destruct (eval_line k _ line c σ) as [[t σ1] |] eqn:E; [| done].
    cbn [mbind option_bind] in H. known. apply run_if_kept in H. chain.
  - unfold elif_stmt in H. cbv zeta in H. destruct (_ || _); [run H; reflexivity |].
    destruct (eval_line k _ line c σ) as [[t σ1] |] eqn:E; [| done].
    cbn [mbind option_bind] in H. known. apply run_if_kept in H. chain.
  - by eapply run_if_kept.
Qed.
End block_kept.

Lemma parse_from_kept fuel f c num l σ n b ct σ' : parse_from k fuel f c num l σ = Some (n, b, ct, σ') -> kept σ σ'.
Proof.
  revert num l σ n b ct σ'. induction fuel as [| fuel IH]; intros num l σ n b ct σ'; [done |]. cbn [parse_from].
  destruct (_ <=? num); [by intros [= <- <- <- <-] |].
  destruct (zget (lines f) num) as [line |]; [| done]. destruct (zget (lnums f) num) as [ln |]; [| done]. cbn [mbind option_bind].
  destruct (statement k f num _ fuel c line l _) as [a |] eqn:E; [| done]. cbn [mbind option_bind].
  apply statement_kept in E; [| intros *; apply IH].
  assert (H0 : kept σ (state_of a)) by (transitivity (set_where σ (filename f) ln); [apply kept_where | done]).
  destruct a as [num' l' σ1 | r]; [intros H; apply IH in H; by transitivity σ1 |]. intros [= ->]. exact H0.
Qed.

(** ** Loading *)

Lemma dir_level_returns dir σ n σ' : dir_level dir σ = Some (n, σ') -> returns σ σ'.
Proof.
  unfold dir_level. cbv zeta. intros H. destruct (_ <? 0).
  - destruct (_ <=? _); [done |]. destruct (vartab_add (dirtab (caches σ)) dir dir) as [slot tab] eqn:Ea. injection H as <- <-.
    pose proof (vartab_add_room (dirtab (caches σ)) dir dir) as Hr. rewrite Ea in Hr. by_field.
  - run H. reflexivity.
Qed.

Lemma locate_returns name σ place σ' : locate name σ = Some (place, σ') -> returns σ σ'.
Proof.
  unfold locate. cbv zeta. intros H. destruct (_ <? 0); [| run H; reflexivity].
  match type of H with mbind _ ?m = _ => destruct m as [[found σ1] |] eqn:E; [| done] end. injection H as <- <-.
  assert (H1 : returns σ σ1).
  { destruct (splitcml name) as [[dir file] |]; [| by injection E as <- <-].
    destruct (dir_level dir σ) as [[n σ2] |] eqn:Ed; [| done]. cbn [mbind option_bind] in E. destruct (_ && _); [done |].
    injection E as <- <-. by apply dir_level_returns in Ed. }
  transitivity σ1; [done |]. by_field.
Qed.

Lemma open_cml_returns name σ r σ' : open_cml name σ = Some (r, σ') -> returns σ σ'.
Proof.
  unfold open_cml. cbv zeta. intros H. destruct (locate name σ) as [[place σ1] |] eqn:E; [| done]. cbn [mbind option_bind] in H.
  apply locate_returns in E. run H; done.
Qed.

Lemma load_lines_kept fuel c fname f n ls σ r σ' : load_lines k fuel c fname f n ls σ = Some (r, σ') -> kept σ σ'.
Proof.
  revert fname f n ls σ r σ'. induction fuel as [| fuel IH]; intros fname f n ls σ r σ'; [done |]. cbn [load_lines]. intros H.
  destruct (_ <? len ls); [done |]. destruct (readcml blanks f n) as [[[[line |] f'] n'] |]; [| run H; reflexivity | done].
  cbn [mbind option_bind] in H. destruct (negb _); [by apply IH in H |].
  destruct (c_scan k [] line _ _) as [[result σ1] |] eqn:Es; [| done]. cbn [mbind option_bind] in H. apply c_scan_returns in Es.
  assert (H1 : kept σ σ1) by chain. clear Es.
  destruct (chxinside result 40 41) as [word |]; [| apply IH in H; chain]. destruct (_ <=? _); [done |]. cbv zeta in H.
  destruct (open_cml _ σ1) as [[opened σ2] |] eqn:Eo; [| done]. cbn [mbind option_bind] in H. apply open_cml_returns in Eo.
  destruct opened as [text |]; [| apply IH in H; chain].
  destruct (load_lines k fuel c _ text 0 ls σ2) as [[[fname1 ls1] σ3] |] eqn:El; [| done]. cbn [mbind option_bind] in H.
  apply IH in El. apply IH in H. chain.
Qed.

Lemma loadcml_returns fuel c name σ found f σ' : loadcml k fuel c name σ = Some (found, f, σ') -> returns σ σ'.
Proof.
  unfold loadcml. intros H. destruct (open_cml name σ) as [[opened σ1] |] eqn:E; [| done]. cbn [mbind option_bind] in H.
  apply open_cml_returns in E. destruct opened as [text |]; [| by injection H as <- <- <-].
  destruct (load_lines k fuel c name text 0 [] σ1) as [[[fname ls] σ2] |] eqn:El; [| done]. injection H as <- <- <-.
  apply load_lines_kept in El. split; [chain | done].
Qed.

Lemma find_include_returns fuel c name σ f missing σ' : find_include k fuel c name σ = Some (f, missing, σ') -> returns σ σ'.
Proof.
  unfold find_include. destruct (if cache_include then _ else _) as [[i g] |]; [by intros [= <- <- <-] |].
  intros H. destruct (loadcml k fuel c name σ) as [[[found g] σ1] |] eqn:E; [| done]. cbn [mbind option_bind] in H.
  apply loadcml_returns in E. destruct cache_include; injection H as <- <- <-; [| done].
  destruct (len (icache σ1) <? MAXINC) eqn:El; [| done]. transitivity σ1; [done |].
  unfold returns, kept, same_place, in_bounds. cbn. intuition auto. rewrite len_app, len_cons, len_nil. lia.
Qed.

Lemma include_cml_returns fuel name c σ n b ct σ' : include_cml k fuel name c σ = Some (n, b, ct, σ') -> returns σ σ'.
Proof.
  unfold include_cml. cbv zeta. intros H. destruct (prot_push 0 (prot σ)) as [p |] eqn:Ep; [| done]. cbn [mbind option_bind] in H.
  apply returns_push in Ep. destruct (find_include k fuel c _ _) as [[[f missing] σ1] |] eqn:Ef; [| done].
  cbn [mbind option_bind] in H. apply find_include_returns in Ef.
  match type of H with mbind _ ?m = _ => destruct m as [[[[n' b'] ct'] σ2] |] eqn:E; [| done] end. injection H as <- <- <- <-.
  assert (H1 : kept σ1 σ2).
  { destruct (bool_decide _); [injection E as <- <- <- <-; destruct missing; chain |].
    unfold parse_cml in E. destruct (parse_from k fuel f c 0 locals_start σ1) as [[[[n2 b2] ct2] σ3] |] eqn:Er; [| done].
    injection E as <- <- <- <-. by apply parse_from_kept in Er. }
  split; [chain | done].
Qed.
End returning.

(** All the calls of the interpreter, however deep. *)
Lemma interp_returns {W} `{env : !cml_env W} {laws : cml_laws W} n : calls_return (interp n).
Proof.
  induction n as [| n IH]; [by split |]. split; cbn [interp c_scan c_mac c_include].
  - intros *. by apply func_scan_returns.
  - intros *. by apply func_mac_returns.
  - intros *. by apply include_cml_returns.
Qed.
