(* ===== verification/CmlTerm.v ===== *)
(** When evaluation ends: a scan of a text always comes to its end, although a
    bad name is read again as text, unless a call in the text gives nothing;
    calls of macros inside macros need not end. *)
From S2P Require Import Prelude Memory Chix ChixCore ChixEdit ChixSearch ChixParse Str Html Numbers CmlLists Table Vartab CmlState CmlScan CmlParse CmlEval CmlInv.

(** ** One scan *)

Section reading.
Context (sign : Z) (line : text).

(** No call begins from [i] up to [j]. *)
Definition no_sign (i j : Z) : Prop := forall p, i <= p < j -> cval line p <> sign.

(** The scanner is inside the line, and [m] turns are enough for the rest.
    Text up to [hi] may have been read before, as a bad name. *)
Definition ready (r : scan) (m : Z) : Prop :=
  0 <= s_pos r <= len line /\
  match s_state r with
  | ST_TEXT => exists hi, s_pos r <= hi <= len line /\ no_sign (s_pos r) hi /\ m = (len line - s_pos r) + (len line - hi)
  | ST_NAME => 0 <= s_start r < s_pos r /\ no_sign (s_start r + 1) (s_pos r) /\ m = (len line - s_start r) + (len line - s_pos r)
  | ST_ARG => m = 2 * (len line - s_pos r)
  end.

(** A turn that takes the scanner on. *)
Definition closer (m : Z) (r : scan) : Prop := exists m', 0 <= m' < m /\ ready (move_to r (s_pos r + 1)) m'.

Lemma cval_inside p : 0 <= p -> cval line p <> 0 -> p < len line.
Proof. intros H0 H. destruct (Z.ltb_spec p (len line)); [done |]. by rewrite cval_past in H. Qed.

Section turn.
Context (r : scan) (m : Z).
Hypothesis Hr : ready r m.
Hypothesis Hv : cval line (s_pos r) <> 0.

Lemma ready_inside : 0 <= s_pos r < len line.
Proof. destruct Hr as [[H _] _]. split; [done | by apply cval_inside]. Qed.

Lemma closer_text r' : s_state r = ST_TEXT -> s_state r' = ST_TEXT -> s_pos r' = s_pos r -> closer m r'.
Proof.
  intros Hs Hs' Hp. pose proof ready_inside as Hin. destruct Hr as [_ H]. rewrite Hs in H. destruct H as (hi & Hhi & Hno & ->).
  exists ((len line - (s_pos r + 1)) + (len line - Z.max hi (s_pos r + 1))). split; [lia |].
  unfold ready, move_to. cbn [s_pos s_state]. rewrite Hs', Hp. split; [lia |]. exists (Z.max hi (s_pos r + 1)).
  split_and!; [lia | lia | | done]. intros p H. apply Hno. lia.
Qed.

Lemma closer_escape r' :
  sign <> 0 -> s_state r = ST_TEXT -> s_state r' = ST_TEXT -> s_pos r' = s_pos r + 1 -> cval line (s_pos r + 1) = sign -> closer m r'.
Proof.
  intros H0 Hs Hs' Hp Hsg. pose proof ready_inside as Hin. destruct Hr as [_ H]. rewrite Hs in H. destruct H as (hi & Hhi & Hno & ->).
  assert (s_pos r + 1 < len line) by (apply cval_inside; [lia | congruence]).
  assert (hi <= s_pos r + 1). { destruct (Z.leb_spec hi (s_pos r + 1)); [done |]. exfalso. apply (Hno (s_pos r + 1)); [lia | done]. }
  exists (2 * (len line - (s_pos r + 2))). split; [lia |]. unfold ready, move_to. cbn [s_pos s_state]. rewrite Hs', Hp.
  split; [lia |]. exists (s_pos r + 2). split_and!; [lia | lia | | lia]. intros p Hp'. lia.
Qed.

Lemma closer_begin : s_state r = ST_TEXT -> cval line (s_pos r) = sign -> closer m (begin_name r).
Proof.
  intros Hs Hsg. pose proof ready_inside as Hin. destruct Hr as [_ H]. rewrite Hs in H. destruct H as (hi & Hhi & Hno & ->).
  assert (hi = s_pos r). { destruct (Z.leb_spec hi (s_pos r)); [lia |]. exfalso. apply (Hno (s_pos r)); [lia | done]. }
  exists ((len line - s_pos r) + (len line - (s_pos r + 1))). split; [lia |]. unfold ready, move_to, begin_name. cbn.
  split; [lia |]. split_and!; [lia | lia | | done]. intros p ?. lia.
Qed.

Lemma closer_name r' :
  s_state r = ST_NAME -> cval line (s_pos r) <> sign -> s_state r' = ST_NAME -> s_pos r' = s_pos r -> s_start r' = s_start r -> closer m r'.
Proof.
  intros Hs Hsg Hs' Hp Hst. pose proof ready_inside as Hin. destruct Hr as [_ H]. rewrite Hs in H. destruct H as (Hst0 & Hno & ->).
  exists ((len line - s_start r) + (len line - (s_pos r + 1))). split; [lia |]. unfold ready, move_to. cbn [s_pos s_state s_start].
  rewrite Hs', Hp, Hst. split; [lia |]. split_and!; [lia | lia | | done].
  intros p H. destruct (decide (p = s_pos r)) as [-> | ?]; [done |]. apply Hno. lia.
Qed.

(** A bad name: what follows the sign is read again, as text. *)
Lemma closer_again r' : s_state r = ST_NAME -> s_state r' = ST_TEXT -> s_pos r' = s_start r -> closer m r'.
Proof.
  intros Hs Hs' Hp. pose proof ready_inside as Hin. destruct Hr as [_ H]. rewrite Hs in H. destruct H as (Hst0 & Hno & ->).
  exists ((len line - (s_start r + 1)) + (len line - s_pos r)). split; [lia |]. unfold ready, move_to. cbn [s_pos s_state].
  rewrite Hs', Hp. split; [lia |]. exists (s_pos r). split_and!; [lia | lia | done | done].
Qed.

Lemma closer_args r' : s_state r = ST_NAME \/ s_state r = ST_ARG -> s_state r' = ST_ARG -> s_pos r' = s_pos r -> closer m r'.
Proof.
  intros Hs Hs' Hp. pose proof ready_inside as Hin. exists (2 * (len line - (s_pos r + 1))). split.
  - destruct Hr as [_ H]. destruct Hs as [Hs | Hs]; rewrite Hs in H; lia.
  - unfold ready, move_to. cbn [s_pos s_state]. rewrite Hs', Hp. split; [lia | done].
Qed.

Lemma closer_value r' : s_state r = ST_ARG -> s_state r' = ST_TEXT -> s_pos r' = s_pos r -> closer m r'.
Proof.
  intros Hs Hs' Hp. pose proof ready_inside as Hin. exists (2 * (len line - (s_pos r + 1))). split.
  - destruct Hr as [_ H]. rewrite Hs in H. lia.
  - unfold ready, move_to. cbn [s_pos s_state]. rewrite Hs', Hp. split; [lia |]. exists (s_pos r + 1).
    split_and!; [lia | lia | intros p ?; lia | lia].
Qed.
End turn.

(** [n] turns of a loop that lead from one configuration to another. *)
Inductive runs {W} (step : text -> scan -> Z -> cml W -> option (scan * cml W)) : nat -> scan * cml W -> scan * cml W -> Prop :=
  | runs_0 x : runs step 0 x x
  | runs_turn n r σ r1 σ1 y :
      cval line (s_pos r) <> 0 -> step line r (cval line (s_pos r)) σ = Some (r1, σ1) ->
      runs step n (move_to r1 (s_pos r1 + 1), σ1) y -> runs step (S n) (r, σ) y.

(** When every turn takes the scanner on, the loop comes to the end of the
    line, or to a turn that gives nothing, within [m] turns. *)
Lemma text_loop_stops {W} (step : text -> scan -> Z -> cml W -> option (scan * cml W)) fuel r m σ :
  (forall r m σ r' σ', ready r m -> cval line (s_pos r) <> 0 ->
     step line r (cval line (s_pos r)) σ = Some (r', σ') -> closer m r') ->
  ready r m -> 0 <= m < Z.of_nat fuel ->
  exists n r' σ', Z.of_nat n <= m /\ runs step n (r, σ) (r', σ') /\
    if cval line (s_pos r') =? 0 then text_loop step fuel line r σ = Some (r', σ')
    else step line r' (cval line (s_pos r')) σ' = None /\ text_loop step fuel line r σ = None.
Proof.
  intros Hstep. revert r m σ. induction fuel as [| fuel IH]; intros r m σ Hr Hm; [lia |]. cbn [text_loop].
  destruct (cval line (s_pos r) =? 0) eqn:E; [exists 0%nat, r, σ; rewrite E; split_and!; [lia | constructor | done] |].
  pose proof (proj1 (Z.eqb_neq _ _) E) as E'.
  destruct (step line r (cval line (s_pos r)) σ) as [[r1 σ1] |] eqn:Hs.
  2: { exists 0%nat, r, σ. rewrite E. split_and!; [lia | constructor | done | done]. }
  destruct (Hstep r m σ r1 σ1 Hr E' Hs) as (m' & Hm' & Hr'). cbn [mbind option_bind].
  destruct (IH _ m' σ1 Hr' ltac:(lia)) as (n & r' & σ' & Hn & Hrun & H). exists (S n), r', σ'.
  split_and!; [lia | by eapply runs_turn | done].
Qed.

Lemma ready_start : ready scan_start (2 * len line).
Proof.
  unfold ready, scan_start. cbn. len_pos. split; [lia |]. exists 0. split_and!; [lia | lia | intros p ?; lia | lia].
Qed.
End reading.

(** ** The turns of the two scanners *)

(** The character at which a call is evaluated. *)
Definition closes_call (line : text) (r : scan) : Prop :=
  s_state r = ST_ARG /\ cval line (s_pos r) = 41 /\ s_parens r <= 0.

Section turns.
Context {W : Type} `{env : !cml_env W} (k : calls W).
Implicit Type σ : cml W.

Lemma call_function_place value c r σ r' σ' :
  call_function k value c r σ = Some (r', σ') -> s_state r' = ST_TEXT /\ s_pos r' = s_pos r.
Proof.
  unfold call_function. cbv zeta. intros H.
  repeat (apply bind_Some in H as ([] & _ & H) || destruct p). by injection H as <- <-.
Qed.

Lemma call_macro_place c r σ r' σ' : call_macro k c r σ = Some (r', σ') -> s_state r' = ST_TEXT /\ s_pos r' = s_pos r.
Proof.
  unfold call_macro. cbv zeta. intros H.
  repeat (apply bind_Some in H as ([] & _ & H) || destruct p). by injection H as <- <-.
Qed.

Lemma scan_step_closer value c line r m σ r' σ' :
  ready 36 line r m -> cval line (s_pos r) <> 0 ->
  scan_step k value c line r (cval line (s_pos r)) σ = Some (r', σ') -> closer 36 line m r'.
Proof.
  intros Hr Hv. unfold scan_step. destruct (s_state r) eqn:Hs.
  - destruct (cval line (s_pos r) =? 36) eqn:E; [intros [= <- <-]; apply closer_begin; [done.. | lia] |].
    destruct (_ && _) eqn:E1; intros [= <- <-].
    + eapply closer_escape; eauto; lia.
    + eapply closer_text; eauto.
  - destruct (cval line (s_pos r) =? 40) eqn:E; [intros [= <- <-]; eapply closer_args; eauto |].
    destruct (cval line (s_pos r) =? 32) eqn:E1; [intros [= <- <-]; eapply closer_name; eauto; lia |].
    destruct (goodname _) eqn:E2; intros [= <- <-].
    + eapply closer_name; eauto. intros H. by rewrite H in E2.
    + eapply closer_again; eauto.
  - destruct (cval line (s_pos r) =? 40) eqn:E; [intros [= <- <-]; eapply closer_args; eauto |].
    destruct (_ && _); [intros [= <- <-]; eapply closer_args; eauto |].
    destruct (_ =? 41); [| intros [= <- <-]; eapply closer_args; eauto].
    intros H. destruct (call_function_place _ _ _ _ _ _ H) as [Hs' Hp']. eapply closer_value; eauto.
Qed.

(** The only turn that can give nothing is the one that evaluates a call. *)
Lemma scan_step_none value c line r σ :
  scan_step k value c line r (cval line (s_pos r)) σ = None ->
  closes_call line r /\ call_function k value c r σ = None.
Proof.
  unfold scan_step, closes_call. intros H. destruct (s_state r); repeat case_match; try done. split_and!; done || lia.
Qed.

Lemma mac_step_closer c line r m σ r' σ' :
  ready 37 line r m -> cval line (s_pos r) <> 0 ->
  mac_step k c line r (cval line (s_pos r)) σ = Some (r', σ') -> closer 37 line m r'.
Proof.
  intros Hr Hv. unfold mac_step. destruct (s_state r) eqn:Hs.
  - destruct ((cval line (s_pos r) =? 37) && _) eqn:E; [intros [= <- <-]; apply closer_begin; [done.. | lia] |].
    destruct ((cval line (s_pos r) =? 92) && _) eqn:E1; intros [= <- <-].
    + eapply closer_escape; eauto; lia.
    + eapply closer_text; eauto.
  - destruct (cval line (s_pos r) =? 40) eqn:E.
    { destruct (_ <? 0); intros [= <- <-]; [eapply closer_again; eauto | eapply closer_args; eauto]. }
    destruct (cval line (s_pos r) =? 32) eqn:E1; [intros [= <- <-]; eapply closer_name; eauto; lia |].
    destruct (goodmac _) eqn:E2; cbn [negb]; intros [= <- <-].
    + eapply closer_name; eauto. intros H. by rewrite H in E2.
    + eapply closer_again; eauto.
  - destruct (cval line (s_pos r) =? 40) eqn:E; [intros [= <- <-]; eapply closer_args; eauto |].
    destruct (_ && _); [intros [= <- <-]; eapply closer_args; eauto |].
    destruct (_ =? 41); [| intros [= <- <-]; eapply closer_args; eauto].
    intros H. destruct (call_macro_place _ _ _ _ _ H) as [Hs' Hp']. eapply closer_value; eauto.
Qed.

Lemma mac_step_none c line r σ :
  mac_step k c line r (cval line (s_pos r)) σ = None -> closes_call line r /\ call_macro k c r σ = None.
Proof.
  unfold mac_step, closes_call. intros H. destruct (s_state r); repeat case_match; try done. split_and!; done || lia.
Qed.

(** A scan comes to the end of its text within twice its length, or to a call
    that gives nothing. *)
Lemma scan_stops value c line σ :
  exists n r σ', (n <= 2 * length line)%nat /\ runs line (scan_step k value c) n (scan_start, σ) (r, σ') /\
    if cval line (s_pos r) =? 0 then text_loop (scan_step k value c) (scan_fuel line) line scan_start σ = Some (r, σ')
    else closes_call line r /\ call_function k value c r σ' = None /\
      text_loop (scan_step k value c) (scan_fuel line) line scan_start σ = None.
Proof.
  destruct (text_loop_stops 36 line (scan_step k value c) (scan_fuel line) scan_start (2 * len line) σ)
    as (n & r & σ' & Hn & Hrun & H); [intros *; apply scan_step_closer | apply ready_start | unfold scan_fuel, len; lia |].
  exists n, r, σ'. split_and!; [unfold len in Hn; lia | done |]. destruct (_ =? 0); [done |].
  destruct H as [H1 H2]. by destruct (scan_step_none _ _ _ _ _ H1).
Qed.

Lemma mac_stops c line σ :
  exists n r σ', (n <= 2 * length line)%nat /\ runs line (mac_step k c) n (scan_start, σ) (r, σ') /\
    if cval line (s_pos r) =? 0 then text_loop (mac_step k c) (scan_fuel line) line scan_start σ = Some (r, σ')
    else closes_call line r /\ call_macro k c r σ' = None /\
      text_loop (mac_step k c) (scan_fuel line) line scan_start σ = None.
Proof.
  destruct (text_loop_stops 37 line (mac_step k c) (scan_fuel line) scan_start (2 * len line) σ)
    as (n & r & σ' & Hn & Hrun & H); [intros *; apply mac_step_closer | apply ready_start | unfold scan_fuel, len; lia |].
  exists n, r, σ'. split_and!; [unfold len in Hn; lia | done |]. destruct (_ =? 0); [done |].
  destruct H as [H1 H2]. by destruct (mac_step_none _ _ _ _ H1).
Qed.
End turns.

(** ** A macro that never ends *)

(** A macro that is its own text: however deep the interpreter may go, it does
    not come back.  The depth of calls is only counted in [func_scan], and the
    scans inside are over before the next macro begins. *)
Lemma mac_args_none {W} `{env : !cml_env W} n c (σ : cml W) :
  call_depth σ <= DEEPEST_CALL -> mac_args (interp (S n)) [] c σ = Some ([], σ).
Proof.
  intros Hd. unfold mac_args. cbn [has]. change (has 37 []) with false. cbn [mbind option_bind].
  change (replaced [] [92; 36] [92; 92; 36]) with (escape 36 []). cbn [interp c_scan]. apply scan_escaped; [constructor | done].
Qed.

Definition endless : text := bytes "%m()".

Lemma substitute_endless B args : substitute B endless args = endless.
Proof. unfold substitute. cbn [seqZ]. reflexivity. Qed.

Lemma endless_none {W} `{env : !cml_env W} n c (σ : cml W) :
  call_depth σ <= DEEPEST_CALL -> value_at (macs σ) (vartab_is (macs σ) (bytes "m")) = Some endless ->
  c_mac (interp n) endless c σ = None.
Proof.
  intros Hd Hm. assert (His : 0 <= vartab_is (macs σ) (bytes "m")).
  { unfold value_at, zget in Hm. destruct (_ <? 0) eqn:E in Hm; [done |]. lia. }
  induction n as [n IH] using lt_wf_ind. destruct n as [| n]; [done |]. cbn [interp c_mac].
  set (k := interp n) in *. unfold func_mac.
  assert (H3 : turns (mac_step k c) endless 3 (scan_start, σ) (mkScan 3 ST_ARG (bytes "m") [] 0 0 [] [] [], σ)).
  { apply (turns_app _ _ 1 2 _ (mkScan 1 ST_NAME [] [] 0 0 [] [] [], σ)); [by apply (turns_1 _ _ _ _ (begin_name scan_start)) |].
    apply (turns_app _ _ 1 1 _ (mkScan 2 ST_NAME (bytes "m") [] 0 0 [] [] [], σ));
      [by apply (turns_1 _ _ _ _ (put_name (mkScan 1 ST_NAME [] [] 0 0 [] [] []) 109)) |].
    apply (turns_1 _ _ _ _ (begin_args (mkScan 2 ST_NAME (bytes "m") [] 0 0 [] [] []))); [done |].
    change (cval endless _) with 40. unfold mac_step. cbn [s_state s_name Z.eqb Pos.eqb].
    by rewrite (proj2 (Z.ltb_ge _ _)) by exact His. }
  specialize (H3 6%nat). cbn [fst snd] in H3. change (3 + 6)%nat with (scan_fuel endless) in H3. rewrite H3.
  cbn [text_loop s_pos]. change (cval endless 3) with 41. cbn [Z.eqb Pos.eqb]. unfold mac_step. cbn [s_state s_parens s_args Z.eqb Pos.eqb andb Z.ltb Z.compare].
  unfold call_macro. cbn [s_args s_name s_fscan s_recurs]. change (has 37 []) with false.
  change (replaced [] [92; 36] [92; 92; 36]) with (escape 36 []).
  destruct n as [| n]; [done |].
  assert (Hs : forall old t σ', 36 ∉ t -> Forall is_char t -> call_depth σ' <= DEEPEST_CALL -> c_scan k old t c σ' = Some (t, σ')).
  { intros old t σ' Ht Hc Hd'. rewrite <- (escape_plain 36 t Ht) at 1. by apply scan_escaped. }
  rewrite (Hs [] (escape 36 []) σ) by first [apply not_elem_of_nil | done | constructor]. cbn [mbind option_bind].
  unfold mac_expand. rewrite Hm, substitute_endless, (Hs [] endless σ); [| | | done].
  2: { apply has_false. reflexivity. }
  2: { repeat constructor; cbn; lia. }
  cbn [mbind option_bind]. change (has 37 endless) with true. cbn [mbind option_bind]. subst k. rewrite IH by lia. done.
Qed.
