(* ===== verification/CmlLoops.v ===== *)
(** Loops of CML whose block always comes to its end or to a continue: a [for]
    runs it once for each value, a [count] once for each number. *)
From S2P Require Import Prelude Memory Chix ChixCore ChixEdit ChixSearch ChixParse Str Html Numbers CmlLists Table Vartab CmlState CmlScan CmlParse.

(** ** Words and their places *)

Lemma words_from_after B i s : let '(_, ws) := words_from B i s in Forall (fun q => i < q.1) ws.
Proof.
  revert i. induction s as [| v s IH]; intros i; cbn [words_from]; [constructor |].
  specialize (IH (i + 1)). destruct (words_from B (i + 1) s) as [w ws].
  assert (H : Forall (fun q => i < q.1) ws) by (eapply Forall_impl; [exact IH |]; cbn; lia).
  destruct (is_blank B v); [| done]. case_bool_decide; [done | constructor; [cbn; lia | done]].
Qed.

(** Only the first word can be at the start of the text. *)
Lemma words_later B s j p w : words B s !! S j = Some (p, w) -> 0 < p.
Proof.
  unfold words, words_at. pose proof (words_from_after B 0 s) as H. destruct (words_from B 0 s) as [w0 ws].
  case_bool_decide; intros Hj.
  - by eapply Forall_lookup_1 in Hj; [| exact H].
  - cbn in Hj. by eapply Forall_lookup_1 in Hj; [| exact H].
Qed.

Lemma token_lookup B s j :
  token B (Z.of_nat j + 1) s = match words B s !! j with Some (p, w) => (p, w) | None => (-1, []) end.
Proof.
  unfold token, token_result. rewrite (proj2 (Z.leb_gt _ _)) by lia.
  by replace (Z.to_nat (Z.of_nat j + 1 - 1)) with j by lia.
Qed.

Section loops.
Context {W : Type} `{env : !cml_env W} (k : calls W) (f : cml_file) (num n0 : Z) (fuel : nat) (c : ctx).
Context (body : cml W -> option (stopped W)) (g : cml W -> cml W).
Implicit Type σ : cml W.

Hypothesis Hskip : skip_block f num fuel = Some n0.
Hypothesis Hn0 : n0 < S_INFINITY - 1.
(** A block that comes to its end at line [n0], or to a continue. *)
Hypothesis Hbody : forall σ, exists n ct, body σ = Some (n, false, ct, g σ) /\ (ct = false -> n = n0).

(** Behind the loop. *)
Definition leaves (result : text) (l : locals) σ (a : option (after W)) : Prop :=
  exists nn, a = Some (Goto n0 (mkLocals false (truth l) nn result) σ).

Lemma leave_loop_leaves skipped nn result l σ :
  skipped = true \/ nn = Some n0 -> leaves result l σ (leave_loop f num fuel skipped nn result l σ).
Proof.
  intros H. unfold leave_loop. exists nn. destruct H as [-> | ->]; [| destruct skipped]; rewrite ?Hskip; cbn [mbind option_bind];
    by rewrite (proj2 (Z.leb_gt _ _)) by (unfold S_INFINITY in *; lia).
Qed.

(** One turn of [count] for a number. *)
Definition count_turn (vname : text) σ (i : Z) : cml W := g (set_variable vname (show i) σ).2.

Lemma count_loop_visits vname count1 result l : is_object_ref vname = false -> count1 < 2 ^ 31 - 1 ->
  forall fuel' count hit nn σ, - 2 ^ 31 <= count -> (Z.to_nat (count1 - count + 1) < fuel')%nat ->
  count <= count1 \/ hit = true \/ nn = Some n0 ->
  leaves result l (foldl (count_turn vname) σ (seqZ count (count1 - count + 1)))
    (count_loop f num body fuel fuel' vname count count1 result l hit nn σ).
Proof.
  intros Hv H1. induction fuel' as [| fuel' IH]; intros count hit nn σ H0 Hf Hnn; [lia |]. cbn [count_loop].
  destruct (Z.leb_spec count count1) as [Hc | Hc]; cbn [negb].
  - rewrite seqZ_cons by lia. cbn [foldl]. unfold set_variable at 1. rewrite Hv. cbn [negb].
    destruct (Hbody (set_vars σ (vartab_add (vars σ) vname (show count)).2)) as (n & ct & -> & Hn). cbn [mbind option_bind].
    rewrite i32_small by lia. replace (Z.succ count) with (count + 1) by lia.
    replace (Z.pred (count1 - count + 1)) with (count1 - (count + 1) + 1) by lia.
    assert (Ht : count_turn vname σ count = g (set_vars σ (vartab_add (vars σ) vname (show count)).2))
      by (unfold count_turn, set_variable; by rewrite Hv).
    rewrite Ht. destruct ct; [apply IH; [lia | lia | right; by left] |].
    rewrite (Hn eq_refl), (proj2 (Z.leb_gt _ _)) by (unfold S_INFINITY in *; lia). apply IH; [lia | lia | right; by right].
  - rewrite seqZ_nil by lia. cbn [foldl]. apply leave_loop_leaves. by destruct Hnn as [? | ?]; [lia |].
Qed.

(** One turn of a [for] with one variable. *)
Definition for_turn (x : text) σ (value : text) : cml W := g (set_variable x value σ).2.

Lemma for_loop_visits result l x : word_of blanks 2 result = x -> is_object_ref x = false ->
  forall fuel' j first hit nn σ, (0 < j)%nat -> first <= Z.of_nat j + 1 ->
  (length (words blanks result) - j < fuel')%nat -> hit = true \/ first = Z.of_nat j + 1 \/ nn = Some n0 ->
  leaves result l (set_variable x [] (foldl (for_turn x) σ (drop j (words blanks result)).*2)).2
    (for_loop f num body fuel fuel' first (Z.of_nat j + 1) 1 result l hit nn σ).
Proof.
  intros Hx Ho. induction fuel' as [| fuel' IH]; intros j first hit nn σ Hj Hfirst Hf Hnn; [lia |]. cbn [for_loop].
  change (Z.to_nat 1) with 1%nat. cbn [assign_vars]. rewrite Z.add_0_r, token_lookup. change (0 + 2) with 2. rewrite Hx.
  unfold set_variable at 2. rewrite Ho. destruct (words blanks result !! j) as [[p w] |] eqn:Ew.
  - assert (Hp : 0 < p) by (destruct j as [| j]; [lia | by eapply words_later]).
    pose proof (lookup_lt_Some _ _ _ Ew) as Hlt.
    rewrite (proj2 (Z.ltb_lt _ _)) by done. cbn [negb].
    rewrite (drop_S _ _ _ Ew). cbn [fmap list_fmap map foldl snd].
    destruct (Hbody (set_vars σ (vartab_add (vars σ) x w).2)) as (n & ct & -> & Hn). cbn [mbind option_bind].
    assert (Ht : for_turn x σ w = g (set_vars σ (vartab_add (vars σ) x w).2))
      by (unfold for_turn, set_variable; by rewrite Ho).
    change (map snd (drop (S j) (words blanks result))) with ((drop (S j) (words blanks result)).*2). rewrite Ht.
    replace (Z.of_nat j + 1 + 1) with (Z.of_nat (S j) + 1) by lia.
    destruct ct; [apply IH; [lia | lia | lia | by left] |].
    rewrite (Hn eq_refl), (proj2 (Z.leb_gt _ _)) by (unfold S_INFINITY in *; lia). apply IH; [lia | lia | lia | right; by right].
  - change (0 <? -1) with false. cbn [negb]. rewrite drop_ge by (by apply lookup_ge_None). cbn [fmap list_fmap map foldl].
    assert (Hs : (set_variable x [] σ).2 = set_vars σ (vartab_add (vars σ) x []).2) by (unfold set_variable; by rewrite Ho).
    rewrite Hs. apply leave_loop_leaves. destruct Hnn as [-> | [-> | ->]]; [by left | left; by rewrite Z.eqb_refl, orb_true_r | by right].
Qed.
End loops.
