(* ===== verification/CmlFiles.v ===== *)
(** What the files of the CML directory spell: lines with comments, blank lines
    and continuations are read back as they were meant, and the highest version
    of a file is found. *)
From S2P Require Import Prelude Memory Chix ChixCore ChixEdit ChixSearch ChixParse Str Html Numbers CmlLists Table Vartab CmlState CmlScan CmlLoad.

(** ** The text of a file *)

(** A physical line that is passed over, or a line of CML: the parts that end
    in a backslash, and the end of it. *)
Inductive item :=
| Skip (l : text)
| Line (parts : list text) (end_ : text).

Definition physical (l : text) : text := l ++ [10].
Definition spell_item (i : item) : text :=
  match i with
  | Skip l => physical l
  | Line parts e => flat_map (fun p => physical (p ++ [92])) parts ++ physical e
  end.
Definition spell (items : list item) : text := flat_map spell_item items.

Section items.
Context (B : list Z).

(** Nothing that [readcml] takes away or changes. *)
Definition clean (l : text) : Prop := (10 ∉ l) /\ (9 ∉ l) /\ last l <> Some 13.
(** No comment. *)
Definition starts_line (l : text) : Prop := cval l (non_blank B l) <> 35.
Definition unfinished (p : text) : Prop := p <> [] /\ clean (p ++ [92]).
Definition finished (e : text) : Prop := e <> [] /\ clean e /\ backslash_at B e (length e - 1) = None.

Definition good_item (i : item) : Prop :=
  match i with
  | Skip l => clean l /\ (l = [] \/ cval l (non_blank B l) = 35)
  | Line [] e => finished e /\ starts_line e
  | Line (p :: ps) e => unfinished p /\ starts_line (p ++ [92]) /\ Forall unfinished ps /\ finished e
  end.

(** A part, and an end, without the blanks in front of it. *)
Definition part_of (p : text) : text := drop (Z.to_nat (non_blank B (p ++ [92]))) p.
Definition end_of (e : text) : text := drop (Z.to_nat (non_blank B e)) e.

Definition meant (parts : list text) (e : text) : text :=
  match parts with
  | [] => e
  | p :: ps => p ++ flat_map part_of ps ++ end_of e
  end.
Definition height (i : item) : Z := match i with Skip _ => 1 | Line parts _ => len parts + 1 end.

(** The lines of a file, each with the number of its last physical line. *)
Fixpoint lines_of (items : list item) (n : Z) : list (text * Z) :=
  match items with
  | [] => []
  | Skip _ :: items => lines_of items (n + 1)
  | Line parts e :: items => (meant parts e, i16 (n + height (Line parts e))) :: lines_of items (n + height (Line parts e))
  end.

(** ** Physical lines *)

Lemma next_raw_physical l f : 10 ∉ l -> next_raw (physical l ++ f) = Some (physical l, f).
Proof.
  unfold physical. induction l as [| v l IH]; intros H; [done |]. apply not_elem_of_cons in H as [Hv Hl].
  cbn [app next_raw]. rewrite (proj2 (Z.eqb_neq _ _)) by congruence. by rewrite IH.
Qed.

Lemma chomp_physical l : clean l -> chomp (physical l) = l.
Proof.
  intros (H10 & _ & H13). unfold chomp, physical. rewrite rstrip_snoc. cbn.
  destruct l as [| v l _] using rev_ind; [done |]. rewrite rstrip_snoc. rewrite last_snoc in H13.
  apply not_elem_of_app in H10 as [_ H10]. apply not_elem_of_cons in H10 as [H10 _].
  rewrite !(proj2 (Z.eqb_neq _ _)) by congruence. done.
Qed.

Lemma no_tabs l : 9 ∉ l -> replaced l [9] [32] = l.
Proof.
  rewrite replaced_char. induction l as [| v l IH]; [done |]. intros [Hv Hl]%not_elem_of_cons. cbn [flat_map].
  rewrite (proj2 (Z.eqb_neq _ _)) by congruence. cbn [app]. by rewrite IH.
Qed.

Lemma non_blank_from_range l n : n - 1 <= non_blank_from B l n <= n + len l - 1.
Proof.
  revert n. induction l as [| v l IH]; intros n; cbn [non_blank_from]; [rewrite len_nil; lia |].
  rewrite len_cons. len_pos. destruct (is_blank B v); [| lia]. specialize (IH (n + 1)). lia.
Qed.

Lemma non_blank_range l : l <> [] -> 0 <= non_blank B l < len l.
Proof.
  intros Hl. unfold non_blank. destruct l as [| v l]; [done |]. cbn [non_blank_from]. rewrite len_cons. len_pos.
  destruct (is_blank B v); [| lia]. pose proof (non_blank_from_range l (0 + 1)). lia.
Qed.

Lemma backslash_end p : p <> [] -> backslash_at B (p ++ [92]) (length (p ++ [92]) - 1) = Some (len p).
Proof.
  intros Hp. rewrite length_app. cbn [length]. replace (length p + 1 - 1)%nat with (length p) by lia.
  destruct (length p) as [| n] eqn:E; [by destruct p |]. cbn [backslash_at]. rewrite <- E.
  change (Z.of_nat (length p)) with (len p). by rewrite cval_app.
Qed.

(** ** Reading *)

Section reading.
Context (f line : text) (success : bool) (n : Z).

Lemma read_skip fuel l is_cont :
  clean l -> l = [] \/ (is_cont = false /\ cval l (non_blank B l) = 35) ->
  read_lines (S fuel) B (physical l ++ f) line is_cont success n = read_lines fuel B f line is_cont success (n + 1).
Proof.
  intros Hc Hl. cbn [read_lines]. rewrite next_raw_physical by apply Hc. cbv zeta. rewrite chomp_physical, no_tabs by (done || apply Hc).
  destruct Hl as [-> | [-> Hl]]; [done |]. destruct (len l =? 0); [done |]. cbn [negb andb]. by rewrite Hl.
Qed.

Lemma read_part fuel p (is_cont : bool) :
  unfinished p -> (is_cont = true \/ starts_line (p ++ [92])) ->
  read_lines (S fuel) B (physical (p ++ [92]) ++ f) line is_cont success n =
    read_lines fuel B f (line ++ if is_cont then part_of p else p) true true (n + 1).
Proof.
  intros [Hp Hc] Hs. cbn [read_lines]. rewrite next_raw_physical by apply Hc. cbv zeta.
  rewrite chomp_physical, no_tabs by (done || apply Hc).
  rewrite (proj2 (Z.eqb_neq _ _)) by (rewrite len_app, len_cons, len_nil; len_pos; lia).
  assert (Hn : negb is_cont && (cval (p ++ [92]) (non_blank B (p ++ [92])) =? 35) = false).
  { destruct Hs as [-> | Hs]; [done |]. apply andb_false_intro2. by apply Z.eqb_neq. }
  rewrite Hn, backslash_end by done. f_equal. f_equal. unfold csub, part_of.
  assert (Hr : 0 <= non_blank B (p ++ [92]) < len p + 1).
  { pose proof (non_blank_range (p ++ [92])) as H. rewrite len_app in H. apply H. by destruct p. }
  set (start := if is_cont then non_blank B (p ++ [92]) else 0).
  assert (Hst : 0 <= start <= len p) by (subst start; destruct is_cont; len_pos; lia).
  unfold ALLCHARS. rewrite (proj2 (Z.eqb_neq _ _)) by lia.
  rewrite drop_app_le by (unfold len in Hst; lia).
  replace (Z.to_nat (len p - start)) with (length (drop (Z.to_nat start) p)) by (rewrite length_drop; unfold len in *; lia).
  rewrite take_app_length. by destruct is_cont.
Qed.

Lemma read_end fuel e (is_cont : bool) :
  finished e -> (is_cont = true \/ starts_line e) ->
  read_lines (S fuel) B (physical e ++ f) line is_cont success n =
    Some (Some (line ++ if is_cont then end_of e else e), f, n + 1).
Proof.
  intros (He & Hc & Hb) Hs. cbn [read_lines]. rewrite next_raw_physical by apply Hc. cbv zeta.
  rewrite chomp_physical, no_tabs by (done || apply Hc).
  rewrite (proj2 (Z.eqb_neq _ _)) by (destruct e; [done | rewrite len_cons; len_pos; lia]).
  assert (Hn : negb is_cont && (cval e (non_blank B e) =? 35) = false).
  { destruct Hs as [-> | Hs]; [done |]. apply andb_false_intro2. by apply Z.eqb_neq. }
  rewrite Hn, Hb, csub_from. by destruct is_cont.
Qed.
End reading.

Lemma read_continued ps : forall fuel e f line n,
  Forall unfinished ps -> finished e -> (length ps < fuel)%nat ->
  read_lines fuel B (flat_map (fun p => physical (p ++ [92])) ps ++ physical e ++ f) line true true n =
    Some (Some (line ++ flat_map part_of ps ++ end_of e), f, n + len ps + 1).
Proof.
  induction ps as [| p ps IH]; intros fuel e f line n Hps He Hf; (destruct fuel as [| fuel]; [cbn in Hf; lia |]).
  - cbn [flat_map app]. rewrite read_end by (done || by left). by rewrite len_nil, Z.add_0_r.
  - apply Forall_cons in Hps as [Hp Hps]. cbn [flat_map length] in *. rewrite <- app_assoc, read_part by (done || by left).
    rewrite IH by (done || lia). rewrite len_cons, <- !app_assoc. f_equal. f_equal. lia.
Qed.

Lemma length_spell_parts (ps : list text) : (length ps <= length (flat_map (fun p => physical (p ++ [92%Z])) ps))%nat.
Proof.
  induction ps as [| p ps IH]; [done |]. cbn [flat_map length]. rewrite length_app.
  assert (1 <= length (physical (p ++ [92%Z])))%nat by (unfold physical; rewrite length_app; cbn [length]; lia). lia.
Qed.

(** [readcml] passes over what is to be skipped and reads a line. *)
Lemma read_line fuel parts e f n :
  good_item (Line parts e) -> (length parts < fuel)%nat ->
  read_lines fuel B (spell_item (Line parts e) ++ f) [] false false n =
    Some (Some (meant parts e), f, n + height (Line parts e)).
Proof.
  intros Hg Hf. destruct fuel as [| fuel]; [lia |]. unfold spell_item, height, good_item in *. destruct parts as [| p ps].
  - destruct Hg as [He Hs]. cbn [flat_map app]. rewrite read_end by (done || by right). by rewrite len_nil.
  - destruct Hg as (Hp & Hs & Hps & He). cbn [flat_map length] in *. rewrite <- !app_assoc, read_part by (done || by right).
    rewrite read_continued by (done || lia). cbn [meant app]. rewrite len_cons. f_equal. f_equal. lia.
Qed.
End items.

(** The first line in a file, what is behind it, and the number of physical
    lines so far. *)
Fixpoint first_of (B : list Z) (items : list item) (n : Z) : option text * text * Z :=
  match items with
  | [] => (None, [], n)
  | Skip _ :: items => first_of B items (n + 1)
  | Line parts e :: items => (Some (meant B parts e), spell items, n + height (Line parts e))
  end.

Lemma readcml_first B items n : Forall (good_item B) items -> readcml B (spell items) n = Some (first_of B items n).
Proof.
  intros Hg. unfold readcml. assert (H : forall fuel, (length (spell items) < fuel)%nat ->
    read_lines fuel B (spell items) [] false false n = Some (first_of B items n)); [| apply H; lia].
  revert n. induction Hg as [| i items Hi Hg IH]; intros n fuel Hf.
  { destruct fuel; [cbn in Hf; lia | done]. }
  change (spell (i :: items)) with (spell_item i ++ spell items) in *. rewrite length_app in Hf. destruct i as [l | parts e].
  - destruct Hi as [Hc Hl]. destruct fuel as [| fuel]; [lia |]. cbn [spell_item] in *.
    rewrite read_skip by (done || (destruct Hl; [by left | by right])). apply IH.
    unfold physical in Hf. rewrite length_app in Hf. cbn [length] in Hf. lia.
  - rewrite read_line; [done | done |]. cbn [spell_item] in Hf. rewrite length_app in Hf.
    pose proof (length_spell_parts parts). lia.
Qed.

(** No line that has another file loaded in its place. *)
Definition no_include (B : list Z) (i : item) : Prop :=
  match i with Skip _ => True | Line parts e => take 8 (word_of B 1 (meant B parts e)) <> bytes "$include" end.

Lemma load_items {W} `{env : !cml_env W} (k : calls W) c fname items : forall fuel n ls (σ : cml W),
  Forall (good_item blanks) items -> Forall (no_include blanks) items ->
  len ls + len (lines_of blanks items n) <= MAXCML - 5 -> (length items < fuel)%nat ->
  load_lines k fuel c fname (spell items) n ls σ = Some (fname, ls ++ lines_of blanks items n, σ).
Proof.
  induction items as [| i items IH]; intros fuel n ls σ Hg Hn Hl Hf; (destruct fuel as [| fuel]; [lia |]).
  - cbn [lines_of length] in *. rewrite len_nil in Hl. cbn [load_lines]. rewrite (proj2 (Z.ltb_ge _ _)) by lia.
    rewrite readcml_first by done. cbn. by rewrite app_nil_r.
  - cbn [length] in Hf. apply Forall_cons in Hg as Hg'. destruct Hg' as [Hi Hgs]. apply Forall_cons in Hn as [Hni Hns].
    destruct i as [l | parts e].
    + transitivity (load_lines k (S fuel) c fname (spell items) (n + 1) ls σ).
      * cbn [load_lines]. rewrite !readcml_first by done. done.
      * cbn [lines_of] in *. apply IH; [done | done | done | lia].
    + cbn [lines_of] in *. rewrite len_cons in Hl. len_pos. cbn [load_lines]. rewrite (proj2 (Z.ltb_ge _ _)) by lia.
      rewrite readcml_first by done. cbn [first_of mbind option_bind]. rewrite bool_decide_eq_false_2 by exact Hni. cbn [negb].
      rewrite IH; [by rewrite <- app_assoc | done | done | rewrite len_app, len_cons, len_nil; lia | lia].
Qed.

(** ** Versions *)

Lemma highest_spec there n :
  (forall m, (highest there n < m <= n)%nat -> there m = false) /\ (highest there n <= n)%nat /\
  (highest there n <> 0%nat -> there (highest there n) = true).
Proof.
  induction n as [| n IH]; cbn [highest]; [split; [lia | done] |]. destruct (there (S n)) eqn:E.
  - split_and!; [lia | lia | done].
  - destruct IH as (H1 & H2 & H3). split_and!; [| lia | done].
    intros m Hm. destruct (decide (m = S n)) as [-> | ?]; [done | apply H1; lia].
Qed.

Lemma splitcml_join path dir file : splitcml path = Some (dir, file) -> path = dir ++ [47] ++ file /\ 47 ∉ file.
Proof.
  revert dir. induction path as [| v path IH]; intros dir; [done |]. cbn [splitcml]. destruct (splitcml path) as [[d f] |] eqn:E.
  - intros [= <- <-]. destruct (IH d eq_refl) as [-> H]. done.
  - destruct (v =? 47) eqn:Ev; [| done]. intros [= <- <-]. apply Z.eqb_eq in Ev as ->. split; [done |].
    clear IH. induction path as [| w path IH]; [apply not_elem_of_nil |]. cbn [splitcml] in E.
    destruct (splitcml path) as [[d f] |]; [done |]. destruct (w =? 47) eqn:Ew; [done |].
    apply not_elem_of_cons. split; [lia | by apply IH].
Qed.

(** ** Deciding what a good file is *)

#[export] Instance clean_dec l : Decision (clean l).
Proof. unfold clean. apply _. Defined.
#[export] Instance unfinished_dec p : Decision (unfinished p).
Proof. unfold unfinished. apply _. Defined.
#[export] Instance finished_dec B e : Decision (finished B e).
Proof. unfold finished. apply _. Defined.
#[export] Instance starts_line_dec B l : Decision (starts_line B l).
Proof. unfold starts_line. apply _. Defined.
#[export] Instance good_item_dec B i : Decision (good_item B i).
Proof. destruct i as [l | [| p ps] e]; cbn; apply _. Defined.
#[export] Instance no_include_dec B i : Decision (no_include B i).
Proof. destruct i; cbn; apply _. Defined.
