(* ===== verification/CmlTheorems.v ===== *)
(** The properties of the CML interpreter: evaluation of text, of calls and of
    macros, blocks and loops against the reference interpreter, termination,
    and what every evaluation leaves as it was. *)
From S2P Require Import Prelude Memory Chix ChixCore ChixEdit ChixSearch ChixParse Str Html Numbers CmlLists Table Vartab CmlState CmlScan CmlLoad CmlParse CmlProg CmlEval CmlInv CmlTerm CmlLoops CmlFiles.

(** ** Variables in a line *)

Lemma words_from_run B i s : Forall (fun v => is_blank B v = false) s -> words_from B i s = (s, []).
Proof.
  intros H. revert i. induction H as [| v s Hv Hs IH]; intros i; [done |]. cbn [words_from]. by rewrite IH, Hv.
Qed.

Lemma word_of_run B s : s <> [] -> Forall (fun v => is_blank B v = false) s -> word_of B 1 s = s.
Proof.
  intros Hne H. unfold word_of, token, token_result, words, words_at. cbn [Z.leb Z.compare].
  rewrite words_from_run by done. by rewrite bool_decide_eq_false_2.
Qed.

(** A name of a variable as [func_scan] reads it. *)
Definition var_name (B : list Z) (x : text) : Prop :=
  x <> [] /\ Forall (fun v => goodname v = true /\ is_blank B v = false) x.

Lemma good_balanced x : Forall (fun v => goodname v = true) x -> balanced 0 x.
Proof.
  induction 1 as [| v x Hv Hx IH]; [done |]. cbn [balanced]. unfold goodname, isalnum in Hv.
  rewrite !(proj2 (Z.eqb_neq _ _)) by lia. done.
Qed.

Section variables.
Context {W : Type} `{env : !cml_env W} (k : calls W).
Implicit Type σ : cml W.

Lemma func_value_variable x c σ :
  var_name blanks x -> prot_ok (prot σ) -> func_value k [] x c σ = Some (default [] (vars_of (vars σ) !! x), σ).
Proof.
  intros [Hne Hx] [Hl Ht]. unfold func_value.
  assert (Hp : exists p, prot_top (prot σ) = Some p).
  { unfold prot_top, zget. replace (top (prot σ) <? 0) with false by lia. apply lookup_lt_is_Some. unfold len in Hl. unfold MAXPROT in *. lia. }
  destruct Hp as [p ->]. cbn [mbind option_bind]. change (take 99 []) with (@nil Z).
  change (pure_function blanks [] x) with (@None (option text)). cbv zeta.
  rewrite bool_decide_eq_true_2 by done. unfold variable_value.
  rewrite word_of_run by (done || (eapply Forall_impl; [exact Hx |]; by intros v [_ ?])).
  assert (Ho : is_object x = false).
  { destruct Hx as [| v x' [Hv _] _]; [done |]. unfold is_object. change (cval (v :: x') 0) with v.
    apply Z.eqb_neq. unfold goodname, isalnum in Hv. lia. }
  by rewrite Ho, vartab_is_lookup.
Qed.
End variables.

(** Variables set one after the other. *)
Definition set_all {W} `{!cml_env W} (l : list (text * text)) (σ : cml W) : cml W :=
  foldl (fun σ '(n, v) => (set_variable n v σ).2) σ l.

Lemma var_name_chars B x : var_name B x -> good_name x.
Proof. intros [Hne Hx]. split; [done |]. eapply Forall_impl; [exact Hx |]. intros v [Hv _]. by apply goodname_char. Qed.

Lemma var_name_plain B x : var_name B x -> is_object_ref x = false.
Proof.
  intros [Hne Hx]. destruct Hx as [| v x [Hv _] _]; [done |]. unfold is_object_ref, is_object. change (cval (v :: x) 0) with v.
  unfold goodname, isalnum in Hv. by rewrite !(proj2 (Z.eqb_neq _ _)) by lia.
Qed.

Lemma set_all_vars {W} `{env : !cml_env W} l (σ : cml W) :
  Forall (fun p => var_name blanks p.1) l -> set_all l σ = set_vars σ (vartab_adds (vars σ) l).
Proof.
  intros Hl. revert σ. induction Hl as [| [n v] l Hn Hl IH]; intros σ; [by destruct σ |].
  cbn [set_all foldl]. change (foldl _ ?s l) with (set_all l s). rewrite IH. unfold set_variable.
  by rewrite (var_name_plain blanks n) by done.
Qed.

(** ** A server for examples *)

(** One without a data base or objects, with one function that evaluates its
    argument again, and a few files. *)
Definition small_items : list item := [
  Skip (bytes "# a comment"); Line [bytes "set x 1 "] (bytes "   2"); Skip []; Line [] (bytes "for i in $(x)");
  Line [] ([34] ++ bytes "i=$(i)"); Line [] (bytes "end")].
Definition small_files : list (text * text) := [
  (bytes "/cml/all.2/page.i", spell small_items);
  (bytes "/cml/all/page.i", bytes "return")].
Definition small_env : cml_env unit := {|
  blanks := [32; 9; 10];
  foreign k what arg c σ :=
    if bool_decide (what = bytes "array_eval") then '(t, σ) ← c_scan k [] arg c σ; Some (Some t, σ) else Some (None, σ);
  ob_value _ σ := ([], errtext σ, tt);
  ob_set _ _ σ := (false, errtext σ, tt);
  convert_and_write _ _ := (true, tt);
  cache_include := false;
  cml_path := bytes "/cml";
  sysisdir path _ := bool_decide (path = bytes "/cml/all.2") || bool_decide (path = bytes "/cml/all.3");
  syscheck path _ := bool_decide (path ∈ small_files.*1);
  fopen path _ := snd <$> (list_find (fun p => p.1 = path) small_files ≫= fun q => Some q.2) |}.
#[local] Existing Instance small_env.

Definition small_state : cml unit :=
  mkCml a_mak_vartab a_mak_vartab (vartab_adds a_mak_vartab [(bytes "m", endless); (bytes "b", bytes "<b>@@</b>")])
    [] [] prot_init false 0 None true [] 0 true [] []
    (mkCache a_mak_vartab a_mak_vartab ∅) tt.

(** ** Evaluation of text *)

(** C36: text in which every % and every $ has a backslash in front is, once
    macros and functions have been looked for, the text without the
    backslashes, and nothing else happens. *)
Theorem escaped_text_is_itself {W} `{env : !cml_env W} (k : calls W) old t c (σ : cml W) :
  Forall is_char t -> call_depth σ <= DEEPEST_CALL ->
  eval_line k old (escape 37 (escape 36 t)) c σ = Some (t, σ).
Proof.
  intros Ht Hd. unfold eval_line. rewrite mac_escaped by (by apply escape_chars). cbn [mbind option_bind]. by apply scan_escaped.
Qed.

Lemma escaped_text_is_itself_witness :
  eval_line (interp 1) [] (bytes "a\%m() costs 5\$") (mkCtx [] []) small_state = Some (bytes "a%m() costs 5$", small_state).
Proof.
  apply (escaped_text_is_itself (interp 1) [] (bytes "a%m() costs 5$")); [| done].
  by apply (bool_decide_unpack _); vm_compute.
Defined.

(** C28: in a line of text with one call of a function in it the call is
    replaced by what the function gives for its arguments, which are scanned
    themselves first when they have a $ in them; the text around the call is
    kept, whatever it has been escaped from. *)
Theorem func_scan_replaces_call {W} `{env : !cml_env W} (k : calls W) old u name args v c (σ : cml W) a σ1 t σ2 :
  call_depth σ <= DEEPEST_CALL -> Forall is_char u -> last u <> Some 92 -> Forall is_char v ->
  Forall (fun x => goodname x = true) name -> plain_name name -> Forall is_char args -> balanced 0 args ->
  scan_args k args c (set_depth σ (call_depth σ + 1)) = Some (a, σ1) ->
  func_value k name a c σ1 = Some (t, σ2) ->
  recursive_evaluation σ2 = false \/ 36 ∉ t ->
  func_scan k old (escape 36 u ++ call_text 36 name args ++ escape 36 v) c σ =
    Some (u ++ t ++ v, set_depth σ2 (call_depth σ2 - 1)).
Proof. apply scan_call. Qed.

Lemma func_scan_replaces_call_witness :
  func_scan (interp 1) [] (bytes "a $not($empty()) b") (mkCtx [] []) small_state = Some (bytes "a 0 b", small_state).
Proof.
  apply (func_scan_replaces_call (interp 1) [] (bytes "a ") (bytes "not") (bytes "$empty()") (bytes " b") (mkCtx [] []) small_state
    (bytes "1") (set_depth small_state 1) (bytes "0") (set_depth small_state 1)).
  all: try done.
  all: try (by apply (bool_decide_unpack _); vm_compute).
Defined.

(** C27: variables hold what they were set to: after any sequence of variables
    set, the call without a name in a line is the value its variable was given
    last, or before, or nothing. *)
Theorem variable_in_line {W} `{env : !cml_env W} n old u x v c (l : list (text * text)) (σ : cml W) :
  in_bounds σ -> names_ok (slots (vars σ)) -> call_depth σ <= DEEPEST_CALL -> recursive_evaluation σ = false ->
  Forall (fun p => var_name blanks p.1) l -> var_name blanks x ->
  Forall is_char u -> last u <> Some 92 -> Forall is_char v ->
  c_scan (interp (S n)) old (escape 36 u ++ call_text 36 [] x ++ escape 36 v) c (set_all l σ) =
    Some (u ++ default [] (((list_to_map (reverse l) : gmap text text) ∪ vars_of (vars σ)) !! x) ++ v, set_all l σ).
Proof.
  intros (Hp & Hvt & _) Hn Hd Hrec Hl Hx Hu Hlast Hv. rewrite set_all_vars by done.
  destruct (vartab_adds_ok l (vars σ) Hvt Hn) as (_ & _ & Hvars).
  { eapply Forall_impl; [exact Hl |]. intros p. apply var_name_chars. }
  rewrite lookup_union. replace (union (list_to_map (reverse l) !! x) (vars_of (vars σ) !! x))
    with (vars_of (vartab_adds (vars σ) l) !! x) by (rewrite Hvars, foldl_insert_map; by destruct (list_to_map _ !! x), (vars_of _ !! x)).
  set (σ1 := set_vars σ (vartab_adds (vars σ) l)).
  destruct (var_name_chars blanks x Hx) as [Hne Hc]. assert (Hg : Forall (fun v => goodname v = true) x).
  { destruct Hx as [_ Hx]. eapply Forall_impl; [exact Hx |]. by intros ? [? _]. }
  assert (H36 : 36 ∉ x) by (intros H; rewrite Forall_forall in Hg; by apply Hg in H).
  change (c_scan (interp (S n))) with (func_scan (interp n)). unfold func_scan.
  rewrite (scan_call (interp n) (func_value (interp n)) c old u [] x v σ1 x (set_depth σ1 (call_depth σ1 + 1))
    (default [] (vars_of (vartab_adds (vars σ) l) !! x)) (set_depth σ1 (call_depth σ1 + 1))); try done.
  - by rewrite set_depth_back.
  - by apply good_balanced.
  - unfold scan_args. by rewrite (proj2 (has_false 36 x)).
  - by apply func_value_variable.
  - by left.
Qed.

Definition small_sets : list (text * text) := [(bytes "x", bytes "1"); (bytes "who", bytes "$5"); (bytes "x", bytes "3")].

Lemma variable_in_line_witness :
  c_scan (interp 1) [] (bytes "owes $(who)\$") (mkCtx [] []) (set_all small_sets small_state) =
    Some (bytes "owes $5$", set_all small_sets small_state).
Proof.
  apply (variable_in_line 0 [] (bytes "owes ") (bytes "who") (bytes "$") (mkCtx [] []) small_sets small_state).
  all: try done.
  all: try (by apply (bool_decide_unpack _); vm_compute).
Defined.

(** C29: in a line of text with one call of a macro in it the call is replaced
    by the text of the macro with the arguments in it, scanned for functions
    and, as far as there are any, for macros again. *)
Theorem func_mac_replaces_call {W} `{env : !cml_env W} (k : calls W) u name args v c (σ : cml W) a σ1 t σ2 :
  Forall is_char u -> last u <> Some 92 -> Forall is_char v ->
  name <> [] -> Forall (fun x => goodmac x = true) name -> 0 <= vartab_is (macs σ) name -> Forall is_char args -> balanced 0 args ->
  mac_args k args c σ = Some (a, σ1) -> mac_value k name a c σ1 = Some (t, σ2) ->
  func_mac k (escape 37 u ++ call_text 37 name args ++ escape 37 v) c σ = Some (u ++ t ++ v, σ2).
Proof. apply mac_call. Qed.

Lemma func_mac_replaces_call_witness :
  func_mac (interp 2) (bytes "see %b(100\% of $if(1 all some)).") (mkCtx [] []) small_state =
    Some (bytes "see <b>100% of all</b>.", small_state).
Proof.
  apply (func_mac_replaces_call (interp 2) (bytes "see ") (bytes "b") (bytes "100\% of $if(1 all some)") (bytes ".") (mkCtx [] []) small_state
    (bytes "100% of all") small_state (bytes "<b>100% of all</b>") small_state).
  all: try done.
  all: try (by apply (bool_decide_unpack _); vm_compute).
Defined.

(** ** Termination *)

(** A loop over [line] whose result is [result]: within twice the length of
    the line it comes to the end of the line, or to a closing parenthesis where
    a call is to be evaluated that gives nothing. *)
Definition ends_unless_call {W} (step : text -> scan -> Z -> cml W -> option (scan * cml W)) (call : scan -> cml W -> option (scan * cml W))
    (line : text) (σ : cml W) (result : option (text * cml W)) : Prop :=
  exists n r σ', (n <= 2 * length line)%nat /\ runs line step n (scan_start, σ) (r, σ') /\
    if cval line (s_pos r) =? 0 then exists σ'', result = Some (s_result r, σ'')
    else closes_call line r /\ call r σ' = None /\ result = None.

(** C35: the loops of func_scan and func_mac end, for every text and every
    state.  Although a bad name is read a second time as text, each makes at
    most twice as many turns as the text has characters, and then is at its
    end; the only other way is a turn at a closing parenthesis that evaluates
    a call, where what evaluates calls ([k], the interpreter one level
    down) gives nothing.  So only calls inside can keep a scan from ending
    (as in C38, a macro that is its own text), and a text without a closing
    parenthesis is always scanned to its end.  Beyond the greatest depth of
    calls func_scan ends at once. *)
Theorem scan_ends_unless_call {W} `{env : !cml_env W} (k : calls W) old line c (σ : cml W) :
  (if DEEPEST_CALL <? call_depth σ then exists t, func_scan k old line c σ = Some (t, σ)
   else ends_unless_call (scan_step k (func_value k) c) (call_function k (func_value k) c) line
          (set_depth σ (call_depth σ + 1)) (func_scan k old line c σ)) /\
  ends_unless_call (mac_step k c) (call_macro k c) line σ (func_mac k line c σ).
Proof.
  split.
  - unfold func_scan, scan_with. destruct (_ <? _); [by eexists |]. set (σ1 := set_depth σ _).
    destruct (scan_stops k (func_value k) c line σ1) as (n & r & σ' & Hn & Hrun & H). exists n, r, σ'. split_and!; [done.. |].
    destruct (_ =? 0); [rewrite H; by eexists |]. destruct H as (H1 & H2 & ->). done.
  - unfold func_mac. destruct (mac_stops k c line σ) as (n & r & σ' & Hn & Hrun & H). exists n, r, σ'. split_and!; [done.. |].
    destruct (_ =? 0); [rewrite H; by eexists |]. destruct H as (H1 & H2 & ->). done.
Qed.

(** Bad names are read twice: these eight characters take fifteen turns. *)
Example bad_name_twice :
  let loop fuel := text_loop (scan_step (interp 1) (func_value (interp 1)) (mkCtx [] [])) fuel (bytes "$abcdef!") scan_start small_state in
  loop 15%nat = None /\ (s_result ∘ fst) <$> loop 16%nat = Some (bytes "$abcdef!").
Proof. split; vm_compute; reflexivity. Qed.

(** C38: macros inside macros need not end: for a macro whose text is a call of
    itself no depth of the interpreter is enough, since only the depth of
    scans for functions is counted, and they are over when the next macro
    begins. *)
Theorem macro_never_ends {W} `{env : !cml_env W} n c (σ : cml W) :
  call_depth σ <= DEEPEST_CALL -> vars_of (macs σ) !! bytes "m" = Some (bytes "%m()") ->
  c_mac (interp n) (bytes "%m()") c σ = None.
Proof. intros Hd Hm. apply endless_none; [done |]. by rewrite vartab_is_lookup. Qed.

Lemma macro_never_ends_witness : c_mac (interp 1000) (bytes "%m()") (mkCtx [] []) small_state = None.
Proof. by apply (macro_never_ends 1000 (mkCtx [] []) small_state). Defined.

(** ** Blocks *)

(** The search for the end of a block, which calls itself for blocks
    inside, finds the line where as many blocks have been closed as opened, or
    the end of the file, in as many steps as there are lines. *)
Theorem skip_cml_counts B ls num fuel :
  0 <= num <= len ls -> len ls - num < Z.of_nat fuel ->
  skip_cml fuel B ls num = Some (find_end (kinds B ls num) num 0).
Proof.
  intros H Hf. rewrite skip_cml_find by lia. destruct (len ls <=? num) eqn:E; [| done]. f_equal.
  unfold kinds. rewrite drop_ge by (unfold len in *; lia). cbn [map find_end]. lia.
Qed.

Definition small_block : list text := map bytes ["x"; "if 1"; "end"; "while 0"; "if"; "end"; "end"; "end"; "end"]%string.

Lemma skip_cml_counts_witness : skip_cml 9 [32] small_block 1 = Some (find_end (kinds [32] small_block 1) 1 0).
Proof. by apply (skip_cml_counts [32] small_block 1 9). Defined.

Example skip_small : skip_cml 9 [32] small_block 1 = Some 7.
Proof. reflexivity. Qed.

(** C6: [parse_cml], with its line numbers, flags for break and continue and
    searches for the end of a block, runs a file as the tree of statements its
    lines spell: if the reference interpreter ends on the tree, [parse_cml] ends
    on the lines, in the same state, behind the last line or where the file was
    left, for any fuel that is larger by the number of lines. *)
Theorem parse_cml_refines {W} `{env : !cml_env W} (k : calls W) name c p fuel fuel' (σ : cml W) r :
  good_prog blanks p = true -> len (sources p) < S_INFINITY - 1 ->
  run k name c fuel p run_start σ = Some r -> (fuel + S (length (sources p)) <= fuel')%nat ->
  exists o, parse_cml k fuel' (file_of name (sources p)) 0 c σ = Some o /\ stops (len (sources p)) r o.
Proof.
  intros Hg Hl Hr Hf. destruct (run_parse k c name (sources p) (fuel' - fuel) Hl) with (fuel := fuel) (p := p) (pre := @nil (text * Z))
    (post := @nil (text * Z)) (l := run_start) (nn := @None Z) (σ := σ) (r := r) as (o & Ho & Hs).
  - unfold len. lia.
  - by rewrite app_nil_r.
  - done.
  - done.
  - done.
  - exists o. unfold parse_cml. replace fuel' with (fuel + (fuel' - fuel))%nat by lia. split; [exact Ho | exact Hs].
Qed.

Definition line (s : string) (n : Z) : text * Z := (map (fun v => if v =? 39 then 34 else v) (bytes s), n).

(** A page with loops, branches, break and continue. *)
Definition small_page : list stmt := [
  SLine (line "set x 5" 1);
  SBlock (line "for a b in 1 2 3 4" 2) [
    SBlock (line "if $equal($(a) 1)" 3) [SLine (line "'first" 4)] (line "end" 5);
    SBlock (line "elif $equal($(a) 3)" 6) [SLine (line "'third $(b)" 7)] (line "end" 8);
    SBlock (line "else" 9) [SLine (line "'no" 10)] (line "end" 11)] (line "end" 12);
  SBlock (line "count i 1 9" 13) [
    SBlock (line "if $equal($(i) 2)" 14) [SLine (line "continue" 15)] (line "end" 16);
    SBlock (line "if $equal($(i) $(x))" 17) [SLine (line "break" 18)] (line "end" 19);
    SLine (line "'i=$(i)" 20)] (line "end" 21);
  SLine (line "return" 22); SLine (line "'never" 23)].

Lemma parse_cml_refines_witness :
  exists r o, run (interp 40) [] (mkCtx [] []) 40 small_page run_start small_state = Some r /\
    parse_cml (interp 40) 64 (file_of [] (sources small_page)) 0 (mkCtx [] []) small_state = Some o /\
    stops (len (sources small_page)) r o.
Proof.
  destruct (run (interp 40) [] (mkCtx [] []) 40 small_page run_start small_state) as [r |] eqn:E;
    [| exfalso; revert E; vm_compute; discriminate].
  exists r. destruct (parse_cml_refines (interp 40) [] (mkCtx [] []) small_page 40 64 small_state r) as (o & Ho & Hs);
    [reflexivity | reflexivity | exact E | vm_compute; lia |].
  exists o. exact (conj eq_refl (conj Ho Hs)).
Defined.

Example small_page_out :
  (fun '(n, b, ct, σ) => (n, b, ct, out σ)) <$> parse_cml (interp 40) 64 (file_of [] (sources small_page)) 0 (mkCtx [] []) small_state
  = Some (S_INFINITY - 1, false, false, bytes "first" ++ [10] ++ bytes "third 4" ++ [10] ++ bytes "i=1" ++ [10] ++ bytes "i=3" ++ [10]
      ++ bytes "i=4" ++ [10]).
Proof. vm_compute. reflexivity. Qed.

(** ** Loops *)

(** C30: [for x in v1 ... vn] (or without the [in]) runs its block, which comes to its end or
    to a continue, once for each value, in order, with the variable set to it;
    afterwards the variable is empty and the file goes on behind the block.
    No fuel beyond one turn for each word of the line is needed. *)
Theorem for_visits_values {W} `{env : !cml_env W} (k : calls W) f num n0 fuel c body (g : cml W -> cml W) line l (σ : cml W) value σ1 i x values :
  let result := clean_newlines value in
  eval_line k (p_result l) line c σ = Some (value, σ1) ->
  tablefind blanks (Some result) (Some (bytes "in")) = Some i -> i = 2 \/ i < 0 ->
  word_of blanks 2 result = x -> is_object_ref x = false ->
  (drop (if i <? 0 then 2 else 3) (words blanks result)).*2 = values ->
  skip_block f num fuel = Some n0 -> n0 < S_INFINITY - 1 -> (length (words blanks result) <= fuel)%nat ->
  (forall σ, exists n ct, body σ = Some (n, false, ct, g σ) /\ (ct = false -> n = n0)) ->
  exists l', for_stmt k f num body fuel c line l σ =
    Some (Goto n0 l' (set_variable x [] (foldl (fun σ v => g (set_variable x v σ).2) σ1 values)).2).
Proof.
  intros result He Hi Hi2 Hx Ho <- Hskip Hn0 Hf Hbody. unfold for_stmt. rewrite He. cbn [mbind option_bind]. fold result.
  rewrite Hi. cbn [mbind option_bind]. destruct Hi2 as [-> | Hi2].
  - change (2 <? 0) with false. cbn iota. change (2 + 1 - 2 <=? 0) with false. cbn iota.
    destruct (for_loop_visits f num n0 fuel body g Hskip Hn0 Hbody result l x Hx Ho fuel 3 4 false (newnum l) σ1) as [nn H];
      [lia | lia | | right; by left |]. 2: { eexists. exact H. }
    destruct fuel; [cbn in Hskip; done | lia].
  - rewrite (proj2 (Z.ltb_lt _ _)) by done. change (1 <=? 0) with false. cbn iota.
    destruct (for_loop_visits f num n0 fuel body g Hskip Hn0 Hbody result l x Hx Ho fuel 2 3 false (newnum l) σ1) as [nn H];
      [lia | lia | | right; by left |]. 2: { eexists. exact H. }
    destruct fuel; [cbn in Hskip; done | lia].
Qed.

(** The block of an example: a line of text. *)
Definition small_body (σ : cml unit) : cml unit := set_target σ true (out σ ++ [43]).

Lemma for_visits_values_witness :
  exists l', for_stmt (interp 2) (mkFile [] [[]; bytes "end"] [1; 2]) 0 (fun σ => Some (1, false, false, small_body σ)) 6 (mkCtx [] [])
      (bytes "for x in 1 2") locals_start small_state =
    Some (Goto 1 l' (set_variable (bytes "x") [] (foldl (fun σ v => small_body (set_variable (bytes "x") v σ).2) small_state
      [bytes "1"; bytes "2"])).2).
Proof.
  apply (for_visits_values (interp 2) (mkFile [] [[]; bytes "end"] [1; 2]) 0 1 6 (mkCtx [] []) (fun σ => Some (1, false, false, small_body σ)) small_body
    (bytes "for x in 1 2") locals_start small_state (bytes "for x in 1 2") small_state 2 (bytes "x") [bytes "1"; bytes "2"]); try done.
  - by left.
  - vm_compute; lia.
  - intros σ. by exists 1, false.
Defined.

(** [count x a b] runs its block, which comes to its end or to a continue,
    once for each number from a to b, in order, with the variable set to it,
    and not at all when a is greater; then the file goes on behind the block.
    It ends for every b below the greatest integer. *)
Theorem count_visits_numbers {W} `{env : !cml_env W} (k : calls W) f num n0 fuel c body (g : cml W -> cml W) line l (σ : cml W) value σ1 a b x :
  let result := clean_newlines value in
  eval_line k (p_result l) line c σ = Some (value, σ1) ->
  count_bounds result = (a, b) -> - 2 ^ 31 <= a -> b < 2 ^ 31 - 1 ->
  word_of blanks 2 result = x -> is_object_ref x = false ->
  skip_block f num fuel = Some n0 -> n0 < S_INFINITY - 1 -> (Z.to_nat (b - a + 1) < fuel)%nat ->
  (forall σ, exists n ct, body σ = Some (n, false, ct, g σ) /\ (ct = false -> n = n0)) ->
  exists l', count_stmt k f num body fuel c line l σ =
    Some (Goto n0 l' (foldl (fun σ i => g (set_variable x (show i) σ).2) σ1 (seqZ a (b - a + 1)))).
Proof.
  intros result He Hb Ha Hb1 Hx Ho Hskip Hn0 Hf Hbody. unfold count_stmt. rewrite He. cbn [mbind option_bind]. fold result.
  rewrite Hb, Hx. destruct (b <? a) eqn:E.
  - rewrite Hskip. cbn [fmap option_fmap option_map mbind option_bind].
    destruct (count_loop_visits f num n0 fuel body g Hskip Hn0 Hbody x b result l Ho Hb1 fuel a false (Some n0) σ1) as [nn H];
      [lia | lia | right; by right |]. eexists. exact H.
  - cbn [fmap option_fmap option_map mbind option_bind].
    destruct (count_loop_visits f num n0 fuel body g Hskip Hn0 Hbody x b result l Ho Hb1 fuel a false (newnum l) σ1) as [nn H];
      [lia | lia | left; lia |]. eexists. exact H.
Qed.

Lemma count_visits_numbers_witness :
  exists l', count_stmt (interp 2) (mkFile [] [[]; bytes "end"] [1; 2]) 0 (fun σ => Some (7, false, true, small_body σ)) 6 (mkCtx [] [])
      (bytes "count x 3 5") locals_start small_state =
    Some (Goto 1 l' (foldl (fun σ i => small_body (set_variable (bytes "x") (show i) σ).2) small_state [3; 4; 5])).
Proof.
  apply (count_visits_numbers (interp 2) (mkFile [] [[]; bytes "end"] [1; 2]) 0 1 6 (mkCtx [] []) (fun σ => Some (7, false, true, small_body σ)) small_body
    (bytes "count x 3 5") locals_start small_state (bytes "count x 3 5") small_state 3 5 (bytes "x")); try done.
  - cbn. lia.
  - intros σ. by exists 7, true.
Defined.

(** ** Files *)

Section files.
Context {W : Type} `{env : !cml_env W}.
Implicit Type σ : cml W.

Lemma set_where_same σ σ1 : same_place σ σ1 -> set_where σ1 (cfile σ) (lnum σ) = σ1.
Proof. intros [<- <-]. by destruct σ1. Qed.

Lemma loadcml_items (k : calls W) fuel c name items σ place σ1 :
  locate name σ = Some (place, σ1) -> len (path_of place) < CMAX -> len name < 200 ->
  fopen (path_of place) (world σ1) = Some (spell items) ->
  Forall (good_item blanks) items -> Forall (no_include blanks) items ->
  len (lines_of blanks items 0) <= MAXCML - 5 -> (length items < fuel)%nat ->
  loadcml k fuel c name σ = Some (true, file_of name (lines_of blanks items 0), σ1).
Proof.
  intros Hl Hp Hn Hf Hg Hi Hsz Hfu. unfold loadcml, open_cml. rewrite Hl. cbn [mbind option_bind].
  rewrite (proj2 (Z.leb_gt _ _)), Hf, (proj2 (Z.leb_gt _ _)) by done. cbn [mbind option_bind].
  rewrite load_items by (done || (rewrite len_nil; lia)). cbn [mbind option_bind app].
  rewrite set_where_same; [done |]. by apply locate_returns in Hl as [_ ?].
Qed.
End files.

(** C33: a file is loaded as it was written: comments and empty lines are left
    out, a line that ends in a backslash is joined with the next one less its
    leading blanks, and each line has the number of its last physical line. *)
Theorem loadcml_reads_lines {W} `{env : !cml_env W} (k : calls W) fuel c name items (σ : cml W) place σ1 :
  locate name σ = Some (place, σ1) -> len (path_of place) < CMAX -> len name < 200 ->
  fopen (path_of place) (world σ1) = Some (spell items) ->
  Forall (good_item blanks) items -> Forall (no_include blanks) items ->
  len (lines_of blanks items 0) <= MAXCML - 5 -> (length items < fuel)%nat ->
  loadcml k fuel c name σ = Some (true, file_of name (lines_of blanks items 0), σ1).
Proof. apply loadcml_items. Qed.

Example small_lines : lines_of blanks small_items 0 =
  [(bytes "set x 1 2", 3); (bytes "for i in $(x)", 5); ([34] ++ bytes "i=$(i)", 6); (bytes "end", 7)].
Proof. reflexivity. Qed.

Lemma loadcml_reads_lines_witness :
  exists σ1, loadcml (interp 1) 9 (mkCtx [] []) (bytes "all/page.i") small_state =
    Some (true, file_of (bytes "all/page.i") (lines_of blanks small_items 0), σ1).
Proof.
  destruct (locate (bytes "all/page.i") small_state) as [[place σ1] |] eqn:E; [| exfalso; revert E; vm_compute; discriminate].
  assert (Hp : place = bytes "all.2/page.i") by (revert E; vm_compute; by intros [= <- _]).
  exists σ1. apply (loadcml_reads_lines (interp 1) 9 (mkCtx [] []) (bytes "all/page.i") small_items small_state place σ1); [exact E | subst place ..].
  all: try done.
  all: try (by apply (bool_decide_unpack _); vm_compute).
Defined.

(** C34: a file is found in the highest version of its directory: for dir/file
    that is the greatest n up to 9 for which there is a dir.n/file, or the file
    as it was named; and where it was found is kept, whatever happens to the
    files afterwards. *)
Theorem locate_highest {W} `{env : !cml_env W} name dir file (σ : cml W) :
  splitcml name = Some (dir, file) -> good_name name -> len (path_of name) + 2 < CMAX ->
  vartab_is (cmlnametab (caches σ)) name < 0 -> vartab_is (dirtab (caches σ)) dir < 0 ->
  vartab_ok (cmlnametab (caches σ)) -> names_ok (slots (cmlnametab (caches σ))) ->
  let there n := syscheck (path_of (version dir n ++ [47] ++ file)) (world σ) in
  (forall n, (n <= 9)%nat -> there n = true -> sysisdir (path_of (version dir n)) (world σ) = true) ->
  exists n place σ', (n <= 9)%nat /\ (forall m, (n < m <= 9)%nat -> there m = false) /\
    match n with O => place = name | _ => there n = true /\ place = version dir n ++ [47] ++ file end /\
    locate name σ = Some (place, σ') /\
    forall w, locate name (set_world σ' w) = Some (place, set_world σ' w).
Proof.
  intros Hsp [Hne Hch] Hlen Hname Hdir Hok Hnames there Hos. destruct (splitcml_join _ _ _ Hsp) as [Hj _].
  set (top := highest (fun n => sysisdir (path_of (version dir n)) (world σ)) 9).
  destruct (highest_spec (fun n => sysisdir (path_of (version dir n)) (world σ)) 9) as (Ht1 & Ht2 & _). fold top in Ht1, Ht2.
  destruct (highest_spec there top) as (Hn1 & Hn2 & Hn3). set (n := highest there top) in *.
  set (place := match n with O => name | _ => version dir n ++ [47] ++ file end).
  pose proof (vartab_add_refines (cmlnametab (caches σ)) name place Hok Hnames Hch Hne) as Hadd.
  assert (Hd : len (path_of dir) + 2 < CMAX).
  { unfold path_of in *. rewrite Hj in Hlen. zlen. }
  assert (Hl : exists tab code, locate name σ = Some (place, set_caches σ (mkCache (vartab_add (cmlnametab (caches σ)) name place).2 tab code))).
  { unfold locate. cbv zeta. rewrite (proj2 (Z.ltb_lt _ _)) by done. rewrite Hsp. unfold dir_level. cbv zeta.
    rewrite (proj2 (Z.ltb_lt (vartab_is (dirtab (caches σ)) dir) 0)) by done.
    rewrite (proj2 (Z.leb_gt CMAX (len (path_of dir) + 2))) by exact Hd.
    destruct (vartab_add (dirtab (caches σ)) dir dir) as [slot tab]. cbn [mbind option_bind].
    rewrite (proj2 (Z.leb_gt CMAX (len (path_of name) + 2))), andb_false_r by exact Hlen. cbn [mbind option_bind world set_caches]. fold top. fold there. fold n. fold place.
    cbn [caches set_caches cmlnametab dirtab dircode]. by do 2 eexists. }
  destruct Hl as (tab & code & Hl). destruct (vartab_add (cmlnametab (caches σ)) name place) as [slot tab'] eqn:Ea.
  destruct Hadd as (_ & _ & _ & Hvars & Hok' & Hnames'). cbn [snd] in *.
  eexists n, place, _. split_and!; [lia | | | exact Hl |].
  - intros m Hm. destruct (decide (m <= top)%nat) as [Hle | Hgt]; [apply Hn1; lia |].
    specialize (Ht1 m ltac:(lia)). destruct (there m) eqn:E; [| done]. apply Hos in E; [congruence | lia].
  - subst place. destruct n; [done |]. split; [by apply Hn3 | done].
  - intros w. unfold locate. cbv zeta. cbn [caches set_world set_caches cmlnametab].
    assert (Hv : value_at tab' (vartab_is tab' name) = Some place).
    { rewrite vartab_is_lookup by done. rewrite Hvars. by rewrite lookup_insert_eq. }
    assert (Hs : 0 <= vartab_is tab' name). { unfold value_at, zget in Hv. destruct (_ <? 0) eqn:E in Hv; [done | lia]. }
    rewrite (proj2 (Z.ltb_ge _ _)) by done. by rewrite Hv.
Qed.

Lemma locate_highest_witness :
  exists n place σ', (n <= 9)%nat /\
    (forall m, (n < m <= 9)%nat -> syscheck (path_of (version (bytes "all") m ++ [47] ++ bytes "page.i")) (world small_state) = false) /\
    match n with
    | O => place = bytes "all/page.i"
    | _ => syscheck (path_of (version (bytes "all") n ++ [47] ++ bytes "page.i")) (world small_state) = true /\
           place = version (bytes "all") n ++ [47] ++ bytes "page.i"
    end /\
    locate (bytes "all/page.i") small_state = Some (place, σ') /\
    forall w, locate (bytes "all/page.i") (set_world σ' w) = Some (place, set_world σ' w).
Proof.
  apply (locate_highest (bytes "all/page.i") (bytes "all") (bytes "page.i") small_state); try done.
  all: try (by apply (bool_decide_unpack _); vm_compute).
  intros n Hn. do 10 (destruct n as [| n]; [by vm_compute |]). lia.
Defined.

(** C7: including a file runs it: when the text of the file spells the lines of
    a program, [include_cml] leaves what the reference interpreter leaves for
    the program, less the protection that is lifted for the file, and reports
    errors for the page again. *)
Theorem include_runs_program {W} `{env : !cml_env W} (k : calls W) fuel fuel' name c items prog (σ : cml W) p place σ1 r :
  prot_push 0 (prot σ) = Some p -> cache_include = false ->
  locate name (set_prot σ p) = Some (place, σ1) -> len (path_of place) < CMAX -> len name < 200 ->
  fopen (path_of place) (world σ1) = Some (spell items) ->
  Forall (good_item blanks) items -> Forall (no_include blanks) items -> (length items < fuel')%nat ->
  lines_of blanks items 0 = sources prog -> prog <> [] -> len (sources prog) <= MAXCML - 5 -> good_prog blanks prog = true ->
  run k name c fuel prog run_start σ1 = Some r -> (fuel + S (length (sources prog)) <= fuel')%nat ->
  exists n b ct σ2, stops (len (sources prog)) r (n, b, ct, σ2) /\
    include_cml k fuel' name c σ = Some (Some n, b, ct, set_where (set_prot σ2 (prot_pop (prot σ2))) (cfile σ) (lnum σ)).
Proof.
  intros Hp Hc Hl Hpl Hn Hf Hg Hi Hfu Hlines Hne Hsz Hgp Hr Hfu'.
  destruct (run_parse k c name (sources prog) (fuel' - fuel)) with (fuel := fuel) (p := prog) (pre := @nil (text * Z))
    (post := @nil (text * Z)) (l := run_start) (nn := @None Z) (σ := σ1) (r := r) as ([[[n b] ct] σ2] & Ho & Hs);
    [unfold MAXCML, S_INFINITY in *; lia | unfold len; lia | by rewrite app_nil_r | done | done | done |].
  replace (fuel + (fuel' - fuel))%nat with fuel' in Ho by lia.
  exists n, b, ct, σ2. split; [exact Hs |]. unfold include_cml. cbv zeta. rewrite Hp. cbn [mbind option_bind].
  rewrite (take_ge name) by (unfold len in Hn; lia). unfold find_include. rewrite Hc.
  rewrite (loadcml_items k fuel' c name items _ place σ1), Hlines by (done || by rewrite Hlines). cbn [mbind option_bind].
  rewrite bool_decide_eq_false_2.
  - unfold parse_cml. change (parse_from k fuel' _ c 0 locals_start σ1) with (parse_from k fuel' (file_of name (sources prog)) c (len (@nil (text * Z))) (set_newnum run_start None) σ1).
    by rewrite Ho.
  - destruct prog as [| [ln | ln ? ?] ?]; done.
Qed.

Definition small_prog : list stmt := [
  SLine (bytes "set x 1 2", 3);
  SBlock (bytes "for i in $(x)", 5) [SLine ([34] ++ bytes "i=$(i)", 6)] (bytes "end", 7)].

(** The state in which the file is parsed, and what its program does. *)
Definition small_pushed : cml unit := set_prot small_state (default prot_init (prot_push 0 (prot small_state))).
Definition small_located : cml unit := match locate (bytes "all/page.i") small_pushed with Some (_, σ) => σ | None => small_state end.
Definition small_run : result * cml unit :=
  default (Broke, small_state) (run (interp 9) (bytes "all/page.i") (mkCtx [] []) 9 small_prog run_start small_located).

Lemma include_runs_program_witness :
  exists n b ct σ2, stops (len (sources small_prog)) small_run (n, b, ct, σ2) /\
    include_cml (interp 9) 40 (bytes "all/page.i") (mkCtx [] []) small_state =
      Some (Some n, b, ct, set_where (set_prot σ2 (prot_pop (prot σ2))) (cfile small_state) (lnum small_state)).
Proof.
  apply (include_runs_program (interp 9) 9 40 (bytes "all/page.i") (mkCtx [] []) small_items small_prog small_state (prot small_pushed)
    (bytes "all.2/page.i") small_located small_run).
  all: first [vm_compute; reflexivity | by apply (bool_decide_unpack _); vm_compute | vm_compute; lia | vm_compute; discriminate].
Defined.

(** ** What every evaluation keeps *)

(** C8: whatever a page of CML does, when an evaluation of text, of macros or
    of an included file comes back the depth of calls, the target of the
    output, the form data and the file and line for error reports are what
    they were, and the protection stack, the tables of variables and macros
    and the cache of included files are inside their arrays if they were. *)
Theorem interp_keeps {W} `{env : !cml_env W} {laws : cml_laws W} n :
  (forall old t c σ t' σ', c_scan (interp n) old t c σ = Some (t', σ') -> returns σ σ') /\
  (forall t c σ t' σ', c_mac (interp n) t c σ = Some (t', σ') -> returns σ σ') /\
  (forall t c σ i b ct σ', c_include (interp n) t c σ = Some (i, b, ct, σ') -> returns σ σ') /\
  (forall f σ i b ct σ', run_page n f σ = Some (i, b, ct, σ') -> kept σ σ').
Proof.
  destruct (interp_returns n) as [H1 H2 H3]. split_and!; [exact H1 | exact H2 | exact H3 |].
  intros f σ i b ct σ'. apply parse_from_kept, interp_returns.
Qed.

#[local] Instance small_laws : cml_laws unit.
Proof.
  intros k Hk what arg c σ r σ' H. unfold foreign in H. cbn in H. destruct (bool_decide _); [| by injection H as <- <-].
  destruct (c_scan k [] arg c σ) as [[t σ1] |] eqn:E; [| done]. injection H as <- <-. by eapply (scan_returns k Hk).
Defined.

Lemma interp_keeps_witness :
  exists i b ct σ', run_page 40 (file_of [] (sources small_page)) small_state = Some (i, b, ct, σ') /\ kept small_state σ'.
Proof.
  destruct (run_page 40 (file_of [] (sources small_page)) small_state) as [[[[i b] ct] σ'] |] eqn:E;
    [| exfalso; revert E; vm_compute; discriminate].
  exists i, b, ct, σ'. destruct (interp_keeps 40) as (_ & _ & _ & H). exact (conj eq_refl (H _ _ _ _ _ _ E)).
Defined.
