(* ===== verification/FormData.v ===== *)
(** Data of HTML forms (src/CV2/sweb: readform.c, formsing.c): the fields of a
    request become the table [form] that pages read with $form().  The characters of
    a value are appended as they are: [to_jix] for browsers that do not send
    Japanese codes. *)
From S2P Require Import Prelude Memory Chix ChixEdit Str Html Vartab.

(** ** The code *)

(** The old data cleared by [read_form_data]: the slots stay. *)
Definition form_clear (form : vartab) : vartab := mkVartab (vt_max form) (map (fun _ => ([], [])) (slots form)).

Definition unhex (x : Z) : Z :=
  if (48 <=? x) && (x <=? 57) then x - 48
  else if (97 <=? x) && (x <=? 102) then x - 97 + 10
  else if (65 <=? x) && (x <=? 70) then x - 65 + 10
  else 0.

Inductive form_state := FORM_NAME | FORM_VALUE.

(** Text appended to the value in a slot. *)
Definition append_value (form : vartab) (slot : Z) (t : text) : vartab :=
  mkVartab (vt_max form) (alter (fun '(n, v) => (n, v ++ t)) (Z.to_nat slot) (slots form)).

(** A decoded character: no carriage return, and a zero byte is the end of the
    string [temp] that is appended. *)
Definition put_value (form : vartab) (slot cval : Z) : vartab :=
  if (cval =? 13) || (cval =? 0) then form else append_value form slot [cval].

(** [form_single] over what is left of [work].  Behind the end [chxvalue] is 0. *)
Fixpoint form_single (work : text) (state : form_state) (name : text) (slot : Z) (form : vartab) : vartab :=
  match work with
  | [] => form
  | cval :: rest =>
      match state with
      | FORM_NAME =>
          if cval =? 38 then form_single rest FORM_NAME [] slot form
          else if cval =? 61 then
            let '(slot, form) := vartab_find form name in
            if slot <? 0 then form else
            form_single rest FORM_VALUE name slot
              (match value_at form slot with Some (_ :: _) => append_value form slot [32] | _ => form end)
          else form_single rest FORM_NAME (name ++ [cval]) slot form
      | FORM_VALUE =>
          if cval =? 38 then form_single rest FORM_NAME [] slot form
          else if cval =? 43 then form_single rest FORM_VALUE name slot (put_value form slot 32)
          else if cval =? 37 then
            match rest with
            | a :: b :: rest => form_single rest FORM_VALUE name slot (put_value form slot (16 * unhex a + unhex b))
            | [a] => put_value form slot (16 * unhex a + unhex 0)
            | [] => put_value form slot (16 * unhex 0 + unhex 0)
            end
          else form_single rest FORM_VALUE name slot (put_value form slot cval)
      end
  end.

(** ** What a form holds *)

(** A text as a browser sends it (application/x-www-form-urlencoded): letters,
    digits and [*-._] as they are, a blank as [+], other bytes as percent codes. *)
Definition hexupper (d : Z) : Z := if d <? 10 then 48 + d else 55 + d.
Definition form_char (c : Z) : text :=
  if c =? 32 then [43]
  else if isalnum c || (c =? 42) || (c =? 45) || (c =? 46) || (c =? 95) then [c]
  else [37; hexupper (c `div` 16); hexupper (c `mod` 16)].
Definition form_encode (s : text) : text := flat_map form_char s.

Definition field_text (f : text * text) : text := form_encode f.1 ++ [61] ++ form_encode f.2.
Fixpoint form_text (fields : list (text * text)) : text :=
  match fields with
  | [] => []
  | [f] => field_text f
  | f :: fields => field_text f ++ [38] ++ form_text fields
  end.

Definition good_field (f : text * text) : Prop := f.1 <> [] /\ Forall is_char f.1 /\ Forall is_char f.2.

(** A field as it is received: the name is not decoded, and carriage returns
    are left out of the value. *)
Definition received (f : text * text) : text * text := (form_encode f.1, base.filter (fun v => v <> 13) f.2).

(** A field sent more than once has its values side by side. *)
Definition add_field (m : gmap text text) (f : text * text) : gmap text text :=
  <[f.1 := match m !! f.1 with Some (v :: vs) => (v :: vs) ++ [32] ++ f.2 | _ => f.2 end]> m.

#[export] Instance good_field_dec f : Decision (good_field f).
Proof. unfold good_field. apply _. Defined.

(** ** Reading *)

Section slot.
Context (name : text) (i : nat) (form : vartab) (val0 : text).
Hypothesis Hi : slots form !! i = Some (name, val0).

(** The table with [val] in slot [i]. *)
Definition holding (val : text) : vartab := mkVartab (vt_max form) (<[i := (name, val)]> (slots form)).

Lemma append_holding val t : append_value (holding val) (Z.of_nat i) t = holding (val ++ t).
Proof.
  unfold append_value, holding. cbn. rewrite Nat2Z.id. f_equal.
  apply list_eq. intros j. destruct (decide (i = j)) as [<- | Hj].
  - rewrite list_lookup_alter_eq, !list_lookup_insert_eq by (by eapply lookup_lt_Some). done.
  - by rewrite list_lookup_alter_ne, !list_lookup_insert_ne.
Qed.

Lemma put_holding val v : v <> 13 -> v <> 0 -> put_value (holding val) (Z.of_nat i) v = holding (val ++ [v]).
Proof. intros H1 H2. unfold put_value. rewrite !(proj2 (Z.eqb_neq _ _)) by done. apply append_holding. Qed.

Lemma form_char_cases x : is_char x ->
  x = 32 /\ form_char x = [43] \/
  form_char x = [x] /\ x <> 38 /\ x <> 43 /\ x <> 37 /\ x <> 13 \/
  exists a b, form_char x = [37; a; b] /\ 16 * unhex a + unhex b = x.
Proof.
  intros H. apply (all_chars (fun x => match form_char x with
    | [c] => (c =? 43) && (x =? 32) || (c =? x) && negb ((x =? 38) || (x =? 43) || (x =? 37) || (x =? 13))
    | [p; a; b] => (p =? 37) && (16 * unhex a + unhex b =? x)
    | _ => false end)) in H; [| by vm_compute].
  destruct (form_char x) as [| p [| a [| b []]]]; try done.
  - apply orb_prop in H as [H | H]; apply andb_prop in H as [H1 H2]; apply Z.eqb_eq in H1 as ->.
    + left. split; [lia | done].
    + right. left. split; [done | lia].
  - apply andb_prop in H as [H1 H2]. apply Z.eqb_eq in H1 as ->. right. right. exists a, b. split; [done | lia].
Qed.

(** A value is read up to the next field. *)
Lemma read_value v : forall rest val, Forall is_char v ->
  form_single (form_encode v ++ 38 :: rest) FORM_VALUE name (Z.of_nat i) (holding val) =
    form_single rest FORM_NAME [] (Z.of_nat i) (holding (val ++ base.filter (fun x => x <> 13) v)).
Proof.
  induction v as [| x v IH]; intros rest val Hv.
  { cbn. by rewrite app_nil_r. }
  apply Forall_cons in Hv as [Hx Hv]. unfold form_encode. cbn [flat_map]. fold (form_encode v). rewrite <- app_assoc.
  assert (H0 : x <> 0) by (unfold is_char in Hx; lia).
  transitivity (form_single (form_encode v ++ 38 :: rest) FORM_VALUE name (Z.of_nat i) (put_value (holding val) (Z.of_nat i) x)).
  - destruct (form_char_cases x Hx) as [[-> ->] | [(-> & H1 & H2 & H3 & _) | (a & b & -> & Hab)]]; [done | |].
    + cbn [app form_single]. by rewrite !(proj2 (Z.eqb_neq _ _)) by done.
    + cbn [app form_single]. change (37 =? 38) with false. change (37 =? 43) with false. change (37 =? 37) with true. cbn iota. by rewrite Hab.
  - rewrite filter_cons. destruct (decide (x <> 13)) as [Hd | Hd].
    + rewrite put_holding, IH by done. by rewrite <- app_assoc.
    + assert (x = 13) as -> by lia. unfold put_value. cbn [orb Z.eqb Pos.eqb]. by apply IH.
Qed.
End slot.

Lemma form_encode_chars s : Forall is_char s -> Forall (fun v => is_char v /\ v <> 13 /\ v <> 38 /\ v <> 61) (form_encode s).
Proof.
  induction 1 as [| x s Hx _ IH]; [constructor |]. unfold form_encode. cbn [flat_map]. apply Forall_app. split; [| done].
  revert x Hx. assert (Hall : forall x, is_char x ->
    bool_decide (Forall (fun v => is_char v /\ v <> 13 /\ v <> 38 /\ v <> 61) (form_char x)) = true) by (apply all_chars; by vm_compute).
  intros x Hx. apply (bool_decide_eq_true_1 _), Hall, Hx.
Qed.

Lemma form_encode_nil s : form_encode s = [] -> s = [].
Proof. destruct s as [| x s]; [done |]. unfold form_encode. cbn [flat_map]. unfold form_char. by repeat case_match. Qed.

Lemma read_name n : forall acc slot rest form,
  Forall (fun v => is_char v /\ v <> 13 /\ v <> 38 /\ v <> 61) n ->
  form_single (n ++ 61 :: rest) FORM_NAME acc slot form = form_single (61 :: rest) FORM_NAME (acc ++ n) slot form.
Proof.
  induction n as [| v n IH]; intros acc slot rest form Hn; [by rewrite app_nil_r |].
  apply Forall_cons in Hn as [(_ & _ & H1 & H2) Hn]. cbn [app]. transitivity (form_single (n ++ 61 :: rest) FORM_NAME (acc ++ [v]) slot form).
  { cbn [form_single]. by rewrite !(proj2 (Z.eqb_neq _ _)) by done. }
  rewrite IH by done. by rewrite <- app_assoc.
Qed.

(** One field. *)
Lemma read_field n v slot rest form :
  vartab_ok form -> names_ok (slots form) -> good_field (n, v) ->
  exists slot' form', form_single (field_text (n, v) ++ 38 :: rest) FORM_NAME [] slot form = form_single rest FORM_NAME [] slot' form' /\
    vars_of form' = add_field (vars_of form) (received (n, v)) /\ vartab_ok form' /\ names_ok (slots form').
Proof.
  intros Hok Hnm (Hne & Hn & Hv). unfold received, field_text. cbn [fst snd] in *. apply form_encode_chars in Hn.
  assert (Hne' : form_encode n <> []) by (intros E; by apply Hne, form_encode_nil).
  clear Hne. revert Hn Hne'. generalize (form_encode n). clear n. intros n Hn Hne.
  assert (Hc : Forall is_char n) by (eapply Forall_impl; [exact Hn |]; by intros x (? & _)).
  rewrite <- !app_assoc. cbn [app]. rewrite read_name by done. cbn [app form_single].
  change (61 =? 38) with false. change (61 =? 61) with true. cbn iota.
  pose proof (vartab_find_refines form n Hok Hnm Hc Hne) as Hf. destruct (vartab_find form n) as [s vt].
  destruct Hf as (i & -> & Hi & Hok' & Hnm' & Hmap). rewrite (proj2 (Z.ltb_ge _ _)) by lia.
  set (w := default [] (vars_of form !! n)) in *. unfold value_at. rewrite zget_nat, Hi. cbn [fmap option_fmap option_map snd].
  assert (Hhold : vt = holding n i vt w).
  { destruct vt as [mx sl]. unfold holding. cbn in *. by rewrite list_insert_id. }
  set (w' := match w with [] => [] | _ => w ++ [32] end).
  assert (Hstart : match w with [] => vt | _ :: _ => append_value vt (Z.of_nat i) [32] end = holding n i vt w').
  { subst w'. destruct w as [| x w0]; [done |]. rewrite Hhold at 1. by apply (append_holding n i vt (x :: w0)). }
  set (v' := base.filter (fun x => x <> 13) v).
  exists (Z.of_nat i), (holding n i vt (w' ++ v')). split_and!.
  - transitivity (form_single (form_encode v ++ 38 :: rest) FORM_VALUE n (Z.of_nat i) (holding n i vt w')).
    + rewrite <- Hstart. by destruct w.
    + by eapply read_value.
  - unfold vars_of at 1, holding at 1. cbn [slots]. rewrite Hmap. unfold add_field. cbn [fst snd]. f_equal.
    subst w' w. destruct (vars_of form !! n) as [[| x w0] |]; unfold default, id; cbn [app]; by rewrite <- ?app_assoc.
  - unfold vartab_ok, used, holding in *. cbn. by rewrite len_insert.
  - unfold holding. cbn. by apply names_ok_insert.
Qed.

Lemma read_fields fields : forall slot form,
  vartab_ok form -> names_ok (slots form) -> Forall good_field fields ->
  let form' := form_single (form_text fields ++ [38]) FORM_NAME [] slot form in
  vars_of form' = foldl add_field (vars_of form) (map received fields) /\ vartab_ok form' /\ names_ok (slots form').
Proof.
  induction fields as [| [n v] fields IH]; intros slot form Hok Hnm Hg form'; [done |].
  apply Forall_cons in Hg as [Hf Hg].
  assert (Ht : exists rest, form_text ((n, v) :: fields) ++ [38] = field_text (n, v) ++ 38 :: rest /\
    (rest = form_text fields ++ [38] \/ rest = [] /\ fields = [])).
  { destruct fields as [| f fields]; [exists []; split; [done | by right] |].
    exists (form_text (f :: fields) ++ [38]). split; [| by left]. cbn [form_text]. rewrite <- !app_assoc. done. }
  destruct Ht as (rest & Ht & Hrest). subst form'. rewrite Ht.
  destruct (read_field n v slot rest form Hok Hnm Hf) as (slot' & form1 & -> & Hv & Hok1 & Hnm1). cbn [map foldl]. rewrite <- Hv.
  destruct Hrest as [-> | [-> ->]]; [by apply IH | done].
Qed.

Lemma form_clear_ok form :
  vartab_ok form -> vartab_ok (form_clear form) /\ names_ok (slots (form_clear form)) /\ vars_of (form_clear form) = ∅.
Proof.
  intros [H1 H2]. split_and!.
  - unfold vartab_ok, used, form_clear, len in *. cbn. by rewrite length_map.
  - unfold form_clear, names_ok. cbn. apply Forall_forall. intros [n v] H. apply list_elem_of_fmap in H as (p & [= -> ->] & _). constructor.
  - unfold form_clear, vars_of. cbn. induction (slots form) as [| p l IH]; [done |]. cbn. exact IH.
Qed.

(** The values of a field, side by side. *)
Definition join (o : option text) (v : text) : option text :=
  Some (match o with Some (w :: ws) => (w :: ws) ++ [32] ++ v | _ => v end).

Lemma foldl_add_field (fields : list (text * text)) (m : gmap text text) name :
  foldl add_field m fields !! name = foldl join (m !! name) (filter (fun f => f.1 = name) fields).*2.
Proof.
  revert m. induction fields as [| [n v] fields IH]; intros m; [done |]. cbn [foldl]. rewrite IH, filter_cons. cbn [fst].
  unfold add_field. cbn [fst snd]. destruct (decide (n = name)) as [-> | Hn].
  - rewrite lookup_insert_eq. done.
  - by rewrite lookup_insert_ne.
Qed.

(** What is sent has neither a zero nor a carriage return. *)
Lemma form_text_chars fields : Forall good_field fields -> Forall (fun v => is_char v /\ v <> 13) (form_text fields).
Proof.
  assert (Hc : forall s, Forall is_char s -> Forall (fun v => is_char v /\ v <> 13) (form_encode s)).
  { intros s Hs. eapply Forall_impl; [by apply form_encode_chars |]. by intros c (? & ? & _). }
  induction 1 as [| [n v] fields (_ & Hn & Hv) _ IH]; [constructor |].
  assert (Hf : Forall (fun v => is_char v /\ v <> 13) (field_text (n, v))).
  { unfold field_text. rewrite !Forall_app. split_and!; [by apply Hc | by apply (bool_decide_unpack _); vm_compute | by apply Hc]. }
  cbn [form_text]. destruct fields; [done |]. rewrite !Forall_app. split_and!; [done | by apply (bool_decide_unpack _); vm_compute | done].
Qed.

(** Names of letters, digits and [*-._] are sent as they are. *)
Lemma form_encode_plain n : Forall (fun c => form_char c = [c]) n -> form_encode n = n.
Proof. induction 1 as [| c n Hc _ IH]; [done |]. unfold form_encode in *. cbn [flat_map]. by rewrite Hc, IH. Qed.
