(* ===== verification/FormMulti.v ===== *)
(** Data of HTML forms as they come from the connection (src/CV2/sweb:
    swebsock.c, readflin.c, formmult.c, formtemp.c, readform.c): the browser's
    data is passed on with its length, read in lines, and taken apart into
    fields and uploaded files.

    [hose_read] is the read of the operating system; the eight bytes of the
    length come at once, and the data in pieces of any size, until the length
    is reached or the connection gives no more.  The audit log of uploads is
    left out. *)
From S2P Require Import Prelude Memory Chix ChixEdit ChixSearch ChixParse Str Html Numbers Vartab FormData.

(** ** The code *)

(** [sprintf "%0wd"]. *)
Definition pad0 (w n : Z) : text :=
  let d := dec_pos 10 (Z.abs n) in
  let sign := if n <? 0 then [45] else [] in
  sign ++ replicate (Z.to_nat (w - len sign - len d)) 48 ++ d.

(** What [swebsock] passes on: the length in eight bytes, and as much data,
    padded with zeroes. *)
Definition swebsock_post (content_length : Z) (stdin : list Z) : list Z :=
  take 8 (pad0 7 content_length ++ [0]) ++
  take (Z.to_nat content_length) stdin ++ zeros (content_length - len stdin).

(** [sscanf (temp, "%d", &n)]: no value when there is no number. *)
Fixpoint span_digits (s : text) : text :=
  match s with c :: s' => if DIGIT c then c :: span_digits s' else [] | [] => [] end.
Definition scanf_d (s : text) : option Z :=
  let s := skip_isspace s in
  let '(neg, s) := match s with
    | c :: s' => if c =? 45 then (true, s') else if c =? 43 then (false, s') else (false, s)
    | [] => (false, []) end in
  match span_digits s with [] => None | d => Some (if neg then i32 (- dec_value d) else i32 (dec_value d)) end.

Definition TEMPMAX : Z := 1024.

(** The statics of [read_fline], and what [hose_read] has still to give. *)
Record fline := mkFline { fl_data : list Z; is_begin : bool; saw_cr : bool }.

(** On the first call. *)
Definition fline_first (data : list Z) : fline := mkFline data false false.

Fixpoint fline_loop (linemax : Z) (data : list Z) (cr : bool) (line : list Z) : list Z * fline :=
  match data with
  | [] => (line, mkFline [] false cr)
  | cval :: data =>
      if (cval =? 10) && cr then (line, mkFline data true false)
      else
        let line := if cr then line ++ [13] else line in
        let cr := cval =? 13 in
        let line := if negb cr then line ++ [cval] else line in
        if negb cr && (linemax - 10 <=? len line) || (linemax - 2 <=? len line) then (line, mkFline data false cr)
        else fline_loop linemax data cr line
  end.

(** The result, the line, and whether it starts a new line of the data. *)
Definition read_fline (linemax : Z) (f : fline) : Z * list Z * bool * fline :=
  let '(line, f') := fline_loop linemax (fl_data f) (saw_cr f) [] in
  (match fl_data f with [] => -1 | _ => len line end, line, is_begin f, f').

(** What a form needs of the configuration and the process. *)
Record form_env := mkEnv { tmpdir : text; pid : Z; file_chars : list Z }.

(** [form_temp (1)], which numbers the files; the name has to fit. *)
Definition temp_name (env : form_env) (i : Z) : text :=
  tmpdir env ++ bytes "/cau" ++ pad0 6 (pid env) ++ bytes "." ++ pad0 4 i.
Definition form_temp (env : form_env) (files : Z) : option (text * Z) :=
  if 200 <=? len (temp_name env files) then None else Some (temp_name env files, files + 1).
(** [form_temp (0)]: the files removed when the user has gone. *)
Definition form_temp_unlinks (env : form_env) (files : Z) : list text := temp_name env <$> seqZ 0 files.

(** What [form_multi] does with files. *)
Inductive file_event := FileOpen (name : text) | FileWrite (data : list Z) | FileClose.

(** The content lines of a part: name and file name. *)
Fixpoint part_headers (fuel : nat) (f : fline) (name savefile : text) : option (option (text * text) * fline) :=
  match fuel with
  | O => None
  | S fuel =>
      let '(ok, line, _, f) := read_fline TEMPMAX f in
      if ok <? 0 then Some (None, f) else
      if ok =? 0 then Some (Some (name, savefile), f) else
      '(isname, namestr) ← str_nam_value (bytes "name") (cstr line);
      '(isfile, filestr) ← str_nam_value (bytes "filename") (cstr line);
      if (300 <=? len namestr) || (300 <=? len filestr) then None else
      part_headers fuel f (if isname =? 1 then namestr else name)
        (if (isfile =? 1) && negb (bool_decide (filestr = [])) then filestr else savefile)
  end.

(** The file name without its directories. *)
Fixpoint trim_path (savefile : text) (rest : text) : text :=
  match rest with
  | [] => savefile
  | c :: rest => trim_path (if (c =? 47) || (c =? 92) then rest else savefile) rest
  end.

(** Bad characters are replaced.  A [char] is signed: behind the 128 ASCII
    characters the index is negative. *)
Definition signed_char (c : Z) : Z := if c <? 128 then c else c - 256.
Fixpoint clean_name (file_chars : list Z) (s : text) : option text :=
  match s with
  | [] => Some []
  | c :: s =>
      r ← zget file_chars (signed_char c);
      s ← clean_name file_chars s;
      Some ((if r =? 0 then c else r `mod` 256) :: s)
  end.

Definition crlf : list Z := [13; 10].

(** A line of data goes to the file or to the variable. *)
Definition put_line (file : bool) (slot : Z) (begin : bool) (line : list Z) (st : vartab * list file_event) : vartab * list file_event :=
  let '(form, trace) := st in
  if file then (form, trace ++ (if begin then [FileWrite crlf] else []) ++ [FileWrite line])
  else (append_value (if begin then append_value form slot crlf else form) slot (cstr line), trace).

Definition is_line (line s : list Z) : bool := streq (Some (cstr line)) (Some s) =? 1.

(** The data of a part, up to a line that is a header: whether the form ends
    there, and whether there was no data. *)
Fixpoint part_data (fuel : nat) (mheader eheader : text) (file : bool) (slot : Z) (first : bool) (f : fline)
    (st : vartab * list file_event) : option (bool * bool * fline * (vartab * list file_event)) :=
  match fuel with
  | O => None
  | S fuel =>
      let '(ok, line, begin, f) := read_fline TEMPMAX f in
      let begin := if first then false else begin in
      let eof := (ok <? 0) || is_line line eheader in
      if eof || is_line line mheader then Some (eof, first, f, st)
      else part_data fuel mheader eheader file slot false f (put_line file slot begin line st)
  end.

(** What outlives the reading of a part: the form, the number of temporary
    files, and what was done with files. *)
Abbreviation form_st := (vartab * Z * list file_event)%type (only parsing).

(** An uploaded file; [savefile] becomes the name without directories. *)
Definition part_open (env : form_env) (name savefile : text) (slot : Z) (st : form_st) : option (text * form_st) :=
  let '(form, files, trace) := st in
  if bool_decide (savefile = []) then Some (savefile, st) else
  let '(fn, form) := vartab_find form (bytes "name." ++ name) in
  if fn <? 0 then None else
  savefile ← clean_name (file_chars env) (trim_path savefile savefile);
  let form := set_value form fn savefile in
  '(filestr, files) ← form_temp env files;
  Some (savefile, (set_value form slot filestr, files, trace ++ [FileOpen filestr])).

Definition part_close (savefile : text) (slot : Z) (first : bool) (st : form_st) : form_st :=
  let '(form, files, trace) := st in
  if bool_decide (savefile = []) then st else
  (if first then set_value form slot [] else form, files, trace ++ [FileClose]).

(** One part: whether the form goes on behind it. *)
Definition form_part (env : form_env) (mheader : text) (f : fline) (st : form_st) : option (bool * fline * form_st) :=
  '(h, f) ← part_headers (S (length (fl_data f))) f [] [];
  match h with
  | None => Some (false, f, st)
  | Some (name, savefile) =>
      let '(form, files, trace) := st in
      let '(slot, form) := vartab_find form name in
      if slot <? 0 then Some (false, f, (form, files, trace)) else
      '(savefile, (form, files, trace)) ← part_open env name savefile slot (form, files, trace);
      '(eof, first, f, (form, trace)) ← part_data (S (length (fl_data f))) mheader (mheader ++ bytes "--")
        (negb (bool_decide (savefile = []))) slot true f (form, trace);
      Some (negb eof, f, part_close savefile slot first (form, files, trace))
  end.

Fixpoint form_parts (fuel : nat) (env : form_env) (mheader : text) (f : fline) (st : form_st) : option form_st :=
  match fuel with
  | O => None
  | S fuel =>
      '(more, f, st) ← form_part env mheader f st;
      if more : bool then form_parts fuel env mheader f st else Some st
  end.

(** [form_multi]: [eheader] has 200 bytes. *)
Definition form_multi (env : form_env) (mheader : text) (f : fline) (st : form_st) : option form_st :=
  if 200 <=? len mheader + 2 then None else form_parts (S (length (fl_data f))) env mheader f st.

(** The lines of a single-part form. *)
Fixpoint gather (fuel : nat) (line : list Z) (f : fline) (work : text) : option text :=
  match fuel with
  | O => None
  | S fuel =>
      let work := work ++ cstr line in
      let '(ok, line, _, f) := read_fline TEMPMAX f in
      if 0 <=? ok then gather fuel line f work else Some work
  end.

(** [read_form_data] on what the connection gives; [mheader] has 200 bytes. *)
Definition read_form_data (env : form_env) (conn : list Z) (form : vartab) (files : Z) : option form_st :=
  let form := form_clear form in
  if len conn <? 8 then None else
  content_length ← scanf_d (cstr (take 8 conn));
  if content_length =? 0 then Some (form, files, []) else
  let f := fline_first (take (Z.to_nat content_length) (drop 8 conn)) in
  let '(ok, temp, _, f) := read_fline TEMPMAX f in
  if cval (cstr temp) 0 =? 45 then
    if 200 <=? len (cstr temp) then None else form_multi env (cstr temp) f (form, files, [])
  else
    work ← gather (S (length (fl_data f))) temp f [];
    Some (form_single (work ++ [38]) FORM_NAME [] (-1) form, files, []).

(** ** Lines *)

(** The data not yet given out: a carriage return waits for what follows. *)
Definition pending (f : fline) : list Z := (if saw_cr f then [13] else []) ++ fl_data f.

(** A line fits in its buffer with its terminator. *)
Lemma fline_loop_fits linemax data : forall cr line,
  10 < linemax -> len line < (if cr : bool then linemax - 2 else linemax - 10) ->
  len (fline_loop linemax data cr line).1 < linemax.
Proof.
  induction data as [| cval data IH]; intros cr line Hm Hl; cbn [fline_loop]; [destruct cr; cbn; lia |].
  destruct ((cval =? 10) && cr); [cbn; destruct cr; lia |].
  destruct cr, (cval =? 13); cbn [negb andb orb];
    repeat case_match; cbn [fst]; autorewrite with len in *; try lia; apply IH; autorewrite with len; lia.
Qed.

(** Nothing is lost, and there is a byte less to read. *)
Lemma fline_loop_lossless linemax data : forall cr line,
  let '(line', f') := fline_loop linemax data cr line in
  line ++ (if cr : bool then [13] else []) ++ data = line' ++ (if is_begin f' then [13; 10] else []) ++ pending f' /\
  (length (fl_data f') <= length data - 1)%nat.
Proof.
  induction data as [| cval data IH]; intros cr line; cbn [fline_loop]; [by destruct cr |].
  destruct ((cval =? 10) && cr) eqn:E0.
  - apply andb_prop in E0 as [E0 ->]. apply Z.eqb_eq in E0 as ->. split; [done | cbn; lia].
  - set (line1 := if cr then line ++ [13] else line). set (cr1 := cval =? 13). set (line2 := if negb cr1 then line1 ++ [cval] else line1).
    assert (Hx : line ++ (if cr then [13] else []) ++ cval :: data = line2 ++ (if cr1 then [13] else []) ++ data).
    { subst line1 line2 cr1. destruct (Z.eqb_spec cval 13) as [-> |], cr; cbn [negb app]; by rewrite <- ?app_assoc. }
    rewrite Hx. destruct (_ || _); [split; [done | cbn; lia] |].
    specialize (IH cr1 line2). destruct (fline_loop _ _ _ _) as [line' f']. destruct IH as (-> & Hl). split; [done | cbn; lia].
Qed.

(** One line of data that goes on up to a CRLF with [tail] behind it. *)
Lemma fline_loop_content linemax data : forall cr line u tail,
  (if cr : bool then [13] else []) ++ data = u ++ 13 :: 10 :: tail ->
  exists x f', fline_loop linemax data cr line = (line ++ x, f') /\ (length (fl_data f') < length data)%nat /\
    (if is_begin f' then saw_cr f' = false /\
       (u = x /\ fl_data f' = tail \/ exists u', u = x ++ crlf ++ u' /\ fl_data f' = u' ++ 13 :: 10 :: tail)
     else exists u', u = x ++ u' /\ pending f' = u' ++ 13 :: 10 :: tail).
Proof.
  induction data as [| cval data IH]; intros cr line u tail E.
  { apply (f_equal length) in E. rewrite !length_app in E. destruct cr; cbn in E; lia. }
  cbn [fline_loop]. destruct ((cval =? 10) && cr) eqn:E0.
  - apply andb_prop in E0 as [E0 ->]. apply Z.eqb_eq in E0 as ->. exists [], (mkFline data true false).
    rewrite app_nil_r. split_and!; [done | cbn; lia |]. cbn. split; [done |]. destruct u as [| a [| b u]]; cbn in E.
    + left. by injection E as ->.
    + discriminate.
    + right. injection E as <- <- ->. by exists u.
  - set (line1 := if cr then line ++ [13] else line). set (cr1 := cval =? 13). set (line2 := if negb cr1 then line1 ++ [cval] else line1).
    assert (Hx : exists x u1, line2 = line ++ x /\ u = x ++ u1 /\ (if cr1 then [13] else []) ++ data = u1 ++ 13 :: 10 :: tail).
    { subst line1 line2 cr1. destruct cr; cbn [app] in E.
      - destruct u as [| a u]; [injection E as -> ->; done |]. injection E as <- E.
        destruct (Z.eqb_spec cval 13) as [-> | Hc]; cbn [negb].
        + exists [13], u. done.
        + destruct u as [| b u]; [by injection E |]. injection E as <- E. exists [13; cval], u. by rewrite <- app_assoc.
      - destruct (Z.eqb_spec cval 13) as [-> | Hc]; cbn [negb].
        + exists [], u. by rewrite app_nil_r.
        + destruct u as [| b u]; [by injection E |]. injection E as <- E. by exists [cval], u. }
    destruct Hx as (x & u1 & Hl & -> & E1). rewrite Hl. clearbody cr1. clear line1 line2 Hl E E0.
    destruct (negb cr1 && _ || _).
    + exists x, (mkFline data false cr1). split_and!; [done | cbn; lia | by exists u1].
    + destruct (IH cr1 (line ++ x) u1 tail E1) as (y & f' & -> & Hlen & Hf). exists (x ++ y), f'.
      split_and!; [by rewrite app_assoc | cbn; lia |]. destruct (is_begin f').
      * destruct Hf as [Hc [[-> Hf] | (u' & -> & Hf)]]; (split; [done |]); [by left | right; exists u'; by rewrite <- app_assoc].
      * destruct Hf as (u' & -> & Hf). exists u'. by rewrite <- app_assoc.
Qed.

Lemma read_fline_content linemax f u tail :
  pending f = u ++ 13 :: 10 :: tail ->
  exists x f', read_fline linemax f = (len x, x, is_begin f, f') /\ (length (fl_data f') < length (fl_data f))%nat /\
    (if is_begin f' then saw_cr f' = false /\
       (u = x /\ fl_data f' = tail \/ exists u', u = x ++ crlf ++ u' /\ fl_data f' = u' ++ 13 :: 10 :: tail)
     else exists u', u = x ++ u' /\ pending f' = u' ++ 13 :: 10 :: tail).
Proof.
  intros E. destruct (fline_loop_content linemax (fl_data f) (saw_cr f) [] u tail E) as (x & f' & H & Hl & Hf).
  exists x, f'. split_and!; [| done | done]. unfold read_fline. rewrite H. cbn [app].
  destruct (fl_data f) eqn:Ed; [cbn in Hl; lia | done].
Qed.

(** A line of text as browsers send them. *)
Definition plain_line (l : text) : Prop := Forall (fun v => is_char v /\ v <> 13) l /\ len l < TEMPMAX - 10.

#[export] Instance plain_line_dec l : Decision (plain_line l).
Proof. unfold plain_line. apply _. Defined.

Lemma fline_loop_line l : forall linemax line D,
  Forall (fun v => is_char v /\ v <> 13) l -> len line + len l < linemax - 10 ->
  fline_loop linemax (l ++ 13 :: 10 :: D) false line = (line ++ l, mkFline D true false).
Proof.
  induction l as [| v l IH]; intros linemax line D Hl Hn.
  - cbn [app fline_loop]. change (13 =? 10) with false. change (13 =? 13) with true. rewrite app_nil_r. cbn [negb andb orb].
    rewrite len_nil in Hn. rewrite (proj2 (Z.leb_gt _ _)) by lia. done.
  - apply Forall_cons in Hl as [[Hv H13] Hl]. cbn [app fline_loop]. rewrite andb_false_r. rewrite (proj2 (Z.eqb_neq v 13)) by done.
    cbn [negb andb]. rewrite len_cons in Hn. pose proof (len_nonneg l). autorewrite with len.
    rewrite !(proj2 (Z.leb_gt _ _)) by lia. cbn [orb]. rewrite IH; [| done | autorewrite with len; lia]. by rewrite <- app_assoc.
Qed.

Lemma read_fline_line l D b : plain_line l ->
  read_fline TEMPMAX (mkFline (l ++ 13 :: 10 :: D) b false) = (len l, l, b, mkFline D true false).
Proof.
  intros [Hl Hn]. unfold read_fline. cbn [fl_data saw_cr is_begin]. rewrite (fline_loop_line l _ [] D Hl) by (rewrite len_nil; lia).
  cbn [app]. by destruct l.
Qed.

(** ** Names in content lines *)

Lemma starts_with_elem t : forall s c, starts_with t s = true -> c ∈ t -> c ∈ s.
Proof.
  induction t as [| d t IH]; intros s c H Hc; [by apply not_elem_of_nil in Hc |].
  destruct s as [| e s]; [done |]. cbn in H. apply andb_prop in H as [He H]. apply Z.eqb_eq in He as ->.
  apply elem_of_cons in Hc as [-> | Hc]; [left | right; by apply IH].
Qed.

Lemma strindex_absent c s t i : c ∈ t -> c ∉ s -> strindex_loop s t i = -1.
Proof.
  intros Ht. revert i. induction s as [| d s IH]; intros i Hs; [done |]. cbn [strindex_loop].
  destruct (starts_with t (d :: s)) eqn:E; [exfalso; by eapply Hs, starts_with_elem |].
  apply IH. intros H. apply Hs. by right.
Qed.

Lemma strindex_char c s r i : c ∉ s -> strindex_loop (s ++ c :: r) [c] i = i + len s.
Proof.
  revert i. induction s as [| d s IH]; intros i Hs; cbn [app strindex_loop starts_with].
  - rewrite Z.eqb_refl, len_nil. cbn. lia.
  - apply not_elem_of_cons in Hs as [Hd Hs]. rewrite (proj2 (Z.eqb_neq d c)) by congruence. cbn [andb]. rewrite IH by done.
    rewrite len_cons. lia.
Qed.

(** A name in front of the quote that ends it is no beginning of [t1=...]. *)
Lemma starts_with_name n : forall t1 t2 r, 34 ∉ t1 -> 61 ∉ n -> starts_with (t1 ++ 61 :: t2) (n ++ 34 :: r) = false.
Proof.
  induction n as [| c n IH]; intros t1 t2 r Ht Hn.
  - destruct t1 as [| a t1]; [done |]. apply not_elem_of_cons in Ht as [Ha _]. cbn [app starts_with]. by rewrite (proj2 (Z.eqb_neq 34 a)).
  - apply not_elem_of_cons in Hn as [Hc Hn]. destruct t1 as [| a t1]; cbn [app starts_with].
    + by rewrite (proj2 (Z.eqb_neq c 61)).
    + apply not_elem_of_cons in Ht as [_ Ht]. by rewrite IH, andb_false_r.
Qed.

Lemma strindex_name n t1 t2 r i :
  34 ∉ t1 -> 61 ∉ n -> strindex_loop (n ++ 34 :: r) (t1 ++ 61 :: t2) i = strindex_loop (34 :: r) (t1 ++ 61 :: t2) (i + len n).
Proof.
  intros Ht. revert i. induction n as [| c n IH]; intros i Hn.
  - rewrite len_nil, Z.add_0_r. done.
  - pose proof (starts_with_name (c :: n) t1 t2 r Ht Hn) as Hs. apply not_elem_of_cons in Hn as [Hc Hn]. cbn [app] in *.
    transitivity (strindex_loop (n ++ 34 :: r) (t1 ++ 61 :: t2) (i + 1)); [by cbn [strindex_loop]; rewrite Hs |].
    rewrite len_cons, IH by done. f_equal. lia.
Qed.

Definition FORM_DATA : text := bytes "Content-Disposition: form-data; name=" ++ [34].
Definition FILENAME : text := bytes "filename" ++ [61; 34].

(** The value of a pair, once it is found. *)
Lemma str_nam_value_at name p v r :
  len name + 2 < 200 -> strindex (p ++ v ++ 34 :: r) (name ++ [61; 34]) = len p - len (name ++ [61; 34]) -> len name + 2 <= len p -> 34 ∉ v ->
  str_nam_value name (p ++ v ++ 34 :: r) = Some (1, v).
Proof.
  intros Hn Hp Hge Hv. unfold str_nam_value. rewrite (proj2 (Z.leb_gt _ _)) by lia. rewrite Hp.
  autorewrite with len. rewrite (proj2 (Z.ltb_ge _ _)) by lia.
  replace (len p - (len name + (0 + 1 + 1)) + (len name + (0 + 1 + 1))) with (len p) by lia. rewrite drop_len_app.
  unfold strindex. rewrite strindex_char, Z.add_0_l by done. rewrite (proj2 (Z.ltb_ge _ _)) by apply len_nonneg.
  by rewrite to_nat_len, take_app_length.
Qed.

Lemma str_nam_value_absent c name t : len name + 2 < 200 -> c ∈ name ++ [61; 34] -> c ∉ t -> str_nam_value name t = Some (0, []).
Proof.
  intros Hn Hc Ht. unfold str_nam_value. rewrite (proj2 (Z.leb_gt _ _)) by lia. unfold strindex at 1. by rewrite (strindex_absent c).
Qed.

Lemma no_pair name t : len name + 2 < 200 -> 34 ∉ t -> str_nam_value name t = Some (0, []).
Proof. intros Hn. apply str_nam_value_absent; [done |]. rewrite elem_of_app. right. by right; left. Qed.

Lemma name_of_disposition n r : 34 ∉ n -> str_nam_value (bytes "name") (FORM_DATA ++ n ++ 34 :: r) = Some (1, n).
Proof. intros Hn. apply str_nam_value_at; [done | | done | done]. by vm_compute. Qed.

Lemma skip_disposition s i : strindex_loop (FORM_DATA ++ s) FILENAME i = strindex_loop s FILENAME (i + len FORM_DATA).
Proof. change (len FORM_DATA) with 38. cbn. f_equal. lia. Qed.

Lemma no_filename n : 61 ∉ n -> str_nam_value (bytes "filename") (FORM_DATA ++ n ++ [34]) = Some (0, []).
Proof.
  intros Hn. unfold str_nam_value. change (200 <=? len (bytes "filename") + 2) with false. cbn iota.
  change (bytes "filename" ++ [61; 34]) with FILENAME. unfold strindex at 1. rewrite skip_disposition.
  rewrite (strindex_absent 61); [done | by apply (bool_decide_unpack _); vm_compute |].
  rewrite elem_of_app, elem_of_cons. intros [H | [H | H]]; [done | done | by apply not_elem_of_nil in H].
Qed.

Lemma filename_at s i : strindex_loop (34 :: bytes "; filename=" ++ 34 :: s) FILENAME i = i + 3.
Proof. transitivity (i + 1 + 1 + 1); [reflexivity | lia]. Qed.

Lemma filename_of_disposition n v r : 61 ∉ n -> 34 ∉ v ->
  str_nam_value (bytes "filename") (FORM_DATA ++ n ++ 34 :: bytes "; filename=" ++ 34 :: v ++ 34 :: r) = Some (1, v).
Proof.
  intros Hn Hv. set (p := FORM_DATA ++ n ++ 34 :: bytes "; filename=" ++ [34]).
  assert (E : FORM_DATA ++ n ++ 34 :: bytes "; filename=" ++ 34 :: v ++ 34 :: r = p ++ v ++ 34 :: r).
  { unfold p. by rewrite <- !app_assoc. }
  rewrite E. apply str_nam_value_at; [done | | | done].
  - rewrite <- E. change (bytes "filename" ++ [61; 34]) with FILENAME. unfold strindex. rewrite skip_disposition.
    change FILENAME with (bytes "filename" ++ 61 :: [34]) at 1. rewrite strindex_name; [| by apply (bool_decide_unpack _); vm_compute | done].
    change (bytes "filename" ++ 61 :: [34]) with FILENAME. rewrite filename_at. unfold p. autorewrite with len.
    change (len (bytes "; filename=")) with 11. change (len FILENAME) with 10. lia.
  - unfold p. autorewrite with len. change (len (bytes "filename")) with 8. change (len FORM_DATA) with 38. len_pos. lia.
Qed.

(** ** Forms as browsers send them *)

Inductive form_item :=
  | Field (name value : text)
  | Upload (name filename : text) (headers : list text) (content : list Z).

Definition line (l : text) : text := l ++ crlf.

Definition item_text (it : form_item) : list Z :=
  match it with
  | Field name value => line (FORM_DATA ++ name ++ [34]) ++ line [] ++ value
  | Upload name filename headers content =>
      line (FORM_DATA ++ name ++ 34 :: bytes "; filename=" ++ 34 :: filename ++ [34]) ++ flat_map line headers ++ line [] ++ content
  end.

(** The parts behind the first header, and the whole form. *)
Fixpoint items_text (mheader : text) (items : list form_item) : list Z :=
  match items with
  | [] => []
  | it :: items =>
      item_text it ++ crlf ++ line (mheader ++ match items with [] => bytes "--" | _ => [] end) ++ items_text mheader items
  end.
Definition form_body (mheader : text) (items : list form_item) : list Z := line mheader ++ items_text mheader items.

Definition occurs (s t : list Z) : Prop := exists p q, t = p ++ s ++ q.

(** A name, between quotes. *)
Definition quoted_name (n : text) : Prop :=
  n <> [] /\ Forall (fun v => is_char v /\ v <> 13 /\ v <> 34 /\ v <> 61) n /\ len n < 300.
(** A content line other than the disposition. *)
Definition other_line (l : text) : Prop := l <> [] /\ plain_line l /\ Forall (fun v => v <> 34) l.

(** A file name of ASCII characters that does not end in a slash. *)
Definition good_filename (n : text) : Prop :=
  trim_path n n <> [] /\ Forall (fun v => is_char v /\ v < 128 /\ v <> 13 /\ v <> 34) n /\ len n < 300.

Definition good_item (mheader : text) (it : form_item) : Prop :=
  match it with
  | Field name value => quoted_name name /\ Forall is_char value /\ ~ occurs mheader value
  | Upload name filename headers content =>
      quoted_name name /\ good_filename filename /\ Forall other_line headers /\ ~ occurs mheader content
  end.

(** The line between the parts. *)
Definition good_header (mheader : text) : Prop := head mheader = Some 45 /\ plain_line mheader /\ len mheader < 198.

(** What a form amounts to: the variables, the number of temporary files and
    the files written, the last one first. *)
Definition file_step (fs : list (text * list Z)) (e : file_event) : list (text * list Z) :=
  match e with
  | FileOpen n => (n, []) :: fs
  | FileWrite d => match fs with (n, c) :: fs => (n, c ++ d) :: fs | [] => [] end
  | FileClose => fs
  end.
Definition files_made (trace : list file_event) : list (text * list Z) := foldl file_step [] trace.

Definition cleaned (env : form_env) (filename : text) : text :=
  default [] (clean_name (file_chars env) (trim_path filename filename)).

Definition add_item (env : form_env) (s : gmap text text * Z * list (text * list Z)) (it : form_item) :=
  let '(m, files, made) := s in
  match it with
  | Field name value => (<[name := default [] (m !! name) ++ value]> m, files, made)
  | Upload name filename _ content =>
      (<[name := temp_name env files]> (<[bytes "name." ++ name := cleaned env filename]> m), files + 1,
       (temp_name env files, content) :: made)
  end.

(** ** Content lines *)

Lemma cstr_chars s : Forall is_char s -> cstr s = s.
Proof. induction 1 as [| v s Hv _ IH]; [done |]. cbn. unfold is_char in Hv. rewrite (proj2 (Z.eqb_neq v 0)) by lia. by rewrite IH. Qed.

Lemma plain_cstr l : plain_line l -> cstr l = l.
Proof. intros [H _]. apply cstr_chars. eapply Forall_impl; [exact H | by intros v []]. Qed.

Lemma Forall_not_elem (P : Z -> Prop) c (s : list Z) : Forall P s -> ~ P c -> c ∉ s.
Proof. intros H Hc Hin. rewrite Forall_forall in H. by apply Hc, H. Qed.

Lemma quoted_name_chars n : quoted_name n -> good_name n /\ (34 ∉ n) /\ (61 ∉ n).
Proof.
  intros (Hne & H & _). split; [split; [done |] | split].
  - eapply Forall_impl; [exact H | by intros v []].
  - eapply Forall_not_elem; [exact H |]. cbn. lia.
  - eapply Forall_not_elem; [exact H |]. cbn. lia.
Qed.

(** One more line of a part, which is not empty. *)
Lemma part_headers_line fuel l D b name savefile isname namestr isfile filestr :
  plain_line l -> l <> [] ->
  str_nam_value (bytes "name") l = Some (isname, namestr) -> str_nam_value (bytes "filename") l = Some (isfile, filestr) ->
  len namestr < 300 -> len filestr < 300 ->
  part_headers (S fuel) (mkFline (line l ++ D) b false) name savefile =
    part_headers fuel (mkFline D true false) (if isname =? 1 then namestr else name)
      (if (isfile =? 1) && negb (bool_decide (filestr = [])) then filestr else savefile).
Proof.
  intros Hl Hne H1 H2 H3 H4. cbn [part_headers]. unfold line, crlf. rewrite <- app_assoc. cbn [app].
  rewrite read_fline_line, plain_cstr, H1, H2 by done. cbn. destruct l as [| v l]; [done |]. rewrite len_cons. pose proof (len_nonneg l).
  rewrite (proj2 (Z.ltb_ge _ _)), (proj2 (Z.eqb_neq _ _)) by lia.
  rewrite !(proj2 (Z.leb_gt _ _)) by lia. done.
Qed.

Lemma part_headers_end fuel D b name savefile :
  part_headers (S fuel) (mkFline (line [] ++ D) b false) name savefile = Some (Some (name, savefile), mkFline D true false).
Proof.
  cbn [part_headers]. change (line [] ++ D) with ([] ++ 13 :: 10 :: D). by rewrite (read_fline_line []) by (split; [constructor | done]).
Qed.

Lemma part_headers_others headers : forall fuel D b name savefile,
  Forall other_line headers -> (length headers < fuel)%nat ->
  part_headers fuel (mkFline (flat_map line headers ++ line [] ++ D) b false) name savefile =
    Some (Some (name, savefile), mkFline D true false).
Proof.
  induction headers as [| l headers IH]; intros fuel D b name savefile Hh Hf.
  - destruct fuel as [| fuel]; [cbn in Hf; lia |]. apply part_headers_end.
  - apply Forall_cons in Hh as [(Hne & Hl & Hq) Hh]. destruct fuel as [| fuel]; [cbn in Hf; lia |]. cbn [flat_map].
    rewrite <- app_assoc. assert (H34 : 34 ∉ l) by (eapply Forall_not_elem; [exact Hq |]; cbn; tauto).
    rewrite (part_headers_line fuel l _ b name savefile 0 [] 0 []);
      [| done | done | apply (no_pair (bytes "name")) | apply (no_pair (bytes "filename")) | done | done]; try done.
    cbn. apply IH; [done | cbn in Hf; lia].
Qed.

(** ** The data of a part *)

Lemma streq_loop_spec s : forall t, streq_loop s t = 1 <-> s = t.
Proof.
  induction s as [| c s IH]; intros [| d t]; cbn; try done. destruct (Z.eqb_spec c d) as [-> | Hcd].
  - rewrite IH. split; [by intros -> | by intros [= ->]].
  - split; [done | by intros [= ? ?]].
Qed.

Lemma is_line_spec x s : is_line x s = true <-> cstr x = s.
Proof. unfold is_line. cbn [streq]. by rewrite Z.eqb_eq, streq_loop_spec. Qed.

Lemma is_line_plain x s : Forall is_char x -> is_line x s = bool_decide (x = s).
Proof. intros H. apply eq_true_iff_eq. by rewrite is_line_spec, cstr_chars, bool_decide_eq_true. Qed.

Lemma cstr_prefix x : exists q, x = cstr x ++ q.
Proof.
  induction x as [| c x [q IH]]; [by exists [] |]. cbn. destruct (c =? 0); [by exists (c :: x) |]. exists q. cbn. by rewrite <- IH.
Qed.

Lemma occurs_app mh u v : occurs mh u -> occurs mh (u ++ v).
Proof. intros (p & q & ->). exists p, (q ++ v). by rewrite <- !app_assoc. Qed.
Lemma occurs_app_r mh u v : occurs mh v -> occurs mh (u ++ v).
Proof. intros (p & q & ->). exists (u ++ p), q. by rewrite <- !app_assoc. Qed.

(** A line of data without the header is not taken for one. *)
Lemma is_line_data mh x t : ~ occurs mh x -> is_line x (mh ++ t) = false.
Proof.
  intros Hx. apply not_true_iff_false. rewrite is_line_spec. intros E. apply Hx. destruct (cstr_prefix x) as [q Hq].
  rewrite Hq, E. exists [], (t ++ q). by rewrite <- app_assoc.
Qed.

Section data.
Context (mh : text) (file : bool) (slot : Z) (R : list Z -> vartab * list file_event -> Prop).
Hypothesis Hmh : good_header mh.

(** [R u st]: in [st] the data [u] has been put. *)
Definition data_ok (u : list Z) : Prop := file = true \/ Forall is_char u.
Hypothesis R_put : forall u st (begin : bool) x,
  R u st -> data_ok x -> R (u ++ (if begin then crlf else []) ++ x) (put_line file slot begin x st).

Lemma data_ok_app u v : data_ok (u ++ v) -> data_ok u /\ data_ok v.
Proof. intros [H | H]; [by split; left |]. apply Forall_app in H as [H1 H2]. by split; right. Qed.

(** The header that ends a part. *)
Definition ending (last : bool) : text := mh ++ if last then bytes "--" else [].

Lemma ending_plain last : plain_line (ending last).
Proof.
  destruct Hmh as (_ & [H _] & Hl). unfold ending. split.
  - apply Forall_app. split; [done |]. destruct last; [by apply (bool_decide_unpack _); vm_compute | constructor].
  - autorewrite with len. unfold TEMPMAX. destruct last; [change (len (bytes "--")) with 2 | rewrite len_nil]; lia.
Qed.

Lemma part_data_ends fuel last D b first st :
  part_data (S fuel) mh (mh ++ bytes "--") file slot first (mkFline (line (ending last) ++ D) b false) st =
    Some (last, first, mkFline D true false, st).
Proof.
  pose proof (ending_plain last) as Hp. cbn [part_data]. unfold line, crlf. rewrite <- app_assoc. cbn [app].
  rewrite read_fline_line by done. cbn. rewrite (proj2 (Z.ltb_ge _ _)) by apply len_nonneg.
  assert (Hc : Forall is_char (ending last)) by (eapply Forall_impl; [apply Hp | by intros v []]).
  rewrite !is_line_plain by done. unfold ending. destruct last; cbn [orb].
  - by rewrite bool_decide_eq_true_2.
  - rewrite app_nil_r, bool_decide_eq_false_2, bool_decide_eq_true_2; try done.
    intros H. apply (f_equal length) in H. rewrite length_app in H. cbn in H. lia.
Qed.

Lemma part_data_reads fuel last D : forall f u t first st,
  (length (fl_data f) < fuel)%nat -> pending f = u ++ crlf ++ line (ending last) ++ D ->
  ~ occurs mh u -> data_ok u -> R t st ->
  exists st', part_data fuel mh (mh ++ bytes "--") file slot first f st = Some (last, false, mkFline D true false, st') /\
    R (t ++ (if (if first then false else is_begin f) then crlf else []) ++ u) st'.
Proof.
  induction fuel as [| fuel IH]; intros f u t first st Hf Hp Hu Hd HR; [lia |].
  destruct (read_fline_content TEMPMAX f u (line (ending last) ++ D) Hp) as (x & f' & Hr & Hlen & Hx).
  cbn [part_data]. rewrite Hr. rewrite (proj2 (Z.ltb_ge _ _)) by apply len_nonneg. cbn [orb].
  assert (Hux : exists v, u = x ++ v).
  { destruct (is_begin f'); [destruct Hx as [_ [[-> _] | (v & -> & _)]]; [exists []; by rewrite app_nil_r | by eexists] |].
    destruct Hx as (v & -> & _). by eexists. }
  assert (Hox : ~ occurs mh x) by (intros H; destruct Hux as [v ->]; by apply Hu, occurs_app).
  assert (Hdx : data_ok x) by (destruct Hux as [v ->]; by apply data_ok_app in Hd as []).
  assert (Hmx : is_line x mh = false) by (rewrite <- (app_nil_r mh); by apply is_line_data).
  rewrite is_line_data, Hmx by done. cbn [orb].
  set (b := if first then false else is_begin f). pose proof (R_put t st b x HR Hdx) as HR'. set (st1 := put_line _ _ _ _ _) in *.
  destruct f' as [data' b' cr']. cbn [is_begin saw_cr fl_data] in *. destruct b'.
  - destruct Hx as [-> [[-> ->] | (v & -> & ->)]].
    + destruct fuel as [| fuel]; [lia |]. rewrite part_data_ends. by eexists.
    + destruct (IH (mkFline (v ++ 13 :: 10 :: line (ending last) ++ D) true false) v (t ++ (if b then crlf else []) ++ x) false st1) as (st' & -> & H);
        [cbn; lia | done | by intros H; apply Hu; apply occurs_app_r, occurs_app_r | | exact HR' |].
      * by apply data_ok_app in Hd as [_ [_ Hd]%data_ok_app].
      * eexists. split; [done |]. cbn in H. by rewrite <- !app_assoc in H.
  - destruct Hx as (v & -> & Hv).
    destruct (IH (mkFline data' false cr') v (t ++ (if b then crlf else []) ++ x) false st1) as (st' & -> & H);
      [cbn; lia | done | by intros H; apply Hu; apply occurs_app_r | by apply data_ok_app in Hd as [] | exact HR' |].
    eexists. split; [done |]. cbn in H. by rewrite <- !app_assoc in H.
Qed.
End data.

(** ** Where the data goes *)

Lemma append_set form i name v t : slot_of form i name v -> append_value form (Z.of_nat i) t = set_value form (Z.of_nat i) (v ++ t).
Proof.
  intros [Hi _]. unfold append_value, set_value. f_equal. rewrite Nat2Z.id. apply list_eq. intros j.
  destruct (decide (i = j)) as [<- | Hj]; [by rewrite !list_lookup_alter_eq, Hi | by rewrite !list_lookup_alter_ne].
Qed.

Section field.
Context (i : nat) (name v0 : text) (m0 : gmap text text) (trace0 : list file_event).
Hypothesis Hne : name <> [].

Definition field_has (u : list Z) (st : vartab * list file_event) : Prop :=
  let '(form, trace) := st in
  slot_of form i name (v0 ++ u) /\ vartab_ok form /\ names_ok (slots form) /\ vars_of form = <[name := v0 ++ u]> m0 /\ trace = trace0.

Lemma append_has u form t :
  field_has u (form, trace0) -> field_has (u ++ t) (append_value form (Z.of_nat i) t, trace0).
Proof.
  intros (Hs & Hok & Hn & Hv & _). rewrite (append_set _ _ _ _ _ Hs).
  destruct (set_value_slot form i name _ ((v0 ++ u) ++ t) Hs Hne Hok Hn) as (Hs' & Hok' & Hn' & Hv' & _).
  unfold field_has. rewrite app_assoc. split_and!; try done; try apply Hs'. by rewrite Hv', Hv, insert_insert_eq.
Qed.

Lemma field_put u st (begin : bool) x :
  field_has u st -> data_ok false x -> field_has (u ++ (if begin then crlf else []) ++ x) (put_line false (Z.of_nat i) begin x st).
Proof.
  destruct st as [form trace]. intros H [Hx | Hx]; [done |]. pose proof H as (_ & _ & _ & _ & ->). cbn [put_line].
  rewrite cstr_chars, app_assoc by done. apply append_has. destruct begin; [by apply append_has | by rewrite app_nil_r].
Qed.
End field.

Section upload.
Context (form0 : vartab) (n : text) (made : list (text * list Z)).

Definition file_has (u : list Z) (st : vartab * list file_event) : Prop :=
  st.1 = form0 /\ files_made st.2 = (n, u) :: made.

Lemma files_made_snoc trace e : files_made (trace ++ [e]) = file_step (files_made trace) e.
Proof. unfold files_made. by rewrite foldl_app. Qed.

Lemma file_put slot u st (begin : bool) x :
  file_has u st -> data_ok true x -> file_has (u ++ (if begin then crlf else []) ++ x) (put_line true slot begin x st).
Proof.
  destruct st as [form trace]. intros [H0 H] _. cbn [fst snd] in H0, H. subst form. split; [done |]. cbn [put_line snd]. destruct begin.
  - rewrite app_assoc, !files_made_snoc, H. cbn. by rewrite <- app_assoc.
  - by rewrite app_nil_l, files_made_snoc, H.
Qed.
End upload.

Lemma length_dec_pos fuel n : (length (dec_pos fuel n) <= fuel)%nat.
Proof.
  revert n. induction fuel as [| fuel IH]; intros n; [done |]. cbn [dec_pos]. rewrite length_app. cbn [length].
  specialize (IH (n `div` 10)). destruct (10 <=? n); [lia | cbn; lia].
Qed.

Lemma len_pad0 w n : w <= 11 -> len (pad0 w n) <= 11.
Proof.
  intros Hw. unfold pad0. pose proof (length_dec_pos 10 (Z.abs n)). unfold len. rewrite !length_app, length_replicate.
  destruct (n <? 0); cbn [length]; lia.
Qed.

(** The configuration: a name for temporary files that fits, and a table of
    [char]s for bad characters of names. *)
Definition env_ok (env : form_env) : Prop :=
  len (tmpdir env) < 170 /\ len (file_chars env) = 256 /\ Forall (fun c => -128 <= c < 128) (file_chars env).

Lemma form_temp_name env files : env_ok env -> form_temp env files = Some (temp_name env files, files + 1).
Proof.
  intros (Ht & _). unfold form_temp, temp_name. pose proof (len_pad0 6 (pid env)). pose proof (len_pad0 4 files).
  autorewrite with len. change (len (bytes "/cau")) with 4. change (len (bytes ".")) with 1.
  rewrite (proj2 (Z.leb_gt _ _)) by lia. done.
Qed.

Lemma clean_name_ascii fc s : len fc = 256 -> Forall (fun v => 0 <= v < 128) s ->
  exists t, clean_name fc s = Some t /\ length t = length s.
Proof.
  intros Hl. induction 1 as [| c s Hc Hs (t & IH & Ht)]; [by exists [] |]. cbn. unfold signed_char.
  rewrite (proj2 (Z.ltb_lt _ _)) by lia. unfold zget. rewrite (proj2 (Z.ltb_ge _ _)) by lia.
  destruct (lookup_lt_is_Some_2 fc (Z.to_nat c)) as [r ->]; [unfold len in Hl; lia |]. cbn. rewrite IH. cbn.
  eexists. split; [done |]. cbn. by rewrite Ht.
Qed.

Lemma trim_path_forall (P : Z -> Prop) rest : forall s, Forall P s -> Forall P rest -> Forall P (trim_path s rest).
Proof.
  induction rest as [| c rest IH]; intros s Hs Hr; [done |]. apply Forall_cons in Hr as [_ Hr]. cbn.
  apply IH; [by destruct (_ || _) | done].
Qed.

Lemma cleaned_filename env n : env_ok env -> good_filename n ->
  clean_name (file_chars env) (trim_path n n) = Some (cleaned env n) /\ cleaned env n <> [].
Proof.
  intros (_ & Hl & _) (Hne & Hn & _). destruct (clean_name_ascii (file_chars env) (trim_path n n) Hl) as (t & Ht & Hlt).
  { apply trim_path_forall; (eapply Forall_impl; [exact Hn |]); intros v [Hv ?]; unfold is_char in Hv; lia. }
  unfold cleaned. rewrite Ht. split; [done |]. cbn. intros ->. by destruct (trim_path n n).
Qed.

(** ** One part *)

Lemma disposition_plain n r :
  quoted_name n -> Forall (fun v => is_char v /\ v <> 13) r -> len r < 320 -> plain_line (FORM_DATA ++ n ++ r) /\ FORM_DATA ++ n ++ r <> [].
Proof.
  intros (_ & Hn & Hl) Hr Hlr. split; [| done]. split.
  - rewrite !Forall_app. split_and!; [by apply (bool_decide_unpack _); vm_compute | | done].
    eapply Forall_impl; [exact Hn | by intros v (? & ? & _)].
  - autorewrite with len. change (len FORM_DATA) with 38. unfold TEMPMAX. lia.
Qed.

Lemma length_line l : length (line l) = (length l + 2)%nat.
Proof. unfold line. by rewrite length_app. Qed.

Lemma headers_length headers : (length headers <= length (flat_map line headers))%nat.
Proof. induction headers as [| l headers IH]; [done |]. cbn [flat_map length]. rewrite length_app, length_line. lia. Qed.

Lemma field_headers name D b :
  quoted_name name ->
  let data := line (FORM_DATA ++ name ++ [34]) ++ line [] ++ D in
  part_headers (S (length data)) (mkFline data b false) [] [] = Some (Some (name, []), mkFline D true false).
Proof.
  intros Hn data. destruct (quoted_name_chars name Hn) as (_ & H34 & H61).
  destruct (disposition_plain name [34] Hn) as [Hp Hne]; [by apply (bool_decide_unpack _); vm_compute | done |].
  subst data. rewrite (part_headers_line _ _ _ b [] [] 1 name 0 []); try done.
  - by apply name_of_disposition.
  - by apply no_filename.
  - apply Hn.
Qed.

Lemma upload_headers name filename headers D b :
  quoted_name name -> good_filename filename -> Forall other_line headers ->
  let data := line (FORM_DATA ++ name ++ 34 :: bytes "; filename=" ++ 34 :: filename ++ [34]) ++ flat_map line headers ++ line [] ++ D in
  part_headers (S (length data)) (mkFline data b false) [] [] = Some (Some (name, filename), mkFline D true false).
Proof.
  intros Hn (Hfne & Hf & Hfl) Hh data. destruct (quoted_name_chars name Hn) as (_ & H34 & H61).
  assert (Hf34 : 34 ∉ filename) by (eapply Forall_not_elem; [exact Hf |]; cbn; lia).
  destruct (disposition_plain name (34 :: bytes "; filename=" ++ 34 :: filename ++ [34]) Hn) as [Hp Hne].
  { apply Forall_cons. split; [by apply (bool_decide_unpack _); vm_compute |]. apply Forall_app.
    split; [by apply (bool_decide_unpack _); vm_compute |]. apply Forall_cons. split; [by apply (bool_decide_unpack _); vm_compute |].
    apply Forall_app. split; [| by apply (bool_decide_unpack _); vm_compute]. eapply Forall_impl; [exact Hf | by intros v (? & _ & ? & _)]. }
  { autorewrite with len. change (len (bytes "; filename=")) with 11. lia. }
  subst data. rewrite (part_headers_line _ _ _ b [] [] 1 name 1 filename); try done.
  - rewrite (bool_decide_eq_false_2 (filename = [])) by (intros ->; done). cbn [Z.eqb andb negb]. apply part_headers_others; [done |].
    rewrite !length_app. pose proof (headers_length headers). rewrite length_line. lia.
  - by apply name_of_disposition.
  - by apply filename_of_disposition.
  - apply Hn.
Qed.

(** What has been read so far. *)
Definition form_holds (st : form_st) (s : gmap text text * Z * list (text * list Z)) : Prop :=
  let '(form, files, trace) := st in
  let '(m, n, made) := s in
  vartab_ok form /\ names_ok (slots form) /\ vars_of form = m /\ files = n /\ files_made trace = made.

Section part.
Context (env : form_env) (mh : text).
Hypothesis (Henv : env_ok env) (Hmh : good_header mh).

(** The data of a part from its start, behind the blank line. *)
Lemma part_data_all file slot R u last D st :
  (forall u st (begin : bool) x, R u st -> data_ok file x -> R (u ++ (if begin then crlf else []) ++ x) (put_line file slot begin x st)) ->
  ~ occurs mh u -> data_ok file u -> R [] st ->
  let data := u ++ crlf ++ line (ending mh last) ++ D in
  exists st', part_data (S (length data)) mh (mh ++ bytes "--") file slot true (mkFline data true false) st =
    Some (last, false, mkFline D true false, st') /\ R u st'.
Proof.
  intros HR Hu Hd H0 data.
  destruct (part_data_reads mh file slot R Hmh HR (S (length data)) last D (mkFline data true false) u [] true st) as (st' & -> & H);
    [cbn; lia | done | done | done | done |]. by exists st'.
Qed.

Lemma form_part_field name value last D b st s :
  good_item mh (Field name value) -> form_holds st s ->
  exists st', form_part env mh (mkFline (item_text (Field name value) ++ crlf ++ line (ending mh last) ++ D) b false) st =
    Some (negb last, mkFline D true false, st') /\ form_holds st' (add_item env s (Field name value)).
Proof.
  destruct st as [[form files] trace], s as [[m n] made]. intros (Hn & Hv & Ho) (Hok & Hnm & Hm & -> & Hmade).
  destruct (quoted_name_chars name Hn) as (Hg & _ & _). unfold form_part. cbn [item_text fl_data].
  rewrite <- !app_assoc, field_headers by done. cbn [mbind option_bind fl_data].
  pose proof (vartab_find_slot form name Hok Hnm Hg) as Hf. destruct (vartab_find form name) as [slot vt]. rewrite Hm in Hf.
  destruct Hf as (i & -> & Hs & Hok' & Hnm' & Hm'). rewrite (proj2 (Z.ltb_ge _ _)) by lia.
  unfold part_open. rewrite !bool_decide_eq_true_2 by done. cbn [mbind option_bind negb]. rewrite !bool_decide_eq_true_2 by done. cbn [negb].
  set (v0 := default [] (m !! name)) in *.
  destruct (part_data_all false (Z.of_nat i) (field_has i name v0 m trace) value last D (vt, trace)) as ([form' trace'] & -> & H).
  - intros. apply field_put; [apply Hg | done | done].
  - done.
  - by right.
  - unfold field_has. rewrite app_nil_r. split_and!; try done; apply Hs.
  - destruct H as (_ & H1 & H2 & H3 & ->). eexists. split; [done |]. by split_and!.
Qed.

Lemma form_part_upload name filename headers content last D b st s :
  good_item mh (Upload name filename headers content) -> form_holds st s ->
  exists st', form_part env mh (mkFline (item_text (Upload name filename headers content) ++ crlf ++ line (ending mh last) ++ D) b false) st =
    Some (negb last, mkFline D true false, st') /\ form_holds st' (add_item env s (Upload name filename headers content)).
Proof.
  destruct st as [[form files] trace], s as [[m n] made]. intros (Hn & Hfn & Hh & Ho) (Hok & Hnm & Hm & -> & Hmade).
  destruct (quoted_name_chars name Hn) as (Hg & _ & _). unfold form_part. cbn [item_text fl_data].
  rewrite <- !app_assoc, upload_headers by done. cbn [mbind option_bind fl_data].
  pose proof (vartab_find_slot form name Hok Hnm Hg) as Hf. destruct (vartab_find form name) as [slot vt]. rewrite Hm in Hf.
  destruct Hf as (i & -> & Hs & Hok1 & Hnm1 & Hm1). rewrite (proj2 (Z.ltb_ge _ _)) by lia.
  set (name2 := bytes "name." ++ name). assert (Hg2 : good_name name2).
  { split; [done |]. apply Forall_app. split; [by apply (bool_decide_unpack _); vm_compute | apply Hg]. }
  assert (Hnn : name <> name2) by (intros H; apply (f_equal length) in H; unfold name2 in H; rewrite length_app in H; cbn in H; lia).
  destruct (cleaned_filename env filename Henv Hfn) as [Hcl Hcne].
  unfold part_open. fold name2. rewrite (bool_decide_eq_false_2 (filename = [])) by (intros ->; by destruct Hfn).
  pose proof (vartab_find_slot vt name2 Hok1 Hnm1 Hg2) as Hf. pose proof (vartab_find_keeps vt name2 i name _ Hnm1 Hs (proj1 Hg) Hnn) as Hk.
  destruct (vartab_find vt name2) as [fn vt2]. cbn [snd] in Hk. destruct Hf as (j & -> & Hs2 & Hok2 & Hnm2 & Hm2).
  rewrite (proj2 (Z.ltb_ge _ _)) by lia. rewrite Hcl. cbn [mbind option_bind]. rewrite form_temp_name by done. cbn [mbind option_bind].
  destruct (set_value_slot vt2 j name2 _ (cleaned env filename) Hs2 (proj1 Hg2) Hok2 Hnm2) as (_ & Hok3 & Hnm3 & Hm3 & Hk3).
  assert (Hij : j <> i) by (intros ->; destruct Hs2 as [H1 _], Hk as [H2 _]; congruence).
  destruct (set_value_slot _ i name _ (temp_name env n) (Hk3 i _ _ Hij Hk) (proj1 Hg) Hok3 Hnm3) as (_ & Hok4 & Hnm4 & Hm4 & _).
  rewrite (bool_decide_eq_false_2 (cleaned env filename = [])) by done. cbn [negb].
  set (vt4 := set_value (set_value _ _ _) _ _) in *.
  destruct (part_data_all true (Z.of_nat i) (file_has vt4 (temp_name env n) made) content last D (vt4, trace ++ [FileOpen (temp_name env n)]))
    as ([form' trace'] & -> & H).
  - intros. by apply file_put.
  - done.
  - by left.
  - split; [done |]. cbn [snd]. by rewrite files_made_snoc, Hmade.
  - destruct H as [H1 H2]. cbn [fst snd] in H1, H2. subst form'. eexists. split; [done |]. cbn [part_close].
    rewrite bool_decide_eq_false_2 by done. split_and!; try done; [| by rewrite files_made_snoc, H2].
    rewrite Hm4, Hm3, Hm2, Hm1. rewrite insert_insert_eq. apply map_eq. intros k. rewrite !lookup_insert. repeat case_decide; done.
Qed.

Lemma form_part_item it last D b st s :
  good_item mh it -> form_holds st s ->
  exists st', form_part env mh (mkFline (item_text it ++ crlf ++ line (ending mh last) ++ D) b false) st =
    Some (negb last, mkFline D true false, st') /\ form_holds st' (add_item env s it).
Proof. destruct it; [apply form_part_field | apply form_part_upload]. Qed.
End part.

(** ** A whole form *)

Lemma items_text_cons mh it items :
  items_text mh (it :: items) =
    item_text it ++ crlf ++ line (ending mh (bool_decide (items = []))) ++ items_text mh items.
Proof. cbn [items_text]. unfold ending. by destruct items. Qed.

Lemma length_items_text mh items : (length items <= length (items_text mh items))%nat.
Proof.
  induction items as [| it items IH]; [done |]. rewrite items_text_cons, !length_app. cbn [length]. unfold crlf. cbn [length]. lia.
Qed.

Lemma form_parts_items env mh items : env_ok env -> good_header mh -> forall fuel st s b,
  Forall (good_item mh) items -> form_holds st s -> (length items < fuel)%nat ->
  exists st', form_parts fuel env mh (mkFline (items_text mh items) b false) st = Some st' /\ form_holds st' (foldl (add_item env) s items).
Proof.
  intros Henv Hmh. induction items as [| it items IH]; intros fuel st s b Hg Hs Hf; (destruct fuel as [| fuel]; [cbn in Hf; lia |]).
  - cbn. by exists st.
  - apply Forall_cons in Hg as [Hit Hg]. cbn [form_parts]. rewrite items_text_cons.
    destruct (form_part_item env mh Henv Hmh it (bool_decide (items = [])) (items_text mh items) b st s Hit Hs) as (st1 & -> & Hs1).
    cbn [mbind option_bind foldl]. case_bool_decide as Hi; cbn [negb].
    + subst items. by exists st1.
    + apply IH; [done | done | cbn in Hf; lia].
Qed.

(** ** The length in front of the data *)

Lemma length_dec_pos_pow k : forall fuel n, 0 <= n < 10 ^ Z.of_nat (S k) -> (length (dec_pos fuel n) <= S k)%nat.
Proof.
  induction k as [| k IH]; intros fuel n Hn; (destruct fuel as [| fuel]; [cbn; lia |]); cbn [dec_pos]; rewrite length_app; cbn [length].
  - change (10 ^ Z.of_nat 1) with 10 in Hn. rewrite (proj2 (Z.leb_gt _ _)) by lia. cbn. lia.
  - rewrite Nat2Z.inj_succ, Z.pow_succ_r in Hn by lia. specialize (IH fuel (n `div` 10)).
    destruct (10 <=? n); [| cbn; lia]. assert (0 <= n `div` 10 < 10 ^ Z.of_nat (S k)); [| lia]. 
    split; [apply Z.div_pos; lia | apply Z.div_lt_upper_bound; lia].
Qed.

Lemma dec_value_zeros k d : dec_value (replicate k 48 ++ d) = dec_value d.
Proof. unfold dec_value. rewrite foldl_app. f_equal. induction k as [| k IH]; [done |]. exact IH. Qed.

Lemma pad0_spec n : 0 <= n < 10 ^ 8 ->
  Forall (fun c => DIGIT c = true) (pad0 7 n) /\ dec_value (pad0 7 n) = n /\ (length (pad0 7 n) = 7%nat \/ length (pad0 7 n) = 8%nat).
Proof.
  intros Hn. unfold pad0. rewrite (proj2 (Z.ltb_ge _ _)), Z.abs_eq by lia. cbn [app]. rewrite len_nil.
  destruct (dec_pos_spec 10 n) as (Hd & _ & Hv); [lia | lia |]. split_and!.
  - apply Forall_app. split; [by apply Forall_replicate | done].
  - by rewrite dec_value_zeros.
  - pose proof (length_dec_pos_pow 7 10 n Hn) as Hl. rewrite length_app, length_replicate. unfold len. lia.
Qed.

Lemma span_digits_all d : Forall (fun c => DIGIT c = true) d -> span_digits d = d.
Proof. induction 1 as [| c d Hc _ IH]; [done |]. cbn. by rewrite Hc, IH. Qed.

Lemma scanf_digits d : Forall (fun c => DIGIT c = true) d -> d <> [] -> scanf_d d = Some (i32 (dec_value d)).
Proof.
  intros Hd Hne. unfold scanf_d. destruct d as [| c d]; [done |]. pose proof Hd as [Hc _]%Forall_cons. unfold DIGIT in Hc.
  cbn [skip_isspace]. replace ((c =? 32) || (9 <=? c) && (c <=? 13)) with false by lia.
  rewrite !(proj2 (Z.eqb_neq c _)) by lia. by rewrite (span_digits_all (c :: d)).
Qed.

(** The connection, as [read_form_data] takes it apart. *)
Lemma swebsock_post_read t : len t < 10 ^ 8 ->
  let conn := swebsock_post (len t) t in
  8 <= len conn /\ scanf_d (cstr (take 8 conn)) = Some (len t) /\ take (Z.to_nat (len t)) (drop 8 conn) = t.
Proof.
  intros Ht conn. pose proof (len_nonneg t). destruct (pad0_spec (len t)) as (Hd & Hv & Hl); [lia |].
  subst conn. unfold swebsock_post. set (h := take 8 (pad0 7 (len t) ++ [0])).
  assert (Hh : length h = 8%nat /\ cstr h = pad0 7 (len t)).
  { subst h. rewrite length_take, length_app. split; [cbn [length]; lia |].
    assert (Hc : Forall is_char (pad0 7 (len t))) by (eapply Forall_impl; [exact Hd |]; unfold DIGIT, is_char; intros; lia).
    destruct Hl as [Hl | Hl].
    - rewrite take_ge by (rewrite length_app; cbn [length]; lia). by apply cstr_app.
    - rewrite <- Hl, take_app_length. by apply cstr_chars. }
  destruct Hh as [Hh8 Hhc]. rewrite <- Hh8. rewrite take_app_length, drop_app_length, Hhc. split_and!.
  - unfold len. rewrite length_app. lia.
  - rewrite scanf_digits, Hv, i32_small; [done | lia | done |]. intros E. rewrite E in Hl. cbn in Hl. lia.
  - replace (len t - len t) with 0 by lia. rewrite app_nil_r, to_nat_len. rewrite !take_ge; [done | lia | rewrite take_ge; lia].
Qed.

(** ** Single-part forms *)

Lemma fline_loop_noncr linemax data : forall line,
  13 ∉ data -> exists x f', fline_loop linemax data false line = (line ++ x, f') /\ data = x ++ fl_data f' /\ saw_cr f' = false /\
    (data <> [] -> (length (fl_data f') < length data)%nat).
Proof.
  induction data as [| v data IH]; intros line Hd.
  - exists [], (mkFline [] false false). by rewrite app_nil_r.
  - apply not_elem_of_cons in Hd as [Hv Hd]. cbn [fline_loop]. rewrite andb_false_r, (proj2 (Z.eqb_neq v 13)) by done. cbn [negb andb].
    case_match.
    + by exists [v], (mkFline data false false); split_and!; cbn; try lia.
    + destruct (IH (line ++ [v]) Hd) as (x & f' & -> & -> & Hc & Hl). exists (v :: x), f'. rewrite <- app_assoc. split_and!; try done.
      intros _. cbn [length]. destruct (decide (x ++ fl_data f' = [])) as [E | E]; [| specialize (Hl E); lia].
      apply app_eq_nil in E as [-> ->]. cbn. lia.
Qed.

Lemma read_fline_noncr linemax f :
  saw_cr f = false -> 13 ∉ fl_data f ->
  exists ok x f', read_fline linemax f = (ok, x, is_begin f, f') /\ fl_data f = x ++ fl_data f' /\ saw_cr f' = false /\
    (fl_data f = [] /\ ok = -1 \/ 0 <= ok /\ (length (fl_data f') < length (fl_data f))%nat).
Proof.
  intros Hc Hd. destruct (fline_loop_noncr linemax (fl_data f) [] Hd) as (x & f' & H & Hx & Hc' & Hl).
  unfold read_fline. rewrite Hc, H. cbn [app]. eexists _, x, f'. split; [done |]. split_and!; try done.
  destruct (fl_data f) as [| v l]; [by left | right]. pose proof (len_nonneg x). split; [done | by apply Hl].
Qed.

Lemma gather_data fuel : forall line f work,
  saw_cr f = false -> Forall (fun v => is_char v /\ v <> 13) (fl_data f) -> Forall is_char line -> (length (fl_data f) < fuel)%nat ->
  gather fuel line f work = Some (work ++ line ++ fl_data f).
Proof.
  induction fuel as [| fuel IH]; intros line f work Hc Hd Hl Hf; [lia |]. cbn [gather]. rewrite cstr_chars by done.
  destruct (read_fline_noncr TEMPMAX f Hc) as (ok & x & f' & -> & Hx & Hc' & Hok).
  { eapply Forall_not_elem; [exact Hd |]. cbn. lia. }
  rewrite Hx in Hd. apply Forall_app in Hd as [Hdx Hd]. destruct Hok as [[H0 ->] | [H0 Hlen]].
  - rewrite H0, app_nil_r. done.
  - rewrite (proj2 (Z.leb_le _ _)) by lia. rewrite IH; [| done | done | | lia].
    + by rewrite Hx, <- !app_assoc.
    + eapply Forall_impl; [exact Hdx | by intros v []].
Qed.

(** Reading what [swebsock] passes on. *)
Lemma read_form_data_post env t form files :
  len t < 10 ^ 8 -> t <> [] ->
  read_form_data env (swebsock_post (len t) t) form files =
    let '(ok, temp, _, f) := read_fline TEMPMAX (fline_first t) in
    if cval (cstr temp) 0 =? 45 then
      if 200 <=? len (cstr temp) then None else form_multi env (cstr temp) f (form_clear form, files, [])
    else
      work ← gather (S (length (fl_data f))) temp f [];
      Some (form_single (work ++ [38]) FORM_NAME [] (-1) (form_clear form), files, []).
Proof.
  intros Ht Hne. destruct (swebsock_post_read t Ht) as (H8 & Hs & Hd). unfold read_form_data.
  rewrite (proj2 (Z.ltb_ge _ _)) by done. rewrite Hs. cbn [mbind option_bind]. rewrite Hd.
  rewrite (proj2 (Z.eqb_neq _ _)); [done |]. destruct t; [done |]. rewrite len_cons. pose proof (len_nonneg t). lia.
Qed.

(** The first line starts with the first character. *)
Lemma read_fline_first t : 13 ∉ t -> Forall is_char t ->
  exists ok x f', read_fline TEMPMAX (fline_first t) = (ok, x, false, f') /\ t = x ++ fl_data f' /\ saw_cr f' = false /\ cval (cstr x) 0 = cval t 0.
Proof.
  intros Hd Hc. destruct t as [| v t]; [by exists (-1), [], (mkFline [] false false) |].
  unfold read_fline. cbn [fline_first fl_data saw_cr is_begin fline_loop]. apply not_elem_of_cons in Hd as [Hv Hd].
  rewrite andb_false_r, (proj2 (Z.eqb_neq v 13)) by done. cbn [negb andb app]. change (len [v]) with 1. change (TEMPMAX - 10 <=? 1) with false.
  change (TEMPMAX - 2 <=? 1) with false. cbn [orb].
  destruct (fline_loop_noncr TEMPMAX t [v] Hd) as (x & f' & -> & -> & Hcr & _). eexists _, ([v] ++ x), f'. split; [done |].
  split_and!; try done. apply Forall_cons in Hc as [Hc _]. unfold is_char in Hc. cbn. by rewrite (proj2 (Z.eqb_neq v 0)) by lia.
Qed.

Lemma read_single env t form files :
  len t < 10 ^ 8 -> Forall (fun v => is_char v /\ v <> 13) t -> cval t 0 <> 45 -> t <> [] ->
  read_form_data env (swebsock_post (len t) t) form files =
    Some (form_single (t ++ [38]) FORM_NAME [] (-1) (form_clear form), files, []).
Proof.
  intros Ht Hc H45 Hne. rewrite read_form_data_post by done.
  assert (Hch : Forall is_char t) by (eapply Forall_impl; [exact Hc | by intros v []]).
  destruct (read_fline_first t) as (ok & x & f' & -> & Hx & Hcr & Hv0); [eapply Forall_not_elem; [exact Hc |]; cbn; lia | done |].
  rewrite Hv0, (proj2 (Z.eqb_neq _ _)) by done. rewrite Hx in Hc, Hch. apply Forall_app in Hc as [_ Hc]. apply Forall_app in Hch as [Hch _].
  rewrite gather_data by (done || lia). cbn [mbind option_bind app]. by rewrite <- Hx.
Qed.

Lemma read_multi env mh items form files :
  env_ok env -> good_header mh -> Forall (good_item mh) items -> vartab_ok form -> len (form_body mh items) < 10 ^ 8 ->
  exists st, read_form_data env (swebsock_post (len (form_body mh items)) (form_body mh items)) form files = Some st /\
    form_holds st (foldl (add_item env) (∅, files, []) items).
Proof.
  intros Henv Hmh Hg Hok Hl. pose proof Hmh as (H45 & Hp & Hlm). 
  rewrite read_form_data_post; [| done | by destruct mh].
  assert (Hr : read_fline TEMPMAX (fline_first (form_body mh items)) = (len mh, mh, false, mkFline (items_text mh items) true false)).
  { unfold form_body, line, crlf. rewrite <- app_assoc. cbn [app]. by apply read_fline_line. }
  rewrite Hr. rewrite plain_cstr by done. assert (Hd : (cval mh 0 =? 45) = true) by (destruct mh; [done | by injection H45 as ->]). rewrite Hd.
  rewrite (proj2 (Z.leb_gt _ _)) by lia. unfold form_multi. rewrite (proj2 (Z.leb_gt _ _)) by lia. cbn [fl_data].
  destruct (form_clear_ok form Hok) as (Hok1 & Hnm1 & Hv1).
  apply form_parts_items; [done | done | done | by split_and! |]. pose proof (length_items_text mh items). lia.
Qed.

(** Every file made is removed in the end. *)
Lemma add_items_removed env items : forall s,
  0 <= s.1.2 -> Forall (fun f => f.1 ∈ form_temp_unlinks env s.1.2) s.2 ->
  let s' := foldl (add_item env) s items in Forall (fun f => f.1 ∈ form_temp_unlinks env s'.1.2) s'.2.
Proof.
  induction items as [| it items IH]; intros [[m n] made] Hn Hm; [done |]. cbn [foldl]. cbn in Hn, Hm.
  apply IH; destruct it; cbn; try lia; [done |]. unfold form_temp_unlinks in *. apply Forall_cons. split.
  - cbn. apply list_elem_of_fmap. exists n. split; [done |]. apply elem_of_seqZ. lia.
  - eapply Forall_impl; [exact Hm |]. cbn. intros f (k & -> & Hk)%list_elem_of_fmap. apply list_elem_of_fmap.
    exists k. split; [done |]. rewrite elem_of_seqZ in *. lia.
Qed.

(** ** Properties *)

(** C19: The data of a single-part form is read back as it was filled in.  The
    fields are encoded as a browser sends them, names and values, passed on by
    [swebsock] and read line by line; they are less than 10^8 bytes, and do not
    begin with a dash.  Then the table holds under every key the values of the
    fields whose encoded name is that key, in order with a space between them
    and without carriage returns, and nothing of the form before.  The code does
    not decode names (formsing.c:78), so that a name is its key if it has only
    letters, digits and [*-._] ([form_encode_plain]); other names are found in
    their encoded form only ([encoded_name]).  Without the condition on the dash
    all fields are lost ([leading_dash], readform.c:92). *)
Theorem form_reads_fields env fields form files key :
  vartab_ok form -> Forall good_field fields -> cval (form_text fields) 0 <> 45 -> len (form_text fields) < 10 ^ 8 -> key <> [] ->
  exists form', read_form_data env (swebsock_post (len (form_text fields)) (form_text fields)) form files = Some (form', files, []) /\
    value_at form' (vartab_is form' key) = foldl join None (filter (fun f => f.1 = key) (map received fields)).*2 /\ vartab_ok form'.
Proof.
  intros Hok Hg H45 Hl Hne. destruct (form_clear_ok form Hok) as (Hok1 & Hnm1 & Hv1).
  destruct (read_fields fields (-1) (form_clear form) Hok1 Hnm1 Hg) as (Hv & Hok' & _).
  rewrite Hv1 in Hv. exists (form_single (form_text fields ++ [38]) FORM_NAME [] (-1) (form_clear form)). split; [destruct fields as [| f fields] |].
  - done.
  - apply read_single; [done | by apply form_text_chars | done |]. apply Forall_cons in Hg as [[Hf _] _].
    intros E. apply Hf, form_encode_nil. destruct fields; cbn [form_text] in E; unfold field_text in E;
      rewrite <- ?app_assoc in E; by destruct (form_encode f.1).
  - rewrite vartab_is_lookup by done. rewrite Hv, foldl_add_field, lookup_empty. done.
Qed.

Definition sample_env : form_env := mkEnv (bytes "/tmp") 4711 (<[32%nat := 95]> (zeros 256)).
Definition sample_fields : list (text * text) :=
  [(bytes "name", bytes "J. & M."); (bytes "box", bytes "a" ++ [13; 10] ++ bytes "b"); (bytes "my box", bytes "?"); (bytes "box", bytes "b=100%")].

(** A form with data of an earlier request. *)
Definition old_form : vartab := vartab_adds a_mak_vartab [(bytes "old", bytes "x"); (bytes "box", bytes "y")].

Lemma form_reads_fields_witness :
  exists form', read_form_data sample_env (swebsock_post (len (form_text sample_fields)) (form_text sample_fields)) old_form 0 = Some (form', 0, []) /\
    value_at form' (vartab_is form' (bytes "box")) = foldl join None (filter (fun f => f.1 = bytes "box") (map received sample_fields)).*2 /\ vartab_ok form'.
Proof.
  apply (form_reads_fields sample_env sample_fields old_form 0 (bytes "box")); [done | | done | done | done].
  by apply (bool_decide_unpack _); vm_compute.
Defined.

Example sample_form :
  form_text sample_fields = bytes "name=J.+%26+M.&box=a%0D%0Ab&my+box=%3F&box=b%3D100%25" /\
  (fun '(form', _, _) => (value_at form' (vartab_is form' (bytes "box")), value_at form' (vartab_is form' (bytes "old")))) <$>
    read_form_data sample_env (swebsock_post (len (form_text sample_fields)) (form_text sample_fields)) old_form 0 =
  Some (Some (bytes "a" ++ [10] ++ bytes "b b=100%"), None).
Proof. by vm_compute. Qed.

(** A name with a blank is in the table in its encoded form. *)
Example encoded_name :
  (fun '(form', _, _) => (value_at form' (vartab_is form' (bytes "my box")), value_at form' (vartab_is form' (bytes "my+box")))) <$>
    read_form_data sample_env (swebsock_post (len (form_text sample_fields)) (form_text sample_fields)) old_form 0 =
  Some (None, Some (bytes "?")).
Proof. by vm_compute. Qed.

(** A name that begins with a dash makes a multipart form of it. *)
Definition dash_fields : list (text * text) := [(bytes "-a", bytes "1"); (bytes "b", bytes "2")].
Example leading_dash :
  (fun '(form', _, _) => (value_at form' (vartab_is form' (bytes "-a")), value_at form' (vartab_is form' (bytes "b")))) <$>
    read_form_data sample_env (swebsock_post (len (form_text dash_fields)) (form_text dash_fields)) old_form 0 =
  Some (None, None).
Proof. by vm_compute. Qed.

(** C18: a multipart form is read back as it was filled in, whatever the files
    in it contain, as long as the line between the parts does not occur in the
    data: every field has its value (the values of one name one behind the
    other), every upload has under its name the name of a temporary file and
    under [name.NAME] its own name, without directories and bad characters,
    and exactly the uploaded bytes are written to that file; all files are
    among those removed in the end. *)
Theorem multipart_reads_items env mh items form files :
  env_ok env -> good_header mh -> Forall (good_item mh) items -> vartab_ok form -> 0 <= files ->
  len (form_body mh items) < 10 ^ 8 ->
  let '(vars, files', made) := foldl (add_item env) (∅, files, []) items in
  exists form' trace, read_form_data env (swebsock_post (len (form_body mh items)) (form_body mh items)) form files = Some (form', files', trace) /\
    (forall name, name <> [] -> value_at form' (vartab_is form' name) = vars !! name) /\ vartab_ok form' /\
    files_made trace = made /\ Forall (fun f => f.1 ∈ form_temp_unlinks env files') made.
Proof.
  intros Henv Hmh Hg Hok Hf Hl. destruct (read_multi env mh items form files Henv Hmh Hg Hok Hl) as ([[form' n] trace] & Hr & Hs).
  pose proof (add_items_removed env items (∅, files, []) Hf (Forall_nil_2 _)) as Hrm.
  destruct (foldl (add_item env) (∅, files, []) items) as [[vars files'] made]. destruct Hs as (Hok' & _ & Hv & -> & Hmade).
  exists form', trace. split_and!; try done; try apply Hok'. intros name Hne. by rewrite vartab_is_lookup, Hv.
Qed.

Definition sample_header : text := bytes "-----7d41b838504d8".
Definition sample_items : list form_item :=
  [Field (bytes "title") (bytes "My" ++ crlf ++ bytes "dog");
   Upload (bytes "pic") (bytes "C:\photos\the dog.gif") [bytes "Content-Type: image/gif"] ([0; 13; 13; 10; 10; 255] ++ crlf);
   Field (bytes "title") (bytes "!")].

Lemma not_occurs mh t : forallb (fun n => negb (prefixb mh (drop n t))) (seq 0 (S (length t))) = true -> ~ occurs mh t.
Proof.
  rewrite forallb_forall. intros H (p & q & ->). specialize (H (length p)). rewrite drop_app_length in H.
  assert (Hp : prefixb mh (mh ++ q) = true) by (apply prefixb_spec; by eexists). rewrite Hp in H.
  discriminate H. apply in_seq. rewrite length_app. lia.
Qed.

Lemma sample_items_good : Forall (good_item sample_header) sample_items.
Proof.
  repeat apply Forall_cons_2; try apply Forall_nil_2; cbn [good_item]; unfold quoted_name, good_filename; split_and!;
    try (by apply (bool_decide_unpack _); vm_compute); try (by apply not_occurs; vm_compute).
Qed.

Lemma multipart_reads_items_witness :
  let '(vars, files', made) := foldl (add_item sample_env) (∅, 0, []) sample_items in
  exists form' trace, read_form_data sample_env (swebsock_post (len (form_body sample_header sample_items)) (form_body sample_header sample_items)) old_form 0 = Some (form', files', trace) /\
    (forall name, name <> [] -> value_at form' (vartab_is form' name) = vars !! name) /\ vartab_ok form' /\
    files_made trace = made /\ Forall (fun f => f.1 ∈ form_temp_unlinks sample_env files') made.
Proof.
  apply (multipart_reads_items sample_env sample_header sample_items old_form 0).
  - split; [done |]. split; [done |]. apply (bool_decide_unpack _). vm_compute. exact I.
  - split; [done |]. split; [| done]. apply (bool_decide_unpack _). vm_compute. exact I.
  - exact sample_items_good.
  - done.
  - done.
  - vm_compute. reflexivity.
Defined.

Example sample_multipart :
  (fun '(form', files, trace) => (value_at form' (vartab_is form' (bytes "title")), value_at form' (vartab_is form' (bytes "name.pic")), files, files_made trace)) <$>
    read_form_data sample_env (swebsock_post (len (form_body sample_header sample_items)) (form_body sample_header sample_items)) old_form 0 =
  Some (Some (bytes "My" ++ crlf ++ bytes "dog!"), Some (bytes "the_dog.gif"), 1, [(bytes "/tmp/cau004711.0000", [0; 13; 13; 10; 10; 255; 13; 10])]).
Proof. by vm_compute. Qed.

(** C23: the lines of a form lose nothing: what one call of [read_fline] gives,
    with a CRLF behind it where the next line starts anew, is the beginning of
    the data that was left, of any bytes; the line fits its buffer with its
    terminator, and every call but the one that reports the end takes a byte
    at least. *)
Theorem read_fline_lossless linemax f :
  10 < linemax ->
  let '(ok, line, begin, f') := read_fline linemax f in
  len line < linemax /\ begin = is_begin f /\ pending f = line ++ (if is_begin f' then crlf else []) ++ pending f' /\
  (ok = -1 /\ fl_data f = [] \/ ok = len line /\ (length (fl_data f') < length (fl_data f))%nat).
Proof.
  intros Hm. pose proof (fline_loop_fits linemax (fl_data f) (saw_cr f) [] Hm) as Hfit. rewrite len_nil in Hfit.
  pose proof (fline_loop_lossless linemax (fl_data f) (saw_cr f) []) as Hl. unfold read_fline.
  destruct (fline_loop linemax (fl_data f) (saw_cr f) []) as [line f']. destruct Hl as [Hl Hlen]. split_and!; [| done | done |].
  - apply Hfit. destruct (saw_cr f); lia.
  - destruct (fl_data f); [by left | right]. split; [done |]. cbn in *. lia.
Qed.

Lemma read_fline_lossless_witness :
  let f := mkFline [10; 65; 13; 13; 10; 66] false true in
  let '(ok, line, begin, f') := read_fline TEMPMAX f in
  len line < TEMPMAX /\ begin = is_begin f /\ pending f = line ++ (if is_begin f' then crlf else []) ++ pending f' /\
  (ok = -1 /\ fl_data f = [] \/ ok = len line /\ (length (fl_data f') < length (fl_data f))%nat).
Proof. apply (read_fline_lossless TEMPMAX (mkFline [10; 65; 13; 13; 10; 66] false true)). reflexivity. Defined.
