(* ===== verification/GroupCache.v ===== *)
(** The access level of a user in a group (src/CV2/sweb: groupaccess.c): a cache
    of the last answers of the data base, of limited age, and cleared in
    effect by every change of groups.  The data base and the clock are what the
    operating system gives: each call of [group_access] gets the time before
    its query, the answer, and the time after it. *)
From S2P Require Import Prelude Memory Chix ChixEdit Vartab.

(** ** The code *)

Definition CACHE_SIZE : Z := 40.
Definition CACHE_AGE : Z := 100.

(** One slot of the arrays [cache_name], [cache_time], [cache_used] and
    [cache_valu]. *)
Record slot := mkSlot { c_name : text; c_time : Z; c_used : Z; c_valu : Z }.
Abbreviation cache := (list slot) (only parsing).

(** The statics before the first call: [cache_used[0]] is -1. *)
Definition cache_static : cache := mkSlot [] 0 (-1) 0 :: replicate 39 (mkSlot [] 0 0 0).
Definition cache_init (c : cache) : cache :=
  match c with
  | s :: _ => if c_used s <? 0 then map (fun s => mkSlot [] 0 0 (c_valu s)) c else c
  | [] => c
  end.

Definition group_name (userid gtype gname : text) : text := userid ++ [46] ++ gtype ++ [46] ++ gname.

(** The search: the slot of the group, the first empty one, or the one least
    recently used. *)
Inductive found := Slot (i : Z) | Zero (i : Z) | Used (i : Z).
Fixpoint find_group (group : text) (c : cache) (i used uage : Z) : found :=
  match c with
  | [] => Used used
  | s :: c =>
      if bool_decide (group = c_name s) then Slot i
      else if c_time s =? 0 then Zero i
      else if c_used s <? uage then find_group group c (i + 1) i (c_used s)
      else find_group group c (i + 1) used uage
  end.

Definition set_slot (c : cache) (i : Z) (f : slot -> slot) : cache := alter f (Z.to_nat i) c.

(** The query at the end: [value] is its answer, [now] the time after it. *)
Definition group_query (c : cache) (slot : Z) (value now : Z) : Z * cache :=
  (value, set_slot c slot (fun s => mkSlot (c_name s) now now value)).

Definition group_access (cache_age : Z) (userid gtype gname : text) (now1 value now2 : Z) (c : cache) : Z * cache :=
  let c := cache_init c in
  let group := group_name userid gtype gname in
  let named i := set_slot c i (fun s => mkSlot group (c_time s) (c_used s) (c_valu s)) in
  match find_group group c 0 0 (match c with s :: _ => c_used s | [] => 0 end) with
  | Slot i =>
      match zget c i with
      | Some s =>
          if Z.max (now1 - CACHE_AGE) cache_age <? c_time s
          then (c_valu s, set_slot c i (fun s => mkSlot (c_name s) (c_time s) now1 (c_valu s)))
          else group_query c i value now2
      | None => group_query c i value now2
      end
  | Zero i | Used i => group_query (named i) i value now2
  end.

Definition group_cache_age (t cache_age : Z) : Z := if 0 <? t then t else cache_age.

(** ** A process and its calls *)

(** What a process does with groups: it asks for an access level, or has changed
    groups ([group_update] ends with [group_cache_age (time (NULL))]). *)
Inductive event :=
  | Access (userid gtype gname : text) (now1 now2 : Z)
  | Update (now : Z).

Definition starts (e : event) : Z := match e with Access _ _ _ t _ => t | Update t => t end.
Definition ends (e : event) : Z := match e with Access _ _ _ _ t => t | Update t => t end.

(** The clock does not go back. *)
Fixpoint clock_ok (t : Z) (es : list event) : Prop :=
  match es with
  | [] => True
  | e :: es => t <= starts e /\ starts e <= ends e /\ clock_ok (ends e) es
  end.

(** The answers, given what the data base would say at each event. *)
Fixpoint answers (db : nat -> text -> text -> text -> Z) (p : nat) (es : list event) (c : cache) (age : Z) : list (option Z) :=
  match es with
  | [] => []
  | Access u o n t1 t2 :: es =>
      let '(v, c) := group_access age u o n t1 (db p u o n) t2 c in Some v :: answers db (S p) es c age
  | Update t :: es => None :: answers db (S p) es c (group_cache_age t age)
  end.

(** ** The invariant *)

(** Names in which the dots between the parts are the only ones. *)
Definition no_dot (t : text) : Prop := 46 ∉ t.

Lemma dot_inj (u u' s s' : text) : no_dot u -> no_dot u' -> u ++ 46 :: s = u' ++ 46 :: s' -> u = u' /\ s = s'.
Proof.
  revert u'. induction u as [| c u IH]; intros [| c' u'] Hu Hu' E.
  - by injection E as ->.
  - injection E as <- _. exfalso. apply Hu'. by left.
  - injection E as -> _. exfalso. apply Hu. by left.
  - injection E as <- E. apply not_elem_of_cons in Hu as [_ Hu], Hu' as [_ Hu'].
    destruct (IH u' Hu Hu' E) as [-> ->]. done.
Qed.

Lemma group_name_inj u o n u' o' n' :
  no_dot u -> no_dot u' -> no_dot o -> no_dot o' -> group_name u o n = group_name u' o' n' -> u = u' /\ o = o' /\ n = n'.
Proof.
  intros Hu Hu' Ho Ho' E. apply dot_inj in E as [-> E]; [| done | done]. by apply dot_inj in E as [-> ->].
Qed.

Lemma group_name_ne u o n : group_name u o n <> [].
Proof. unfold group_name. by destruct u. Qed.

Section process.
Context (db : nat -> text -> text -> text -> Z).

(** A slot holds an answer of an earlier query, with its time. *)
Definition slot_ok (past : list event) (s : slot) : Prop :=
  c_name s <> [] -> exists q u o n t1, past !! q = Some (Access u o n t1 (c_time s)) /\ c_name s = group_name u o n /\ c_valu s = db q u o n.
Definition cache_ok (past : list event) (age : Z) (c : cache) : Prop :=
  len c = CACHE_SIZE /\ Forall (slot_ok past) c /\ (forall p t, past !! p = Some (Update t) -> t <= age).

Lemma slot_ok_snoc past e s : slot_ok past s -> slot_ok (past ++ [e]) s.
Proof. intros H Hn. destruct (H Hn) as (q & u & o & n & t1 & Hq & ?). exists q, u, o, n, t1. split; [by apply lookup_app_l_Some | done]. Qed.

Lemma find_group_range group c : forall i used uage,
  match find_group group c i used uage with
  | Slot j => i <= j /\ exists s, c !! Z.to_nat (j - i) = Some s /\ c_name s = group
  | Zero j => i <= j < i + len c
  | Used j => j = used \/ i <= j < i + len c
  end.
Proof.
  induction c as [| s c IH]; intros i used uage; cbn [find_group]; [by left |]. rewrite len_cons.
  assert (Hn : forall j, i + 1 <= j -> Z.to_nat (j - i) = S (Z.to_nat (j - (i + 1)))) by lia.
  case_bool_decide as Hg; [split; [lia |]; exists s; by rewrite Z.sub_diag |].
  destruct (c_time s =? 0); [pose proof (len_nonneg c); lia |].
  destruct (c_used s <? uage).
  - specialize (IH (i + 1) i (c_used s)). destruct (find_group _ _ _ _ _); [| lia | destruct IH as [-> |]; right; pose proof (len_nonneg c); lia].
    destruct IH as (Hj & s' & Hs & ?). split; [lia |]. exists s'. by rewrite Hn.
  - specialize (IH (i + 1) used uage). destruct (find_group _ _ _ _ _); [| lia | destruct IH as [-> |]; [by left | right; lia]].
    destruct IH as (Hj & s' & Hs & ?). split; [lia |]. exists s'. by rewrite Hn.
Qed.

Lemma Forall_alter {A} (P : A -> Prop) f i (l : list A) : Forall P l -> (forall x, l !! i = Some x -> P x -> P (f x)) -> Forall P (alter f i l).
Proof.
  intros H Hf. apply Forall_lookup. intros j x Hx. rewrite Forall_lookup in H. destruct (decide (i = j)) as [<- | Hij].
  - rewrite list_lookup_alter_eq in Hx. destruct (l !! i) as [y |] eqn:Hy; [| done]. injection Hx as <-. apply Hf; [done | by eapply H].
  - rewrite list_lookup_alter_ne in Hx by done. by eapply H.
Qed.

Lemma len_set_slot c i f : len (set_slot c i f) = len c.
Proof. unfold set_slot, len. by rewrite length_alter. Qed.

Lemma cache_init_ok past age c : cache_ok past age c -> cache_ok past age (cache_init c).
Proof.
  intros (Hl & Hc & Ha). unfold cache_init. destruct c as [| s c]; [done |]. destruct (c_used s <? 0); [| done].
  split; [| split]; [| | done].
  - unfold len in *. by rewrite length_map.
  - apply Forall_forall. intros x Hx. apply list_elem_of_fmap in Hx as (y & -> & _). by intros [].
Qed.

(** A query keeps the invariant, with the event that asked. *)
Lemma put_ok past age c i u o n t1 t2 f :
  cache_ok past age c ->
  (forall s, c !! Z.to_nat i = Some s -> let s' := f s in c_name s' = group_name u o n /\ c_time s' = t2 /\ c_valu s' = db (length past) u o n) ->
  cache_ok (past ++ [Access u o n t1 t2]) age (set_slot c i f).
Proof.
  intros (Hl & Hc & Ha) Hf. split; [| split].
  - by rewrite len_set_slot.
  - apply Forall_alter; [eapply Forall_impl; [exact Hc | apply slot_ok_snoc] |]. intros s Hs _ _.
    destruct (Hf s Hs) as (-> & -> & ->). exists (length past), u, o, n, t1. by rewrite lookup_app_r, Nat.sub_diag by lia.
  - intros p t Hp. apply lookup_app_Some in Hp as [Hp | [_ Hp]]; [by eapply Ha |]. by destruct (p - length past)%nat as [| []].
Qed.

Lemma set_slot_twice c i f g : set_slot (set_slot c i f) i g = set_slot c i (fun s => g (f s)).
Proof. unfold set_slot. generalize (Z.to_nat i) as j. induction c as [| s c IH]; intros [| j]; try done. cbn. f_equal. apply IH. Qed.

(** One call: where its answer comes from. *)
Lemma group_access_from past age c u o n t1 t2 v c' :
  cache_ok past age c -> group_access age u o n t1 (db (length past) u o n) t2 c = (v, c') ->
  cache_ok (past ++ [Access u o n t1 t2]) age c' /\
  (v = db (length past) u o n \/
   exists q u' o' n' t t', past !! q = Some (Access u' o' n' t t') /\ group_name u' o' n' = group_name u o n /\
     v = db q u' o' n' /\ t1 - CACHE_AGE < t' /\ age < t').
Proof.
  intros Hok. unfold group_access. pose proof (cache_init_ok past age c Hok) as H. revert H. generalize (cache_init c) as c0.
  clear c Hok. intros c Hok. set (group := group_name u o n).
  pose proof (find_group_range group c 0 0 (match c with s :: _ => c_used s | [] => 0 end)) as Hf.
  destruct (find_group _ _ _ _ _) as [i | i | i]; unfold group_query; rewrite ?set_slot_twice.
  - destruct Hf as (Hi & s & Hs & Hname). rewrite Z.sub_0_r in Hs.
    unfold zget. rewrite (proj2 (Z.ltb_ge _ _)), Hs by lia. case_match eqn:Et; intros [= <- <-].
    + pose proof Hok as (Hl & Hc & Ha). split.
      * split; [by rewrite len_set_slot | split].
        -- apply Forall_alter; [eapply Forall_impl; [exact Hc | apply slot_ok_snoc] |].
           intros s' Hs' Hok' Hn'. cbn in *. apply slot_ok_snoc; [| done]. rewrite Forall_lookup in Hc. by eapply Hc.
        -- intros p t Hp. apply lookup_app_Some in Hp as [Hp | [_ Hp]]; [by eapply Ha |]. by destruct (p - length past)%nat as [| []].
      * right. rewrite Forall_lookup in Hc. destruct (Hc _ _ Hs) as (q & u' & o' & n' & t & Hq & Hn' & Hv); [by rewrite Hname; apply group_name_ne |].
        exists q, u', o', n', t, (c_time s). split_and!; try done; [congruence | lia | lia].
    + split; [| by left]. apply put_ok; [done |]. intros s' Hs'. rewrite Hs in Hs'. by injection Hs' as <-.
  - intros [= <- <-]. split; [by apply put_ok | by left].
  - intros [= <- <-]. split; [by apply put_ok | by left].
Qed.

(** The calls of a process from any moment on: where an answer comes from. *)
Definition answer_from (all : list event) (p : nat) (v : Z) : Prop :=
  forall u o n t1 t2, all !! p = Some (Access u o n t1 t2) ->
  exists q u' o' n' t t', all !! q = Some (Access u' o' n' t t') /\ (q <= p)%nat /\
    group_name u' o' n' = group_name u o n /\ v = db q u' o' n' /\ (q = p \/ t1 - CACHE_AGE < t') /\
    (forall r tr, (q < r < p)%nat -> all !! r <> Some (Update tr)).

Lemma answers_from all es : forall past age c,
  all = past ++ es -> cache_ok past age c ->
  (forall q r e e', (q < r)%nat -> all !! q = Some e -> all !! r = Some e' -> ends e <= starts e') ->
  Forall (fun e => 0 < starts e <= ends e) all ->
  forall j v, answers db (length past) es c age !! j = Some (Some v) -> answer_from all (length past + j) v.
Proof.
  induction es as [| e es IH]; intros past age c -> Hok Hclock Hpos j v Hj; [done |].
  assert (He : (past ++ e :: es) !! length past = Some e) by (by rewrite lookup_app_r, Nat.sub_diag by lia).
  assert (Happ : past ++ e :: es = (past ++ [e]) ++ es) by by rewrite <- app_assoc.
  assert (Hstep : forall age' c', cache_ok (past ++ [e]) age' c' -> forall j', j = S j' ->
    answers db (length (past ++ [e])) es c' age' !! j' = Some (Some v) -> answer_from (past ++ e :: es) (length past + j) v).
  { intros age' c' Hok' j' -> Hj'. pose proof (IH (past ++ [e]) age' c' Happ Hok' Hclock Hpos j' v Hj') as H.
    rewrite length_app in H. cbn [length] in H. by replace (length past + S j')%nat with (length past + 1 + j')%nat by lia. }
  destruct e as [u o n t1 t2 | t]; cbn [answers] in Hj.
  - destruct (group_access _ _ _ _ _ _ _ _) as [w c'] eqn:Ea. destruct (group_access_from past age c u o n t1 t2 w c' Hok Ea) as [Hok' Hw].
    destruct j as [| j]; [| eapply Hstep; [exact Hok' | done |]; by rewrite length_app, Nat.add_1_r].
    injection Hj as <-. rewrite Nat.add_0_r. intros u0 o0 n0 s1 s2 Hp. rewrite He in Hp. injection Hp as <- <- <- <- <-.
    destruct Hw as [-> | (q & u' & o' & n' & t & t' & Hq & Hn & -> & Hage & Hcur)].
    + exists (length past), u, o, n, t1, t2. split_and!; try done; [by left |]. intros; lia.
    + pose proof (lookup_lt_Some _ _ _ Hq). exists q, u', o', n', t, t'. split_and!; try done; [by apply lookup_app_l_Some | lia | by right |].
      intros r tr Hr Hu. assert (Hpast : past !! r = Some (Update tr)) by (rewrite lookup_app_l in Hu by lia; done).
      destruct Hok as (_ & _ & Ha). pose proof (Ha _ _ Hpast).
      pose proof (Hclock q r _ _ ltac:(lia) (lookup_app_l_Some _ _ _ _ Hq) Hu) as Ht. cbn in Ht. lia.
  - destruct j as [| j]; [done |]. eapply Hstep; [| done | by rewrite length_app, Nat.add_1_r].
    destruct Hok as (Hl & Hc & Ha). split; [done | split; [eapply Forall_impl; [exact Hc | apply slot_ok_snoc] |]].
    assert (Hpt : 0 < t) by (rewrite Forall_lookup in Hpos; specialize (Hpos _ _ He); cbn in Hpos; lia).
    unfold group_cache_age. rewrite (proj2 (Z.ltb_lt _ _)) by done. intros p t' Hp.
    apply lookup_app_Some in Hp as [Hp | [Hge Hp]].
    + pose proof (lookup_lt_Some _ _ _ Hp). pose proof (Hclock p (length past) _ _ ltac:(lia) (lookup_app_l_Some _ _ _ _ Hp) He) as Ht. cbn in Ht. lia.
    + destruct (p - length past)%nat as [| []]; [| done..]. injection Hp as ->. lia.
Qed.
End process.

Lemma cache_static_ok db : cache_ok db [] 0 cache_static.
Proof. split; [done | split; [| done]]. apply Forall_cons. split; [by intros [] |]. apply Forall_replicate. by intros []. Qed.

Lemma clock_ok_starts T es : clock_ok T es -> 0 < T -> Forall (fun e => T <= starts e /\ 0 < starts e <= ends e) es.
Proof.
  revert T. induction es as [| e es IH]; intros T H HT; [constructor |]. destruct H as (H1 & H2 & H3). apply Forall_cons. split; [lia |].
  eapply Forall_impl; [apply (IH (ends e)); [done | lia] |]. intros x (Hx1 & Hx2). lia.
Qed.

Lemma clock_ok_order es : forall T q r e e', clock_ok T es -> 0 < T -> (q < r)%nat -> es !! q = Some e -> es !! r = Some e' -> ends e <= starts e'.
Proof.
  induction es as [| e0 es IH]; intros T q r e e' H HT Hqr Hq Hr; [done |]. destruct H as (H1 & H2 & H3).
  destruct r as [| r]; [lia |]. cbn in Hr. destruct q as [| q].
  - injection Hq as ->. pose proof (clock_ok_starts _ _ H3 ltac:(lia)) as Hs. rewrite Forall_lookup in Hs. by destruct (Hs _ _ Hr).
  - cbn in Hq. eapply (IH (ends e0)); [done | lia | | done | done]. lia.
Qed.

(** ** Properties *)

(** C10: For any sequence of questions and changes of groups by a process, from
    its first call on, as long as the clock does not go back: an answer is what
    the data base said, now or at an earlier question with the same name in the
    cache, less than [CACHE_AGE] seconds ago and with no change of groups by
    this process in between.  A name in the cache joins user, owner and group by
    dots: it is the same question where users and owners have no dots, and can
    be one about another user where they have ([dots_collide]). *)
Theorem group_access_recent db es p u o n t1 t2 v :
  clock_ok 1 es ->
  es !! p = Some (Access u o n t1 t2) -> answers db 0 es cache_static 0 !! p = Some (Some v) ->
  exists q u' o' n' t t', es !! q = Some (Access u' o' n' t t') /\ (q <= p)%nat /\ v = db q u' o' n' /\
    group_name u' o' n' = group_name u o n /\
    (no_dot u -> no_dot o -> no_dot u' -> no_dot o' -> u' = u /\ o' = o /\ n' = n) /\
    (q = p \/ t1 - CACHE_AGE < t') /\ (forall r tr, (q < r < p)%nat -> es !! r <> Some (Update tr)).
Proof.
  intros Hclock Hp Hv.
  assert (Hfrom : answer_from db es p v).
  { apply (answers_from db es es [] 0 cache_static); [done | apply cache_static_ok | | | done].
    - intros q r e e'. by eapply clock_ok_order.
    - eapply Forall_impl; [apply (clock_ok_starts 1); [done | lia] |]. by intros e []. }
  destruct (Hfrom _ _ _ _ _ Hp) as (q & u' & o' & n' & t & t' & Hq & Hqp & Hn & Hval & Hage & Hno).
  exists q, u', o', n', t, t'. split_and!; try done. intros. by apply group_name_inj.
Qed.

(** A user who loses the access, and is asked about before and behind a change
    by this process: the second answer is from the cache, the third is not. *)
Definition sample_events : list event :=
  [Access (bytes "ann") (bytes "CONF") (bytes "1") 1000 1001; Access (bytes "ann") (bytes "CONF") (bytes "1") 1050 1050; Update 1060;
   Access (bytes "ann") (bytes "CONF") (bytes "1") 1060 1061].
Definition sample_db (p : nat) (u o n : text) : Z := if (p =? 0)%nat then 30 else 0.

Lemma group_access_recent_witness :
  exists q u' o' n' t t', sample_events !! q = Some (Access u' o' n' t t') /\ (q <= 3)%nat /\ 0 = sample_db q u' o' n' /\
    group_name u' o' n' = group_name (bytes "ann") (bytes "CONF") (bytes "1") /\
    (no_dot (bytes "ann") -> no_dot (bytes "CONF") -> no_dot u' -> no_dot o' ->
     u' = bytes "ann" /\ o' = bytes "CONF" /\ n' = bytes "1") /\
    (q = 3%nat \/ 1060 - CACHE_AGE < t') /\ (forall r tr, (q < r < 3)%nat -> sample_events !! r <> Some (Update tr)).
Proof.
  apply (group_access_recent sample_db sample_events 3 (bytes "ann") (bytes "CONF") (bytes "1") 1060 1061 0); [| done | by vm_compute].
  cbn. lia.
Defined.

Example sample_answers : answers sample_db 0 sample_events cache_static 0 = [Some 30; Some 30; None; Some 0].
Proof. by vm_compute. Qed.

(** The parts of a name in the cache are joined by dots: user [a.b] of group
    [d] of [c] has the slot of user [a] of group [d] of [b.c], and is given the
    access of that user. *)
Definition dotted_db (p : nat) (u o n : text) : Z := if bool_decide (u = bytes "a") then 30 else 0.
Example dots_collide :
  group_name (bytes "a.b") (bytes "c") (bytes "d") = group_name (bytes "a") (bytes "b.c") (bytes "d") /\
  answers dotted_db 0 [Access (bytes "a") (bytes "b.c") (bytes "d") 1 1; Access (bytes "a.b") (bytes "c") (bytes "d") 2 2]
    cache_static 0 = [Some 30; Some 30].
Proof. by vm_compute. Qed.
