(* ===== verification/Groups.v ===== *)
(** Membership of groups (src/CV2/sweb: groupupdate.c, funcpriv.c).  The rules of
    a group name users, patterns of user ids, and other groups; the table
    [groups] says who is in a group with what access.  When the rules of a
    group have changed, [group_update] makes its rows again, and those of all
    groups that include it, directly or not.

    The data base is three tables, lists of rows; a query is what its text says
    of them, and is taken to succeed.  LIKE is a parameter.  User ids and names
    fit their buffers and hold no character that ends a string in a query. *)
From S2P Require Import Prelude Memory Chix ChixEdit ChixSearch ChixParse Str Table Vartab CmlState GroupCache.

#[local] Set Warnings "-clear-no-such-hyp".

(** ** Privileges *)

(** The first three bytes are compared, the terminator among them. *)
Definition roleMatch (a b : text) : bool := bool_decide (take 3 (a ++ [0]) = take 3 (b ++ [0])).

Definition roles : list (text * Z) :=
  [(bytes "primary", 100); (bytes "organizer", 50); (bytes "instructor", 40); (bytes "include", 30); (bytes "readonly", 20);
   (bytes "writeonly", 10); (bytes "minimum", 10); (bytes "exclude", 0); (bytes "inherit", -1)].
Fixpoint role_code (temp : text) (l : list (text * Z)) : Z :=
  match l with
  | [] => 0
  | (r, code) :: l => if roleMatch temp r then code else role_code temp l
  end.
Definition privValue (role : text) : Z := role_code (strlower (take 19 role)) roles.

(** [None] is the null pointer that other codes give. *)
Definition privName (code : Z) : option text :=
  if code =? 100 then Some (bytes "primary")
  else if code =? 50 then Some (bytes "organizer")
  else if code =? 40 then Some (bytes "instructor")
  else if code =? 30 then Some (bytes "include")
  else if code =? 20 then Some (bytes "readonly")
  else if code =? 10 then Some (bytes "writeonly")
  else if code =? 0 then Some (bytes "exclude")
  else if code =? -1 then Some (bytes "inherit")
  else None.

Lemma priv_back code role : privName code = Some role -> privValue role = code.
Proof.
  unfold privName.
  repeat (lazymatch goal with |- context [code =? ?k] => destruct (Z.eqb_spec code k) as [-> |]; [by intros [= <-] |] end). done.
Qed.

(** ** The tables *)

Record rule := mkRule {
  r_owner : text; r_name : text; r_userid : text; r_wildcard : bool; r_subowner : text; r_subname : text;
  r_access : Z; r_optional : bool; r_byself : bool
}.
Record row := mkRow { g_userid : text; g_owner : text; g_name : text; g_access : Z; g_active : Z; g_priority : Z }.
Record tables := mkTables { grouprules : list rule; groups : list row; user_info : list text }.

#[export] Instance row_eq_dec : EqDecision row.
Proof. solve_decision. Defined.

Definition of_group (o n : text) (g : row) : bool := bool_decide (g_owner g = o) && bool_decide (g_name g = n).
Definition active_in (l : list Z) (g : row) : bool := bool_decide (g_active g ∈ l).

(** The rows that a condition selects. *)
Abbreviation where_ := List.filter (only parsing).

Section update.
Context (like : text -> text -> bool).

(** ** One group *)

Definition rule_access (r : rule) : Z := if r_optional r then Z.quot (r_access r) 10 else r_access r.
Definition rule_priority (r : rule) : Z :=
  if r_byself r && r_optional r then privValue (bytes "organizer") + 10 + Z.quot (r_access r) 10
  else if r_access r =? 0 then 99 else r_access r.

(** The rows that a rule gives: user id, access and priority. *)
Definition rule_rows (db : tables) (r : rule) : list (text * Z * Z) :=
  if bool_decide (r_owner r = r_subowner r) && bool_decide (r_name r = r_subname r) then []
  else if bool_decide (r_userid r = []) then
    let members := where_ (fun g => of_group (r_subowner r) (r_subname r) g && active_in [1] g) (groups db) in
    if rule_access r =? -1 then map (fun g => (g_userid g, g_access g, g_access g)) members
    else map (fun g => (g_userid g, rule_access r, rule_priority r)) (where_ (fun g => privValue (bytes "minimum") <=? g_access g) members)
  else if r_wildcard r then map (fun u => (u, rule_access r, rule_priority r)) (where_ (fun u => like u (r_userid r)) (user_info db))
  else [(r_userid r, rule_access r, rule_priority r)].

Definition set_groups (db : tables) (gs : list row) : tables := mkTables (grouprules db) gs (user_info db).

Definition insert_rule (owner name : text) (db : tables) (r : rule) : tables :=
  set_groups db (groups db ++ map (fun '(u, a, p) => mkRow u owner name a 0 p) (rule_rows db r)).

(** [SELECT MAX(priority) FROM groups WHERE userid=g.userid ...]. *)
Definition top_row (gs : list row) (g : row) : bool :=
  forallb (fun h => negb (bool_decide (g_userid h = g_userid g) && of_group (g_owner g) (g_name g) h && active_in [0] h) || (g_priority h <=? g_priority g)) gs.

(** The rows of the highest priority, copied with [active] 3. *)
Definition insert_top (owner name : text) (db : tables) : tables :=
  set_groups db (groups db ++
    remove_dups (map (fun g => mkRow (g_userid g) owner name (g_access g) 3 (g_priority g))
      (where_ (fun g => of_group owner name g && active_in [0] g && top_row (groups db) g) (groups db)))).

Definition delete_old (owner name : text) (db : tables) : tables :=
  set_groups db (where_ (fun g => negb (of_group owner name g && active_in [0; 1] g)) (groups db)).

Definition activate (owner name : text) (db : tables) : tables :=
  set_groups db (map (fun g => if of_group owner name g then mkRow (g_userid g) (g_owner g) (g_name g) (g_access g) 1 (g_priority g) else g) (groups db)).

(** The body of the loop for one group, without the search for others. *)
Definition update_one (owner name : text) (db : tables) : tables :=
  let rules := where_ (fun r => bool_decide (r_owner r = owner) && bool_decide (r_name r = name)) (grouprules db) in
  activate owner name (delete_old owner name (insert_top owner name (foldl (insert_rule owner name) db rules))).

(** [SELECT DISTINCT owner, name FROM grouprules WHERE subowner=... AND NOT
    optional]. *)
Definition includers (db : tables) (owner name : text) : list (text * text) :=
  remove_dups (map (fun r => (r_owner r, r_name r))
    (where_ (fun r => bool_decide (r_subowner r = owner) && bool_decide (r_subname r = name) && negb (r_optional r)) (grouprules db))).

(** ** All groups that depend on it *)

Context (B : text).

(** A group as one word: blanks are replaced by 1. *)
Definition group_word (g : text * text) : text := repval (g.1 ++ [32] ++ g.2) 0 32 1.

(** A group that is not yet in [todo] or [done] is added to [todo]. *)
Definition add_todo (todo done : text) (g : text * text) : option text :=
  let temp := group_word g in
  r ← tablematch B (Some todo) (Some temp);
  if negb (r =? -1) then Some todo else
  r ← tablematch B (Some done) (Some temp);
  if negb (r =? -1) then Some todo else Some (todo ++ [32] ++ temp).

Fixpoint add_todos (todo done : text) (gs : list (text * text)) : option text :=
  match gs with
  | [] => Some todo
  | g :: gs => todo ← add_todo todo done g; add_todos todo done gs
  end.

Definition STRMAX : Z := 600.

Fixpoint update_loop (fuel : nat) (todo done : text) (success : Z) (db : tables) : option (Z * tables) :=
  match fuel with
  | O => None
  | S fuel =>
      let '(r, temp) := token B 1 todo in
      if r <? 0 then Some (success, db) else
      let done := done ++ [32] ++ temp in
      let pair := repval temp 0 1 32 in
      let owner := take (Z.to_nat (STRMAX - 1)) (word_of B 1 pair) in
      let name := take (Z.to_nat (STRMAX - 1)) (word_of B 2 pair) in
      if bool_decide (name = []) then Some (success, db) else
      let todo := rest_of B 2 todo in
      let db := update_one owner name db in
      todo ← add_todos todo done (includers db owner name);
      update_loop fuel todo done 1 db
  end.

(** [group_update], with the age of the cache of [group_access]. *)
Definition group_update (fuel : nat) (changed : text) (now : Z) (db : tables) (cache_age : Z) : option (Z * tables * Z) :=
  '(success, db) ← update_loop fuel changed [] 0 db;
  Some (success, db, group_cache_age now cache_age).

End update.

(** What [group_access] asks: [SELECT MAX(access) FROM groups WHERE ...]; no
    row is no access. *)
Definition access_query (db : tables) (userid owner name : text) : Z :=
  match map g_access (where_ (fun g => bool_decide (g_userid g = userid) && of_group owner name g) (groups db)) with
  | [] => 0
  | a :: l => foldl Z.max a l
  end.

(** ** What updating one group does *)

(** What the rules of a group give, before the highest priority is chosen. *)
Definition rules_of (db : tables) (o n : text) : list rule :=
  where_ (fun r => bool_decide (r_owner r = o) && bool_decide (r_name r = n)) (grouprules db).
Definition entitled (like : text -> text -> bool) (db : tables) (o n : text) : list (text * Z * Z) :=
  flat_map (rule_rows like db) (rules_of db o n).

(** Between updates all rows are real ones. *)
Definition settled (db : tables) : Prop := Forall (fun g => g_active g = 1) (groups db).

Lemma where_app {A} (f : A -> bool) l k : where_ f (l ++ k) = where_ f l ++ where_ f k.
Proof. apply List.filter_app. Qed.

Lemma elem_of_where {A} (f : A -> bool) l x : x ∈ where_ f l <-> x ∈ l /\ f x = true.
Proof. rewrite !list_elem_of_In. apply List.filter_In. Qed.

Lemma where_none {A} (f : A -> bool) l : Forall (fun x => f x = false) l -> where_ f l = [].
Proof. induction 1 as [| x l Hx _ IH]; [done |]. cbn. by rewrite Hx. Qed.

Lemma where_all {A} (f : A -> bool) l : Forall (fun x => f x = true) l -> where_ f l = l.
Proof. induction 1 as [| x l Hx _ IH]; [done |]. cbn. by rewrite Hx, IH. Qed.

Lemma where_ext {A} (f h : A -> bool) l : Forall (fun x => f x = h x) l -> where_ f l = where_ h l.
Proof. induction 1 as [| x l Hx _ IH]; [done |]. cbn. by rewrite Hx, IH. Qed.

Lemma of_group_spec o n g : of_group o n g = true <-> g_owner g = o /\ g_name g = n.
Proof. unfold of_group. by rewrite andb_true_iff, !bool_decide_eq_true. Qed.

Section one.
Context (like : text -> text -> bool) (o n : text).
Implicit Types (db : tables) (g : row).

Definition fresh_row (e : text * Z * Z) : row := mkRow e.1.1 o n e.1.2 0 e.2.
Definition real_row (e : text * Z * Z) : row := mkRow e.1.1 o n e.1.2 1 e.2.

(** Rows that are not real yet give nobody anything. *)
Lemma rule_rows_fresh db es r :
  rule_rows like (set_groups db (groups db ++ map fresh_row es)) r = rule_rows like db r.
Proof.
  unfold rule_rows, set_groups. cbn [groups user_info]. rewrite where_app.
  rewrite (where_none _ (map fresh_row es)); [by rewrite app_nil_r |].
  apply Forall_forall. intros g Hg. apply list_elem_of_fmap in Hg as (e & -> & _). cbn. apply andb_false_r.
Qed.

Lemma insert_rules db rules : forall es,
  foldl (insert_rule like o n) (set_groups db (groups db ++ map fresh_row es)) rules =
    set_groups db (groups db ++ map fresh_row (es ++ flat_map (rule_rows like db) rules)).
Proof.
  induction rules as [| r rules IH]; intros es; [by rewrite app_nil_r |]. cbn [foldl flat_map]. rewrite app_assoc, <- IH. f_equal.
  unfold insert_rule. rewrite rule_rows_fresh. unfold set_groups. cbn [grouprules groups user_info]. f_equal.
  rewrite map_app, <- app_assoc. f_equal. f_equal. apply map_ext. by intros [[u a] p].
Qed.

(** The entries that count: the highest priority of each user. *)
Definition wins (es : list (text * Z * Z)) (e : text * Z * Z) : bool :=
  forallb (fun e' => negb (bool_decide (e'.1.1 = e.1.1)) || (e'.2 <=? e.2)) es.

Lemma forallb_all {A} (f : A -> bool) l : Forall (fun x => f x = true) l -> forallb f l = true.
Proof. intros H. apply forallb_forall. intros x Hx. rewrite Forall_forall in H. by apply H, list_elem_of_In. Qed.

Lemma top_row_wins db es e :
  settled db -> top_row (groups db ++ map fresh_row es) (fresh_row e) = wins es e.
Proof.
  intros Hs. unfold top_row, wins. rewrite forallb_app. rewrite forallb_all; cbn [andb].
  - induction es as [| e' es IH]; [done |]. cbn [map forallb]. rewrite IH. f_equal. cbn. unfold of_group. cbn.
    rewrite (bool_decide_eq_true_2 (o = o)), (bool_decide_eq_true_2 (n = n)) by done. change (active_in [0] (fresh_row e')) with true.
    by rewrite !andb_true_r.
  - eapply Forall_impl; [exact Hs |]. intros g Hg. cbn in Hg. unfold active_in. rewrite Hg.
    change (bool_decide (1 ∈ [0])) with false. by rewrite andb_false_r.
Qed.

Definition winners (es : list (text * Z * Z)) : list row :=
  map (fun g => mkRow (g_userid g) o n (g_access g) 1 (g_priority g))
    (remove_dups (map (fun e => mkRow e.1.1 o n e.1.2 3 e.2) (where_ (wins es) es))).

Lemma map_id_where {A} (f : A -> bool) (h : A -> A) l : (forall x, f x = true -> h x = x) -> map h (where_ f l) = where_ f l.
Proof. intros H. induction l as [| x l IH]; [done |]. cbn. destruct (f x) eqn:E; [| done]. cbn. by rewrite IH, H. Qed.

(** The rows that [insert_top] copies. *)
Lemma fresh_top db es :
  settled db ->
  map (fun g => mkRow (g_userid g) o n (g_access g) 3 (g_priority g))
    (where_ (fun g => of_group o n g && active_in [0] g && top_row (groups db ++ map fresh_row es) g) (map fresh_row es)) =
  map (fun e => mkRow e.1.1 o n e.1.2 3 e.2) (where_ (wins es) es).
Proof.
  intros Hs. assert (H : forall l, where_ (fun g => of_group o n g && active_in [0] g && top_row (groups db ++ map fresh_row es) g) (map fresh_row l) =
    map fresh_row (where_ (wins es) l)).
  { induction l as [| e l IH]; [done |]. cbn [map List.filter]. rewrite IH, top_row_wins by done. unfold of_group at 1. cbn [fresh_row g_owner g_name].
    rewrite !(bool_decide_eq_true_2 (_ = _)) by done. change (active_in [0] (fresh_row e)) with true. cbn [andb]. by destruct (wins es e). }
  rewrite H, map_map. done.
Qed.

(** The rows of the group are made again, those of others stay. *)
Lemma update_one_groups db :
  settled db ->
  groups (update_one like o n db) = where_ (fun g => negb (of_group o n g)) (groups db) ++ winners (entitled like db o n).
Proof.
  intros Hs. unfold update_one. fold (rules_of db o n).
  assert (Hdb : db = set_groups db (groups db ++ map fresh_row [])) by (unfold set_groups; rewrite app_nil_r; by destruct db).
  rewrite Hdb at 1. rewrite insert_rules. cbn [app]. fold (entitled like db o n). set (es := entitled like db o n). clear Hdb.
  unfold insert_top, delete_old, activate, set_groups. cbn [groups]. rewrite !where_app, !map_app.
  assert (Htop : where_ (fun g => of_group o n g && active_in [0] g && top_row (groups db ++ map fresh_row es) g) (groups db) = []).
  { apply where_none. eapply Forall_impl; [exact Hs |]. intros g Hg. cbn in Hg. unfold active_in. rewrite Hg.
    change (bool_decide (1 ∈ [0])) with false. by rewrite andb_false_r. }
  rewrite Htop. cbn [map app]. rewrite <- app_assoc. f_equal; [| rewrite (where_none _ (map fresh_row es))].
  - rewrite (where_ext _ (fun g => negb (of_group o n g))).
    + apply map_id_where. intros g Hg. by rewrite (proj1 (negb_true_iff _) Hg).
    + eapply Forall_impl; [exact Hs |]. intros g Hg. cbn in Hg. unfold active_in. rewrite Hg.
      change (bool_decide (1 ∈ [0; 1])) with true. by rewrite andb_true_r.
  - cbn [map app]. unfold winners. rewrite (where_all _ (remove_dups _)).
    + rewrite fresh_top by done. apply map_ext_in. intros g Hg%list_elem_of_In. rewrite elem_of_remove_dups in Hg.
      apply list_elem_of_fmap in Hg as (e & -> & _). cbn. unfold of_group. cbn. by rewrite !bool_decide_eq_true_2 by done.
    + apply Forall_forall. intros g Hg. rewrite elem_of_remove_dups in Hg. apply list_elem_of_fmap in Hg as (e & -> & _). unfold active_in. cbn.
      change (bool_decide (3 ∈ [0; 1])) with false. by rewrite andb_false_r.
  - apply Forall_forall. intros g Hg. apply list_elem_of_fmap in Hg as (e & -> & _). unfold of_group. cbn.
    rewrite !bool_decide_eq_true_2 by done. done.
Qed.

Lemma elem_of_winners es g :
  g ∈ winners es <-> exists e, e ∈ es /\ wins es e = true /\ g = real_row e.
Proof.
  unfold winners. rewrite list_elem_of_fmap. split.
  - intros (h & -> & Hh). rewrite elem_of_remove_dups in Hh. apply list_elem_of_fmap in Hh as (e & -> & He).
    apply elem_of_where in He as [He Hw]. by exists e.
  - intros (e & He & Hw & ->). exists (mkRow e.1.1 o n e.1.2 3 e.2). split; [done |]. rewrite elem_of_remove_dups.
    apply list_elem_of_fmap. exists e. by rewrite elem_of_where.
Qed.

Lemma winners_rows es : Forall (fun g => of_group o n g = true /\ g_active g = 1) (winners es).
Proof. apply Forall_forall. intros g (e & _ & _ & ->)%elem_of_winners. by rewrite of_group_spec. Qed.

Lemma update_one_settled db : settled db -> settled (update_one like o n db).
Proof.
  intros Hs. unfold settled. rewrite update_one_groups by done. apply Forall_app. split.
  - apply Forall_forall. intros g [Hg _]%elem_of_where. unfold settled in Hs. rewrite Forall_forall in Hs. by apply Hs.
  - eapply Forall_impl; [apply winners_rows | by intros g []].
Qed.

Lemma update_one_others db o' n' : settled db -> (o', n') <> (o, n) ->
  where_ (of_group o' n') (groups (update_one like o n db)) = where_ (of_group o' n') (groups db).
Proof.
  intros Hs Hne. rewrite update_one_groups, where_app by done.
  assert (Hd : forall g, of_group o n g = true -> of_group o' n' g = false).
  { intros g Hg. apply not_true_iff_false. rewrite of_group_spec in *. intros [<- <-]. destruct Hg. congruence. }
  rewrite (where_none _ (winners _)), app_nil_r.
  - induction (groups db) as [| g l IH]; [done |]. cbn. destruct (of_group o n g) eqn:E; cbn; rewrite IH; [by rewrite (Hd g E) | done].
  - eapply Forall_impl; [apply winners_rows |]. intros g [Hg _]. by apply Hd.
Qed.

Lemma update_one_rules db : grouprules (update_one like o n db) = grouprules db.
Proof.
  unfold update_one, activate, delete_old, insert_top, set_groups. cbn [grouprules]. fold (rules_of db o n).
  generalize (rules_of db o n) as l. intros l. revert db. induction l as [| r l IH]; intros db; [done |]. cbn [foldl]. by rewrite IH.
Qed.
End one.

(** ** Who has what access *)

(** The access of a user: the highest priority decides, then the highest
    access; without an entry it is 0. *)
Definition decides (es : list (text * Z * Z)) (u : text) (v : Z) : Prop :=
  (v = 0 /\ forall a p, (u, a, p) ∉ es) \/
  exists p, (u, v, p) ∈ es /\ forall a' p', (u, a', p') ∈ es -> p' < p \/ p' = p /\ a' <= v.

Lemma foldl_max l : forall a, (foldl Z.max a l = a \/ foldl Z.max a l ∈ l) /\ a <= foldl Z.max a l /\ Forall (fun x => x <= foldl Z.max a l) l.
Proof.
  induction l as [| x l IH]; intros a; cbn [foldl]; [by split; [left |] |]. destruct (IH (Z.max a x)) as (H1 & H2 & H3). split; [| split].
  - destruct H1 as [H1 | H1]; [| by right; right]. rewrite H1. destruct (Z.max_dec a x) as [-> | ->]; [by left | right; by left].
  - lia.
  - apply Forall_cons. split; [lia | done].
Qed.

Lemma wins_spec es u a p : wins es (u, a, p) = true <-> forall a' p', (u, a', p') ∈ es -> p' <= p.
Proof.
  unfold wins. rewrite forallb_forall. split.
  - intros H a' p' Hin. apply list_elem_of_In, H in Hin. cbn in Hin. rewrite bool_decide_eq_true_2 in Hin by done. by apply Z.leb_le in Hin.
  - intros H [[u' a'] p'] Hin%list_elem_of_In. cbn. case_bool_decide as E; [| done]. subst u'. cbn. apply Z.leb_le. by eapply H.
Qed.

Lemma max_entry (es : list (text * Z * Z)) u e : e ∈ es -> e.1.1 = u ->
  exists a p, (u, a, p) ∈ es /\ forall b q, (u, b, q) ∈ es -> q <= p.
Proof.
  intros Hin Hu. set (mine := where_ (fun e => bool_decide (e.1.1 = u)) es).
  assert (Hm : forall x, x ∈ mine <-> x ∈ es /\ x.1.1 = u) by (intros x; subst mine; by rewrite elem_of_where, bool_decide_eq_true).
  destruct (map snd mine) as [| q0 qs] eqn:E.
  { destruct mine; [| done]. exfalso. apply (not_elem_of_nil e), Hm. done. }
  destruct (foldl_max qs q0) as (H1 & H2 & H3). set (p := foldl Z.max q0 qs) in *.
  assert (Hp : p ∈ map snd mine) by (rewrite E; destruct H1 as [-> | H1]; [by left | by right]).
  apply list_elem_of_fmap in Hp as ([[u' a] p'] & Hpp & [Hes Hu']%Hm). cbn in Hpp, Hu'. subst p' u'. exists a, p. split; [done |].
  intros b q Hbq. assert (Hq : q ∈ map snd mine) by (apply list_elem_of_fmap; exists (u, b, q); by rewrite Hm).
  rewrite E in Hq. apply elem_of_cons in Hq as [-> | Hq]; [done |]. rewrite Forall_forall in H3. by apply H3.
Qed.

Lemma mine_rows db u o n g :
  g ∈ where_ (fun g => bool_decide (g_userid g = u) && of_group o n g) (groups db) <-> g ∈ where_ (of_group o n) (groups db) /\ g_userid g = u.
Proof. rewrite !elem_of_where, andb_true_iff, bool_decide_eq_true. tauto. Qed.

Lemma update_one_decides like db u o n :
  settled db -> decides (entitled like db o n) u (access_query (update_one like o n db) u o n).
Proof.
  intros Hs. set (es := entitled like db o n). unfold access_query. set (mine := where_ _ _).
  assert (Hm : forall a, a ∈ map g_access mine <-> exists p, (u, a, p) ∈ es /\ wins es (u, a, p) = true).
  { intros a. rewrite list_elem_of_fmap. split.
    - intros (g & -> & [Hg Hu]%mine_rows). rewrite update_one_groups, where_app in Hg by done. apply elem_of_app in Hg as [Hg | Hg].
      + apply elem_of_where in Hg as [[_ Hg]%elem_of_where Hg']. by rewrite Hg' in Hg.
      + apply elem_of_where in Hg as [([[u' a] p] & He & Hw & ->)%elem_of_winners _]. cbn in Hu. subst u'. by exists p.
    - intros (p & He & Hw). exists (real_row o n (u, a, p)). split; [done |]. apply mine_rows. split; [| done].
      rewrite update_one_groups, where_app by done. apply elem_of_app. right. apply elem_of_where. rewrite elem_of_winners, of_group_spec.
      split; [by eexists | done]. }
  clearbody mine. destruct (map g_access mine) as [| a0 l] eqn:E.
  - left. split; [done |]. intros a p Hin. destruct (max_entry es u _ Hin eq_refl) as (b & q & Hbq & Hmax).
    apply (not_elem_of_nil b), Hm. exists q. split; [done |]. apply wins_spec. intros. by eapply Hmax.
  - right. destruct (foldl_max l a0) as (H1 & H2 & H3). set (v := foldl Z.max a0 l) in *.
    assert (Hv : v ∈ a0 :: l) by (destruct H1 as [-> | H1]; [by left | by right]).
    apply Hm in Hv as (p & He & Hw). exists p. split; [done |]. intros a' p' Hin. rewrite wins_spec in Hw. pose proof (Hw _ _ Hin).
    destruct (decide (p' = p)) as [-> | Hne]; [right; split; [done |] | left; lia].
    assert (Ha : a' ∈ a0 :: l) by (apply Hm; exists p; split; [done |]; by apply wins_spec).
    apply elem_of_cons in Ha as [-> | Ha]; [done |]. rewrite Forall_forall in H3. by apply H3.
Qed.

Lemma decides_unique es u v w : decides es u v -> decides es u w -> v = w.
Proof.
  intros [[-> Hv] | (p & Hp & Hv)] [[-> Hw] | (q & Hq & Hw)]; [done | by apply Hv in Hq | by apply Hw in Hp |].
  destruct (Hv _ _ Hq), (Hw _ _ Hp); lia.
Qed.

(** ** Lists of words *)

Section words.
Context (B : text).

Definition wl (s : text) : list text := map snd (words B s).

Lemma words_at_shift s : forall i j, (words_from B i s).1 = (words_from B j s).1 /\ map snd (words_from B i s).2 = map snd (words_from B j s).2.
Proof.
  induction s as [| c s IH]; intros i j; [done |]. cbn [words_from]. destruct (IH (i + 1) (j + 1)) as [H1 H2].
  destruct (words_from B (i + 1) s) as [w ws], (words_from B (j + 1) s) as [w' ws']. cbn in H1, H2. subst w'.
  destruct (is_blank B c); [| done]. case_bool_decide; [done |]. cbn. by rewrite H2.
Qed.

Lemma wl_at i s : map snd (words_at B i s) = wl s.
Proof.
  unfold wl, words, words_at. destruct (words_at_shift s i 0) as [H1 H2].
  destruct (words_from B i s) as [w ws], (words_from B 0 s) as [w' ws']. cbn in H1, H2. subst w'. case_bool_decide; [done |]. cbn. by rewrite H2.
Qed.

Lemma wl_blank c s : is_blank B c = true -> wl (c :: s) = wl s.
Proof.
  intros Hc. rewrite <- (wl_at 1 s). unfold wl, words, words_at. cbn [words_from]. rewrite Z.add_0_l.
  destruct (words_from B 1 s) as [w ws]. rewrite Hc. by rewrite bool_decide_eq_true_2.
Qed.

(** The first word and the others, behind a character that is not blank. *)
Definition first_word (s : text) : text := (words_from B 0 s).1.
Definition other_words (s : text) : list text := map snd (words_from B 0 s).2.

Lemma wl_split s : wl s = if bool_decide (first_word s = []) then other_words s else first_word s :: other_words s.
Proof. unfold wl, words, words_at, first_word, other_words. destruct (words_from B 0 s) as [w ws]. cbn. by case_bool_decide. Qed.

Lemma first_cons c s : is_blank B c = false -> first_word (c :: s) = c :: first_word s /\ other_words (c :: s) = other_words s.
Proof.
  intros Hc. unfold first_word, other_words. cbn [words_from]. rewrite Z.add_0_l. destruct (words_at_shift s 1 0) as [H1 H2].
  destruct (words_from B 1 s) as [w ws]. rewrite Hc. cbn in *. by rewrite H1, H2.
Qed.

Lemma first_blank c s : is_blank B c = true -> first_word (c :: s) = [] /\ other_words (c :: s) = wl s.
Proof.
  intros Hc. rewrite <- (wl_blank c s Hc). rewrite wl_split. unfold first_word, other_words. cbn [words_from].
  destruct (words_from B (0 + 1) s) as [w ws]. rewrite Hc. cbn. done.
Qed.

Lemma wl_app s c t : is_blank B c = true -> wl (s ++ c :: t) = wl s ++ wl t.
Proof.
  intros Hc. assert (H : first_word (s ++ c :: t) = first_word s /\ other_words (s ++ c :: t) = other_words s ++ wl t).
  { induction s as [| d s [IH1 IH2]]; [by apply first_blank |]. cbn [app]. destruct (is_blank B d) eqn:Hd.
    - destruct (first_blank d s Hd) as [-> ->], (first_blank d (s ++ c :: t) Hd) as [-> ->]. split; [done |].
      rewrite (wl_split (s ++ _)), (wl_split s), IH1, IH2. by case_bool_decide.
    - destruct (first_cons d s Hd) as [-> ->], (first_cons d (s ++ c :: t) Hd) as [-> ->]. by rewrite IH1, IH2. }
  destruct H as [H1 H2]. rewrite (wl_split (s ++ _)), (wl_split s), H1, H2. by case_bool_decide.
Qed.

Definition one_word (w : text) : Prop := w <> [] /\ Forall (fun c => is_blank B c = false) w.

Lemma wl_one w : one_word w -> wl w = [w].
Proof.
  intros [Hne Hw]. assert (H : first_word w = w /\ other_words w = []).
  { clear Hne. induction Hw as [| c w Hc Hw [IH1 IH2]]; [done |]. destruct (first_cons c w Hc) as [-> ->]. by rewrite IH1, IH2. }
  destruct H as [H1 H2]. rewrite wl_split, H1, H2. by rewrite bool_decide_eq_false_2.
Qed.

(** From the place of a word on. *)
Lemma words_drop s : forall i j p w, words_at B i s !! j = Some (p, w) -> i <= p /\ wl (drop (Z.to_nat (p - i)) s) = drop j (wl s).
Proof.
  induction s as [| c s IH]; intros i j p w Hj; [by destruct j |].
  assert (Hdrop : forall q, i + 1 <= q -> drop (Z.to_nat (q - i)) (c :: s) = drop (Z.to_nat (q - (i + 1))) s).
  { intros q Hq. by replace (Z.to_nat (q - i)) with (S (Z.to_nat (q - (i + 1)))) by lia. }
  unfold words_at in Hj. cbn [words_from] in Hj. destruct (words_from B (i + 1) s) as [w0 ws] eqn:E. destruct (is_blank B c) eqn:Hc.
  - rewrite bool_decide_eq_true_2 in Hj by done. rewrite wl_blank by done.
    assert (Hat : words_at B (i + 1) s !! j = Some (p, w)) by (unfold words_at; by rewrite E).
    destruct (IH _ _ _ _ Hat) as [Hp H]. rewrite Hdrop by done. split; [lia | done].
  - rewrite bool_decide_eq_false_2 in Hj by done. destruct (first_cons c s Hc) as [Hf Ho].
    destruct j as [| j]; [injection Hj as <- <-; by rewrite Z.sub_diag |]. cbn in Hj.
    rewrite (wl_split (c :: s)), Hf, bool_decide_eq_false_2 by done. cbn [drop]. rewrite Ho.
    assert (Hat : words_at B (i + 1) s !! (if bool_decide (w0 = []) then j else S j) = Some (p, w)).
    { unfold words_at. rewrite E. by case_bool_decide. }
    destruct (IH _ _ _ _ Hat) as [Hp H]. rewrite Hdrop by done. split; [lia |]. rewrite H, (wl_split s).
    assert (Hw0 : first_word s = w0) by (unfold first_word; destruct (words_at_shift s 0 (i + 1)) as [-> _]; by rewrite E).
    rewrite Hw0. by case_bool_decide.
Qed.

Lemma token_words n s : 1 <= n ->
  match wl s !! Z.to_nat (n - 1) with
  | Some w => exists p, 0 <= p /\ token B n s = (p, w) /\ wl (drop (Z.to_nat p) s) = drop (Z.to_nat (n - 1)) (wl s)
  | None => token B n s = (-1, [])
  end.
Proof.
  intros Hn. unfold token, token_result. rewrite (proj2 (Z.leb_gt _ _)) by lia. unfold wl at 1.
  change (map snd (words B s)) with (snd <$> words B s). rewrite list_lookup_fmap.
  destruct (words B s !! Z.to_nat (n - 1)) as [[p w] |] eqn:E; cbn; [| done]. exists p.
  destruct (words_drop s 0 _ _ _ E) as [Hp H]. rewrite Z.sub_0_r in H. done.
Qed.

Lemma rest_words s : wl (rest_of B 2 s) = tail (wl s).
Proof.
  unfold rest_of. pose proof (token_words 2 s ltac:(lia)) as H. change (Z.to_nat (2 - 1)) with 1%nat in H.
  destruct (wl s) as [| w [| w2 ws]] eqn:E; cbn [lookup list_lookup drop] in H.
  - by rewrite H.
  - by rewrite H.
  - destruct H as (p & Hp & -> & H). by rewrite (proj2 (Z.ltb_ge _ _)).
Qed.
End words.

(** ** Lists without duplicates that grow *)

(** [set_solver] with the facts on membership alone. *)
Ltac sets :=
  repeat match goal with
  | H : ?T |- _ => lazymatch type of T with Prop => lazymatch T with
      | context [ex _] => clear H | context [_ ∈ _] => fail | context [_ ⊆ _] => fail | _ => clear H end end
  end; set_solver.

Definition add_list (D T gs : list (text * text)) : list (text * text) :=
  foldl (fun T g => if bool_decide (g ∈ T) || bool_decide (g ∈ D) then T else T ++ [g]) T gs.

Lemma add_list_spec D gs : forall T,
  NoDup (T ++ D) -> NoDup (add_list D T gs ++ D) /\ T ⊆ add_list D T gs /\ gs ⊆ add_list D T gs ++ D /\ add_list D T gs ⊆ T ++ gs.
Proof.
  induction gs as [| g gs IH]; intros T HT; [cbn; rewrite app_nil_r; split_and!; [done | done | clear; sets | done] |].
  cbn [add_list foldl]. fold (add_list D). set (T1 := if (bool_decide (g ∈ T) || bool_decide (g ∈ D)) : bool then T else T ++ [g]).
  assert (H1 : NoDup (T1 ++ D) /\ T ⊆ T1 /\ g ∈ T1 ++ D /\ T1 ⊆ T ++ [g]).
  { subst T1. case_bool_decide as Hg; [cbn; split_and!; [done | done | sets | sets] |].
    case_bool_decide as Hd; cbn [orb]; [split_and!; [done | done | sets | sets] |].
    split_and!; [| sets | sets | sets]. rewrite <- app_assoc. apply NoDup_app in HT as (HT & HTD & HD).
    apply NoDup_app. split_and!; [done | | by apply NoDup_cons].
    intros x Hx [-> | Hx']%elem_of_cons; [done | by eapply HTD]. }
  destruct H1 as (H1 & H2 & H3 & H4). destruct (IH T1 H1) as (I1 & I2 & I3 & I4). split_and!; [done | sets | sets | sets].
Qed.

(** ** Groups as words *)

Section propagate.
Context (like : text -> text -> bool) (B : text).
Hypothesis (HB32 : is_blank B 32 = true) (HB1 : is_blank B 1 = false) (HB0 : is_blank B 0 = false) (HB47 : is_blank B 47 = false).

Definition good_part (t : text) : Prop :=
  t <> [] /\ len t < STRMAX /\ Forall (fun c => c <> 0 /\ c <> 1 /\ c <> 47 /\ is_blank B c = false) t.
Definition good_group (g : text * text) : Prop := good_part g.1 /\ good_part g.2.

Lemma repval_map s old new : repval s 0 old new = map (fun v => if v =? old then new else v) s.
Proof. done. Qed.

Lemma map_none (f : Z -> Z) s : Forall (fun c => f c = c) s -> map f s = s.
Proof. induction 1 as [| c s Hc _ IH]; [done |]. cbn. by rewrite Hc, IH. Qed.

Lemma good_part_kept t old new : good_part t -> old = 1 \/ old = 32 -> map (fun v => if v =? old then new else v) t = t.
Proof.
  intros (_ & _ & Ht) Hold. apply map_none. eapply Forall_impl; [exact Ht |]. intros c (H0 & H1 & H47 & Hb). cbn.
  rewrite (proj2 (Z.eqb_neq c old)); [done |]. destruct Hold as [-> | ->]; [done |]. intros ->. congruence.
Qed.

Lemma group_word_eq g : good_group g -> group_word g = g.1 ++ 1 :: g.2.
Proof.
  intros [H1 H2]. unfold group_word. rewrite repval_map, !map_app, (good_part_kept g.1), (good_part_kept g.2) by (done || by right). done.
Qed.

Lemma group_word_back g : good_group g -> repval (group_word g) 0 1 32 = g.1 ++ 32 :: g.2.
Proof.
  intros Hg. rewrite group_word_eq by done. destruct Hg as [H1 H2].
  rewrite repval_map, map_app. cbn [map]. rewrite (good_part_kept g.1), (good_part_kept g.2) by (done || by left). done.
Qed.

Lemma good_part_word t : good_part t -> one_word B t.
Proof. intros (Hne & _ & Ht). split; [done |]. eapply Forall_impl; [exact Ht | by intros c (_ & _ & _ & ?)]. Qed.

Lemma group_parts g : good_group g ->
  take (Z.to_nat (STRMAX - 1)) (word_of B 1 (repval (group_word g) 0 1 32)) = g.1 /\
  take (Z.to_nat (STRMAX - 1)) (word_of B 2 (repval (group_word g) 0 1 32)) = g.2.
Proof.
  intros Hg. rewrite group_word_back by done. destruct Hg as [H1 H2].
  assert (Hwl : wl B (g.1 ++ 32 :: g.2) = [g.1; g.2]).
  { rewrite wl_app by done. by rewrite !wl_one by (by apply good_part_word). }
  assert (Ht : forall t, good_part t -> take (Z.to_nat (STRMAX - 1)) t = t).
  { intros t (_ & Hl & _). apply take_ge. unfold len, STRMAX in *. lia. }
  unfold word_of. pose proof (token_words B 1 (g.1 ++ 32 :: g.2) ltac:(lia)) as HT1. pose proof (token_words B 2 (g.1 ++ 32 :: g.2) ltac:(lia)) as HT2.
  rewrite Hwl in HT1, HT2. cbn [lookup list_lookup Z.to_nat Z.sub Z.add Z.opp Z.pos_sub Pos.pred_double Pos.to_nat] in HT1, HT2.
  destruct HT1 as (p & _ & -> & _), HT2 as (q & _ & -> & _). cbn [snd]. by rewrite !Ht.
Qed.

Lemma group_word_chars g : good_group g ->
  one_word B (group_word g) /\ Forall (fun c => c <> 0 /\ c <> 47 /\ is_blank B c = false) (group_word g).
Proof.
  intros Hg. rewrite group_word_eq by done. destruct Hg as [(Hne & _ & H1) (_ & _ & H2)].
  assert (H : Forall (fun c => c <> 0 /\ c <> 47 /\ is_blank B c = false) (g.1 ++ 1 :: g.2)).
  { apply Forall_app. split; [| apply Forall_cons; split; [done |]];
      (eapply Forall_impl; [first [exact H1 | exact H2] |]; by intros c (? & ? & ? & ?)). }
  split; [split |]; [by destruct g.1 | | done]. eapply Forall_impl; [exact H | by intros c (_ & _ & ?)].
Qed.

(** ** The search in the lists *)

Lemma hits_none w es : forall i, hits w es i = [] <-> Forall (fun e => abbreviates w e = false) es.
Proof.
  induction es as [| e es IH]; intros i; [done |]. cbn [hits]. rewrite Forall_cons. destruct (abbreviates w e); cbn [app].
  - split; [done | by intros []].
  - rewrite IH. tauto.
Qed.

Lemma hits_nonneg w es : forall i, 0 <= i -> Forall (fun h => 0 <= h) (hits w es i).
Proof.
  induction es as [| e es IH]; intros i Hi; [constructor |]. cbn [hits]. apply Forall_app. split; [| apply IH; lia].
  destruct (abbreviates w e); by repeat constructor.
Qed.

Lemma tablematch_absent t w :
  Forall (fun c => c <> 0) t -> w <> [] -> Forall (fun c => c <> 0 /\ c <> 47 /\ is_blank B c = false) w ->
  exists r, tablematch B (Some t) (Some w) = Some r /\ (r = -1 <-> Forall (fun e => abbreviates w e = false) (wl B t)).
Proof.
  intros Ht Hne Hw. destruct t as [| c t]; [by exists (-1) |]. destruct w as [| d w]; [done |].
  destruct (match_loops B (d :: w) Hw HB0 HB47 Hne (c :: t) Ht) as (_ & _ & _ & HS).
  exists (unique_hit (hits (d :: w) (map snd (words B (c :: t))) 0)). unfold tablematch. split.
  - rewrite (HS _ _ _ _ 0) by lia. f_equal. by apply tally_hits.
  - fold (wl B (c :: t)). rewrite <- (hits_none _ _ 0). pose proof (hits_nonneg (d :: w) (wl B (c :: t)) 0 ltac:(lia)) as Hh.
    destruct (hits _ _ _) as [| h [| h' l]]; cbn; [done | | done]. apply Forall_cons in Hh as [Hh _]. split; [lia | done].
Qed.

(** No group's word is the beginning of another's. *)
Definition apart (U : list (text * text)) : Prop :=
  Forall good_group U /\ forall g h, g ∈ U -> h ∈ U -> prefixb (group_word g) (group_word h) = true -> g = h.

Lemma slash_none w e : Forall (fun c => c <> 0 /\ c <> 47 /\ is_blank B c = false) e -> slash_part w e = false.
Proof. induction 1 as [| c e (_ & Hc & _) _ IH]; [done |]. cbn. by rewrite (proj2 (Z.eqb_neq c 47)), IH. Qed.

Lemma abbreviates_group U g h : apart U -> g ∈ U -> h ∈ U -> abbreviates (group_word g) (group_word h) = bool_decide (g = h).
Proof.
  intros [Hg Ha] Hgu Hhu. unfold abbreviates. rewrite slash_none, orb_false_r.
  - apply eq_true_iff_eq. rewrite bool_decide_eq_true. split; [by apply Ha | intros ->]. by apply prefixb_spec.
  - rewrite Forall_forall in Hg. by apply group_word_chars, Hg.
Qed.

(** A text lists groups. *)
Definition lists (t : text) (gs : list (text * text)) : Prop := wl B t = map group_word gs /\ Forall (fun c => c <> 0) t.

Lemma lists_absent U t gs g : apart U -> g ∈ U -> gs ⊆ U -> lists t gs ->
  exists r, tablematch B (Some t) (Some (group_word g)) = Some r /\ (r = -1 <-> g ∉ gs).
Proof.
  intros HU Hg Hgs [Hwl Ht]. pose proof HU as [Hgood _]. rewrite Forall_forall in Hgood.
  destruct (group_word_chars g (Hgood g Hg)) as [[Hne _] Hc]. destruct (tablematch_absent t (group_word g) Ht Hne Hc) as (r & -> & Hr).
  exists r. split; [done |]. rewrite Hr, Hwl, Forall_forall. split.
  - intros H Hin. specialize (H (group_word g) (list_elem_of_fmap_2 group_word gs g Hin)). rewrite (abbreviates_group U) in H by auto.
    rewrite bool_decide_eq_true_2 in H by done. discriminate H.
  - intros H e (h & -> & Hh)%list_elem_of_fmap. rewrite (abbreviates_group U) by auto. apply bool_decide_eq_false_2. intros ->. by apply H.
Qed.

Lemma lists_snoc t gs g : good_group g -> lists t gs -> lists (t ++ [32] ++ group_word g) (gs ++ [g]).
Proof.
  intros Hg [Hwl Ht]. destruct (group_word_chars g Hg) as [Hw Hc]. split.
  - cbn [app]. rewrite wl_app by done. rewrite (wl_one B (group_word g)), Hwl by done. by rewrite map_app.
  - apply Forall_app. split; [done |]. apply Forall_cons. split; [done |]. eapply Forall_impl; [exact Hc | by intros c []].
Qed.

(** ** All groups that depend on the changed one *)

Lemma add_todos_lists U D done gs : forall T todo,
  apart U -> gs ⊆ U -> D ⊆ U -> T ⊆ U -> lists done D -> lists todo T ->
  exists todo', add_todos B todo done gs = Some todo' /\ lists todo' (add_list D T gs).
Proof.
  induction gs as [| g gs IH]; intros T todo HU Hgs HD HT Hdone Htodo; [by exists todo |]. cbn [add_todos add_list foldl]. fold (add_list D).
  assert (Hg : g ∈ U) by sets. pose proof HU as [Hgood _]. rewrite Forall_forall in Hgood.
  unfold add_todo. destruct (lists_absent U todo T g HU Hg HT Htodo) as (r & -> & Hr). cbn [mbind option_bind].
  destruct (Z.eqb_spec r (-1)) as [E | E]; cbn [negb].
  2: { rewrite bool_decide_eq_true_2 by (destruct (decide (g ∈ T)) as [|H]; [done | by apply Hr in H]). cbn [orb mbind option_bind].
       apply IH; try done. sets. }
  rewrite (bool_decide_eq_false_2 (g ∈ T)) by by apply Hr. cbn [orb].
  destruct (lists_absent U done D g HU Hg HD Hdone) as (r' & -> & Hr'). cbn [mbind option_bind].
  destruct (Z.eqb_spec r' (-1)) as [E' | E']; cbn [negb mbind option_bind].
  - rewrite (bool_decide_eq_false_2 (g ∈ D)) by by apply Hr'. apply IH; try done; [sets | sets |].
    apply lists_snoc; [by apply Hgood | done].
  - rewrite bool_decide_eq_true_2 by (destruct (decide (g ∈ D)) as [|H]; [done | by apply Hr' in H]). apply IH; try done. sets.
Qed.

Lemma lists_rest t g gs : lists t (g :: gs) -> lists (rest_of B 2 t) gs.
Proof.
  intros [Hwl Ht]. split; [by rewrite rest_words, Hwl |]. unfold rest_of. destruct (token B 2 t) as [p w].
  destruct (p <? 0); [constructor | by apply Forall_drop].
Qed.

(** The groups made again, one after the other. *)
Definition update_all (db : tables) (order : list (text * text)) : tables :=
  foldl (fun db g => update_one like g.1 g.2 db) db order.

Definition included_by (db : tables) (g h : text * text) : Prop := h ∈ includers db g.1 g.2.

Lemma includers_same db db' o n : grouprules db' = grouprules db -> includers db' o n = includers db o n.
Proof. intros E. unfold includers. by rewrite E. Qed.

Lemma update_loop_order fuel : forall U T D todo done success db,
  apart U -> (forall g, g ∈ U -> includers db g.1 g.2 ⊆ U) -> T ++ D ⊆ U -> NoDup (T ++ D) ->
  lists todo T -> lists done D -> (length U < fuel + length D)%nat ->
  exists order, update_loop like B fuel todo done success db = Some (match T with [] => success | _ => 1 end, update_all db order) /\
    NoDup (order ++ D) /\ T ⊆ order /\ head order = head T /\ order ⊆ U /\
    (forall g h, g ∈ order -> included_by db g h -> h ∈ order ++ D) /\
    (forall g, g ∈ order -> exists t, t ∈ T /\ rtc (included_by db) t g).
Proof.
  induction fuel as [| fuel IH]; intros U T D todo done success db HU Hclosed HTU Hnd Htodo Hdone Hfuel.
  { exfalso. apply NoDup_app in Hnd as (_ & _ & HD). assert (Hl : (length D <= length U)%nat); [| lia].
    apply submseteq_length, NoDup_submseteq; [done | sets]. }
  cbn [update_loop]. pose proof (token_words B 1 todo ltac:(lia)) as Htok. rewrite (proj1 Htodo) in Htok.
  destruct T as [| g T]; cbn [map lookup list_lookup Z.to_nat Z.sub Z.add Z.opp Z.pos_sub Pos.pred_double Pos.to_nat] in Htok.
  { rewrite Htok. exists []. cbn. apply NoDup_app in Hnd as (_ & _ & HD). split_and!; try done; intros x; intros;
      by match goal with H : _ ∈ [] |- _ => apply not_elem_of_nil in H end. }
  destruct Htok as (p & Hp & -> & _). rewrite (proj2 (Z.ltb_ge _ _)) by done. pose proof HU as [Hgood _]. rewrite Forall_forall in Hgood.
  assert (HgU : g ∈ U) by sets. destruct (group_parts g (Hgood g HgU)) as [-> ->].
  rewrite bool_decide_eq_false_2 by apply (Hgood g HgU). set (db1 := update_one like g.1 g.2 db).
  assert (Hrules : grouprules db1 = grouprules db) by apply update_one_rules. rewrite (includers_same db db1) by done.
  assert (HndD : NoDup (T ++ D ++ [g])).
  { rewrite app_assoc. rewrite <- app_comm_cons in Hnd. apply NoDup_cons in Hnd as [Hg Hnd]. apply NoDup_app. split_and!; [done | | apply NoDup_singleton].
    intros x Hx ->%list_elem_of_singleton. done. }
  destruct (add_list_spec (D ++ [g]) (includers db g.1 g.2) T HndD) as (A1 & A2 & A3 & A4).
  destruct (add_todos_lists U (D ++ [g]) (done ++ [32] ++ group_word g) (includers db g.1 g.2) T (rest_of B 2 todo)) as (todo' & -> & Htodo');
    [done | by apply Hclosed | sets | sets | apply lists_snoc; [by apply Hgood | done] | by eapply lists_rest |].
  cbn [mbind option_bind]. set (T' := add_list _ _ _) in *. pose proof (Hclosed g HgU) as Hcg.
  destruct (IH U T' (D ++ [g]) todo' (done ++ [32] ++ group_word g) 1 db1) as (order & -> & O1 & O2 & _ & O4 & O5 & O6); try done.
  - intros h Hh. rewrite (includers_same db db1) by done. by apply Hclosed.
  - sets.
  - apply lists_snoc; [by apply Hgood | done].
  - rewrite length_app. cbn [length]. lia.
  - exists (g :: order). unfold included_by in *.
    assert (Hsame : forall h, includers db1 h.1 h.2 = includers db h.1 h.2) by (intros; by apply includers_same).
    split_and!; [by destruct T' | | sets | done | sets | |].
    + assert (Hperm : (g :: order) ++ D ≡ₚ order ++ D ++ [g]) by by rewrite app_assoc, (Permutation_app_comm _ [g]).
      by rewrite Hperm.
    + intros h k [-> | Hh]%elem_of_cons Hk; [sets |]. specialize (O5 h k Hh). rewrite Hsame in O5. sets.
    + intros h [-> | Hh]%elem_of_cons; [exists g; split; [by left | constructor] |].
      destruct (O6 h Hh) as (t & Ht & Hr).
      assert (Hr' : rtc (included_by db) t h).
      { eapply rtc_subrel; [| exact Hr]. intros x y. unfold included_by. by rewrite Hsame. }
      apply A4, elem_of_app in Ht as [Ht | Ht]; [exists t; split; [by right | done] |].
      exists g. split; [by left |]. by eapply rtc_l.
Qed.

Lemma update_all_settled order : forall db, settled db -> settled (update_all db order).
Proof. induction order as [| g order IH]; intros db Hs; [done |]. cbn. by apply IH, update_one_settled. Qed.

Lemma update_all_others order : forall db o n, settled db -> (o, n) ∉ order ->
  where_ (of_group o n) (groups (update_all db order)) = where_ (of_group o n) (groups db).
Proof.
  induction order as [| g order IH]; intros db o n Hs Hn; [done |]. apply not_elem_of_cons in Hn as [Hg Hn]. cbn.
  rewrite IH by (done || by apply update_one_settled). apply update_one_others; [done |]. by destruct g.
Qed.
End propagate.

(** The access of a user depends on the rows of the group alone. *)
Lemma access_query_rows db db' u o n :
  where_ (of_group o n) (groups db) = where_ (of_group o n) (groups db') -> access_query db u o n = access_query db' u o n.
Proof.
  intros E. unfold access_query. assert (H : forall gs, where_ (fun g => bool_decide (g_userid g = u) && of_group o n g) gs =
    where_ (fun g => bool_decide (g_userid g = u)) (where_ (of_group o n) gs)).
  { induction gs as [| g gs IH]; [done |]. cbn. destruct (of_group o n g); cbn; [| by rewrite andb_false_r].
    rewrite andb_true_r. by destruct (bool_decide _); rewrite IH. }
  by rewrite !H, E.
Qed.

(** ** Properties *)

(** The groups that the rules speak of. *)
Definition rule_groups (db : tables) : list (text * text) := map (fun r => (r_owner r, r_name r)) (grouprules db).

Lemma includers_groups db o n : includers db o n ⊆ rule_groups db.
Proof.
  intros g Hg. unfold includers in Hg. rewrite elem_of_remove_dups in Hg. apply list_elem_of_fmap in Hg as (r & -> & [Hr _]%elem_of_where).
  apply list_elem_of_fmap. by exists r.
Qed.

Definition word_blanks (B : text) : Prop := is_blank B 32 = true /\ is_blank B 1 = false /\ is_blank B 0 = false /\ is_blank B 47 = false.

(** C9: [group_update] makes again the groups that depend on the changed one,
    each exactly once: it ends, with success, after running [update_one] on
    the changed group first and then on every group that includes it, directly
    or through others, and on no other, whose rows stay; and by the data base
    it leaves, the access of every user in the changed group is what its
    rules give: the highest priority decides, then the highest access, and a
    user whom no rule mentions has none.  It holds for groups whose names are
    not the beginnings of one another. *)
Theorem group_update_propagates like B changed db now age :
  word_blanks B -> apart B (changed :: rule_groups db) -> settled db ->
  exists order db', group_update like B (length (grouprules db) + 2) (group_word changed) now db age = Some (1, db', group_cache_age now age) /\
    db' = update_all like db order /\ head order = Some changed /\ NoDup order /\
    (forall g, g ∈ order <-> rtc (included_by db) changed g) /\
    (forall o n, (o, n) ∉ order -> where_ (of_group o n) (groups db') = where_ (of_group o n) (groups db)) /\
    (forall u, decides (entitled like db changed.1 changed.2) u (access_query db' u changed.1 changed.2)).
Proof.
  intros (HB32 & HB1 & HB0 & HB47) HU Hs. pose proof HU as [Hgood _]. apply Forall_cons in Hgood as [Hc _].
  destruct (update_loop_order like B HB32 HB1 HB0 HB47 (length (grouprules db) + 2) (changed :: rule_groups db) [changed] [] (group_word changed) [] 0 db)
    as (order & Ho & O1 & O2 & O3 & O4 & O5 & O6).
  - done.
  - intros g _ h Hh. right. by apply includers_groups in Hh.
  - intros g [-> | Hg]%elem_of_cons; [by left | by apply not_elem_of_nil in Hg].
  - apply NoDup_singleton.
  - edestruct (group_word_chars B) as [Hw Hch]; [exact HB32 | exact HB1 | exact HB0 | exact HB47 | exact Hc |]. split; [by apply wl_one |]. eapply Forall_impl; [exact Hch | by intros c []].
  - done.
  - cbn [length]. unfold rule_groups. rewrite length_map. lia.
  - rewrite app_nil_r in O1. exists order, (update_all like db order). unfold group_update. rewrite Ho. split; [done |].
    split_and!; [done | done | done | | |].
    + intros g. split; [intros (t & [-> | Ht]%elem_of_cons & Hr)%O6; [done | by apply not_elem_of_nil in Ht] |].
      intros Hr. assert (H : forall x, x ∈ order -> rtc (included_by db) x g -> g ∈ order).
      { clear Hr. intros x Hx Hxg. induction Hxg as [| x y z Hxy _ IH]; [done |]. apply IH. specialize (O5 _ _ Hx Hxy). by rewrite app_nil_r in O5. }
      apply (H changed); [| done]. apply O2. by left.
    + intros o n Hn. by apply update_all_others.
    + intros u. destruct order as [| g order]; [done |]. injection O3 as ->. apply NoDup_cons in O1 as [Hn _]. cbn [update_all foldl].
      rewrite (access_query_rows _ (update_one like changed.1 changed.2 db)); [by apply update_one_decides |].
      apply update_all_others; [by apply update_one_settled | by destruct changed].
Qed.

(** Patterns of user ids in the examples: the percent sign alone is all. *)
Definition like_all (u p : text) : bool := bool_decide (p = [37]) || bool_decide (u = p).
Definition user_rule (o n u : text) (a : Z) : rule := mkRule o n u false [] [] a false false.
Definition group_rule (o n so sn : text) : rule := mkRule o n [] false so sn (-1) false false.

(** Friends of ann, who are in conference 1, whose members read conference 2. *)
Definition sample_tables : tables :=
  mkTables
    [user_rule (bytes "ann") (bytes "friends") (bytes "bob") 30; mkRule (bytes "ann") (bytes "friends") [37] true [] [] 20 false false;
     group_rule (bytes "CONF") (bytes "1") (bytes "ann") (bytes "friends");
     user_rule (bytes "CONF") (bytes "1") (bytes "eve") 0;
     mkRule (bytes "CONF") (bytes "2") [] false (bytes "CONF") (bytes "1") 20 false false]
    [mkRow (bytes "sue") (bytes "ann") (bytes "friends") 50 1 50]
    [bytes "bob"; bytes "eve"].
Definition friends : text * text := (bytes "ann", bytes "friends").

Lemma sample_apart : apart [32; 10; 9] (friends :: rule_groups sample_tables).
Proof.
  split.
  - unfold good_group, good_part. by apply (bool_decide_unpack _); vm_compute.
  - intros g h Hg Hh. unfold friends, rule_groups, sample_tables in *. cbn [map grouprules r_owner r_name user_rule group_rule] in *.
    rewrite !elem_of_cons in Hg, Hh.
    destruct Hg as [-> | [-> | [-> | [-> | [-> | [-> | Hg]]]]]], Hh as [-> | [-> | [-> | [-> | [-> | [-> | Hh]]]]]];
      first [reflexivity | by intros H; vm_compute in H | by apply not_elem_of_nil in Hg | by apply not_elem_of_nil in Hh].
Qed.

Lemma group_update_propagates_witness :
  exists order db', group_update like_all [32; 10; 9] (length (grouprules sample_tables) + 2) (group_word friends) 1060 sample_tables 0 =
      Some (1, db', group_cache_age 1060 0) /\
    db' = update_all like_all sample_tables order /\ head order = Some friends /\ NoDup order /\
    (forall g, g ∈ order <-> rtc (included_by sample_tables) friends g) /\
    (forall o n, (o, n) ∉ order -> where_ (of_group o n) (groups db') = where_ (of_group o n) (groups sample_tables)) /\
    (forall u, decides (entitled like_all sample_tables friends.1 friends.2) u (access_query db' u friends.1 friends.2)).
Proof.
  apply (group_update_propagates like_all [32; 10; 9] friends sample_tables 1060 0).
  - by repeat split.
  - exact sample_apart.
  - repeat constructor.
Defined.

(** Bob is included, eve is excluded by name, and sue no longer a friend. *)
Example sample_update :
  (fun '(_, db, _) => map (fun u => (access_query db u (bytes "CONF") (bytes "1"), access_query db u (bytes "CONF") (bytes "2")))
    [bytes "bob"; bytes "eve"; bytes "sue"]) <$>
  group_update like_all [32; 10; 9] 7 (group_word friends) 1060 sample_tables 0 = Some [(30, 20); (0, 0); (0, 0)].
Proof. by vm_compute. Qed.

(** A member taken off the friends of ann, who are in conferences 12 and 1. *)
Definition prefix_tables : tables :=
  mkTables
    [group_rule (bytes "CONF") (bytes "12") (bytes "ann") (bytes "friends"); group_rule (bytes "CONF") (bytes "1") (bytes "ann") (bytes "friends")]
    [mkRow (bytes "bob") (bytes "ann") (bytes "friends") 30 1 30; mkRow (bytes "bob") (bytes "CONF") (bytes "1") 30 1 30;
     mkRow (bytes "bob") (bytes "CONF") (bytes "12") 30 1 30]
    [bytes "bob"].

(** The same, in conference 3 directly and through conference 5. *)
Definition diamond_tables : tables :=
  mkTables
    [group_rule (bytes "CONF") (bytes "3") (bytes "ann") (bytes "friends"); group_rule (bytes "CONF") (bytes "3") (bytes "CONF") (bytes "5");
     group_rule (bytes "CONF") (bytes "5") (bytes "ann") (bytes "friends")]
    [mkRow (bytes "bob") (bytes "ann") (bytes "friends") 30 1 30; mkRow (bytes "bob") (bytes "CONF") (bytes "3") 30 1 30;
     mkRow (bytes "bob") (bytes "CONF") (bytes "5") 30 1 30]
    [bytes "bob"].

(** [group_update] can leave access that no rule gives any more.  A group
    whose name is the beginning of another's that is also to be updated is
    left out, because the lists are searched for abbreviations: conference 1
    is not updated together with conference 12.  And a group that is updated
    before a group that it includes is not updated again: conference 3, which
    includes conference 5, keeps the members that 5 had. *)
Theorem group_update_stale :
  (exists db', group_update like_all [32; 10; 9] 10 (group_word friends) 1060 prefix_tables 0 = Some (1, db', 1060) /\
    access_query db' (bytes "bob") (bytes "CONF") (bytes "12") = 0 /\ access_query db' (bytes "bob") (bytes "CONF") (bytes "1") = 30 /\
    entitled like_all db' (bytes "CONF") (bytes "1") = []) /\
  (exists db', group_update like_all [32; 10; 9] 10 (group_word friends) 1060 diamond_tables 0 = Some (1, db', 1060) /\
    access_query db' (bytes "bob") (bytes "CONF") (bytes "5") = 0 /\ access_query db' (bytes "bob") (bytes "CONF") (bytes "3") = 30 /\
    entitled like_all db' (bytes "CONF") (bytes "3") = []).
Proof. by split; eexists; vm_compute. Qed.
