(* ===== verification/Units.v ===== *)
(** The files of Caucus by unit number (src/CV2/include/unitcode.h,
    src/CV2/unit: unitglob.c, unitname.c): the codes, the table that says which
    files are locked, and the names that [unit_name] gives to files.  A name
    can be read back: it holds every number that tells the file from others of
    its code. *)
From S2P Require Import Prelude Str ChixParse Numbers Vartab.

(** ** Codes *)

Inductive ucode : Set :=
  | XKEY | XWTZ | XWPT | XWTY | XWAN | XWDB | XWER | XWPM | XWPF | XWHL | XWTX | XITT | XIRE | XIPT
  | XITX | XITY | XICE | XILM | XICF | XISF | XIMF | XIBB | XIAL | XIOF | XURG | XUMD | XUMF | XUND
  | XUNN | XUSD | XUSF | XUOD | XUON | XUPA | XUOU | XUXF | XUXT | XULG | XUDD | XUVA | XCRD | XCRF
  | XCMD | XCMN | XCTD | XCTN | XCAD | XCAN | XCND | XCNN | XCSD | XCSF | XCOD | XCON | XCMA | XCIN
  | XCGR | XCUS | XCDD | XCLG | XCXT | XCNB | XCTC | XCUX | XCED | XCEN | XCFD | XCFN | XCVA | XCUP
  | XSMD | XSND | XSNN | XSPC | XSMU | XSPD | XSPN | XSBG | XSLG | XSCD | XSCN | XSCK | XSMK | XSPV
  | XSMO | XSUG | XSPB | XSHD | XSHN | XSNF | XSSM | XSSS | XSRM | XSRS | XSPL | XSUL | XSRP | XSRD
  | XSRN | XSR2 | XSUP | XSAM | XSMG | XSVA | XSOB | XSAY | XHI1 | XHML | XHXA | XHI2 | XHSV | XHSL
  | XHDD | XHRV | XPAK | XPXH | XPXT | XPXJ | XPRH | XPRT | XPNH | XPNT | XRXC | XRRX | XRCC | XRCH
  | XRRL | XAHMI | XAHMO | XAHCI | XAHCO | XAHPI | XAHPO | XAUCO | XAUMI | XAUMO | XACCI | XACCO
  | XACD | XAUD | XARF | XAMF | XART | XAMT.

Definition code (n : ucode) : Z :=
  match n with
  | XKEY => -100 | XWTZ => -11 | XWPT => -10 | XWTY => -9 | XWAN => -8 | XWDB => -7 | XWER => -6
  | XWPM => -5 | XWPF => -4 | XWHL => -3 | XWTX => -2 | XITT => -1 | XIRE => 0 | XIPT => 1
  | XITX => 2 | XITY => 3 | XICE => 4 | XILM => 5 | XICF => 6 | XISF => 7 | XIMF => 8 | XIBB => 9
  | XIAL => 10 | XIOF => 11 | XURG => 13 | XUMD => 14 | XUMF => 15 | XUND => 16 | XUNN => 17
  | XUSD => 18 | XUSF => 19 | XUOD => 20 | XUON => 21 | XUPA => 22 | XUOU => 23 | XUXF => 24
  | XUXT => 25 | XULG => 26 | XUDD => 27 | XUVA => 28 | XCRD => 30 | XCRF => 31 | XCMD => 32
  | XCMN => 33 | XCTD => 34 | XCTN => 35 | XCAD => 36 | XCAN => 37 | XCND => 38 | XCNN => 39
  | XCSD => 40 | XCSF => 41 | XCOD => 42 | XCON => 43 | XCMA => 44 | XCIN => 45 | XCGR => 46
  | XCUS => 47 | XCDD => 48 | XCLG => 49 | XCXT => 50 | XCNB => 51 | XCTC => 52 | XCUX => 53
  | XCED => 54 | XCEN => 55 | XCFD => 56 | XCFN => 57 | XCVA => 58 | XCUP => 59 | XSMD => 60
  | XSND => 61 | XSNN => 62 | XSPC => 63 | XSMU => 64 | XSPD => 65 | XSPN => 66 | XSBG => 67
  | XSLG => 68 | XSCD => 69 | XSCN => 70 | XSCK => 71 | XSMK => 72 | XSPV => 73 | XSMO => 74
  | XSUG => 75 | XSPB => 76 | XSHD => 77 | XSHN => 78 | XSNF => 79 | XSSM => 80 | XSSS => 81
  | XSRM => 82 | XSRS => 83 | XSPL => 84 | XSUL => 85 | XSRP => 86 | XSRD => 87 | XSRN => 88
  | XSR2 => 89 | XSUP => 90 | XSAM => 91 | XSMG => 92 | XSVA => 93 | XSOB => 94 | XSAY => 95
  | XHI1 => 100 | XHML => 101 | XHXA => 102 | XHI2 => 103 | XHSV => 104 | XHSL => 105 | XHDD => 106
  | XHRV => 107 | XPAK => 120 | XPXH => 121 | XPXT => 122 | XPXJ => 123 | XPRH => 124 | XPRT => 125
  | XPNH => 126 | XPNT => 127 | XRXC => 141 | XRRX => 142 | XRCC => 143 | XRCH => 144 | XRRL => 145
  | XAHMI => 150 | XAHMO => 151 | XAHCI => 152 | XAHCO => 153 | XAHPI => 154 | XAHPO => 155
  | XAUCO => 156 | XAUMI => 157 | XAUMO => 158 | XACCI => 159 | XACCO => 160 | XACD => 170
  | XAUD => 171 | XARF => 172 | XAMF => 173 | XART => 174 | XAMT => 175
  end.

Definition shouldlock_init : list Z :=
  [0; 0; 0; 0; 0; 0; 0; 0; 0; 0; 0; 0; 0; 1; 1; 1; 1; 1; 1; 1; 1; 1; 1; 1; 1; 0; 1; 0; 1; 0; 1;
   1; 1; 1; 1; 1; 1; 1; 1; 1; 1; 1; 1; 1; 1; 1; 1; 1; 0; 1; 0; 1; 1; 0; 1; 1; 1; 1; 1; 1; 0; 1;
   1; 1; 1; 1; 1; 1; 1; 1; 1; 1; 1; 1; 0; 0; 1; 1; 1; 1; 1; 1; 1; 1; 1; 1; 1; 1; 1; 1; 1; 0; 1;
   1; 1; 1; 0; 0; 0; 0; 1; 1; 1; 1; 1; 1; 0; 1; 0; 1; 0; 0; 0; 1; 1; 1; 0; 1; 1; 1; 1; 0; 0; 0;
   0; 0; 0; 0; 0; 0; 0; 0; 0; 0; 1; 1; 1; 1; 1; 0; 0; 0; 0; 0; 1; 1; 1; 1; 1; 1; 1; 1; 1; 1; 1;
   0; 0; 0; 0; 0; 0; 0; 0; 0; 1; 1; 1; 1].
Definition all_codes : list ucode :=
  [XKEY; XWTZ; XWPT; XWTY; XWAN; XWDB; XWER; XWPM; XWPF; XWHL; XWTX; XITT; XIRE; XIPT; XITX;
   XITY; XICE; XILM; XICF; XISF; XIMF; XIBB; XIAL; XIOF; XURG; XUMD; XUMF; XUND; XUNN; XUSD;
   XUSF; XUOD; XUON; XUPA; XUOU; XUXF; XUXT; XULG; XUDD; XUVA; XCRD; XCRF; XCMD; XCMN; XCTD;
   XCTN; XCAD; XCAN; XCND; XCNN; XCSD; XCSF; XCOD; XCON; XCMA; XCIN; XCGR; XCUS; XCDD; XCLG;
   XCXT; XCNB; XCTC; XCUX; XCED; XCEN; XCFD; XCFN; XCVA; XCUP; XSMD; XSND; XSNN; XSPC; XSMU;
   XSPD; XSPN; XSBG; XSLG; XSCD; XSCN; XSCK; XSMK; XSPV; XSMO; XSUG; XSPB; XSHD; XSHN; XSNF;
   XSSM; XSSS; XSRM; XSRS; XSPL; XSUL; XSRP; XSRD; XSRN; XSR2; XSUP; XSAM; XSMG; XSVA; XSOB;
   XSAY; XHI1; XHML; XHXA; XHI2; XHSV; XHSL; XHDD; XHRV; XPAK; XPXH; XPXT; XPXJ; XPRH; XPRT;
   XPNH; XPNT; XRXC; XRRX; XRCC; XRCH; XRRL; XAHMI; XAHMO; XAHCI; XAHCO; XAHPI; XAHPO; XAUCO;
   XAUMI; XAUMO; XACCI; XACCO; XACD; XAUD; XARF; XAMF; XART; XAMT].

Lemma code_decoded n : List.find (fun m => code m =? code n) all_codes = Some n.
Proof. by destruct n. Qed.

Lemma code_inj n m : code n = code m -> n = m.
Proof. intros E. pose proof (code_decoded n) as H. rewrite E, code_decoded in H. by injection H. Qed.

#[export] Instance ucode_eq_dec : EqDecision ucode.
Proof.
  intros n m. destruct (decide (code n = code m)) as [E | E]; [left; by apply code_inj | right; by intros ->].
Defined.

(** [shouldlock] has [XLAST+1] entries; the initializer above has fewer, and
    the rest is zero.  A code that is negative is no index of it. *)
Definition XLAST : Z := 175.
Definition shouldlock (n : ucode) : option Z :=
  zget (shouldlock_init ++ zeros (XLAST + 1 - len shouldlock_init)) (code n).

(** ** Outcomes

    A call returns, ends the process ([sysexit]), or is undefined. *)
Inductive out (A : Type) : Type := OK (a : A) | EXIT | UNDEF.
Arguments OK {_} a.
Arguments EXIT {_}.
Arguments UNDEF {_}.

#[export] Instance out_ret : MRet out := fun A a => OK a.
#[export] Instance out_bind : MBind out := fun A B f m =>
  match m with OK a => f a | EXIT => EXIT | UNDEF => UNDEF end.
Definition some {A} (o : option A) : out A := from_option OK UNDEF o.

(** ** Names *)

(** [sprintf] with a format of [w] columns, filled with zeros. *)
Definition zpad (w : nat) (n : Z) : text :=
  let d := dec_pos 10 (Z.abs n) in
  (if n <? 0 then [45] else []) ++ replicate (w - (if n <? 0 then 1 else 0) - length d) 48 ++ d.

Record uargs := mkArgs { cnum : Z; item : Z; resp : Z; lnum : Z; word : option text }.

(** What the name depends on besides the arguments: [confid]; the user who
    runs the process ([sysuserid]); the number of a user's directory
    ([sysudnum]); [flag.logfile]; the date. *)
Record uenv := mkEnv { confid : text; userid : text; udnum : text -> Z; logfile : text;
                       today : Z * Z * Z }.

(** [ascofchx (s, word, L(0), L(n))] leaves at most [n - 1] characters. *)
Definition asc_word (n : nat) (w : option text) : text := from_option (take (n - 1)) [] w.

Definition TEN_K_OFFSET : Z := 11960.

(** [item_str] and [resp_str]: three decimal digits, or three of base 36; the
    buffers have eight bytes. *)
Definition part_str (v : Z) : out text :=
  if 999 <? v then some (strito36 (i32 (v + TEN_K_OFFSET)) 3)
  else if len (zpad 3 v) <? 8 then OK (zpad 3 v) else UNDEF.

(** The part of [confid] after its last slash. *)
Fixpoint after_slash (s : text) : option text :=
  match s with
  | [] => None
  | c :: t => match after_slash t with
              | Some r => Some r
              | None => if c =? 47 then Some t else None
              end
  end.

Definition needs_udnum (n : ucode) : bool :=
  bool_decide (n = XITX) || bool_decide (n = XITY) || bool_decide (n = XICE) || bool_decide (n = XILM)
  || (code XURG <=? code n) && (code n <? code XCRD)
  || (code XAUCO <=? code n) && (code n <=? code XAUMO).

Section name.
Context (e : uenv) (a : uargs).

Definition cidstr : text := take 199 (confid e).
Definition cauid : text := default cidstr (after_slash cidstr).
Definition wordstr : text := asc_word 200 (word a).
Definition uid : text := match wordstr with [] => userid e | w => w end.
Definition uidstr : text := match wordstr with [] => take 39 (userid e) | w => w end.

Definition slash (s t : text) : text := s ++ 47 :: t.

(** [n] is the code, [q] the last part of the name. *)
Definition user_dir (n : ucode) (u : text) : out text :=
  if needs_udnum n then OK (slash (slash cidstr (bytes "USER" ++ zpad 3 (udnum e uid))) u) else UNDEF.
Definition USER (n : ucode) (q : text) : out text := d ← user_dir n uidstr; OK (slash d q).
Definition USERNUM (n : ucode) (q : text) (v : Z) : out text := USER n (q ++ zpad 3 v).
Definition UTEXT (q : text) : out text :=
  OK (bytes "/tmp/caucus." ++ cauid ++ 46 :: uidstr ++ 46 :: q).
Definition conf_dir : text := slash cidstr (bytes "C" ++ zpad 4 (cnum a)).
Definition CONF (q : text) : out text := OK (slash conf_dir q).
Definition CONFNUM (q : text) (v : Z) : out text := CONF (q ++ zpad 3 v).
Definition SYST (q : text) : out text := OK (slash (slash cidstr (bytes "MISC")) q).
Definition SYSTNUM (q : text) (v : Z) : out text := SYST (q ++ zpad 3 v).
Definition host_dir : text := slash cidstr (bytes "H" ++ zpad 3 (cnum a)).
Definition HOST (q : text) : out text := OK (slash host_dir q).
(** Names under [cidstr] in a directory [d] with a number: [SHIPnnn/], [RECVnnn/]. *)
Definition BAY (d : text) (q : text) : out text := OK (slash (slash cidstr (d ++ zpad 3 (cnum a))) q).
(** [strito36] into a buffer of 16 bytes. *)
Definition std36 (v l : Z) (k : text -> out text) : out text := s ← some (strito36 v l); k s.

(** The static [xulgname] is made from the date of the first call for [XULG]. *)
Definition xulg (x : option text) : out text :=
  match x with
  | Some nm => OK nm
  | None => let '(year, month, day) := today e in
            d ← user_dir XULG wordstr; OK (slash d (bytes "lg" ++ zpad 2 year ++ zpad 2 month ++ zpad 2 day))
  end.

(** [unit_name]: the name of the file.  [x] is [xulgname], once it is made. *)
Definition unit_name (x : option text) (n : ucode) : out text :=
  match n with
  | XIRE | XICF | XIMF | XISF | XIAL | XIOF | XIPT => OK wordstr
  | XIBB => OK (bytes "xxx")
  | XITX => UTEXT (bytes "textmsc1") | XITY => UTEXT (bytes "textmsc2")
  | XICE => UTEXT (bytes "caucused") | XILM => UTEXT (bytes "lastmess")

  | XURG => USER n (bytes "register") | XUOU => USER n (bytes "onlyuser")
  | XUND => USER n (bytes "nmsubddd") | XUNN => USERNUM n (bytes "nmsub") (item a)
  | XUOD => USER n (bytes "alsubddd") | XUON => USERNUM n (bytes "alsub") (item a)
  | XUXF => USER n (bytes "xactions") | XUXT => USER n (bytes "tmpxact")
  | XUVA => USER n (bytes "variable")
  | XAUCO => USER n (bytes "confnet.au") | XAUMO => USER n (bytes "mailout.au")
  | XAUMI => USER n (bytes "mailin.au")
  | XUDD => user_dir n wordstr
  | XUPA => d ← user_dir n wordstr; OK (slash d (bytes "p" ++ zpad 4 (cnum a) ++ bytes "000"))
  | XUSD => USER n (bytes "dirsubjs")
  | XUSF => d ← user_dir n wordstr; OK (slash d (bytes "s" ++ zpad 3 (resp a) ++ zpad 4 (lnum a)))
  | XUMD => USER n (bytes "dirmessg")
  | XUMF => d ← user_dir n wordstr; OK (slash d (bytes "m" ++ zpad 3 (resp a) ++ zpad 4 (lnum a)))
  | XULG => xulg x

  | XCMD => CONF (bytes "membrddd") | XCMN => CONFNUM (bytes "membr") (item a)
  | XCTD => CONF (bytes "titleddd") | XCTN => CONFNUM (bytes "title") (item a)
  | XCAD => CONF (bytes "authrddd") | XCAN => CONFNUM (bytes "authr") (item a)
  | XCND => CONF (bytes "nmsubddd") | XCNN => CONFNUM (bytes "nmsub") (item a)
  | XCOD => CONF (bytes "alsubddd") | XCON => CONFNUM (bytes "alsub") (item a)
  | XCMA => CONF (bytes "masteres") | XCIN => CONF (bytes "introduc")
  | XCGR => CONF (bytes "greeting") | XCUS => CONF (bytes "userlist")
  | XCXT => CONF (bytes "xaction") | XCUX => CONF (bytes "userxact")
  | XCNB => CONF (bytes "neighbor") | XCTC => CONF (bytes "trueconf")
  | XCUP => CONF (bytes "hidden")
  | XACCI => CONF (bytes "netin.au") | XACCO => CONF (bytes "netout.au")
  | XCED => CONF (bytes "itimeddd") | XCEN => CONFNUM (bytes "itime") (item a)
  | XCVA => CONF (if item a =? 0 then bytes "variable" else bytes "var" ++ zpad 4 (item a))
  | XCFD => i ← part_str (item a); CONF (bytes "rt" ++ i ++ bytes "ddd")
  | XCFN => r ← part_str (resp a); CONF (bytes "rt" ++ r ++ zpad 3 (item a))
  | XCRD => CONFNUM (bytes "direc") (item a)
  | XCRF => i ← part_str (item a); r ← part_str (resp a); CONF (i ++ r ++ zpad 4 (lnum a))
  | XCSD => CONF (bytes "dirsubjs")
  | XCSF => CONF (bytes "s" ++ zpad 3 (resp a) ++ zpad 4 (lnum a))
  | XCDD => OK conf_dir
  | XCLG => OK (slash cidstr (bytes "log" ++ zpad 3 (cnum a)))

  | XSMD => SYSTNUM (bytes "dicti") (item a) | XSMU => SYSTNUM (bytes "mxusr") (item a)
  | XSPC => SYST (bytes "printcod") | XSBG => SYST (bytes "bugslist")
  | XSLG => SYST (logfile e) | XSCK => SYST (bytes "confsmsk") | XSMK => SYST (bytes "mkdirlk")
  | XSMG => SYST (bytes "managers") | XSVA => SYST (bytes "variable")
  | XSND => SYST (bytes "namesddd") | XSNN => SYSTNUM (bytes "names") (item a)
  | XSPD => SYST (bytes "passwddd") | XSPN => SYSTNUM (bytes "passw") (item a)
  | XSCD => SYST (bytes "confsddd") | XSCN => SYSTNUM (bytes "confs") (item a)
  | XSPV => SYST (bytes "privlist")
  | XSOB => OK (slash (slash cidstr (bytes "OBJECTS")) wordstr)
  | XSAY => OK (slash (slash cidstr (bytes "MISC/ARRAYS")) wordstr)
  | XSMO | XSUP => OK (slash cidstr wordstr)
  | XSUG => OK (slash (slash cidstr (bytes "GROUPS")) wordstr)
  | XSPB => std36 (cnum a) 7 (fun s => OK (slash cidstr (bytes "PARSEBAY/x" ++ s)))
  | XSRP | XSR2 => std36 (cnum a) 7 (fun s => OK (slash cidstr (bytes "REPARSE/x" ++ s)))
  | XSSS => OK (slash cidstr (bytes "SCRIPTS/shipm" ++ zpad 3 (cnum a)))
  | XSRS => OK (slash cidstr (bytes "SCRIPTS/recvm" ++ zpad 3 (cnum a)))
  | XSHD => SYST (bytes "hostddd") | XSHN => SYSTNUM (bytes "host") (item a)
  | XSNF => SYST (bytes "sysinfo") | XSSM => SYST (bytes "shipmeth") | XSRM => SYST (bytes "recvmeth")
  | XSPL => SYST (bytes "xfplock") | XSUL => SYST (bytes "xfulock")
  | XSRD => SYST (bytes "routeddd") | XSRN => SYSTNUM (bytes "route") (item a)
  | XSAM => SYST wordstr

  | XHI1 | XHI2 => HOST (bytes "hostinfo")
  | XHML => HOST (bytes "outmail") | XHSL => HOST (bytes "shipper")
  | XAHMI => HOST (bytes "mailin.au") | XAHMO => HOST (bytes "mailout.au")
  | XAHCI => HOST (bytes "confin.au") | XAHCO => HOST (bytes "confout.au")
  | XAHPI => HOST (bytes "persin.au") | XAHPO => HOST (bytes "persout.au")
  | XHDD => OK host_dir
  | XHSV => HOST (bytes "shipv" ++ zpad 3 (item a))
  | XHRV => HOST (bytes "recvv" ++ zpad 3 (item a))
  | XHXA => std36 (item a) 4 (fun s => HOST (bytes "xact" ++ s))

  | XPXH => std36 (resp a) 4 (fun s => BAY (bytes "SHIP") (bytes "H" ++ zpad 3 (item a) ++ s))
  | XPXT => std36 (resp a) 4 (fun s => BAY (bytes "SHIP") (bytes "T" ++ zpad 3 (item a) ++ s))
  | XPXJ => std36 (resp a) 4 (fun s => std36 (lnum a) 3 (fun s2 =>
              BAY (bytes "SHIP") (bytes "J" ++ zpad 3 (item a) ++ s ++ bytes "." ++ s2)))
  | XPRH => std36 (resp a) 4 (fun s => BAY (bytes "SHIP") (bytes "RESHIP/H" ++ zpad 3 (item a) ++ s))
  | XPRT => std36 (resp a) 4 (fun s => BAY (bytes "SHIP") (bytes "RESHIP/T" ++ zpad 3 (item a) ++ s))
  | XPNH => std36 (resp a) 4 (fun s => BAY (bytes "SHIP") (bytes "CANTSHIP/H" ++ zpad 3 (item a) ++ s))
  | XPNT => std36 (resp a) 4 (fun s => BAY (bytes "SHIP") (bytes "CANTSHIP/T" ++ zpad 3 (item a) ++ s))
  | XPAK => std36 (resp a) 4 (fun s => BAY (bytes "SHIP") (bytes "a" ++ zpad 3 (item a) ++ s))
  | XRXC => std36 (item a) 7 (fun s => BAY (bytes "RECV") (bytes "CHUNK/x" ++ s))
  | XRCC => BAY (bytes "RECV") (bytes "chunkctr")
  | XRCH => BAY (bytes "RECV") (bytes "chunkhis")
  | XRRX => std36 (resp a) 4 (fun s => BAY (bytes "RECV") (bytes "RERECV/r" ++ zpad 3 (item a) ++ s))
  | XRRL => BAY (bytes "RECV") (bytes "recvlock")

  | XACD => OK (slash (slash cidstr (bytes "ATTACH")) (bytes "C" ++ zpad 4 (cnum a)))
  | XARF => i ← part_str (item a); r ← part_str (resp a);
      OK (slash (slash (slash cidstr (bytes "ATTACH")) (bytes "C" ++ zpad 4 (cnum a))) (i ++ r))
  | XART => OK (slash (slash (slash cidstr (bytes "ATTACH")) (bytes "C" ++ zpad 4 (cnum a)))
                  (wordstr ++ bytes ".tmp"))
  (* The number of the user's directory is never set for these; and XAMF goes on into XAMT. *)
  | XAUD | XAMF | XAMT => UNDEF

  | XKEY | XWTZ | XWPT | XWTY | XWAN | XWDB | XWER | XWPM | XWPF | XWHL | XWTX | XITT => EXIT
  end.
End name.

(** ** What a name tells *)

Lemma zpad_value w n :
  0 <= n < 2 ^ 31 -> Forall (fun c => DIGIT c = true) (zpad w n) /\ dec_value (zpad w n) = n.
Proof.
  intros Hn. unfold zpad. rewrite Z.abs_eq by lia. replace (n <? 0) with false by lia. rewrite app_nil_l.
  destruct (dec_pos_spec 10 n) as (H1 & _ & H2); [lia | lia |].
  generalize (w - 0 - length (dec_pos 10 n))%nat as k. intros k. split.
  - apply Forall_app. split; [by apply Forall_replicate | done].
  - rewrite <- H2 at 2. unfold dec_value. rewrite foldl_app. f_equal.
    induction k as [| k IH]; [done |]. exact IH.
Qed.

Lemma zpad_inj w n m : 0 <= n < 2 ^ 31 -> 0 <= m < 2 ^ 31 -> zpad w n = zpad w m -> n = m.
Proof.
  intros Hn Hm E. destruct (zpad_value w n Hn) as [_ <-], (zpad_value w m Hm) as [_ <-]. by rewrite E.
Qed.

Lemma dec_pos_length fuel n : 0 <= n -> (length (dec_pos fuel n) <= fuel)%nat /\
  forall k, (0 < k)%nat -> n < 10 ^ Z.of_nat k -> (length (dec_pos fuel n) <= k)%nat.
Proof.
  revert n. induction fuel as [| fuel IH]; intros n Hn; cbn [dec_pos]; [split; cbn; lia |].
  rewrite length_app. cbn [length]. destruct (10 <=? n) eqn:E.
  - destruct (IH (n `div` 10)) as [H1 H2]; [apply Z.div_pos; lia |]. split; [lia |]. intros k Hk Hp.
    destruct k as [| [| k]]; [lia | cbn in Hp; lia |].
    rewrite Nat2Z.inj_succ, Z.pow_succ_r in Hp by lia.
    assert (length (dec_pos fuel (n `div` 10)) <= S k)%nat; [| lia].
    apply H2; [lia | apply Z.div_lt_upper_bound; lia].
  - split; [cbn; lia |]. intros k Hk _. cbn. lia.
Qed.

(** A number that fits has exactly the columns asked for. *)
Lemma zpad_length w n : (0 < w)%nat -> 0 <= n < 10 ^ Z.of_nat w -> length (zpad w n) = w.
Proof.
  intros Hw Hn. unfold zpad. rewrite Z.abs_eq by lia. replace (n <? 0) with false by lia. rewrite app_nil_l.
  rewrite length_app, length_replicate. destruct (dec_pos_length 10 n) as [_ Hl]; [lia |].
  specialize (Hl w Hw). lia.
Qed.

Definition no_slash (s : text) : Prop := Forall (fun c => c <> 47) s.

Lemma zpad_no_slash w n : 0 <= n < 2 ^ 31 -> no_slash (zpad w n).
Proof.
  intros Hn. eapply Forall_impl; [apply zpad_value; exact Hn |]. intros c Hc. unfold DIGIT in Hc. lia.
Qed.

Lemma split_slash s s' t t' : no_slash s -> no_slash s' -> slash s t = slash s' t' -> s = s' /\ t = t'.
Proof.
  unfold slash. intros Hs. revert s'. induction Hs as [| c s Hc Hs IH]; intros s' Hs' E.
  - destruct s' as [| c' s']; [by injection E as -> |]. inversion Hs'; subst. injection E as ? _. congruence.
  - destruct s' as [| c' s'].
    + injection E as ? _. congruence.
    + inversion Hs'; subst. injection E as <- E. destruct (IH s') as [-> ->]; auto.
Qed.

Lemma slash_inj s t t' : slash s t = slash s t' -> t = t'.
Proof. unfold slash. intros E. apply app_inv_head in E. by injection E. Qed.

Lemma slash_assoc s t u : slash (slash s t) u = slash s (slash t u).
Proof. unfold slash. by rewrite <- app_assoc. Qed.

(** Two names in numbered directories. *)
Lemma dir_inj c d w n m t t' :
  no_slash d -> 0 <= n < 2 ^ 31 -> 0 <= m < 2 ^ 31 ->
  slash (slash c (d ++ zpad w n)) t = slash (slash c (d ++ zpad w m)) t' -> n = m /\ t = t'.
Proof.
  intros Hd Hn Hm. rewrite !slash_assoc. intros E. apply slash_inj, split_slash in E as [E ->].
  - apply app_inv_head, zpad_inj in E; auto.
  - apply Forall_app. split; [done | by apply zpad_no_slash].
  - apply Forall_app. split; [done | by apply zpad_no_slash].
Qed.

Lemma strito36_inj v v' l s :
  0 <= v < 2 ^ 31 -> 0 <= v' < 2 ^ 31 -> 0 < l -> strito36 v l = Some s -> strito36 v' l = Some s -> v = v'.
Proof.
  intros Hv Hv' Hl E E'. destruct (base36_roundtrip v l Hv Hl) as (s1 & E1 & R1 & _).
  destruct (base36_roundtrip v' l Hv' Hl) as (s2 & E2 & R2 & _). congruence.
Qed.

(** The numbers of items and responses that the scheme of [part_str] is made for. *)
Definition PARTS : Z := 10000.

Definition part_value (s : text) : Z :=
  match s with
  | c :: _ => if 65 <=? c then (str36toi s).2 - TEN_K_OFFSET else dec_value s
  | [] => 0
  end.

(** Every part is three characters that can be read back. *)
Lemma part_str_value v : 0 <= v < PARTS -> exists s, part_str v = OK s /\ length s = 3%nat /\ part_value s = v.
Proof.
  intros Hv.
  assert (Hall : forallb (fun v => match part_str v with
      | OK s => (length s =? 3)%nat && (part_value s =? v) | _ => false end) (seqZ 0 PARTS) = true)
    by (vm_compute; reflexivity).
  rewrite forallb_forall in Hall. specialize (Hall v).
  destruct (part_str v) as [s | |].
  - exists s. assert (E : (length s =? 3)%nat && (part_value s =? v) = true).
    { apply Hall. apply list_elem_of_In, elem_of_seqZ. lia. }
    apply andb_true_iff in E as [E1 E2]. apply Nat.eqb_eq in E1. split_and!; [done | done | lia].
  - assert (false = true); [| done]. apply Hall. apply list_elem_of_In, elem_of_seqZ. lia.
  - assert (false = true); [| done]. apply Hall. apply list_elem_of_In, elem_of_seqZ. lia.
Qed.

Lemma part_str_inj v v' s : 0 <= v < PARTS -> 0 <= v' < PARTS -> part_str v = OK s -> part_str v' = OK s -> v = v'.
Proof.
  intros Hv Hv' E E'. destruct (part_str_value v Hv) as (? & ? & _ & <-).
  destruct (part_str_value v' Hv') as (? & ? & _ & <-). congruence.
Qed.
