(* ===== verification/UnitLock.v ===== *)
(** Locks on the files of Caucus (src/CV2/unit: unitlock.c, unitlkfx.c,
    unitunlk.c, unitwipe.c).  Every file that is locked stands for one byte of a
    lockmap file, of the system, a user, a conference, a host or a bay; a
    process has one lockmap file of each of these types open.  The record locks
    of the operating system are the class [record_locks]. *)
From S2P Require Import Prelude Str ChixParse Numbers Vartab Units.

(** ** Record locks ([fcntl] with F_SETLK) *)

Inductive lmode : Set := F_RDLCK | F_WRLCK.
Abbreviation pid := nat (only parsing).

Definition conflict (m m' : lmode) : bool :=
  match m, m' with F_RDLCK, F_RDLCK => false | _, _ => true end.

(** [setlk l p f b m] is the request of process [p] for byte [b] of file [f];
    no value is the result -1.  [closef] is the close of any descriptor of the
    file by the process, which takes all its locks on the file away. *)
Class record_locks (L : Type) := {
  nolocks : L;
  holds : L -> pid -> text -> Z -> option lmode;
  setlk : L -> pid -> text -> Z -> lmode -> option L;
  unlck : L -> pid -> text -> Z -> L;
  closef : L -> pid -> text -> L }.

Class record_locks_laws (L : Type) `{record_locks L} := {
  nolocks_holds p f b : holds nolocks p f b = None;
  setlk_fails l p f b m : setlk l p f b m = None <->
    exists q m', q <> p /\ holds l q f b = Some m' /\ conflict m m' = true;
  setlk_holds l p f b m l' q g c : setlk l p f b m = Some l' ->
    holds l' q g c = if decide ((q, g, c) = (p, f, b)) then Some m else holds l q g c;
  unlck_holds l p f b q g c :
    holds (unlck l p f b) q g c = if decide ((q, g, c) = (p, f, b)) then None else holds l q g c;
  closef_holds l p f q g c :
    holds (closef l p f) q g c = if decide ((q, g) = (p, f)) then None else holds l q g c }.

(** ** The map of semaphores *)

Definition MAXHOST : Z := 1000.
Definition MAXSEQ : Z := 1679616.
Definition MAXITEMS : Z := 9950.
Definition MAXRESP : Z := 9999.
Definition MAXLNUM : Z := 9999.
Definition MAXCANCEL : Z := 12.

Inductive ltype : Set := LSYS | LUSR | LCNF | LHST | LSHP | LRCV.
#[export] Instance ltype_eq_dec : EqDecision ltype.
Proof. solve_decision. Defined.

(** A block of bytes: its first one and its size; [DEF] puts one behind another. *)
Definition DEF (p : Z * Z) (range : Z) : Z * Z := (p.1 + p.2, range).

Definition lmap : ucode -> Z * Z :=
  let z := (0, 1000) in
  let xunn := DEF z 1000 in
  let xuon := DEF xunn 1000 in
  let xupa := DEF xuon 1000 in
  let xusf := DEF xupa 1000 in
  let xumf := DEF xusf 1000 in
  let xamf := DEF xumf 1000 in
  let xcmn := DEF z 1000 in
  let xctn := DEF xcmn 1000 in
  let xcan := DEF xctn 1000 in
  let xcnn := DEF xcan 1000 in
  let xcon := DEF xcnn 1000 in
  let xcsf := DEF xcon 1000 in
  let xcen := DEF xcsf 1000 in
  let xcfd := DEF xcen MAXITEMS in
  let xcva := DEF xcfd MAXITEMS in
  let xcfn := DEF xcva (MAXITEMS * 1000) in
  let xcrd := DEF xcfn MAXITEMS in
  let xcrf := DEF xcrd (MAXITEMS * MAXRESP + MAXLNUM) in
  let xarf := DEF xcrf (MAXITEMS * MAXRESP) in
  fun n => match n with
  | XUNN => xunn | XUON => xuon | XUPA => xupa | XUSF => xusf | XUMF => xumf | XAMF => xamf
  | XCMN => xcmn | XCTN => xctn | XCAN => xcan | XCNN => xcnn | XCON => xcon | XCSF => xcsf
  | XCEN => xcen | XCFD => xcfd | XCVA => xcva | XCFN => xcfn | XCRD => xcrd | XCRF => xcrf
  | XARF => xarf
  | _ => (0, 0)
  end.
Definition first (n : ucode) : Z := (lmap n).1.

(** The switch of [unit_lock]: the type, the semaphore, and [cnum] behind it;
    [None] is its default case. *)
Definition lock_of (n : ucode) (a : uargs) : option (ltype * Z * Z) :=
  let usr v := Some (LUSR, i32 v, cnum a) in
  let cnf v := Some (LCNF, i32 v, cnum a) in
  let sys v := Some (LSYS, i32 v, cnum a) in
  let hst v := Some (LHST, i32 v, cnum a) in
  let shp k := Some (LSHP, i32 (resp a + k * MAXSEQ), item a) in
  let rcv v := Some (LRCV, i32 v, cnum a) in
  match n with
  | XUDD | XURG | XUMD | XUND | XUSD | XUOD | XUXF | XUXT | XAUCO | XAUMO | XAUMI | XULG | XUVA
  | XUOU => usr (code n)
  | XUNN | XUON => usr (first n + item a)
  | XUPA => usr (first n + cnum a)
  | XUSF | XUMF | XAMF => usr (first n + resp a)
  | XCMA | XCTD | XCAD | XCMD | XCND | XCSD | XCOD | XCIN | XCGR | XCLG | XCXT | XCNB | XCTC
  | XACCI | XACCO | XCUX | XCED | XCUP | XCUS => cnf (code n)
  | XCMN | XCTN | XCAN | XCNN | XCON => cnf (first n + item a)
  | XCSF => cnf (first n + resp a)
  | XCEN | XCFD | XCVA => cnf (first n + item a)
  | XCFN => cnf (first n + i32 (resp a * 1000) + item a)
  | XCRD => cnf (first n + item a)
  | XCRF => cnf (i32 (i32 (first n + i32 (item a * MAXRESP)) + resp a) + lnum a)
  | XARF => cnf (i32 (first n + i32 (item a * MAXRESP)) + resp a)
  | XSND | XSPC | XSPD | XSBG | XSLG | XSCK | XSMK | XSPV | XSMO | XSSM | XSRM | XSNF | XSPL
  | XSUL | XSHD | XSRD | XSUP | XSAM | XSMG | XSVA | XSOB | XSAY | XSCD => sys (code n)
  | XSNN => sys (1000 + item a) | XSMU => sys (2000 + item a) | XSPN => sys (3000 + item a)
  | XSCN => sys (4000 + item a) | XSHN => sys (5000 + item a) | XSSS => sys (6000 + cnum a)
  | XSRS => sys (7000 + cnum a) | XSRN => sys (8000 + item a)
  | XSPB => sys (MAXSEQ + cnum a) | XSRP => sys (2 * MAXSEQ + cnum a) | XSR2 => sys (3 * MAXSEQ + cnum a)
  | XHML | XHSL | XHDD | XHI2 | XAHMI | XAHMO | XAHCI | XAHCO | XAHPI | XAHPO | XHI1 => hst (code n)
  | XHSV => hst (1000 + item a) | XHRV => hst (2000 + item a) | XHXA => hst (3000 + item a)
  | XPXH => shp 1 | XPXT => shp 2 | XPRH => shp 3 | XPRT => shp 4 | XPNH => shp 5 | XPNT => shp 6
  | XPAK => shp 7 | XRRX => shp 8
  | XRCC | XRCH | XRRL => rcv (code n)
  | XRXC => rcv (item a + MAXSEQ)
  | _ => None
  end.

(** ** The state of a process *)

Definition UNLKED : Z := 0.
Definition READ : Z := 1.
Definition WRITE : Z := 2.
Definition TLOCK : Z := 3.
Definition LOCKED : Z := 4.

(** The fields of [unit_template] and [locktype_t] that locking uses; [fd] is
    the file that is open, -1 is [None]. *)
Record unit_t := mkUnit { access : Z; nameis : text; locknum : Z; locktype : ltype }.
Record locktype_t := mkLt { fd : option text; nconf : Z; user : text }.

(** What [buglist] is told. *)
Inductive bug : Set :=
| LockingNotUnlocked (n : ucode) (access : Z) | BadLock (n : ucode) | CantOpen (n : ucode)
| UnlockingUnlocked (n : ucode) | UnlockingOpen (n : ucode).

Record proc := mkProc { units : ucode -> unit_t; ltypes : ltype -> locktype_t;
                        time_lock : Z; bugs : list bug; xulgname : option text }.

Definition fset {K V} `{EqDecision K} (f : K -> V) (k : K) (v : V) : K -> V :=
  fun k' => if decide (k' = k) then v else f k'.

Definition set_units (p : proc) u := mkProc u (ltypes p) (time_lock p) (bugs p) (xulgname p).
Definition set_ltypes (p : proc) l := mkProc (units p) l (time_lock p) (bugs p) (xulgname p).
Definition set_time (p : proc) t := mkProc (units p) (ltypes p) t (bugs p) (xulgname p).
Definition buglist (p : proc) b := mkProc (units p) (ltypes p) (time_lock p) (bugs p ++ [b]) (xulgname p).
Definition set_xulg (p : proc) x := mkProc (units p) (ltypes p) (time_lock p) (bugs p) x.
Definition set_unit (p : proc) (n : ucode) (f : unit_t -> unit_t) : proc :=
  set_units p (fset (units p) n (f (units p n))).
Definition set_access (v : Z) (u : unit_t) := mkUnit v (nameis u) (locknum u) (locktype u).
Definition set_name (v : text) (u : unit_t) := mkUnit (access u) v (locknum u) (locktype u).
Definition set_locknum (v : Z) (u : unit_t) := mkUnit (access u) (nameis u) v (locktype u).
Definition set_lock (v : Z) (t : ltype) (u : unit_t) := mkUnit (access u) (nameis u) v t.

(** The statics at the start of a process. *)
Definition proc_init : proc :=
  mkProc (fun _ => mkUnit UNLKED [] 0 LSYS) (fun _ => mkLt None 0 []) 0 [] None.

(** ** The operations *)

Section ops.
Context {L : Type} `{record_locks L} (e : uenv) (me : pid).

(** [unit_lkop]: [can] says whether the file can be opened (or made).  The
    name of the user goes into 24 bytes. *)
Definition unit_lkop (p : proc) (l : L) (n : ltype) (file nuser : text) (nconf : Z) (can : bool)
    : out (proc * L * bool) :=
  let l := match fd (ltypes p n) with Some f => closef l me f | None => l end in
  if 24 <=? len nuser then UNDEF
  else if can then OK (set_ltypes p (fset (ltypes p) n (mkLt (Some file) nconf nuser)), l, true)
  else OK (set_ltypes p (fset (ltypes p) n (mkLt None 0 [])), l, false).

(** The lockmap file of a type. *)
Definition lockmap (n : ltype) (u : text) (udn c : Z) : text :=
  match n with
  | LSYS => slash (cidstr e) (bytes "locksyst")
  | LUSR => slash (slash (slash (cidstr e) (bytes "USER" ++ zpad 3 udn)) u) (bytes "lockuser")
  | LCNF => slash (slash (cidstr e) (bytes "C" ++ zpad 4 c)) (bytes "lockconf")
  | LHST => slash (cidstr e) (bytes "lockh" ++ zpad 3 c)
  | LSHP => slash (slash (cidstr e) (bytes "H" ++ zpad 3 c)) (bytes "lockship")
  | LRCV => slash (slash (cidstr e) (bytes "RECV" ++ zpad 3 c)) (bytes "lockrecv")
  end.

(** [sysudnum] is 0 for no userid. *)
Definition udnum_of (w : option text) : Z :=
  match w with None | Some [] => 0 | Some u => udnum e u end.

(** [unit_lkfx]: the lockmap file of type [n] is the one that is open, or is
    opened in its place. *)
Definition unit_lkfx (p : proc) (l : L) (n : ltype) (nuser : option text) (nconf' : Z) (can : bool)
    : out (proc * L * bool) :=
  let nuser_str := asc_word 58 nuser in
  let lt := ltypes p n in
  let file := lockmap n nuser_str (udnum_of nuser) nconf' in
  let opened u c := if len file <? 256 then unit_lkop p l n file u c can else UNDEF in
  match n with
  | LSYS => if bool_decide (fd lt <> None) then OK (p, l, true) else opened [] 0
  | LUSR => if bool_decide (user lt = nuser_str) then OK (p, l, true) else opened nuser_str 0
  | LCNF | LHST | LSHP | LRCV => if nconf lt =? nconf' then OK (p, l, true) else opened [] nconf'
  end.

(** [unit_lock] up to its loop: it returns, or goes on to the loop with the
    type and the semaphore.  [can1] and [can2] say whether the lockmap file can
    be opened at once, and two seconds later. *)
Inductive entered := Returns (r : bool) | Loops (t : ltype) (lock : Z).

Definition unit_lock_enter (p : proc) (l : L) (n : ucode) (a : uargs) (can1 can2 : bool)
    : out (proc * L * entered) :=
  nm ← unit_name e a (xulgname p) n;
  if 160 <=? len nm then UNDEF else
  let p := if bool_decide (n = XULG) then set_xulg p (Some nm) else p in
  let p := set_unit p n (set_name nm) in
  let p := if access (units p n) =? UNLKED then p
           else buglist p (LockingNotUnlocked n (access (units p n))) in
  sl ← some (shouldlock n);
  if sl =? 0 then OK (set_unit p n (set_access LOCKED), l, Returns true) else
  match lock_of n a with
  | None => EXIT
  | Some (type, lock, cn) =>
      let p := set_unit p n (set_lock lock type) in
      '(p, l, ok) ← unit_lkfx p l type (word a) cn can1;
      if ok : bool then OK (p, l, Loops type lock) else
      '(p, l, ok) ← unit_lkfx p l type (word a) cn can2;
      if ok : bool then OK (p, l, Loops type lock)
      else OK (buglist p (CantOpen n), l, Returns false)
  end.

(** One turn of the loop of [unit_lock]; [brk] is what [sysbrktest] says and
    [i] the counter, a [short]. *)
Inductive turn := Got | Failed | Again (i : Z).

Definition LOCKER (p : proc) (l : L) (t : ltype) (lock : Z) (rw : Z) : option L :=
  match fd (ltypes p t) with
  | Some f => setlk l me f lock (if rw =? READ then F_RDLCK else F_WRLCK)
  | None => None
  end.

Definition unit_lock_turn (p : proc) (l : L) (n : ucode) (t : ltype) (lock rw i : Z) (brk : bool)
    : out (proc * L * turn) :=
  match LOCKER p l t lock rw with
  | Some l => OK (set_unit p n (set_access LOCKED), l, Got)
  | None =>
      if rw =? TLOCK then OK (set_unit p n (set_locknum (-1)), l, Failed)
      else if brk && (MAXCANCEL <? i) then EXIT
      else OK (set_time p (i32 (time_lock p + 2)), l, Again (i16 (i + 1)))
  end.

(** [unit_unlk]. *)
Definition unit_unlk (p : proc) (l : L) (n : ucode) : out (proc * L) :=
  if code n <=? code XITT then OK (p, l) else
  let p := if access (units p n) =? UNLKED then buglist p (UnlockingUnlocked n)
           else if access (units p n) =? LOCKED then p else buglist p (UnlockingOpen n) in
  sl ← some (shouldlock n);
  if (sl =? 0) || (locknum (units p n) <? 0) then OK (set_unit p n (set_access UNLKED), l)
  else
    let l := match fd (ltypes p (locktype (units p n))) with
             | Some f => unlck l me f (locknum (units p n))
             | None => l
             end in
    OK (set_unit p n (fun u => set_access UNLKED (set_locknum (-1) u)), l).

(** [unit_wipe]. *)
Definition unit_wipe (p : proc) (l : L) (t : ltype) : proc * L :=
  match fd (ltypes p t) with
  | Some f => (set_ltypes p (fset (ltypes p) t (mkLt None 0 [])), closef l me f)
  | None => (p, l)
  end.
End ops.

(** ** Files that are never locked

    The table [shouldlock] of unitglob.c has too few entries for the codes that
    are not used: a code from [XPAK] on has the entry of another one.  Attached
    files and the files of the shipping bays have a semaphore, but [unit_lock]
    returns at once. *)
Lemma never_locked {L} `{record_locks L} e me p l n a can1 can2 nm :
  In n [XPXH; XPXT; XPRH; XPRT; XPNH; XPNT; XRXC; XRRX; XRCC; XAHPO; XAUCO; XAUMI; XAUMO; XACCI; XACCO; XARF] ->
  unit_name e a (xulgname p) n = OK nm -> len nm < 160 ->
  lock_of n a <> None /\ exists p', unit_lock_enter e me p l n a can1 can2 = OK (p', l, Returns true).
Proof.
  intros Hn E Hl. unfold unit_lock_enter. rewrite E. cbn [mbind out_bind].
  rewrite (proj2 (Z.leb_gt _ _)) by lia. cbn in Hn.
  repeat destruct Hn as [<- | Hn]; try done; (split; [discriminate |]);
    match goal with |- context [shouldlock ?m] => change (shouldlock m) with (Some 0) end;
    cbn [some from_option mbind out_bind]; eauto.
Qed.
