(* ===== verification/UnitName.v ===== *)
(** Names of files and the semaphores of [UnitLock]: a file has one semaphore,
    and exactly which files share one, in the ranges that unitlock.c gives. *)
From S2P Require Import Prelude Str ChixParse Numbers Vartab Units UnitLock.

Definition with_user (e : uenv) (u : text) : uenv := mkEnv (confid e) u (udnum e) (logfile e) (today e).

(** The lockmap file and the byte in it that stand for a file. *)
Definition place (e : uenv) (n : ucode) (a : uargs) : option (text * Z) :=
  '(t, lock, c) ← lock_of n a;
  Some (lockmap e t (asc_word 58 (word a)) (udnum_of e (word a)) c, lock).

Definition is_user_code (n : ucode) : bool :=
  match n with
  | XUDD | XURG | XUMD | XUND | XUSD | XUOD | XUXF | XUXT | XAUCO | XAUMO | XAUMI | XULG | XUVA
  | XUOU | XUNN | XUON | XUPA | XUSF | XUMF | XAMF => true
  | _ => false
  end.

(** The arguments that the table of unit_lock.c allows. *)
Record args_ok (n : ucode) (a : uargs) : Prop := {
  ok_cnum : 0 <= cnum a < 2 ^ 31; ok_item : 0 <= item a < PARTS;
  ok_resp : 0 <= resp a < 2 ^ 31; ok_lnum : 0 <= lnum a < PARTS;
  (* three columns before others *)
  ok_resp3 : n = XUSF \/ n = XUMF \/ n = XCSF -> resp a < 1000;
  ok_resp36 : n = XCFN \/ n = XCRF \/ n = XARF -> resp a < PARTS;
  ok_item3 : n = XCFN \/ n = XPXH \/ n = XPXT \/ n = XPRH \/ n = XPRT \/ n = XPNH \/ n = XPNT
             \/ n = XPAK \/ n = XRRX -> item a < 1000;
  ok_word : is_user_code n = true ->
    exists w, word a = Some w /\ w <> [] /\ len w < 58 /\ no_slash w }.

Lemma bind_some {A B} (m : out A) (f : A -> out B) b :
  (x ← m; f x) = OK b -> exists x, m = OK x /\ f x = OK b.
Proof. destruct m; try discriminate. eauto. Qed.

Lemma OK_inj {A} (x y : A) : OK x = OK y -> x = y.
Proof. by injection 1. Qed.

Ltac noslash :=
  unfold no_slash;
  lazymatch goal with
  | |- Forall _ (_ ++ _) => apply Forall_app; split; noslash
  | |- Forall _ (zpad _ _) => apply zpad_no_slash; assumption
  | |- Forall _ (bytes _) => apply (bool_decide_unpack _); vm_compute; exact I
  | _ => assumption
  end.

Section names.
Context (e : uenv) (u u' : text) (n : ucode) (a a' : uargs) (nm : text).
Context (Ha : args_ok n a) (Ha' : args_ok n a').

Lemma word_text b : args_ok n b -> is_user_code n = true ->
  exists w, word b = Some w /\ w <> [] /\ no_slash w /\ wordstr b = w /\ asc_word 58 (word b) = w.
Proof.
  intros Hb Hn. destruct (ok_word _ _ Hb Hn) as (w & E & Hne & Hl & Hs). exists w.
  unfold wordstr, asc_word. rewrite E. cbn [from_option]. rewrite !take_ge by (unfold len in Hl; lia). done.
Qed.

(** The name of a file of a user tells the user. *)
Lemma user_file q q' d d' :
  (forall w, 0 <= udnum e w < 2 ^ 31) -> is_user_code n = true ->
  user_dir (with_user e u) a n (wordstr a) = OK d -> user_dir (with_user e u') a' n (wordstr a') = OK d' ->
  slash d q = slash d' q' -> word a = word a' /\ q = q'.
Proof using Ha Ha'.
  intros Hu Hn D D' E.
  destruct (word_text a Ha Hn) as (w & E1 & Hw & Hs & E2 & _), (word_text a' Ha' Hn) as (w' & E1' & Hw' & Hs' & E2' & _).
  unfold user_dir in *. destruct (needs_udnum n); [| done].
  apply OK_inj in D as <-, D' as <-. rewrite E2, E2' in E. unfold uid in E. rewrite E2, E2' in E.
  rewrite E1, E1'. destruct w as [| c w]; [done |]. destruct w' as [| c' w']; [done |].
  cbn [with_user udnum userid] in E. rewrite !slash_assoc in E. apply slash_inj in E.
  pose proof (Hu (c :: w)). pose proof (Hu (c' :: w')).
  apply split_slash in E as [_ E]; [| noslash | noslash].
  apply split_slash in E as [-> E]; auto.
Qed.

Lemma USER_inj q q' :
  (forall w, 0 <= udnum e w < 2 ^ 31) -> is_user_code n = true ->
  USER (with_user e u) a n q = OK nm -> USER (with_user e u') a' n q' = OK nm -> word a = word a' /\ q = q'.
Proof using Ha Ha'.
  intros Hu Hn E E'. unfold USER in *.
  destruct (word_text a Ha Hn) as (w & _ & Hw & _ & E2 & _), (word_text a' Ha' Hn) as (w' & _ & Hw' & _ & E2' & _).
  assert (uidstr (with_user e u) a = wordstr a /\ uidstr (with_user e u') a' = wordstr a') as [F F'].
  { unfold uidstr. rewrite E2, E2'. by destruct w, w'. }
  rewrite F in E. rewrite F' in E'. apply bind_some in E as (d & D & <-%OK_inj), E' as (d' & D' & E%OK_inj).
  eapply user_file; eauto.
Qed.

Lemma CONF_inj q q' :
  CONF (with_user e u) a q = OK nm -> CONF (with_user e u') a' q' = OK nm -> cnum a = cnum a' /\ q = q'.
Proof using Ha Ha'.
  intros <-%OK_inj E%OK_inj. symmetry in E. apply dir_inj in E; [done | | apply Ha | apply Ha']. noslash.
Qed.

Lemma HOST_inj q q' :
  HOST (with_user e u) a q = OK nm -> HOST (with_user e u') a' q' = OK nm -> cnum a = cnum a' /\ q = q'.
Proof using Ha Ha'.
  intros <-%OK_inj E%OK_inj. symmetry in E. apply dir_inj in E; [done | | apply Ha | apply Ha']. noslash.
Qed.

Lemma BAY_inj d q q' : no_slash d ->
  BAY (with_user e u) a d q = OK nm -> BAY (with_user e u') a' d q' = OK nm -> cnum a = cnum a' /\ q = q'.
Proof using Ha Ha'.
  intros Hd <-%OK_inj E%OK_inj. symmetry in E. apply dir_inj in E; [done | done | apply Ha | apply Ha'].
Qed.

Lemma SYST_inj q q' : SYST (with_user e u) q = OK nm -> SYST (with_user e u') q' = OK nm -> q = q'.
Proof. intros <-%OK_inj E%OK_inj. symmetry in E. by apply slash_inj in E. Qed.

Lemma std36_inj v v' l k k' :
  std36 v l k = OK nm -> std36 v' l k' = OK nm -> exists s s', strito36 v l = Some s /\ strito36 v' l = Some s' /\
    k s = OK nm /\ k' s' = OK nm.
Proof.
  unfold std36. intros E E'. apply bind_some in E as (s & S & K), E' as (s' & S' & K').
  destruct (strito36 v l) as [t |]; [| done]. destruct (strito36 v' l) as [t' |]; [| done].
  injection S as ->. injection S' as ->. eauto 10.
Qed.
End names.

(** Two pads of the same prefix. *)
Lemma app_zpad_inj d w v v' :
  0 <= v < 2 ^ 31 -> 0 <= v' < 2 ^ 31 -> d ++ zpad w v = d ++ zpad w v' -> v = v'.
Proof. intros Hv Hv' E. apply app_inv_head in E. by eapply zpad_inj. Qed.

(** A number in three columns, with something behind it. *)
Lemma app_zpad3_inj d v v' s s' :
  0 <= v < 1000 -> 0 <= v' < 1000 -> d ++ zpad 3 v ++ s = d ++ zpad 3 v' ++ s' -> v = v' /\ s = s'.
Proof.
  intros Hv Hv' E. apply app_inv_head, app_inj_1 in E as [E ->]; [| rewrite !zpad_length; cbn; lia].
  apply zpad_inj in E; [done | lia | lia].
Qed.

(** Two parts in three columns, with something behind them. *)
Lemma app_part_inj d v v' p p' s s' :
  0 <= v < PARTS -> 0 <= v' < PARTS -> part_str v = OK p -> part_str v' = OK p' ->
  d ++ p ++ s = d ++ p' ++ s' -> v = v' /\ s = s'.
Proof.
  intros Hv Hv' P P' E. destruct (part_str_value v Hv) as (q & Q & Hq & _), (part_str_value v' Hv') as (q' & Q' & Hq' & _).
  apply app_inv_head, app_inj_1 in E as [-> ->]; [| congruence].
  split; [| done]. apply (part_str_inj _ _ p'); done.
Qed.

Lemma var_unit_name v : 0 <= v < 2 ^ 31 -> bytes "variable" <> bytes "var" ++ zpad 4 v.
Proof.
  intros Hv E. change (bytes "variable") with (bytes "var" ++ bytes "iable") in E. apply app_inv_head in E.
  destruct (zpad_value 4 v Hv) as [H _]. rewrite <- E in H. by inversion H.
Qed.

Section place.
Context (e : uenv) (u u' : text) (x x' : option text) (a a' : uargs) (nm : text).
Context (Hu : forall w, 0 <= udnum e w < 2 ^ 31).

(** The file of code [n] has one name under both arguments. *)
Let named n := unit_name (with_user e u) a x n = OK nm /\ unit_name (with_user e u') a' x' n = OK nm
  /\ args_ok n a /\ args_ok n a'.

Lemma args_bounds n b : args_ok n b ->
  0 <= cnum b < 2 ^ 31 /\ 0 <= item b < 2 ^ 31 /\ 0 <= resp b < 2 ^ 31 /\ 0 <= lnum b < 2 ^ 31.
Proof. intros []. unfold PARTS in *. lia. Qed.

(** The bounds that hold of the arguments of a known code. *)
Ltac bounds :=
  repeat match goal with
  | H : args_ok ?n ?b |- _ =>
      pose proof (args_bounds n b H); pose proof (ok_item n b H); pose proof (ok_lnum n b H);
      try pose proof (ok_resp3 n b H ltac:(tauto)); try pose proof (ok_resp36 n b H ltac:(tauto));
      try pose proof (ok_item3 n b H ltac:(tauto)); clear H
  end; unfold PARTS in *.

(** The places agree when the fields they are made of do. *)
Ltac same := unfold place; cbn [lock_of mbind option_bind lockmap];
  repeat match goal with H : _ a = _ a' |- _ => rewrite H; clear H end; reflexivity.

(** Two numbers with the same digits of base 36. *)
Ltac base36 := match goal with S : strito36 ?v ?l = Some ?s, S' : strito36 ?v' ?l = Some ?s |- _ =>
  let H := fresh "Hb" in
  assert (H : v = v') by (apply (strito36_inj v v' l s); [lia | lia | lia | exact S | exact S']); clear S S' end.

Ltac parts Hq P P' H1 H2 :=
  eapply app_part_inj in Hq as [H1 H2]; [| | | exact P | exact P']; [| unfold PARTS; lia ..].

Lemma place_user n : named n -> is_user_code n = true -> n <> XULG -> place e n a = place e n a'.
Proof.
  intros (E & E' & Ha & Ha') Hn Hx.
  assert (Hfile : forall q q', USER (with_user e u) a n q = OK nm -> USER (with_user e u') a' n q' = OK nm ->
    word a = word a' /\ q = q') by (intros; eapply USER_inj; eauto).
  assert (Hdir : forall d d' q q', user_dir (with_user e u) a n (wordstr a) = OK d ->
    user_dir (with_user e u') a' n (wordstr a') = OK d' -> slash d q = slash d' q' -> word a = word a' /\ q = q')
    by (intros; eapply user_file; eauto).
  destruct n; try discriminate Hn; try done; cbn [unit_name] in E, E'; unfold USERNUM in *; bounds.
  all: try (destruct (Hfile _ _ E E') as [Hw Hq]; clear E E').
  all: try (apply bind_some in E as (d & D & E%OK_inj), E' as (d' & D' & E'%OK_inj); subst nm;
            symmetry in E'; destruct (Hdir _ _ _ _ D D' E') as [Hw Hq]; clear E').
  all: try (destruct (Hdir _ _ [] [] E E' eq_refl) as [Hw _]).
  all: try (apply app_zpad3_inj in Hq as [Hq _]; [| lia ..]).
  all: try (apply app_zpad_inj in Hq; [| lia ..]).
  all: try (rewrite !app_assoc in Hq; apply app_inv_tail, app_zpad_inj in Hq; [| lia ..]).
  all: same.
Qed.

Lemma place_conf n : named n -> (exists v c, lock_of n a = Some (LCNF, v, c)) -> place e n a = place e n a'.
Proof.
  intros (E & E' & Ha & Ha') (v & c & Hv).
  assert (Hfile : forall q q', CONF (with_user e u) a q = OK nm -> CONF (with_user e u') a' q' = OK nm ->
    cnum a = cnum a' /\ q = q') by (intros; eapply CONF_inj; eauto).
  destruct n; try discriminate Hv; cbn [unit_name] in E, E'; unfold CONFNUM in *; bounds.
  all: try (destruct (Hfile _ _ E E') as [Hc Hq]; clear E E').
  all: try (apply bind_some in E as (p & P & E), E' as (p' & P' & E')).
  all: try (apply bind_some in E as (r & R & E), E' as (r' & R' & E')).
  all: try (destruct (Hfile _ _ E E') as [Hc Hq]; clear E E').
  all: try (apply app_zpad3_inj in Hq as [Hq _]; [| lia ..]).
  all: try (apply app_zpad_inj in Hq; [| lia ..]).
  all: try same.
  - (* XCRF *) rewrite <- (app_nil_l (p ++ _)), <- (app_nil_l (p' ++ _)) in Hq. parts Hq P P' Hi Hq2.
    rewrite <- (app_nil_l (r ++ _)), <- (app_nil_l (r' ++ _)) in Hq2. parts Hq2 R R' Hr Hl.
    apply zpad_inj in Hl; [| lia ..]. same.
  - (* XCLG *) apply OK_inj in E as <-. apply OK_inj, slash_inj in E'. symmetry in E'.
    apply app_zpad_inj in E'; [| lia ..]. same.
  - (* XCFD *) parts Hq P P' Hi Hq2. same.
  - (* XCFN *) parts Hq P P' Hi Hq2. apply zpad_inj in Hq2; [| lia ..]. same.
  - (* XCVA *) assert (Hi : item a = item a'); [| same].
    destruct (item a =? 0) eqn:Z, (item a' =? 0) eqn:Z'.
    + lia.
    + by apply var_unit_name in Hq; [| lia].
    + by symmetry in Hq; apply var_unit_name in Hq; [| lia].
    + apply app_zpad_inj in Hq; lia.
  - (* XARF *) apply OK_inj in E as <-. apply OK_inj in E'. symmetry in E'.
    apply dir_inj in E' as [Hc Hq]; [| noslash | lia ..].
    rewrite <- (app_nil_l (p ++ _)), <- (app_nil_l (p' ++ _)) in Hq. parts Hq P P' Hi Hq2.
    subst r'. assert (Hr : resp a = resp a') by (apply (part_str_inj _ _ r); [unfold PARTS; lia .. | done | done]).
    same.
Qed.

Lemma place_host n : named n -> (exists v c, lock_of n a = Some (LHST, v, c)) -> place e n a = place e n a'.
Proof.
  intros (E & E' & Ha & Ha') (v & c & Hv).
  assert (Hfile : forall q q', HOST (with_user e u) a q = OK nm -> HOST (with_user e u') a' q' = OK nm ->
    cnum a = cnum a' /\ q = q') by (intros; eapply HOST_inj; eauto).
  destruct n; try discriminate Hv; cbn [unit_name] in E, E'; bounds.
  all: try (destruct (std36_inj _ _ _ _ _ _ E E') as (s & s' & S & S' & K & K'); clear E E';
            rename K into E, K' into E').
  all: try (destruct (Hfile _ _ E E') as [Hc Hq]; clear E E').
  all: try (apply app_zpad_inj in Hq; [| lia ..]).
  all: try same.
  - (* XHXA *) apply app_inv_head in Hq as <-. base36. same.
  - (* XHDD *) apply OK_inj in E as <-. apply OK_inj, slash_inj in E'. symmetry in E'.
    apply app_zpad_inj in E'; [| lia ..]. same.
Qed.

Lemma place_bay n t : named n -> (exists v c, lock_of n a = Some (t, v, c)) -> t = LSHP \/ t = LRCV ->
  place e n a = place e n a'.
Proof.
  intros (E & E' & Ha & Ha') (v & c & Hv) Ht.
  assert (Hfile : forall d q q', no_slash d -> BAY (with_user e u) a d q = OK nm ->
    BAY (with_user e u') a' d q' = OK nm -> cnum a = cnum a' /\ q = q') by (intros; eapply BAY_inj; eauto).
  assert (Hship : no_slash (bytes "SHIP")) by noslash. assert (Hrecv : no_slash (bytes "RECV")) by noslash.
  assert (Hb : match lock_of n a with Some (LSHP, _, _) | Some (LRCV, _, _) => True | _ => False end)
    by (rewrite Hv; by destruct Ht as [-> | ->]).
  clear Hv. destruct n; cbn [lock_of] in Hb; try contradiction Hb; cbn [unit_name] in E, E'; bounds.
  all: try (destruct (std36_inj _ _ _ _ _ _ E E') as (s & s' & S & S' & K & K'); clear E E';
            rename K into E, K' into E').
  all: try (destruct (Hfile _ _ _ Hship E E') as [Hc Hq]; clear E E').
  all: try (destruct (Hfile _ _ _ Hrecv E E') as [Hc Hq]; clear E E').
  all: try (apply app_zpad3_inj in Hq as [Hq Hs]; [| lia ..]; subst s').
  all: try (apply app_inv_head in Hq; subst s').
  all: try base36.
  all: same.
Qed.

Lemma place_sys n : named n -> (exists v c, lock_of n a = Some (LSYS, v, c)) -> place e n a = place e n a'.
Proof.
  intros (E & E' & Ha & Ha') (v & c & Hv).
  destruct n; try discriminate Hv; try reflexivity; cbn [unit_name] in E, E'; bounds.
  all: try (destruct (std36_inj _ _ _ _ _ _ E E') as (s & s' & S & S' & K & K'); clear E E';
            rename K into E, K' into E'; apply OK_inj in E as <-; apply OK_inj, slash_inj, app_inv_head in E' as <-).
  all: try base36.
  all: try (apply OK_inj in E as <-; apply OK_inj, slash_inj in E'; symmetry in E';
            apply app_zpad_inj in E'; [| lia ..]).
  all: same.
Qed.
End place.

Theorem name_determines_lock e u u' x x' n a a' nm :
  (forall w, 0 <= udnum e w < 2 ^ 31) -> args_ok n a -> args_ok n a' -> n <> XULG ->
  unit_name (with_user e u) a x n = OK nm -> unit_name (with_user e u') a' x' n = OK nm ->
  place e n a = place e n a'.
Proof.
  intros Hu Ha Ha' Hn E E'.
  assert (Hnone : lock_of n a = None -> place e n a = place e n a').
  { intros H. unfold place. rewrite H. destruct n; try discriminate H; reflexivity. }
  destruct (lock_of n a) as [[[t v] c] |] eqn:El; [| auto].
  destruct t.
  - apply (place_sys e u u' x x' a a' nm); [by split_and! | eauto].
  - apply (place_user e u u' x x' a a' nm Hu); [by split_and! | | done]. destruct n; try discriminate El; done.
  - apply (place_conf e u u' x x' a a' nm); [by split_and! | eauto].
  - apply (place_host e u u' x x' a a' nm); [by split_and! | eauto].
  - apply (place_bay e u u' x x' a a' nm) with (2 := ex_intro _ v (ex_intro _ c El)); [by split_and! | auto].
  - apply (place_bay e u u' x x' a a' nm) with (2 := ex_intro _ v (ex_intro _ c El)); [by split_and! | auto].
Qed.

(** ** Different files have different semaphores *)






















(** What the code does not tell apart: conferences from 1000 on, lines that are
    not 0. *)
Example lock_collisions :
  lock_of XUPA (mkArgs 1007 0 0 0 None) = Some (LUSR, 4007, 1007) /\
  lock_of XUSF (mkArgs 0 0 7 0 None) = Some (LUSR, 4007, 0) /\
  lock_of XCRF (mkArgs 3 17 42 1 None) = lock_of XCRF (mkArgs 3 17 43 0 None).
Proof. vm_compute. auto. Qed.
