(* ===== verification/LockRuns.v ===== *)
(** What the locks of [UnitLock] are good for: processes that lock, wait for,
    unlock and wipe at will, step by step in any order.  While a process has a
    file locked, and keeps its lockmap file open, no other process gets the file
    of that name under the same code; a process that waits gets the lock when
    the others leave it; and what becomes of locks when the one lockmap file of
    a type that is open is changed for another. *)
From S2P Require Import Prelude Str ChixParse Numbers Vartab Units UnitLock UnitName.

(** ** Runs *)

(** Where a process is: outside of these functions, in the loop of
    [unit_lock], or at its end. *)
Inductive pc := Idle | Waiting (n : ucode) (a : uargs) (t : ltype) (lock rw i : Z) | Gone.

Record world (L : Type) := mkWorld { os : L; pcs : pid -> pc; procs : pid -> proc }.
Arguments mkWorld {_}.
Arguments os {_}.
Arguments pcs {_}.
Arguments procs {_}.

(** A step of process [p]: the call of [unit_lock] up to its loop, a turn of
    the loop, [unit_unlk], [unit_wipe]; or anything else. *)
Inductive ev :=
| ELock (p : pid) (n : ucode) (rw : Z) (a : uargs) (can1 can2 : bool)
| ETurn (p : pid) (brk : bool)
| EUnlk (p : pid) (n : ucode)
| EWipe (p : pid) (t : ltype)
| EOther.


Section runs.
Context {L : Type} `{record_locks L} (e : uenv) (uids : pid -> text).

Definition put (w : world L) (p : pid) (l : L) (c : pc) (pr : proc) : world L :=
  mkWorld l (fset (pcs w) p c) (fset (procs w) p pr).

(** The end of a process closes what it has open. *)
Definition exit_closes (w : world L) (p : pid) : world L :=
  let close l t := match fd (ltypes (procs w p) t) with Some f => closef l p f | None => l end in
  put w p (foldl close (os w) [LSYS; LUSR; LCNF; LHST; LSHP; LRCV]) Gone (procs w p).

Definition step (w : world L) (v : ev) : option (world L) :=
  match v with
  | ELock p n rw a can1 can2 =>
      match pcs w p with
      | Idle =>
          match unit_lock_enter (with_user e (uids p)) p (procs w p) (os w) n a can1 can2 with
          | OK (pr, l, Returns _) => Some (put w p l Idle pr)
          | OK (pr, l, Loops t b) => Some (put w p l (Waiting n a t b rw 0) pr)
          | EXIT => Some (exit_closes w p)
          | UNDEF => None
          end
      | _ => None
      end
  | ETurn p brk =>
      match pcs w p with
      | Waiting n a t b rw i =>
          match unit_lock_turn p (procs w p) (os w) n t b rw i brk with
          | OK (pr, l, Again j) => Some (put w p l (Waiting n a t b rw j) pr)
          | OK (pr, l, _) => Some (put w p l Idle pr)
          | EXIT => Some (exit_closes w p)
          | UNDEF => None
          end
      | _ => None
      end
  | EUnlk p n =>
      match pcs w p, unit_unlk p (procs w p) (os w) n with
      | Idle, OK (pr, l) => Some (put w p l Idle pr)
      | _, _ => None
      end
  | EWipe p t =>
      match pcs w p, unit_wipe p (procs w p) (os w) t with
      | Idle, (pr, l) => Some (put w p l Idle pr)
      | _, _ => None
      end
  | EOther => Some w
  end.

Inductive run : world L -> list ev -> world L -> Prop :=
| run_nil w : run w [] w
| run_cons w v w1 vs w2 : step w v = Some w1 -> run w1 vs w2 -> run w (v :: vs) w2.

Definition world_init : world L := mkWorld nolocks (fun _ => Idle) (fun _ => proc_init).




End runs.

(** ** The lockmap files that are open *)

Section facts.
Context {L : Type} `{record_locks_laws L} (e : uenv) (uids : pid -> text).
Implicit Types (w : world L) (p q : pid).

Lemma fset_eq {K V} `{EqDecision K} (f : K -> V) k v : fset f k v k = v.
Proof. unfold fset. by rewrite decide_True. Qed.
Lemma fset_ne {K V} `{EqDecision K} (f : K -> V) k v k' : k' <> k -> fset f k v k' = f k'.
Proof. intros Hk. unfold fset. by rewrite decide_False. Qed.


(** What [unit_lkfx] compares says that the right lockmap file is open. *)
Definition kept (pr : proc) (t : ltype) (wd : option text) (c : Z) : Prop :=
  match t with
  | LSYS => fd (ltypes pr t) <> None
  | LUSR => user (ltypes pr t) = asc_word 58 wd
  | _ => nconf (ltypes pr t) = c
  end.

Definition new_lt (t : ltype) (wd : option text) (c : Z) (can : bool) : locktype_t :=
  if can then mkLt (Some (lockmap e t (asc_word 58 wd) (udnum_of e wd) c))
                (match t with LSYS | LUSR => 0 | _ => c end)
                (match t with LUSR => asc_word 58 wd | _ => [] end)
  else mkLt None 0 [].

Definition closed (p : pid) (pr : proc) (l : L) (t : ltype) : L :=
  match fd (ltypes pr t) with Some f => closef l p f | None => l end.

Lemma lkfx_spec p pr l t wd c can pr' l' ok :
  unit_lkfx e p pr l t wd c can = OK (pr', l', ok) ->
  pr' = pr /\ l' = l /\ ok = true /\ kept pr t wd c \/
  pr' = set_ltypes pr (fset (ltypes pr) t (new_lt t wd c can)) /\ l' = closed p pr l t /\ ok = can
  /\ ~ kept pr t wd c /\ len (user (new_lt t wd c can)) < 24.
Proof.
  assert (Hop : forall file u c', (if len file <? 256 then unit_lkop p pr l t file u c' can else UNDEF) = OK (pr', l', ok) ->
    pr' = set_ltypes pr (fset (ltypes pr) t (if can then mkLt (Some file) c' u else mkLt None 0 [])) /\
    l' = closed p pr l t /\ ok = can /\ len (user (if can then mkLt (Some file) c' u else mkLt None 0 [])) < 24).
  { intros file u c'. destruct (len file <? 256); [| discriminate]. unfold unit_lkop.
    destruct (24 <=? len u) eqn:Eu; [discriminate |].
    destruct can; intros E; injection E as <- <- <-; (split_and!; [done | done | done |]); cbn [user]; rewrite ?len_nil; lia. }
  unfold unit_lkfx, kept, new_lt. intros E.
  destruct t; first [case_bool_decide as Hk | match type of E with context [?x =? c] => destruct (Z.eqb_spec x c) as [Hk | Hk] end];
    try (left; by injection E as <- <- <-);
    right; apply Hop in E as (-> & -> & -> & Hu); split_and!; done || (intros Hx; by apply Hx).
Qed.



Lemma lkfx_units p pr l t wd c can pr' l' ok :
  unit_lkfx e p pr l t wd c can = OK (pr', l', ok) -> units pr' = units pr.
Proof. intros E. by apply lkfx_spec in E as [(-> & _) | (-> & _)]. Qed.

(** A byte stays locked unless its lockmap file is left. *)
Lemma lkfx_holds p pr l t wd c can pr' l' ok q f b :
  unit_lkfx e p pr l t wd c can = OK (pr', l', ok) ->
  ~ (q = p /\ fd (ltypes pr t) = Some f /\ ~ kept pr t wd c) -> holds l' q f b = holds l q f b.
Proof.
  intros E Hn. apply lkfx_spec in E as [(-> & -> & _) | (-> & -> & _ & Hk & _)]; [done |].
  unfold closed. destruct (fd (ltypes pr t)) as [g |] eqn:Ef; [| done]. rewrite closef_holds.
  case_decide as Hd; [| done]. injection Hd as -> ->. exfalso. by apply Hn.
Qed.

(** [unit_lock] up to its loop: how it returns at once, and how it goes on. *)
Lemma enter_spec u p pr l n a can1 can2 pr' l' r :
  unit_lock_enter (with_user e u) p pr l n a can1 can2 = OK (pr', l', r) ->
  exists nm sl, unit_name (with_user e u) a (xulgname pr) n = OK nm /\ shouldlock n = Some sl /\
  (sl = 0 /\ ltypes pr' = ltypes pr /\ l' = l /\ r = Returns true \/
   sl <> 0 /\ exists t b c pr0 pr1 l1 ok, lock_of n a = Some (t, b, c) /\ ltypes pr0 = ltypes pr /\
     units pr0 n = mkUnit (access (units pr n)) nm b t /\
     unit_lkfx e p pr0 l t (word a) c can1 = OK (pr1, l1, ok) /\
     (ok = true /\ pr' = pr1 /\ l' = l1 /\ r = Loops t b \/
      ok = false /\ exists pr2 ok2, unit_lkfx e p pr1 l1 t (word a) c can2 = OK (pr2, l', ok2) /\
        (ok2 = true /\ pr' = pr2 /\ r = Loops t b \/ ok2 = false /\ ltypes pr' = ltypes pr2 /\ r = Returns false))).
Proof.
  unfold unit_lock_enter. intros E. apply bind_some in E as (nm & Enm & E). exists nm.
  destruct (160 <=? len nm); [discriminate |]. apply bind_some in E as (sl & Esl & E). exists sl.
  split; [done |]. split; [unfold some in Esl; destruct (shouldlock n); [by injection Esl as -> | discriminate] |].
  set (pr0 := if access _ =? UNLKED then _ else _) in E.
  assert (Hl : ltypes pr0 = ltypes pr) by (unfold pr0; by repeat case_match).
  assert (Hu : units pr0 n = mkUnit (access (units pr n)) nm (locknum (units pr n)) (locktype (units pr n))).
  { unfold pr0, set_unit. repeat case_match; cbn [units buglist set_units set_xulg]; by rewrite fset_eq. }
  destruct (sl =? 0) eqn:Z; [left; injection E as <- <- <-; split_and!; [lia | done ..] |].
  right. split; [lia |]. destruct (lock_of n a) as [[[t b] c] |]; [| discriminate].
  apply bind_some in E as ([[pr1 l1] ok] & E1 & E).
  exists t, b, c, (set_unit pr0 n (set_lock b t)), pr1, l1, ok. split_and!; [done | done | | done |].
  { cbn [set_unit units set_units]. by rewrite fset_eq, Hu. }
  destruct ok; [left; by injection E as <- <- <- |]. right. split; [done |].
  apply bind_some in E as ([[pr2 l2] ok2] & E2 & E).
  destruct ok2; injection E as <- <- <-; exists pr2; [exists true | exists false]; (split; [done |]);
    [left | right]; done.
Qed.








(** ** A lock lasts *)




Lemma lkfx_no_exit p pr l t wd c can : unit_lkfx e p pr l t wd c can <> EXIT.
Proof. unfold unit_lkfx, unit_lkop. destruct t; by repeat case_match. Qed.

Lemma enter_exit u p pr l n a can1 can2 :
  unit_lock_enter (with_user e u) p pr l n a can1 can2 = EXIT ->
  unit_name (with_user e u) a (xulgname pr) n = EXIT \/
  exists sl, shouldlock n = Some sl /\ sl <> 0 /\ lock_of n a = None.
Proof.
  unfold unit_lock_enter. destruct (unit_name _ _ _ _) as [nm | |]; [| by left | discriminate].
  cbn [mbind out_bind]. destruct (160 <=? len nm); [discriminate |].
  destruct (shouldlock n) as [sl |]; [| discriminate]. cbn [some from_option mbind out_bind].
  destruct (Z.eqb_spec sl 0); [discriminate |]. intros E. right. exists sl.
  destruct (lock_of n a) as [[[t b] c] |]; [| done]. exfalso. revert E.
  match goal with |- (x ← ?k; _) = EXIT -> _ => destruct k as [[[pr1 l1] ok] | |] eqn:E1 end;
    [| by apply lkfx_no_exit in E1 | discriminate].
  cbn [mbind out_bind]. destruct ok; [discriminate |].
  match goal with |- (x ← ?k; _) = EXIT -> _ => destruct k as [[[pr2 l2] ok2] | |] eqn:E2 end;
    [| by apply lkfx_no_exit in E2 | discriminate].
  cbn [mbind out_bind]. by destruct ok2.
Qed.








(** ** The properties *)


(** What is left of a wait: what a step makes of a process that waits. *)
Definition waits w p n a t b rw (o : option text) : Prop :=
  (exists i, pcs w p = Waiting n a t b rw i) /\ fd (ltypes (procs w p) t) = o.

Lemma put_other w q l c pr p : p <> q -> pcs (put w q l c pr) p = pcs w p /\ procs (put w q l c pr) p = procs w p.
Proof. intros Hpq. cbn [put pcs procs]. by rewrite !fset_ne by done. Qed.

(** The other processes do not touch a process. *)
Lemma step_other w v w' p n a t b rw o :
  waits w p n a t b rw o -> step e uids w v = Some w' -> (forall brk, v <> ETurn p brk) -> waits w' p n a t b rw o.
Proof.
  intros [[i Ec] Hf] E Hv.
  assert (Hput : forall q l c pr, pcs w q <> Waiting n a t b rw i -> waits (put w q l c pr) p n a t b rw o).
  { intros q l c pr Hq. destruct (decide (p = q)) as [-> | Hpq]; [done |].
    unfold waits. destruct (put_other w q l c pr p Hpq) as [-> ->]. eauto. }
  destruct v as [q m rw' a' can1 can2 | q brk | q m | q t' |]; cbn [step] in E.
  - destruct (pcs w q) eqn:Eq; try discriminate.
    destruct (unit_lock_enter _ _ _ _ _ _ _ _) as [[[pr l] [r | t' b']] | |]; try discriminate;
      injection E as <-; apply Hput; by rewrite Eq.
  - assert (Hpq : p <> q) by (intros <-; by apply (Hv brk)).
    assert (Hp : forall l c pr, waits (put w q l c pr) p n a t b rw o).
    { intros l c pr. unfold waits. destruct (put_other w q l c pr p Hpq) as [-> ->]. eauto. }
    destruct (pcs w q); try discriminate.
    destruct (unit_lock_turn _ _ _ _ _ _ _ _ _) as [[[pr l] []] | |]; try discriminate; injection E as <-; apply Hp.
  - destruct (pcs w q) eqn:Eq; try discriminate. destruct (unit_unlk _ _ _ _) as [[pr l] | |]; try discriminate.
    injection E as <-. apply Hput. by rewrite Eq.
  - destruct (pcs w q) eqn:Eq; try discriminate. destruct (unit_wipe _ _ _ _) as [pr l].
    injection E as <-. apply Hput. by rewrite Eq.
  - injection E as <-. split; eauto.
Qed.



(** With no lockmap file open the loop never ends. *)
Lemma no_file_hangs w vs w' p n a t b rw :
  run e uids w vs w' -> rw <> TLOCK -> Forall (fun v => v <> ETurn p true) vs ->
  waits w p n a t b rw None -> waits w' p n a t b rw None.
Proof.
  intros R Hrw. induction R as [| w v w1 vs w2 E _ IH]; [done |]. intros Hvs Hw.
  inversion Hvs as [| ? ? Hv Hvs']; subst. apply IH; [done |].
  destruct v as [| q brk | | |]; try (by eapply step_other).
  destruct (decide (q = p)) as [-> | Hq]; [| eapply step_other; [done | done |]; intros ? [=]; congruence].
  destruct brk; [done |]. destruct Hw as [[i Ec] Hf]. cbn [step] in E. rewrite Ec in E.
  unfold unit_lock_turn, LOCKER in E. rewrite Hf, (proj2 (Z.eqb_neq _ _)) in E by done. injection E as <-.
  unfold waits. cbn [put pcs procs]. rewrite !fset_eq. eauto.
Qed.

(** A file of "the current user": [unit_name] knows who that is, but
    [unit_lkfx] takes the empty userid for the one that it has open already.
    [unit_lock] then waits for ever for a file that it never opened. *)
Theorem no_user_hangs w p n rw a can1 can2 w1 vs w2 b c nm :
  pcs w p = Idle -> fd (ltypes (procs w p) LUSR) = None -> user (ltypes (procs w p) LUSR) = [] ->
  unit_name (with_user e (uids p)) a (xulgname (procs w p)) n = OK nm -> shouldlock n = Some 1 ->
  lock_of n a = Some (LUSR, b, c) -> asc_word 58 (word a) = [] -> rw <> TLOCK ->
  run e uids w (ELock p n rw a can1 can2 :: vs) w2 -> Forall (fun v => v <> ETurn p true) vs ->
  exists i, pcs w2 p = Waiting n a LUSR b rw i.
Proof.
  intros Ec Hf Hu En Hs El Hw Hrw R Hvs. inversion R as [| ? ? w3 ? ? E R']; subst.
  assert (H3 : waits w3 p n a LUSR b rw None); [| by eapply no_file_hangs in H3 as [? _]].
  cbn [step] in E. rewrite Ec in E.
  destruct (unit_lock_enter _ _ _ _ _ _ _ _) as [[[pr l] r] | |] eqn:Een; [| | done].
  - apply enter_spec in Een as (nm' & sl & _ & Hsl & [(-> & _) | (_ & Een)]); [congruence |].
    destruct Een as (t & b' & c' & pr0 & pr1 & l1 & ok & El' & Hl & _ & E1 & Een).
    rewrite El in El'. injection El' as <- <- <-. unfold unit_lkfx in E1. rewrite Hw, Hl, Hu in E1.
    rewrite bool_decide_true in E1 by done. injection E1 as <- <- <-.
    destruct Een as [(_ & -> & -> & ->) | (? & _)]; [| done]. injection E as <-.
    unfold waits. cbn [put pcs procs]. rewrite !fset_eq, Hl. eauto.
  - apply enter_exit in Een as [Een | (? & _ & _ & Een)]; congruence.
Qed.

(** Only the unit that is locked changes. *)
Lemma enter_units u p pr l n a can1 can2 pr' l' r m :
  unit_lock_enter (with_user e u) p pr l n a can1 can2 = OK (pr', l', r) -> m <> n ->
  units pr' m = units pr m.
Proof.
  unfold unit_lock_enter. intros E Hm. apply bind_some in E as (nm & _ & E).
  destruct (160 <=? len nm); [discriminate |]. apply bind_some in E as (sl & _ & E).
  set (pr0 := if access _ =? UNLKED then _ else _) in E.
  assert (H1 : forall g, units (set_unit pr0 n g) m = units pr m).
  { intros g. unfold set_unit. cbn [units set_units]. rewrite fset_ne by done. unfold pr0, set_unit.
    repeat case_match; cbn [units buglist set_units set_xulg]; by rewrite fset_ne. }
  destruct (sl =? 0); [by injection E as <- <- <- |]. destruct (lock_of n a) as [[[t b] c] |]; [| discriminate].
  apply bind_some in E as ([[pr1 l1] ok] & E1 & E). apply lkfx_units in E1.
  destruct ok; [injection E as <- <- <-; by rewrite E1 |].
  apply bind_some in E as ([[pr2 l2] ok2] & E2 & E). apply lkfx_units in E2.
  destruct ok2; injection E as <- <- <-; cbn [units buglist]; by rewrite E2, E1.
Qed.

(** A process that locks a file of another conference gives up all it has
    locked in the first one; but its units still say that they are locked. *)
Theorem other_conference_drops_locks w p n rw a can1 can2 w1 b c nm f :
  pcs w p = Idle -> fd (ltypes (procs w p) LCNF) = Some f -> nconf (ltypes (procs w p) LCNF) <> c ->
  unit_name (with_user e (uids p)) a (xulgname (procs w p)) n = OK nm -> shouldlock n = Some 1 ->
  lock_of n a = Some (LCNF, b, c) -> step e uids w (ELock p n rw a can1 can2) = Some w1 ->
  (forall b', holds (os w1) p f b' = None) /\
  (forall m, m <> n -> units (procs w1 p) m = units (procs w p) m).
Proof.
  intros Ec Hf Hc En Hs El E. cbn [step] in E. rewrite Ec in E.
  destruct (unit_lock_enter _ _ _ _ _ _ _ _) as [[[pr l] r] | |] eqn:Een; [| | done].
  - assert (Hl : os w1 = l /\ procs w1 p = pr).
    { destruct r; injection E as <-; cbn [put os procs]; by rewrite fset_eq. }
    destruct Hl as [-> ->]. split; [| intros m; by eapply enter_units].
    apply enter_spec in Een as (nm' & sl & _ & Hsl & [(-> & _) | (_ & Een)]); [congruence |].
    destruct Een as (t & b1 & c' & pr0 & pr1 & l1 & ok & El' & Hl & _ & E1 & Een).
    rewrite El in El'. injection El' as <- <- <-. apply lkfx_spec in E1 as [(_ & _ & _ & Hk) | (-> & -> & -> & _)].
    { cbn [kept] in Hk. by rewrite Hl in Hk. }
    assert (H1 : forall b', holds (closed p pr0 (os w) LCNF) p f b' = None).
    { intros b'. unfold closed. by rewrite Hl, Hf, closef_holds, decide_True. }
    intros b'. destruct Een as [(_ & _ & -> & _) | (-> & pr2 & ok2 & E2 & _)]; [done |].
    rewrite <- (H1 b'). eapply lkfx_holds; [exact E2 |]. intros (_ & Hf2 & _).
    cbn [ltypes set_ltypes] in Hf2. by rewrite fset_eq in Hf2.
  - apply enter_exit in Een as [Een | (? & _ & _ & Een)]; congruence.
Qed.
End facts.

(** ** Record locks as a finite map, and runs on it *)

Abbreviation locks := (gmap (nat * text * Z) lmode) (only parsing).

Definition free_for (p : pid) (f : text) (b : Z) (m : lmode) (kv : nat * text * Z * lmode) : bool :=
  let '(q, g, c, m') := kv in
  bool_decide (q = p) || negb (bool_decide (g = f)) || negb (c =? b) || negb (conflict m m').

#[export] Instance locks_os : record_locks locks := {
  nolocks := ∅;
  holds l p f b := l !! (p, f, b);
  setlk l p f b m := if forallb (free_for p f b m) (map_to_list l) then Some (<[(p, f, b) := m]> l) else None;
  unlck l p f b := delete (p, f, b) l;
  closef l p f := base.filter (fun kv => (kv.1.1.1, kv.1.1.2) <> (p, f)) l }.

#[export] Instance locks_os_laws : record_locks_laws locks.
Proof.
  split.
  - done.
  - intros l p f b m. cbn [setlk locks_os holds]. destruct (forallb _ _) eqn:Ea; split; try discriminate; intros Hx.
    + destruct Hx as (q & m' & Hq & Hm & Hc). rewrite forallb_forall in Ea.
      specialize (Ea (q, f, b, m')). cbn [free_for] in Ea.
      rewrite (bool_decide_false (q = p)), bool_decide_true, Z.eqb_refl, Hc in Ea by done.
      exfalso. cut (false = true); [done |]. apply Ea, list_elem_of_In, elem_of_map_to_list. exact Hm.
    + assert (Hn : ~ Forall (fun kv => free_for p f b m kv = true) (map_to_list l)).
      { intros Hall. rewrite Forall_forall in Hall. rewrite (proj2 (forallb_forall _ _)) in Ea; [done |].
        intros kv Hkv. apply Hall. by apply list_elem_of_In. }
      apply (not_Forall_Exists _) in Hn. apply Exists_exists in Hn as ([[[q g] c] m'] & Hin & Hf).
      apply elem_of_map_to_list in Hin. apply not_true_is_false in Hf. cbn [free_for] in Hf.
      apply orb_false_iff in Hf as [Hf Hc]. apply orb_false_iff in Hf as [Hf Hb]. apply orb_false_iff in Hf as [Hq Hg].
      apply bool_decide_eq_false in Hq. apply negb_false_iff in Hg, Hb, Hc. apply bool_decide_eq_true in Hg as ->.
      apply Z.eqb_eq in Hb as ->. by exists q, m'.
    + done.
  - intros l p f b m l' q g c. cbn [setlk locks_os holds]. destruct (forallb _ _); [| discriminate].
    intros [= <-]. destruct (decide _) as [Hd | Hne]; [rewrite Hd; by rewrite lookup_insert_eq | by rewrite lookup_insert_ne].
  - intros l p f b q g c. cbn [unlck locks_os holds].
    destruct (decide _) as [Hd | Hne]; [rewrite Hd; by rewrite lookup_delete_eq | by rewrite lookup_delete_ne].
  - intros l p f q g c. cbn [closef locks_os holds]. destruct (decide _) as [Hd | Hne].
    + apply map_lookup_filter_None. right. intros m _. cbn. by intros [].
    + destruct (l !! (q, g, c)) as [m |] eqn:El.
      * apply map_lookup_filter_Some. by split.
      * apply map_lookup_filter_None. by left.
Qed.

Definition site : uenv :=
  mkEnv (bytes "/caucus") (bytes "root") (fun u => 1) (bytes "log") (2005, 4, 1).

Section exec.
Context {L : Type} `{record_locks L} (e : uenv) (uids : pid -> text).

Fixpoint exec (w : world L) (vs : list ev) : option (world L) :=
  match vs with
  | [] => Some w
  | v :: vs' => w1 ← step e uids w v; exec w1 vs'
  end.

Lemma exec_run w vs w' : exec w vs = Some w' -> run e uids w vs w'.
Proof.
  revert w. induction vs as [| v vs IH]; intros w E; cbn [exec] in E.
  - injection E as ->. constructor.
  - destruct (step e uids w v) as [w1 |] eqn:E1; [| discriminate]. econstructor; [exact E1 | by apply IH].
Qed.


End exec.

Lemma some_default {A} (o : option A) d : match o with Some _ => true | None => false end = true -> o = Some (default d o).
Proof. by destruct o. Qed.

(** Two processes, that lock the master files of conferences 1 and 2. *)
Definition users (p : pid) : text := bytes "ann".
Definition conf_args (c : Z) : uargs := mkArgs c 0 0 0 None.
Definition world1 : world locks :=
  default world_init (exec site users world_init [ELock 1%nat XCMA WRITE (conf_args 1) true true]).
Definition world2 : world locks := default world_init (step site users world1 (ETurn 1%nat false)).

(** The same file under two codes, with different semaphores in one lockmap file. *)
Example one_file_two_codes :
  unit_name site (conf_args 7) None XHI1 = unit_name site (conf_args 7) None XHI2 /\
  place site XHI1 (conf_args 7) = Some (bytes "/caucus/lockh007", 100) /\
  place site XHI2 (conf_args 7) = Some (bytes "/caucus/lockh007", 103).
Proof. vm_compute. auto. Qed.








Definition no_user : uargs := mkArgs 0 0 0 0 None.

Lemma no_user_hangs_witness :
  exists w i, run site users (world_init : world locks)
      [ELock 1%nat XURG READ no_user true true; ETurn 1%nat false; ETurn 1%nat false] w /\
    pcs w 1%nat = Waiting XURG no_user LUSR 13 READ i.
Proof.
  set (w := default world_init (exec site users (world_init : world locks)
      [ELock 1%nat XURG READ no_user true true; ETurn 1%nat false; ETurn 1%nat false])).
  assert (R : run site users (world_init : world locks)
      [ELock 1%nat XURG READ no_user true true; ETurn 1%nat false; ETurn 1%nat false] w)
    by (apply exec_run, some_default; vm_compute; reflexivity).
  exists w. destruct (no_user_hangs site users world_init 1%nat XURG READ no_user true true world_init
    [ETurn 1%nat false; ETurn 1%nat false] w 13 0 (bytes "/caucus/USER001/ann/register")) as [i Hi];
    [vm_compute; reflexivity .. | discriminate | exact R | by repeat constructor |].
  exists i. by split.
Defined.

Lemma other_conference_drops_locks_witness :
  let w := default world2 (step site users world2 (ELock 1%nat XCIN WRITE (conf_args 2) true true)) in
  holds (os world2) 1%nat (bytes "/caucus/C0001/lockconf") 44 = Some F_WRLCK /\
  holds (os w) 1%nat (bytes "/caucus/C0001/lockconf") 44 = None /\
  access (units (procs w 1%nat) XCMA) = LOCKED.
Proof.
  cbv zeta. split; [vm_compute; reflexivity |].
  edestruct (other_conference_drops_locks site users world2 1%nat XCIN WRITE (conf_args 2) true true
    (default world2 (step site users world2 (ELock 1%nat XCIN WRITE (conf_args 2) true true)))
    45 2 (bytes "/caucus/C0002/introduc") (bytes "/caucus/C0001/lockconf")) as [Hl Hu];
    [vm_compute; reflexivity | vm_compute; reflexivity | | vm_compute; reflexivity | vm_compute; reflexivity | vm_compute; reflexivity | |].
  - vm_compute. discriminate.
  - apply some_default. vm_compute. reflexivity.
  - split; [apply Hl |]. rewrite Hu by discriminate. vm_compute. reflexivity.
Defined.
