(* ===== verification/Base64.v ===== *)
(** Base 64 (src/CV2/sweb/encode64.c), which the CML function encode64 uses: the
    encoder, which breaks lines, and the decoder, which skips what is no digit.
    Files are streams whose end is seen only by reading past it. *)
From S2P Require Import Prelude Vartab.

(** ** The code *)

(** A stream: the bytes that are left, and [feof]. *)
Record stream := mkStream { rest : list Z; feof : bool }.

(** [(unsigned char) getc (infile)]: at the end, EOF is cut to 255. *)
Definition getc (f : stream) : Z * stream :=
  match rest f with
  | b :: r => (b, mkStream r (feof f))
  | [] => (255, mkStream [] true)
  end.

Definition cb64 : list Z := bytes "ABCDEFGHIJKLMNOPQRSTUVWXYZabcdefghijklmnopqrstuvwxyz0123456789+/".
Definition cd64 : list Z :=
  bytes "|$$$}rstuvwxyz{$$$$$$$>?@ABCDEFGHIJKLMNOPQRSTUVW$$$$$$XYZ[\]^_`abcdefghijklmnopq".

Definition encodeblock (in0 in1 in2 len : Z) : option (list Z) :=
  o0 ← zget cb64 (Z.shiftr in0 2);
  o1 ← zget cb64 (Z.lor (Z.shiftl (Z.land in0 3) 4) (Z.shiftr (Z.land in1 240) 4));
  o2 ← (if 1 <? len then zget cb64 (Z.lor (Z.shiftl (Z.land in1 15) 2) (Z.shiftr (Z.land in2 192) 6))
        else Some 61);
  o3 ← (if 2 <? len then zget cb64 (Z.land in2 63) else Some 61);
  Some [o0; o1; o2; o3].

Definition linesize : Z := 72.

(** [for (i=0; i<3; i++)]: the bytes of a block, and how many there were. *)
Fixpoint read3 (n : nat) (f : stream) (len : Z) : list Z * Z * stream :=
  match n with
  | O => ([], len, f)
  | S n' =>
      let '(v, f) := getc f in
      let '(v, len) := if feof f then (0, len) else (v, len + 1) in
      let '(vs, len, f) := read3 n' f len in (v :: vs, len, f)
  end.

Fixpoint encode_loop (fuel : nat) (f : stream) (blocksout : Z) (output : text) : option text :=
  if feof f then Some output
  else match fuel with
  | O => None
  | S fuel' =>
      match read3 3 f 0 with
      | ([in0; in1; in2], len, f) =>
          '(output, blocksout) ← (if negb (len =? 0) then o ← encodeblock in0 in1 in2 len;
                                      Some (output ++ o, blocksout + 1)
                                  else Some (output, blocksout));
          let '(output, blocksout) :=
            if (linesize `quot` 4 <=? blocksout) || feof f then
              (if negb (blocksout =? 0) then output ++ [10] else output, 0)
            else (output, blocksout) in
          encode_loop fuel' f blocksout output
      | _ => None
      end
  end.

(** Each turn but the last reads a byte. *)
Definition encode64 (infile : list Z) (output : text) : option text :=
  encode_loop (S (length infile)) (mkStream infile false) 0 output.

Definition decodeblock (in0 in1 in2 in3 : Z) : list Z :=
  [Z.land (Z.lor (Z.shiftl in0 2) (Z.shiftr in1 4)) 255;
   Z.land (Z.lor (Z.shiftl in1 4) (Z.shiftr in2 2)) 255;
   Z.land (Z.lor (Z.land (Z.shiftl in2 6) 192) in3) 255].

(** The digit behind a character, plus one; 0 for noise. *)
Definition digit64 (v : Z) : option Z :=
  v ← (if (v <? 43) || (122 <? v) then Some 0 else zget cd64 (v - 43));
  Some (if v =? 0 then 0 else if v =? 36 then 0 else v - 61).

(** [while (!feof (infile) && v == 0)] *)
Fixpoint skip_noise (fuel : nat) (f : stream) (v : Z) : option (Z * stream) :=
  if negb (feof f) && (v =? 0) then
    match fuel with
    | O => None
    | S fuel' => let '(c, f) := getc f in v ← digit64 c; skip_noise fuel' f v
    end
  else Some (v, f).

(** [for (len=0, i=0; i<4 && !feof (infile); i++)], from index [i] on. *)
Fixpoint read4 (n : nat) (i : Z) (f : stream) (inb : list Z) (len : Z) : option (list Z * Z * stream) :=
  match n with
  | O => Some (inb, len, f)
  | S n' =>
      if feof f then Some (inb, len, f)
      else
        '(v, f) ← skip_noise (2 + length (rest f)) f 0;
        if negb (feof f) then
          inb ← (if negb (v =? 0) then zset inb i (v - 1) else Some inb);
          read4 n' (i + 1) f inb (len + 1)
        else inb ← zset inb i 0; read4 n' (i + 1) f inb len
  end.

(** [inb] is the array [in], which keeps what it has from block to block. *)
Fixpoint decode_loop (fuel : nat) (f : stream) (inb : list Z) (outfile : list Z) : option (list Z) :=
  if feof f then Some outfile
  else match fuel with
  | O => None
  | S fuel' =>
      '(inb, len, f) ← read4 4 0 f inb 0;
      match inb with
      | [in0; in1; in2; in3] =>
          let outfile := if negb (len =? 0)
            then outfile ++ take (Z.to_nat (len - 1)) (decodeblock in0 in1 in2 in3) else outfile in
          decode_loop fuel' f inb outfile
      | _ => None
      end
  end.

(** [junk] is what the array [in] holds at first. *)
Definition decode64 (infile junk : list Z) : option (list Z) :=
  decode_loop (S (length infile)) (mkStream infile false) junk [].

Example encode_example : encode64 (bytes "Caucus") [] = Some (bytes "Q2F1Y3Vz" ++ [10]).
Proof. vm_compute. reflexivity. Qed.
Example decode_example : decode64 (bytes "Q2F1Y3 VzIQ==" ++ [10]) [7; 7; 7; 7] = Some (bytes "Caucus!").
Proof. vm_compute. reflexivity. Qed.

(** ** Digits *)

(** The digit a character stands for, if it is not noise. *)
Definition val64 (c : Z) : option Z :=
  match digit64 c with Some d => if d =? 0 then None else Some (d - 1) | None => None end.
Definition values (s : list Z) : list Z := omap val64 s.

(** The digits of a text, three bytes in four. *)
Fixpoint sextets (x : list Z) : list Z :=
  match x with
  | a :: b :: c :: r =>
      [Z.shiftr a 2; Z.lor (Z.shiftl (Z.land a 3) 4) (Z.shiftr (Z.land b 240) 4);
       Z.lor (Z.shiftl (Z.land b 15) 2) (Z.shiftr (Z.land c 192) 6); Z.land c 63] ++ sextets r
  | [a; b] => [Z.shiftr a 2; Z.lor (Z.shiftl (Z.land a 3) 4) (Z.shiftr (Z.land b 240) 4);
               Z.lor (Z.shiftl (Z.land b 15) 2) (Z.shiftr (Z.land 0 192) 6)]
  | [a] => [Z.shiftr a 2; Z.lor (Z.shiftl (Z.land a 3) 4) (Z.shiftr (Z.land 0 240) 4)]
  | [] => []
  end.

Fixpoint octets (ds : list Z) : list Z :=
  match ds with
  | a :: b :: c :: d :: r => decodeblock a b c d ++ octets r
  | [a; b; c] => take 2 (decodeblock a b c 0)
  | [a; b] => take 1 (decodeblock a b 0 0)
  | _ => []
  end.

(** Every property of bytes and of pairs of bytes can be tried out. *)
Lemma all_bytes (P : Z -> bool) : forallb P (seqZ 0 256) = true -> forall b, is_byte b -> P b = true.
Proof.
  intros H b Hb. rewrite forallb_forall in H. apply H, list_elem_of_In, elem_of_seqZ. unfold is_byte in Hb. lia.
Qed.

Lemma all_pairs (P : Z -> Z -> bool) :
  forallb (fun a => forallb (P a) (seqZ 0 256)) (seqZ 0 256) = true ->
  forall a b, is_byte a -> is_byte b -> P a b = true.
Proof. intros H a b Ha Hb. apply all_bytes; [| done]. by apply (all_bytes (fun a => forallb (P a) (seqZ 0 256))). Qed.

Lemma digit64_some b : is_byte b -> exists d, digit64 b = Some d /\ 0 <= d <= 64.
Proof.
  intros Hb. pose proof (all_bytes (fun b => match digit64 b with Some d => (0 <=? d) && (d <=? 64) | None => false end)
    ltac:(vm_compute; reflexivity) b Hb) as H. cbv beta in H. destruct (digit64 b) as [d |]; [| done]. exists d. split; [done | lia].
Qed.

Lemma first_octet a b : is_byte a -> is_byte b ->
  Z.land (Z.lor (Z.shiftl (Z.shiftr a 2) 2)
    (Z.shiftr (Z.lor (Z.shiftl (Z.land a 3) 4) (Z.shiftr (Z.land b 240) 4)) 4)) 255 = a.
Proof.
  intros Ha Hb. apply Z.eqb_eq.
  apply (all_pairs (fun a b => Z.land (Z.lor (Z.shiftl (Z.shiftr a 2) 2)
    (Z.shiftr (Z.lor (Z.shiftl (Z.land a 3) 4) (Z.shiftr (Z.land b 240) 4)) 4)) 255 =? a)); [| done | done].
  vm_compute. reflexivity.
Qed.

Lemma second_octet a b c : is_byte a -> is_byte b -> is_byte c ->
  Z.land (Z.lor (Z.shiftl (Z.lor (Z.shiftl (Z.land a 3) 4) (Z.shiftr (Z.land b 240) 4)) 4)
    (Z.shiftr (Z.lor (Z.shiftl (Z.land b 15) 2) (Z.shiftr (Z.land c 192) 6)) 2)) 255 = b.
Proof.
  intros Ha Hb Hc.
  assert (Hlo : Z.shiftr (Z.lor (Z.shiftl (Z.land b 15) 2) (Z.shiftr (Z.land c 192) 6)) 2 = Z.land b 15).
  { apply Z.eqb_eq. apply (all_pairs (fun b c => Z.shiftr (Z.lor (Z.shiftl (Z.land b 15) 2)
      (Z.shiftr (Z.land c 192) 6)) 2 =? Z.land b 15)); [vm_compute; reflexivity | done | done]. }
  rewrite Hlo. apply Z.eqb_eq.
  apply (all_pairs (fun a b => Z.land (Z.lor (Z.shiftl (Z.lor (Z.shiftl (Z.land a 3) 4)
    (Z.shiftr (Z.land b 240) 4)) 4) (Z.land b 15)) 255 =? b)); [vm_compute; reflexivity | done | done].
Qed.

Lemma third_octet b c : is_byte b -> is_byte c ->
  Z.land (Z.lor (Z.land (Z.shiftl (Z.lor (Z.shiftl (Z.land b 15) 2) (Z.shiftr (Z.land c 192) 6)) 6) 192)
    (Z.land c 63)) 255 = c.
Proof.
  intros Hb Hc. apply Z.eqb_eq.
  apply (all_pairs (fun b c => Z.land (Z.lor (Z.land (Z.shiftl (Z.lor (Z.shiftl (Z.land b 15) 2)
    (Z.shiftr (Z.land c 192) 6)) 6) 192) (Z.land c 63)) 255 =? c)); [vm_compute; reflexivity | done | done].
Qed.

Lemma octets_sextets x : Forall is_byte x -> octets (sextets x) = x.
Proof.
  assert (H0 : is_byte 0) by (unfold is_byte; lia).
  induction x as [x IH] using (induction_ltof1 _ length); unfold ltof in IH. intros Hx.
  destruct x as [| a [| b [| c r]]].
  - done.
  - inversion Hx as [| ? ? Ha _]; subst. cbn [sextets octets decodeblock take]. by rewrite first_octet.
  - inversion Hx as [| ? ? Ha Hx1]; subst. inversion Hx1 as [| ? ? Hb _]; subst.
    cbn [sextets octets decodeblock take]. by rewrite first_octet, second_octet.
  - inversion Hx as [| ? ? Ha Hx1]; subst. inversion Hx1 as [| ? ? Hb Hx2]; subst. inversion Hx2 as [| ? ? Hc Hr]; subst.
    cbn [sextets octets decodeblock app]. rewrite first_octet, second_octet, third_octet by done.
    by rewrite IH by (done || cbn [length]; lia).
Qed.

(** ** The decoder *)

Lemma values_byte c s : is_byte c ->
  exists d, digit64 c = Some d /\ 0 <= d <= 64 /\ values (c :: s) = (if d =? 0 then [] else [d - 1]) ++ values s.
Proof.
  intros Hc. destruct (digit64_some c Hc) as (d & E & Hd). exists d. split_and!; [done | lia | lia |].
  unfold values. cbn [omap list_omap]. unfold val64. rewrite E. by destruct (d =? 0).
Qed.

Lemma skip_noise_spec fuel s :
  (length s < fuel)%nat -> Forall is_byte s ->
  match values s with
  | [] => skip_noise fuel (mkStream s false) 0 = Some (0, mkStream [] true)
  | d :: ds => exists r, skip_noise fuel (mkStream s false) 0 = Some (d + 1, mkStream r false) /\
      0 <= d /\ values r = ds /\ Forall is_byte r /\ (length r < length s)%nat
  end.
Proof.
  revert fuel. induction s as [| c s IH]; intros [| fuel] Hf Hs; cbn [length] in Hf; try lia.
  { cbn [values omap list_omap]. cbn [skip_noise feof rest getc negb andb]. by destruct fuel. }
  inversion Hs as [| ? ? Hc Hs']; subst. destruct (values_byte c s Hc) as (d & E & Hd & ->).
  cbn [skip_noise feof rest getc negb andb Z.eqb]. rewrite E. cbn [mbind option_bind].
  destruct (Z.eqb_spec d 0) as [-> | Hd0].
  - cbn [app]. specialize (IH fuel ltac:(lia) Hs'). destruct (values s) as [| d ds]; [done |].
    destruct IH as (r & H1 & H2 & H3 & H4 & H5). exists r. split_and!; try done. cbn [length]. lia.
  - cbn [app]. exists s. destruct fuel as [| fuel]; cbn [skip_noise feof negb andb];
      rewrite (proj2 (Z.eqb_neq _ _)) by done; split_and!; try done; try lia; try (f_equal; f_equal; lia); cbn [length]; lia.
Qed.

(** What [read4] leaves, by the digits that are left. *)
Lemma read4_spec s j0 j1 j2 j3 :
  Forall is_byte s ->
  match values s with
  | a :: b :: c :: d :: ds => exists r, read4 4 0 (mkStream s false) [j0; j1; j2; j3] 0 = Some ([a; b; c; d], 4, mkStream r false)
      /\ values r = ds /\ Forall is_byte r /\ (length r < length s)%nat
  | ds => exists inb, read4 4 0 (mkStream s false) [j0; j1; j2; j3] 0 = Some (inb, len ds, mkStream [] true) /\
      length inb = 4%nat /\ take (length ds) inb = ds
  end.
Proof.
  intros Hs.
  assert (Hstep : forall n i s inb k, Forall is_byte s -> length inb = 4%nat -> 0 <= i < 4 ->
    match values s with
    | [] => read4 (S n) i (mkStream s false) inb k = Some (<[Z.to_nat i := 0]> inb, k, mkStream [] true)
    | d :: ds => exists r, read4 (S n) i (mkStream s false) inb k
          = read4 n (i + 1) (mkStream r false) (<[Z.to_nat i := d]> inb) (k + 1) /\
        values r = ds /\ Forall is_byte r /\ (length r < length s)%nat
    end).
  { clear. intros n i s inb k Hs Hl Hi. cbn [read4 feof rest].
    pose proof (skip_noise_spec (2 + length s) s ltac:(lia) Hs) as H.
    assert (Hset : forall v, zset inb i v = Some (<[Z.to_nat i := v]> inb)).
    { intros v. unfold zset, len. rewrite Hl. rewrite (proj2 (Z.ltb_ge _ _)), (proj2 (Z.leb_gt _ _)) by lia. done. }
    destruct (values s) as [| d ds].
    - rewrite H. cbn [mbind option_bind feof negb]. rewrite Hset. cbn [mbind option_bind]. by destruct n.
    - destruct H as (r & -> & Hd & H2 & H3 & H4). exists r. split; [| done]. cbn [mbind option_bind feof negb].
      rewrite (proj2 (Z.eqb_neq _ _)) by lia. cbn [negb]. rewrite Hset. cbn [mbind option_bind].
      by replace (d + 1 - 1) with d by lia. }
  pose proof (Hstep 3%nat 0 s [j0; j1; j2; j3] 0 Hs eq_refl ltac:(lia)) as H1.
  destruct (values s) as [| a ds1]; [eexists; split; [exact H1 | done] |]. destruct H1 as (s1 & -> & <- & Hs1 & L1).
  pose proof (Hstep 2%nat 1 s1 [a; j1; j2; j3] 1 Hs1 eq_refl ltac:(lia)) as H2.
  destruct (values s1) as [| b ds2]; [eexists; split; [exact H2 | done] |]. destruct H2 as (s2 & H2 & <- & Hs2 & L2).
  pose proof (Hstep 1%nat 2 s2 [a; b; j2; j3] 2 Hs2 eq_refl ltac:(lia)) as H3.
  destruct (values s2) as [| c ds3]; [eexists; split; [exact (eq_trans H2 H3) | done] |]. destruct H3 as (s3 & H3 & <- & Hs3 & L3).
  pose proof (Hstep 0%nat 3 s3 [a; b; c; j3] 3 Hs3 eq_refl ltac:(lia)) as H4.
  destruct (values s3) as [| d ds4]; [eexists; split; [exact (eq_trans H2 (eq_trans H3 H4)) | done] |].
  destruct H4 as (s4 & H4 & H5 & Hs4 & L4). exists s4. split_and!; [| done | done | lia].
  exact (eq_trans H2 (eq_trans H3 H4)).
Qed.

(** The decoder gives the bytes that the digits of the text stand for,
    whatever lies between them. *)
Lemma decode_loop_spec fuel s inb out :
  (length s < fuel)%nat -> Forall is_byte s -> length inb = 4%nat ->
  decode_loop fuel (mkStream s false) inb out = Some (out ++ octets (values s)).
Proof.
  revert s inb out. induction fuel as [| fuel IH]; intros s inb out Hf Hs Hl; [lia |].
  destruct inb as [| j0 [| j1 [| j2 [| j3 [| ]]]]]; try discriminate Hl. cbn [decode_loop feof].
  pose proof (read4_spec s j0 j1 j2 j3 Hs) as H.
  assert (Hend : forall f ib o, feof f = true -> decode_loop fuel f ib o = Some o)
    by (intros f ib o E; destruct fuel; cbn [decode_loop]; by rewrite E).
  destruct (values s) as [| a [| b [| c [| d ds]]]].
  5: { destruct H as (r & -> & <- & Hr & L). cbn [mbind option_bind negb Z.eqb take octets Pos.eqb].
       rewrite IH by (done || lia). by rewrite <- app_assoc. }
  all: destruct H as (ib & -> & Hib & Ht); cbn [mbind option_bind];
    destruct ib as [| i0 [| i1 [| i2 [| i3 [| ]]]]]; try discriminate Hib; rewrite Hend by done;
    cbn [length take] in Ht; simplify_eq; cbn; by rewrite ?app_nil_r.
Qed.

Theorem decode64_any s junk :
  Forall is_byte s -> length junk = 4%nat -> decode64 s junk = Some (octets (values s)).
Proof. intros Hs Hj. unfold decode64. by rewrite decode_loop_spec by (done || lia). Qed.

(** ** The encoder *)

(** Lines of at most [linesize] characters, from column [k] on. *)
Fixpoint fits (k : Z) (s : list Z) : bool :=
  match s with
  | [] => true
  | c :: s' => if c =? 10 then fits 0 s' else (k <? linesize) && fits (k + 1) s'
  end.

Lemma cb64_digit i : 0 <= i < 64 -> exists c, zget cb64 i = Some c /\ val64 c = Some i /\ is_char c /\ c <> 10.
Proof.
  intros Hi. assert (Hall : forallb (fun i => match zget cb64 i with
      | Some c => bool_decide (val64 c = Some i) && bool_decide (is_char c) && negb (c =? 10) | None => false end)
      (seqZ 0 64) = true) by (vm_compute; reflexivity).
  rewrite forallb_forall in Hall. specialize (Hall i ltac:(apply list_elem_of_In, elem_of_seqZ; lia)).
  destruct (zget cb64 i) as [c |]; [| done]. exists c. apply andb_true_iff in Hall as [H H3].
  apply andb_true_iff in H as [H1 H2]. apply bool_decide_eq_true in H1, H2. split_and!; try done. lia.
Qed.

Lemma sextet_bounds a b : is_byte a -> is_byte b ->
  0 <= Z.shiftr a 2 < 64 /\ 0 <= Z.lor (Z.shiftl (Z.land a 3) 4) (Z.shiftr (Z.land b 240) 4) < 64 /\
  0 <= Z.lor (Z.shiftl (Z.land a 15) 2) (Z.shiftr (Z.land b 192) 6) < 64 /\ 0 <= Z.land a 63 < 64.
Proof.
  intros Ha Hb.
  pose proof (all_pairs (fun a b => (0 <=? Z.shiftr a 2) && (Z.shiftr a 2 <? 64) &&
    (0 <=? Z.lor (Z.shiftl (Z.land a 3) 4) (Z.shiftr (Z.land b 240) 4)) &&
    (Z.lor (Z.shiftl (Z.land a 3) 4) (Z.shiftr (Z.land b 240) 4) <? 64) &&
    (0 <=? Z.lor (Z.shiftl (Z.land a 15) 2) (Z.shiftr (Z.land b 192) 6)) &&
    (Z.lor (Z.shiftl (Z.land a 15) 2) (Z.shiftr (Z.land b 192) 6) <? 64) &&
    (0 <=? Z.land a 63) && (Z.land a 63 <? 64)) ltac:(vm_compute; reflexivity) a b Ha Hb) as H.
  cbv beta in H. rewrite !andb_true_iff in H. lia.
Qed.

(** The four characters of a block of [n] bytes. *)
Lemma encodeblock_spec a b c n :
  is_byte a -> is_byte b -> is_byte c -> 1 <= n <= 3 ->
  exists o, encodeblock a b c n = Some o /\ length o = 4%nat /\ Forall is_char o /\ Forall (fun c => c <> 10) o /\
    values o = take (Z.to_nat n + 1) (sextets [a; b; c]).
Proof.
  intros Ha Hb Hc Hn. destruct (sextet_bounds a b Ha Hb) as (B0 & B1 & _), (sextet_bounds b c Hb Hc) as (_ & _ & B2 & _),
    (sextet_bounds c c Hc Hc) as (_ & _ & _ & B3).
  destruct (cb64_digit _ B0) as (o0 & E0 & V0 & C0 & N0), (cb64_digit _ B1) as (o1 & E1 & V1 & C1 & N1),
    (cb64_digit _ B2) as (o2 & E2 & V2 & C2 & N2), (cb64_digit _ B3) as (o3 & E3 & V3 & C3 & N3).
  assert (Hpad : val64 61 = None) by (vm_compute; reflexivity).
  assert (Hc61 : is_char 61) by (unfold is_char; lia).
  unfold encodeblock. rewrite E0, E1, E2, E3. cbn [mbind option_bind].
  assert (n = 1 \/ n = 2 \/ n = 3) as [-> | [-> | ->]] by lia; cbn [Z.ltb Z.compare Pos.compare Pos.compare_cont mbind option_bind];
    (eexists; split_and!; [reflexivity | reflexivity | repeat (apply Forall_cons; split; [first [assumption | lia] |]); by apply Forall_nil ..|]);
    unfold values; cbn [omap list_omap]; rewrite V0, V1, ?V2, ?V3, ?Hpad; reflexivity.
Qed.

Lemma fits_block k o s : Forall (fun c => c <> 10) o -> 0 <= k -> k + len o <= linesize ->
  fits k (o ++ s) = fits (k + len o) s.
Proof.
  intros Ho. revert k. induction Ho as [| c o Hc Ho IH]; intros k Hk Hl; [by rewrite len_nil, Z.add_0_r |].
  rewrite len_cons in *. pose proof (len_nonneg o). cbn [app fits]. rewrite (proj2 (Z.eqb_neq _ _)) by done.
  rewrite (proj2 (Z.ltb_lt _ _)), andb_true_l, IH by lia. f_equal. lia.
Qed.

Lemma values_app s t : values (s ++ t) = values s ++ values t.
Proof. apply omap_app. Qed.

(** What [encode_loop] adds to the output. *)
Lemma encode_loop_spec fuel x blocks out :
  (length x < fuel)%nat -> Forall is_byte x -> 0 <= blocks < 18 ->
  exists s, encode_loop fuel (mkStream x false) blocks out = Some (out ++ s) /\ Forall is_char s /\
    values s = sextets x /\ fits (4 * blocks) s = true.
Proof.
  assert (Hnl : values [10] = []) by (vm_compute; reflexivity).
  assert (H0 : is_byte 0) by (unfold is_byte; lia).
  assert (Hc10 : is_char 10) by (unfold is_char; lia).
  revert x blocks out. induction fuel as [| fuel IH]; intros x blocks out Hf Hx Hb; [lia |].
  assert (Hend : forall f k o, feof f = true -> encode_loop fuel f k o = Some o)
    by (intros f k o E; destruct fuel; cbn [encode_loop]; by rewrite E).
  assert (Hlast : forall o (n : Z) d, length o = 4%nat -> Forall is_char o -> Forall (fun c => c <> 10) o ->
    values o = take (Z.to_nat n + 1) (sextets d) ->
    exists s, encode_loop fuel (mkStream [] true) 0 ((out ++ o) ++ [10]) = Some (out ++ s) /\ Forall is_char s /\
      values s = take (Z.to_nat n + 1) (sextets d) /\ fits (4 * blocks) s = true).
  { intros o n d Lo Co No Vo. rewrite Hend by done. exists (o ++ [10]). split_and!.
    - by rewrite <- app_assoc.
    - apply Forall_app. by split; [| constructor].
    - by rewrite values_app, Hnl, app_nil_r.
    - rewrite fits_block by (done || unfold linesize, len; lia). done. }
  cbn [encode_loop feof]. change (linesize `quot` 4) with 18.
  destruct x as [| a [| b [| c r]]]; cbn [read3 getc rest feof].
  - (* nothing left *) cbn [negb Z.eqb mbind option_bind feof orb]. rewrite orb_true_r, Hend by done.
    destruct (Z.eqb_spec blocks 0) as [-> |]; cbn [negb]; [exists []; by rewrite app_nil_r | exists [10]].
    split_and!; [done | by repeat constructor | done | done].
  - (* one byte *) inversion Hx as [| ? ? Ha _]; subst.
    destruct (encodeblock_spec a 0 0 1 Ha H0 H0 ltac:(lia)) as (o & Eo & Lo & Co & No & Vo).
    change (0 + 1) with 1. rewrite Eo. cbn [negb Z.eqb mbind option_bind feof]. rewrite orb_true_r, (proj2 (Z.eqb_neq _ _)) by lia.
    exact (Hlast o 1 _ Lo Co No Vo).
  - (* two bytes *) inversion Hx as [| ? ? Ha Hx1]; subst. inversion Hx1 as [| ? ? Hb' _]; subst.
    destruct (encodeblock_spec a b 0 2 Ha Hb' H0 ltac:(lia)) as (o & Eo & Lo & Co & No & Vo).
    change (0 + 1 + 1) with 2. rewrite Eo. cbn [negb Z.eqb mbind option_bind feof]. rewrite orb_true_r, (proj2 (Z.eqb_neq _ _)) by lia.
    exact (Hlast o 2 _ Lo Co No Vo).
  - (* a block *) inversion Hx as [| ? ? Ha Hx1]; subst. inversion Hx1 as [| ? ? Hb' Hx2]; subst.
    inversion Hx2 as [| ? ? Hc Hr]; subst.
    destruct (encodeblock_spec a b c 3 Ha Hb' Hc ltac:(lia)) as (o & Eo & Lo & Co & No & Vo).
    change (0 + 1 + 1 + 1) with 3. rewrite Eo. cbn [negb Z.eqb mbind option_bind feof]. rewrite orb_false_r.
    assert (Lo' : len o = 4) by (unfold len; lia). cbn [length] in Hf.
    destruct (Z.leb_spec 18 (blocks + 1)) as [Hfull | Hroom].
    + rewrite (proj2 (Z.eqb_neq _ _)) by lia. cbn [negb].
      destruct (IH r 0 ((out ++ o) ++ [10])) as (s & -> & Cs & Vs & Fs); [lia | done | lia |].
      exists (o ++ 10 :: s). split_and!.
      * by rewrite <- !app_assoc.
      * apply Forall_app. by split; [| constructor].
      * change (10 :: s) with ([10] ++ s). rewrite !values_app, Vo, Hnl, Vs. reflexivity.
      * rewrite fits_block by (done || unfold linesize; lia). exact Fs.
    + destruct (IH r (blocks + 1) (out ++ o)) as (s & -> & Cs & Vs & Fs); [lia | done | lia |].
      exists (o ++ s). split_and!.
      * by rewrite <- app_assoc.
      * by apply Forall_app.
      * by rewrite values_app, Vo, Vs.
      * rewrite fits_block by (done || unfold linesize; lia). rewrite Lo'. by replace (4 * blocks + 4) with (4 * (blocks + 1)) by lia.
Qed.

(** C25: What is encoded is text in lines of at most 72 characters, and decoding
    gives the bytes back. *)
Theorem base64_roundtrip x output junk :
  Forall is_byte x -> length junk = 4%nat ->
  exists s, encode64 x output = Some (output ++ s) /\ Forall is_char s /\ fits 0 s = true /\
    decode64 s junk = Some x.
Proof.
  intros Hx Hj. unfold encode64.
  destruct (encode_loop_spec (S (length x)) x 0 output ltac:(lia) Hx ltac:(lia)) as (s & E & Cs & Vs & Fs).
  exists s. split_and!; [done | done | done |].
  rewrite decode64_any by (done || by apply chars_bytes). by rewrite Vs, octets_sextets.
Qed.

Lemma base64_roundtrip_witness :
  exists s, encode64 (bytes "a conference") [] = Some s /\ Forall is_char s /\ fits 0 s = true /\
    decode64 s [0; 0; 0; 0] = Some (bytes "a conference").
Proof.
  apply (base64_roundtrip (bytes "a conference") [] [0; 0; 0; 0]); [| done].
  apply (bool_decide_unpack _). vm_compute. exact I.
Defined.
