(* ===== verification/TagFilter.v ===== *)
(** The filters that let users write HTML in their texts (src/CV2/sweb:
    nexttag.c, fixhref.c, funcrhtml.c, funcchtml.c): a scanner that finds the next
    tag, and mends tags that are not closed, and the filters that drop elements
    and tags and close what the text leaves open.  A special URL is translated
    by caucus_url, an argument here. *)
From S2P Require Import Prelude Memory Chix ChixCore ChixEdit ChixSearch ChixParse Vartab Str Html Table.

(** ** The scanner *)

Inductive tag_state := ST_TEXT | ST_TAG | ST_COM.

Section filter.
Context (B : list Z) (caucus_url : text -> option text).

Definition ntoken (n : Z) (s : text) : text := (token_result B n s).2.

(** [fix_href]: the text, and how much longer it got.  [caucus_url] gives a
    URL where the function of the code returns 2. *)
Definition fix_href (str : text) (start len : Z) : text * Z :=
  let extract := jixreduce (csub str start (len + 2)) in
  let href_pos := cindex extract 0 (bytes "href=") in
  if href_pos <? 0 then (str, 0) else
  let quote_pos := cindex extract (href_pos + 6) [34] in
  if quote_pos <? 0 then (str, 0) else
  let extract := csub str (start + href_pos + 6) (quote_pos - href_pos - 6) in
  match caucus_url extract with
  | Some newurl => (default str (alter_first str (start + href_pos + 6) extract newurl),
                    Prelude.len newurl - Prelude.len extract)
  | None => (str, 0)
  end.

(** The end of a tag: [temp] is what was between the brackets. *)
Definition end_tag (str : text) (pos : Z) (temp : text) (quote start : Z) : Z * text * text * Z :=
  let str := if quote =? 0 then str else default str (alter_first str pos [62] [34; 62]) in
  let pos := pos + 1 in
  let tag := jixreduce (ntoken 1 temp) in
  if bool_decide (tag = bytes "a") then
    let '(str, more) := fix_href str start (len temp) in (start, tag, str, pos + more)
  else (start, tag, str, pos).

(** The do-while loop of [next_tag]: the position of the tag or -1, the tag,
    and [str] and [pos] as they are left.  [ends] are the first three bytes of
    [tempend]. *)
Fixpoint tag_loop (fuel : nat) (state : tag_state) (str : text) (pos : Z) (temp : text)
    (quote templen start : Z) (ends : Z * Z * Z) : option (Z * text * text * Z) :=
  match fuel with
  | O => None
  | S fuel' =>
      let c := cval str pos in
      match state with
      | ST_TEXT =>
          if c =? 60 then tag_loop fuel' ST_TAG str (pos + 1) [] 0 0 pos ends
          else if c =? 92 then
            let pos := pos + 1 in
            if cval str pos =? 0 then Some (-1, [], str, pos)
            else tag_loop fuel' ST_TEXT str (pos + 1) temp quote templen start ends
          else if c =? 0 then Some (-1, [], str, pos + 1)
          else tag_loop fuel' ST_TEXT str (pos + 1) temp quote templen start ends
      | ST_TAG =>
          let '(str, c) := if c =? 0 then (str ++ [62], 62) else (str, c) in
          let '(str, c) := if c =? 60 then (default str (alter_first str pos [60] [62; 60]), 62) else (str, c) in
          if negb (c =? 62) then
            let temp := temp ++ [c] in
            let quote := if c =? 34 then 1 - quote else quote in
            let templen := templen + 1 in
            if (templen =? 3) && bool_decide (temp = bytes "!--")
            then tag_loop fuel' ST_COM str (pos + 1) temp quote templen start (0, 0, 0)
            else tag_loop fuel' ST_TAG str (pos + 1) temp quote templen start ends
          else Some (end_tag str pos temp quote start)
      | ST_COM =>
          if c =? 0 then Some (-1, [], str ++ bytes "-->", pos)
          else
            let temp := temp ++ [c] in
            let '(_, e1, e2) := ends in
            let ends := (e1, e2, c) in
            let state := if bool_decide (ends = (45, 45, 62)) then ST_TEXT else ST_COM in
            tag_loop fuel' state str (pos + 1) temp quote templen start ends
      end
  end.

Definition next_tag (str : text) (pos : Z) : option (Z * text * text * Z) :=
  tag_loop (3 + Z.to_nat (len str - pos)) ST_TEXT str pos [] 0 0 0 (0, 0, 0).

(** ** The filters *)

(** [chxformat (x, CQ("</%s> "), L(0), L(0), tag, nullchix)] and the one that
    is looked for when a closing tag comes by. *)
Definition closer (tag : text) : text := bytes "</" ++ tag ++ bytes "> ".
Definition closed_by (tag : text) : text := bytes "<" ++ tag ++ bytes "> ".

Definition noclose : text :=
  bytes "area br base basefont bgsound col colgroup embed hr img input isindex li link meta nextid p sound spacer tr wbr".

Definition find (table tag : text) : option Z := tablefind B (Some table) (Some tag).

(** The loop over the tags, the same in both filters: [state] is -1, or the
    number of the element that is skipped. *)
Fixpoint filter_loop (fuel : nat) (skipstart skip_end ignore : text)
    (arg : text) (pos marker state : Z) (result closetags : text) : option text :=
  match fuel with
  | O => None
  | S fuel' =>
      '(start, tag, arg, pos) ← next_tag arg pos;
      if start <? 0 then
        let result := if state =? -1 then result ++ csub arg marker ALLCHARS else result in
        Some (result ++ closetags)
      else if state =? -1 then
        ig_tag ← find ignore tag;
        if 0 <=? ig_tag then
          filter_loop fuel' skipstart skip_end ignore arg pos pos state (result ++ csub arg marker (start - marker)) closetags
        else
          skiptag ← find skipstart tag;
          if 0 <=? skiptag then
            filter_loop fuel' skipstart skip_end ignore arg pos marker skiptag
              (result ++ csub arg marker (start - marker)) closetags
          else if cval tag 0 =? 47 then
            filter_loop fuel' skipstart skip_end ignore arg pos marker state result
              (default closetags (alter_first closetags 0 (closed_by tag) []))
          else
            nc ← find noclose tag;
            filter_loop fuel' skipstart skip_end ignore arg pos marker state result
              (if nc <? 0 then closetags ++ closer tag else closetags)
      else
        e ← find skip_end tag;
        if state =? e then filter_loop fuel' skipstart skip_end ignore arg pos (pos + 1) (-1) result closetags
        else filter_loop fuel' skipstart skip_end ignore arg pos marker state result closetags
  end.

Definition PR_FORM : Z := 1.
Definition PR_SCRIPT : Z := 2.
Definition PR_APPLET : Z := 4.
Definition ignored : text := bytes "html /html body /body".
Definition skip_starts (prop : Z) : text :=
  bytes " head  title"
  ++ (if Z.land prop PR_FORM =? 0 then bytes "  form" else [])
  ++ (if Z.land prop PR_SCRIPT =? 0 then bytes "  script" else [])
  ++ (if Z.land prop PR_APPLET =? 0 then bytes "  applet" else []).
Definition skip_ends (prop : Z) : text :=
  bytes "/head /title"
  ++ (if Z.land prop PR_FORM =? 0 then bytes " /form" else [])
  ++ (if Z.land prop PR_SCRIPT =? 0 then bytes " /script" else [])
  ++ (if Z.land prop PR_APPLET =? 0 then bytes " /applet" else []).

(** [func_rhtml]: what is added to [result]. *)
Definition func_rhtml (arg : text) (use_prop : bool) : option text :=
  let '(prop, pos) := if use_prop then int4_result B arg 0 else (0, 0) in
  filter_loop (2 + length arg) (skip_starts prop) (skip_ends prop) ignored arg pos pos (-1) [] [].

(** The tables that [func_chtml] builds from the value of a variable, a list
    such as "table,prohibit,tag form,prohibit,all". *)
Fixpoint chtml_tables (fuel : nat) (tagnum : Z) (list : text) (skipstart skip_end ignore : text)
    : option (text * text * text) :=
  match fuel with
  | O => None
  | S fuel' =>
      let '(r, temp) := token_result B tagnum list in
      if r <? 0 then Some (skipstart, skip_end, ignore) else
      let temp := default temp (replace_all temp 0 [44] [32]) in
      let tag := ntoken 1 temp in
      let allow := ntoken 2 temp in
      let which := ntoken 3 temp in
      if bool_decide (allow = bytes "prohibit") then
        if bool_decide (which = bytes "all") then
          chtml_tables fuel' (tagnum + 1) list (skipstart ++ tag ++ [32]) (skip_end ++ 47 :: tag ++ [32]) ignore
        else chtml_tables fuel' (tagnum + 1) list skipstart skip_end (ignore ++ tag ++ [32] ++ 47 :: tag ++ [32])
      else chtml_tables fuel' (tagnum + 1) list skipstart skip_end ignore
  end.

Definition func_chtml (arg : text) (vars : vartab) : option text :=
  let '(pos, _) := token_result B 2 arg in
  if pos <? 0 then Some [] else
  let tagname := from_option snd [] (List.find (fun p => bool_decide (p.1 = ntoken 1 arg)) (slots vars)) in
  '(skipstart, skip_end, ignore) ← chtml_tables (2 + length tagname) 1 tagname [] [] [];
  filter_loop (2 + length arg) skipstart skip_end ignore arg pos pos (-1) [] [].
End filter.

Definition no_url (u : text) : option text := None.
Definition blanks3 : list Z := [32; 9; 10].
Example rhtml_example :
  func_rhtml blanks3 no_url (bytes "<b>Hi</b> <i>you<script>evil()</script> there<body>!") false
  = Some (bytes "<b>Hi</b> <i>youthere!</i> ").
Proof. vm_compute. reflexivity. Qed.
Example rhtml_backslash :
  func_rhtml blanks3 no_url (bytes "<form></form>\<script>evil()") false = Some (bytes "<script>evil()").
Proof. vm_compute. reflexivity. Qed.

(** ** Documents

    Texts that need no mending, as lists of pieces; links are translated. *)

Inductive piece :=
| PText (s : text)      (* no bracket opens in it, and no backslash *)
| PEsc (c : Z)          (* a backslash and what it protects *)
| PCom (s : text)       (* a comment *)
| PTag (raw : text).    (* a tag, with its arguments *)

Definition show_piece (p : piece) : text :=
  match p with
  | PText s => s
  | PEsc c => [92; c]
  | PCom s => bytes "<!--" ++ s ++ bytes "-->"
  | PTag raw => 60 :: raw ++ [62]
  end.
Definition render (ps : list piece) : text := flat_map show_piece ps.

Definition quotes (s : text) : Z := foldl (fun q c => if c =? 34 then 1 - q else q) 0 s.

Section documents.
Context (B : list Z) (caucus_url : text -> option text).

Definition tag_name (raw : text) : text := jixreduce (ntoken B 1 raw).

(** A link with its address translated: what is between the sixth character
    from "href=" on and the next quote. *)
Definition fix_link (raw : text) : text :=
  let tag := 60 :: raw ++ [62] in
  let h := cindex (jixreduce tag) 0 (bytes "href=") in
  let q := cindex (jixreduce tag) (h + 6) [34] in
  if (h <? 0) || (q <? 0) then raw else
  match caucus_url (csub tag (h + 6) (q - h - 6)) with
  | Some newurl => take (Z.to_nat (h + 5)) raw ++ newurl ++ drop (Z.to_nat (q - 1)) raw
  | None => raw
  end.
Definition fix_tag (raw : text) : text := if bool_decide (tag_name raw = bytes "a") then fix_link raw else raw.
Definition fix_piece (p : piece) : piece := match p with PTag raw => PTag (fix_tag raw) | _ => p end.

Definition piece_ok (p : piece) : Prop :=
  match p with
  | PText s => Forall (fun c => c <> 0 /\ c <> 60 /\ c <> 92) s
  | PEsc c => c <> 0
  | PCom s => Forall (fun c => c <> 0) s /\ cindex (s ++ bytes "--") 0 (bytes "-->") = -1
  | PTag raw => Forall (fun c => c <> 0 /\ c <> 60 /\ c <> 62) raw /\ quotes raw = 0 /\
      prefixb (bytes "!--") raw = false
  end.

#[export] Instance piece_ok_dec p : Decision (piece_ok p).
Proof. destruct p; cbn [piece_ok]; apply _. Defined.

Definition is_tag (p : piece) : bool := match p with PTag _ => true | _ => false end.

(** The first tag of a document: what is before it, the tag, what is after it. *)
Fixpoint split_tag (ps : list piece) : list piece * option (text * list piece) :=
  match ps with
  | [] => ([], None)
  | PTag raw :: ps' => ([], Some (raw, ps'))
  | p :: ps' => let '(pre, r) := split_tag ps' in (p :: pre, r)
  end.

Lemma split_tag_spec ps pre r : split_tag ps = (pre, r) ->
  Forall (fun p => is_tag p = false) pre /\
  ps = pre ++ match r with Some (raw, post) => PTag raw :: post | None => [] end.
Proof.
  revert pre. induction ps as [| p ps IH]; intros pre E; cbn [split_tag] in E; [by injection E as <- <- |].
  destruct p; try (destruct (split_tag ps) as [pre' r']; injection E as <- <-;
    destruct (IH _ eq_refl) as [H1 H2]; split; [by constructor | cbn [app]; by rewrite <- H2]).
  by injection E as <- <-.
Qed.

(** *** The scanner on documents *)

Lemma cval_at u c t : cval (u ++ c :: t) (len u) = c.
Proof. unfold cval. by rewrite to_nat_len, list_lookup_middle. Qed.
Lemma cval_end u : cval u (len u) = 0.
Proof. unfold cval. by rewrite to_nat_len, lookup_ge_None_2 by lia. Qed.
Lemma len_next (u : text) c : len u + 1 = len (u ++ [c]).
Proof. by rewrite len_app. Qed.

(** What [next_tag] finds from [len u] on in [u ++ t]: what is before the tag,
    the tag, and what is after it. *)
Definition finds (u t : text) (r : option (text * text * text)) (res : option (Z * text * text * Z)) : Prop :=
  match r with
  | Some (t1, raw, t2) =>
      res = Some (len (u ++ t1), tag_name raw, u ++ t1 ++ 60 :: fix_tag raw ++ 62 :: t2, len (u ++ t1) + len (fix_tag raw) + 2)
  | None => exists pos', res = Some (-1, [], u ++ t, pos')
  end.

(** From [ST_TEXT] on, whatever the other variables are. *)
Definition scans (t : text) (r : option (text * text * text)) : Prop :=
  forall u fuel temp quote templen start ends, (length t + 1 < fuel)%nat ->
    finds u t r (tag_loop B caucus_url fuel ST_TEXT (u ++ t) (len u) temp quote templen start ends).

Lemma scans_nil : scans [] None.
Proof.
  intros u [| fuel] temp quote templen start ends Hf; cbn [length] in Hf; [lia |].
  cbn [tag_loop]. rewrite app_nil_r, cval_end. cbn. rewrite app_nil_r. eauto.
Qed.

Definition shift (a : text) (r : option (text * text * text)) : option (text * text * text) :=
  (fun '(t1, raw, t2) => (a ++ t1, raw, t2)) <$> r.

Lemma finds_shift u a t r res : finds (u ++ a) t r res -> finds u (a ++ t) (shift a r) res.
Proof.
  unfold finds, shift. rewrite <- app_assoc. destruct r as [[[t1 raw] t2] |]; cbn [fmap option_fmap option_map]; [| done].
  by rewrite <- !app_assoc.
Qed.

Lemma scans_char c t r : c <> 0 -> c <> 60 -> c <> 92 -> scans t r -> scans (c :: t) (shift [c] r).
Proof.
  intros H0 H1 H2 Ht u [| fuel] temp quote templen start ends Hf; cbn [length] in Hf; [lia |].
  cbn [tag_loop]. rewrite cval_at. rewrite !(proj2 (Z.eqb_neq _ _)) by done.
  rewrite (len_next u c), app_cons_assoc. apply (finds_shift u [c]). apply Ht. lia.
Qed.

Lemma shift_shift a b r : shift a (shift b r) = shift (a ++ b) r.
Proof. destruct r as [[[t1 raw] t2] |]; [| done]. cbn. by rewrite app_assoc. Qed.
Lemma shift_nil r : shift [] r = r.
Proof. by destruct r as [[[? ?] ?] |]. Qed.

Lemma scans_text s t r : Forall (fun c => c <> 0 /\ c <> 60 /\ c <> 92) s -> scans t r -> scans (s ++ t) (shift s r).
Proof.
  intros Hs Ht. induction Hs as [| c s (H0 & H1 & H2) Hs IH]; [by rewrite shift_nil |].
  change (c :: s) with ([c] ++ s). rewrite <- shift_shift. by apply scans_char.
Qed.

Lemma scans_esc c t r : c <> 0 -> scans t r -> scans (92 :: c :: t) (shift [92; c] r).
Proof.
  intros H0 Ht u [| fuel] temp quote templen start ends Hf; cbn [length] in Hf; [lia |].
  cbn [tag_loop]. rewrite cval_at. cbn [Z.eqb Pos.eqb]. rewrite (len_next u 92), app_cons_assoc, cval_at.
  rewrite (proj2 (Z.eqb_neq _ _)) by done. rewrite (len_next _ c), (app_cons_assoc _ c t), <- (app_assoc u).
  apply (finds_shift u [92; c]). apply Ht. lia.
Qed.

(** A tag from its bracket on: [w] has been read, [r] is still to come. *)
Lemma tag_inside u w r t fuel start ends :
  (length r < fuel)%nat -> Forall (fun c => c <> 0 /\ c <> 60 /\ c <> 62) r -> prefixb (bytes "!--") (w ++ r) = false ->
  tag_loop B caucus_url fuel ST_TAG (u ++ r ++ 62 :: t) (len u) w (quotes w) (len w) start ends =
  Some (end_tag B caucus_url (u ++ r ++ 62 :: t) (len u + len r) (w ++ r) (quotes (w ++ r)) start).
Proof.
  intros Hf Hr. revert u w fuel Hf. induction Hr as [| c r (H0 & H1 & H2) Hr IH]; intros u w [| fuel] Hf Hp;
    cbn [length] in Hf; try lia; cbn [tag_loop app]; rewrite cval_at.
  - cbn [Z.eqb Pos.eqb negb]. by rewrite app_nil_r, len_nil, Z.add_0_r.
  - rewrite !(proj2 (Z.eqb_neq c _)) by done. cbn [negb].
    assert (Hq : (if c =? 34 then 1 - quotes w else quotes w) = quotes (w ++ [c]))
      by (unfold quotes; by rewrite foldl_app).
    assert (Hcom : (len w + 1 =? 3) && bool_decide (w ++ [c] = bytes "!--") = false).
    { apply andb_false_iff. right. apply bool_decide_eq_false. intros E.
      rewrite app_cons_assoc, E in Hp. cut (true = false); [done |]. rewrite <- Hp. symmetry.
      apply prefixb_spec. by exists r. }
    rewrite Hcom, Hq, (len_next w c), (len_next u c), app_cons_assoc, IH by (lia || by rewrite <- app_cons_assoc).
    replace (len (u ++ [c]) + len r) with (len u + len (c :: r)) by (rewrite len_app, !len_cons, len_nil; lia).
    by rewrite <- !app_cons_assoc.
Qed.

(** [fix_href] on a tag of a longer text. *)
Lemma csub_middle (u a t : text) i n : 0 <= i -> 0 <= n -> i + n <= len a -> csub (u ++ a ++ t) (len u + i) n = csub a i n.
Proof.
  intros Hi Hn Hl. unfold csub. rewrite (proj2 (Z.eqb_neq _ _)) by (unfold ALLCHARS; lia).
  rewrite Z2Nat.inj_add, to_nat_len, drop_app_add, drop_app_le by (unfold len in *; lia).
  apply take_app_le. rewrite length_drop. unfold len in *. lia.
Qed.

Lemma fix_href_tag u raw t : caucus_url [] = None ->
  fix_href caucus_url (u ++ (60 :: raw ++ [62]) ++ t) (len u) (len raw) =
  (u ++ (60 :: fix_link raw ++ [62]) ++ t, len (fix_link raw) - len raw).
Proof.
  intros Hnil. unfold fix_href, fix_link. set (tag := 60 :: raw ++ [62]).
  assert (Ht : len tag = len raw + 2) by (unfold tag; rewrite len_cons, len_app, len_cons, len_nil; lia).
  assert (El : len (jixreduce tag) = len tag) by (unfold jixreduce, len; by rewrite length_map).
  assert (E : csub (u ++ tag ++ t) (len u) (len raw + 2) = tag).
  { rewrite <- (Z.add_0_r (len u)), csub_middle by (len_pos; lia). unfold csub.
    rewrite (proj2 (Z.eqb_neq _ _)) by (unfold ALLCHARS; len_pos; lia). rewrite <- Ht, to_nat_len. apply take_ge. cbn. lia. }
  rewrite E. set (h := cindex (jixreduce tag) 0 (bytes "href=")).
  set (q := cindex (jixreduce tag) (h + 6) [34]).
  destruct (Z.ltb_spec h 0) as [_ | Hh]; cbn [orb]; [by rewrite Z.sub_diag |].
  destruct (Z.ltb_spec q 0) as [_ | Hq]; [by rewrite Z.sub_diag |].
  destruct (cindex_range (jixreduce tag) (h + 6) [34] ltac:(lia)) as [Hx | [[Hhq Hql] _]]; [unfold q in Hq; lia |]. fold q in Hhq, Hql.
  rewrite El, Ht in Hql.
  rewrite <- Z.add_assoc, (csub_middle u tag t (h + 6) (q - h - 6)) by lia.
  set (url := csub tag (h + 6) (q - h - 6)). destruct (caucus_url url) as [newurl |] eqn:Eu; [| by rewrite Z.sub_diag].
  assert (Hurl : len url = q - h - 6).
  { unfold url, csub. rewrite (proj2 (Z.eqb_neq _ _)), len_take, len_drop by (unfold ALLCHARS; lia). lia. }
  assert (Hne : url <> []) by congruence.
  assert (Hsplit : tag = (60 :: take (Z.to_nat (h + 5)) raw) ++ url ++ (drop (Z.to_nat (q - 1)) raw ++ [62])).
  { rewrite <- (take_drop (Z.to_nat (h + 6)) tag) at 1. replace (Z.to_nat (h + 6)) with (S (Z.to_nat (h + 5))) by lia.
    unfold tag at 1. cbn [take]. rewrite take_app_le by (unfold len in *; lia). cbn [app]. do 2 f_equal.
    rewrite <- (take_drop (Z.to_nat (q - h - 6)) (drop _ tag)), drop_drop. f_equal.
    - unfold url, csub. rewrite (proj2 (Z.eqb_neq _ _)) by (unfold ALLCHARS; lia). do 2 f_equal. lia.
    - replace (S (Z.to_nat (h + 5)) + Z.to_nat (q - h - 6))%nat with (S (Z.to_nat (q - 1))) by lia.
      unfold tag. cbn [drop]. apply drop_app_le. unfold len in *. lia. }
  set (v := take (Z.to_nat (h + 5)) raw) in *. set (w := drop (Z.to_nat (q - 1)) raw) in *.
  assert (Hv : len (60 :: v) = h + 6) by (unfold v; rewrite len_cons, len_take; unfold len in *; lia).
  assert (Hraw : len raw = len v + len url + len w).
  { apply (f_equal len) in Hsplit. rewrite Ht, !len_app, len_cons in Hsplit. change (len [62]) with 1 in Hsplit. lia. }
  f_equal; [| rewrite !len_app; lia]. rewrite Hsplit. unfold alter_first, cindex. rewrite bool_decide_eq_false_2 by done.
  assert (Edrop : drop (Z.to_nat (len u + (h + 6))) (u ++ ((60 :: v) ++ url ++ w ++ [62]) ++ t) = url ++ (w ++ [62]) ++ t).
  { rewrite <- Hv, Z2Nat.inj_add, !to_nat_len, drop_app_add, <- !app_assoc, drop_app_length by (len_pos; lia). done. }
  rewrite Edrop.
  assert (Efind : findsub url (url ++ (w ++ [62]) ++ t) (len u + (h + 6)) = len u + (h + 6)).
  { destruct url as [| c url']; [done |]. cbn [app findsub].
    assert (Hp : prefixb (c :: url') (c :: url' ++ (w ++ [62]) ++ t) = true) by (apply prefixb_spec; by eexists). by rewrite Hp. }
  rewrite Efind, (proj2 (Z.ltb_ge _ _)) by (len_pos; lia). cbn [default from_option id].
  replace (u ++ ((60 :: v) ++ url ++ w ++ [62]) ++ t) with ((u ++ 60 :: v) ++ url ++ (w ++ [62]) ++ t) by (by rewrite <- !app_assoc).
  replace (Z.to_nat (len u + (h + 6) + len url)) with (length (u ++ 60%Z :: v) + length url)%nat
    by (rewrite length_app; unfold len in *; cbn [length] in *; lia).
  replace (Z.to_nat (len u + (h + 6))) with (length (u ++ 60 :: v)) by (rewrite length_app; unfold len in *; cbn [length] in *; lia).
  rewrite take_app_length, drop_app_add, drop_app_length. cbn [app]. by rewrite <- !app_assoc.
Qed.

Context (Hnil : caucus_url [] = None).

Lemma scans_tag raw t : piece_ok (PTag raw) -> scans (60 :: raw ++ 62 :: t) (Some ([], raw, t)).
Proof using Hnil.
  intros (Hr & Hq & Hp) u [| fuel] temp quote templen start ends Hf; cbn [length] in Hf; [lia |].
  rewrite length_app in Hf. cbn [length] in Hf. cbn [tag_loop]. rewrite cval_at. cbn [Z.eqb Pos.eqb].
  rewrite (len_next u 60), (app_cons_assoc u 60).
  assert (Hin : (length raw < fuel)%nat) by lia.
  pose proof (tag_inside (u ++ [60]) [] raw t fuel (len u) ends Hin Hr Hp) as H.
  change (quotes []) with 0 in H. change (len []) with 0 in H. rewrite H.
  cbn [app]. unfold end_tag. rewrite Hq. cbn [Z.eqb]. fold (tag_name raw). unfold finds, fix_tag. rewrite app_nil_r. cbn [app].
  rewrite <- app_cons_assoc, len_app. change (len [60]) with 1. case_bool_decide as Ea.
  - pose proof (fix_href_tag u raw t Hnil) as Hx. cbn [app] in Hx. rewrite <- !app_assoc in Hx. cbn [app] in Hx. rewrite Hx.
    do 2 f_equal. lia.
  - do 2 f_equal. lia.
Qed.

(** The three bytes of [tempend] are the end of what has been read. *)
Lemma ends_read v : drop (length v) ([0; 0; 0] ++ v) = [45; 45; 62] -> exists x, v = x ++ bytes "-->".
Proof.
  intros E. destruct (decide (length v < 3)%nat) as [Hl | Hl].
  - destruct v as [| a [| b [| c v]]]; try discriminate E. cbn [length] in Hl. lia.
  - rewrite drop_app_ge in E by (cbn [length]; lia). cbn [length] in E.
    exists (take (length v - 3) v). change (bytes "-->") with [45; 45; 62]. rewrite <- E. by rewrite take_drop.
Qed.

Lemma ends_step v c (e1 e2 e3 : Z) :
  [e1; e2; e3] = drop (length v) ([0; 0; 0] ++ v) -> [e2; e3; c] = drop (length (v ++ [c])) ([0; 0; 0] ++ v ++ [c]).
Proof.
  intros E. rewrite length_app, app_assoc, <- drop_drop, drop_app_le, <- E by (rewrite length_app; cbn [length]; lia).
  reflexivity.
Qed.

Lemma com_char u c t fuel temp quote templen start e1 e2 e3 : c <> 0 ->
  tag_loop B caucus_url (S fuel) ST_COM (u ++ c :: t) (len u) temp quote templen start (e1, e2, e3) =
  tag_loop B caucus_url fuel (if bool_decide ((e2, e3, c) = (45, 45, 62)) then ST_TEXT else ST_COM)
    ((u ++ [c]) ++ t) (len (u ++ [c])) (temp ++ [c]) quote templen start (e2, e3, c).
Proof. intros Hc. cbn [tag_loop]. by rewrite cval_at, (proj2 (Z.eqb_neq c 0)), <- len_next, <- app_cons_assoc. Qed.

Lemma tag_char u c t fuel w quote start ends : c <> 0 -> c <> 60 -> c <> 62 -> c <> 34 ->
  tag_loop B caucus_url (S fuel) ST_TAG (u ++ c :: t) (len u) w quote (len w) start ends =
  (if (len (w ++ [c]) =? 3) && bool_decide (w ++ [c] = bytes "!--")
   then tag_loop B caucus_url fuel ST_COM ((u ++ [c]) ++ t) (len (u ++ [c])) (w ++ [c]) quote (len (w ++ [c])) start (0, 0, 0)
   else tag_loop B caucus_url fuel ST_TAG ((u ++ [c]) ++ t) (len (u ++ [c])) (w ++ [c]) quote (len (w ++ [c])) start ends).
Proof.
  intros H0 H1 H2 H3. cbn [tag_loop]. rewrite cval_at, !(proj2 (Z.eqb_neq c _)) by done. cbn [negb].
  by rewrite <- !len_next, <- app_cons_assoc.
Qed.

(** A comment: [v] has been read of it. *)
Lemma com_inside s t r quote templen start :
  Forall (fun c => c <> 0) s -> scans t r ->
  forall u v fuel temp e1 e2 e3,
  (length s + length t + 4 < fuel)%nat ->
  (forall x w, (v ++ s) ++ bytes "--" <> x ++ bytes "-->" ++ w) ->
  [e1; e2; e3] = drop (length v) ([0; 0; 0] ++ v) ->
  finds u (s ++ bytes "-->" ++ t) (shift (s ++ bytes "-->") r)
    (tag_loop B caucus_url fuel ST_COM (u ++ s ++ bytes "-->" ++ t) (len u) temp quote templen start (e1, e2, e3)).
Proof.
  intros Hs Ht. induction Hs as [| c s Hc Hs IH]; intros u v fuel temp e1 e2 e3 Hf Hno He; cbn [length] in Hf.
  - change (bytes "-->") with [45; 45; 62]. change ([] ++ [45; 45; 62]) with [45; 45; 62].
    change ([] ++ [45; 45; 62] ++ t) with ([45; 45; 62] ++ t). apply finds_shift.
    do 3 (destruct fuel as [| fuel]; [lia |]). cbn [app].
    rewrite com_char, bool_decide_eq_false_2 by congruence. rewrite com_char, bool_decide_eq_false_2 by congruence.
    rewrite com_char, bool_decide_eq_true_2 by done. replace (((u ++ [45]) ++ [45]) ++ [62]) with (u ++ [45; 45; 62]) by (by rewrite <- !app_assoc).
    apply Ht. lia.
  - destruct fuel as [| fuel]; [lia |]. cbn [app]. rewrite com_char by done.
    assert (He' := ends_step _ c _ _ _ He).
    rewrite bool_decide_eq_false_2.
    2: { intros [= -> -> ->]. symmetry in He'. destruct (ends_read _ He') as [x Hx].
         apply (Hno x (s ++ bytes "--")). rewrite app_cons_assoc, Hx. by rewrite <- !app_assoc. }
    change (c :: s ++ bytes "-->") with ([c] ++ (s ++ bytes "-->")). rewrite <- (shift_shift [c] (s ++ bytes "-->") r). apply (finds_shift u [c]). apply (IH _ (v ++ [c])); [lia | | exact He'].
    by rewrite <- app_cons_assoc.
Qed.

Lemma no_cindex s b v w : b <> [] -> cindex s 0 b = -1 -> s <> v ++ b ++ w.
Proof.
  intros Hb E ->. unfold cindex in E. rewrite bool_decide_eq_false_2 in E by done.
  assert (Hl : 0 < len b) by (destruct b; [done | rewrite len_cons; len_pos; lia]).
  pose proof (findsub_none b (v ++ b ++ w) 0 ltac:(lia) E (len v)) as H. rewrite !len_app, to_nat_len, drop_app_length in H.
  cut (true = false); [done |]. rewrite <- H by (len_pos; lia). symmetry. apply prefixb_spec. by exists w.
Qed.

Lemma scans_com s t r : piece_ok (PCom s) -> scans t r -> scans (show_piece (PCom s) ++ t) (shift (show_piece (PCom s)) r).
Proof.
  intros [Hs Hno] Ht. cbn [show_piece]. rewrite <- !app_assoc. intros u fuel temp quote templen start ends Hf.
  rewrite !length_app in Hf. change (length (bytes "<!--")) with 4%nat in Hf. change (length (bytes "-->")) with 3%nat in Hf.
  rewrite <- shift_shift. apply finds_shift.
  do 4 (destruct fuel as [| fuel]; [lia |]). change (bytes "<!--") with [60; 33; 45; 45]. cbn [app].
  assert (Hb : forall q k ends, tag_loop B caucus_url (S (S (S (S fuel)))) ST_TEXT (u ++ 60 :: 33 :: 45 :: 45 :: s ++ bytes "-->" ++ t)
      (len u) temp q k start ends =
    tag_loop B caucus_url (S (S (S fuel))) ST_TAG ((u ++ [60]) ++ 33 :: 45 :: 45 :: s ++ bytes "-->" ++ t) (len (u ++ [60]))
      [] 0 (len (@nil Z)) (len u) ends).
  { intros q k ends'. cbn [tag_loop]. by rewrite cval_at, <- len_next, <- app_cons_assoc. }
  rewrite Hb. do 3 (rewrite tag_char by done; cbn [andb]).
  replace ((((u ++ [60]) ++ [33]) ++ [45]) ++ [45]) with (u ++ [60; 33; 45; 45]) by (by rewrite <- !app_assoc).
  apply (com_inside s t r _ _ _ Hs Ht _ []); [lia | | done].
  intros x w. by apply no_cindex.
Qed.

(** *** The scanner on a document *)

Fixpoint first_tag (ps : list piece) : option (text * text * text) :=
  match ps with
  | [] => None
  | PTag raw :: ps' => Some ([], raw, render ps')
  | p :: ps' => shift (show_piece p) (first_tag ps')
  end.

Lemma scans_render ps : Forall piece_ok ps -> scans (render ps) (first_tag ps).
Proof using Hnil.
  induction 1 as [| p ps Hp Hps IH]; [apply scans_nil |]. cbn [render flat_map]. fold (render ps).
  destruct p as [s | c | s | raw]; cbn [first_tag].
  - by apply scans_text.
  - by apply scans_esc.
  - by apply scans_com.
  - cbn [show_piece app]. rewrite <- app_assoc. by apply scans_tag.
Qed.

Lemma first_tag_split ps pre raw post :
  split_tag ps = (pre, Some (raw, post)) -> first_tag ps = Some (render pre, raw, render post).
Proof using Type.
  revert pre. induction ps as [| p ps IH]; intros pre E; cbn [split_tag] in E; [done |].
  destruct p; try (destruct (split_tag ps) as [pre' r'] eqn:Es; injection E as <- ->; cbn [first_tag];
    by rewrite (IH _ eq_refl)).
  by injection E as <- <- <-.
Qed.

Lemma first_tag_none ps pre : split_tag ps = (pre, None) -> first_tag ps = None.
Proof.
  revert pre. induction ps as [| p ps IH]; intros pre E; cbn [split_tag] in E; [done |].
  destruct p; try (destruct (split_tag ps) as [pre' r'] eqn:Es; injection E as <- ->; cbn [first_tag];
    by rewrite (IH _ eq_refl)).
  done.
Qed.

Lemma next_tag_doc u ps : Forall piece_ok ps ->
  match split_tag ps with
  | (pre, Some (raw, post)) =>
      let u' := u ++ render pre ++ show_piece (PTag (fix_tag raw)) in
      next_tag B caucus_url (u ++ render ps) (len u) = Some (len (u ++ render pre), tag_name raw, u' ++ render post, len u')
  | (pre, None) => exists pos', next_tag B caucus_url (u ++ render ps) (len u) = Some (-1, [], u ++ render ps, pos')
  end.
Proof using Hnil.
  intros Hps. pose proof (scans_render ps Hps u (3 + Z.to_nat (len (u ++ render ps) - len u))%nat [] 0 0 0 (0, 0, 0)) as H.
  unfold next_tag. rewrite len_app in *.
  assert (Hf : (length (render ps) + 1 < 3 + Z.to_nat (len u + len (render ps) - len u))%nat) by (unfold len; lia).
  specialize (H Hf). destruct (split_tag ps) as [pre [[raw post] |]] eqn:Es.
  - rewrite (first_tag_split _ _ _ _ Es) in H. unfold finds in H. rewrite H, !len_app. cbn [show_piece].
    rewrite len_cons, len_app, <- !app_assoc. cbn [app]. rewrite <- app_assoc. change (len [62]) with 1. do 2 f_equal. lia.
  - rewrite (first_tag_none _ _ Es) in H. exact H.
Qed.

(** *** The filter on a document *)

Lemma find_index table w : len table <= 32766 -> find B table w = Some (word_index B table w).
Proof. apply tablefind_index. Qed.

Fixpoint remove_first (n : text) (l : list text) : list text :=
  match l with
  | [] => []
  | m :: l' => if bool_decide (m = n) then l' else m :: remove_first n l'
  end.

(** What the filter makes of a document: the pieces it keeps, and the names
    that are left open.  [state] is -1 or the number of the element that is
    skipped.  [cut] holds behind the tag that ends a skipped element: the next
    character is lost, whatever it is. *)
Definition cut_off (cut : bool) (s : text) : text := if cut then tail s else s.

Fixpoint keep_doc (skipstart skip_end ignore : text) (state : Z) (cut : bool) (ps : list piece)
    (out : text) (open : list text) : text * list text :=
  match ps with
  | [] => (out, open)
  | PTag raw :: ps' =>
      let n := tag_name raw in
      let go := keep_doc skipstart skip_end ignore in
      if state =? -1 then
        if 0 <=? word_index B ignore n then go (-1) false ps' out open
        else if 0 <=? word_index B skipstart n then go (word_index B skipstart n) false ps' out open
        else
          let out := out ++ cut_off cut (show_piece (PTag (fix_tag raw))) in
          if cval n 0 =? 47 then go (-1) false ps' out (remove_first (tail n) open)
          else go (-1) false ps' out (if word_index B noclose n <? 0 then open ++ [n] else open)
      else if state =? word_index B skip_end n then go (-1) true ps' out open
      else go state false ps' out open
  | p :: ps' =>
      let go := keep_doc skipstart skip_end ignore in
      if state =? -1 then go (-1) (cut && bool_decide (show_piece p = [])) ps' (out ++ cut_off cut (show_piece p)) open
      else go state false ps' out open
  end.

Definition closers (open : list text) : text := flat_map closer open.

(** *** Closing tags *)

Definition clean (s : text) : Prop := Forall (fun c => c <> 60 /\ c <> 62) s.

Lemma findsub_shift b s i j : 0 <= j -> 0 <= i ->
  findsub b s (j + i) = (if findsub b s j <? 0 then -1 else findsub b s j + i).
Proof.
  revert j. induction s as [| c s IH]; intros j Hj Hi; [done |]. cbn [findsub].
  destruct (prefixb b (c :: s)).
  - rewrite (proj2 (Z.ltb_ge _ _)) by lia. done.
  - replace (j + i + 1) with (j + 1 + i) by lia. apply IH; lia.
Qed.

Lemma findsub_no_bracket b w t i : Forall (fun c => c <> 60) w -> findsub (60 :: b) (w ++ t) i = findsub (60 :: b) t (i + len w).
Proof.
  intros Hw. revert i. induction Hw as [| c w Hc Hw IH]; intros i; [by rewrite len_nil, Z.add_0_r |].
  cbn [app findsub prefixb]. rewrite (proj2 (Z.eqb_neq 60 c)) by done. cbn [andb]. rewrite IH, len_cons. f_equal. lia.
Qed.

(** A name up to its bracket is one name. *)
Lemma clean_prefix x m t t' : clean x -> clean m -> prefixb (x ++ 62 :: t) (m ++ 62 :: t') = true -> x = m.
Proof.
  intros Hx. revert m. induction Hx as [| c x [_ Hc] Hx IH]; intros m Hm E.
  - destruct Hm as [| d m [_ Hd] Hm]; [done |]. cbn [app prefixb] in E. apply andb_true_iff in E as [E _]. lia.
  - destruct Hm as [| d m [_ Hd] Hm]; cbn [app prefixb] in E; apply andb_true_iff in E as [E1 E2]; [lia |].
    apply Z.eqb_eq in E1 as ->. f_equal. by apply IH.
Qed.

Lemma closer_cindex x m t : clean x -> clean m -> x <> m ->
  cindex (closer m ++ t) 0 (closer x) =
  (if cindex t 0 (closer x) <? 0 then -1 else len (closer m) + cindex t 0 (closer x)).
Proof.
  intros Hx Hm Hne. unfold cindex. rewrite !bool_decide_eq_false_2 by done. rewrite !(drop_0 : forall l : text, drop (Z.to_nat 0) l = l).
  change (closer x) with (60 :: 47 :: x ++ [62; 32]). change (closer m) with (60 :: 47 :: m ++ [62; 32]).
  rewrite <- app_comm_cons.
  assert (Hp : prefixb (60 :: 47 :: x ++ [62; 32]) (60 :: (47 :: m ++ [62; 32]) ++ t) = false).
  { apply not_true_is_false. intros E. apply Hne. cbn [prefixb app Z.eqb Pos.eqb andb] in E. rewrite <- app_assoc in E.
    by apply clean_prefix in E. }
  assert (Hs : forall b c s i, prefixb b (c :: s) = false -> findsub b (c :: s) i = findsub b s (i + 1)) by (intros ? ? ? ? E; cbn [findsub]; by rewrite E).
  rewrite Hs, findsub_no_bracket by first [exact Hp | constructor; [done |]; apply Forall_app; split; [eapply Forall_impl; [exact Hm |]; by intros c [] | by repeat constructor]].
  replace (0 + 1 + len (47 :: m ++ [62; 32])) with (0 + len (60 :: 47 :: m ++ [62; 32])) by (rewrite (len_cons 60); lia).
  rewrite findsub_shift by (len_pos; lia). destruct (_ <? 0); lia.
Qed.

Lemma alter_closers x open : clean x -> Forall clean open ->
  default (closers open) (alter_first (closers open) 0 (closer x) []) = closers (remove_first x open).
Proof.
  intros Hx. induction 1 as [| m open Hm Hopen IH]; [done |]. cbn [closers flat_map remove_first].
  fold (closers open). destruct (decide (m = x)) as [-> | Hne].
  - rewrite bool_decide_eq_true_2 by done. unfold alter_first.
    assert (E : cindex (closer x ++ closers open) 0 (closer x) = 0).
    { unfold cindex. rewrite bool_decide_eq_false_2 by done. rewrite (drop_0 : forall l : text, drop (Z.to_nat 0) l = l).
      destruct (closer x ++ closers open) as [| c l] eqn:El; [done |]. cbn [findsub].
      assert (Hp : prefixb (closer x) (c :: l) = true) by (apply prefixb_spec; rewrite <- El; by eexists).
      by rewrite Hp. }
    rewrite E. cbn [Z.ltb Z.compare default from_option id Z.to_nat take app Z.add]. apply drop_len_app.
  - rewrite bool_decide_eq_false_2 by done. cbn [closers flat_map]. fold (closers (remove_first x open)). rewrite <- IH.
    unfold alter_first. rewrite closer_cindex by done.
    destruct (Z.ltb_spec (cindex (closers open) 0 (closer x)) 0) as [Hlt | Hge]; [done |].
    rewrite (proj2 (Z.ltb_ge _ _)) by (len_pos; lia). cbn [default from_option id app].
    rewrite <- !Z.add_assoc, !(Z2Nat.inj_add (len (closer m))), to_nat_len by (len_pos; lia).
    by rewrite take_app_add, drop_app_add, <- app_assoc.
Qed.

Lemma tag_name_clean raw : Forall (fun c => c <> 0 /\ c <> 60 /\ c <> 62) raw -> clean (tag_name raw).
Proof.
  intros Hr. unfold tag_name, jixreduce, strlower, ntoken. apply Forall_map.
  assert (Hw : clean (token_result B 1 raw).2).
  { pose proof (token_result_spec B 1 raw) as H. destruct (token_result B 1 raw) as [p w].
    destruct H as [[_ ->] | (_ & _ & _ & t & Ht & _)]; [constructor |]. cbn [snd].
    eapply Forall_drop in Hr. rewrite Ht in Hr. apply Forall_app in Hr as [Hr _].
    eapply Forall_impl; [exact Hr |]. by intros c (_ & H1 & H2). }
  eapply Forall_impl; [exact Hw |]. intros c [H1 H2]. cbn beta. destruct ((65 <=? c) && (c <=? 90)) eqn:E; [| done]. lia.
Qed.

Lemma closed_closer n : cval n 0 = 47 -> closed_by n = closer (tail n).
Proof. destruct n as [| c n]; [done |]. change (cval (c :: n) 0) with c. by intros ->. Qed.

Lemma clean_tail n : clean n -> clean (tail n).
Proof. intros []; [constructor | done]. Qed.

Lemma clean_remove n open : Forall clean open -> Forall clean (remove_first n open).
Proof. induction 1 as [| m open Hm Hopen IH]; cbn [remove_first]; [done |]. case_bool_decide; [done |]. by constructor. Qed.

Lemma closers_snoc open n : closers (open ++ [n]) = closers open ++ closer n.
Proof. unfold closers. rewrite flat_map_app. cbn [flat_map]. by rewrite app_nil_r. Qed.

(** *** The loop on a document *)

Section loop.
Context (skipstart skip_end ignore : text).
Context (Hstart : len skipstart <= 32766) (Hend : len skip_end <= 32766) (Hignore : len ignore <= 32766).
#[local] Abbreviation keep := (keep_doc skipstart skip_end ignore).

(** What has been scanned is [u], of which [out] is to be kept; [result] lacks
    the part from [marker] on. *)
Definition kept (u : text) (marker state : Z) (cut : bool) (result out : text) : Prop :=
  if state =? -1 then
    if cut then marker = len u + 1 /\ out = result
    else exists u0 w, u = u0 ++ w /\ marker = len u0 /\ out = result ++ w
  else cut = false /\ out = result.

Lemma kept_sub u marker cut result out t : kept u marker (-1) cut result out ->
  result ++ csub (u ++ t) marker (len u - marker) = out.
Proof.
  unfold kept. cbn [Z.eqb Pos.eqb]. destruct cut.
  - intros [-> ->]. replace (len u - (len u + 1)) with (-1) by lia. apply app_nil_r.
  - intros (u0 & w & -> & -> & ->). f_equal. rewrite len_app. replace (len u0 + len w - len u0) with (len w) by lia.
    unfold csub. rewrite (proj2 (Z.eqb_neq _ _)) by (unfold ALLCHARS; len_pos; lia).
    by rewrite !to_nat_len, <- app_assoc, drop_app_length, take_app_length.
Qed.

Lemma kept_end u marker cut result out : kept u marker (-1) cut result out -> result ++ csub u marker ALLCHARS = out.
Proof.
  rewrite csub_from. unfold kept. cbn [Z.eqb Pos.eqb]. destruct cut.
  - intros [-> ->]. rewrite drop_ge by (unfold len; lia). apply app_nil_r.
  - intros (u0 & w & -> & -> & ->). by rewrite to_nat_len, drop_app_length.
Qed.

Lemma kept_app u marker cut result out t : kept u marker (-1) cut result out ->
  kept (u ++ t) marker (-1) (cut && bool_decide (t = [])) result (out ++ cut_off cut t).
Proof.
  unfold kept. cbn [Z.eqb Pos.eqb]. destruct cut; cbn [andb cut_off].
  - intros [-> ->]. destruct t as [| c t]; [by rewrite !app_nil_r |]. cbn [tail].
    rewrite bool_decide_eq_false_2 by done. exists (u ++ [c]), t. by rewrite (len_next u c), app_cons_assoc.
  - intros (u0 & w & -> & -> & ->). exists u0, (w ++ t). by rewrite <- !app_assoc.
Qed.

(** The pieces before a tag. *)
Lemma kept_pre pre rest u marker state cut result out open :
  Forall (fun p => is_tag p = false) pre -> kept u marker state cut result out ->
  exists cut' out', kept (u ++ render pre) marker state cut' result out' /\
    keep state cut (pre ++ rest) out open = keep state cut' rest out' open.
Proof.
  intros Hpre. revert u cut out. induction Hpre as [| p pre Hp Hpre IH]; intros u cut out Hk.
  - exists cut, out. by rewrite app_nil_r.
  - cbn [render flat_map]. fold (render pre). rewrite app_assoc.
    assert (E : keep state cut ((p :: pre) ++ rest) out open =
      if state =? -1 then keep (-1) (cut && bool_decide (show_piece p = [])) (pre ++ rest) (out ++ cut_off cut (show_piece p)) open
      else keep state false (pre ++ rest) out open) by by destruct p.
    rewrite E. clear E. destruct (Z.eqb_spec state (-1)) as [-> | Hs].
    + apply (IH (u ++ show_piece p)). by apply kept_app.
    + apply (IH (u ++ show_piece p) false). unfold kept in *. rewrite (proj2 (Z.eqb_neq _ _)) in * by done. by destruct Hk.
Qed.

Fixpoint tags (ps : list piece) : nat :=
  match ps with
  | [] => 0
  | p :: ps' => (if is_tag p then 1 else 0) + tags ps'
  end.

Lemma tags_app ps qs : tags (ps ++ qs) = (tags ps + tags qs)%nat.
Proof. induction ps as [| p ps IH]; [done |]. cbn [app tags]. lia. Qed.

(** One more tag is done: the induction hypothesis on the rest. *)
#[local] Ltac on_rest IH Hpost := eapply IH; [lia | exact Hpost | try assumption | lia | ].

(** The loop on the rest [ps] of a document gives what [keep_doc] keeps, and
    the tags that close what is open. *)
Lemma filter_doc fuel : forall ps u marker state cut result out open,
  (tags ps < fuel)%nat -> Forall piece_ok ps -> Forall clean open -> -1 <= state -> kept u marker state cut result out ->
  filter_loop B caucus_url fuel skipstart skip_end ignore (u ++ render ps) (len u) marker state result (closers open)
  = Some ((keep state cut ps out open).1 ++ closers (keep state cut ps out open).2).
Proof.
  induction fuel as [| fuel IH]; intros ps u marker state cut result out open Hf Hps Hopen Hst Hk; [lia |].
  pose proof (next_tag_doc u ps Hps) as Hn. cbn [filter_loop].
  destruct (split_tag ps) as [pre [[raw post] |]] eqn:Es; apply split_tag_spec in Es as [Hpre ->].
  - destruct (kept_pre pre (PTag raw :: post) u marker state cut result out open Hpre Hk) as (cut' & out' & Hk' & ->).
    rewrite Hn. cbn [mbind option_bind]. rewrite (proj2 (Z.ltb_ge _ _)) by (pose proof (len_nonneg (u ++ render pre)); lia).
    rewrite tags_app in Hf. cbn [tags is_tag] in Hf. apply Forall_app in Hps as [_ Hps].
    apply Forall_cons in Hps as [Hraw Hpost].
    set (tag := show_piece (PTag (fix_tag raw))) in *. rewrite (app_assoc u). set (u1 := u ++ render pre) in *.
    assert (Hclean := tag_name_clean raw (proj1 Hraw)). cbn [keep_doc]. fold tag.
    destruct (Z.eqb_spec state (-1)) as [-> | Hs].
    + rewrite (find_index ignore) by done. cbn [mbind option_bind].
      assert (Hsub : result ++ csub ((u1 ++ tag) ++ render post) marker (len u1 - marker) = out')
        by (rewrite <- app_assoc; by apply (kept_sub _ _ cut')).
      destruct (0 <=? word_index B ignore (tag_name raw)).
      { rewrite Hsub. on_rest IH Hpost. exists (u1 ++ tag), []. by rewrite !app_nil_r. }
      rewrite (find_index skipstart) by done. cbn [mbind option_bind].
      destruct (Z.leb_spec 0 (word_index B skipstart (tag_name raw))) as [Hge | _].
      { rewrite Hsub. on_rest IH Hpost. unfold kept. by rewrite (proj2 (Z.eqb_neq _ _)) by lia. }
      apply (kept_app _ _ _ _ _ tag) in Hk'.
      replace (cut' && bool_decide (tag = [])) with false in Hk' by (by rewrite andb_false_r).
      destruct (Z.eqb_spec (cval (tag_name raw) 0) 47) as [H47 | _].
      { rewrite (closed_closer _ H47), alter_closers; [| by apply clean_tail | done].
        on_rest IH Hpost; [by apply clean_remove | exact Hk']. }
      rewrite (find_index noclose) by (by vm_compute). cbn [mbind option_bind].
      destruct (_ <? 0).
      { rewrite <- closers_snoc. on_rest IH Hpost; [| exact Hk']. apply Forall_app. by repeat constructor. }
      on_rest IH Hpost. exact Hk'.
    + rewrite (find_index skip_end) by done. cbn [mbind option_bind]. unfold kept in Hk'.
      rewrite (proj2 (Z.eqb_neq _ _)) in Hk' by done. destruct Hk' as [_ ->].
      destruct (state =? word_index B skip_end (tag_name raw)).
      { by on_rest IH Hpost. }
      on_rest IH Hpost. unfold kept. by rewrite (proj2 (Z.eqb_neq _ _)).
  - destruct (kept_pre pre [] u marker state cut result out open Hpre Hk) as (cut' & out' & Hk' & ->).
    destruct Hn as [pos' ->]. cbn [mbind option_bind keep_doc fst snd]. rewrite app_nil_r in *.
    change (-1 <? 0) with true. cbv iota. destruct (Z.eqb_spec state (-1)) as [-> | Hs].
    + by rewrite (kept_end _ _ _ _ _ Hk').
    + unfold kept in Hk'. rewrite (proj2 (Z.eqb_neq _ _)) in Hk' by done. by destruct Hk' as [_ ->].
Qed.
End loop.

Lemma tags_render ps : (tags ps <= length (render ps))%nat.
Proof.
  induction ps as [| p ps IH]; [done |]. cbn [tags render flat_map]. fold (render ps). rewrite length_app.
  destruct p; cbn [is_tag show_piece length]; lia.
Qed.

(** A tag that the filters let through. *)
Definition allowed (skipstart ignore : text) (p : piece) : Prop :=
  match p with
  | PTag raw => word_index B ignore (tag_name raw) < 0 /\ word_index B skipstart (tag_name raw) < 0
  | _ => True
  end.

(** A skipped element is followed by a text, or by nothing. *)
Definition starts_text (ps : list piece) : bool :=
  match ps with [] | PText (_ :: _) :: _ => true | _ => false end.
Fixpoint text_behind (skip_end : text) (ps : list piece) : bool :=
  match ps with
  | [] => true
  | PTag raw :: ps' =>
      (if 0 <=? word_index B skip_end (tag_name raw) then starts_text ps' else true) && text_behind skip_end ps'
  | _ :: ps' => text_behind skip_end ps'
  end.

Lemma text_behind_tail skip_end p ps : text_behind skip_end (p :: ps) = true -> text_behind skip_end ps = true.
Proof using Type. destruct p; [done .. |]. cbn [text_behind]. intros H. by apply andb_true_iff in H as [_ H]. Qed.

Lemma keep_allowed skipstart skip_end ignore ps : Forall piece_ok ps -> text_behind skip_end ps = true ->
  forall state cut qs open, -1 <= state -> (cut = true -> starts_text ps = true) ->
  Forall piece_ok qs -> Forall (allowed skipstart ignore) qs ->
  exists qs', (keep_doc skipstart skip_end ignore state cut ps (render (map fix_piece qs)) open).1 = render (map fix_piece qs') /\
    Forall piece_ok qs' /\ Forall (allowed skipstart ignore) qs'.
Proof using Type.
  assert (Hone : forall qs p, render (map fix_piece qs) ++ show_piece (fix_piece p) = render (map fix_piece (qs ++ [p])))
    by (intros; unfold render; rewrite map_app, flat_map_app; cbn [map flat_map]; by rewrite app_nil_r).
  induction 1 as [| p ps Hp Hps IH]; intros Hb state cut qs open Hst Hcut Hok Hal; [by exists qs |].
  specialize (IH (text_behind_tail _ _ _ Hb)).
  assert (Hadd : forall q op, piece_ok q -> allowed skipstart ignore q -> exists qs',
    (keep_doc skipstart skip_end ignore (-1) false ps (render (map fix_piece qs) ++ show_piece (fix_piece q)) op).1 = render (map fix_piece qs') /\
    Forall piece_ok qs' /\ Forall (allowed skipstart ignore) qs').
  { intros q op Hq Ha. rewrite Hone. apply IH; [lia | done | by apply Forall_app; repeat constructor ..]. }
  assert (Hskip : forall st op, -1 <= st -> exists qs',
    (keep_doc skipstart skip_end ignore st false ps (render (map fix_piece qs)) op).1 = render (map fix_piece qs') /\
    Forall piece_ok qs' /\ Forall (allowed skipstart ignore) qs') by (intros; by apply IH).
  destruct p as [s | c | s | raw]; cbn [keep_doc].
  - destruct (state =? -1); [| by apply Hskip]. destruct cut; cbn [andb cut_off]; [| by apply (Hadd (PText s))].
    destruct s as [| c s]; [by specialize (Hcut eq_refl) |]. apply (Hadd (PText s)); [| done].
    by apply Forall_cons in Hp as [_ Hp].
  - destruct (state =? -1); [| by apply Hskip]. destruct cut; [by specialize (Hcut eq_refl) |]. by apply (Hadd (PEsc c)).
  - destruct (state =? -1); [| by apply Hskip]. destruct cut; [by specialize (Hcut eq_refl) |]. by apply (Hadd (PCom s)).
  - destruct cut; [by specialize (Hcut eq_refl) |]. destruct (Z.eqb_spec state (-1)) as [-> | Hs].
    + destruct (Z.leb_spec 0 (word_index B ignore (tag_name raw))); [by apply Hskip |].
      destruct (Z.leb_spec 0 (word_index B skipstart (tag_name raw))); [apply Hskip; lia |].
      cbn [cut_off]. destruct (cval (tag_name raw) 0 =? 47); by apply (Hadd (PTag raw)).
    + destruct (Z.eqb_spec state (word_index B skip_end (tag_name raw))) as [E | _]; [| by apply Hskip].
      apply IH; [lia | | done ..]. intros _. cbn [text_behind] in Hb. rewrite (proj2 (Z.leb_le _ _)) in Hb by lia.
      by apply andb_true_iff in Hb as [Hb _].
Qed.
End documents.

(** ** The filter of the readers' HTML *)

Lemma filter_all B caucus_url skipstart skip_end ignore ps :
  caucus_url [] = None -> len skipstart <= 32766 -> len skip_end <= 32766 -> len ignore <= 32766 -> Forall piece_ok ps ->
  filter_loop B caucus_url (2 + length (render ps)) skipstart skip_end ignore (render ps) 0 0 (-1) [] [] =
  let '(out, open) := keep_doc B caucus_url skipstart skip_end ignore (-1) false ps [] [] in Some (out ++ closers open).
Proof.
  intros Hnil H1 H2 H3 Hok. pose proof (tags_render ps).
  pose proof (filter_doc B caucus_url Hnil skipstart skip_end ignore H1 H2 H3 (2 + length (render ps)) ps [] 0 (-1) false [] [] []) as H'.
  destruct (keep_doc _ _ _ _ _ _ _ _ _ _) as [out open]. apply H'; try done; [lia |]. by exists [], [].
Qed.

(** C26: On a document of texts, protected characters, comments and tags (which
    is what [func_rhtml] meets unless a tag or a comment is not closed, a tag
    has an angle bracket inside or a quote left open, or a backslash is the
    last character), without text properties, the filter terminates and gives
    exactly what [keep_doc] keeps -- without the ignored tags and the skipped elements, with
    the addresses of links that [caucus_url] translates -- followed by the tags
    that close what the document leaves open, in the order of their opening.
    [keep_doc] also loses a character behind each skipped element, as the code
    does.  If that is a character of a text, behind every such element
    ([text_behind]), then what is kept is again a document, but for the new
    addresses, in which no tag is [html], [head], [title], [body], [form],
    [script] or [applet].  Otherwise this fails: where a tag or a backslash
    follows a skipped element, forbidden tags can get through
    ([rhtml_backslash]).  The empty address is not translated (caucusurl.c). *)
Theorem rhtml_keeps_document (B : list Z) (caucus_url : text -> option text) (ps : list piece)
    (Hurl : caucus_url [] = None) (Hok : Forall piece_ok ps) :
  let '(out, open) := keep_doc B caucus_url (skip_starts 0) (skip_ends 0) ignored (-1) false ps [] [] in
  func_rhtml B caucus_url (render ps) false = Some (out ++ closers open) /\
  (text_behind B (skip_ends 0) ps = true -> exists qs, out = render (map (fix_piece B caucus_url) qs) /\
     Forall piece_ok qs /\ Forall (allowed B (skip_starts 0) ignored) qs).
Proof.
  pose proof (filter_all B caucus_url (skip_starts 0) (skip_ends 0) ignored ps Hurl) as H1.
  pose proof (keep_allowed B caucus_url (skip_starts 0) (skip_ends 0) ignored ps Hok) as H2.
  destruct (keep_doc _ _ _ _ _ _ _ _ _ _) as [out open] eqn:E. split; [by apply H1 |].
  intros Hb. destruct (H2 Hb (-1) false [] [] ltac:(lia) ltac:(done) ltac:(constructor) ltac:(constructor)) as (qs & Eq & Hq).
  change (render (map (fix_piece B caucus_url) [])) with (@nil Z) in Eq. rewrite E in Eq. by exists qs.
Qed.

Definition sample_page : list piece :=
  [PTag (bytes "b"); PText (bytes "Hi"); PTag (bytes "/b"); PCom (bytes " a > b "); PTag (bytes "I class=x");
   PTag (bytes "A href='/caucus/demo' title='x'"); PText (bytes "you"); PTag (bytes "/A"); PTag (bytes "script"); PText (bytes "evil()");
   PTag (bytes "/script"); PText (bytes " there"); PEsc 60; PTag (bytes "body"); PText (bytes "!")].
(** The same with double quotes, and an address that is translated. *)
Definition quoted (p : piece) : piece :=
  match p with PTag raw => PTag (map (fun c => if c =? 39 then 34 else c) raw) | _ => p end.
Definition demo_url (u : text) : option text :=
  if bool_decide (u = bytes "/caucus/demo") then Some (bytes "/sweb/confhome.cml?7") else None.
Definition sample_kept : text :=
  map (fun c => if c =? 39 then 34 else c)
    (bytes "<b>Hi</b><!-- a > b --><I class=x><A href='/sweb/confhome.cml?7' title='x'>you</A>there\<!").

Lemma rhtml_keeps_document_witness :
  func_rhtml blanks3 demo_url (render (map quoted sample_page)) false = Some (sample_kept ++ closers [bytes "i"]) /\
  (text_behind blanks3 (skip_ends 0) (map quoted sample_page) = true -> exists qs,
     sample_kept = render (map (fix_piece blanks3 demo_url) qs) /\
     Forall piece_ok qs /\ Forall (allowed blanks3 (skip_starts 0) ignored) qs).
Proof.
  assert (E : keep_doc blanks3 demo_url (skip_starts 0) (skip_ends 0) ignored (-1) false (map quoted sample_page) [] [] =
    (sample_kept, [bytes "i"])) by (vm_compute; reflexivity).
  pose proof (rhtml_keeps_document blanks3 demo_url (map quoted sample_page)) as H. rewrite E in H. apply H; [by vm_compute |].
  apply (bool_decide_unpack _). vm_compute. exact I.
Defined.

Example sample_text_behind : text_behind blanks3 (skip_ends 0) (map quoted sample_page) = true.
Proof. by vm_compute. Qed.

(** Behind a skipped element a tag loses its bracket. *)
Example rhtml_bracket : func_rhtml blanks3 no_url (bytes "<form></form><b>Hi</b>") false = Some (bytes "b>Hi</b>").
Proof. by vm_compute. Qed.
