(* ===== verification/Arrays.v ===== *)
(** Arrays of CML (src/CV2/sweb/funcar.c): arrays of several dimensions whose
    cells are texts.  Up to fifty are in memory; the others are in files, one
    for each array.  [None] is undefined behaviour: an access outside an array.
    Files can be locked and made, and memory does not run out. *)
From stdpp Require Import gmap list_numbers.
From S2P Require Import Prelude Memory Chix ChixCore ChixEdit ChixSearch ChixParse Vartab Str Numbers Html.

Definition AR_ROWS : Z := 50.
Definition AR_NAME : Z := 100.
Definition AR_DIMS : Z := 10.

(** An array; [ar_d] are the sizes of its dimensions. *)
Record array_t := mkArray {
  ar_name : text; ar_d : list Z; ar_cell : list text; ar_changed : bool; ar_used : Z }.

Definition set_cell (cell : list text) (a : array_t) : array_t := mkArray (ar_name a) (ar_d a) cell (ar_changed a) (ar_used a).
Definition set_changed (changed : bool) (a : array_t) : array_t := mkArray (ar_name a) (ar_d a) (ar_cell a) changed (ar_used a).
Definition set_time (used : Z) (a : array_t) : array_t := mkArray (ar_name a) (ar_d a) (ar_cell a) (ar_changed a) used.

(** The table of arrays, the files, and what has been logged. *)
Record ar_state := mkAr {
  ars : list (option array_t); ay_files : gmap text (list text); ay_errors : list (text * text) }.

Definition set_ars (x : list (option array_t)) (st : ar_state) : ar_state := mkAr x (ay_files st) (ay_errors st).
Definition set_files (f : gmap text (list text)) (st : ar_state) : ar_state := mkAr (ars st) f (ay_errors st).

(** [array_err]: the name and the error. *)
Definition array_err (name : text) (err : string) (st : ar_state) : ar_state :=
  mkAr (ars st) (ay_files st) (ay_errors st ++ [(name, bytes err)]).

(** ** Arrays *)

(** [array_make]: the first size, and the others up to one that is not greater
    than 0. *)
Fixpoint sizes_of (d : list Z) : list Z :=
  match d with
  | [] => []
  | n :: d => if 0 <? n then n :: sizes_of d else []
  end.

Definition array_make (now : Z) (name : text) (d : list Z) : option array_t :=
  match d with
  | [] => None
  | d0 :: d =>
      let ncell := foldl (fun ncell n => i32 (ncell * n)) d0 (sizes_of d) in
      if ncell <=? 0 then None
      else Some (mkArray name (d0 :: sizes_of d) (replicate (Z.to_nat ncell) []) false now)
  end.

(** [array_index], from cell [nc] on: -1 if a coordinate is too great. *)
Fixpoint array_index (sizes d : list Z) (nc : Z) : option Z :=
  match sizes with
  | [] => Some nc
  | n :: sizes =>
      match d with
      | [] => None
      | c :: d => if n <=? c then Some (-1) else array_index sizes d (i32 (nc * n + c))
      end
  end.

(** The place of a cell, as [copy_insert] and [copy_remove] compute it. *)
Definition place (sizes coords : list Z) : Z := foldl (fun n p => n * p.1 + p.2) 0 (zip sizes coords).

(** A loop over [i], from 0 up to [n]. *)
Fixpoint for_rows {A} (f : Z -> A -> option A) (n : nat) (i : Z) (x : A) : option A :=
  match n with
  | O => Some x
  | S n' => y ← f i x; for_rows f n' (i + 1) y
  end.

Section copy.
(** The cells and sizes of the source, the sizes of the target, and which rows
    are left out and where the others go. *)
Context (cells : list text) (src_d trg_d : list Z) (skip : Z -> Z -> bool) (offset : Z -> Z -> Z).

(** The vector case, for one cell. *)
Definition copy_cell (coords : list Z) (trg : list text) : option (list text) :=
  let sn := place src_d coords in
  let tn := place trg_d (imap (fun j c => offset (Z.of_nat j) c + c) coords) in
  v ← zget cells sn; zset trg tn v.

Fixpoint copy_rows (rest : list Z) (coords : list Z) (trg : list text) : option (list text) :=
  match rest with
  | [] => copy_cell coords trg
  | n :: rest =>
      for_rows (fun i trg =>
        if skip (len coords) i then Some trg else copy_rows rest (coords ++ [i]) trg) (Z.to_nat n) 0 trg
  end.
End copy.

Definition copy_insert (src : array_t) (trg_d : list Z) (dinsert iinsert : Z) (trg : list text) : option (list text) :=
  copy_rows (ar_cell src) (ar_d src) trg_d (fun _ _ => false)
    (fun j c => if (j =? dinsert) && (iinsert <=? c) then 1 else 0) (ar_d src) [] trg.

Definition copy_remove (src : array_t) (trg_d : list Z) (dremove iremove : Z) (trg : list text) : option (list text) :=
  copy_rows (ar_cell src) (ar_d src) trg_d (fun j i => (j =? dremove) && (i =? iremove))
    (fun j c => if (j =? dremove) && (iremove <? c) then -1 else 0) (ar_d src) [] trg.

(** One size changed by [n]: the code has twenty numbers, of which those behind
    the sizes are not used. *)
Definition resized (d : list Z) (i n : Z) : option (list Z) :=
  if (i <? 0) || (20 <=? i) then None else Some (alter (fun x => x + n) (Z.to_nat i) d).

(** The array that takes the place of [src]. *)
Definition insert_row (now : Z) (name : text) (src : array_t) (dinsert iinsert : Z) : option array_t :=
  d ← resized (ar_d src) dinsert 1;
  ap ← array_make now name d;
  cell ← copy_insert src d dinsert iinsert (ar_cell ap);
  Some (set_cell cell (set_changed true ap)).

Definition remove_row (now : Z) (name : text) (src : array_t) (dremove iremove : Z) : option array_t :=
  d ← resized (ar_d src) dremove (-1);
  ap ← array_make now name d;
  cell ← copy_remove src d dremove iremove (ar_cell ap);
  Some (set_cell cell (set_changed true ap)).

(** ** Arguments *)

Section blanks.
Context (B : list Z).

Definition nth_arg (n : Z) (arg : text) : text := (token_result B n arg).2.

(** The text from there on. *)
Definition nth_rest (n : Z) (arg : text) : text :=
  let p := (token_result B n arg).1 in if p <? 0 then [] else drop (Z.to_nat p) arg.

(** The numbers behind the name: up to a word that is none, or [maxdim]. *)
Fixpoint arg_nums (maxdim : nat) (ws : list (Z * text)) : list Z :=
  match maxdim, ws with
  | S maxdim, (_, w) :: ws =>
      let '(v, i) := int4_result B w 0 in
      if i =? 0 then [] else v :: arg_nums maxdim ws
  | _, _ => []
  end.

(** [array_args]: the name and the numbers; behind them the code has -1. *)
Definition array_args (arg : text) : text * list Z :=
  (take (Z.to_nat (AR_NAME - 1)) (nth_arg 1 arg), arg_nums (Z.to_nat AR_DIMS) (tail (words B arg))).

(** ** Files *)

(** [unit_write]: a text that starts with byte 1 is not written. *)
Definition put (s : text) : text := if cval s 0 =? 1 then [] else s.

(** The lines of a cell, and how the last one ended. *)
Fixpoint cell_lines (fuel : nat) (cell : text) (pos how0 : Z) : list text * Z :=
  match fuel with
  | O => ([], how0)
  | S fuel' =>
      let '(how1, word, pos) := nextline_result cell pos in
      if 0 <? how1 then let '(ls, how0) := cell_lines fuel' cell pos how1 in (word :: ls, how0) else ([], how0)
  end.

Definition store_cell (i : Z) (cell : text) : list text :=
  if cval cell 0 =? 0 then [] else
  let '(ls, how0) := cell_lines (S (length cell)) cell 0 0 in
  show i :: map (fun w => 32 :: put w) ls ++ (if how0 =? 2 then [[32]] else []).

Definition stored_lines (a : array_t) : list text :=
  [show (len (ar_d a)) ++ 32 :: show (len (ar_cell a)); ints_text (ar_d a); []; []; []] ++
  concat (imap (fun i cell => store_cell (Z.of_nat i) cell) (ar_cell a)).

(** [array_store]: the array, and the files. *)
Definition array_store (now : Z) (a : array_t) (st : ar_state) : array_t * ar_state :=
  (set_time now a, set_files (<[ar_name a := stored_lines a]> (ay_files st)) st).

(** The loop over the lines of the cells; [first] has no value at first. *)
Fixpoint load_cells (lines : list text) (nc : Z) (first : option bool) (cell : list text) : option (list text) :=
  match lines with
  | [] => Some cell
  | word :: lines =>
      if negb (cval word 0 =? 32) then load_cells lines (int4_result B word 0).1 (Some true) cell
      else
        first ← first;
        old ← zget cell nc;
        cell ← zset cell nc (old ++ (if first : bool then [] else [10]) ++ csub word 1 ALLCHARS);
        load_cells lines nc (Some false) cell
  end.

(** [array_load]: [Some None] if there is no file. *)
Definition array_load (now : Z) (name : text) (st : ar_state) : option (option array_t) :=
  if bool_decide (name = []) then Some None else
  match ay_files st !! name with
  | None => Some None
  | Some (l0 :: l1 :: lines) =>
      dims ← head (strshort 2 l0);
      if (dims <? 1) || (AR_DIMS <=? dims) then None else
      ap ← array_make now name (strshort (Z.to_nat dims) l1);
      cell ← load_cells (drop 3 lines) 0 None (ar_cell ap);
      Some (Some (set_time now (set_cell cell ap)))
  | Some _ => None
  end.

(** ** The arrays in memory *)

Fixpoint find_from (x : list (option array_t)) (name : text) (i : Z) : Z :=
  match x with
  | [] => -1
  | Some a :: x => if bool_decide (ar_name a = name) then i else find_from x name (i + 1)
  | None :: x => find_from x name (i + 1)
  end.
Definition array_find (x : list (option array_t)) (name : text) : Z := find_from x name 0.

(** The loop of [array_slot]: a slot that is free, or the one used least
    recently. *)
Fixpoint slot_from (x : list (option array_t)) (i oldest : Z) (least : option Z) : Z * bool :=
  match x with
  | [] => (oldest, false)
  | None :: _ => (i, true)
  | Some a :: x =>
      match least with
      | Some u => if ar_used a <? u then slot_from x (i + 1) i (Some (ar_used a)) else slot_from x (i + 1) oldest least
      | None => slot_from x (i + 1) i (Some (ar_used a))
      end
  end.

Definition array_slot (now : Z) (st : ar_state) : option (Z * ar_state) :=
  let '(i, free) := slot_from (ars st) 0 0 None in
  if free then Some (i, st) else
  a ← mjoin (zget (ars st) i);
  let st := if ar_changed a then (array_store now a st).2 else st in
  x ← zset (ars st) i None;
  Some (i, set_ars x st).

Definition put_array (ai : Z) (a : option array_t) (st : ar_state) : option ar_state :=
  x ← zset (ars st) ai a; Some (set_ars x st).
Definition get_array (ai : Z) (st : ar_state) : option array_t := mjoin (zget (ars st) ai).

(** [array_in_mem]: the slot of an array, -1 if there is none. *)
Definition array_in_mem (now : Z) (name : text) (st : ar_state) : option (Z * ar_state) :=
  let ai := array_find (ars st) name in
  if 0 <=? ai then Some (ai, st) else
  ap ← array_load now name st;
  match ap with
  | None => Some (-1, st)
  | Some ap => '(ai, st) ← array_slot now st; st ← put_array ai (Some ap) st; Some (ai, st)
  end.

(** ** The functions *)

(** What a function adds to the result, what it returns, and the state. *)
Definition ar_result : Type := text * Z * ar_state.

Definition fails (name : text) (err : string) (st : ar_state) : option ar_result := Some ([], 0, array_err name err st).

(** [d[i]], with the -1 behind the numbers. *)
Definition num_at (d : list Z) (i : Z) : option Z := if i =? len d then Some (-1) else zget d i.

Section func.
Context (now : Z) (arg : text).

Definition array_size (st : ar_state) : option ar_result :=
  let '(name, d) := array_args arg in
  '(ai, st) ← array_in_mem now name st;
  if ai <? 0 then Some ([48], 0, st) else
  a ← get_array ai st;
  st ← put_array ai (Some (set_time now a)) st;
  d0 ← num_at d 0;
  n ← if d0 <? 0 then Some (len (ar_d a)) else zget (ar_d a) (d0 - 1);
  Some (show n, 1, st).

Definition array_set (st : ar_state) : option ar_result :=
  let '(name, d) := array_args arg in
  '(ai, st) ← array_in_mem now name st;
  if ai <? 0 then fails name "no array" st else
  a ← get_array ai st;
  if len d <? len (ar_d a) then fails name "bad dimensions" st else
  let word1 := nth_rest (len (ar_d a) + 2) arg in
  i ← array_index (ar_d a) d 0;
  if i <? 0 then fails name "out of bounds" st else
  cell ← zset (ar_cell a) i word1;
  st ← put_array ai (Some (set_cell cell (set_changed true (set_time now a)))) st;
  Some (show i, 1, st).

(** The array, if it can be read with the coordinates [d]. *)
Definition array_get (st : ar_state) : option ar_result :=
  if (token_result B 1 arg).1 <? 0 then Some ([], 0, st) else
  let '(name, d) := array_args arg in
  '(ai, st) ← array_in_mem now name st;
  if ai <? 0 then fails name "no array" st else
  a ← get_array ai st;
  if len d <? len (ar_d a) then fails name "bad dimensions" st else
  i ← array_index (ar_d a) d 0;
  if i <? 0 then fails name "out of bounds" st else
  cell ← zget (ar_cell a) i;
  st ← put_array ai (Some (set_time now a)) st;
  Some (cell, 1, st).

Definition array_create (st : ar_state) : option ar_result :=
  let '(name, d) := array_args arg in
  d0 ← num_at d 0;
  negative ← if d0 <? 0 then Some true else d1 ← num_at d 1; Some (d1 <? 0);
  if negative : bool then Some ([48], 0, st) else
  if (0 <=? array_find (ars st) name) || bool_decide (is_Some (ay_files st !! nth_arg 1 arg))
  then Some ([48], 0, array_err name "already exists" st) else
  '(ai, st) ← array_slot now st;
  ap ← array_make now name d;
  let '(ap, st) := array_store now ap st in
  st ← put_array ai (Some ap) st;
  Some ([49], 1, st).

Definition array_insert (st : ar_state) : option ar_result :=
  let '(name, v) := array_args arg in
  v0 ← num_at v 0;
  '(ai, st) ← array_in_mem now name st;
  if ai <? 0 then fails name "no array" st else
  v1 ← num_at v 1;
  a ← get_array ai st;
  ap ← insert_row now name a (v0 - 1) v1;
  st ← put_array ai (Some ap) st;
  Some ([], 1, st).

Definition array_remove (st : ar_state) : option ar_result :=
  let '(name, v) := array_args arg in
  v0 ← num_at v 0;
  '(ai, st) ← array_in_mem now name st;
  if ai <? 0 then fails name "no array" st else
  v1 ← num_at v 1;
  a ← get_array ai st;
  ap ← remove_row now name a (v0 - 1) v1;
  st ← put_array ai (Some ap) st;
  Some ([], 1, st).

Definition array_store_func (st : ar_state) : option ar_result :=
  let '(name, _) := array_args arg in
  let ai := array_find (ars st) name in
  if ai <? 0 then fails name "no loaded array" st else
  a ← get_array ai st;
  let '(a, st) := array_store now (set_changed false a) st in
  st ← put_array ai (Some a) st;
  Some ([], 1, st).

Definition array_clear (st : ar_state) : option ar_result :=
  let '(name, _) := array_args arg in
  let ai := array_find (ars st) name in
  if ai <? 0 then fails name "no array" st else
  st ← put_array ai None st; Some ([], 1, st).

Definition array_delete (st : ar_state) : option ar_result :=
  let '(name, _) := array_args arg in
  let ai := array_find (ars st) name in
  st ← if 0 <=? ai then put_array ai None st else Some st;
  Some ([], 1, set_files (delete (nth_arg 1 arg) (ay_files st)) st).
End func.

(** *** References to cells *)

(** [sscanf (word, "%d", &val)]; [None] if there is no number: the value is that
    of the coordinate before, or none at all. *)
Definition scan_num (w : text) : option Z :=
  let '(v, i) := int4_result [32; 9; 10; 11; 12; 13] w 0 in if i =? 0 then None else Some v.

(** [cellparse]: [None] if a coordinate is no number, [Some None] if a word is
    missing. *)
Fixpoint cellparse (args : text) (pos : Z) (d : list Z) : option (option (list Z) * Z) :=
  match d with
  | [] => Some (Some [], pos)
  | di :: d =>
      let '(r, word, pos) := nextword_result B args pos in
      if r <? 0 then Some (None, pos) else
      c ← if cval word 0 =? 82 then val ← scan_num (drop 1 word); Some (val + di) else scan_num word;
      '(cs, pos) ← cellparse args pos d;
      Some (match cs with None => None | Some cs => Some (c :: cs) end, pos)
  end.

(** [array_recurs]: the value of a cell, which [$array_eval] evaluates if it has
    a "$"; [eval] is what that gives. *)
Definition array_recurs (eval : text -> ar_state -> option (text * ar_state))
    (cellvalue name : text) (coords : list Z) (st : ar_state) : option (text * ar_state) :=
  if bool_decide (36 ∈ cellvalue) then eval (name ++ flat_map (fun c => 32 :: show c) coords) st
  else Some (cellvalue, st).

Section cells.
Context (eval : text -> ar_state -> option (text * ar_state)) (now : Z) (arg aref : text).

(** The value of one cell of the array in slot [ai]. *)
Definition cell_value (ai : Z) (name : text) (i : Z) (coords : list Z) (st : ar_state) : option (text * ar_state) :=
  a ← get_array ai st; v ← zget (ar_cell a) i; array_recurs eval v name coords st.

Fixpoint cell_loop (fuel : nat) (ai : Z) (name : text) (d : list Z) (pos : Z) (result : text) (st : ar_state) : option ar_result :=
  match fuel with
  | O => None
  | S fuel' =>
      '(coords, pos) ← cellparse arg pos d;
      match coords with
      | None => Some (result, 1, st)
      | Some coords =>
          let result := if 0 <? pos then result ++ [32] else result in
          a ← get_array ai st;
          i ← array_index (ar_d a) coords 0;
          if i <? 0 then Some (result, 0, array_err name "cell: range err" st) else
          '(v, st) ← cell_value ai name i coords st;
          cell_loop fuel' ai name d pos (result ++ v) st
      end
  end.

Definition array_cell (st : ar_state) : option ar_result :=
  if cval aref 0 =? 0 then Some ([], 0, st) else
  let '(name, d) := array_args aref in
  '(ai, st) ← array_in_mem now name st;
  if ai <? 0 then fails name "no array" st else
  cell_loop (S (length arg)) ai name d 0 [] st.

(** The first dimension in which two cells differ, -1 if there is none;
    [None] if there are several. *)
Fixpoint one_differs (coords coends : list Z) (i di : Z) : option Z :=
  match coords, coends with
  | c :: coords, e :: coends =>
      if c =? e then one_differs coords coends (i + 1) di
      else if di <? 0 then one_differs coords coends (i + 1) i else None
  | _, _ => Some di
  end.

Fixpoint cells_loop (fuel : nat) (ai : Z) (name : text) (di dincr : Z) (coords coends : list Z) (result : text) (st : ar_state) : option ar_result :=
  match fuel with
  | O => None
  | S fuel' =>
      c ← zget coords di; e ← zget coends di;
      if c =? e then Some (result, 1, st) else
      coords ← zset coords di (c + dincr);
      a ← get_array ai st;
      i ← array_index (ar_d a) coords 0;
      if i <? 0 then Some (result ++ [32], 0, array_err name "cells: range err" st) else
      '(v, st) ← cell_value ai name i coords st;
      cells_loop fuel' ai name di dincr coords coends (result ++ 32 :: v) st
  end.

Definition array_cells (st : ar_state) : option ar_result :=
  if cval aref 0 =? 0 then Some ([], 0, st) else
  let '(name, d) := array_args aref in
  '(ai, st) ← array_in_mem now name st;
  if ai <? 0 then fails name "no array" st else
  '(coords, pos) ← cellparse arg 0 d;
  '(coends, _) ← match coords with Some _ => cellparse arg pos d | None => Some (None, pos) end;
  match coords, coends with
  | Some coords, Some coends =>
      match one_differs coords coends 0 (-1) with
      | None => Some ([], 0, st)
      | Some di =>
          c ← zget coords di; e ← zget coends di;
          let dincr := if 0 <=? e - c then 1 else -1 in
          a ← get_array ai st;
          i ← array_index (ar_d a) coords 0;
          '(v, st) ← cell_value ai name i coords st;
          cells_loop (S (Z.to_nat (Z.abs (e - c)))) ai name di dincr coords coends v st
      end
  | _, _ => fails name "cells: bad args" st
  end.
End cells.
(** [func_ar]; [eval] is what [$array_eval] gives. *)
Definition func_ar (eval : text -> ar_state -> option (text * ar_state)) (now : Z) (what arg aref : text) (st : ar_state) : option ar_result :=
  let called name := bool_decide (what = bytes name) in
  if called "array_size" then array_size now arg st
  else if called "array_set" then array_set now arg st
  else if called "array" then array_get now arg st
  else if called "cell" then array_cell eval now arg aref st
  else if called "cells" then array_cells eval now arg aref st
  else if called "array_create" then array_create now arg st
  else if called "array_insert" then array_insert now arg st
  else if called "array_remove" then array_remove now arg st
  else if called "array_store" then array_store_func now arg st
  else if called "array_clear" then array_clear arg st
  else if called "array_delete" then array_delete arg st
  else Some ([], 1, st).
End blanks.
