(* ===== verification/ArrayCells.v ===== *)
(** The cells of an array by their coordinates: each has a place of its own, and
    inserting or removing a row moves the cells behind it and no others. *)
From stdpp Require Import gmap list_numbers.
From S2P Require Import Prelude Memory Chix ChixCore ChixEdit ChixSearch ChixParse Vartab Str Numbers Html Arrays.

(** ** Places *)

Definition prod (sizes : list Z) : Z := foldr Z.mul 1 sizes.

(** Coordinates within the sizes. *)
Definition inb (sizes coords : list Z) : Prop := Forall2 (fun n c => 0 <= c < n) sizes coords.

Fixpoint place_from (nc : Z) (sizes coords : list Z) : Z :=
  match sizes, coords with
  | n :: sizes, c :: coords => place_from (nc * n + c) sizes coords
  | _, _ => nc
  end.

Lemma place_place sizes coords : place sizes coords = place_from 0 sizes coords.
Proof.
  unfold place. generalize 0. revert coords. induction sizes as [| n sizes IH]; intros [| c coords] nc; cbn [zip_with foldl place_from]; [done.. |].
  apply IH.
Qed.

Lemma prod_pos sizes : Forall (fun n => 0 < n) sizes -> 0 < prod sizes.
Proof. induction 1; cbn [prod foldr]; [lia |]. unfold prod in *. nia. Qed.

Lemma inb_pos sizes coords : inb sizes coords -> Forall (fun n => 0 < n) sizes.
Proof. induction 1; constructor; [lia | done]. Qed.

Lemma place_shift sizes coords nc : inb sizes coords -> place_from nc sizes coords = nc * prod sizes + place_from 0 sizes coords.
Proof.
  intros H. revert nc. induction H as [| n c sizes coords Hc H IH]; intros nc; cbn [place_from prod foldr]; [lia |].
  rewrite IH, (IH (0 * n + c)). unfold prod. lia.
Qed.

Lemma place_bounds sizes coords : inb sizes coords -> 0 <= place_from 0 sizes coords < prod sizes.
Proof.
  induction 1 as [| n c sizes coords Hc H IH]; cbn [place_from prod foldr]; [lia |]. rewrite place_shift by done. unfold prod in *. nia.
Qed.

Lemma place_inj sizes c1 c2 : inb sizes c1 -> inb sizes c2 -> place_from 0 sizes c1 = place_from 0 sizes c2 -> c1 = c2.
Proof.
  intros H1. revert c2. induction H1 as [| n c sizes coords Hc H IH]; intros c2 H2 E; [by apply Forall2_nil_inv_l in H2 |].
  apply Forall2_cons_inv_l in H2 as (d & coords2 & Hd & H2 & ->). cbn [place_from] in E.
  rewrite (place_shift sizes coords), (place_shift sizes coords2) in E by done.
  pose proof (place_bounds _ _ H). pose proof (place_bounds _ _ H2). assert (c = d) as -> by nia. f_equal. apply IH; [done | lia].
Qed.

Lemma place_surj sizes i : Forall (fun n => 0 < n) sizes -> 0 <= i < prod sizes -> exists coords, inb sizes coords /\ place_from 0 sizes coords = i.
Proof.
  intros Hs. revert i. induction Hs as [| n sizes Hn Hs IH]; intros i Hi; cbn [prod foldr] in Hi.
  - exists []. split; [constructor | cbn; lia].
  - fold (prod sizes) in Hi. pose proof (prod_pos sizes Hs) as Hp. pose proof (Z.mod_pos_bound i (prod sizes) Hp) as Hm.
    destruct (IH (i mod prod sizes) Hm) as (coords & Hc & E). exists (i / prod sizes :: coords).
    pose proof (Z_div_mod_eq_full i (prod sizes)). assert (0 <= i / prod sizes < n) by (split; [apply Z.div_pos; lia | apply Z.div_lt_upper_bound; lia]).
    split; [by constructor |]. cbn [place_from]. rewrite place_shift by done. lia.
Qed.

(** [array_index] is the place, as long as it fits into an [int]. *)
Lemma array_index_place sizes coords nc : inb sizes coords -> 0 <= nc -> (nc + 1) * prod sizes <= 2 ^ 31 ->
  array_index sizes coords nc = Some (place_from nc sizes coords).
Proof.
  intros H. revert nc. induction H as [| n c sizes coords Hc H IH]; intros nc Hnc Hp; cbn [array_index place_from]; [done |].
  rewrite (proj2 (Z.leb_gt n c)) by lia. cbn [prod foldr] in Hp. fold (prod sizes) in Hp. pose proof (prod_pos sizes (inb_pos _ _ H)).
  assert (Hb : (nc * n + c + 1) * prod sizes <= 2 ^ 31) by nia. rewrite i32_small by nia. apply IH; [nia | done].
Qed.

Lemma array_index_out sizes coords nc : length coords = length sizes -> ~ inb sizes coords -> Forall (Z.le 0) coords ->
  array_index sizes coords nc = Some (-1).
Proof.
  revert coords nc. induction sizes as [| n sizes IH]; intros [| c coords] nc Hl Hn Hc; try done; [by destruct Hn; constructor |].
  cbn [array_index]. apply Forall_cons in Hc as [Hc0 Hc]. destruct (Z.leb_spec n c) as [? | Hlt]; [done |]. apply IH; [by injection Hl | | done].
  intros H. apply Hn. by constructor.
Qed.

(** ** Copying *)

(** The cells that are copied, in order. *)
Fixpoint all_coords (skip : Z -> Z -> bool) (rest coords : list Z) : list (list Z) :=
  match rest with
  | [] => [coords]
  | n :: rest => concat (map (fun i => if skip (len coords) i then [] else all_coords skip rest (coords ++ [i])) (seqZ 0 n))
  end.

Fixpoint copy_all (f : list Z -> list text -> option (list text)) (cs : list (list Z)) (trg : list text) : option (list text) :=
  match cs with
  | [] => Some trg
  | c :: cs => trg ← f c trg; copy_all f cs trg
  end.

Lemma copy_all_app f xs ys trg : copy_all f (xs ++ ys) trg = trg ← copy_all f xs trg; copy_all f ys trg.
Proof. revert trg. induction xs as [| x xs IH]; intros trg; cbn [app copy_all]; [done |]. destruct (f x trg); cbn [mbind option_bind]; [apply IH | done]. Qed.


Lemma copy_rows_all cells src_d trg_d skip offset rest coords trg :
  copy_rows cells src_d trg_d skip offset rest coords trg =
  copy_all (copy_cell cells src_d trg_d offset) (all_coords skip rest coords) trg.
Proof.
  revert coords trg. induction rest as [| n rest IH]; intros coords trg; cbn [copy_rows all_coords].
  - cbn [copy_all]. by destruct (copy_cell _ _ _ _ _ _).
  - unfold seqZ. generalize (Z.to_nat n) as k. intros k. assert (H : forall j trg, for_rows (fun i trg =>
        if skip (len coords) i then Some trg else copy_rows cells src_d trg_d skip offset rest (coords ++ [i]) trg) k (Z.of_nat j) trg =
      copy_all (copy_cell cells src_d trg_d offset)
        (concat (map (fun i => if skip (len coords) i then [] else all_coords skip rest (coords ++ [i])) (map (fun i => Z.of_nat i) (seq j k)))) trg).
    { induction k as [| k IHk]; intros j t; cbn [for_rows seq map concat]; [done |]. rewrite copy_all_app.
      destruct (skip (len coords) (Z.of_nat j)); cbn [copy_all mbind option_bind].
      - replace (Z.of_nat j + 1) with (Z.of_nat (S j)) by lia. apply IHk.
      - rewrite IH. destruct (copy_all _ _ t); cbn [mbind option_bind]; [| done]. replace (Z.of_nat j + 1) with (Z.of_nat (S j)) by lia. apply IHk. }
    etransitivity; [exact (H 0%nat trg) |]. do 3 f_equal. apply map_ext. intros i. lia.
Qed.

(** Which cells are copied: those within the sizes that are not left out. *)
Fixpoint kept (skip : Z -> Z -> bool) (j : Z) (coords : list Z) : Prop :=
  match coords with
  | [] => True
  | c :: coords => skip j c = false /\ kept skip (j + 1) coords
  end.

Lemma all_coords_elem skip rest coords x :
  x ∈ all_coords skip rest coords <-> exists c, x = coords ++ c /\ inb rest c /\ kept skip (len coords) c.
Proof.
  revert coords. induction rest as [| n rest IH]; intros coords; cbn [all_coords].
  - rewrite list_elem_of_singleton. split.
    + intros ->. exists []. by rewrite app_nil_r; split_and!; [| constructor |].
    + intros (c & -> & Hc & _). apply Forall2_nil_inv_l in Hc as ->. by rewrite app_nil_r.
  - rewrite list_elem_of_In, in_concat. split.
    + intros (l & Hl & Hx). apply in_map_iff in Hl as (i & <- & Hi). apply list_elem_of_In, elem_of_seqZ in Hi.
      destruct (skip (len coords) i) eqn:Es; [done |]. apply list_elem_of_In, IH in Hx as (c & -> & Hc & Hk).
      exists (i :: c). rewrite <- app_assoc. split_and!; [done | constructor; [lia | done] |]. cbn [kept]. split; [done |]. by rewrite len_app in Hk.
    + intros (c & -> & Hc & Hk). apply Forall2_cons_inv_l in Hc as (i & c' & Hi & Hc & ->). cbn [kept] in Hk. destruct Hk as [Es Hk].
      eexists. split; [apply in_map_iff; exists i; split; [reflexivity |]; apply list_elem_of_In, elem_of_seqZ; lia |].
      rewrite Es. apply list_elem_of_In, IH. exists c'. rewrite <- app_assoc. split_and!; [done | done |]. by rewrite len_app.
Qed.

Lemma NoDup_concat_map {A C} (f : A -> list C) (g : C -> option A) l : NoDup l -> (forall x, NoDup (f x)) -> (forall x y, y ∈ f x -> g y = Some x) ->
  NoDup (concat (map f l)).
Proof.
  intros Hl Hf Hg. induction Hl as [| x l Hx Hl IH]; cbn [map concat]; [constructor |]. apply NoDup_app. split_and!; [done | | done].
  intros y Hy Hin. apply list_elem_of_In, in_concat in Hin as (l' & Hl' & Hin). apply in_map_iff in Hl' as (x' & <- & Hx').
  apply list_elem_of_In in Hin, Hx'. apply Hx. apply Hg in Hy, Hin. congruence.
Qed.

Lemma all_coords_nodup skip rest coords : NoDup (all_coords skip rest coords).
Proof.
  revert coords. induction rest as [| n rest IH]; intros coords; cbn [all_coords]; [apply NoDup_singleton |].
  apply (NoDup_concat_map _ (fun x => x !! length coords)).
  - apply NoDup_seqZ.
  - intros i. destruct (skip _ _); [constructor | apply IH].
  - intros i y Hy. destruct (skip _ _); [by apply elem_of_nil in Hy |]. apply all_coords_elem in Hy as (c & -> & _ & _).
    rewrite <- app_assoc. change ([i] ++ c) with (i :: c). by rewrite list_lookup_middle.
Qed.

(** Copying cells to places that differ. *)
Lemma copy_all_spec (sn tn : list Z -> Z) cells cs trg :
  NoDup cs -> (forall c, c ∈ cs -> 0 <= sn c < len cells /\ 0 <= tn c < len trg) -> (forall c d, c ∈ cs -> d ∈ cs -> tn c = tn d -> c = d) ->
  exists trg', copy_all (fun c trg => v ← zget cells (sn c); zset trg (tn c) v) cs trg = Some trg' /\ len trg' = len trg /\
    (forall c, c ∈ cs -> zget trg' (tn c) = zget cells (sn c)) /\
    (forall i, (forall c, c ∈ cs -> tn c <> i) -> zget trg' i = zget trg i).
Proof.
  intros Hn. revert trg. induction Hn as [| c cs Hc Hn IH]; intros trg Hb Hi; cbn [copy_all].
  - exists trg. split_and!; [done | done | by intros c ?%elem_of_nil | done].
  - destruct (Hb c ltac:(left)) as [Hs Ht]. destruct (zget_in cells (sn c)) as [v Ev]; [lia |]. rewrite Ev. cbn [mbind option_bind].
    set (trg1 := <[Z.to_nat (tn c) := v]> trg).
    assert (Ez : zset trg (tn c) v = Some trg1).
    { unfold zset. by rewrite (proj2 (Z.ltb_ge (tn c) 0)), (proj2 (Z.leb_gt (len trg) (tn c))) by lia. }
    rewrite Ez. cbn [mbind option_bind]. assert (El : len trg1 = len trg) by (unfold trg1, len; by rewrite length_insert).
    destruct (IH trg1) as (trg' & -> & E1 & E2 & E3).
    { intros d Hd. rewrite El. apply Hb. by right. } { intros d d' Hd Hd'. apply Hi; by right. }
    assert (Hz : forall i, zget trg1 i = if decide (i = tn c) then Some v else zget trg i).
    { intros i. unfold zget, trg1. destruct (decide (i = tn c)) as [-> | Hne].
      - rewrite (proj2 (Z.ltb_ge _ _)) by lia. apply list_lookup_insert_eq. unfold len in Ht. lia.
      - destruct (Z.ltb_spec i 0); [done |]. apply list_lookup_insert_ne. lia. }
    exists trg'. split_and!; [done | by rewrite E1 | |].
    + intros d [-> | Hd]%elem_of_cons; [| by apply E2]. rewrite E3.
      * rewrite Hz, decide_True by done. by rewrite Ev.
      * intros d Hd E. apply Hc. rewrite <- (Hi d c); [done | by right | left | done].
    + intros i Hi'. rewrite E3 by (intros d Hd; apply Hi'; by right). rewrite Hz, decide_False; [done |]. intros ->. by apply (Hi' c ltac:(left)).
Qed.

Lemma kept_spec skip j coords : kept skip j coords <-> forall i x, coords !! i = Some x -> skip (j + Z.of_nat i) x = false.
Proof.
  revert j. induction coords as [| c coords IH]; intros j; cbn [kept]; [by split |]. rewrite IH. split.
  - intros [H1 H2] [| i] x Hx; [injection Hx as ->; by rewrite Z.add_0_r |]. rewrite <- (H2 i x Hx). f_equal. lia.
  - intros H. split; [specialize (H 0%nat c eq_refl); by rewrite Z.add_0_r in H |]. intros i x Hx. rewrite <- (H (S i) x Hx). f_equal. lia.
Qed.

(** Where a cell goes. *)
Definition shifted (offset : Z -> Z -> Z) (coords : list Z) : list Z := imap (fun j c => offset (Z.of_nat j) c + c) coords.

Lemma copy_rows_spec cells src_d trg_d skip offset trg :
  let from c := inb src_d c /\ kept skip 0 c in
  len cells = prod src_d -> len trg = prod trg_d -> (forall c, from c -> inb trg_d (shifted offset c)) ->
  (forall c d, from c -> from d -> shifted offset c = shifted offset d -> c = d) ->
  exists trg', copy_rows cells src_d trg_d skip offset src_d [] trg = Some trg' /\ len trg' = prod trg_d /\
    (forall c, from c -> zget trg' (place trg_d (shifted offset c)) = zget cells (place src_d c)) /\
    (forall t, inb trg_d t -> (forall c, from c -> shifted offset c <> t) -> zget trg' (place trg_d t) = zget trg (place trg_d t)).
Proof.
  intros from Hs Ht Hin Hinj. rewrite copy_rows_all.
  assert (Hel : forall c, c ∈ all_coords skip src_d [] <-> from c).
  { intros c. rewrite all_coords_elem. split; [by intros (c' & -> & H) |]. intros H. by exists c. }
  destruct (copy_all_spec (place src_d) (fun c => place trg_d (shifted offset c)) cells (all_coords skip src_d []) trg) as (trg' & E & El & E1 & E2).
  - apply all_coords_nodup.
  - intros c Hc%Hel. rewrite !place_place, Hs, Ht. split; apply place_bounds; [apply Hc | by apply Hin].
  - intros c d Hc%Hel Hd%Hel E. rewrite !place_place in E. apply Hinj; try done. by apply (place_inj trg_d); [apply Hin | apply Hin |].
  - exists trg'. split_and!; [exact E | congruence | |].
    + intros c Hc. by apply E1, Hel.
    + intros t Ht' Hne. apply E2. intros c Hc%Hel E'. rewrite !place_place in E'. apply (Hne c Hc).
      by apply (place_inj trg_d); [apply Hin | |].
Qed.

(** ** Arrays *)

Record array_ok (a : array_t) : Prop := {
  ok_sizes : Forall (fun n => 0 < n) (ar_d a);
  ok_dims : 0 < len (ar_d a) < AR_DIMS;
  ok_cells : len (ar_cell a) = prod (ar_d a);
  ok_int : prod (ar_d a) < 2 ^ 31;
}.

Definition cell_at (a : array_t) (coords : list Z) : option text := zget (ar_cell a) (place (ar_d a) coords).

Lemma sizes_all d : Forall (fun n => 0 < n) d -> sizes_of d = d.
Proof. induction 1 as [| n d Hn Hd IH]; cbn [sizes_of]; [done |]. by rewrite (proj2 (Z.ltb_lt 0 n)), IH. Qed.

Lemma make_cells d n : Forall (fun n => 0 < n) d -> 0 < n -> n * prod d < 2 ^ 31 -> foldl (fun ncell n => i32 (ncell * n)) n d = n * prod d.
Proof.
  intros Hd. revert n. induction Hd as [| m d Hm Hd IH]; intros n Hn Hp; cbn [foldl prod foldr] in *; [lia |]. fold (prod d) in *.
  pose proof (prod_pos d Hd). rewrite i32_small by nia. rewrite IH; [lia | nia | lia].
Qed.

Lemma array_make_spec now name d : Forall (fun n => 0 < n) d -> d <> [] -> prod d < 2 ^ 31 ->
  array_make now name d = Some (mkArray name d (replicate (Z.to_nat (prod d)) []) false now).
Proof.
  intros Hd Hne Hp. destruct d as [| n d]; [done |]. apply Forall_cons in Hd as [Hn Hd]. unfold array_make. rewrite sizes_all by done.
  cbn [prod foldr] in *. fold (prod d) in *. rewrite make_cells by done. pose proof (prod_pos d Hd). rewrite (proj2 (Z.leb_gt _ _)) by nia. done.
Qed.

Lemma imap_alter (P : Z -> bool) (z : Z) k l :
  shifted (fun j c => if (j =? Z.of_nat k) && P c then z else 0) l = alter (fun c => if P c then z + c else c) k l.
Proof.
  unfold shifted. apply list_eq. intros i. rewrite list_lookup_imap. destruct (decide (k = i)) as [<- | Hne].
  - rewrite list_lookup_alter_eq. destruct (l !! k) as [c |]; [| done]. cbn [fmap option_fmap option_map]. rewrite Z.eqb_refl. cbn [andb]. by destruct (P c).
  - rewrite list_lookup_alter_ne by done. destruct (l !! i) as [c |]; [| done]. cbn [fmap option_fmap option_map].
    rewrite (proj2 (Z.eqb_neq (Z.of_nat i) (Z.of_nat k))) by lia. done.
Qed.

Lemma alter_inj (f : Z -> Z) k (c d : list Z) : (forall x y, c !! k = Some x -> d !! k = Some y -> f x = f y -> x = y) -> alter f k c = alter f k d -> c = d.
Proof.
  intros Hf E. apply list_eq. intros i. assert (Ei : alter f k c !! i = alter f k d !! i) by congruence. destruct (decide (k = i)) as [<- | Hne].
  - rewrite !list_lookup_alter_eq in Ei. destruct (c !! k) as [x |] eqn:Ex, (d !! k) as [y |] eqn:Ey; try done. injection Ei as Ei. f_equal. by apply Hf.
  - by rewrite !list_lookup_alter_ne in Ei.
Qed.

Lemma inb_alter f g k sizes coords : inb sizes coords -> (forall n c, sizes !! k = Some n -> coords !! k = Some c -> 0 <= c < n -> 0 <= g c < f n) ->
  inb (alter f k sizes) (alter g k coords).
Proof. intros H Hg. apply Forall2_alter; [done |]. intros n c Hn Hc Hb. by apply Hg. Qed.

Lemma inb_lookup sizes coords k n : inb sizes coords -> sizes !! k = Some n -> exists c, coords !! k = Some c /\ 0 <= c < n.
Proof. intros H Hk. by apply (Forall2_lookup_l _ _ _ _ _ H Hk). Qed.

(** The coordinates of a cell when row [i] of dimension [k] comes in, or goes. *)
Definition up (k : nat) (i : Z) (coords : list Z) : list Z := alter (fun c => if i <=? c then 1 + c else c) k coords.
Definition down (k : nat) (i : Z) (coords : list Z) : list Z := alter (fun c => if i <? c then -1 + c else c) k coords.

Definition taller (k : nat) (d : list Z) : list Z := alter (fun x => x + 1) k d.
Definition shorter (k : nat) (d : list Z) : list Z := alter (fun x => x + -1) k d.

Lemma alter_pos f k d : Forall (fun n => 0 < n) d -> (forall n, d !! k = Some n -> 0 < f n) -> Forall (fun n => 0 < n) (alter f k d).
Proof.
  intros Hd Hf. apply Forall_lookup. intros i n Hi. rewrite Forall_lookup in Hd. destruct (decide (k = i)) as [<- | Hne].
  - rewrite list_lookup_alter_eq in Hi. destruct (d !! k) as [x |] eqn:E; [| done]. injection Hi as <-. by apply Hf.
  - rewrite list_lookup_alter_ne in Hi by done. by apply (Hd i).
Qed.

Lemma alter_back (f g : Z -> Z) (k : nat) (l : list Z) : (forall x, g (f x) = x) -> alter g k (alter f k l) = l.
Proof.
  intros H. apply list_eq. intros i. destruct (decide (k = i)) as [<- | Hne].
  - rewrite !list_lookup_alter_eq. destruct (l !! k); cbn [fmap option_fmap option_map]; by rewrite ?H.
  - by rewrite !list_lookup_alter_ne.
Qed.

Lemma alter_len (f : Z -> Z) k d : len (alter f k d) = len d.
Proof. unfold len. by rewrite length_alter. Qed.

Lemma resized_at d k n : len d < AR_DIMS -> (k < length d)%nat -> resized d (Z.of_nat k) n = Some (alter (fun x => x + n) k d).
Proof.
  intros Hd Hk. unfold resized, len, AR_DIMS in *. rewrite (proj2 (Z.ltb_ge _ _)), (proj2 (Z.leb_gt _ _)) by lia. cbn [orb]. by rewrite Nat2Z.id.
Qed.

Lemma zget_empty (n : Z) (i : Z) : 0 <= i < n -> zget (replicate (Z.to_nat n) (@nil Z)) i = Some [].
Proof. intros H. unfold zget. rewrite (proj2 (Z.ltb_ge _ _)) by lia. apply lookup_replicate_2. lia. Qed.

Lemma kept_all c : kept (fun _ _ => false) 0 c.
Proof. by apply kept_spec. Qed.

Lemma insert_row_spec now name a k n i : array_ok a -> ar_d a !! k = Some n -> 0 <= i <= n -> prod (taller k (ar_d a)) < 2 ^ 31 ->
  exists a', insert_row now name a (Z.of_nat k) i = Some a' /\
    ar_name a' = name /\ ar_d a' = taller k (ar_d a) /\ ar_changed a' = true /\ ar_used a' = now /\ array_ok a' /\
    (forall c, inb (ar_d a) c -> cell_at a' (up k i c) = cell_at a c) /\
    (forall c, inb (taller k (ar_d a)) c -> c !! k = Some i -> cell_at a' c = Some []).
Proof.
  intros [O1 O2 O3 O4] Hk Hi Hp. pose proof (lookup_lt_Some _ _ _ Hk) as Hkl. unfold insert_row. rewrite resized_at by (done || lia). fold (taller k (ar_d a)).
  assert (Hpos : Forall (fun n => 0 < n) (taller k (ar_d a))).
  { apply alter_pos; [done |]. intros m Hm. rewrite Forall_lookup in O1. specialize (O1 k m Hm). cbn in O1. lia. }
  assert (Hlen : len (taller k (ar_d a)) = len (ar_d a)) by apply alter_len.
  cbn [mbind option_bind]. rewrite array_make_spec; [| done | | done].
  2: { intros E. rewrite E in Hlen. change (len (@nil Z)) with 0 in Hlen. lia. }
  cbn [mbind option_bind ar_cell]. set (trg := replicate _ _). unfold copy_insert.
  set (offset := fun j c : Z => if (j =? Z.of_nat k) && (i <=? c) then 1 else 0).
  assert (Hsh : forall c, shifted offset c = up k i c) by (intros c; apply (imap_alter (fun c => i <=? c) 1 k c)).
  assert (Htrg : len trg = prod (taller k (ar_d a))) by (unfold trg, len; rewrite length_replicate; pose proof (prod_pos _ Hpos); lia).
  destruct (copy_rows_spec (ar_cell a) (ar_d a) (taller k (ar_d a)) (fun _ _ => false) offset trg) as (cells & -> & El & E1 & E2); [done | done | | |].
  - intros c [Hc _]. rewrite Hsh. apply inb_alter; [done |]. intros m x _ _ Hx. destruct (Z.leb_spec i x); lia.
  - intros c d _ _. rewrite !Hsh. apply alter_inj. intros x y _ _. destruct (Z.leb_spec i x), (Z.leb_spec i y); lia.
  - cbn [mbind option_bind]. eexists. split; [reflexivity |]. cbn [ar_name ar_d ar_changed ar_used set_cell set_changed].
    split_and!; try done.
    + constructor; cbn [ar_d ar_cell set_cell set_changed]; try done. by rewrite Hlen.
    + intros c Hc. unfold cell_at. cbn [ar_d ar_cell set_cell set_changed]. rewrite <- Hsh. apply E1. split; [done | apply kept_all].
    + intros c Hc Hci. unfold cell_at. cbn [ar_d ar_cell set_cell set_changed]. rewrite E2; [| done |].
      * apply zget_empty. rewrite place_place. by apply place_bounds.
      * intros s [Hs _]. rewrite Hsh. intros <-. unfold up in Hci. rewrite list_lookup_alter_eq in Hci.
        destruct (s !! k) as [x |]; [| done]. injection Hci as Hci. destruct (Z.leb_spec i x); lia.
Qed.

Lemma remove_row_spec now name a k n i : array_ok a -> ar_d a !! k = Some n -> 2 <= n -> 0 <= i < n -> prod (shorter k (ar_d a)) < 2 ^ 31 ->
  exists a', remove_row now name a (Z.of_nat k) i = Some a' /\
    ar_name a' = name /\ ar_d a' = shorter k (ar_d a) /\ ar_changed a' = true /\ ar_used a' = now /\ array_ok a' /\
    (forall c, inb (ar_d a) c -> c !! k <> Some i -> cell_at a' (down k i c) = cell_at a c).
Proof.
  intros [O1 O2 O3 O4] Hk Hn Hi Hp. pose proof (lookup_lt_Some _ _ _ Hk) as Hkl. unfold remove_row. rewrite resized_at by (done || lia). fold (shorter k (ar_d a)).
  assert (Hpos : Forall (fun n => 0 < n) (shorter k (ar_d a))).
  { apply alter_pos; [done |]. intros m Hm. assert (m = n) as -> by congruence. lia. }
  assert (Hlen : len (shorter k (ar_d a)) = len (ar_d a)) by apply alter_len.
  cbn [mbind option_bind]. rewrite array_make_spec; [| done | | done].
  2: { intros E. rewrite E in Hlen. change (len (@nil Z)) with 0 in Hlen. lia. }
  cbn [mbind option_bind ar_cell]. set (trg := replicate _ _). unfold copy_remove.
  set (offset := fun j c : Z => if (j =? Z.of_nat k) && (i <? c) then -1 else 0).
  set (skip := fun j c : Z => (j =? Z.of_nat k) && (c =? i)).
  assert (Hsh : forall c, shifted offset c = down k i c) by (intros c; apply (imap_alter (fun c => i <? c) (-1) k c)).
  assert (Hkept : forall c, kept skip 0 c <-> c !! k <> Some i).
  { intros c. rewrite kept_spec. unfold skip. split.
    - intros H E. specialize (H k i E). rewrite Z.add_0_l, !Z.eqb_refl in H. done.
    - intros H j x Hx. rewrite Z.add_0_l. destruct (Z.eqb_spec (Z.of_nat j) (Z.of_nat k)) as [E | E]; [| done].
      apply Nat2Z.inj in E as ->. cbn [andb]. apply Z.eqb_neq. congruence. }
  assert (Htrg : len trg = prod (shorter k (ar_d a))) by (unfold trg, len; rewrite length_replicate; pose proof (prod_pos _ Hpos); lia).
  destruct (copy_rows_spec (ar_cell a) (ar_d a) (shorter k (ar_d a)) skip offset trg) as (cells & -> & El & E1 & E2); [done | done | | |].
  - intros c [Hc Hck%Hkept]. rewrite Hsh. apply inb_alter; [done |]. intros m x Hm Hx Hb. assert (m = n) as -> by congruence.
    assert (x <> i) by congruence. destruct (Z.ltb_spec i x); lia.
  - intros c d [_ Hc%Hkept] [_ Hd%Hkept]. rewrite !Hsh. apply alter_inj. intros x y Hx Hy. assert (x <> i) by congruence. assert (y <> i) by congruence.
    destruct (Z.ltb_spec i x), (Z.ltb_spec i y); lia.
  - cbn [mbind option_bind]. eexists. split; [reflexivity |]. cbn [ar_name ar_d ar_changed ar_used set_cell set_changed].
    split_and!; try done.
    + constructor; cbn [ar_d ar_cell set_cell set_changed]; try done. by rewrite Hlen.
    + intros c Hc Hci. unfold cell_at. cbn [ar_d ar_cell set_cell set_changed]. rewrite <- Hsh. apply E1. split; [done | by apply Hkept].
Qed.

(** Arrays are equal if their cells are. *)
Lemma cells_equal a b : array_ok a -> array_ok b -> ar_d a = ar_d b -> (forall c, inb (ar_d a) c -> cell_at a c = cell_at b c) -> ar_cell a = ar_cell b.
Proof.
  intros [A1 _ A3 _] [_ _ B3 _] Ed Hc. apply list_eq. intros j. destruct (decide (Z.of_nat j < prod (ar_d a))) as [Hj | Hj].
  - destruct (place_surj (ar_d a) (Z.of_nat j) A1) as (c & Hin & E); [lia |]. specialize (Hc c Hin). unfold cell_at in Hc.
    rewrite <- Ed, place_place, E in Hc. by rewrite !zget_nat in Hc.
  - rewrite Ed in A3, Hj. rewrite !lookup_ge_None_2; [done | |]; unfold len in *; lia.
Qed.

Lemma remove_insert now name a k n i : array_ok a -> ar_d a !! k = Some n -> 0 <= i <= n -> prod (taller k (ar_d a)) < 2 ^ 31 ->
  exists a' a'', insert_row now name a (Z.of_nat k) i = Some a' /\ remove_row now name a' (Z.of_nat k) i = Some a'' /\
    ar_d a'' = ar_d a /\ ar_cell a'' = ar_cell a.
Proof.
  intros Ha Hk Hi Hp. destruct (insert_row_spec now name a k n i Ha Hk Hi Hp) as (a' & E' & _ & Ed' & _ & _ & Ha' & Hc' & _).
  assert (Hk' : ar_d a' !! k = Some (n + 1)) by (rewrite Ed'; unfold taller; by rewrite list_lookup_alter_eq, Hk).
  assert (Eback : shorter k (ar_d a') = ar_d a).
  { rewrite Ed'. apply alter_back. intros x. lia. }
  assert (Hn : 0 < n) by (destruct Ha as [O1 _ _ _]; rewrite Forall_lookup in O1; by apply (O1 k)).
  destruct (remove_row_spec now name a' k (n + 1) i Ha' Hk') as (a'' & E'' & _ & Ed'' & _ & _ & Ha'' & Hc''); [lia | lia | rewrite Eback; apply Ha |].
  rewrite Eback in Ed''. exists a', a''. split_and!; [done | done | done |]. apply cells_equal; [done | done | done |].
  intros c Hc. rewrite Ed'' in Hc.
  assert (Hup : down k i (up k i c) = c).
  { apply alter_back. intros x. destruct (Z.leb_spec i x).
    - rewrite (proj2 (Z.ltb_lt _ _)) by lia. lia.
    - by rewrite (proj2 (Z.ltb_ge _ _)) by lia. }
  rewrite <- Hup at 1. rewrite Hc''.
  - by apply Hc'.
  - rewrite Ed'. apply inb_alter; [done |]. intros m x _ _ Hx. destruct (Z.leb_spec i x); lia.
  - unfold up. rewrite list_lookup_alter_eq. destruct (c !! k) as [x |]; [| done]. intros [= Ex]. destruct (Z.leb_spec i x); lia.
Qed.


(** ** Reading cells *)

(** What [$array(name coords)] gives. *)
Definition read (a : array_t) (coords : list Z) : option text := i ← array_index (ar_d a) coords 0; zget (ar_cell a) i.

Lemma read_cell a c : array_ok a -> inb (ar_d a) c -> read a c = cell_at a c.
Proof.
  intros [O1 O2 O3 O4] Hc. unfold read, cell_at. rewrite array_index_place by (done || lia). cbn [mbind option_bind]. by rewrite place_place.
Qed.

Lemma up_in k i n sizes c : sizes !! k = Some n -> inb sizes c -> 0 <= i <= n -> inb (taller k sizes) (up k i c).
Proof. intros Hk Hc Hi. apply inb_alter; [done |]. intros m x Hm _ Hx. destruct (Z.leb_spec i x); lia. Qed.

(** C20: [$array_insert] makes a new row at [i] of dimension [k] (counted from 0),
    at any place up to behind the last row: the cells before it stay, those
    behind it move by one, those in it are empty, each read as [$array] reads
    it; and [$array_remove] of that row gives the array as it was. *)
Theorem rows_move now name a k n i : array_ok a -> ar_d a !! k = Some n -> 0 <= i <= n -> prod (taller k (ar_d a)) < 2 ^ 31 ->
  exists a', insert_row now name a (Z.of_nat k) i = Some a' /\ array_ok a' /\ ar_d a' = taller k (ar_d a) /\
    (forall c, inb (ar_d a) c -> read a' (up k i c) = read a c) /\
    (forall c, inb (ar_d a') c -> c !! k = Some i -> read a' c = Some []) /\
    exists a'', remove_row now name a' (Z.of_nat k) i = Some a'' /\ ar_d a'' = ar_d a /\ ar_cell a'' = ar_cell a.
Proof.
  intros Ha Hk Hi Hp. destruct (insert_row_spec now name a k n i Ha Hk Hi Hp) as (a' & E & _ & Ed & _ & _ & Ha' & Hc & He).
  destruct (remove_insert now name a k n i Ha Hk Hi Hp) as (b & a'' & E' & Er & Ed'' & Ec''). assert (b = a') as -> by congruence.
  exists a'. split_and!; [done | done | done | | | by exists a''].
  - intros c Hin. rewrite !read_cell; [by apply Hc | done | done | done |]. rewrite Ed. by apply (up_in k i n).
  - intros c Hin Hci. rewrite read_cell by done. apply He; [by rewrite <- Ed | done].
Qed.

Lemma rows_move_witness :
  let a := mkArray (bytes "t") [2; 2] (map bytes ["a"; "b"; "c"; "d"]%string) false 0 in
  exists a', insert_row 7 (bytes "t") a 1 1 = Some a' /\ array_ok a' /\ ar_d a' = [2; 3] /\
    (forall c, inb (ar_d a) c -> read a' (up 1 1 c) = read a c) /\
    (forall c, inb (ar_d a') c -> c !! 1%nat = Some 1 -> read a' c = Some []) /\
    exists a'', remove_row 7 (bytes "t") a' 1 1 = Some a'' /\ ar_d a'' = ar_d a /\ ar_cell a'' = ar_cell a.
Proof.
  apply (rows_move 7 (bytes "t") (mkArray (bytes "t") [2; 2] (map bytes ["a"; "b"; "c"; "d"]%string) false 0) 1 2 1).
  - constructor; [repeat constructor | done | done | done].
  - done.
  - done.
  - done.
Defined.
