(* ===== verification/ArrayFiles.v ===== *)
(** Arrays in files: what [array_store] writes, [array_load] reads back. *)
From stdpp Require Import gmap list_numbers.
From S2P Require Import Prelude Memory Chix ChixCore ChixEdit ChixSearch ChixParse Vartab Str Numbers Html Arrays ArrayCells.

(** ** Numbers *)

Lemma short_skip_head c s : cf_digit c = true -> short_skip (c :: s) 0 = (0, c :: s).
Proof. intros H. cbn [short_skip]. by rewrite H. Qed.

Lemma short_digits_spec d rest v : Forall (fun c => DIGIT c = true) d -> (forall c, head rest = Some c -> DIGIT c = false) ->
  0 <= v -> foldl (fun r c => 10 * r + (c - 48)) v d < 2 ^ 15 ->
  short_digits (d ++ rest) v = (foldl (fun r c => 10 * r + (c - 48)) v d, rest).
Proof.
  intros Hd Hr. revert v. induction Hd as [| c d Hc Hd IH]; intros v Hv Hb; cbn [app foldl] in *.
  - destruct rest as [| c rest]; [done |]. cbn [short_digits]. rewrite cf_digit_DIGIT. by rewrite (Hr c).
  - cbn [short_digits]. rewrite cf_digit_DIGIT, Hc. unfold DIGIT in Hc.
    assert (Hm : forall w, 0 <= w -> w <= foldl (fun r c => 10 * r + (c - 48)) w d).
    { clear -Hd. induction Hd as [| c d Hc Hd IH]; intros w Hw; cbn [foldl]; [lia |]. unfold DIGIT in Hc. specialize (IH (10 * w + (c - 48))). lia. }
    specialize (Hm (10 * v + (c - 48)) ltac:(lia)). unfold cf_value. rewrite i16_small by lia.
    replace (v * 10 + (c - 48)) with (10 * v + (c - 48)) by lia. apply IH; [lia | done].
Qed.

Lemma show_digits n : 0 <= n < 2 ^ 31 ->
  exists d, show n = d /\ Forall (fun c => DIGIT c = true) d /\ d <> [] /\ dec_value d = n.
Proof.
  intros Hn. destruct (show_spec n) as (d & E & H1 & H2 & H3); [unfold is_int; lia |]. rewrite (proj2 (Z.ltb_ge n 0)) in E by lia.
  exists d. split_and!; [exact E | done | done | lia].
Qed.

Lemma strshort_show k n rest : 0 <= n < 2 ^ 15 -> (forall c, head rest = Some c -> DIGIT c = false) ->
  strshort (S k) (show n ++ rest) = n :: strshort k rest.
Proof.
  intros Hn Hr. destruct (show_digits n) as (d & -> & Hd & Hne & Hv); [lia |]. unfold dec_value in Hv. cbn [strshort].
  destruct d as [| c d]; [done |]. pose proof Hd as [Hc _]%Forall_cons. cbn [app]. rewrite short_skip_head by (by rewrite cf_digit_DIGIT).
  change (c :: d ++ rest) with ((c :: d) ++ rest). rewrite (short_digits_spec (c :: d) rest 0 Hd Hr) by lia. by rewrite Hv.
Qed.

Lemma strshort_blank k s : strshort (S k) (32 :: s) = strshort (S k) s.
Proof. destruct s as [| c s]; [done |]. cbn [strshort short_skip]. change (cf_digit 32) with false. cbn iota. by destruct (cf_digit c). Qed.

Lemma strshort_ints d : Forall (fun n => 0 < n < 2 ^ 15) d -> strshort (length d) (ints_text d) = d.
Proof.
  induction 1 as [| n d Hn Hd IH]; [done |]. cbn [length ints_text flat_map]. rewrite <- app_assoc. rewrite strshort_show; [| lia | by intros c [= <-]].
  f_equal. cbn [app]. fold (ints_text d). destruct d as [| m d]; [done |]. cbn [length]. rewrite strshort_blank. exact IH.
Qed.

(** ** The lines of a cell *)

(** Lines with newlines between them, and behind the last one if [ended]. *)
Fixpoint glue (first : bool) (ls : list text) : text :=
  match ls with
  | [] => []
  | l :: ls => (if first then [] else [10]) ++ l ++ glue false ls
  end.

Lemma cell_lines_spec fuel cell pos how0 : Forall is_char cell -> 0 <= pos <= len cell -> (Z.to_nat (len cell - pos) < fuel)%nat ->
  let '(ls, how) := cell_lines fuel cell pos how0 in
  (ls = [] /\ how = how0 /\ pos = len cell) \/
  (pos < len cell /\ ls <> [] /\ (how = 1 \/ how = 2) /\ glue true ls ++ (if how =? 2 then [10] else []) = drop (Z.to_nat pos) cell).
Proof.
  intros Hc. revert pos how0. induction fuel as [| fuel IH]; intros pos how0 Hp Hf; [lia |]. cbn [cell_lines].
  pose proof (nextline_cut cell pos Hc Hp) as Hn. destruct (nextline_result cell pos) as [[r line] pos'].
  destruct Hn as [(-> & -> & E) | (Hl & Hpos & [(-> & E) | (-> & E' & E)])]; [by left | |].
  - cbn [Z.ltb Z.compare]. specialize (IH pos' 2 ltac:(lia) ltac:(lia)). destruct (cell_lines fuel cell pos' 2) as [ls how].
    destruct IH as [(-> & -> & Ep) | (Hlt & Hne & Hh & Eg)]; right; (split; [lia |]); (split; [done |]).
    + split; [by right |]. cbn [glue Z.eqb Pos.eqb app]. rewrite app_nil_r, E, Ep. unfold len. by rewrite Nat2Z.id, drop_all.
    + split; [done |]. cbn [glue app]. rewrite E, <- Eg, <- app_assoc. f_equal. by destruct ls.
  - cbn [Z.ltb Z.compare]. specialize (IH pos' 1 ltac:(lia) ltac:(lia)). destruct (cell_lines fuel cell pos' 1) as [ls how].
    destruct IH as [(-> & -> & Ep) | (Hlt & Hne & Hh & Eg)]; right; (split; [lia |]); (split; [done |]).
    + split; [by left |]. cbn [glue Z.eqb Pos.eqb app]. by rewrite !app_nil_r, E.
    + lia.
Qed.

(** A cell that can be stored: [unit_write] takes a line that starts with byte 1
    for a new page. *)
Definition storable (cell : text) : Prop :=
  Forall is_char cell /\ Forall (fun w => cval w 0 <> 1) (cell_lines (S (length cell)) cell 0 0).1.

Section load.
Context (B : list Z) (HB : good_blanks B).

Lemma load_index i ls nc first cell : 0 <= i < 2 ^ 31 ->
  load_cells B (show i :: ls) nc first cell = load_cells B ls i (Some true) cell.
Proof using HB.
  intros Hi. cbn [load_cells]. destruct (show_digits i Hi) as (d & -> & Hd & Hne & Hv). destruct d as [| c d]; [done |].
  assert (E : int4_result B (c :: d) 0 = (i, len (c :: d))).
  { pose proof (int4_result_decimal B [] false false (c :: d) []) as H. cbn [app] in H. rewrite app_nil_r in H. rewrite H; try done.
    - rewrite Hv. change (len (@nil Z)) with 0. by rewrite Z.sub_0_r.
    - destruct HB as [_ Hb]. eapply Forall_impl; [exact Hd |]. intros x Hx. apply Hb. by left.
    - lia. }
  rewrite E. apply Forall_cons in Hd as [Hc _]. unfold DIGIT in Hc. change (cval (c :: d) 0) with c. by rewrite (proj2 (Z.eqb_neq c 32)) by lia.
Qed.

Lemma load_cell_lines ls rest nc first cell old : Forall (fun w => cval w 0 <> 1) ls -> zget cell nc = Some old ->
  exists first', load_cells B (map (fun w => 32 :: put w) ls ++ rest) nc (Some first) cell =
    load_cells B rest nc (Some first') (<[Z.to_nat nc := old ++ glue first ls]> cell) /\ (first' = true -> ls = [] /\ first = true).
Proof using Type.
  intros Hl. revert first cell old. induction Hl as [| w ls Hw Hl IH]; intros first cell old Ho; cbn [map app glue].
  - exists first. rewrite app_nil_r. split; [| by intros ->]. f_equal. rewrite list_insert_id; [done |]. unfold zget in Ho. by destruct (nc <? 0).
  - assert (Ep : put w = w) by (unfold put; by rewrite (proj2 (Z.eqb_neq _ _))). rewrite Ep.
    cbn [load_cells]. change (cval (32 :: w) 0 =? 32) with true. cbn [negb mbind option_bind]. rewrite Ho. cbn [mbind option_bind].
    assert (Hin : 0 <= nc < len cell) by by apply (zget_range cell nc old).
    rewrite csub_from. change (drop (Z.to_nat 1) (32 :: w)) with w.
    unfold zset. rewrite (proj2 (Z.ltb_ge nc 0)), (proj2 (Z.leb_gt (len cell) nc)) by lia. cbn [orb mbind option_bind].
    set (new := old ++ (if first then [] else [10]) ++ w). destruct (IH false (<[Z.to_nat nc := new]> cell) new) as (first' & E & Hf).
    { unfold zget. rewrite (proj2 (Z.ltb_ge nc 0)) by lia. apply list_lookup_insert_eq. unfold len in Hin. lia. }
    exists first'. split; [| by intros ?%Hf; destruct_and!]. rewrite E, list_insert_insert_eq. f_equal. f_equal. unfold new. by rewrite <- !app_assoc.
Qed.

Lemma load_cell i text rest nc first cell : 0 <= i < len cell -> len cell < 2 ^ 31 -> zget cell i = Some [] -> storable text ->
  exists nc' first', load_cells B (store_cell i text ++ rest) nc first cell = load_cells B rest nc' first' (<[Z.to_nat i := text]> cell).
Proof using HB.
  intros Hi Hlen Hz [Hc Hs]. unfold store_cell. destruct (Z.eqb_spec (cval text 0) 0) as [E | E].
  - exists nc, first. destruct text as [| c t]; [| exfalso; apply Forall_cons in Hc as [Hc _]; unfold is_char in Hc; change (cval (c :: t) 0) with c in E; lia].
    cbn [app]. rewrite list_insert_id; [done |]. unfold zget in Hz. by destruct (i <? 0).
  - pose proof (cell_lines_spec (S (length text)) text 0 0 Hc) as H. destruct (cell_lines (S (length text)) text 0 0) as [ls how].
    cbn [fst] in Hs. destruct H as [(-> & _ & El) | (_ & Hne & Hh & Eg)]; [len_pos; lia | unfold len; lia | |].
    + destruct text; [done |]. rewrite len_cons in El. len_pos. lia.
    + change (drop (Z.to_nat 0) text) with text in Eg. cbn [app]. rewrite load_index by lia. rewrite <- app_assoc.
      destruct (load_cell_lines ls ((if how =? 2 then [[32]] else []) ++ rest) i true cell [] Hs Hz) as (first' & -> & Hf). cbn [app].
      destruct first'; [by destruct (Hf eq_refl) |]. destruct Hh as [-> | ->]; cbn [Z.eqb Pos.eqb app] in *.
      * rewrite app_nil_r in Eg. exists i, (Some false). by rewrite Eg.
      * cbn [load_cells]. change (cval [32] 0 =? 32) with true. cbn [negb mbind option_bind].
        assert (Ez : zget (<[Z.to_nat i := glue true ls]> cell) i = Some (glue true ls)).
        { unfold zget. rewrite (proj2 (Z.ltb_ge i 0)) by lia. apply list_lookup_insert_eq. unfold len in Hi. lia. }
        rewrite Ez. cbn [mbind option_bind]. unfold zset. rewrite (proj2 (Z.ltb_ge i 0)) by lia.
        assert (Ell : len (<[Z.to_nat i := glue true ls]> cell) = len cell) by (unfold len; by rewrite length_insert).
        rewrite Ell, (proj2 (Z.leb_gt (len cell) i)) by lia. cbn [orb mbind option_bind]. rewrite list_insert_insert_eq.
        exists i, (Some false). change (csub [32] 1 ALLCHARS) with (@nil Z). rewrite app_nil_r, Eg. done.
Qed.

Lemma load_all cells : forall done_ nc first, Forall storable cells -> len (done_ ++ cells) < 2 ^ 31 ->
  load_cells B (concat (imap (fun i cell => store_cell (Z.of_nat (length done_ + i)) cell) cells)) nc first (done_ ++ replicate (length cells) []) = Some (done_ ++ cells).
Proof using HB.
  induction cells as [| c cells IH]; intros done_ nc first Hs Hl; cbn [imap concat length replicate]; [done |].
  apply Forall_cons in Hs as [Hc Hs]. rewrite Nat.add_0_r. set (rest := concat _).
  assert (Elen : len (done_ ++ [] :: replicate (length cells) []) = len (done_ ++ c :: cells)).
  { unfold len. rewrite !length_app. cbn [length]. by rewrite length_replicate. }
  destruct (load_cell (Z.of_nat (length done_)) c rest nc first (done_ ++ [] :: replicate (length cells) [])) as (nc' & first' & ->); try done.
  - rewrite Elen, len_app, len_cons. len_pos. unfold len. lia.
  - rewrite Elen. lia.
  - rewrite zget_nat. by rewrite list_lookup_middle.
  - rewrite Nat2Z.id. rewrite insert_app_r_alt by lia. rewrite Nat.sub_diag. cbn [list_insert].
    change (<[0%nat := c]> ([] :: replicate (length cells) [])) with (c :: replicate (length cells) (@nil Z)).
    rewrite app_cons_assoc. specialize (IH (done_ ++ [c]) nc' first' Hs). rewrite <- !app_assoc in IH. cbn [app] in IH.
    rewrite <- app_assoc. cbn [app]. rewrite <- IH by done. f_equal. unfold rest. f_equal. apply imap_ext. intros i x _. cbn. do 2 f_equal. rewrite length_app. cbn [length]. lia.
Qed.
End load.


(** An array that can be kept in a file. *)
Record filed (a : array_t) : Prop := {
  fi_ok : array_ok a;
  fi_sizes : Forall (fun n => n < 2 ^ 15) (ar_d a);
  fi_cells : Forall storable (ar_cell a);
  fi_name : ar_name a <> [];
}.

Lemma array_load_stored B now a st : good_blanks B -> filed a -> ay_files st !! ar_name a = Some (stored_lines a) ->
  array_load B now (ar_name a) st = Some (Some (mkArray (ar_name a) (ar_d a) (ar_cell a) false now)).
Proof.
  intros HB [[O1 O2 O3 O4] Hd Hc Hn] Hf. unfold array_load. rewrite bool_decide_eq_false_2, Hf by done. unfold stored_lines. cbn [app].
  assert (Hdims : 0 < len (ar_d a) < 10) by (unfold AR_DIMS in O2; lia).
  rewrite strshort_show; [| lia | by intros c [= <-]]. cbn [head mbind option_bind].
  rewrite (proj2 (Z.ltb_ge _ 1)), (proj2 (Z.leb_gt AR_DIMS _)) by (unfold AR_DIMS; lia). cbn [orb]. rewrite to_nat_len.
  assert (Hds : strshort (length (ar_d a)) (ints_text (ar_d a)) = ar_d a).
  { apply strshort_ints. apply Forall_and; split; [exact O1 | exact Hd]. }
  assert (Hne : ar_d a <> []) by (intros E; rewrite E in Hdims; unfold len in Hdims; cbn in Hdims; lia).
  rewrite Hds, (array_make_spec _ _ _ O1 Hne O4). cbn [mbind option_bind ar_cell drop]. rewrite drop_0.
  assert (El : Z.to_nat (prod (ar_d a)) = length (ar_cell a)) by (unfold len in O3; lia). rewrite El.
  pose proof (load_all B HB (ar_cell a) [] 0 None Hc) as Hload. cbn [app length] in Hload.
  assert (Hl : len (ar_cell a) < 2 ^ 31) by lia. specialize (Hload Hl). cbn [Nat.add] in Hload. rewrite Hload. done.
Qed.


(** C21: what [array_store] writes, [array_load] reads back: the sizes and the
    cells, whatever lines they have (empty lines, and whether the last one ends
    with a newline), for an array whose sizes are below 32768. *)
Theorem array_store_load B now later a st : good_blanks B -> filed a ->
  array_load B later (ar_name a) (array_store now a st).2 = Some (Some (mkArray (ar_name a) (ar_d a) (ar_cell a) false later)).
Proof. intros HB Ha. apply array_load_stored; [done | done |]. unfold array_store. cbn. by rewrite lookup_insert_eq. Qed.

Definition sample : array_t := mkArray (bytes "plan") [2; 2] [bytes "x"; []; [10]; bytes "a" ++ [10; 10] ++ bytes " b" ++ [10]] true 0.

(** A given array can be kept in a file. *)
Ltac by_filed :=
  constructor; [constructor; [repeat constructor | done | done | done] | repeat constructor | | done];
  repeat (apply Forall_cons; split); [..| by apply Forall_nil]; split;
  first [by repeat constructor | apply (bool_decide_unpack _); by vm_compute].

Lemma sample_filed : filed sample.
Proof. by_filed. Qed.

Lemma array_store_load_witness :
  good_blanks [32; 10; 9] /\ filed sample /\
  array_load [32; 10; 9] 9 (bytes "plan") (array_store 8 sample (mkAr [] ∅ [])).2 = Some (Some (mkArray (bytes "plan") [2; 2] (ar_cell sample) false 9)).
Proof. split_and!; [exact ascii_blanks | exact sample_filed | exact (array_store_load [32; 10; 9] 8 9 sample (mkAr [] ∅ []) ascii_blanks sample_filed)]. Defined.
