(* ===== verification/ArrayCache.v ===== *)
(** The fifty arrays in memory and the files behind them, as one map of names to
    arrays: which arrays are in memory, when they are loaded, which one makes
    room for another and what has been stored does not matter. *)
From stdpp Require Import gmap list_numbers.
From S2P Require Import Prelude Memory Chix ChixCore ChixEdit ChixSearch ChixParse Vartab Str Numbers Html Arrays ArrayCells ArrayFiles.

(** ** The map *)

(** An array is its sizes and its cells. *)
Abbreviation array_map := (gmap text (list Z * list text)).
Definition value (a : array_t) : list Z * list text := (ar_d a, ar_cell a).
Definition array_of (name : text) (v : list Z * list text) : array_t := mkArray name v.1 v.2 false 0.

(** All arrays can be kept in files. *)
Definition good (m : array_map) : Prop := forall name v, m !! name = Some v -> filed (array_of name v).

(** The table and the files keep [m]: an array in memory is the one of [m], and
    its file as well unless it has changed; the others are in their files. *)
Record keeps (st : ar_state) (m : array_map) : Prop := {
  ks_len : len (ars st) = AR_ROWS;
  ks_once : forall i j a b, ars st !! i = Some (Some a) -> ars st !! j = Some (Some b) -> ar_name a = ar_name b -> i = j;
  ks_table : forall i a, ars st !! i = Some (Some a) -> m !! ar_name a = Some (value a) /\
    (ar_changed a = false -> ay_files st !! ar_name a = Some (stored_lines a));
  ks_file : forall name, (forall i a, ars st !! i = Some (Some a) -> ar_name a <> name) ->
    ay_files st !! name = (fun v => stored_lines (array_of name v)) <$> m !! name;
}.

Lemma filed_as a name v : ar_name a = name -> value a = v -> filed (array_of name v) <-> filed a.
Proof. intros <- <-. split; intros [[? ? ? ?] ? ? ?]; (constructor; [constructor; assumption | assumption..]). Qed.

(** ** Slots *)

Lemma find_from_spec x name i :
  (find_from x name i = -1 /\ forall j a, x !! j = Some (Some a) -> ar_name a <> name) \/
  (exists j a, find_from x name i = i + Z.of_nat j /\ x !! j = Some (Some a) /\ ar_name a = name).
Proof.
  revert i. induction x as [| [a |] x IH]; intros i; cbn [find_from]; [by left | |].
  - destruct (bool_decide_reflect (ar_name a = name)) as [E | E]; [right; exists 0%nat, a; split_and!; [lia | done | done] |].
    destruct (IH (i + 1)) as [[-> H] | (j & b & -> & H)]; [left | right; exists (S j), b; split; [lia | done]].
    split; [done |]. intros [| j] b Hb; [by injection Hb as <- | by apply (H j)].
  - destruct (IH (i + 1)) as [[-> H] | (j & b & -> & H)]; [left | right; exists (S j), b; split; [lia | done]].
    split; [done |]. intros [| j] b Hb; [done | by apply (H j)].
Qed.

Lemma slot_from_spec x pre oldest least : (forall o, o ∈ pre -> o <> None) ->
  (match least with None => pre = [] | Some _ => 0 <= oldest < len pre end) -> pre ++ x <> [] ->
  let '(i, free) := slot_from x (len pre) oldest least in
  0 <= i < len (pre ++ x) /\ exists o, (pre ++ x) !! Z.to_nat i = Some o /\ (free = true <-> o = None).
Proof.
  revert pre oldest least. induction x as [| [a |] x IH]; intros pre oldest least Hp Hl Hne; cbn [slot_from].
  - rewrite app_nil_r in *. destruct least as [u |]; [| done]. split; [done |].
    destruct (lookup_lt_is_Some_2 pre (Z.to_nat oldest)) as [o Ho]; [unfold len in Hl; lia |]. exists o. split; [done |].
    split; [done |]. intros ->. destruct (Hp None); [by apply (list_elem_of_lookup_2 _ _ _ Ho) | done].
  - assert (Hp' : forall o, o ∈ pre ++ [Some a] -> o <> None).
    { intros o [Ho | ->%list_elem_of_singleton]%elem_of_app; [by apply Hp | done]. }
    assert (El : len (pre ++ [Some a]) = len pre + 1) by (rewrite len_app; done).
    assert (Eq : pre ++ Some a :: x = (pre ++ [Some a]) ++ x) by by rewrite <- app_assoc.
    rewrite Eq in *. rewrite <- El. len_pos.
    destruct least as [u |]; [destruct (ar_used a <? u) |]; apply IH; try done; rewrite El; lia.
  - rewrite len_app, len_cons. pose proof (len_nonneg pre). pose proof (len_nonneg x). split; [lia |]. exists None. split; [| done]. rewrite to_nat_len. by apply list_lookup_middle.
Qed.

(** ** What keeps the map *)

(** An array put into the slot of one with the same name, or into a free one. *)
Lemma keeps_put st m i a : keeps st m -> (i < length (ars st))%nat ->
  (forall j b, ars st !! j = Some (Some b) -> j <> i -> ar_name b <> ar_name a) ->
  (forall b, ars st !! i = Some (Some b) -> ar_name b = ar_name a) ->
  (ar_changed a = false -> ay_files st !! ar_name a = Some (stored_lines a)) ->
  keeps (set_ars (<[i := Some a]> (ars st)) st) (<[ar_name a := value a]> m).
Proof.
  intros [K1 K2 K3 K4] Hi Ho Hs Hf. constructor; cbn [set_ars ars ay_files].
  - unfold len. by rewrite length_insert.
  - intros j k b c. destruct (decide (j = i)) as [-> | Hj], (decide (k = i)) as [-> | Hk];
      rewrite ?list_lookup_insert_eq, ?(list_lookup_insert_ne _ _ _ _ (not_eq_sym Hj)), ?(list_lookup_insert_ne _ _ _ _ (not_eq_sym Hk)) by done; intros Hb Hc E.
    + done.
    + injection Hb as <-. by destruct (Ho k c).
    + injection Hc as <-. by destruct (Ho j b).
    + by apply (K2 j k b c).
  - intros j b. rewrite list_lookup_insert. case_decide as Hj; intros Hb.
    + injection Hb as <-. split; [by rewrite lookup_insert_eq | done].
    + rewrite lookup_insert_ne; [by apply (K3 j) |]. intros E. by apply (Ho j b); [| intros ->; apply Hj |].
  - intros name Hn. rewrite lookup_insert_ne.
    + apply K4. intros j b Hb E. destruct (decide (j = i)) as [-> | Hne].
      * apply (Hn i a); [by rewrite list_lookup_insert_eq |]. by rewrite <- (Hs b).
      * apply (Hn j b); [by rewrite list_lookup_insert_ne | done].
    + apply (Hn i a). by rewrite list_lookup_insert_eq.
Qed.

Lemma keeps_update st m i a a' : keeps st m -> ars st !! i = Some (Some a) -> ar_name a' = ar_name a ->
  (ar_changed a' = false -> ay_files st !! ar_name a = Some (stored_lines a')) ->
  keeps (set_ars (<[i := Some a']> (ars st)) st) (<[ar_name a := value a']> m).
Proof.
  intros Hk Ha En Hf. rewrite <- En. apply keeps_put; try done.
  - by apply lookup_lt_Some in Ha.
  - intros j b Hb Hne E. apply Hne. destruct Hk as [_ K2 _ _]. apply (K2 j i b a); congruence.
  - intros b Hb. congruence.
  - by rewrite En.
Qed.

(** Marked as used: nothing else changes. *)
Lemma keeps_touch st m i a now : keeps st m -> ars st !! i = Some (Some a) ->
  keeps (set_ars (<[i := Some (set_time now a)]> (ars st)) st) m.
Proof.
  intros Hk Ha. destruct Hk as [K1 K2 K3 K4] eqn:E. destruct (K3 i a Ha) as [Hm Hf].
  pose proof (keeps_update st m i a (set_time now a) Hk Ha eq_refl Hf) as H. rewrite insert_id in H; [done |]. by rewrite Hm.
Qed.

(** The file of an array in memory is written. *)
Lemma keeps_stored st m i a : keeps st m -> ars st !! i = Some (Some a) ->
  keeps (set_files (<[ar_name a := stored_lines a]> (ay_files st)) st) m.
Proof.
  intros [K1 K2 K3 K4] Ha. constructor; cbn [set_files ars ay_files]; [done | done | |].
  - intros j b Hb. split; [by apply (K3 j) |]. intros Hc. destruct (decide (ar_name a = ar_name b)) as [E | E].
    + assert (i = j) as -> by by apply (K2 i j a b). assert (a = b) as -> by congruence. by rewrite lookup_insert_eq.
    + rewrite lookup_insert_ne by done. by apply (K3 j).
  - intros name Hn. rewrite lookup_insert_ne by (by apply (Hn i)). by apply K4.
Qed.

(** An array whose file has been written leaves the table. *)
Lemma keeps_evict st m i a : keeps st m -> ars st !! i = Some (Some a) -> ay_files st !! ar_name a = Some (stored_lines a) ->
  keeps (set_ars (<[i := None]> (ars st)) st) m.
Proof.
  intros [K1 K2 K3 K4] Ha Hf.
  assert (Hin : forall j b, <[i := None]> (ars st) !! j = Some (Some b) -> ars st !! j = Some (Some b) /\ j <> i).
  { intros j b. rewrite list_lookup_insert. case_decide as Hj; [done |]. intros Hb. split; [done |]. intros ->. apply Hj. by apply lookup_lt_Some in Hb. }
  constructor; cbn [set_ars ars ay_files].
  - unfold len. by rewrite length_insert.
  - intros j k b c [Hb _]%Hin [Hc _]%Hin. by apply K2.
  - intros j b [Hb _]%Hin. by apply (K3 j).
  - intros name Hn. destruct (decide (ar_name a = name)) as [<- | Hne].
    + rewrite Hf. destruct (K3 i a Ha) as [-> _]. done.
    + apply K4. intros j b Hb E. destruct (decide (j = i)) as [-> | Hj]; [congruence |]. by apply (Hn j b); [rewrite list_lookup_insert_ne |].
Qed.

(** An array that is taken out of memory and whose file is removed. *)
Lemma keeps_delete st m x name : keeps st m -> len x = AR_ROWS ->
  (forall j b, x !! j = Some (Some b) <-> ars st !! j = Some (Some b) /\ ar_name b <> name) ->
  keeps (set_files (delete name (ay_files st)) (set_ars x st)) (delete name m).
Proof.
  intros [K1 K2 K3 K4] Hl Hx. constructor; cbn [set_ars set_files ars ay_files]; [done | | |].
  - intros j k b c [Hb _]%Hx [Hc _]%Hx. by apply K2.
  - intros j b [Hb Hn]%Hx. rewrite !lookup_delete_ne by done. by apply (K3 j).
  - intros n Hn. destruct (decide (name = n)) as [<- | Hne]; [by rewrite !lookup_delete_eq |].
    rewrite !lookup_delete_ne by done. apply K4. intros j b Hb E. apply (Hn j b); [| done]. apply Hx. split; [done | congruence].
Qed.

(** A slot is made free. *)
Lemma array_slot_spec now st m : keeps st m ->
  exists i st', array_slot now st = Some (Z.of_nat i, st') /\ keeps st' m /\ ay_errors st' = ay_errors st /\
    ars st' !! i = Some None /\ (forall j b, ars st' !! j = Some (Some b) -> ars st !! j = Some (Some b)).
Proof.
  intros Hk. pose proof Hk as [K1 K2 K3 K4]. unfold array_slot.
  pose proof (slot_from_spec (ars st) [] 0 None) as H. change (len (@nil (option array_t))) with 0 in H. cbn [app] in H.
  assert (Hne : ars st <> []) by (intros E; rewrite E in K1; by vm_compute in K1). specialize (H ltac:(by intros o ?%elem_of_nil) eq_refl Hne).
  destruct (slot_from (ars st) 0 0 None) as [i free]. destruct H as (Hi & o & Ho & Hf).
  assert (Ei : i = Z.of_nat (Z.to_nat i)) by lia. rewrite Ei. set (k := Z.to_nat i) in *. clearbody k.
  destruct free.
  - rewrite (proj1 Hf eq_refl) in Ho. by exists k, st.
  - rewrite zget_nat, Ho. destruct o as [a |]; [| by pose proof (proj2 Hf eq_refl)]. cbn [mjoin option_join mbind option_bind].
    assert (Hlt : (k < length (ars st))%nat) by by apply lookup_lt_Some in Ho.
    assert (Hz : forall x : list (option array_t), x = ars st -> zset x (Z.of_nat k) None = Some (<[k := None]> (ars st))).
    { intros x ->. unfold zset. rewrite (proj2 (Z.ltb_ge _ _)), (proj2 (Z.leb_gt _ _)) by (unfold len; lia). cbn [orb]. by rewrite Nat2Z.id. }
    assert (Hold : forall j b, <[k := None]> (ars st) !! j = Some (Some b) -> ars st !! j = Some (Some b)).
    { intros j b. rewrite list_lookup_insert. by case_decide. }
    destruct (ar_changed a) eqn:Ec.
    + cbn [array_store snd set_files ars]. rewrite Hz by done. cbn [mbind option_bind]. eexists k, _. split; [reflexivity |].
      split_and!; [| done | by apply list_lookup_insert_eq | done].
      apply (keeps_evict (set_files (<[ar_name a := stored_lines a]> (ay_files st)) st) m k a); [by apply (keeps_stored _ _ k) | done |].
      cbn [set_files ay_files]. by rewrite lookup_insert_eq.
    + rewrite Hz by done. cbn [mbind option_bind]. eexists k, _. split; [reflexivity |].
      split_and!; [| done | by apply list_lookup_insert_eq | done]. apply (keeps_evict st m k a); [done | done |]. by apply (K3 k).
Qed.

Lemma put_array_spec st k a : (k < length (ars st))%nat -> put_array (Z.of_nat k) a st = Some (set_ars (<[k := a]> (ars st)) st).
Proof.
  intros Hk. unfold put_array, zset. rewrite (proj2 (Z.ltb_ge _ _)), (proj2 (Z.leb_gt _ _)) by (unfold len; lia). cbn [orb mbind option_bind]. by rewrite Nat2Z.id.
Qed.

Lemma get_array_spec st k a : ars st !! k = Some (Some a) -> get_array (Z.of_nat k) st = Some a.
Proof. intros H. unfold get_array. by rewrite zget_nat, H. Qed.

(** An array of the map is brought into memory, and the map is the same. *)
Lemma array_in_mem_spec B now name st m : good_blanks B -> keeps st m -> good m ->
  match m !! name with
  | None => array_in_mem B now name st = Some (-1, st)
  | Some v => exists k st' a, array_in_mem B now name st = Some (Z.of_nat k, st') /\ keeps st' m /\
      ars st' !! k = Some (Some a) /\ ar_name a = name /\ value a = v
  end.
Proof.
  intros HB Hk Hg. pose proof Hk as [K1 K2 K3 K4]. unfold array_in_mem, array_find.
  destruct (find_from_spec (ars st) name 0) as [[-> Hno] | (j & a & -> & Ha & En)].
  - cbn [Z.leb Z.compare]. assert (Hf := K4 name Hno). destruct (m !! name) as [v |] eqn:Em; cbn [fmap option_fmap option_map] in Hf.
    + pose proof (Hg name v Em) as Hv. pose proof (array_load_stored B now (array_of name v) st HB Hv Hf) as El. change (ar_name (array_of name v)) with name in El. rewrite El. cbn [mbind option_bind].
      destruct (array_slot_spec now st m Hk) as (k & st' & -> & Hk' & _ & Hfree & Hold). cbn [mbind option_bind].
      assert (Hlt : (k < length (ars st'))%nat) by by apply lookup_lt_Some in Hfree. rewrite put_array_spec by done. cbn [mbind option_bind].
      set (a := mkArray _ _ _ _ _). exists k, (set_ars (<[k := Some a]> (ars st')) st'), a. split_and!; [done | | by apply list_lookup_insert_eq | done | by destruct v].
      replace m with (<[ar_name a := value a]> m) by (apply insert_id; change (ar_name a) with name; rewrite Em; by destruct v). apply keeps_put; [done | done | | | ].
      * intros i b Hb _. by apply (Hno i b), Hold.
      * intros b Hb. congruence.
      * intros _. pose proof Hk' as [_ _ _ K4']. rewrite K4'; [change (ar_name a) with name; rewrite Em; by destruct v |].
        intros i b Hb. by apply (Hno i b), Hold.
    + unfold array_load. destruct (bool_decide (name = [])); [done |]. by rewrite Hf.
  - rewrite Z.add_0_l, (proj2 (Z.leb_le 0 _)) by lia. destruct (K3 j a Ha) as [Hm _]. rewrite En in Hm. rewrite Hm. by exists j, st, a.
Qed.

(** ** The functions on the map *)

Inductive ar_op := Size | SetCell | Get | Create | InsertRow | RemoveRow | Store | Delete.

Definition op_name (op : ar_op) : string :=
  match op with
  | Size => "array_size" | SetCell => "array_set" | Get => "array" | Create => "array_create"
  | InsertRow => "array_insert" | RemoveRow => "array_remove" | Store => "array_store" | Delete => "array_delete"
  end.

Section spec.
Context (B : list Z).

(** What a function adds to the result, what it returns, and the map; [None] is
    undefined behaviour. *)
Definition spec (op : ar_op) (arg : text) (m : array_map) : option (text * Z * array_map) :=
  let '(name, d) := array_args B arg in
  let on (none : text) (f : list Z * list text -> option (text * Z * array_map)) :=
    match m !! name with None => Some (none, 0, m) | Some v => f v end in
  let at_cell (f : list Z * list text -> Z -> option (text * Z * array_map)) :=
    on [] (fun v => if len d <? len v.1 then Some ([], 0, m) else
                    i ← array_index v.1 d 0; if i <? 0 then Some ([], 0, m) else f v i) in
  let rows (f : array_t -> Z -> Z -> option array_t) :=
    v0 ← num_at d 0;
    on [] (fun v => v1 ← num_at d 1; a ← f (array_of name v) (v0 - 1) v1; Some ([], 1, <[name := value a]> m)) in
  match op with
  | Size => on [48] (fun v => d0 ← num_at d 0; n ← if d0 <? 0 then Some (len v.1) else zget v.1 (d0 - 1); Some (show n, 1, m))
  | Get => if (token_result B 1 arg).1 <? 0 then Some ([], 0, m) else
           at_cell (fun v i => cell ← zget v.2 i; Some (cell, 1, m))
  | SetCell => at_cell (fun v i => cell ← zset v.2 i (nth_rest B (len v.1 + 2) arg); Some (show i, 1, <[name := (v.1, cell)]> m))
  | Create =>
      d0 ← num_at d 0;
      negative ← if d0 <? 0 then Some true else d1 ← num_at d 1; Some (d1 <? 0);
      if negative || bool_decide (is_Some (m !! name)) then Some ([48], 0, m) else
      a ← array_make 0 name d; Some ([49], 1, <[name := value a]> m)
  | InsertRow => rows (insert_row 0 name)
  | RemoveRow => rows (remove_row 0 name)
  | Store => Some ([], 1, m)
  | Delete => Some ([], 1, delete name m)
  end.

(** The name is not cut off. *)
Definition named (arg : text) : Prop := len (nth_arg B 1 arg) < AR_NAME.

Lemma named_args arg : named arg -> (array_args B arg).1 = nth_arg B 1 arg.
Proof. unfold named, array_args. cbn [fst]. intros H. apply take_ge. unfold len in H. unfold AR_NAME in *. lia. Qed.

(** *** Rows do not depend on the name, the clock and the marks *)

Lemma array_make_name now name d : array_make now name d = (fun a => mkArray name (ar_d a) (ar_cell a) false now) <$> array_make 0 [] d.
Proof. unfold array_make. destruct d as [| d0 d]; [done |]. by destruct (_ <=? 0). Qed.

Lemma insert_row_value now name a k i :
  insert_row now name a k i = (fun b => mkArray name (ar_d b) (ar_cell b) true now) <$> insert_row 0 name (array_of name (value a)) k i.
Proof.
  unfold insert_row. cbn [array_of value ar_d fst snd]. destruct (resized (ar_d a) k 1) as [d |]; [| done]. cbn [mbind option_bind].
  rewrite (array_make_name now), (array_make_name 0 name). destruct (array_make 0 [] d) as [b |]; [| done].
  cbn [mbind option_bind fmap option_fmap option_map ar_cell]. unfold copy_insert. cbn [ar_cell ar_d]. by destruct (copy_rows _ _ _ _ _ _ _ _).
Qed.

Lemma remove_row_value now name a k i :
  remove_row now name a k i = (fun b => mkArray name (ar_d b) (ar_cell b) true now) <$> remove_row 0 name (array_of name (value a)) k i.
Proof.
  unfold remove_row. cbn [array_of value ar_d fst snd]. destruct (resized (ar_d a) k (-1)) as [d |]; [| done]. cbn [mbind option_bind].
  rewrite (array_make_name now), (array_make_name 0 name). destruct (array_make 0 [] d) as [b |]; [| done].
  cbn [mbind option_bind fmap option_fmap option_map ar_cell]. unfold copy_remove. cbn [ar_cell ar_d]. by destruct (copy_rows _ _ _ _ _ _ _ _).
Qed.
End spec.

(** ** One call *)

Section step.
Context (B : list Z) (HB : good_blanks B) (now : Z) (arg : text).

Definition done_as (op : ar_op) (res : option ar_result) (r : text) (n : Z) (m : array_map) : Prop :=
  exists r' n' st', res = Some (r', n', st') /\ keeps st' m /\ (op <> Store -> r' = r /\ n' = n).

Lemma keeps_err name e st m : keeps st m -> keeps (array_err name e st) m.
Proof. by intros [K1 K2 K3 K4]. Qed.

Lemma fails_as op name e st m : keeps st m -> done_as op (fails name e st) [] 0 m.
Proof. intros H. eexists _, _, _. split_and!; [reflexivity | by apply keeps_err | done]. Qed.

Lemma returns_as op r n st m : keeps st m -> done_as op (Some (r, n, st)) r n m.
Proof. intros H. by exists r, n, st. Qed.

Lemma touch st m k a : keeps st m -> ars st !! k = Some (Some a) ->
  exists st', put_array (Z.of_nat k) (Some (set_time now a)) st = Some st' /\ keeps st' m.
Proof.
  intros Hk Ha. eexists. split; [apply put_array_spec; by apply lookup_lt_Some in Ha |]. by apply keeps_touch.
Qed.

Lemma changes st m k a a' : keeps st m -> ars st !! k = Some (Some a) -> ar_name a' = ar_name a -> ar_changed a' = true ->
  exists st', put_array (Z.of_nat k) (Some a') st = Some st' /\ keeps st' (<[ar_name a := value a']> m).
Proof.
  intros Hk Ha En Ec. eexists. split; [apply put_array_spec; by apply lookup_lt_Some in Ha |]. apply keeps_update; [done | done | done |]. by rewrite Ec.
Qed.

Lemma array_size_as st m r n m' : keeps st m -> good m -> spec B Size arg m = Some (r, n, m') -> done_as Size (array_size B now arg st) r n m'.
Proof using HB.
  intros Hk Hg. unfold spec, array_size. destruct (array_args B arg) as [name d]. pose proof (array_in_mem_spec B now name st m HB Hk Hg) as Hin.
  destruct (m !! name) as [v |] eqn:Em; [| intros [= <- <- <-]; rewrite Hin; by apply returns_as].
  destruct Hin as (k & st1 & a & -> & Hk1 & Ha & <- & <-). intros H. cbn [mbind option_bind]. rewrite (proj2 (Z.ltb_ge _ 0)), (get_array_spec _ _ _ Ha) by lia.
  cbn [mbind option_bind]. destruct (touch st1 m k a Hk1 Ha) as (st2 & -> & Hk2). cbn [mbind option_bind].
  destruct (num_at d 0) as [d0 |]; [| done]. cbn [mbind option_bind] in *. cbn [value fst] in H. destruct (if d0 <? 0 then _ else _); [| done].
  cbn [mbind option_bind] in *. simplify_eq. by apply returns_as.
Qed.

Lemma array_get_as st m r n m' : keeps st m -> good m -> spec B Get arg m = Some (r, n, m') -> done_as Get (array_get B now arg st) r n m'.
Proof using HB.
  intros Hk Hg. unfold spec, array_get. destruct (array_args B arg) as [name d]. destruct (_ <? 0); [intros [= <- <- <-]; by apply returns_as |].
  pose proof (array_in_mem_spec B now name st m HB Hk Hg) as Hin.
  destruct (m !! name) as [v |] eqn:Em; [| intros [= <- <- <-]; rewrite Hin; by apply fails_as].
  destruct Hin as (k & st1 & a & -> & Hk1 & Ha & <- & <-). intros H. cbn [mbind option_bind]. rewrite (proj2 (Z.ltb_ge _ 0)), (get_array_spec _ _ _ Ha) by lia.
  cbn [mbind option_bind value fst snd] in *. destruct (_ <? _); [simplify_eq; by apply fails_as |].
  destruct (array_index _ _ _) as [i |]; [| done]. cbn [mbind option_bind] in *. destruct (i <? 0); [simplify_eq; by apply fails_as |].
  destruct (zget (ar_cell a) i); [| done]. cbn [mbind option_bind] in *. destruct (touch st1 m k a Hk1 Ha) as (st2 & -> & Hk2).
  simplify_eq. by apply returns_as.
Qed.

Lemma array_set_as st m r n m' : keeps st m -> good m -> spec B SetCell arg m = Some (r, n, m') -> done_as SetCell (array_set B now arg st) r n m'.
Proof using HB.
  intros Hk Hg. unfold spec, array_set. destruct (array_args B arg) as [name d]. pose proof (array_in_mem_spec B now name st m HB Hk Hg) as Hin.
  destruct (m !! name) as [v |] eqn:Em; [| intros [= <- <- <-]; rewrite Hin; by apply fails_as].
  destruct Hin as (k & st1 & a & -> & Hk1 & Ha & <- & <-). intros H. cbn [mbind option_bind]. rewrite (proj2 (Z.ltb_ge _ 0)), (get_array_spec _ _ _ Ha) by lia.
  cbn [mbind option_bind value fst snd] in *. destruct (_ <? _); [simplify_eq; by apply fails_as |].
  destruct (array_index _ _ _) as [i |]; [| done]. cbn [mbind option_bind] in *. destruct (i <? 0); [simplify_eq; by apply fails_as |].
  destruct (zset (ar_cell a) i _) as [cell |]; [| done]. cbn [mbind option_bind] in *.
  destruct (changes st1 m k a (set_cell cell (set_changed true (set_time now a))) Hk1 Ha eq_refl eq_refl) as (st2 & -> & Hk2).
  simplify_eq. by apply returns_as.
Qed.

Lemma array_rows_as (insert : bool) st m r n m' : let op := if insert then InsertRow else RemoveRow in
  keeps st m -> good m -> spec B op arg m = Some (r, n, m') ->
  done_as op (if insert then array_insert B now arg st else array_remove B now arg st) r n m'.
Proof using HB.
  intros op Hk Hg. unfold op, spec, array_insert, array_remove. destruct (array_args B arg) as [name d].
  pose proof (array_in_mem_spec B now name st m HB Hk Hg) as Hin.
  destruct insert; (destruct (num_at d 0) as [v0 |]; [| done]; cbn [mbind option_bind];
    destruct (m !! name) as [v |] eqn:Em; [| intros [= <- <- <-]; rewrite Hin; by apply fails_as];
    destruct Hin as (k & st1 & a & -> & Hk1 & Ha & <- & <-); intros H; cbn [mbind option_bind]; rewrite (proj2 (Z.ltb_ge _ 0)) by lia;
    destruct (num_at d 1) as [v1 |]; [| done]; cbn [mbind option_bind] in *; rewrite (get_array_spec _ _ _ Ha); cbn [mbind option_bind];
    rewrite ?(insert_row_value now), ?(remove_row_value now)).
  - destruct (insert_row 0 _ _ _ _) as [b |]; [| done]. cbn [mbind option_bind fmap option_fmap option_map] in *. simplify_eq.
    destruct (changes st1 m k a (mkArray (ar_name a) (ar_d b) (ar_cell b) true now) Hk1 Ha eq_refl eq_refl) as (st2 & -> & Hk2). by apply returns_as.
  - destruct (remove_row 0 _ _ _ _) as [b |]; [| done]. cbn [mbind option_bind fmap option_fmap option_map] in *. simplify_eq.
    destruct (changes st1 m k a (mkArray (ar_name a) (ar_d b) (ar_cell b) true now) Hk1 Ha eq_refl eq_refl) as (st2 & -> & Hk2). by apply returns_as.
Qed.

(** Whether there is an array is whether one is in memory or in a file. *)
Lemma exists_spec st m name : keeps st m -> ((0 <=? array_find (ars st) name) = true /\ is_Some (m !! name)) \/
  (array_find (ars st) name = -1 /\ (forall i a, ars st !! i = Some (Some a) -> ar_name a <> name) /\
   bool_decide (is_Some (ay_files st !! name)) = bool_decide (is_Some (m !! name))).
Proof.
  intros [K1 K2 K3 K4]. unfold array_find. destruct (find_from_spec (ars st) name 0) as [[-> Hno] | (j & a & -> & Ha & En)].
  - right. split_and!; [done | done |]. rewrite (K4 name Hno). apply bool_decide_ext. apply fmap_is_Some.
  - left. split; [apply Z.leb_le; lia |]. destruct (K3 j a Ha) as [Hm _]. rewrite <- En, Hm. done.
Qed.

Lemma array_create_as st m r n m' : keeps st m -> good m' -> named B arg -> spec B Create arg m = Some (r, n, m') ->
  done_as Create (array_create B now arg st) r n m'.
Proof using Type.
  intros Hk Hg Hn. unfold spec, array_create. pose proof (named_args B arg Hn) as En. destruct (array_args B arg) as [name d]. cbn [fst] in En. rewrite <- En.
  destruct (num_at d 0) as [d0 |]; [| done]. cbn [mbind option_bind]. destruct (if d0 <? 0 then _ else _) as [negative |]; [| done]. cbn [mbind option_bind].
  destruct negative; cbn [orb]; [intros [= <- <- <-]; apply returns_as; exact Hk |].
  destruct (exists_spec st m name Hk) as [[-> Hm] | (-> & Hno & ->)].
  - rewrite (bool_decide_eq_true_2 _ Hm). cbn [orb]. intros [= <- <- <-]. by apply returns_as, keeps_err.
  - change (0 <=? -1) with false. cbn [orb]. destruct (bool_decide _); [intros [= <- <- <-]; by apply returns_as, keeps_err |].
    rewrite (array_make_name 0 name), (array_make_name now name). destruct (array_slot_spec now st m Hk) as (k & st1 & -> & Hk1 & _ & Hfree & Hold).
    destruct (array_make 0 [] d) as [b |]; [| done]. cbn [mbind option_bind fmap option_fmap option_map array_store ar_name]. intros [= <- <- <-].
    set (a := mkArray name (ar_d b) (ar_cell b) false now). change (mkArray name (ar_d b) (ar_cell b) false 0) with (array_of name (value a)).
    assert (Hlt : (k < length (ars st1))%nat) by by apply lookup_lt_Some in Hfree.
    rewrite put_array_spec by done. cbn [mbind option_bind]. apply returns_as. cbn [set_files ars].
    assert (Hno1 : forall i c, ars st1 !! i = Some (Some c) -> ar_name c <> name) by (intros i c Hc; by apply (Hno i c), Hold).
    change (value (array_of name (value a))) with (value a).
    destruct Hk1 as [K1 K2 K3 K4]. constructor; cbn [set_ars set_files ars ay_files].
    + unfold len. by rewrite length_insert.
    + intros i j b1 b2. destruct (decide (i = k)) as [-> | Hi], (decide (j = k)) as [-> | Hj];
        rewrite ?list_lookup_insert_eq, ?(list_lookup_insert_ne _ _ _ _ (not_eq_sym Hi)), ?(list_lookup_insert_ne _ _ _ _ (not_eq_sym Hj)) by done; intros E1 E2 E.
      * done.
      * injection E1 as <-. by destruct (Hno1 j b2).
      * injection E2 as <-. by destruct (Hno1 i b1).
      * by apply (K2 i j b1 b2).
    + intros i c. rewrite list_lookup_insert. case_decide as Hi; intros Hc.
      * injection Hc as <-. by rewrite !lookup_insert_eq.
      * rewrite !lookup_insert_ne by (intros E; by apply (Hno1 i c)). by apply (K3 i).
    + intros nm Hnm. destruct (decide (name = nm)) as [<- | Hne]; [by rewrite !lookup_insert_eq |].
      rewrite !lookup_insert_ne by done. apply K4. intros i c Hc. apply (Hnm i c). rewrite list_lookup_insert_ne; [done |]. intros <-. congruence.
Qed.

Lemma array_store_as st m : keeps st m -> done_as Store (array_store_func B now arg st) [] 1 m.
Proof using Type.
  intros Hk. unfold array_store_func. destruct (array_args B arg) as [name d]. unfold array_find.
  destruct (find_from_spec (ars st) name 0) as [[-> _] | (j & a & -> & Ha & En)].
  - cbn [Z.ltb Z.compare]. destruct (fails_as Store name "no loaded array" st m Hk) as (r & n & st' & E & H & _). by exists r, n, st'.
  - rewrite Z.add_0_l, (proj2 (Z.ltb_ge _ 0)), (get_array_spec _ _ _ Ha) by lia. cbn [mbind option_bind array_store].
    set (st1 := set_files _ st). change (ars st) with (ars st1) in Ha. rewrite put_array_spec by (by apply lookup_lt_Some in Ha). cbn [mbind option_bind].
    apply returns_as. pose proof (keeps_stored st m j a Hk Ha) as Hk1. change (set_files _ st) with st1 in Hk1.
    pose proof (keeps_update st1 m j a (set_time now (set_changed false a)) Hk1 Ha eq_refl) as H.
    replace m with (<[ar_name a := value (set_time now (set_changed false a))]> m); [| apply insert_id; by destruct (ks_table _ _ Hk1 j a Ha)].
    apply H. intros _. unfold st1. cbn [set_files ay_files]. apply lookup_insert_eq.
Qed.

Lemma array_delete_as st m : keeps st m -> named B arg -> done_as Delete (array_delete B arg st) [] 1 (delete (nth_arg B 1 arg) m).
Proof using Type.
  intros Hk Hn. unfold array_delete. pose proof (named_args B arg Hn) as En. destruct (array_args B arg) as [name d]. cbn [fst] in En. rewrite <- En. unfold array_find.
  destruct (find_from_spec (ars st) name 0) as [[-> Hno] | (j & a & -> & Ha & Ena)].
  - cbn [Z.leb Z.compare mbind option_bind]. apply returns_as. destruct st as [x files errors]. cbn [set_files ars ay_files ay_errors] in *.
    apply (keeps_delete (mkAr x files errors) m x name); [done | apply (ks_len _ _ Hk) |]. intros i b. split; [intros Hb; split; [done | by apply (Hno i)] | by intros [? _]].
  - rewrite Z.add_0_l, (proj2 (Z.leb_le 0 _)), put_array_spec by (lia || by apply lookup_lt_Some in Ha). cbn [mbind option_bind].
    apply returns_as. apply (keeps_delete st m _ name Hk).
    + unfold len. rewrite length_insert. apply (ks_len _ _ Hk).
    + intros i b. destruct (decide (j = i)) as [<- | Hne].
      * rewrite list_lookup_insert_eq by by apply lookup_lt_Some in Ha. split; [done |]. intros [Hb []]. congruence.
      * rewrite list_lookup_insert_ne by done. split; [| by intros [? _]]. intros Hb. split; [done |]. intros E. apply Hne.
        apply (ks_once _ _ Hk j i a b); [done | done | congruence].
Qed.

Lemma func_ar_as eval aref op st m r n m' : keeps st m -> good m -> good m' -> named B arg -> spec B op arg m = Some (r, n, m') ->
  done_as op (func_ar B eval now (bytes (op_name op)) arg aref st) r n m'.
Proof using HB.
  intros Hk Hg Hg' Hn Hs. destruct op.
  - exact (array_size_as st m r n m' Hk Hg Hs).
  - exact (array_set_as st m r n m' Hk Hg Hs).
  - exact (array_get_as st m r n m' Hk Hg Hs).
  - exact (array_create_as st m r n m' Hk Hg' Hn Hs).
  - exact (array_rows_as true st m r n m' Hk Hg Hs).
  - exact (array_rows_as false st m r n m' Hk Hg Hs).
  - unfold spec in Hs. destruct (array_args B arg). injection Hs as <- <- <-. exact (array_store_as st m Hk).
  - unfold spec in Hs. pose proof (named_args B arg Hn) as En. destruct (array_args B arg). injection Hs as <- <- <-. cbn [fst] in En. rewrite En. by apply array_delete_as.
Qed.
End step.

(** ** Any number of calls *)

(** A call, at the time it is made. *)
Definition call : Type := Z * ar_op * text.

(** What the page sees: [$array_store] tells whether the array is in memory. *)
Definition seen (op : ar_op) (r : text) (n : Z) : option (text * Z) := match op with Store => None | _ => Some (r, n) end.

Fixpoint run_calls (B : list Z) (eval : text -> ar_state -> option (text * ar_state)) (aref : text)
    (calls : list call) (st : ar_state) : option (list (option (text * Z)) * ar_state) :=
  match calls with
  | [] => Some ([], st)
  | (now, op, arg) :: calls =>
      '(r, n, st) ← func_ar B eval now (bytes (op_name op)) arg aref st;
      '(rs, st) ← run_calls B eval aref calls st;
      Some (seen op r n :: rs, st)
  end.

(** Runs on the map in which all arrays can be kept and no name is cut off. *)
Inductive spec_run (B : list Z) : list call -> array_map -> list (option (text * Z)) -> array_map -> Prop :=
| spec_nil m : spec_run B [] m [] m
| spec_cons now op arg calls m r n m1 rs m2 :
    named B arg -> spec B op arg m = Some (r, n, m1) -> good m1 -> spec_run B calls m1 rs m2 ->
    spec_run B ((now, op, arg) :: calls) m (seen op r n :: rs) m2.

Lemma run_calls_as B eval aref calls m rs m' : good_blanks B -> spec_run B calls m rs m' -> good m ->
  forall st, keeps st m -> exists st', run_calls B eval aref calls st = Some (rs, st') /\ keeps st' m'.
Proof.
  intros HB Hr. induction Hr as [m | now op arg calls m r n m1 rs m2 Hn Hs Hg Hr IH]; intros Hm st Hk; cbn [run_calls]; [by exists st |].
  destruct (func_ar_as B HB now arg eval aref op st m r n m1 Hk Hm Hg Hn Hs) as (r' & n' & st1 & -> & Hk1 & He). cbn [mbind option_bind].
  destruct (IH Hg st1 Hk1) as (st2 & -> & Hk2). cbn [mbind option_bind]. exists st2. split; [| done]. do 3 f_equal.
  destruct op; try done; (by destruct He as [-> ->]).
Qed.

(** No arrays at all. *)
Definition no_arrays : ar_state := mkAr (replicate (Z.to_nat AR_ROWS) None) ∅ [].

Lemma no_array i a : ars no_arrays !! i <> Some (Some a).
Proof. cbn [no_arrays ars]. intros [H _]%lookup_replicate. done. Qed.

Lemma keeps_no_arrays : keeps no_arrays ∅.
Proof.
  constructor; [done | | |].
  - intros i j a b H. by apply no_array in H.
  - intros i a H. by apply no_array in H.
  - intros name _. cbn. by rewrite !lookup_empty.
Qed.

Lemma good_empty : good ∅.
Proof. intros name v H. by rewrite lookup_empty in H. Qed.

Lemma good_insert m name v : good m -> filed (array_of name v) -> good (<[name := v]> m).
Proof. intros Hm Hv n w. rewrite lookup_insert. case_decide as E; [intros [= <-]; by rewrite <- E | apply Hm]. Qed.

(** C4: the fifty slots and the files are one map of names to arrays: whatever
    calls are made, of any number of arrays and at any times, what
    [$array_create], [$array_set], [$array], [$array_size], [$array_insert],
    [$array_remove] and [$array_delete] add to the page and return is what they
    add on the map, and nothing of an array is lost or comes back when it makes
    room for another one, has been loaded again or stored.  The runs are those
    of [spec_run]: names have 1 to 99 characters, sizes are below 32768, cells
    can be kept in files, and no call reads or writes outside an array (where
    the examples below show what the code does). *)
Theorem arrays_refine_map B eval aref calls rs m :
  good_blanks B -> spec_run B calls ∅ rs m ->
  exists st, run_calls B eval aref calls no_arrays = Some (rs, st) /\ keeps st m.
Proof. intros HB Hr. exact (run_calls_as B eval aref calls ∅ rs m HB Hr good_empty no_arrays keeps_no_arrays). Qed.

Definition blank_chars : list Z := [32; 10; 9].
Definition nothing (s : text) (st : ar_state) : option (text * ar_state) := None.
Definition at_times (calls : list (ar_op * text)) : list call := imap (fun i c => (Z.of_nat i, c.1, c.2)) calls.
Definition plays (calls : list (ar_op * text)) : option (list (option (text * Z))) :=
  fst <$> run_calls blank_chars nothing [] (at_times calls) no_arrays.

Lemma good_one name v : filed (array_of name v) -> good {[name := v]}.
Proof. intros Hv. rewrite <- insert_empty. by apply good_insert; [apply good_empty |]. Qed.

Lemma arrays_refine_map_witness :
  let calls := [(1, Create, bytes "a 2 2"); (2, SetCell, bytes "a 1 0 two words"); (3, Store, bytes "a");
                (4, InsertRow, bytes "a 1 1"); (5, Get, bytes "a 2 0"); (6, Delete, bytes "a")] in
  let rs := [Some ([49], 1); Some ([50], 1); None; Some ([], 1); Some (bytes "two words", 1); Some ([], 1)] in
  exists st, run_calls blank_chars nothing [] calls no_arrays = Some (rs, st) /\ keeps st ∅.
Proof.
  cbv zeta. refine (arrays_refine_map blank_chars nothing [] _ _ ∅ ascii_blanks _).
  set (words := bytes "two words").
  set (m2 := {[bytes "a" := ([2; 2], [[]; []; words; []])]} : array_map).
  set (m4 := {[bytes "a" := ([3; 2], [[]; []; []; []; words; []])]} : array_map).
  assert (H2 : good m2) by (apply good_one; by_filed). assert (H4 : good m4) by (apply good_one; by_filed).
  apply (spec_cons _ 1 Create _ _ _ [49] 1 {[bytes "a" := ([2; 2], [[]; []; []; []])]}); [done | by vm_compute | apply good_one; by_filed |].
  apply (spec_cons _ 2 SetCell _ _ _ [50] 1 m2); [done | by vm_compute | exact H2 |].
  apply (spec_cons _ 3 Store _ _ _ [] 1 m2); [done | by vm_compute | exact H2 |].
  apply (spec_cons _ 4 InsertRow _ _ _ [] 1 m4); [done | by vm_compute | exact H4 |].
  apply (spec_cons _ 5 Get _ _ _ words 1 m4); [done | by vm_compute | exact H4 |].
  apply (spec_cons _ 6 Delete _ _ _ [] 1 ∅); [done | by vm_compute | apply good_empty |].
  apply spec_nil.
Defined.

(** ** What the functions do at their bounds *)

(** Fifty-one arrays, each with its value. *)
Example more_than_in_memory :
  let named i rest := bytes "n" ++ show i ++ rest in
  let calls := map (fun i => (Create, named i (bytes " 1 1"))) (seqZ 0 51) ++
    map (fun i => (SetCell, named i (bytes " 0 0 v" ++ show i))) (seqZ 0 51) in
  last <$> plays (calls ++ [(Get, bytes "n0 0 0")]) = Some (Some (Some (bytes "v0", 1))) /\
  last <$> plays (calls ++ [(Get, bytes "n50 0 0")]) = Some (Some (Some (bytes "v50", 1))).
Proof. by vm_compute. Qed.

(** A coordinate below 0 is that of another cell. *)
Example negative_coordinate :
  plays [(Create, bytes "a 2 2"); (SetCell, bytes "a 0 1 x"); (Get, bytes "a 1 -1")] = Some [Some ([49], 1); Some ([49], 1); Some (bytes "x", 1)].
Proof. by vm_compute. Qed.

(** There are no arrays of one dimension, and an array without cells is not
    noticed. *)
Example one_dimension : plays [(Create, bytes "a 3")] = Some [Some ([48], 0)].
Proof. by vm_compute. Qed.

Example no_cells : plays [(Create, bytes "a 0 2")] = None.
Proof. by vm_compute. Qed.

(** When the only column is removed the array has one dimension, and its cells
    are empty; when the only row is removed there is no last cell. *)
Example last_column_removed :
  plays [(Create, bytes "a 2 1"); (SetCell, bytes "a 1 0 x"); (RemoveRow, bytes "a 2 0"); (Size, bytes "a"); (Size, bytes "a 1"); (Get, bytes "a 1")] =
  Some [Some ([49], 1); Some ([49], 1); Some ([], 1); Some ([49], 1); Some ([50], 1); Some ([], 1)].
Proof. by vm_compute. Qed.

Example last_row_removed : plays [(Create, bytes "a 1 2"); (RemoveRow, bytes "a 1 0")] = None.
Proof. by vm_compute. Qed.

(** A row or a dimension that there is not. *)
Example no_such_row : plays [(Create, bytes "a 2 2"); (RemoveRow, bytes "a 1 2")] = None.
Proof. by vm_compute. Qed.

Example no_such_dimension : plays [(Create, bytes "a 2 2"); (InsertRow, bytes "a 0 0")] = None.
Proof. by vm_compute. Qed.

(** Sizes are read back as 16 bit numbers. *)
Example size_wraps st : ay_files st = {[bytes "a" := [bytes "2 40000"; bytes "40000 1 "; []; []; []]]} -> array_load blank_chars 0 (bytes "a") st = None.
Proof. destruct st as [x f e]. cbn [ay_files]. intros ->. by vm_compute. Qed.

(** With ten dimensions an array can be made, but not loaded. *)
Example ten_dimensions :
  match array_make 0 (bytes "a") (replicate 10 1) with
  | Some a => array_load blank_chars 0 (bytes "a") (array_store 0 a no_arrays).2 = None
  | None => False
  end.
Proof. by vm_compute. Qed.

(** A name of a hundred characters is cut off in the table and in the file, but
    looked up in full: its array is created again, and what was in it is lost. *)
Example long_name :
  let name := replicate 100 120 in
  let does what arg st := '(_, _, st) ← func_ar blank_chars nothing 0 (bytes what) (name ++ bytes arg) [] st; Some st in
  (st ← does "array_create" " 1 1" no_arrays; st ← does "array_set" " 0 0 x" st; st ← does "array_store" " " st; st ← does "array_clear" " " st;
   '(r, _, st) ← func_ar blank_chars nothing 0 (bytes "array_create") (name ++ bytes " 1 1") [] st;
   '(cell, _, _) ← func_ar blank_chars nothing 0 (bytes "array") (name ++ bytes " 0 0") [] st;
   Some (r, cell)) = Some ([49], []).
Proof. by vm_compute. Qed.

(** *** References *)

(** The arguments of [$array_eval]: a "$" is evaluated also behind a backslash. *)
Example quoted_dollar :
  array_recurs (fun arg st => Some (arg, st)) (bytes "\$x") (bytes "a") [1; 2] no_arrays = Some (bytes "a 1 2", no_arrays).
Proof. by vm_compute. Qed.

Definition with_cells : option ar_state :=
  snd <$> run_calls blank_chars nothing [] (at_times [(Create, bytes "a 2 2"); (SetCell, bytes "a 0 1 x"); (SetCell, bytes "a 1 1 y")]) no_arrays.
Definition refers (what : string) (arg : text) : option (text * Z) :=
  st ← with_cells; '(r, n, _) ← func_ar blank_chars nothing 9 (bytes what) arg (bytes "a 1 1") st; Some (r, n).

(** [$cell] puts a blank before the first value as well. *)
Example cell_blank : refers "cell" (bytes "R-1 R0 1 1") = Some (bytes " x y", 1).
Proof. by vm_compute. Qed.

(** [$cells]: a range, one of a single cell, and one that starts outside. *)
Example cells_range : refers "cells" (bytes "0 1 1 1") = Some (bytes "x y", 1).
Proof. by vm_compute. Qed.

Example cells_single : refers "cells" (bytes "0 1 0 1") = None.
Proof. by vm_compute. Qed.

Example cells_outside : refers "cells" (bytes "2 1 1 1") = None.
Proof. by vm_compute. Qed.
