(* ===== verification/Objects.v ===== *)
(** Objects of CML (src/CV2/obj; src/CV2/sweb: obnew.c, obvalue.c, obset.c,
    funcob.c; src/CV2/include/object.h): an object has a name, a class and
    members; a page refers to a member as object.member, and the value of a
    member may be the name of another object.  Each process has a table of
    objects; persistent ones are also in files, which all processes share.
    [None] is undefined behaviour: a text longer than its buffer, an access
    outside an array.  Files can be locked and made, and memory does not run
    out. *)
From stdpp Require Import gmap.
From S2P Require Import Prelude Memory Chix ChixCore ChixEdit ChixSearch ChixParse Vartab Str Numbers Html Arrays.

(** ** Objects and their table *)

Record object_t := mkObj {
  ob_name : text; ob_class : text; ob_memnames : text; ob_persists : Z; ob_wait : bool;
  ob_updated : Z; ob_lockfd : Z; ob_values : list text; ob_taint : list bool }.

Definition ob_names (name : text) (o : object_t) : object_t :=
  mkObj name (ob_class o) (ob_memnames o) (ob_persists o) (ob_wait o) (ob_updated o) (ob_lockfd o) (ob_values o) (ob_taint o).
Definition ob_classes (class : text) (o : object_t) : object_t :=
  mkObj (ob_name o) class (ob_memnames o) (ob_persists o) (ob_wait o) (ob_updated o) (ob_lockfd o) (ob_values o) (ob_taint o).
Definition ob_waits (w : bool) (o : object_t) : object_t :=
  mkObj (ob_name o) (ob_class o) (ob_memnames o) (ob_persists o) w (ob_updated o) (ob_lockfd o) (ob_values o) (ob_taint o).
Definition ob_keeps (persists : Z) (o : object_t) : object_t :=
  mkObj (ob_name o) (ob_class o) (ob_memnames o) persists (ob_wait o) (ob_updated o) (ob_lockfd o) (ob_values o) (ob_taint o).
Definition ob_time (now : Z) (o : object_t) : object_t :=
  mkObj (ob_name o) (ob_class o) (ob_memnames o) (ob_persists o) (ob_wait o) now (ob_lockfd o) (ob_values o) (ob_taint o).
Definition ob_locks (fd : Z) (o : object_t) : object_t :=
  mkObj (ob_name o) (ob_class o) (ob_memnames o) (ob_persists o) (ob_wait o) (ob_updated o) fd (ob_values o) (ob_taint o).
Definition ob_fills (values : list text) (o : object_t) : object_t :=
  mkObj (ob_name o) (ob_class o) (ob_memnames o) (ob_persists o) (ob_wait o) (ob_updated o) (ob_lockfd o) values (ob_taint o).
Definition ob_taints (taint : list bool) (o : object_t) : object_t :=
  mkObj (ob_name o) (ob_class o) (ob_memnames o) (ob_persists o) (ob_wait o) (ob_updated o) (ob_lockfd o) (ob_values o) taint.

(** [struct obtab_t], and the number for the next object without a name. *)
Record obtab := mkObtab { ot_max : Z; ot_class : vartab; ot_obj : list object_t; ot_num : Z }.

(** A process: its table, the files, and the errors logged. *)
Record ob_state := mkObs { otab : obtab; ob_files : gmap text (list text); ob_errors : list (string * text) }.

Definition set_objs (l : list object_t) (st : ob_state) : ob_state :=
  mkObs (mkObtab (ot_max (otab st)) (ot_class (otab st)) l (ot_num (otab st))) (ob_files st) (ob_errors st).
Definition set_ob_files (f : gmap text (list text)) (st : ob_state) : ob_state := mkObs (otab st) f (ob_errors st).
Definition ob_err (msg : string) (name : text) (st : ob_state) : ob_state := mkObs (otab st) (ob_files st) (ob_errors st ++ [(msg, name)]).

Definition DEL : Z := 127.
(** The object that stands for an error, [otab->err]. *)
Definition err_obj : text := DEL :: bytes "ERR".

Definition objs (st : ob_state) : list object_t := ot_obj (otab st).
Definition get_obj (slot : Z) (st : ob_state) : option object_t := zget (objs st) slot.
Definition put_obj (slot : Z) (o : object_t) (st : ob_state) : option ob_state := l ← zset (objs st) slot o; Some (set_objs l st).

(** ** Making objects *)

(** A word put into a buffer of 100 bytes. *)
Definition token100 (n : Z) (line : text) : option (option text) :=
  t ← strtoken n line;
  match t with
  | None => Some None
  | Some (_, w) => if 100 <=? len w then None else Some (Some w)
  end.

Fixpoint count_members (fuel : nat) (which : Z) (memnames : text) : option Z :=
  match fuel with
  | O => None
  | S fuel' =>
      t ← token100 which memnames;
      match t with None => Some (which - 1) | Some _ => count_members fuel' (which + 1) memnames end
  end.

(** "%07d" *)
Definition show7 (n : Z) : text := replicate (7 - length (show n)) 48 ++ show n.

Definition no_del (name : text) : text := if cval name 0 =? DEL then drop 1 name else name.

(** [make_obj], when [objnum] is [num]; an object without members reads the
    value before the first one. *)
Definition make_obj (num : Z) (name memnames : text) (persist : Z) : option object_t :=
  let name := DEL :: (if cval name 0 =? 0 then 84 :: show7 num else no_del name) in
  if 100 <=? len name then None else
  members ← count_members (S (length memnames)) 1 memnames;
  if members <=? 0 then None else
  Some (mkObj name [] memnames persist false 0 0 (replicate (Z.to_nat members) []) (replicate (Z.to_nat members) false)).

(** ** Files *)

Section blanks.
Context (B : list Z).

(** The members, each with its lines.  [how0] is what the last line of the
    member before ended with; the first member finds what is on the stack. *)
Fixpoint member_lines (mnum : Z) (memnames : text) (values : list text) (how0 : Z) : option (list text) :=
  match values with
  | [] => Some []
  | v :: values =>
      t ← token100 (mnum + 1) memnames;
      let '(ls, how0) := cell_lines (S (length v)) v 0 how0 in
      rest ← member_lines (mnum + 1) memnames values how0;
      Some (put (default [] t) :: map (fun w => 32 :: put w) ls ++ (if how0 =? 2 then [[32]] else []) ++ rest)
  end.

Definition object_lines (junk : Z) (o : object_t) : option (list text) :=
  ls ← member_lines 0 (ob_memnames o) (ob_values o) junk;
  Some ([put (ob_class o); put (ob_memnames o); put (ob_name o); show (ob_updated o)] ++ ls).

(** [store_obj]: the object, and the state. *)
Definition store_obj (junk : Z) (o : object_t) (st : ob_state) : option (object_t * ob_state) :=
  ls ← object_lines junk o;
  Some (ob_waits false (ob_taints (map (fun _ => false) (ob_taint o)) o), set_ob_files (<[drop 1 (ob_name o) := ls]> (ob_files st)) st).

Fixpoint load_members (memnames : text) (lines : list text) (mnum : Z) (first : bool) (value : list text) : option (list text) :=
  match lines with
  | [] => Some value
  | word :: lines =>
      if negb (cval word 0 =? 32) then
        mnum ← strtable memnames (take 99 word);
        value ← if 0 <=? mnum then zset value mnum [] else Some value;
        load_members memnames lines mnum true value
      else if mnum <? 0 then load_members memnames lines mnum first value
      else
        old ← zget value mnum;
        value ← zset value mnum (old ++ (if first then [] else [10]) ++ csub word 1 ALLCHARS);
        load_members memnames lines mnum false value
  end.

(** [load_obj]: [Some None] if there is no file. *)
Definition load_obj (name : text) (st : ob_state) : option (option object_t) :=
  if cval name 0 =? 0 then None else
  match ob_files st !! drop 1 name with
  | None => Some None
  | Some lines =>
      let line i := default [] (lines !! i) in
      let ctab := ot_class (otab st) in
      let slot := vartab_is ctab (line 0%nat) in
      memnames ← if slot <? 0 then Some (line 1%nat) else value_at ctab slot;
      let memnames := take 299 memnames in
      o ← make_obj 0 name memnames 1;
      values ← load_members memnames (drop 4 lines) (-1) true (ob_values o);
      Some (Some (ob_fills values (ob_time (int4_result B (line 3%nat) 0).1 (ob_names name (ob_classes (take 99 (line 0%nat)) o)))))
  end.

Definition kill_obj (name : text) (st : ob_state) : ob_state := set_ob_files (delete (drop 1 name) (ob_files st)) st.

(** ** The table *)

(** [make_obtab]; [num] is [objnum]. *)
Definition make_obtab (size num : Z) : obtab := mkObtab size a_mak_vartab [] num.

(** [obtab_exp], when there is memory. *)
Definition obtab_exp (ot : obtab) : obtab := mkObtab (ot_max ot * 2) (ot_class ot) (ot_obj ot) (ot_num ot).

(** The end of [obtab_is] and of [ob_new]: the slot of a new object. *)
Definition obtab_add (o : object_t) (st : ob_state) : option (Z * ob_state) :=
  let ot := otab st in
  let new := len (ot_obj ot) in
  let ot := if ot_max ot - 5 <? new then obtab_exp ot else ot in
  if ot_max ot <=? new then None else
  Some (new, mkObs (mkObtab (ot_max ot) (ot_class ot) (ot_obj ot ++ [o]) (ot_num ot)) (ob_files st) (ob_errors st)).

Fixpoint find_obj (l : list object_t) (oname : text) (num : Z) : Z :=
  match l with
  | [] => -1
  | o :: l => if bool_decide (ob_name o = oname) then num else find_obj l oname (num + 1)
  end.

Definition obtab_is (name : text) (st : ob_state) : option (Z * ob_state) :=
  if cval name 0 =? 0 then Some (-1, st) else
  let oname := DEL :: no_del name in
  if 100 <=? len oname then None else
  let num := find_obj (objs st) oname 0 in
  if 0 <=? num then Some (num, st) else
  r ← load_obj oname st;
  match r with None => Some (-1, st) | Some o => obtab_add o st end.

(** ** References *)

Definition fails_with (msg : string) (name : text) (st : ob_state) : option (bool * text * ob_state) := Some (false, [], ob_err msg name st).

(** The reference with blanks for its dots; the buffer has 400 bytes. *)
Definition undot (name : text) : option text :=
  if 400 <=? len name then None else Some (map (fun c => if c =? 46 then 32 else c) name).

Definition properties : text := bytes "CLASS MEMBERS PERSISTS".
Definition property (mnum : Z) (o : object_t) : text :=
  if mnum =? 0 then ob_class o else if mnum =? 1 then ob_memnames o else [48 + (if ob_persists o =? 0 then 0 else 1)].

(** The loop of [ob_value] over the members; [this] is the value found last. *)
Fixpoint value_loop (fuel : nat) (level : Z) (fullref mvalue this : text) (st : ob_state) : option (bool * text * ob_state) :=
  match fuel with
  | O => None
  | S fuel' =>
      t ← token100 level fullref;
      match t with
      | None => Some (true, this, st)
      | Some mname =>
          let oname := mvalue in
          if bool_decide (oname = err_obj) then Some (false, [], st) else
          '(slot, st) ← obtab_is oname st;
          if slot <? 0 then fails_with "No object" oname st else
          o ← get_obj slot st;
          mnum ← strtable (ob_memnames o) mname;
          if 0 <=? mnum then
            v ← zget (ob_values o) mnum; value_loop fuel' (level + 1) fullref (take 99 v) v st
          else
            next ← strtoken (level + 1) fullref;
            mnum ← match next with None => strtable properties mname | Some _ => Some (-1) end;
            if 0 <=? mnum then Some (true, property mnum o, st) else fails_with "No member" mname st
      end
  end.

(** [ob_value]: whether there is a value, and the value. *)
Definition ob_value (name : text) (st : ob_state) : option (bool * text * ob_state) :=
  fullref ← undot name;
  if cval name 0 =? 46 then fails_with "No object name" name st else
  t1 ← token100 1 fullref;
  match t1 with
  | None => Some (false, [], st)
  | Some mvalue =>
      if bool_decide (mvalue = err_obj) then Some (false, [], st) else
      t2 ← token100 2 fullref;
      match t2 with
      | None => Some (true, name, st)
      | Some _ => value_loop (S (length fullref)) 2 fullref mvalue [] st
      end
  end.

(** A member that has been found: its object, under which name, and where. *)
Record place_t := mkPlace { pl_slot : Z; pl_oname : text; pl_mnum : Z }.

(** The loop of [ob_set] over the members: [Some None] if it fails. *)
Fixpoint set_loop (fuel : nat) (level : Z) (fullref mvalue : text) (at_ : place_t) (st : ob_state) : option (option place_t * ob_state) :=
  match fuel with
  | O => None
  | S fuel' =>
      t ← token100 level fullref;
      match t with
      | None => Some (Some at_, st)
      | Some mname =>
          let oname := mvalue in
          if bool_decide (oname = err_obj) then Some (None, st) else
          '(slot, st) ← obtab_is oname st;
          if slot <? 0 then Some (None, ob_err "No object" oname st) else
          o ← get_obj slot st;
          mnum ← strtable (ob_memnames o) mname;
          if 0 <=? mnum then
            v ← zget (ob_values o) mnum; set_loop fuel' (level + 1) fullref (take 99 v) (mkPlace slot oname mnum) st
          else Some (None, ob_err "No member" mname st)
      end
  end.

Definition set_place (name : text) (st : ob_state) : option (option place_t * ob_state) :=
  fullref ← undot name;
  if cval name 0 =? 46 then Some (None, ob_err "No object name" name st) else
  t2 ← token100 2 fullref;
  match t2 with
  | None => Some (None, st)
  | Some _ =>
      t1 ← token100 1 fullref;
      match t1 with
      | None => Some (None, st)
      | Some mvalue =>
          if bool_decide (mvalue = err_obj) then Some (None, st) else
          set_loop (S (length fullref)) 2 fullref mvalue (mkPlace (-1) [] (-1)) st
      end
  end.

Section now.
Context (now junk : Z).

(** A persistent object that does not wait: it is loaded again, changed and
    stored, and takes the place of the one in the table. *)
Definition set_stored (new : object_t) (at_ : place_t) (value : text) (st : ob_state) : option (bool * ob_state) :=
  old ← get_obj (pl_slot at_) st;
  values ← zset (ob_values new) (pl_mnum at_) value;
  let new := ob_locks (ob_lockfd old) (ob_time now (ob_fills values new)) in
  '(new, st) ← store_obj junk new st;
  st ← put_obj (pl_slot at_) new st;
  Some (true, st).

Definition set_member (at_ : place_t) (value : text) (st : ob_state) : option (bool * ob_state) :=
  o ← get_obj (pl_slot at_) st;
  if negb (ob_persists o =? 0) && negb (ob_wait o) then
    new ← load_obj (pl_oname at_) st;
    match new with
    | None => Some (false, ob_err "No object" (pl_oname at_) st)
    | Some new => set_stored new at_ value st
    end
  else
    values ← zset (ob_values o) (pl_mnum at_) value;
    o ← if negb (ob_persists o =? 0)
        then taint ← zset (ob_taint o) (pl_mnum at_) true; Some (ob_taints taint (ob_fills values o))
        else Some (ob_time now (ob_fills values o));
    st ← put_obj (pl_slot at_) o st; Some (true, st).

Definition ob_set (name value : text) (st : ob_state) : option (bool * ob_state) :=
  '(at_, st) ← set_place name st;
  match at_ with None => Some (false, st) | Some at_ => set_member at_ value st end.

(** ** The functions *)

Definition alnum (c : Z) : bool := DIGIT c || ((65 <=? c) && (c <=? 90)) || ((97 <=? c) && (c <=? 122)).
Definition name_char (c : Z) : bool := alnum c || (c =? 95) || (c =? 45).

(** Each word of the arguments, put into a buffer of 100 bytes. *)
Fixpoint each_word (fuel : nat) (f : text -> ob_state -> option ob_state) (arg : text) (pos : Z) (st : ob_state) : option ob_state :=
  match fuel with
  | O => None
  | S fuel' =>
      let '(r, word, pos) := nextword_result B arg pos in
      if r <? 0 then Some st else st ← f (take 99 word) st; each_word fuel' f arg pos st
  end.

Definition set_class (vt : vartab) (st : ob_state) : ob_state :=
  mkObs (mkObtab (ot_max (otab st)) vt (objs st) (ot_num (otab st))) (ob_files st) (ob_errors st).
Definition set_num (num : Z) (st : ob_state) : ob_state :=
  mkObs (mkObtab (ot_max (otab st)) (ot_class (otab st)) (objs st) num) (ob_files st) (ob_errors st).

Definition ob_class_func (arg : text) (st : ob_state) : ob_state :=
  set_class (vartab_add (ot_class (otab st)) (nth_arg B 1 arg) (nth_rest B 2 arg)).2 st.

(** The name of the new object, or of the error. *)
Definition ob_new (arg : text) (st : ob_state) : option (text * ob_state) :=
  let failed msg st := Some (err_obj, ob_err msg arg st) in
  let oname := take 99 (no_del (nth_arg B 3 arg)) in
  if negb (forallb name_char oname) then failed "Bad object name" st else
  '(slot, st) ← if bool_decide (oname = []) then Some (-1, st) else obtab_is oname st;
  if 0 <=? slot then failed "Can't create existing object" st else
  let ctab := ot_class (otab st) in
  let slot := vartab_is ctab (nth_arg B 1 arg) in
  if slot <? 0 then failed "No class" st else
  let '(persist, i) := int4_result B (nth_arg B 2 arg) 0 in
  let st := if i =? 0 then ob_err "Bad persistence value" arg st else st in
  if negb (persist =? 0) && bool_decide (oname = []) then failed "must have object name" st else
  memnames ← value_at ctab slot;
  obj ← make_obj (ot_num (otab st)) oname (take 999 memnames) persist;
  let st := if bool_decide (oname = []) then set_num (ot_num (otab st) + 1) st else st in
  let obj := ob_classes (take 99 (nth_arg B 1 arg)) obj in
  '(new, st) ← obtab_add obj st;
  if persist =? 0 then Some (ob_name obj, st) else
  '(obj, st) ← store_obj junk obj st;
  st ← put_obj new obj st;
  Some (ob_name obj, st).

Definition ob_isobj (arg : text) : bool :=
  let word := nth_arg B 1 arg in
  ((token_result B 2 arg).1 <? 0) && (cval word 0 =? DEL) && forallb name_char (take 99 (drop 1 word)).
Definition ob_iserr (arg : text) : bool := bool_decide (take 999 (nth_arg B 1 arg) = err_obj).

Definition ob_exists (arg : text) (st : ob_state) : option (bool * ob_state) :=
  let oname := take 99 (nth_arg B 1 arg) in
  if cval oname 0 =? DEL then '(slot, st) ← obtab_is oname st; Some (0 <=? slot, st) else Some (false, st).

(** The loop over the members of the old object. *)
Fixpoint copy_members (values : list text) (mold : Z) (memnames : text) (new : object_t) : option object_t :=
  match values with
  | [] => Some new
  | v :: values =>
      t ← token100 (mold + 1) memnames;
      match t with
      | None => Some new
      | Some memname =>
          mnew ← strtable (ob_memnames new) memname;
          new ← if mnew <? 0 then Some new else
                values' ← zset (ob_values new) mnew v;
                taint ← if ob_wait new then zset (ob_taint new) mnew true else Some (ob_taint new);
                Some (ob_taints taint (ob_fills values' new));
          copy_members values (mold + 1) memnames new
      end
  end.

Definition ob_copy (arg : text) (st : ob_state) : option (bool * ob_state) :=
  let nname := take 99 (nth_arg B 1 arg) in
  let oname := take 99 (nth_arg B 2 arg) in
  '(slot, st) ← obtab_is nname st;
  if slot <? 0 then Some (false, st) else
  '(slot2, st) ← obtab_is oname st;
  if slot2 <? 0 then Some (false, st) else
  new ← get_obj slot st;
  obj ← get_obj slot2 st;
  new ← if negb (ob_persists new =? 0) && negb (ob_wait new) && negb (bool_decide (ob_memnames new = ob_memnames obj)) then
          new2 ← load_obj (ob_name new) st;
          Some (match new2 with None => new | Some new2 => ob_keeps (ob_persists new) (ob_locks (ob_lockfd new) new2) end)
        else Some new;
  new ← copy_members (ob_values obj) 0 (ob_memnames obj) new;
  let new := ob_time now new in
  '(new, st) ← if negb (ob_persists new =? 0) && negb (ob_wait new) then store_obj junk new st else Some (new, st);
  st ← put_obj slot new st;
  Some (true, st).

Definition ob_wait_one (name : text) (st : ob_state) : option ob_state :=
  '(slot, st) ← obtab_is name st;
  if slot <? 0 then Some st else o ← get_obj slot st; put_obj slot (ob_waits true o) st.

(** The values that have changed. *)
Fixpoint copy_tainted (values : list text) (taint : list bool) (mnum : Z) (to : list text) : option (list text) :=
  match values, taint with
  | v :: values, t :: taint =>
      to ← if t : bool then zset to mnum v else Some to; copy_tainted values taint (mnum + 1) to
  | _, _ => Some to
  end.

Definition ob_commit_one (oname : text) (st : ob_state) : option ob_state :=
  '(slot, st) ← obtab_is oname st;
  if slot <? 0 then Some st else
  obj ← get_obj slot st;
  if negb (ob_wait obj) then Some st else
  new ← load_obj oname st;
  match new with
  | None => Some (ob_err "No object" oname st)
  | Some new =>
      values ← copy_tainted (ob_values obj) (ob_taint obj) 0 (ob_values new);
      let new := ob_locks (ob_lockfd obj) (ob_time now (ob_fills values new)) in
      '(new, st) ← store_obj junk new st;
      put_obj slot new st
  end.

(** It is not loaded twice when it was not in the table. *)
Definition ob_reload_one (oname : text) (st : ob_state) : option ob_state :=
  let used := len (objs st) in
  '(slot, st) ← obtab_is oname st;
  if (slot <? 0) || negb (len (objs st) =? used) then Some st else
  obj ← load_obj oname st;
  match obj with
  | None => Some st
  | Some obj => old ← get_obj slot st; put_obj slot (ob_locks (ob_lockfd old) obj) st
  end.

(** [obj[slot] = obj[used - 1]], and one less. *)
Definition ob_delete_one (name : text) (st : ob_state) : option ob_state :=
  '(slot, st) ← obtab_is name st;
  if slot <? 0 then Some st else
  obj ← get_obj slot st;
  let st := if ob_persists obj =? 0 then st else kill_obj (ob_name obj) st in
  last ← get_obj (len (objs st) - 1) st;
  st ← put_obj slot last st;
  Some (set_objs (take (length (objs st) - 1) (objs st)) st).

(** [$ob_lock]: [codes] is what [sysoblock] returns each time it is called until
    the time is over; 1 has put [fd] into the object. *)
Fixpoint lock_loop (codes : list Z) : Z :=
  match codes with
  | [] => 0
  | c :: codes => if (c =? 1) || (c =? -1) then c else lock_loop codes
  end.

Definition ob_lock (codes : list Z) (fd : Z) (arg : text) (st : ob_state) : option (bool * ob_state) :=
  let oname := take 99 (nth_arg B 1 arg) in
  '(slot, st) ← obtab_is oname st;
  if slot <? 0 then Some (false, ob_err "no such object" oname st) else
  o ← get_obj slot st;
  let lkcode := if ob_lockfd o =? 0 then lock_loop codes else 1 in
  if lkcode =? 1 then st ← put_obj slot (if ob_lockfd o =? 0 then ob_locks fd o else o) st; Some (true, st)
  else Some (false, if lkcode =? -1 then ob_err "system error" oname st else st).

Definition ob_unlock (arg : text) (st : ob_state) : option ob_state :=
  '(slot, st) ← obtab_is (take 99 (nth_arg B 1 arg)) st;
  if slot <? 0 then Some st else o ← get_obj slot st; put_obj slot (ob_locks 0 o) st.

(** [func_ob]: what it adds to the result. *)
Definition func_ob (codes : list Z) (fd : Z) (what arg : text) (st : ob_state) : option (text * ob_state) :=
  let called name := bool_decide (what = bytes name) in
  let digit (r : option (bool * ob_state)) := '(b, st) ← r; Some ([if b : bool then 49 else 48], st) in
  let silent (r : option ob_state) := st ← r; Some ([], st) in
  let all f := silent (each_word (S (length arg)) f arg 0 st) in
  if called "ob_class" then Some ([], ob_class_func arg st)
  else if called "ob_named" then Some (DEL :: nth_arg B 1 arg, st)
  else if called "ob_new" then ob_new arg st
  else if called "ob_isobj" then digit (Some (ob_isobj arg, st))
  else if called "ob_iserr" then digit (Some (ob_iserr arg, st))
  else if called "ob_exists" then digit (ob_exists arg st)
  else if called "ob_copy" then digit (ob_copy arg st)
  else if called "ob_wait" then all ob_wait_one
  else if called "ob_commit" then all ob_commit_one
  else if called "ob_reload" then all ob_reload_one
  else if called "ob_lock" then digit (ob_lock codes fd arg st)
  else if called "ob_unlock" then silent (ob_unlock arg st)
  else if called "ob_delete" then all ob_delete_one
  else Some ([], st).
End now.
End blanks.
