(* ===== verification/ObjectFiles.v ===== *)
(** Objects in files: what [store_obj] writes, [load_obj] reads back, member by
    member, even when the class has got other members in the meantime. *)
From stdpp Require Import gmap.
From S2P Require Import Prelude Memory Chix ChixCore ChixEdit ChixSearch ChixParse Vartab Str Numbers Html CmlLists Table Arrays ArrayFiles Objects.

(** ** Lists of members *)

Definition names_of (memnames : text) : list text := map snd (words [32] memnames).

Record members_ok (memnames : text) : Prop := {
  mo_short : Forall (fun m => len m < 100) (names_of memnames);
  mo_some : names_of memnames <> [];
}.

Lemma name_words memnames : Forall (fun m => m <> [] /\ Forall (fun c => c <> 32) m) (names_of memnames).
Proof.
  unfold names_of. apply Forall_map. pose proof (words_spec [32] 0 memnames) as H. eapply Forall_impl; [exact H |].
  intros [p w] (_ & Hne & Hb & _). cbn [snd]. split; [done |]. eapply Forall_impl; [exact Hb |]. intros c Hc ->. done.
Qed.

Lemma token100_names n memnames : Forall (fun m => len m < 100) (names_of memnames) -> 1 <= n ->
  token100 n memnames = Some (names_of memnames !! Z.to_nat (n - 1)).
Proof.
  intros Hs Hn. unfold token100. assert (Hw : Forall (fun pw : Z * list Z => len pw.2 < 100) (words [32] memnames)) by (by apply Forall_map in Hs).
  rewrite strtoken_word by (eapply Forall_impl; [exact Hw |]; intros ? ?; cbn in *; lia). cbn [mbind option_bind]. unfold names_of.
  change (map snd (words [32] memnames)) with (snd <$> words [32] memnames). rewrite list_lookup_fmap. destruct (words [32] memnames !! Z.to_nat (n - 1)) as [[p w] |] eqn:E; [| done].
  pose proof (Forall_lookup_1 _ _ _ _ Hw E) as Hl. cbn [snd] in Hl. by rewrite (proj2 (Z.leb_gt _ _)).
Qed.

Lemma count_members_spec memnames fuel which : Forall (fun m => len m < 100) (names_of memnames) -> 1 <= which ->
  (length (names_of memnames) < fuel + Z.to_nat (which - 1))%nat -> which <= len (names_of memnames) + 1 ->
  count_members fuel which memnames = Some (len (names_of memnames)).
Proof.
  intros Hs. revert which. induction fuel as [| fuel IH]; intros which Hw Hf Hle; [unfold len in *; lia |]. cbn [count_members].
  rewrite token100_names by done. cbn [mbind option_bind]. destruct (names_of memnames !! Z.to_nat (which - 1)) as [m |] eqn:E.
  - apply lookup_lt_Some in E. apply IH; unfold len in *; lia.
  - apply lookup_ge_None_1 in E. f_equal. unfold len in *. lia.
Qed.

Lemma make_obj_spec num name memnames persist : members_ok memnames -> cval name 0 <> 0 -> len (no_del name) < 99 ->
  make_obj num name memnames persist = Some (mkObj (DEL :: no_del name) [] memnames persist false 0 0
    (replicate (length (names_of memnames)) []) (replicate (length (names_of memnames)) false)).
Proof.
  intros [Hs Hne] Hn Hl. unfold make_obj. rewrite (proj2 (Z.eqb_neq _ 0)) by done. cbv zeta.
  rewrite len_cons, (proj2 (Z.leb_gt 100 _)) by lia. rewrite count_members_spec; [| done | lia | | ].
  - cbn [mbind option_bind]. destruct (names_of memnames) as [| m ms] eqn:E; [done |]. rewrite (proj2 (Z.leb_gt _ 0)) by (rewrite len_cons; len_pos; lia).
    by rewrite to_nat_len.
  - pose proof (words_count [32] memnames). unfold names_of. rewrite length_map. lia.
  - len_pos. lia.
Qed.

(** ** The number of a member *)

Definition member_no (memnames m : text) : option Z := first_index m (names_of memnames) 0.

Lemma strtable_member memnames m : m <> [] -> Forall (fun c => c <> 32) m ->
  exists r, strtable memnames m = Some r /\ match member_no memnames m with Some i => r = i | None => r < 0 end.
Proof. apply strtable_finds. Qed.

(** ** The lines of the members *)

Fixpoint named_lines (names values : list text) (how0 : Z) : list text :=
  match names, values with
  | m :: names, v :: values =>
      let '(ls, how0) := cell_lines (S (length v)) v 0 how0 in
      put m :: map (fun w => 32 :: put w) ls ++ (if how0 =? 2 then [[32]] else []) ++ named_lines names values how0
  | _, _ => []
  end.

Lemma member_lines_named memnames values mnum how0 : Forall (fun m => len m < 100) (names_of memnames) -> 0 <= mnum ->
  mnum + len values = len (names_of memnames) ->
  member_lines mnum memnames values how0 = Some (named_lines (drop (Z.to_nat mnum) (names_of memnames)) values how0).
Proof.
  intros Hs. revert mnum how0. induction values as [| v values IH]; intros mnum how0 Hm Hl; cbn [member_lines].
  - by destruct (drop (Z.to_nat mnum) (names_of memnames)).
  - rewrite len_cons in Hl. pose proof (len_nonneg values). rewrite token100_names by (done || lia). replace (mnum + 1 - 1) with mnum by lia.
    destruct (lookup_lt_is_Some_2 (names_of memnames) (Z.to_nat mnum)) as [m Hk]; [unfold len in *; lia |].
    rewrite Hk. rewrite (drop_S _ m) by done. cbn [mbind option_bind named_lines default].
    destruct (cell_lines (S (length v)) v 0 how0) as [ls how]. rewrite IH by lia. cbn [mbind option_bind].
    replace (Z.to_nat (mnum + 1)) with (S (Z.to_nat mnum)) by lia. done.
Qed.

(** The value of a member is replaced, if there is one with this name. *)
Definition replace_member (memnames m v : text) (value : list text) : list text :=
  match member_no memnames m with Some i => <[Z.to_nat i := v]> value | None => value end.

Fixpoint replace_members (memnames : text) (names values value : list text) : list text :=
  match names, values with
  | m :: names, v :: values => replace_members memnames names values (replace_member memnames m v value)
  | _, _ => value
  end.

Lemma first_index_spec w ws i :
  match first_index w ws i with
  | Some r => i <= r /\ ws !! Z.to_nat (r - i) = Some w /\ forall j, (j < Z.to_nat (r - i))%nat -> ws !! j <> Some w
  | None => w ∉ ws
  end.
Proof.
  revert i. induction ws as [| v ws IH]; intros i; cbn [first_index]; [apply not_elem_of_nil |].
  case_bool_decide as E; [subst; rewrite Z.sub_diag; split_and!; [lia | done | intros j Hj; lia] |].
  specialize (IH (i + 1)). destruct (first_index w ws (i + 1)) as [r |].
  - destruct IH as (Hr & Hl & Hj). split; [lia |]. replace (Z.to_nat (r - i)) with (S (Z.to_nat (r - (i + 1)))) by lia. split; [done |].
    intros [| j] Hlt; [by intros [= ->] |]. apply Hj. lia.
  - rewrite not_elem_of_cons. split; [congruence | done].
Qed.

Lemma member_no_range memnames m i : member_no memnames m = Some i -> 0 <= i < len (names_of memnames).
Proof.
  unfold member_no. intros E. pose proof (first_index_spec m (names_of memnames) 0) as H. rewrite E in H. destruct H as (Hi & Hl & _).
  apply lookup_lt_Some in Hl. unfold len. lia.
Qed.

(** A word that [unit_write] writes and that fits its buffer. *)
Definition plain_name (m : text) : Prop := m <> [] /\ Forall (fun c => c <> 32) m /\ cval m 0 <> 1 /\ len m < 100.

Section load.
Context (memnames : text).

Lemma load_skips ls rest k first value : k < 0 ->
  load_members memnames (map (fun w => 32 :: put w) ls ++ rest) k first value = load_members memnames rest k first value.
Proof.
  intros Hk. induction ls as [| w ls IH]; cbn [map app load_members]; [done |]. change (cval (32 :: put w) 0 =? 32) with true. cbn [negb].
  by rewrite (proj2 (Z.ltb_lt k 0)).
Qed.

Lemma load_value_lines ls rest k first value old : Forall (fun w => cval w 0 <> 1) ls -> zget value k = Some old ->
  exists first', load_members memnames (map (fun w => 32 :: put w) ls ++ rest) k first value =
    load_members memnames rest k first' (<[Z.to_nat k := old ++ glue first ls]> value) /\
    first' = (if bool_decide (ls = []) then first else false).
Proof.
  intros Hl. revert first value old. induction Hl as [| w ls Hw Hl IH]; intros first value old Ho; cbn [map app glue].
  - exists first. rewrite app_nil_r. split; [| done]. f_equal. rewrite list_insert_id; [done |]. unfold zget in Ho. by destruct (k <? 0).
  - pose proof (zget_range value k old Ho) as Hk. unfold put at 1. rewrite (proj2 (Z.eqb_neq _ 1)) by done.
    cbn [load_members]. change (cval (32 :: w) 0 =? 32) with true. cbn [negb]. rewrite (proj2 (Z.ltb_ge k 0)), Ho by lia. cbn [mbind option_bind].
    rewrite csub_from. change (drop (Z.to_nat 1) (32 :: w)) with w.
    unfold zset. rewrite (proj2 (Z.ltb_ge k 0)), (proj2 (Z.leb_gt (len value) k)) by lia. cbn [orb mbind option_bind].
    set (new := old ++ (if first then [] else [10]) ++ w). destruct (IH false (<[Z.to_nat k := new]> value) new) as (first' & E & ->).
    { unfold zget. rewrite (proj2 (Z.ltb_ge k 0)) by lia. apply list_lookup_insert_eq. unfold len in Hk. lia. }
    exists false. split; [| done]. replace (if bool_decide (ls = []) then false else false) with false in E by by destruct (bool_decide _).
    rewrite E, list_insert_insert_eq. f_equal. f_equal. unfold new. by rewrite <- !app_assoc.
Qed.

Lemma cell_lines_how fuel v pos h h' : (cell_lines fuel v pos h).1 = (cell_lines fuel v pos h').1.
Proof. destruct fuel; cbn [cell_lines]; [done |]. destruct (nextline_result v pos) as [[r w] p]. by destruct (0 <? r). Qed.

(** A line with a blank only, behind the lines of a value. *)
Lemma load_blank rest k first value old : zget value k = Some old ->
  exists first', load_members memnames ((32 :: []) :: rest) k first value =
    load_members memnames rest k first' (<[Z.to_nat k := old ++ (if first then [] else [10])]> value).
Proof.
  intros Ho. destruct (load_value_lines [[]] rest k first value old) as (first' & E & _); [by repeat constructor | done |].
  exists first'. cbn [glue app] in E. rewrite app_nil_r in E. exact E.
Qed.

Lemma load_header m rest k first value : plain_name m -> len (names_of memnames) <= len value ->
  exists r, load_members memnames (put m :: rest) k first value = load_members memnames rest r true (replace_member memnames m [] value) /\
    match member_no memnames m with Some i => r = i | None => r < 0 end.
Proof.
  intros (Hne & Hb & H1 & Hl) Hv. unfold put. rewrite (proj2 (Z.eqb_neq _ 1)) by done. cbn [load_members].
  assert (Ec : (cval m 0 =? 32) = false) by (destruct m as [| c m]; [done |]; apply Forall_cons in Hb as [Hc _]; by apply Z.eqb_neq).
  rewrite Ec. cbn [negb]. rewrite (take_ge m) by (unfold len in Hl; lia).
  destruct (strtable_member memnames m Hne Hb) as (r & -> & Hr). cbn [mbind option_bind]. exists r. unfold replace_member.
  destruct (member_no memnames m) as [i |] eqn:Ei; [subst r | by rewrite (proj2 (Z.leb_gt 0 r)) by lia].
  pose proof (member_no_range _ _ _ Ei) as Hi. rewrite (proj2 (Z.leb_le 0 i)) by lia.
  unfold zset. rewrite (proj2 (Z.ltb_ge i 0)), (proj2 (Z.leb_gt (len value) i)) by lia. done.
Qed.

Lemma load_member m v how0 rest k first value : plain_name m -> storable v -> len (names_of memnames) <= len value ->
  let '(ls, how) := cell_lines (S (length v)) v 0 how0 in
  exists k' first', load_members memnames (put m :: map (fun w => 32 :: put w) ls ++ (if how =? 2 then [[32]] else []) ++ rest) k first value =
    load_members memnames rest k' first' (replace_member memnames m v value).
Proof.
  intros Hm [Hc Hs] Hv. pose proof (cell_lines_spec (S (length v)) v 0 how0 Hc) as H. rewrite (cell_lines_how _ _ _ 0 how0) in Hs.
  destruct (cell_lines (S (length v)) v 0 how0) as [ls how]. cbn [fst] in Hs.
  destruct (load_header m (map (fun w => 32 :: put w) ls ++ (if how =? 2 then [[32]] else []) ++ rest) k first value Hm Hv) as (r & -> & Hr).
  unfold replace_member in *. destruct (member_no memnames m) as [i |] eqn:Ei.
  - subst r. pose proof (member_no_range _ _ _ Ei) as Hi. set (value0 := <[Z.to_nat i := []]> value).
    assert (Hget : forall x (l : list text), (Z.to_nat i < length l)%nat -> zget (<[Z.to_nat i := x]> l) i = Some x).
    { intros x l Hl. unfold zget. rewrite (proj2 (Z.ltb_ge i 0)) by lia. by apply list_lookup_insert_eq. }
    assert (Hlen : (Z.to_nat i < length value)%nat) by (unfold len in *; lia).
    destruct (load_value_lines ls ((if how =? 2 then [[32]] else []) ++ rest) i true value0 [] Hs) as (f1 & -> & ->); [by apply Hget |].
    unfold value0. rewrite list_insert_insert_eq. cbn [app].
    assert (Hend : exists f2, load_members memnames ((if how =? 2 then [[32]] else []) ++ rest) i (if bool_decide (ls = []) then true else false) (<[Z.to_nat i := glue true ls]> value) =
      load_members memnames rest i f2 (<[Z.to_nat i := v]> value)).
    { destruct H as [(-> & -> & El) | (_ & Hne & Hh & Eg)]; [len_pos; lia | unfold len; lia | |].
      - assert (v = []) as -> by (destruct v; [done | rewrite len_cons in El; len_pos; lia]). cbn [glue]. rewrite (bool_decide_eq_true_2 _ eq_refl).
        destruct (how0 =? 2); cbn [app]; [| by exists true].
        destruct (load_blank rest i true (<[Z.to_nat i := []]> value) [] (Hget _ _ Hlen)) as [f2 ->]. exists f2. by rewrite list_insert_insert_eq.
      - rewrite (bool_decide_eq_false_2 _ Hne). change (drop (Z.to_nat 0) v) with v in Eg. destruct Hh as [-> | ->]; cbn [Z.eqb Pos.eqb app] in *.
        + rewrite app_nil_r in Eg. rewrite Eg. by exists false.
        + destruct (load_blank rest i false (<[Z.to_nat i := glue true ls]> value) _ (Hget _ _ Hlen)) as [f2 ->]. exists f2.
          by rewrite list_insert_insert_eq, Eg. }
    destruct Hend as [f2 ->]. by exists i, f2.
  - rewrite load_skips by done. destruct (how =? 2); cbn [app]; [| by exists r, true].
    pose proof (load_skips [[]] rest r true value Hr) as E. cbn [map app] in E. change (32 :: put []) with [32] in E. rewrite E. by exists r, true.
Qed.
End load.

(** ** All members *)

Lemma replace_member_length memnames m v value : length (replace_member memnames m v value) = length value.
Proof. unfold replace_member. destruct (member_no memnames m); [apply length_insert | done]. Qed.

Lemma replace_members_length memnames names values value : length (replace_members memnames names values value) = length value.
Proof.
  revert values value. induction names as [| m names IH]; intros [| v values] value; try done. cbn [replace_members]. by rewrite IH, replace_member_length.
Qed.

Lemma load_named memnames names values how0 k first value : Forall plain_name names -> Forall storable values -> len (names_of memnames) <= len value ->
  load_members memnames (named_lines names values how0) k first value = Some (replace_members memnames names values value).
Proof.
  intros Hn. revert values how0 k first value. induction Hn as [| m names Hm Hn IH]; intros [| v values] how0 k first value Hs Hv; try done.
  apply Forall_cons in Hs as [Hv1 Hs]. cbn [named_lines replace_members].
  pose proof (load_member memnames m v how0) as H. destruct (cell_lines (S (length v)) v 0 how0) as [ls how].
  destruct (H (named_lines names values how) k first value Hm Hv1 Hv) as (k' & f' & ->). apply IH; [done |].
  unfold len in *. by rewrite replace_member_length.
Qed.

Lemma member_no_at memnames m i : member_no memnames m = Some i -> names_of memnames !! Z.to_nat i = Some m.
Proof.
  unfold member_no. intros E. pose proof (first_index_spec m (names_of memnames) 0) as H. rewrite E in H. destruct H as (_ & Hl & _). by rewrite Z.sub_0_r in Hl.
Qed.

Lemma replace_members_lookup memnames names values value m i :
  NoDup names -> length values = length names -> member_no memnames m = Some i -> (Z.to_nat i < length value)%nat ->
  replace_members memnames names values value !! Z.to_nat i =
  match list_find (fun n => n = m) names with Some (j, _) => values !! j | None => value !! Z.to_nat i end.
Proof.
  intros Hn. revert values value. induction Hn as [| n names Hni Hn IH]; intros values value Hl Hi Hlt; [by destruct values |].
  destruct values as [| v values]; [done |]. cbn [replace_members list_find]. injection Hl as Hl.
  destruct (decide (n = m)) as [-> | Hne].
  - rewrite IH by (try done; by rewrite replace_member_length). rewrite (proj2 (list_find_None _ _)); [| apply Forall_forall; by intros x Hx ->].
    unfold replace_member. rewrite Hi. cbn [lookup list_lookup]. by apply list_lookup_insert_eq.
  - rewrite IH by (try done; by rewrite replace_member_length).
    destruct (list_find (fun n => n = m) names) as [[j x] |]; cbn [fmap option_fmap option_map prod_map fst snd]; [done |].
    unfold replace_member. destruct (member_no memnames n) as [i' |] eqn:Ei'; [| done]. apply list_lookup_insert_ne. intros E.
    pose proof (member_no_at _ _ _ Ei') as H1. pose proof (member_no_at _ _ _ Hi) as H2. congruence.
Qed.

(** ** Objects *)

(** An object that can be kept in a file. *)
Record object_ok (o : object_t) : Prop := {
  oo_names : members_ok (ob_memnames o);
  oo_plain : Forall plain_name (names_of (ob_memnames o));
  oo_once : NoDup (names_of (ob_memnames o));
  oo_line : len (ob_memnames o) < 300 /\ cval (ob_memnames o) 0 <> 1;
  oo_class : len (ob_class o) < 100 /\ cval (ob_class o) 0 <> 1;
  oo_values : length (ob_values o) = length (names_of (ob_memnames o));
  oo_cells : Forall storable (ob_values o);
  oo_updated : is_int (ob_updated o);
}.

(** The members that an object of a class has when it is loaded. *)
Definition class_members (ctab : vartab) (class memnames : text) : text :=
  default memnames (take 299 <$> (if vartab_is ctab class <? 0 then None else value_at ctab (vartab_is ctab class))).

Definition member (o : object_t) (m : text) : option text := i ← member_no (ob_memnames o) m; ob_values o !! Z.to_nat i.

Lemma object_lines_ok junk o : object_ok o ->
  object_lines junk o = Some ([ob_class o; ob_memnames o; put (ob_name o); show (ob_updated o)] ++ named_lines (names_of (ob_memnames o)) (ob_values o) junk).
Proof.
  intros [[O1 O2] O3 O4 [_ O5] [_ O6] O7 O8 O9]. unfold object_lines. rewrite member_lines_named; [| done | done | unfold len in *; lia].
  cbn [mbind option_bind]. rewrite drop_0. unfold put at 1 2. by rewrite !(proj2 (Z.eqb_neq _ 1)).
Qed.

Lemma value_at_class ctab class : 0 <= vartab_is ctab class -> is_Some (value_at ctab (vartab_is ctab class)).
Proof.
  unfold vartab_is, value_at. cut (forall l i, 0 <= i -> 0 <= is_loop l class i -> exists j, is_loop l class i = i + Z.of_nat j /\ is_Some (l !! j)).
  { intros H Hi. destruct (H (Vartab.slots ctab) 0 ltac:(lia) Hi) as (j & -> & x & Ex). exists x.2. by rewrite Z.add_0_l, zget_nat, Ex. }
  induction l as [| [n v] l IH]; intros i Hi; cbn [is_loop]; [lia |]. case_bool_decide; [by exists 0%nat; split; [lia |] |].
  intros Hl. destruct (IH (i + 1) ltac:(lia) Hl) as (j & -> & Hj). exists (S j). split; [lia | done].
Qed.

Lemma load_obj_stored B o st name junk : good_blanks B -> object_ok o -> len name < 99 ->
  let mems := class_members (ot_class (otab st)) (ob_class o) (ob_memnames o) in
  members_ok mems -> ob_files st !! name = object_lines junk o ->
  load_obj B (DEL :: name) st = Some (Some (mkObj (DEL :: name) (ob_class o) mems 1 false (ob_updated o) 0
    (replace_members mems (names_of (ob_memnames o)) (ob_values o) (replicate (length (names_of mems)) []))
    (replicate (length (names_of mems)) false))).
Proof.
  intros HB Ho Hn mems Hmems Hf. rewrite (object_lines_ok junk o Ho) in Hf. destruct Ho as [[O1 O2] O3 O4 [O5 O5'] [O6 O6'] O7 O8 O9].
  unfold load_obj. change (cval (DEL :: name) 0 =? 0) with false. change (drop 1 (DEL :: name)) with name. rewrite Hf. cbn [app lookup list_lookup default from_option id drop]. rewrite ?drop_0.
  assert (Em : exists t, (if vartab_is (ot_class (otab st)) (ob_class o) <? 0 then Some (ob_memnames o) else value_at (ot_class (otab st)) (vartab_is (ot_class (otab st)) (ob_class o))) = Some t /\ take 299 t = mems).
  { unfold mems, class_members. destruct (Z.ltb_spec (vartab_is (ot_class (otab st)) (ob_class o)) 0) as [Hlt | Hge].
    - exists (ob_memnames o). split; [done |]. cbn. apply take_ge. unfold len in O5. lia.
    - destruct (value_at_class _ _ Hge) as [t Et]. exists t. by rewrite Et. }
  destruct Em as (t & Em & Et). rewrite Em. cbn [mbind option_bind]. rewrite Et.
  rewrite make_obj_spec; [| done | done | exact Hn]. cbn [mbind option_bind ob_values].
  change (no_del (DEL :: name)) with name. rewrite load_named; [| done | done | unfold len; rewrite length_replicate; lia].
  cbn [mbind option_bind]. destruct (int4_show B (ob_updated o) HB O9) as [E _]. rewrite E. cbn [fst].
  rewrite (take_ge (ob_class o)) by (unfold len in O6; lia). reflexivity.
Qed.

Lemma member_lookup o m : object_ok o ->
  member o m = match list_find (fun n => n = m) (names_of (ob_memnames o)) with Some (j, _) => ob_values o !! j | None => None end.
Proof.
  intros Ho. unfold member, member_no. pose proof (first_index_spec m (names_of (ob_memnames o)) 0) as H.
  destruct (first_index m (names_of (ob_memnames o)) 0) as [r |].
  - destruct H as (_ & Hl & Hj). rewrite Z.sub_0_r in *. cbn [mbind option_bind].
    destruct (list_find (fun n => n = m) (names_of (ob_memnames o))) as [[j x] |] eqn:E.
    + apply list_find_Some in E as (Hx & -> & _). f_equal. destruct Ho as [_ _ O4 _ _ _ _ _]. by apply (NoDup_lookup _ _ _ _ O4 Hl).
    + apply list_find_None in E. rewrite Forall_forall in E. exfalso. apply (E m); [by eapply list_elem_of_lookup_2 | done].
  - rewrite (proj2 (list_find_None _ _)); [done |]. apply Forall_forall. by intros x Hx ->.
Qed.

(** C22: an object that [store_obj] has written to its file is read back by
    [load_obj] of any process, whatever the lines of its values are and whatever
    was on the stack: with its class and the time of its last change, and with
    the members that its class has in that process; each of them has the value
    it had, or none if the object did not have it. *)
Theorem store_obj_load B junk o o' st st' ctab num errors name :
  good_blanks B -> object_ok o -> ob_name o = DEL :: name -> len name < 99 ->
  members_ok (class_members ctab (ob_class o) (ob_memnames o)) ->
  store_obj junk o st = Some (o', st') ->
  exists new, load_obj B (ob_name o) (mkObs (mkObtab 100 ctab [] num) (ob_files st') errors) = Some (Some new) /\
    ob_name new = ob_name o /\ ob_class new = ob_class o /\ ob_updated new = ob_updated o /\
    ob_memnames new = class_members ctab (ob_class o) (ob_memnames o) /\
    forall m, m ∈ names_of (ob_memnames new) -> member new m = Some (default [] (member o m)).
Proof.
  intros HB Ho En Hl Hm Hs. unfold store_obj in Hs. rewrite (object_lines_ok junk o Ho) in Hs. cbn [mbind option_bind] in Hs.
  injection Hs as <- <-. cbn [set_ob_files ob_files]. rewrite En. change (drop 1 (DEL :: name)) with name.
  set (sys := mkObs _ _ _). pose proof (load_obj_stored B o sys name junk HB Ho Hl) as H. cbn zeta in H. unfold sys in H. cbn [otab ot_class ob_files] in H.
  specialize (H Hm). rewrite lookup_insert_eq in H. rewrite (object_lines_ok junk o Ho), En in H. specialize (H eq_refl).
  unfold sys. rewrite H. eexists. split; [reflexivity |]. cbn [ob_name ob_class ob_updated ob_memnames]. split_and!; try done.
  intros m Hin. unfold member at 1. cbn [ob_memnames ob_values]. set (mems := class_members _ _ _) in *.
  destruct (member_no mems m) as [i |] eqn:Ei.
  - cbn [mbind option_bind]. pose proof (member_no_range _ _ _ Ei) as Hi.
    rewrite (replace_members_lookup _ _ _ _ m i); [| apply Ho | apply Ho | done | rewrite length_replicate; unfold len in Hi; lia].
    rewrite (member_lookup o m Ho). destruct (list_find _ _) as [[j x] |] eqn:E.
    + apply list_find_Some in E as (Hx & _ & _). apply lookup_lt_Some in Hx.
      destruct (lookup_lt_is_Some_2 (ob_values o) j) as [v ->]; [by rewrite (oo_values o Ho) | done].
    + cbn [default]. apply lookup_replicate_2. unfold len in Hi. lia.
  - exfalso. unfold member_no in Ei. pose proof (first_index_spec m (names_of mems) 0) as Hf. by rewrite Ei in Hf.
Qed.

Definition card : object_t :=
  mkObj (DEL :: bytes "anna") (bytes "card") (bytes "phone note street") 1 false 7 0
    [bytes "12"; bytes "one" ++ [10; 10] ++ bytes " two" ++ [10]; []] [false; true; false].

(** A given object can be kept in a file. *)
Ltac by_object :=
  constructor; [constructor; [by apply (bool_decide_unpack _); vm_compute | done] | | by apply (bool_decide_unpack _); vm_compute | by split | by split | done | | by split];
  repeat (apply Forall_cons; split); try (by apply Forall_nil); split_and!;
  first [done | by repeat constructor | by apply (bool_decide_unpack _); vm_compute].

Lemma card_ok : object_ok card.
Proof. by_object. Qed.

Definition no_objects : ob_state := mkObs (make_obtab 100 0) ∅ [].

Lemma store_obj_load_witness :
  let ctab := (vartab_add a_mak_vartab (bytes "card") (bytes "note email phone")).2 in
  exists o' st' new, store_obj 2 card no_objects = Some (o', st') /\
    load_obj [32; 10; 9] (ob_name card) (mkObs (mkObtab 100 ctab [] 0) (ob_files st') []) = Some (Some new) /\
    forall m, m ∈ names_of (ob_memnames new) -> member new m = Some (default [] (member card m)).
Proof.
  intros ctab. destruct (store_obj 2 card no_objects) as [[o' st'] |] eqn:E; [| by vm_compute in E].
  destruct (store_obj_load [32; 10; 9] 2 card o' no_objects st' ctab 0 [] (bytes "anna") ascii_blanks card_ok eq_refl eq_refl) as (new & El & _ & _ & _ & _ & Hm).
  - constructor; [by apply (bool_decide_unpack _); vm_compute | by vm_compute].
  - exact E.
  - exists o', st', new. by split_and!.
Defined.
