(* ===== verification/ObjectShare.v ===== *)
(** Objects that several processes share through their files: each has a copy of
    the members of the objects it has used, which may be older than the file,
    and writes what it changes at once or, after [$ob_wait], with
    [$ob_commit].  As long as operations run one at a time and classes keep
    their members, what is in the files is what was written to each member
    last; the examples at the end show what happens otherwise. *)
From stdpp Require Import gmap.
From S2P Require Import Prelude Memory Chix ChixCore ChixEdit ChixSearch ChixParse Vartab Str Numbers Html Arrays ArrayFiles Objects ObjectFiles.

(** ** What each process knows *)

(** The copy a process has of an object: its members, those that it has changed
    and not written, and whether it waits. *)
Record copy := mkCopy { c_values : gmap text text; c_changed : gset text; c_waits : bool }.
Definition fresh (d : gmap text text) : copy := mkCopy d ∅ false.

Inductive share_op :=
  | Read (n m : text) | Write (n m v : text) | Wait (n : text) | Commit (n : text) | Reload (n : text).

(** The objects of the files, and the copies of one process. *)
Abbreviation objects := (gmap text (gmap text text)) (only parsing).
Abbreviation copies := (gmap text copy) (only parsing).

(** The copy of [n], which is made when it is used for the first time. *)
Definition copy_of (n : text) (p : copies) (f : objects) : option copy :=
  match p !! n with Some c => Some c | None => fresh <$> f !! n end.

(** What the page sees of an operation, and what is left. *)
Definition share (op : share_op) (p : copies) (f : objects) : option (option text * copies * objects) :=
  match op with
  | Read n m => c ← copy_of n p f; v ← c_values c !! m; Some (Some v, <[n := c]> p, f)
  | Write n m v =>
      c ← copy_of n p f; _ ← c_values c !! m;
      if c_waits c then Some (None, <[n := mkCopy (<[m := v]> (c_values c)) ({[m]} ∪ c_changed c) true]> p, f)
      else d ← f !! n; Some (None, <[n := fresh (<[m := v]> d)]> p, <[n := <[m := v]> d]> f)
  | Wait n => c ← copy_of n p f; Some (None, <[n := mkCopy (c_values c) (c_changed c) true]> p, f)
  | Commit n =>
      c ← copy_of n p f;
      if c_waits c then
        d ← f !! n; let d := filter (fun mv => mv.1 ∈ c_changed c) (c_values c) ∪ d in
        Some (None, <[n := fresh d]> p, <[n := d]> f)
      else Some (None, <[n := c]> p, f)
  | Reload n => d ← f !! n; Some (None, <[n := fresh d]> p, f)
  end.

(** ** References *)

Section names.
Context (B : list Z) (HD : is_blank B DEL = false).

(** Names of objects and of members that a reference can have. *)
Record object_name (n : text) : Prop := {
  on_some : n <> [];
  on_chars : Forall (fun c => c <> 32 /\ c <> 46 /\ is_blank B c = false) n;
  on_short : len n < 99;
  on_err : n <> bytes "ERR";
}.
Definition member_name (m : text) : Prop := m <> [] /\ Forall (fun c => c <> 32 /\ c <> 46) m /\ len m < 100.

Definition the_member (n m : text) : text := DEL :: n ++ 46 :: m.

Lemma one_blank c : c <> 32 -> is_blank [32] c = false.
Proof. intros H. unfold is_blank. apply bool_decide_eq_false_2. by intros [->|H']%elem_of_cons; [| apply elem_of_nil in H']. Qed.

Lemma words_two a b : a <> [] -> b <> [] -> Forall (fun c => c <> 32) a -> Forall (fun c => c <> 32) b -> names_of (a ++ 32 :: b) = [a; b].
Proof.
  intros Ha Hb Hca Hcb. unfold names_of, words, words_at.
  assert (Hrun : forall s i, Forall (fun c => c <> 32) s -> words_from [32] i s = (s, [])).
  { intros s. induction s as [| c s IH]; intros i Hs; [done |]. apply Forall_cons in Hs as [Hc Hs]. cbn [words_from]. rewrite IH by done.
    by rewrite (one_blank c Hc). }
  assert (Hall : forall s i, Forall (fun c => c <> 32) s -> exists p, words_from [32] i (s ++ 32 :: b) = (s, [(p, b)])).
  { intros s. induction s as [| c s IH]; intros i Hs; cbn [app words_from].
    - rewrite (Hrun b) by done. exists (i + 1). change (is_blank [32] 32) with true. cbn iota. by rewrite bool_decide_eq_false_2.
    - apply Forall_cons in Hs as [Hc Hs]. destruct (IH (i + 1) Hs) as [p ->]. exists p.
      by rewrite (one_blank c Hc). }
  destruct (Hall a 0 Hca) as [p ->]. by rewrite bool_decide_eq_false_2.
Qed.

Lemma undot_member n m : object_name n -> member_name m -> undot (the_member n m) = Some ((DEL :: n) ++ 32 :: m).
Proof.
  intros [N1 N2 N3 N4] (M1 & M2 & M3). unfold undot, the_member. rewrite len_cons, len_app, len_cons.
  rewrite (proj2 (Z.leb_gt 400 _)) by lia. f_equal. cbn [map app]. f_equal. rewrite map_app. cbn [map]. f_equal.
  - rewrite <- (map_id n) at 2. apply map_ext_in. intros c Hc%list_elem_of_In. rewrite Forall_forall in N2. destruct (N2 c Hc) as (_ & H & _). by rewrite (proj2 (Z.eqb_neq _ _)).
  - f_equal. rewrite <- (map_id m) at 2. apply map_ext_in. intros c Hc%list_elem_of_In. rewrite Forall_forall in M2. destruct (M2 c Hc) as (_ & H). by rewrite (proj2 (Z.eqb_neq _ _)).
Qed.

Lemma token100_member n m k : object_name n -> member_name m -> 1 <= k ->
  token100 k ((DEL :: n) ++ 32 :: m) = Some ([DEL :: n; m] !! Z.to_nat (k - 1)).
Proof.
  intros [N1 N2 N3 N4] (M1 & M2 & M3) Hk.
  assert (E : names_of ((DEL :: n) ++ 32 :: m) = [DEL :: n; m]).
  { apply words_two; [done | done | |].
    - constructor; [done |]. eapply Forall_impl; [exact N2 |]. by intros c [? _].
    - eapply Forall_impl; [exact M2 |]. by intros c [? _]. }
  rewrite token100_names; [by rewrite E | | done]. rewrite E. repeat constructor; [rewrite len_cons; lia | done].
Qed.

Lemma name_not_err n : object_name n -> DEL :: n <> err_obj.
Proof. intros [_ _ _ H] [= E]. by apply H. Qed.

(** One word in a list of objects. *)
Lemma each_word_one f n st : object_name n ->
  each_word B (S (length (DEL :: n))) f (DEL :: n) 0 st = f (DEL :: n) st.
Proof.
  intros [N1 N2 N3 N4].
  assert (Hb : Forall (fun c => negb (is_blank B c) = true) (DEL :: n)).
  { constructor; [by rewrite HD |]. eapply Forall_impl; [exact N2 |]. by intros c (_ & _ & ->). }
  assert (Es : span (is_blank B) (DEL :: n) = []) by (cbn [span]; by rewrite HD).
  assert (Ew : span (fun c => negb (is_blank B c)) (DEL :: n) = DEL :: n) by (rewrite <- (app_nil_r (DEL :: n)) at 1; by apply span_app).
  assert (Hl : 0 < len (DEL :: n)) by (rewrite len_cons; len_pos; lia).
  cbn [each_word]. unfold nextword_result at 1. change (Z.to_nat 0) with 0%nat. rewrite drop_0, Es. change (0 + len (@nil Z)) with 0. rewrite drop_0, Ew.
  rewrite (proj2 (Z.leb_gt _ 0)) by lia. cbn [Z.ltb Z.compare]. rewrite take_ge by (rewrite len_cons in *; unfold len in *; cbn [length]; lia).
  destruct (f (DEL :: n) st) as [st' |]; [| done]. cbn [mbind option_bind length each_word]. unfold nextword_result.
  assert (Ed : drop (Z.to_nat (0 + len (DEL :: n))) (DEL :: n) = []) by (rewrite Z.add_0_l, to_nat_len; apply drop_all).
  rewrite Ed. cbn [span]. change (len (@nil Z)) with 0. rewrite Z.add_0_r, Z.add_0_l, Z.leb_refl. done.
Qed.
End names.

(** ** Values by their members *)

Lemma member_no_lookup memnames i m : NoDup (names_of memnames) -> names_of memnames !! i = Some m -> member_no memnames m = Some (Z.of_nat i).
Proof.
  intros Hn Hi. unfold member_no. pose proof (first_index_spec m (names_of memnames) 0) as H. destruct (first_index m (names_of memnames) 0) as [r |].
  - destruct H as (Hr & Hl & _). rewrite Z.sub_0_r in Hl. rewrite (NoDup_lookup _ _ _ _ Hn Hi Hl). f_equal. lia.
  - exfalso. apply H. by eapply list_elem_of_lookup_2.
Qed.

Lemma replace_members_same memnames values value : NoDup (names_of memnames) -> length values = length (names_of memnames) ->
  length value = length (names_of memnames) -> replace_members memnames (names_of memnames) values value = values.
Proof.
  intros Hn Hl Hl'. apply list_eq. intros i. destruct (names_of memnames !! i) as [m |] eqn:Ei.
  - pose proof (member_no_lookup _ _ _ Hn Ei) as Hm. pose proof (replace_members_lookup memnames _ values value m (Z.of_nat i) Hn Hl Hm) as H.
    rewrite Nat2Z.id in H. rewrite H by (apply lookup_lt_Some in Ei; lia).
    destruct (list_find (fun n => n = m) (names_of memnames)) as [[j x] |] eqn:E.
    + apply list_find_Some in E as (Hx & -> & _). by rewrite (NoDup_lookup _ _ _ _ Hn Hx Ei).
    + apply list_find_None in E. rewrite Forall_forall in E. exfalso. apply (E m); [by eapply list_elem_of_lookup_2 | done].
  - apply lookup_ge_None_1 in Ei. rewrite !lookup_ge_None_2; [done | lia |]. rewrite replace_members_length. lia.
Qed.

(** What an object that has been loaded is. *)
Lemma load_obj_back B o st n junk : good_blanks B -> object_ok o -> len n < 99 ->
  class_members (ot_class (otab st)) (ob_class o) (ob_memnames o) = ob_memnames o -> ob_files st !! n = object_lines junk o ->
  load_obj B (DEL :: n) st = Some (Some (mkObj (DEL :: n) (ob_class o) (ob_memnames o) 1 false (ob_updated o) 0 (ob_values o)
    (replicate (length (names_of (ob_memnames o))) false))).
Proof.
  intros HB Ho Hl Hc Hf. pose proof (load_obj_stored B o st n junk HB Ho Hl) as H. cbn zeta in H. rewrite Hc in H.
  rewrite (H (oo_names o Ho) Hf). rewrite replace_members_same; [done | apply Ho | apply Ho | apply length_replicate].
Qed.

(** ** Processes and files *)

Section share.
Context (B : list Z) (HB : good_blanks B) (HD : is_blank B DEL = false).
(** The class and the members of each object. *)
Context (desc : gmap text (text * text)).

Record is_object (n : text) (o : object_t) (d : gmap text text) : Prop := {
  io_ok : object_ok o;
  io_name : ob_name o = DEL :: n;
  io_good : object_name B n;
  io_desc : desc !! n = Some (ob_class o, ob_memnames o);
  io_dots : Forall member_name (names_of (ob_memnames o));
  io_values : forall m, d !! m = member o m;
}.

Record is_copy (n : text) (o : object_t) (c : copy) : Prop := {
  ic_object : is_object n o (c_values c);
  ic_persists : ob_persists o <> 0;
  ic_waits : ob_wait o = c_waits c;
  ic_taints : length (ob_taint o) = length (ob_values o);
  ic_changed : forall i m, names_of (ob_memnames o) !! i = Some m -> ob_taint o !! i = Some true <-> m ∈ c_changed c;
}.

Definition files_share (files : gmap text (list text)) (f : objects) : Prop :=
  forall n d, f !! n = Some d -> exists o junk, is_object n o d /\ files !! n = object_lines junk o.

Record table_share (ot : obtab) (p : copies) : Prop := {
  ts_room : len (ot_obj ot) + 4 <= ot_max ot;
  ts_once : forall i j a b, ot_obj ot !! i = Some a -> ot_obj ot !! j = Some b -> ob_name a = ob_name b -> i = j;
  ts_copies : forall i o, ot_obj ot !! i = Some o -> exists n c, p !! n = Some c /\ is_copy n o c;
  ts_there : forall n c, p !! n = Some c -> exists i o, ot_obj ot !! i = Some o /\ ob_name o = DEL :: n;
  ts_class : forall n class memnames, desc !! n = Some (class, memnames) -> class_members (ot_class ot) class memnames = memnames;
}.

Lemma member_at n o d m v : is_object n o d -> d !! m = Some v ->
  exists i, member_no (ob_memnames o) m = Some (Z.of_nat i) /\ names_of (ob_memnames o) !! i = Some m /\ ob_values o !! i = Some v.
Proof using Type.
  intros Ho Hm. rewrite (io_values _ _ _ Ho) in Hm. unfold member in Hm. destruct (member_no (ob_memnames o) m) as [i |] eqn:E; [| done].
  pose proof (member_no_range _ _ _ E). pose proof (member_no_at _ _ _ E). exists (Z.to_nat i). split_and!; [f_equal; lia | done | done].
Qed.

(** A value is set. *)
Lemma is_object_set n o d m v old i now fd taint persists wait : is_object n o d -> d !! m = Some old -> storable v -> is_int now ->
  member_no (ob_memnames o) m = Some (Z.of_nat i) ->
  is_object n (mkObj (ob_name o) (ob_class o) (ob_memnames o) persists wait now fd (<[i := v]> (ob_values o)) taint) (<[m := v]> d).
Proof using Type.
  intros [[O1 O2 O3 O4 O5 O6 O7 O8] I2 I3 I4 I5 I6] Hm Hv Hnow Hi. constructor; cbn [ob_name ob_class ob_memnames]; try done.
  - constructor; cbn [ob_class ob_memnames ob_values ob_updated]; try done; [by rewrite length_insert |]. by apply Forall_insert.
  - intros m'. unfold member. cbn [ob_memnames ob_values]. pose proof (member_no_at _ _ _ Hi) as Hat. rewrite Nat2Z.id in Hat.
    destruct (decide (m = m')) as [<- | Hne].
    + rewrite lookup_insert_eq, Hi. cbn [mbind option_bind]. rewrite Nat2Z.id. rewrite list_lookup_insert_eq; [done |]. rewrite O6. by apply lookup_lt_Some in Hat.
    + rewrite lookup_insert_ne, I6 by done. unfold member. destruct (member_no (ob_memnames o) m') as [j |] eqn:Ej; [| done]. cbn [mbind option_bind].
      rewrite list_lookup_insert_ne; [done |]. intros ->. pose proof (member_no_at _ _ _ Ej). congruence.
Qed.

(** An object of the files is loaded. *)
Lemma load_share n f d ot files errors : files_share files f -> f !! n = Some d ->
  (forall n class memnames, desc !! n = Some (class, memnames) -> class_members (ot_class ot) class memnames = memnames) ->
  exists o, load_obj B (DEL :: n) (mkObs ot files errors) = Some (Some o) /\ is_copy n o (fresh d) /\ ob_persists o = 1 /\ ob_lockfd o = 0.
Proof using HB HD.
  intros Hf Hn Hc. destruct (Hf n d Hn) as (o & junk & [I1 I2 I3 I4 I5 I6] & Hl).
  rewrite (load_obj_back B o (mkObs ot files errors) n junk HB I1 (on_short _ _ I3) (Hc _ _ _ I4) Hl). eexists. split; [reflexivity |].
  split; [| done]. constructor; cbn [ob_persists ob_wait ob_taint ob_memnames fresh c_changed c_waits c_values ob_values]; try done.
  - constructor; cbn [ob_name ob_class ob_memnames]; try done. by destruct I1 as [? ? ? ? ? ? ? ?]; constructor.
  - rewrite length_replicate. symmetry. apply I1.
  - intros i m Hi. split; [| set_solver]. intros [? _]%lookup_replicate. done.
Qed.

(** ** The table of a process *)

Lemma find_obj_spec l oname i :
  (find_obj l oname i = -1 /\ forall j o, l !! j = Some o -> ob_name o <> oname) \/
  (exists j o, find_obj l oname i = i + Z.of_nat j /\ l !! j = Some o /\ ob_name o = oname).
Proof using Type.
  revert i. induction l as [| o l IH]; intros i; cbn [find_obj]; [by left |]. case_bool_decide as E.
  - right. exists 0%nat, o. split_and!; [lia | done | done].
  - destruct (IH (i + 1)) as [[-> H] | (j & b & -> & H)]; [left | right; exists (S j), b; split; [lia | done]].
    split; [done |]. intros [| j] b Hb; [by injection Hb as <- | by apply (H j)].
Qed.

(** An object takes the place of one with the same name. *)
Lemma put_share st p slot n o o' c' : table_share (otab st) p -> objs st !! slot = Some o -> ob_name o = DEL :: n -> is_copy n o' c' ->
  exists st', put_obj (Z.of_nat slot) o' st = Some st' /\ ob_files st' = ob_files st /\ table_share (otab st') (<[n := c']> p).
Proof using Type.
  intros [T1 T2 T3 T4 T5] Hs Hn Hc. pose proof (lookup_lt_Some _ _ _ Hs) as Hlt. unfold objs in *. unfold put_obj, zset, objs.
  rewrite (proj2 (Z.ltb_ge _ 0)), (proj2 (Z.leb_gt _ _)) by (unfold len; lia). cbn [orb mbind option_bind]. eexists. split; [reflexivity |].
  rewrite Nat2Z.id. split; [done |]. cbn [set_objs otab]. pose proof (io_name _ _ _ (ic_object _ _ _ Hc)) as Hn'.
  assert (Hl : forall j a, <[slot := o']> (ot_obj (otab st)) !! j = Some a -> (j = slot /\ a = o') \/ (j <> slot /\ ot_obj (otab st) !! j = Some a)).
  { intros j a. destruct (decide (j = slot)) as [-> | Hne]; [rewrite list_lookup_insert_eq by done; intros [= <-]; by left |].
    rewrite list_lookup_insert_ne by done. by right. }
  assert (Hother : forall j a, j <> slot -> ot_obj (otab st) !! j = Some a -> ob_name a <> DEL :: n).
  { intros j a Hne Ha E. apply Hne. apply (T2 j slot a o); [done | done | congruence]. }
  constructor; cbn [ot_obj ot_max ot_class]; [unfold len in *; by rewrite length_insert | | | | done].
  - intros i j a b Ha Hb E. destruct (Hl i a Ha) as [[-> ->] | [Hi Ha']], (Hl j b Hb) as [[-> ->] | [Hj Hb']]; [done | | | by apply (T2 i j a b)].
    + exfalso. apply (Hother j b Hj Hb'). congruence.
    + exfalso. apply (Hother i a Hi Ha'). congruence.
  - intros i a Ha. destruct (Hl i a Ha) as [[-> ->] | [Hi Ha']]; [exists n, c'; by rewrite lookup_insert_eq |].
    destruct (T3 i a Ha') as (n2 & c2 & Hp & Hc2). exists n2, c2. split; [| done]. rewrite lookup_insert_ne; [done |]. intros <-.
    apply (Hother i a Hi Ha'). apply (io_name _ _ _ (ic_object _ _ _ Hc2)).
  - intros n2 c2 Hp. destruct (decide (n = n2)) as [<- | Hne].
    + exists slot, o'. by rewrite list_lookup_insert_eq.
    + rewrite lookup_insert_ne in Hp by done. destruct (T4 n2 c2 Hp) as (i & a & Ha & Ea). exists i, a. rewrite list_lookup_insert_ne; [done |].
      intros <-. congruence.
Qed.

(** The slot of an object, which is loaded when it is used for the first time. *)
Lemma obtab_is_share st p f n c : table_share (otab st) p -> files_share (ob_files st) f -> object_name B n -> copy_of n p f = Some c ->
  exists slot st' o, obtab_is B (DEL :: n) st = Some (Z.of_nat slot, st') /\ ob_files st' = ob_files st /\
    table_share (otab st') (<[n := c]> p) /\ objs st' !! slot = Some o /\ is_copy n o c /\ (is_Some (p !! n) <-> len (objs st') = len (objs st)).
Proof using HB HD.
  intros HT HF Hn Hc. pose proof HT as [T1 T2 T3 T4 T5]. unfold obtab_is. change (cval (DEL :: n) 0 =? 0) with false. change (no_del (DEL :: n)) with n.
  rewrite len_cons, (proj2 (Z.leb_gt 100 _)) by (pose proof (on_short _ _ Hn); lia).
  unfold copy_of in Hc. destruct (find_obj_spec (objs st) (DEL :: n) 0) as [[-> Hno] | (slot & o & -> & Ho & En)].
  - change (0 <=? -1) with false. destruct (p !! n) as [c0 |] eqn:Ep.
    { exfalso. destruct (T4 n c0 Ep) as (i & o & Ho & En). by apply (Hno i o). }
    destruct (f !! n) as [d |] eqn:Ed; [| done]. injection Hc as <-. destruct st as [ot files errors]. cbn [otab ob_files] in *.
    destruct (load_share n f d ot files errors HF Ed T5) as (o & -> & Ho & _ & _). cbn [mbind option_bind]. unfold obtab_add. cbn [otab ob_files ob_errors]. unfold objs in *. cbn [otab] in *.
    set (ot' := if ot_max ot - 5 <? len (ot_obj ot) then obtab_exp ot else ot).
    pose proof (len_nonneg (ot_obj ot)) as Hlen.
    assert (Hmax : len (ot_obj ot) + 5 <= ot_max ot') by (unfold ot'; destruct (Z.ltb_spec (ot_max ot - 5) (len (ot_obj ot))); cbn [obtab_exp ot_max]; lia).
    assert (Eo : ot_obj ot' = ot_obj ot) by (unfold ot'; by destruct (_ <? _)). assert (Ec : ot_class ot' = ot_class ot) by (unfold ot'; by destruct (_ <? _)).
    rewrite (proj2 (Z.leb_gt _ _)) by lia. exists (length (ot_obj ot)), (mkObs (mkObtab (ot_max ot') (ot_class ot') (ot_obj ot' ++ [o]) (ot_num ot')) files errors), o.
    cbn [otab ob_files ot_obj]. rewrite Eo, Ec. split_and!; [done | done | | by rewrite list_lookup_middle | done |].
    + assert (Hl : forall j a, (ot_obj ot ++ [o]) !! j = Some a -> (j = length (ot_obj ot) /\ a = o) \/ ot_obj ot !! j = Some a).
      { intros j a. rewrite lookup_app_Some. intros [Ha | [Hj Ha]]; [by right |]. left. destruct (j - length (ot_obj ot))%nat eqn:E; [| done]. injection Ha as <-. split; [lia | done]. }
      pose proof (io_name _ _ _ (ic_object _ _ _ Ho)) as En.
      constructor; cbn [ot_obj ot_max ot_class]; [rewrite len_app; change (len [o]) with 1; lia | | | | done].
      * intros i j a b Ha Hb E. destruct (Hl i a Ha) as [[-> ->] | Ha'], (Hl j b Hb) as [[-> ->] | Hb']; [done | | | by apply (T2 i j a b)].
        -- exfalso. apply (Hno j b Hb'). congruence.
        -- exfalso. apply (Hno i a Ha'). congruence.
      * intros i a Ha. destruct (Hl i a Ha) as [[-> ->] | Ha']; [exists n, (fresh d); by rewrite lookup_insert_eq |].
        destruct (T3 i a Ha') as (n2 & c2 & Hp & Hc2). exists n2, c2. split; [| done]. rewrite lookup_insert_ne; [done |]. intros <-. congruence.
      * intros n2 c2 Hp. destruct (decide (n = n2)) as [<- | Hne].
        -- exists (length (ot_obj ot)), o. split; [by rewrite list_lookup_middle | done].
        -- rewrite lookup_insert_ne in Hp by done. destruct (T4 n2 c2 Hp) as (i & a & Ha & Ea). exists i, a. split; [| done]. by apply lookup_app_l_Some.
    + split; [by intros [? ?] |]. rewrite len_app. change (len [o]) with 1. lia.
  - rewrite Z.add_0_l, (proj2 (Z.leb_le 0 _)) by lia. destruct (T3 slot o Ho) as (n2 & c2 & Hp & Hc2).
    assert (n2 = n) as -> by (pose proof (io_name _ _ _ (ic_object _ _ _ Hc2)); congruence). rewrite Hp in Hc. injection Hc as <-.
    exists slot, st, o. split_and!; try done. by rewrite insert_id.
Qed.

(** ** Operations *)

Context (now : Z) (Hnow : is_int now) (junk : Z).

Lemma copy_name ot p files f n c : table_share ot p -> files_share files f -> copy_of n p f = Some c ->
  object_name B n /\ (forall m v, c_values c !! m = Some v -> member_name m).
Proof using Type.
  intros HT HF Hc.
  assert (Hio : exists o, is_object n o (c_values c)).
  { unfold copy_of in Hc. destruct (p !! n) as [c0 |] eqn:Ep.
    - injection Hc as ->. destruct (ts_there _ _ HT n c Ep) as (i & o & Ho & En). destruct (ts_copies _ _ HT i o Ho) as (n2 & c2 & Hp & Hc2).
      assert (n2 = n) as -> by (pose proof (io_name _ _ _ (ic_object _ _ _ Hc2)); congruence). assert (c2 = c) as -> by congruence.
      exists o. apply Hc2.
    - destruct (f !! n) as [d |] eqn:Ed; [| done]. injection Hc as <-. destruct (HF n d Ed) as (o & j & Ho & _). by exists o. }
  destruct Hio as [o Ho]. split; [apply Ho |]. intros m v Hm. destruct (member_at n o _ m v Ho Hm) as (i & _ & Hi & _).
  by apply (Forall_lookup_1 _ _ _ _ (io_dots _ _ _ Ho) Hi).
Qed.

(** A reference to a member of an object that can be used. *)
Lemma strtable_at o n d m v : is_object n o d -> d !! m = Some v ->
  exists i, strtable (ob_memnames o) m = Some (Z.of_nat i) /\ member_no (ob_memnames o) m = Some (Z.of_nat i) /\ zget (ob_values o) (Z.of_nat i) = Some v /\
    (i < length (ob_values o))%nat.
Proof using Type.
  intros Ho Hm. destruct (member_at n o d m v Ho Hm) as (i & E & Hi & Hv). exists i.
  pose proof (name_words (ob_memnames o)) as Hw. destruct (Forall_lookup_1 _ _ _ _ Hw Hi) as [Hne Hb].
  destruct (strtable_member (ob_memnames o) m Hne Hb) as (r & Er & Hr). rewrite E in Hr. subst r. rewrite zget_nat. split_and!; [done | done | done | by apply lookup_lt_Some in Hv].
Qed.

Lemma ob_value_share st p f n m c v : table_share (otab st) p -> files_share (ob_files st) f -> copy_of n p f = Some c -> c_values c !! m = Some v ->
  exists st', ob_value B (the_member n m) st = Some (true, v, st') /\ ob_files st' = ob_files st /\ table_share (otab st') (<[n := c]> p).
Proof using HB HD.
  intros HT HF Hc Hm. destruct (copy_name _ _ _ _ _ _ HT HF Hc) as [Hn Hmem]. specialize (Hmem m v Hm).
  destruct (obtab_is_share st p f n c HT HF Hn Hc) as (slot & st1 & o & E & Ef & HT1 & Ho & Hco & _).
  unfold ob_value. rewrite (undot_member B n m Hn Hmem). cbn [mbind option_bind]. change (cval (the_member n m) 0 =? 46) with false.
  rewrite (token100_member B n m 1 Hn Hmem) by lia. change ([DEL :: n; m] !! Z.to_nat (1 - 1)) with (Some (DEL :: n)). cbn [mbind option_bind].
  rewrite (bool_decide_eq_false_2 _ (name_not_err B n Hn)). rewrite (token100_member B n m 2 Hn Hmem) by lia.
  change ([DEL :: n; m] !! Z.to_nat (2 - 1)) with (Some m). cbn [mbind option_bind].
  set (fullref := (DEL :: n) ++ 32 :: m).
  assert (Ht : forall k, 1 <= k -> token100 k fullref = Some ([DEL :: n; m] !! Z.to_nat (k - 1))) by (intros k Hk; by apply (token100_member B)).
  assert (El : exists k, length fullref = S k) by by eexists. destruct El as [k El]. rewrite El. cbn [value_loop]. rewrite (Ht 2) by lia.
  change ([DEL :: n; m] !! Z.to_nat (2 - 1)) with (Some m). cbn [mbind option_bind].
  rewrite (bool_decide_eq_false_2 _ (name_not_err B n Hn)), E. cbn [mbind option_bind]. rewrite (proj2 (Z.ltb_ge _ 0)) by lia.
  unfold get_obj. rewrite zget_nat, Ho. cbn [mbind option_bind]. destruct (strtable_at o n _ m v (ic_object _ _ _ Hco) Hm) as (i & -> & _ & Ev & _).
  cbn [mbind option_bind]. rewrite (proj2 (Z.leb_le 0 _)) by lia. rewrite Ev. cbn [mbind option_bind]. cbn [value_loop]. rewrite (Ht (2 + 1)) by lia. by exists st1.
Qed.

Lemma set_place_share st p f n m c v : table_share (otab st) p -> files_share (ob_files st) f -> copy_of n p f = Some c -> c_values c !! m = Some v ->
  exists slot st' o i, set_place B (the_member n m) st = Some (Some (mkPlace (Z.of_nat slot) (DEL :: n) (Z.of_nat i)), st') /\ ob_files st' = ob_files st /\
    table_share (otab st') (<[n := c]> p) /\ objs st' !! slot = Some o /\ is_copy n o c /\ member_no (ob_memnames o) m = Some (Z.of_nat i) /\ (i < length (ob_values o))%nat.
Proof using HB HD.
  intros HT HF Hc Hm. destruct (copy_name _ _ _ _ _ _ HT HF Hc) as [Hn Hmem]. specialize (Hmem m v Hm).
  destruct (obtab_is_share st p f n c HT HF Hn Hc) as (slot & st1 & o & E & Ef & HT1 & Ho & Hco & _).
  destruct (strtable_at o n _ m v (ic_object _ _ _ Hco) Hm) as (i & Es & Ei & Ev & Hlt). exists slot, st1, o, i. split_and!; try done.
  unfold set_place. rewrite (undot_member B n m Hn Hmem). cbn [mbind option_bind]. change (cval (the_member n m) 0 =? 46) with false.
  rewrite (token100_member B n m 2 Hn Hmem) by lia. change ([DEL :: n; m] !! Z.to_nat (2 - 1)) with (Some m). cbn [mbind option_bind].
  rewrite (token100_member B n m 1 Hn Hmem) by lia. change ([DEL :: n; m] !! Z.to_nat (1 - 1)) with (Some (DEL :: n)). cbn [mbind option_bind].
  rewrite (bool_decide_eq_false_2 _ (name_not_err B n Hn)).
  set (fullref := (DEL :: n) ++ 32 :: m).
  assert (Ht : forall k, 1 <= k -> token100 k fullref = Some ([DEL :: n; m] !! Z.to_nat (k - 1))) by (intros k Hk; by apply (token100_member B)).
  assert (El : exists k, length fullref = S k) by by eexists. destruct El as [k El]. rewrite El. cbn [set_loop]. rewrite (Ht 2) by lia.
  change ([DEL :: n; m] !! Z.to_nat (2 - 1)) with (Some m). cbn [mbind option_bind].
  rewrite (bool_decide_eq_false_2 _ (name_not_err B n Hn)), E. cbn [mbind option_bind]. rewrite (proj2 (Z.ltb_ge _ 0)) by lia.
  unfold get_obj. rewrite zget_nat, Ho. cbn [mbind option_bind]. rewrite Es. cbn [mbind option_bind]. rewrite (proj2 (Z.leb_le 0 _)) by lia.
  rewrite Ev. cbn [mbind option_bind]. cbn [set_loop]. rewrite (Ht (2 + 1)) by lia. done.
Qed.

(** An object is stored, and the table has it. *)
Lemma store_share st p f n new d slot old : table_share (otab st) p -> files_share (ob_files st) f -> is_object n new d -> ob_persists new <> 0 ->
  length (ob_taint new) = length (ob_values new) -> objs st !! slot = Some old -> ob_name old = DEL :: n ->
  exists new' st1 st2, store_obj junk new st = Some (new', st1) /\ put_obj (Z.of_nat slot) new' st1 = Some st2 /\
    table_share (otab st2) (<[n := fresh d]> p) /\ files_share (ob_files st2) (<[n := d]> f).
Proof using Type.
  intros HT HF Ho Hp Hl Hs En. unfold store_obj. rewrite (object_lines_ok junk new (io_ok _ _ _ Ho)). cbn [mbind option_bind].
  set (new' := ob_waits false _). set (st1 := set_ob_files _ st).
  assert (Hc : is_copy n new' (fresh d)).
  { constructor; cbn [new' ob_waits ob_taints ob_persists ob_wait ob_taint ob_memnames ob_values fresh c_changed c_waits c_values]; try done.
    - by destruct Ho as [[? ? ? ? ? ? ? ?] ? ? ? ? ?]; constructor; [constructor | ..].
    - by rewrite length_map.
    - intros i m Hi. split; [| set_solver]. rewrite list_lookup_fmap. by destruct (ob_taint new !! i). }
  destruct (put_share st1 p slot n old new' (fresh d)) as (st2 & E2 & Ef & HT2); [done | done | done | done |].
  exists new', st1, st2. split_and!; [done | done | done |]. rewrite Ef. unfold st1. cbn [set_ob_files ob_files]. rewrite (io_name _ _ _ Ho). change (drop 1 (DEL :: n)) with n.
  intros n2 d2. destruct (decide (n = n2)) as [<- | Hne].
  - rewrite lookup_insert_eq. intros [= <-]. exists new, junk. split; [done |]. rewrite lookup_insert_eq, (object_lines_ok junk new (io_ok _ _ _ Ho)), (io_name _ _ _ Ho). done.
  - rewrite lookup_insert_ne by done. intros Hd. rewrite lookup_insert_ne by done. by apply HF.
Qed.

(** The operation as the page makes it. *)
Definition act (op : share_op) (st : ob_state) : option (option text * ob_state) :=
  let func (what : string) n := '(_, st) ← func_ob B now junk [] 0 (bytes what) (DEL :: n) st; Some (None, st) in
  match op with
  | Read n m => '(ok, v, st) ← ob_value B (the_member n m) st; Some (if ok : bool then Some v else None, st)
  | Write n m v => '(_, st) ← ob_set B now junk (the_member n m) v st; Some (None, st)
  | Wait n => func "ob_wait" n
  | Commit n => func "ob_commit" n
  | Reload n => func "ob_reload" n
  end.

(** A value that can be kept in a file. *)
Definition op_ok (op : share_op) : Prop := match op with Write _ _ v => storable v | _ => True end.

Definition acts_as (op : share_op) (st : ob_state) (r : option text) (p : copies) (f : objects) : Prop :=
  exists st', act op st = Some (r, st') /\ table_share (otab st') p /\ files_share (ob_files st') f.

Lemma write_share n m v st p f r p' f' : table_share (otab st) p -> files_share (ob_files st) f -> storable v ->
  share (Write n m v) p f = Some (r, p', f') -> acts_as (Write n m v) st r p' f'.
Proof using HB HD Hnow.
  intros HT HF Hv. cbn [share]. destruct (copy_of n p f) as [c |] eqn:Hc; [| done]. cbn [mbind option_bind].
  destruct (c_values c !! m) as [old |] eqn:Hm; [| done]. cbn [mbind option_bind].
  destruct (set_place_share st p f n m c old HT HF Hc Hm) as (slot & st1 & o & i & E & Ef & HT1 & Ho & Hco & Hi & Hlt).
  assert (HF1 : files_share (ob_files st1) f) by by rewrite Ef. destruct (copy_name _ _ _ _ _ _ HT HF Hc) as [Hn _].
  unfold acts_as, act, ob_set. rewrite E. cbn [mbind option_bind]. unfold set_member. cbn [pl_slot pl_oname pl_mnum].
  unfold get_obj at 1. rewrite zget_nat, Ho. cbn [mbind option_bind]. rewrite (proj2 (Z.eqb_neq _ 0) (ic_persists _ _ _ Hco)), (ic_waits _ _ _ Hco). cbn [negb andb].
  assert (Hz : forall {A} (l : list A) x, (i < length l)%nat -> zset l (Z.of_nat i) x = Some (<[i := x]> l)).
  { intros A l x Hl. unfold zset. rewrite (proj2 (Z.ltb_ge _ 0)), (proj2 (Z.leb_gt _ _)) by (unfold len; lia). cbn [orb]. by rewrite Nat2Z.id. }
  pose proof (io_name _ _ _ (ic_object _ _ _ Hco)) as En. destruct (c_waits c) eqn:Ew; cbn [negb].
  - intros [= <- <- <-]. rewrite (Hz _ (ob_values o) v) by done. cbn [mbind option_bind]. rewrite (Hz _ (ob_taint o) true) by by rewrite (ic_taints _ _ _ Hco). cbn [mbind option_bind].
    destruct (put_share st1 (<[n := c]> p) slot n o (ob_taints (<[i := true]> (ob_taint o)) (ob_fills (<[i := v]> (ob_values o)) o)) (mkCopy (<[m := v]> (c_values c)) ({[m]} ∪ c_changed c) true) HT1 Ho En) as (st2 & -> & Ef2 & HT2).
    + destruct Hco as [Hio Hp Hw Hl Hch]. constructor; cbn [ob_taints ob_fills ob_persists ob_wait ob_taint ob_memnames ob_values c_values c_changed c_waits]; [| done | congruence | by rewrite !length_insert |].
      * apply (is_object_set n o (c_values c) m v old i (ob_updated o) (ob_lockfd o) _ (ob_persists o) (ob_wait o) Hio Hm Hv); [apply Hio | done].
      * intros j m' Hj. rewrite list_lookup_insert. pose proof (member_no_at _ _ _ Hi) as Hat. rewrite Nat2Z.id in Hat.
        destruct (decide (i = j)) as [<- | Hne].
        -- rewrite decide_True by (split; [done | congruence]). assert (m' = m) as -> by congruence. set_solver.
        -- rewrite decide_False by (by intros [? _]). rewrite (Hch j m' Hj). assert (m' <> m); [| set_solver].
           intros ->. apply Hne. apply (NoDup_lookup _ _ _ _ (oo_once _ (io_ok _ _ _ Hio)) Hat Hj).
    + cbn [mbind option_bind]. exists st2. split; [done |]. rewrite insert_insert_eq in HT2. split; [done |]. by rewrite Ef2.
  - destruct (f !! n) as [d |] eqn:Ed; [| done]. cbn [mbind option_bind]. intros [= <- <- <-].
    destruct st1 as [ot files errors] eqn:Est. cbn [otab ob_files] in *.
    destruct (load_share n f d ot files errors HF1 Ed (ts_class _ _ HT1)) as (new & -> & Hnew & Hnp & _). cbn [mbind option_bind].
    pose proof (ic_object _ _ _ Hnew) as Hion. cbn [fresh c_values] in Hion.
    assert (Eq : ob_memnames new = ob_memnames o) by (pose proof (io_desc _ _ _ Hion); pose proof (io_desc _ _ _ (ic_object _ _ _ Hco)); congruence).
    assert (Hd : exists old', d !! m = Some old').
    { rewrite (io_values _ _ _ Hion). unfold member. rewrite Eq, Hi. cbn [mbind option_bind]. rewrite Nat2Z.id. apply lookup_lt_is_Some_2.
      rewrite (oo_values _ (io_ok _ _ _ Hion)), Eq, <- (oo_values _ (io_ok _ _ _ (ic_object _ _ _ Hco))). done. }
    destruct Hd as [old' Hd].
    assert (Hln : (i < length (ob_values new))%nat) by (rewrite (oo_values _ (io_ok _ _ _ Hion)), Eq, <- (oo_values _ (io_ok _ _ _ (ic_object _ _ _ Hco))); done).
    unfold set_stored. cbn [pl_slot pl_oname pl_mnum]. unfold get_obj. rewrite zget_nat, Ho. cbn [mbind option_bind]. rewrite Hz by done. cbn [mbind option_bind].
    set (new1 := ob_locks _ _). rewrite <- Eq in Hi.
    destruct (store_share (mkObs ot files errors) (<[n := c]> p) f n new1 (<[m := v]> d) slot o) as (new' & s1 & s2 & -> & Ep & HT2 & HF2); try done.
    + apply (is_object_set n new d m v old' i now (ob_lockfd o) (ob_taint new) (ob_persists new) (ob_wait new) Hion Hd Hv Hnow Hi).
    + cbn [new1 ob_locks ob_time ob_fills ob_persists]. by rewrite Hnp.
    + cbn [new1 ob_locks ob_time ob_fills ob_taint ob_values]. rewrite length_insert. apply Hnew.
    + cbn [mbind option_bind]. rewrite Ep. cbn [mbind option_bind]. exists s2. rewrite insert_insert_eq in HT2. done.
Qed.

Lemma read_share n m st p f r p' f' : table_share (otab st) p -> files_share (ob_files st) f ->
  share (Read n m) p f = Some (r, p', f') -> acts_as (Read n m) st r p' f'.
Proof using HB HD.
  intros HT HF. cbn [share]. destruct (copy_of n p f) as [c |] eqn:Hc; [| done]. cbn [mbind option_bind].
  destruct (c_values c !! m) as [v |] eqn:Hm; [| done]. cbn [mbind option_bind]. intros [= <- <- <-].
  destruct (ob_value_share st p f n m c v HT HF Hc Hm) as (st1 & E & Ef & HT1). unfold acts_as, act. rewrite E. cbn [mbind option_bind].
  exists st1. by rewrite Ef.
Qed.

(** A function of one object. *)
Lemma act_one f n st : object_name B n ->
  ('(_, st) ← (st ← each_word B (S (length (DEL :: n))) f (DEL :: n) 0 st; Some ([] : text, st)); Some (None : option text, st)) =
  (st ← f (DEL :: n) st; Some (None : option text, st)).
Proof using HD. intros Hn. rewrite (each_word_one B HD f n st Hn). by destruct (f (DEL :: n) st). Qed.

Lemma wait_share n st p f r p' f' : table_share (otab st) p -> files_share (ob_files st) f ->
  share (Wait n) p f = Some (r, p', f') -> acts_as (Wait n) st r p' f'.
Proof using HB HD.
  intros HT HF. cbn [share]. destruct (copy_of n p f) as [c |] eqn:Hc; [| done]. cbn [mbind option_bind]. intros [= <- <- <-].
  destruct (copy_name _ _ _ _ _ _ HT HF Hc) as [Hn _]. destruct (obtab_is_share st p f n c HT HF Hn Hc) as (slot & st1 & o & E & Ef & HT1 & Ho & Hco & _).
  unfold acts_as, act. change (func_ob B now junk [] 0 (bytes "ob_wait") (DEL :: n) st) with (st ← each_word B (S (length (DEL :: n))) (ob_wait_one B) (DEL :: n) 0 st; Some ([] : text, st)).
  rewrite act_one by done. unfold ob_wait_one. rewrite E. cbn [mbind option_bind]. rewrite (proj2 (Z.ltb_ge _ 0)) by lia.
  unfold get_obj. rewrite zget_nat, Ho. cbn [mbind option_bind].
  destruct (put_share st1 (<[n := c]> p) slot n o (ob_waits true o) (mkCopy (c_values c) (c_changed c) true) HT1 Ho (io_name _ _ _ (ic_object _ _ _ Hco))) as (st2 & -> & Ef2 & HT2).
  - destruct Hco as [[[? ? ? ? ? ? ? ?] ? ? ? ? ?] ? ? ? ?]. by constructor.
  - cbn [mbind option_bind]. exists st2. rewrite insert_insert_eq in HT2. by rewrite Ef2, Ef.
Qed.

Lemma copy_tainted_spec values taint to k : length taint = length values -> (k + length values = length to)%nat ->
  exists to', copy_tainted values taint (Z.of_nat k) to = Some to' /\ length to' = length to /\
    (forall i, (i < k)%nat -> to' !! i = to !! i) /\
    (forall i, to' !! (k + i)%nat = if decide (taint !! i = Some true) then values !! i else to !! (k + i)%nat).
Proof using Type.
  revert taint to k. induction values as [| v values IH]; intros [| t taint] to k Hl Hk; try done; cbn [copy_tainted].
  - exists to. split_and!; [done | done | done |]. intros i. by rewrite lookup_nil.
  - injection Hl as Hl. cbn [length] in Hk. set (to1 := if t then <[k := v]> to else to).
    assert (E1 : (if t then zset to (Z.of_nat k) v else Some to) = Some to1).
    { destruct t; [| done]. unfold zset. rewrite (proj2 (Z.ltb_ge _ 0)), (proj2 (Z.leb_gt _ _)) by (unfold len; lia). cbn [orb]. by rewrite Nat2Z.id. }
    assert (El : length to1 = length to) by (unfold to1; destruct t; [apply length_insert | done]).
    rewrite E1. cbn [mbind option_bind]. replace (Z.of_nat k + 1) with (Z.of_nat (S k)) by lia.
    destruct (IH taint to1 (S k) Hl) as (to' & -> & El' & Hlo & Hhi); [lia |]. exists to'. split_and!; [done | lia | |].
    + intros i Hi. rewrite Hlo by lia. unfold to1. destruct t; [| done]. apply list_lookup_insert_ne. lia.
    + intros [| i].
      * rewrite Nat.add_0_r, Hlo by lia. unfold to1. cbn [lookup list_lookup]. destruct t.
        -- rewrite decide_True by done. apply list_lookup_insert_eq. lia.
        -- by rewrite decide_False.
      * replace (k + S i)%nat with (S k + i)%nat by lia. rewrite Hhi. unfold to1. cbn [lookup list_lookup].
        destruct (decide _); [done |]. destruct t; [| done]. apply list_lookup_insert_ne. lia.
Qed.

Lemma commit_share n st p f r p' f' : table_share (otab st) p -> files_share (ob_files st) f ->
  share (Commit n) p f = Some (r, p', f') -> acts_as (Commit n) st r p' f'.
Proof using HB HD Hnow.
  intros HT HF. cbn [share]. destruct (copy_of n p f) as [c |] eqn:Hc; [| done]. cbn [mbind option_bind].
  destruct (copy_name _ _ _ _ _ _ HT HF Hc) as [Hn _]. destruct (obtab_is_share st p f n c HT HF Hn Hc) as (slot & st1 & o & E & Ef & HT1 & Ho & Hco & _).
  assert (HF1 : files_share (ob_files st1) f) by by rewrite Ef.
  unfold acts_as, act. change (func_ob B now junk [] 0 (bytes "ob_commit") (DEL :: n) st) with (st ← each_word B (S (length (DEL :: n))) (ob_commit_one B now junk) (DEL :: n) 0 st; Some ([] : text, st)).
  rewrite act_one by done. unfold ob_commit_one. rewrite E. cbn [mbind option_bind]. rewrite (proj2 (Z.ltb_ge _ 0)) by lia.
  unfold get_obj. rewrite zget_nat, Ho. cbn [mbind option_bind]. rewrite (ic_waits _ _ _ Hco). pose proof (io_name _ _ _ (ic_object _ _ _ Hco)) as En.
  destruct (c_waits c) eqn:Ew; cbn [negb]; [| by intros [= <- <- <-]; exists st1].
  destruct (f !! n) as [d |] eqn:Ed; [| done]. cbn [mbind option_bind]. intros [= <- <- <-].
  destruct st1 as [ot files errors] eqn:Est. cbn [otab ob_files] in *.
  destruct (load_share n f d ot files errors HF1 Ed (ts_class _ _ HT1)) as (new & -> & Hnew & Hnp & _). cbn [mbind option_bind].
  pose proof (ic_object _ _ _ Hnew) as Hion. cbn [fresh c_values] in Hion. pose proof (ic_object _ _ _ Hco) as Hio.
  assert (Eq : ob_memnames new = ob_memnames o) by (pose proof (io_desc _ _ _ Hion); pose proof (io_desc _ _ _ Hio); congruence).
  assert (Elen : length (ob_values o) = length (ob_values new)) by (rewrite (oo_values _ (io_ok _ _ _ Hion)), Eq, <- (oo_values _ (io_ok _ _ _ Hio)); done).
  destruct (copy_tainted_spec (ob_values o) (ob_taint o) (ob_values new) 0 (ic_taints _ _ _ Hco)) as (values & Ect & El & _ & Hv); [lia |].
  change (Z.of_nat 0) with 0 in Ect. rewrite Ect. cbn [Nat.add] in Hv.
  cbn [mbind option_bind]. set (d' := filter _ (c_values c) ∪ d).
  assert (Hd' : is_object n (ob_locks (ob_lockfd o) (ob_time now (ob_fills values new))) d').
  { destruct Hion as [[O1 O2 O3 O4 O5 O6 O7 O8] I2 I3 I4 I5 I6]. constructor; cbn [ob_locks ob_time ob_fills ob_name ob_class ob_memnames]; try done.
    - constructor; cbn [ob_locks ob_time ob_fills ob_class ob_memnames ob_values ob_updated]; try done; [congruence |]. apply Forall_lookup. intros i v Hi. specialize (Hv i). rewrite Hi in Hv.
      destruct (decide _).
      + symmetry in Hv. by apply (Forall_lookup_1 _ _ _ _ (oo_cells _ (io_ok _ _ _ Hio)) Hv).
      + symmetry in Hv. by apply (Forall_lookup_1 _ _ _ _ O7 Hv).
    - intros m. unfold member. cbn [ob_locks ob_time ob_fills ob_memnames ob_values]. pose proof (io_values _ _ _ Hio m) as Hm1. pose proof (I6 m) as Hm2.
      unfold member in Hm1, Hm2. rewrite Eq in *. unfold d'. destruct (member_no (ob_memnames o) m) as [i |] eqn:Ei.
      2: { apply lookup_union_None. split; [| exact Hm2]. apply map_lookup_filter_None. by left. }
      cbn [mbind option_bind] in *. pose proof (member_no_at _ _ _ Ei) as Hat. rewrite (Hv (Z.to_nat i)). pose proof (ic_changed _ _ _ Hco _ _ Hat) as Hch.
      destruct (lookup_lt_is_Some_2 (ob_values o) (Z.to_nat i)) as [v1 Hv1]; [rewrite (oo_values _ (io_ok _ _ _ Hio)); by apply lookup_lt_Some in Hat |].
      rewrite Hv1 in Hm1. destruct (decide (ob_taint o !! Z.to_nat i = Some true)) as [Ht | Ht].
      + rewrite Hv1. apply lookup_union_Some_l, map_lookup_filter_Some. split; [done | by apply Hch].
      + rewrite <- Hm2. apply lookup_union_r, map_lookup_filter_None. right. intros x _ Hx. apply Ht, Hch, Hx. }
  destruct (store_share (mkObs ot files errors) (<[n := c]> p) f n (ob_locks (ob_lockfd o) (ob_time now (ob_fills values new))) d' slot o) as (new' & s1 & s2 & -> & Ep & HT2 & HF2); try done.
  - cbn [ob_locks ob_time ob_fills ob_persists]. by rewrite Hnp.
  - cbn [ob_locks ob_time ob_fills ob_taint ob_values]. rewrite El. apply Hnew.
  - cbn [mbind option_bind]. rewrite Ep. cbn [mbind option_bind]. exists s2. rewrite insert_insert_eq in HT2. done.
Qed.

Lemma reload_share n st p f r p' f' : table_share (otab st) p -> files_share (ob_files st) f ->
  share (Reload n) p f = Some (r, p', f') -> acts_as (Reload n) st r p' f'.
Proof using HB HD.
  intros HT HF. cbn [share]. destruct (f !! n) as [d |] eqn:Ed; [| done]. cbn [mbind option_bind]. intros [= <- <- <-].
  assert (Hc : exists c, copy_of n p f = Some c /\ (p !! n = None -> c = fresh d)).
  { unfold copy_of. destruct (p !! n) as [c |]; [by exists c |]. rewrite Ed. by eexists. }
  destruct Hc as (c & Hc & Hfr). destruct (copy_name _ _ _ _ _ _ HT HF Hc) as [Hn _].
  destruct (obtab_is_share st p f n c HT HF Hn Hc) as (slot & st1 & o & E & Ef & HT1 & Ho & Hco & Hp).
  assert (HF1 : files_share (ob_files st1) f) by by rewrite Ef.
  unfold acts_as, act. change (func_ob B now junk [] 0 (bytes "ob_reload") (DEL :: n) st) with (st ← each_word B (S (length (DEL :: n))) (ob_reload_one B) (DEL :: n) 0 st; Some ([] : text, st)).
  rewrite act_one by done. unfold ob_reload_one. rewrite E. cbn [mbind option_bind]. rewrite (proj2 (Z.ltb_ge _ 0)) by lia. cbn [orb].
  destruct (Z.eqb_spec (len (objs st1)) (len (objs st))) as [El | El]; cbn [negb].
  - destruct st1 as [ot files errors] eqn:Est. cbn [otab ob_files] in *.
    destruct (load_share n f d ot files errors HF1 Ed (ts_class _ _ HT1)) as (new & -> & Hnew & _ & _). cbn [mbind option_bind].
    unfold get_obj. rewrite zget_nat, Ho. cbn [mbind option_bind].
    destruct (put_share (mkObs ot files errors) (<[n := c]> p) slot n o (ob_locks (ob_lockfd o) new) (fresh d) HT1 Ho (io_name _ _ _ (ic_object _ _ _ Hco))) as (st2 & -> & Ef2 & HT2).
    + destruct Hnew as [[[? ? ? ? ? ? ? ?] ? ? ? ? ?] ? ? ? ?]. by constructor.
    + cbn [mbind option_bind]. exists st2. rewrite insert_insert_eq in HT2. by rewrite Ef2.
  - cbn [mbind option_bind]. exists st1. split_and!; [done | | done]. rewrite <- Hfr; [done |]. apply eq_None_not_Some. by rewrite Hp.
Qed.

Lemma act_share op st p f r p' f' : op_ok op -> table_share (otab st) p -> files_share (ob_files st) f ->
  share op p f = Some (r, p', f') -> acts_as op st r p' f'.
Proof using HB HD Hnow.
  intros Hop HT HF Hs. destruct op as [n m | n m v | n | n | n].
  - exact (read_share n m st p f r p' f' HT HF Hs).
  - exact (write_share n m v st p f r p' f' HT HF Hop Hs).
  - exact (wait_share n st p f r p' f' HT HF Hs).
  - exact (commit_share n st p f r p' f' HT HF Hs).
  - exact (reload_share n st p f r p' f' HT HF Hs).
Qed.
End share.

(** ** Several processes *)

(** An operation of a process, when it is made, and what is on the stack. *)
Record event := mkEvent { e_process : nat; e_now : Z; e_junk : Z; e_op : share_op }.

Record system := mkSystem { sy_tables : list obtab; sy_files : gmap text (list text) }.

Fixpoint run_system (B : list Z) (es : list event) (sys : system) : option (list (option text) * system) :=
  match es with
  | [] => Some ([], sys)
  | e :: es =>
      ot ← sy_tables sys !! e_process e;
      '(r, st) ← act B (e_now e) (e_junk e) (e_op e) (mkObs ot (sy_files sys) []);
      '(rs, sys) ← run_system B es (mkSystem (<[e_process e := otab st]> (sy_tables sys)) (ob_files st));
      Some (r :: rs, sys)
  end.

(** The same on copies and objects. *)
Fixpoint run_shared (es : list event) (ps : list copies) (f : objects) : option (list (option text) * list copies * objects) :=
  match es with
  | [] => Some ([], ps, f)
  | e :: es =>
      p ← ps !! e_process e;
      '(r, p, f) ← share (e_op e) p f;
      '(rs, ps, f) ← run_shared es (<[e_process e := p]> ps) f;
      Some (r :: rs, ps, f)
  end.

Definition event_ok (e : event) : Prop := is_int (e_now e) /\ op_ok (e_op e).

Lemma run_share B desc es ps f rs ps' f' : good_blanks B -> is_blank B DEL = false -> Forall event_ok es ->
  run_shared es ps f = Some (rs, ps', f') ->
  forall sys, Forall2 (table_share B desc) (sy_tables sys) ps -> files_share B desc (sy_files sys) f ->
  exists sys', run_system B es sys = Some (rs, sys') /\ Forall2 (table_share B desc) (sy_tables sys') ps' /\ files_share B desc (sy_files sys') f'.
Proof.
  intros HB HD Hes. revert ps f rs. induction Hes as [| e es [Hnow Hop] Hes IH]; intros ps f rs Hr sys HT HF; cbn [run_shared run_system] in *.
  - injection Hr as <- <- <-. by exists sys.
  - destruct (ps !! e_process e) as [p |] eqn:Ep; [| done]. cbn [mbind option_bind] in Hr.
    destruct (share (e_op e) p f) as [[[r p1] f1] |] eqn:Es; [| done]. cbn [mbind option_bind] in Hr.
    destruct (run_shared es (<[e_process e := p1]> ps) f1) as [[[rs1 ps1] f2] |] eqn:Er; [| done]. cbn [mbind option_bind] in Hr. injection Hr as <- <- <-.
    destruct (Forall2_lookup_r _ _ _ _ _ HT Ep) as (ot & Eot & Ht). rewrite Eot. cbn [mbind option_bind].
    destruct (act_share B HB HD desc (e_now e) Hnow (e_junk e) (e_op e) (mkObs ot (sy_files sys) []) p f r p1 f1 Hop Ht HF Es) as (st' & -> & Ht' & HF').
    cbn [mbind option_bind]. destruct (IH _ _ _ Er (mkSystem (<[e_process e := otab st']> (sy_tables sys)) (ob_files st'))) as (sys' & -> & HT' & HF2); [| done |].
    + cbn [sy_tables]. by apply Forall2_insert.
    + cbn [mbind option_bind]. by exists sys'.
Qed.

(** C5: Processes that share objects through their files, each with a table that
    is empty at the start.  Their operations come in any number and order, on
    two conditions.  Each operation runs whole: no other process runs between
    its [load_obj] and its [store_obj] (the code has no lock over both, and
    loses what is written in between: [lost_update]).  And a class has the same
    members in all processes and in the files, all the time (otherwise the code
    sets another member: [class_changed]).  References are to members that there
    are of objects that there are, with the delete character in front
    ([plain_reference] shows why), and the values can be stored.  Then what each
    process reads is what it has copied, changed or loaded last, and what is in
    the files is the last value that was written to each member, at once or with
    [$ob_commit], also when several processes write to members of one object. *)
Theorem processes_share B desc es k sys f rs ps f' :
  good_blanks B -> is_blank B DEL = false -> Forall event_ok es ->
  Forall (fun ot => ot_obj ot = [] /\ 4 <= ot_max ot /\
    forall n class memnames, desc !! n = Some (class, memnames) -> class_members (ot_class ot) class memnames = memnames) (sy_tables sys) ->
  length (sy_tables sys) = k -> files_share B desc (sy_files sys) f ->
  run_shared es (replicate k ∅) f = Some (rs, ps, f') ->
  exists sys', run_system B es sys = Some (rs, sys') /\ files_share B desc (sy_files sys') f'.
Proof.
  intros HB HD Hes HT Hk HF Hr. destruct (run_share B desc es (replicate k ∅) f rs ps f' HB HD Hes Hr sys) as (sys' & E & _ & HF'); [| done | by exists sys'].
  subst k. apply Forall2_replicate_r; [done |]. eapply Forall_impl; [exact HT |]. intros ot (Eo & Hm & Hc). constructor; rewrite ?Eo;
    [change (len (@nil object_t)) with 0; lia | done | done | intros n c H; by rewrite lookup_empty in H | exact Hc].
Qed.

(** ** An example, and where the code fails *)

(** The members of an object and their values. *)
Definition obj_map (o : object_t) : gmap text text := list_to_map (zip (names_of (ob_memnames o)) (ob_values o)).

Lemma zip_find (names values : list text) m : length values = length names ->
  (list_to_map (zip names values) : gmap text text) !! m =
  match list_find (fun n => n = m) names with Some (j, _) => values !! j | None => None end.
Proof.
  revert values. induction names as [| n names IH]; intros [| v values] Hl; try done. injection Hl as Hl.
  cbn [zip zip_with list_to_map foldr curry list_find fst snd]. rewrite lookup_insert. destruct (decide (n = m)) as [-> | Hne]; [done |].
  rewrite IH by done. by destruct (list_find (fun n => n = m) names) as [[j x] |].
Qed.

Lemma obj_map_values o m : object_ok o -> obj_map o !! m = member o m.
Proof. intros Ho. rewrite (member_lookup o m Ho). apply zip_find, Ho. Qed.

Definition card_desc : gmap text (text * text) := {[bytes "anna" := (bytes "card", bytes "phone note street")]}.
Definition card_files : gmap text (list text) := {[bytes "anna" := default [] (object_lines 0 card)]}.

Lemma card_share B : is_blank B DEL = false -> Forall (fun c => is_blank B c = false) (bytes "anna") ->
  files_share B card_desc card_files {[bytes "anna" := obj_map card]}.
Proof.
  intros HD Ha n d. rewrite lookup_singleton. case_decide as E; [| done]. intros [= <-]. subst n. exists card, 0. split; [| done].
  constructor; [exact card_ok | done | | done | | intros m; apply obj_map_values, card_ok].
  - constructor; [done | | done | done]. eapply Forall_impl; [apply Forall_and; split; [| exact Ha] |].
    + by apply (bool_decide_unpack (Forall (fun c => c <> 32 /\ c <> 46) (bytes "anna"))); vm_compute.
    + cbn. tauto.
  - by repeat constructor.
Qed.

Lemma number_storable : storable (bytes "34").
Proof. split; apply (bool_decide_unpack _); by vm_compute. Qed.
Lemma note_storable : storable (bytes "new").
Proof. split; apply (bool_decide_unpack _); by vm_compute. Qed.

Definition two_tables : list obtab := [make_obtab 100 0; make_obtab 100 0].

Definition sample_events : list event :=
  let a := bytes "anna" in
  let at_ p op := mkEvent p 5 2 op in
  [at_ 0%nat (Read a (bytes "phone")); at_ 0%nat (Wait a); at_ 0%nat (Write a (bytes "phone") (bytes "34")); at_ 1%nat (Write a (bytes "note") (bytes "new"));
   at_ 0%nat (Read a (bytes "street")); at_ 0%nat (Commit a); at_ 1%nat (Read a (bytes "phone")); at_ 1%nat (Reload a); at_ 1%nat (Read a (bytes "phone"));
   at_ 0%nat (Read a (bytes "note"))].

Lemma event_other p op : (forall n m v, op <> Write n m v) -> event_ok (mkEvent p 5 2 op).
Proof. intros H. split; [by split |]. destruct op as [| n m v | | |]; try exact I. by destruct (H n m v). Qed.

Lemma event_write p n m v : storable v -> event_ok (mkEvent p 5 2 (Write n m v)).
Proof. intros H. split; [by split | exact H]. Qed.

Lemma sample_events_ok : Forall event_ok sample_events.
Proof. repeat apply Forall_cons_2; first [apply Forall_nil_2 | by apply event_other | apply event_write, number_storable | apply event_write, note_storable]. Qed.

Definition sample_results : list (option text) :=
  [Some (bytes "12"); None; None; None; Some []; None; Some (bytes "12"); None; Some (bytes "34"); Some (bytes "new")].

(** The second process changes a note and the first one, which waits, a phone
    number; then both read. *)
Lemma processes_share_witness :
  exists sys' f', run_system [32; 10; 9] sample_events (mkSystem two_tables card_files) =
    Some (sample_results, sys') /\
    files_share [32; 10; 9] card_desc (sy_files sys') f'.
Proof.
  set (f := {[bytes "anna" := obj_map card]} : gmap text (gmap text text)).
  assert (Hs : (fun x => x.1.1) <$> run_shared sample_events (replicate 2 ∅) f = Some sample_results) by by vm_compute.
  apply fmap_Some in Hs as ([[rs ps] f'] & E & Ers). cbn [fst] in Ers. subst rs.
  destruct (processes_share [32; 10; 9] card_desc sample_events 2 (mkSystem two_tables card_files) f sample_results ps f' ascii_blanks) as (sys' & E' & HF').
  - by vm_compute.
  - exact sample_events_ok.
  - repeat constructor; try done; intros n class memnames; unfold card_desc; rewrite lookup_singleton; (case_decide; [| done]); by intros [= <- <-].
  - done.
  - by apply card_share; [| repeat constructor].
  - exact E.
  - exact (ex_intro _ sys' (ex_intro _ f' (conj E' HF'))).
Defined.

(** *** Where the code fails *)

Definition blank3 : list Z := [32; 10; 9].
Definition process : ob_state := mkObs (make_obtab 100 0) card_files [].
(** What a process that starts now reads. *)
Definition reads (name : text) (files : gmap text (list text)) : option text :=
  '(_, v, _) ← ob_value blank3 name (mkObs (make_obtab 100 0) files []); Some v.
Definition anna (m : string) : text := the_member (bytes "anna") (bytes m).

(** The file is not locked between loading and storing: when another process
    writes a member in the meantime, its value is lost. *)
Example lost_update :
  ('(at_, st) ← set_place blank3 (anna "phone") process; at_ ← at_;
   new ← load_obj blank3 (pl_oname at_) st; new ← new;
   '(_, other) ← ob_set blank3 5 2 (anna "note") (bytes "new") (mkObs (make_obtab 100 0) (ob_files st) []);
   note ← reads (anna "note") (ob_files other);
   '(_, st) ← set_stored 5 2 new at_ (bytes "34") (mkObs (otab st) (ob_files other) []);
   phone ← reads (anna "phone") (ob_files st); note2 ← reads (anna "note") (ob_files st);
   Some (note, phone, note2)) =
  Some (bytes "new", bytes "34", bytes "one" ++ [10; 10] ++ bytes " two" ++ [10]).
Proof. by vm_compute. Qed.

(** [obtab_is] finds an object with or without the delete character before its
    name, but [load_obj] leaves out the first character: a member of an object
    that is the value of a member without it can be read, and not set. *)
Example plain_reference :
  let run := (st ← Some process;
    '(_, st) ← func_ob blank3 5 2 [] 0 (bytes "ob_class") (bytes "link to") st;
    '(x, st) ← func_ob blank3 5 2 [] 0 (bytes "ob_new") (bytes "link 0 x") st;
    '(_, st) ← ob_set blank3 5 2 (x ++ bytes ".to") (bytes "anna") st; Some (x, st)) in
  ('(x, st) ← run; '(ok, v, _) ← ob_value blank3 (x ++ bytes ".to.phone") st; Some (ok, v)) = Some (true, bytes "12") /\
  ('(x, st) ← run; '(ok, st) ← ob_set blank3 5 2 (x ++ bytes ".to.phone") (bytes "34") st; Some (ok, ob_errors st)) =
    Some (false, [("No object"%string, bytes "anna")]).
Proof. by vm_compute. Qed.

(** A member is set by its number in the object that was in the table, in one
    that has the members that its class has now. *)
Example class_changed :
  ('(_, _, st) ← ob_value blank3 (anna "phone") process;
   '(_, st) ← func_ob blank3 5 2 [] 0 (bytes "ob_class") (bytes "card note phone street") st;
   '(_, st) ← ob_set blank3 5 2 (anna "phone") (bytes "34") st;
   phone ← reads (anna "phone") (ob_files st); note ← reads (anna "note") (ob_files st); Some (phone, note)) = Some (bytes "12", bytes "34").
Proof. by vm_compute. Qed.

(** A name of 99 characters is one too long, and a class needs a member. *)
Example long_object_name : func_ob blank3 5 2 [] 0 (bytes "ob_exists") (DEL :: replicate 99 97) process <> None /\
  func_ob blank3 5 2 [] 0 (bytes "ob_new") (bytes "card 0 " ++ replicate 99 97) process = None.
Proof. by vm_compute. Qed.

Example no_members :
  ('(_, st) ← func_ob blank3 5 2 [] 0 (bytes "ob_class") (bytes "none") process; func_ob blank3 5 2 [] 0 (bytes "ob_new") (bytes "none 0 x") st) = None.
Proof. by vm_compute. Qed.
