(* ===== verification/ObjectLock.v ===== *)
(** Locks of objects (src/CV2/sys1/sysoblock.c): a process that has $ob_lock'd an
    object holds a record lock on the lock file of the object.  What the
    operating system does is the standard behaviour of directories and record
    locks: a file stays as long as it is open, also without a name, a lock
    belongs to a file and a process, and is gone when it is closed. *)
From stdpp Require Import gmap.
From S2P Require Import Prelude Vartab.

(** ** Lock files *)

(** The files by their names, who has locked each, and the number of the next. *)
Record lock_files := mkLocks { dir : gmap text nat; holder : gmap nat nat; next_file : nat }.

(** [open], and [creat] if there is no such file: the file that is open. *)
Definition open_file (name : text) (fs : lock_files) : nat * lock_files :=
  match dir fs !! name with
  | Some i => (i, fs)
  | None => (next_file fs, mkLocks (<[name := next_file fs]> (dir fs)) (holder fs) (S (next_file fs)))
  end.

(** [fcntl (fd, F_SETLK)]: [None] if another process holds the lock. *)
Definition set_lock (pid i : nat) (fs : lock_files) : option lock_files :=
  match holder fs !! i with
  | Some q => if bool_decide (q = pid) then Some fs else None
  | None => Some (mkLocks (dir fs) (<[i := pid]> (holder fs)) (next_file fs))
  end.

(** Unlocked and closed, and its name removed. *)
Definition unlock_file (name : text) (i : nat) (fs : lock_files) : lock_files :=
  mkLocks (delete name (dir fs)) (delete i (holder fs)) (next_file fs).

(** ** sysoblock *)

(** [obj->lockfd], the file that a process has locked for an object. *)
Definition sysoblock (pid : nat) (lock : bool) (name : text) (lockfd : option nat) (fs : lock_files) : Z * option nat * lock_files :=
  match lockfd, lock with
  | Some _, true | None, false => (1, lockfd, fs)
  | None, true =>
      let '(i, fs) := open_file name fs in
      match set_lock pid i fs with
      | Some fs => (1, Some i, fs)
      | None => (0, None, fs)
      end
  | Some i, false => (1, None, unlock_file name i fs)
  end.

(** ** Processes *)

(** The objects that each process has locked. *)
Record lock_system := mkLockSys { locked : gmap (nat * text) nat; lfiles : lock_files }.

Definition lock_call : Type := nat * bool * text.

Definition lock_step (c : lock_call) (sys : lock_system) : Z * lock_system :=
  let '(pid, lock, name) := c in
  let '(r, lockfd, fs) := sysoblock pid lock name (locked sys !! (pid, name)) (lfiles sys) in
  (r, mkLockSys (partial_alter (fun _ => lockfd) (pid, name) (locked sys)) fs).

Definition run_locks (cs : list lock_call) (sys : lock_system) : lock_system := foldl (fun sys c => (lock_step c sys).2) sys cs.

(** A lock file that is locked has its name, and names are of different files. *)
Record locks_ok (sys : lock_system) : Prop := {
  lk_held : forall pid name i, locked sys !! (pid, name) = Some i -> dir (lfiles sys) !! name = Some i /\ holder (lfiles sys) !! i = Some pid;
  lk_owner : forall i pid, holder (lfiles sys) !! i = Some pid -> exists name, locked sys !! (pid, name) = Some i;
  lk_names : forall n m i, dir (lfiles sys) !! n = Some i -> dir (lfiles sys) !! m = Some i -> n = m;
  lk_next : forall n i, dir (lfiles sys) !! n = Some i -> (i < next_file (lfiles sys))%nat;
}.

(** The file that is opened. *)
Lemma open_ok name sys : locks_ok sys -> let '(i, fs) := open_file name (lfiles sys) in
  locks_ok (mkLockSys (locked sys) fs) /\ dir fs !! name = Some i /\ holder fs = holder (lfiles sys).
Proof.
  intros [L1 L2 L3 L4]. unfold open_file. destruct (dir (lfiles sys) !! name) as [i |] eqn:Ed; [by destruct sys |]. cbn [dir holder].
  split; [| split; [apply lookup_insert_eq | done]]. constructor; cbn [locked lfiles dir holder next_file].
  - intros pid m i Hi. destruct (L1 pid m i Hi) as [Hd Hh]. split; [| done]. rewrite lookup_insert_ne; [done | congruence].
  - done.
  - intros n m i Hn Hm. destruct (decide (name = n)) as [<- | Hne], (decide (name = m)) as [<- | Hne2];
      rewrite ?lookup_insert_eq, ?(lookup_insert_ne _ _ _ _ Hne), ?(lookup_insert_ne _ _ _ _ Hne2) in *; [done | | | by apply (L3 n m i)].
    + injection Hn as <-. apply L4 in Hm. lia.
    + injection Hm as <-. apply L4 in Hn. lia.
  - intros n i. rewrite lookup_insert. case_decide; [intros [= <-]; lia |]. intros H'. apply L4 in H'. lia.
Qed.

(** Who gets a lock: nobody else may hold one. *)
Lemma lock_free pid name sys : locks_ok sys -> locked sys !! (pid, name) = None ->
  let '(i, fs) := open_file name (lfiles sys) in
  match holder fs !! i with
  | Some q => q <> pid /\ locked sys !! (q, name) = Some i
  | None => forall q, locked sys !! (q, name) = None
  end.
Proof.
  intros Hok Hl. pose proof (open_ok name sys Hok) as Ho. destruct (open_file name (lfiles sys)) as [i fs]. destruct Ho as ([L1 L2 L3 L4] & Hd & Eh).
  cbn [locked lfiles] in *. destruct (holder fs !! i) as [q |] eqn:Eq.
  - destruct (L2 i q Eq) as [m Hm]. destruct (L1 q m i Hm) as [Hdm _]. rewrite (L3 name m i Hd Hdm) in *. split; [| done]. intros ->. congruence.
  - intros q. apply eq_None_not_Some. intros [j Hj]. destruct (L1 q name j Hj) as [Hdj Hhj]. congruence.
Qed.

Lemma lock_step_ok c sys : locks_ok sys -> locks_ok (lock_step c sys).2.
Proof.
  intros Hok. destruct c as [[pid lock] name]. unfold lock_step, sysoblock.
  assert (Hsame : forall fs, locks_ok (mkLockSys (locked sys) fs) -> locks_ok (mkLockSys (partial_alter (fun _ => locked sys !! (pid, name)) (pid, name) (locked sys)) fs)).
  { intros fs H. by rewrite partial_alter_self. }
  destruct (locked sys !! (pid, name)) as [i |] eqn:El, lock; cbn [snd].
  - apply Hsame. by destruct sys.
  - destruct Hok as [L1 L2 L3 L4]. destruct (L1 pid name i El) as [Hd Hh]. change (partial_alter _ _ _) with (delete (pid, name) (locked sys)). constructor; cbn [locked lfiles unlock_file dir holder next_file].
    + intros q m j Hj. apply lookup_delete_Some in Hj as [Hne Hj]. destruct (L1 q m j Hj) as [Hdj Hhj].
      assert (name <> m) by (intros <-; assert (j = i) as -> by congruence; assert (q = pid) by congruence; congruence).
      rewrite lookup_delete_ne by done. split; [done |]. rewrite lookup_delete_ne; [done |]. intros ->. by rewrite (L3 name m j) in *.
    + intros j q Hj. apply lookup_delete_Some in Hj as [Hne Hj]. destruct (L2 j q Hj) as [m Hm]. exists m. rewrite lookup_delete_ne; [done |]. intros [= -> ->]. congruence.
    + intros n m j Hn Hm. apply lookup_delete_Some in Hn as [_ Hn], Hm as [_ Hm]. by apply (L3 n m j).
    + intros n j Hj. apply lookup_delete_Some in Hj as [_ Hj]. by apply (L4 n).
  - pose proof (open_ok name sys Hok) as Ho. pose proof (lock_free pid name sys Hok El) as Hf. destruct (open_file name (lfiles sys)) as [i fs]. destruct Ho as (Hok1 & Hd & Eh).
    unfold set_lock. destruct (holder fs !! i) as [q |] eqn:Eq.
    + rewrite bool_decide_eq_false_2 by (by intros ->; destruct Hf). cbn [snd]. by apply Hsame.
    + cbn [snd]. destruct Hok1 as [L1 L2 L3 L4]. cbn [locked lfiles] in *. change (partial_alter _ _ _) with (<[(pid, name) := i]> (locked sys)). constructor; cbn [locked lfiles dir holder next_file]; try done.
      * intros q m j. rewrite lookup_insert. case_decide as E; [injection E as <- <-; intros [= <-]; by rewrite lookup_insert_eq |].
        intros Hj. destruct (L1 q m j Hj) as [Hdj Hhj]. split; [done |]. rewrite lookup_insert_ne; [done |]. congruence.
      * intros j q. rewrite lookup_insert. case_decide as E; [subst j; intros [= <-]; exists name; apply lookup_insert_eq |].
        intros Hj. destruct (L2 j q Hj) as [m Hm]. exists m. rewrite lookup_insert_ne; [done |]. intros [= -> ->]. congruence.
  - apply Hsame. by destruct sys.
Qed.

Definition no_locks : lock_system := mkLockSys ∅ (mkLocks ∅ ∅ 0).

Lemma no_locks_ok : locks_ok no_locks.
Proof. constructor; cbn; intros *; by rewrite ?lookup_empty. Qed.

Lemma run_locks_ok cs sys : locks_ok sys -> locks_ok (run_locks cs sys).
Proof. revert sys. induction cs as [| c cs IH]; intros sys H; [done |]. cbn [run_locks foldl]. apply IH. by apply lock_step_ok. Qed.

(** C17: as long as each call of [sysoblock] runs without another one in between,
    at most one process holds the lock of an object, whatever has been locked
    and unlocked before, and a process that asks for it gets it exactly when no
    other one has it. *)
Theorem ob_lock_exclusive cs : let sys := run_locks cs no_locks in
  (forall p q name, is_Some (locked sys !! (p, name)) -> is_Some (locked sys !! (q, name)) -> p = q) /\
  (forall p name, (lock_step (p, true, name) sys).1 = 1 <-> forall q, q <> p -> locked sys !! (q, name) = None).
Proof.
  intros sys. pose proof (run_locks_ok cs no_locks no_locks_ok) as Hok. fold sys in Hok. clearbody sys. split.
  - intros p q name [i Hi] [j Hj]. destruct (lk_held _ Hok p name i Hi) as [Hd Hh], (lk_held _ Hok q name j Hj) as [Hd' Hh']. congruence.
  - intros p name. unfold lock_step, sysoblock. destruct (locked sys !! (p, name)) as [i |] eqn:El; cbn [fst].
    + split; [intros _ q Hq | done]. apply eq_None_not_Some. intros [j Hj]. apply Hq.
      destruct (lk_held _ Hok p name i El) as [Hd Hh], (lk_held _ Hok q name j Hj) as [Hd' Hh']. congruence.
    + pose proof (lock_free p name sys Hok El) as Hf. destruct (open_file name (lfiles sys)) as [i fs]. unfold set_lock.
      destruct (holder fs !! i) as [q |]; [| by split].
      destruct Hf as [Hne Hq]. rewrite bool_decide_eq_false_2 by done. cbn [fst]. split; [done |]. intros H. by rewrite (H q Hne) in Hq.
Qed.

(** But a process may have opened the lock file when another one unlocks the
    object and removes the name of the file: then it locks a file without a
    name, and a third process makes a new one and locks it too. *)
Example lock_race :
  let name := bytes "x" in
  let '(r0, fd0, fs) := sysoblock 0 true name None (lfiles no_locks) in
  let '(fd1, fs) := open_file name fs in
  let '(_, _, fs) := sysoblock 0 false name fd0 fs in
  let one := set_lock 1 fd1 fs in
  (r0, match one with Some fs => let '(r2, fd2, fs) := sysoblock 2 true name None fs in Some (r2, holder fs !! fd1, fd2 ≫= fun i => holder fs !! i) | None => None end)
  = (1, Some (1, Some 1%nat, Some 2%nat)).
Proof. by vm_compute. Qed.
