(* ===== verification/GroupFiles.v ===== *)
(** Groups files (src/CV2/conf/groupmat.c, src/CV2/people/equalid.c): is a user
    in a file of userids, or in a file that it includes?  A file may include
    itself, by way of others; what has been looked at is kept in a list.  The
    files are a finite map from names to lines, as [unit_read] gives them. *)
From stdpp Require Import gmap.
From S2P Require Import Prelude Memory Chix ChixCore ChixEdit ChixSearch ChixParse Vartab Str Html Table.

Definition nth_word (B : list Z) (n : Z) (s : text) : text := (token_result B n s).2.
Definition from_word (B : list Z) (n : Z) (s : text) : text :=
  let '(p, _) := token_result B n s in if p <? 0 then [] else drop (Z.to_nat p) s.

(** ** Userids *)

(** [wildmatch]: is [x] equal to [y], allowing for one wildcard at an end of
    [x]? *)
Definition wildmatch (x y wild : text) : bool :=
  if bool_decide (x = y) then true
  else if bool_decide (wild = []) then false
  else if bool_decide (x = wild) then true
  else
    let star := cindex x 0 wild in
    if star <? 0 then false
    else if (0 <? star) && (star <? len x - 1) then false
    else if 0 <? star then cindex y 0 (csub x 0 star) =? 0
    else
      let t := csub x 1 10000 in
      crevdex y 10000 t =? len y - len t.

Section match_.
Context (B : list Z) (files : gmap text (list text)) (myhost userid wildcard permnames : text) (searchall : bool).

(** [equal_id]: a userid is an id and a host, [myhost] if there is none. *)
Definition id_host (a : text) : text * text :=
  let '(_, ai, ah) := break_result a [94] in
  (ai, match ah with [] => myhost | _ => ah end).

Definition equal_id (a b : text) : bool :=
  if (len a =? 0) || (len b =? 0) then false else
  let '(ai, ah) := id_host a in
  let '(bi, bh) := id_host b in
  (wildmatch ai bi wildcard || wildmatch bi ai wildcard) && (wildmatch ah bh wildcard || wildmatch bh ah wildcard).

(** ** Permissions *)

(** The loop over the words of [perms]. *)
Fixpoint perm_loop (fuel : nat) (perms : text) (pos m : Z) : option Z :=
  match fuel with
  | O => None
  | S fuel' =>
      let '(r, temp, pos) := nextword_result B perms pos in
      if r <? 0 then Some m else
      let '(value, i) := int4_result B temp 0 in
      if negb (i =? 0) then perm_loop fuel' perms pos (Z.lor m value) else
      found ← tablefind B (Some permnames) (Some temp);
      if 0 <=? found then
        let '(value, i) := int4_result B (nth_word B (found + 2) permnames) 0 in
        perm_loop fuel' perms pos (if i =? 0 then m else Z.lor m value)
      else perm_loop fuel' perms pos m
  end.

Definition groupmatch_perm (perms : text) : option Z :=
  match perms with [] => Some 0 | _ => perm_loop (S (length perms)) perms 0 0 end.

(** ** Files *)

Definition ss_inred : text := [60].

(** What a line says: nothing, a file to include, or a userid. *)
Inductive line_kind := LNone | LFile (f perms : text) | LUser (name perms : text).

Definition line_of (temp : text) : line_kind :=
  if cval temp 0 =? 35 then LNone else
  let origname := temp in
  let temp := rstrip (fun c => c =? 32) (jixreduce temp) in
  let name := nth_word B 1 temp in
  let perm := from_word B 2 temp in
  if cindex name 0 ss_inred =? 0 then LFile (csub (nth_word B 1 origname) (len ss_inred) 200) perm
  else LUser name perm.

(** The loop over the lines of a file: the match so far, and the files to be
    searched behind this one.  [nlcat] keeps the permission of an included file
    in a [short]. *)
Fixpoint read_group (lines : list text) (m : Z) (searchlist : list (text * Z)) : option (Z * list (text * Z)) :=
  match lines with
  | [] => Some (m, searchlist)
  | temp :: lines' =>
      if (m =? 0) || searchall then
        match line_of temp with
        | LNone => read_group lines' m searchlist
        | LFile f perm => v ← groupmatch_perm perm; read_group lines' m (searchlist ++ [(f, i16 v)])
        | LUser name perm =>
            if equal_id name userid then
              value ← groupmatch_perm perm;
              read_group lines' (Z.lor m (if value =? 0 then 1 else value)) searchlist
            else read_group lines' m searchlist
        end
      else Some (m, searchlist)
  end.

(** The name of a file without its host, if that is this one. *)
Definition on_host (file : text) : option text :=
  let '(r, filename, host) := break_result file [64] in
  if negb (r =? 0) && negb (bool_decide (host = myhost)) then None else Some filename.

(** The first entry of the history with this name; the values of the history
    are [short]s. *)
Definition in_history (groups : list (text * Z)) (filename : text) : option Z :=
  snd <$> List.find (fun e => bool_decide (e.1 = filename)) groups.

Fixpoint set_first (groups : list (text * Z)) (filename : text) (v : Z) : list (text * Z) :=
  match groups with
  | [] => []
  | (n, k) :: groups' => if bool_decide (n = filename) then (n, v) :: groups' else (n, k) :: set_first groups' filename v
  end.

(** The loop over the files that are included. *)
Fixpoint subfiles (gm : text -> list (text * Z) -> option (Z * list (text * Z)))
    (searchlist : list (text * Z)) (m : Z) (groups : list (text * Z)) : option (Z * list (text * Z)) :=
  match searchlist with
  | [] => Some (m, groups)
  | (f, num) :: searchlist' =>
      '(value, groups) ← gm f groups;
      let m := if (0 <? num) && (0 <? value) then Z.lor m num else Z.lor m value in
      if negb (m =? 0) && negb searchall then Some (m, groups)
      else subfiles gm searchlist' m groups
  end.

(** [groupmatch]: the value of the match, and the history as it is left. *)
Fixpoint groupmatch (fuel : nat) (file : text) (groups : list (text * Z)) : option (Z * list (text * Z)) :=
  match fuel with
  | O => None
  | S fuel' =>
      match on_host file with
      | None => Some (0, groups)
      | Some filename =>
          match in_history groups filename with
          | Some num => Some (num, groups)
          | None =>
              match files !! filename with
              | None => Some (0, groups ++ [(file, 0)])
              | Some lines =>
                  '(m, searchlist) ← read_group lines 0 [];
                  if negb (m =? 0) && negb searchall then Some (m, groups ++ [(filename, 1)]) else
                  '(m, groups) ← subfiles (groupmatch fuel') searchlist m (groups ++ [(filename, 0)]);
                  Some (m, set_first groups filename (i16 m))
              end
          end
      end
  end.
End match_.

(** ** What a file says *)

Lemma span_stop f s c t : drop (length (span f s)) s = c :: t -> f c = false.
Proof.
  induction s as [| d s IH]; [done |]. cbn [span]. destruct (f d) eqn:E; cbn [length drop]; [done |].
  by intros [= -> _].
Qed.

(** The next word is not empty. *)
Lemma nextword_forward B s pos : 0 <= pos ->
  let '(r, w, pos') := nextword_result B s pos in r < 0 \/ (0 <= r /\ pos < pos' /\ pos < len s).
Proof.
  intros Hp. unfold nextword_result. set (j := pos + len (span (is_blank B) (drop (Z.to_nat pos) s))).
  assert (Hj0 : pos <= j) by (subst j; len_pos; lia).
  destruct (Z.leb_spec (len s) j) as [Hj | Hj]; [by left |]. right.
  destruct (drop (Z.to_nat j) s) as [| c t] eqn:Ed.
  { apply (f_equal len) in Ed. change (len (@nil Z)) with 0 in Ed. unfold len in *. rewrite length_drop in Ed. lia. }
  assert (Hb : is_blank B c = false).
  { apply (span_stop _ (drop (Z.to_nat pos) s) c t). rewrite <- Ed, drop_drop. f_equal.
    subst j. unfold len. lia. }
  cbn [span]. rewrite Hb. cbn [negb]. rewrite len_cons. len_pos. lia.
Qed.

Section spec.
Context (B : list Z) (files : gmap text (list text)) (myhost userid wildcard permnames : text) (searchall : bool).
Context (Hperm : len permnames <= 32766).
#[local] Abbreviation host := (on_host myhost).
#[local] Abbreviation gm := (groupmatch B files myhost userid wildcard permnames searchall).
#[local] Abbreviation hit := (equal_id myhost wildcard).

Lemma perm_loop_total fuel perms pos m : 0 <= pos -> (Z.to_nat (len perms - pos) < fuel)%nat ->
  exists v, perm_loop B permnames fuel perms pos m = Some v.
Proof.
  revert pos m. induction fuel as [| fuel IH]; intros pos m Hp Hf; [lia |]. cbn [perm_loop].
  pose proof (nextword_forward B perms pos Hp) as Hn. destruct (nextword_result B perms pos) as [[r w] pos'].
  destruct Hn as [Hr | (Hr & Hlt & Hin)]; [rewrite (proj2 (Z.ltb_lt _ _)) by lia; by eauto |].
  rewrite (proj2 (Z.ltb_ge _ _)) by lia. rewrite tablefind_index by done. cbn [mbind option_bind].
  destruct (int4_result B w 0) as [value i]. destruct (negb (i =? 0)); [apply IH; lia |].
  destruct (0 <=? word_index B permnames w); [| apply IH; lia].
  destruct (int4_result B (nth_word B _ permnames) 0) as [value' i']. apply IH; lia.
Qed.

Lemma perm_total perms : exists v, groupmatch_perm B permnames perms = Some v.
Proof.
  unfold groupmatch_perm. destruct perms as [| c p]; [by eexists |].
  apply perm_loop_total; [lia |]. unfold len. lia.
Qed.

(** A line with the user on it; a file that a line includes. *)
Definition hits (line : text) : bool :=
  match line_of B line with LUser name _ => hit name userid | _ => false end.
Definition file_of (line : text) : option text :=
  match line_of B line with LFile f _ => Some f | _ => None end.

Definition direct (f : text) : Prop := exists lines, files !! f = Some lines /\ existsb hits lines = true.
Definition includes (f g : text) : Prop := exists lines file,
  files !! f = Some lines /\ file ∈ omap file_of lines /\ host file = Some g.

(** The user is in the file, or in one that it includes. *)
Definition member (f : text) : Prop := exists g, rtc includes f g /\ direct g.

(** What the loop over the lines finds. *)
Lemma read_group_spec lines m sl :
  exists m' sl', read_group B myhost userid wildcard permnames searchall lines m sl = Some (m', sl ++ sl') /\
    (m' <> 0 -> m <> 0 \/ existsb hits lines = true) /\
    Forall (fun e => e.1 ∈ omap file_of lines) sl' /\
    (m' = 0 -> m = 0 /\ existsb hits lines = false /\ map fst sl' = omap file_of lines).
Proof.
  revert m sl. induction lines as [| l lines IH]; intros m sl.
  { exists m, []. rewrite app_nil_r. by split_and!; auto. }
  cbn [read_group]. destruct ((m =? 0) || searchall) eqn:Eg.
  2: { apply orb_false_iff in Eg as [Em _]. exists m, []. rewrite app_nil_r. split_and!; [done | by left | done | lia]. }
  cbn [existsb omap list_omap].
  assert (Eh : hits l = match line_of B l with LUser name _ => hit name userid | _ => false end) by done.
  assert (Ef : file_of l = match line_of B l with LFile f _ => Some f | _ => None end) by done.
  rewrite Eh, Ef. destruct (line_of B l) as [| f perm | name perm]; [apply IH | |].
  - destruct (perm_total perm) as [v ->]. cbn [mbind option_bind].
    destruct (IH m (sl ++ [(f, i16 v)])) as (m' & sl' & -> & H1 & H2 & H3). exists m', ((f, i16 v) :: sl').
    rewrite <- app_assoc. split_and!; [done | exact H1 | |].
    + constructor; [left | eapply Forall_impl; [exact H2 |]]. intros e He. by right.
    + intros Hm. destruct (H3 Hm) as (-> & -> & E). split_and!; [done | done |]. cbn [map fst]. by rewrite E.
  - destruct (hit name userid); [| apply IH]. destruct (perm_total perm) as [v ->]. cbn [mbind option_bind orb].
    set (b := if v =? 0 then 1 else v). assert (Hb : b <> 0) by (unfold b; destruct (Z.eqb_spec v 0); lia).
    destruct (IH (Z.lor m b) sl) as (m' & sl' & -> & H1 & H2 & H3). exists m', sl'.
    split_and!; [done | by right | done |]. intros Hm. destruct (H3 Hm) as (H & _). by apply Z.lor_eq_0_iff in H as [_ H].
Qed.

(** *** Names *)

Lemma findsub_fresh x s i : 0 <= i ->
  x ∉ if findsub [x] s i <? 0 then s else take (Z.to_nat (findsub [x] s i - i)) s.
Proof.
  revert i. induction s as [| c s IH]; intros i Hi; [by apply not_elem_of_nil |]. cbn [findsub prefixb].
  destruct (Z.eqb_spec x c) as [-> | Hc]; cbn [andb].
  - rewrite (proj2 (Z.ltb_ge _ _)) by lia. rewrite Z.sub_diag. apply not_elem_of_nil.
  - specialize (IH (i + 1) ltac:(lia)). destruct (findsub_ge [x] s (i + 1)) as [E | Hge].
    + rewrite E in *. cbn in *. by apply not_elem_of_cons.
    + rewrite (proj2 (Z.ltb_ge _ _)) in * by lia.
      replace (Z.to_nat (findsub [x] s (i + 1) - i)) with (S (Z.to_nat (findsub [x] s (i + 1) - (i + 1)))) by lia.
      by apply not_elem_of_cons.
Qed.

(** The name without its host has no @ in it; and a name without one is that. *)
Lemma on_host_plain file f : host file = Some f -> 64 ∉ f.
Proof.
  unfold on_host, break_result. pose proof (findsub_fresh 64 file 0 ltac:(lia)) as H. rewrite Z.sub_0_r in H.
  change (cindex file 0 [64]) with (findsub [64] file 0).
  destruct (findsub [64] file 0 <? 0); cbn [negb Z.eqb Pos.eqb andb]; [by intros [= <-] |].
  destruct (negb _); [done |]. by intros [= <-].
Qed.

Lemma on_host_self f : 64 ∉ f -> host f = Some f.
Proof.
  intros Hf. unfold on_host, break_result. change (cindex f 0 [64]) with (findsub [64] f 0).
  destruct (Z.ltb_spec (findsub [64] f 0) 0) as [_ | Hge]; [done |]. exfalso.
  destruct (findsub_found [64] f 0 _ ltac:(lia) eq_refl ltac:(lia)) as [Hp _]. rewrite Z.sub_0_r in Hp.
  apply prefixb_spec in Hp as [t Ht]. apply Hf.
  rewrite <- (take_drop (Z.to_nat (findsub [64] f 0)) f), Ht. apply elem_of_app. right. left.
Qed.

(** *** The history *)

#[local] Abbreviation names := (map (@fst text Z)).

Lemma in_history_none gs f : in_history gs f = None <-> f ∉ names gs.
Proof.
  induction gs as [| [n k] gs IH]; [split; [intros _; apply not_elem_of_nil | done] |].
  unfold in_history in *. cbn [List.find fst map]. case_bool_decide as E.
  - split; [done |]. intros H. exfalso. apply H. subst. left.
  - rewrite IH, not_elem_of_cons. naive_solver.
Qed.

Lemma in_history_some gs f k : in_history gs f = Some k -> (f, k) ∈ gs.
Proof.
  induction gs as [| [n j] gs IH]; [done |]. unfold in_history in *. cbn [List.find fst].
  case_bool_decide as E; [intros [= <-]; subst; left | intros H; right; by apply IH].
Qed.

Lemma set_first_app gs f v k new : f ∉ names gs ->
  set_first (gs ++ (f, k) :: new) f v = gs ++ (f, v) :: new.
Proof.
  induction gs as [| [n j] gs IH]; cbn [map fst app set_first]; [intros _; by rewrite bool_decide_eq_true_2 |].
  rewrite not_elem_of_cons. intros [Hn H]. rewrite bool_decide_eq_false_2 by congruence. by rewrite IH.
Qed.

(** What is in the history is right, as far as it says that the user is in a
    file.  It need not be right when it says that he is not: the file may not
    be done with, and a value can become 0 in a [short].  But the call that
    found such a value returns it, not what is in the history, and so do the
    calls around it: [answers] speaks of the value that is returned. *)
Definition sound (gs : list (text * Z)) : Prop := forall n k, (n, k) ∈ gs -> k <> 0 -> member n.

(** A file that is done with: it is in the history, or is no file. *)
Definition covered (gs : list (text * Z)) (f : text) : Prop := f ∈ names gs \/ files !! f = None.

(** Files in which the user is not: not on a line, and what they include is
    done with. *)
Definition closed (new : list (text * Z)) (gs : list (text * Z)) : Prop :=
  forall n, n ∈ names new -> 64 ∉ n -> ~ direct n /\ forall g, includes n g -> covered gs g.

(** The files that are not in the history. *)
Definition left_over (gs : list (text * Z)) : gset text := dom files ∖ list_to_set (names gs).

Lemma covered_app gs new f : covered gs f -> covered (gs ++ new) f.
Proof. intros [H | H]; [left | by right]. rewrite map_app. apply elem_of_app. by left. Qed.

Lemma closed_app new1 new2 gs1 new3 gs :
  closed new1 gs1 -> gs = gs1 ++ new3 -> closed new2 gs -> closed (new1 ++ new2) gs.
Proof.
  intros H1 -> H2 n. rewrite map_app, elem_of_app. intros [Hn | Hn] Hc; [| by apply H2].
  destruct (H1 n Hn Hc) as [Hd Hi]. split; [done |]. intros g Hg. by apply covered_app, Hi.
Qed.

Lemma left_over_app gs new : (size (left_over (gs ++ new)) <= size (left_over gs))%nat.
Proof. apply subseteq_size. unfold left_over. rewrite map_app, list_to_set_app_L. set_solver. Qed.

Lemma left_over_new gs f k lines : files !! f = Some lines -> f ∉ names gs ->
  (size (left_over (gs ++ [(f, k)])) < size (left_over gs))%nat.
Proof.
  intros Hf Hn. apply subset_size. unfold left_over. rewrite map_app, list_to_set_app_L. cbn [map fst list_to_set].
  assert (f ∈ dom files) by (apply elem_of_dom; eauto).
  assert (f ∉ (list_to_set (names gs) : gset text)) by (by rewrite elem_of_list_to_set). set_solver.
Qed.

Lemma sound_snoc gs f : sound gs -> sound (gs ++ [(f, 0)]).
Proof. intros H n k. rewrite elem_of_app, list_elem_of_singleton. intros [Hn | [= -> ->]] Hk; [by eapply H | done]. Qed.

Definition answers (g : text -> list (text * Z) -> option (Z * list (text * Z))) (file : text) (gs : list (text * Z)) : Prop :=
  exists v new, g file gs = Some (v, gs ++ new) /\ sound (gs ++ new) /\
    (v <> 0 -> exists f, host file = Some f /\ member f) /\
    (v = 0 -> (forall f, host file = Some f -> covered (gs ++ new) f) /\ closed new (gs ++ new)).

Lemma subfiles_spec g fuel :
  (forall file gs, sound gs -> (size (left_over gs) < fuel)%nat -> answers g file gs) ->
  forall sl m gs, sound gs -> (size (left_over gs) < fuel)%nat ->
  exists m' new, subfiles searchall g sl m gs = Some (m', gs ++ new) /\ sound (gs ++ new) /\
    (m' <> 0 -> m <> 0 \/ exists file f, file ∈ names sl /\ host file = Some f /\ member f) /\
    (m' = 0 -> m = 0 /\ (forall file f, file ∈ names sl -> host file = Some f -> covered (gs ++ new) f) /\ closed new (gs ++ new)).
Proof.
  intros Hg sl. induction sl as [| [file num] sl IH]; intros m gs Hs Hf.
  { exists m, []. rewrite app_nil_r. split_and!; [done | done | by left |]. intros ->.
    split_and!; [done | by intros ? ? ?%elem_of_nil | by intros ? ?%elem_of_nil]. }
  cbn [subfiles]. destruct (Hg file gs Hs Hf) as (v & new & -> & Hs1 & H1 & H2). cbn [mbind option_bind].
  set (m1 := if (0 <? num) && (0 <? v) then Z.lor m num else Z.lor m v).
  assert (Hm1 : m1 = 0 -> m = 0 /\ v = 0).
  { unfold m1. destruct (Z.ltb_spec 0 num), (Z.ltb_spec 0 v); cbn [andb]; rewrite Z.lor_eq_0_iff; lia. }
  assert (Hn1 : m1 <> 0 -> m <> 0 \/ v <> 0).
  { unfold m1. destruct (Z.ltb_spec 0 num), (Z.ltb_spec 0 v); cbn [andb]; rewrite Z.lor_eq_0_iff; lia. }
  assert (Hfound : m1 <> 0 -> m <> 0 \/ exists file' f, file' ∈ names ((file, num) :: sl) /\ host file' = Some f /\ member f).
  { intros Hm. destruct (Hn1 Hm) as [? | Hv]; [by left | right]. destruct (H1 Hv) as (f & ? & ?). exists file, f.
    split_and!; [left | done | done]. }
  destruct (negb (m1 =? 0) && negb searchall) eqn:Eb.
  { apply andb_true_iff in Eb as [Eb _]. exists m1, new. split_and!; [done | done | exact Hfound | lia]. }
  destruct (IH m1 (gs ++ new) Hs1) as (m' & new' & -> & Hs2 & H3 & H4).
  { pose proof (left_over_app gs new). lia. }
  rewrite <- app_assoc in *. exists m', (new ++ new'). split_and!; [done | done | |].
  - intros Hm. destruct (H3 Hm) as [Hm' | (f' & f & Hin & Hh & Hmem)]; [by apply Hfound |].
    right. exists f', f. split_and!; [by right | done | done].
  - intros Hm. destruct (H4 Hm) as (Hm' & Hc & Hcl). destruct (Hm1 Hm') as [-> Hv]. destruct (H2 Hv) as [Hc0 Hcl0].
    split_and!; [done | | by eapply closed_app; [exact Hcl0 | by rewrite <- app_assoc | exact Hcl]].
    intros f' f Hin Hh. cbn [map fst] in Hin. apply elem_of_cons in Hin as [-> | Hin]; [| by eapply Hc].
    rewrite app_assoc. by apply covered_app, Hc0.
Qed.

(** Enough fuel: one more than there are files that are not in the history. *)
Lemma groupmatch_answers fuel file gs : sound gs -> (size (left_over gs) < fuel)%nat -> answers (gm fuel) file gs.
Proof.
  revert file gs. induction fuel as [| fuel IH]; intros file gs Hs Hf; [lia |]. unfold answers. cbn [groupmatch].
  destruct (host file) as [f |] eqn:Eh.
  2: { exists 0, []. rewrite app_nil_r. split_and!; [done | done | done |]. intros _. split; [done |].
       by intros n ?%elem_of_nil. }
  destruct (in_history gs f) as [k |] eqn:Ek.
  { apply in_history_some in Ek. exists k, []. rewrite app_nil_r. split_and!; [done | done | |].
    - intros Hk. exists f. split; [done | by eapply Hs].
    - intros _. split; [| by intros n ?%elem_of_nil]. intros f' [= <-]. left.
      apply list_elem_of_fmap. by exists (f, k). }
  apply in_history_none in Ek. destruct (files !! f) as [lines |] eqn:El.
  2: { exists 0, [(file, 0)]. split_and!; [done | by apply sound_snoc | done |]. intros _. split.
       - intros f' [= <-]. by right.
       - intros n. cbn [map fst]. rewrite list_elem_of_singleton. intros -> Hc.
         rewrite (on_host_self _ Hc) in Eh. injection Eh as <-. unfold direct, includes. split; [intros (l & E & _) | intros g (l & ? & E & _)]; congruence. }
  destruct (read_group_spec lines 0 []) as (m & sl & -> & R1 & R2 & R3). cbn [mbind option_bind app].
  assert (Hdirect : m <> 0 -> member f).
  { intros Hm. exists f. split; [done |]. exists lines. split; [done |]. by destruct (R1 Hm). }
  destruct (negb (m =? 0) && negb searchall) eqn:Eb.
  { apply andb_true_iff in Eb as [Eb _]. exists m, [(f, 1)]. split_and!; [done | | eauto | lia].
    intros n k. rewrite elem_of_app, list_elem_of_singleton. intros [Hn | [= -> ->]] Hk; [by eapply Hs |].
    apply Hdirect. lia. }
  assert (Hf1 : (size (left_over (gs ++ [(f, 0%Z)])) < fuel)%nat) by (pose proof (left_over_new gs f 0 lines El Ek); lia).
  destruct (subfiles_spec (gm fuel) fuel IH sl m (gs ++ [(f, 0)]) (sound_snoc _ _ Hs) Hf1) as (m' & new & -> & Hs2 & H1 & H2).
  cbn [mbind option_bind]. rewrite <- app_assoc in *. cbn [app] in *. rewrite set_first_app by done.
  assert (Hmem : m' <> 0 -> member f).
  { intros Hm. destruct (H1 Hm) as [? | (file' & g & Hin & Hh & (x & Hx & Hd))]; [by apply Hdirect |]. exists x. split; [| done].
    apply rtc_l with g; [| done]. exists lines, file'. split_and!; [done | | done].
    apply list_elem_of_fmap in Hin as (e & -> & He). by rewrite Forall_forall in R2; apply R2. }
  exists m', ((f, i16 m') :: new). split_and!; [done | | eauto |].
  - intros n k Hin Hk. apply elem_of_app in Hin as [Hin | Hin]; [by eapply Hs |].
    apply elem_of_cons in Hin as [[= -> ->] | Hin]; [apply Hmem; by intros -> |].
    eapply Hs2; [| exact Hk]. apply elem_of_app. right. by right.
  - intros ->. destruct (H2 eq_refl) as (Hm & Hc & Hcl). destruct (R3 Hm) as (_ & Hex & Emap). split.
    + intros f' [= <-]. left. rewrite map_app. apply elem_of_app. right. left.
    + intros n. cbn [map fst]. rewrite elem_of_cons. intros [-> | Hn] Hcn; [| by apply Hcl].
      split.
      * intros (l & El' & Ex). congruence.
      * intros g (l & file' & El' & Hin & Hh). assert (l = lines) as -> by congruence. rewrite <- Emap in Hin. by eapply Hc.
Qed.
End spec.

(** ** The property *)

(** C15: Called with an empty history, as both callers do, and with names of
    permissions of at most 32766 characters, [groupmatch] comes to an end
    however the files include one another, and the value it returns is not 0
    exactly when the user is on a line of the file or of a file that it
    includes, directly or by way of others.  This holds for any permissions,
    although the history keeps values in a [short], in which 65536 is 0
    ([groupmatch_short]); with a history of an earlier call it fails
    ([groupmatch_history]). *)
Theorem groupmatch_reaches B files myhost userid wildcard permnames searchall file fuel
    (Hperm : len permnames <= 32766) (Hfuel : (size files < fuel)%nat) :
  exists v groups,
    groupmatch B files myhost userid wildcard permnames searchall fuel file [] = Some (v, groups) /\
    (v <> 0 <-> exists f, on_host myhost file = Some f /\ member B files myhost userid wildcard f).
Proof.
  destruct (groupmatch_answers B files myhost userid wildcard permnames searchall Hperm fuel file []) as (v & new & E & _ & H1 & H2).
  { by intros n k ?%elem_of_nil. }
  { unfold left_over. cbn [map list_to_set]. by rewrite difference_empty_L, size_dom. }
  exists v, new. split; [exact E |]. split; [exact H1 |]. intros (f & Hh & g & Hr & Hd) ->.
  destruct (H2 eq_refl) as [Hc Hcl]. cbn [app] in Hc, Hcl. specialize (Hc f Hh).
  apply on_host_plain in Hh. revert Hc Hh. induction Hr as [f | f f' g Hi Hr IH]; intros Hc Hf.
  - destruct Hc as [Hc | Hc]; [by destruct (Hcl f Hc Hf) | destruct Hd as (l & El & _); congruence].
  - destruct Hc as [Hc | Hc]; [| destruct Hi as (l & ? & El & _); congruence].
    apply (IH Hd).
    + by apply (Hcl f Hc Hf).
    + destruct Hi as (l & file' & _ & _ & Hh'). by apply on_host_plain in Hh'.
Qed.

(** Two files that include each other. *)
Definition blanks_ascii : list Z := [32; 9; 10].
Definition sample_files : gmap text (list text) :=
  {[ bytes "staff" := [bytes "# the staff"; bytes "<admin"; bytes "carol read"];
     bytes "admin" := [bytes "<staff"; bytes "ann*"] ]}.
Definition sample_match (file user : text) (groups : list (text * Z)) : option (Z * list (text * Z)) :=
  groupmatch blanks_ascii sample_files (bytes "here") user (bytes "*") (bytes "read 4 write 8") true 3 file groups.

Lemma groupmatch_reaches_witness :
  exists v groups, sample_match (bytes "staff") (bytes "anna") [] = Some (v, groups) /\
    (v <> 0 <-> exists f, on_host (bytes "here") (bytes "staff") = Some f /\
       member blanks_ascii sample_files (bytes "here") (bytes "anna") (bytes "*") f).
Proof.
  apply (groupmatch_reaches blanks_ascii sample_files (bytes "here") (bytes "anna") (bytes "*") (bytes "read 4 write 8") true
    (bytes "staff") 3); vm_compute; [discriminate | lia].
Defined.

(** A history that is used again: [admin] was looked at while [staff], which
    includes it, was not done with, and is down as a file without carol. *)
Example groupmatch_history :
  sample_match (bytes "staff") (bytes "carol") [] = Some (4, [(bytes "staff", 4); (bytes "admin", 0)]) /\
  sample_match (bytes "admin") (bytes "carol") [(bytes "staff", 4); (bytes "admin", 0)]
    = Some (0, [(bytes "staff", 4); (bytes "admin", 0)]) /\
  fst <$> sample_match (bytes "admin") (bytes "carol") [] = Some 4.
Proof. vm_compute. auto. Qed.

(** A value is cut to 16 bits in the history: a second question finds ann in
    no file. *)
Example groupmatch_short :
  let gm := groupmatch blanks_ascii {[ bytes "all" := [bytes "<staff"]; bytes "staff" := [bytes "ann 65536"] ]}
    (bytes "here") (bytes "ann") (bytes "*") [] true 3 in
  gm (bytes "all") [] = Some (65536, [(bytes "all", 0); (bytes "staff", 0)]) /\
  gm (bytes "staff") [(bytes "all", 0); (bytes "staff", 0)] = Some (0, [(bytes "all", 0); (bytes "staff", 0)]).
Proof. vm_compute. auto. Qed.
