(* ===== verification/FileLines.v ===== *)
(** Files as lists of lines: what [unit_write] and [unit_read] of whole lines
    do (src/CV2/unit), the sizes of text buffers (src/CV2/include/textbuf.h), and
    the words of a line. *)
From S2P Require Import Prelude Memory Chix ChixCore ChixEdit ChixSearch ChixParse Vartab Str Numbers Html.

(** The sizes of a text buffer: lines and responses. *)
Definition TB_LINES : Z := 500.
Definition TB_RESPS : Z := 200.

(** Lines that are written and read again: one with a newline in it is read as
    two. *)
Fixpoint split_nl (s : text) : list text :=
  match s with
  | [] => [[]]
  | c :: s' =>
      match split_nl s' with
      | [] => []
      | h :: t => if c =? 10 then [] :: h :: t else (c :: h) :: t
      end
  end.
Definition written (lines : list text) : list text := flat_map split_nl lines.

(** Word [n] of a line, and the line from word [n] on ([chxtoken]). *)
Definition word (B : list Z) (n : Z) (s : text) : text := (token_result B n s).2.
Definition rest_word (B : list Z) (n : Z) (s : text) : text :=
  let '(p, _) := token_result B n s in if p <? 0 then [] else drop (Z.to_nat p) s.

(** The number that [chxnum] reads. *)
Definition num_of (B : list Z) (s : text) : Z := (int4_result B s 0).1.

(** ** Lines without newlines *)

Definition one_line (s : text) : Prop := 10 ∉ s.
#[export] Instance one_line_dec s : Decision (one_line s).
Proof. unfold one_line. apply _. Defined.

(** A line that is given. *)
Ltac one_line := apply (bool_decide_eq_true_1 (one_line _)); by vm_compute.

Lemma split_nl_one s : one_line s -> split_nl s = [s].
Proof.
  induction s as [| c s IH]; intros H; [done |]. apply not_elem_of_cons in H as [Hc Hs]. cbn [split_nl].
  rewrite (IH Hs), (proj2 (Z.eqb_neq _ _)) by done. done.
Qed.

Lemma written_id lines : Forall one_line lines -> written lines = lines.
Proof. induction 1 as [| l lines Hl _ IH]; [done |]. cbn [written flat_map]. fold (written lines). by rewrite IH, split_nl_one. Qed.

Lemma one_line_app a b : one_line (a ++ b) <-> one_line a /\ one_line b.
Proof. unfold one_line. rewrite elem_of_app. tauto. Qed.
Lemma one_line_cons c s : one_line (c :: s) <-> c <> 10 /\ one_line s.
Proof. unfold one_line. rewrite elem_of_cons. intuition congruence. Qed.
Lemma one_line_nil : one_line [].
Proof. apply not_elem_of_nil. Qed.

Lemma one_line_sub (s t : text) : one_line t -> (forall c, c ∈ s -> c ∈ t) -> one_line s.
Proof. unfold one_line. auto. Qed.

Lemma one_line_show n : one_line (show n).
Proof.
  assert (H : forall fuel k, one_line (dec_pos fuel k)).
  { induction fuel as [| fuel IH]; intros k; cbn [dec_pos]; [apply one_line_nil |]. apply one_line_app. split.
    - destruct (10 <=? k); [apply IH | apply one_line_nil].
    - intros Hin%list_elem_of_singleton. pose proof (Z.mod_pos_bound k 10 ltac:(lia)). lia. }
  unfold show. destruct (n <? 0); [apply one_line_cons; split; [done |] |]; apply H.
Qed.

(** ** Words *)

Lemma word_elem B n s c : c ∈ word B n s -> c ∈ s.
Proof.
  unfold word. intros Hc. pose proof (token_result_spec B n s) as H. destruct (token_result B n s) as [p w].
  cbn [snd] in *. destruct H as [[_ ->] | (_ & _ & _ & t & Ht & _)]; [by apply elem_of_nil in Hc |].
  assert (Hin : c ∈ drop (Z.to_nat (p - 0)) s) by (rewrite Ht; apply elem_of_app; by left).
  rewrite <- (take_drop (Z.to_nat (p - 0)) s). apply elem_of_app. by right.
Qed.

Lemma rest_elem B n s c : c ∈ rest_word B n s -> c ∈ s.
Proof.
  unfold rest_word. destruct (token_result B n s) as [p w]. destruct (p <? 0); [by intros ?%elem_of_nil |]. intros Hc.
  rewrite <- (take_drop (Z.to_nat p) s). apply elem_of_app. by right.
Qed.

Lemma one_line_word B n s : one_line s -> one_line (word B n s).
Proof. intros H. eapply one_line_sub; [exact H |]. apply word_elem. Qed.
Lemma one_line_rest B n s : one_line s -> one_line (rest_word B n s).
Proof. intros H. eapply one_line_sub; [exact H |]. apply rest_elem. Qed.
