(* ===== verification/NameFiles.v ===== *)
(** Files of names (src/CV2/people: modnames.c, stornpar.c, loadnpar.c,
    loadnmdi.c, stornmdi.c, initnmdi.c, whatnm.c, nameinse.c, nladd.c, nlcat.c,
    nlcopy.c, nlpunct.c; src/CV2/glyph/chxpunct.c): the sorted lists of people,
    titles and subjects.  A directory file lists the part files and where each
    begins; a part file holds its names between two boundary lines.  [None] is
    undefined behaviour: a text buffer that overflows. *)
From Stdlib Require Import Sorted.
From stdpp Require Import gmap gmultiset sorting.
From S2P Require Import Prelude Memory Chix ChixCore ChixEdit ChixSearch ChixParse Vartab Str Numbers Html FileLines.

(** ** Lists of names *)

(** [chxcompare] under the rules of [chx_init]. *)
Definition cmp (a b : text) : Z := compare_result init_rules a b ALLCHARS.

(** A node: a string and a [short]. *)
Abbreviation node := (text * Z)%type.

Fixpoint nladd (l : list node) (str : text) (n : Z) : list node :=
  match l with
  | [] => [(str, i16 n)]
  | nd :: l' => if cmp str nd.1 <? 0 then (str, i16 n) :: l else nd :: nladd l' str n
  end.

Definition nlcat (l : list node) (str : text) (n : Z) : list node := l ++ [(str, i16 n)].
Definition nlcopy (old : list node) : list node := foldl (fun new p => nlcat new p.1 p.2) [] old.

(** Characters that are no part of a name. *)
Definition punct : text := bytes "`~@$%^&*()-=+\|[]{};:" ++ 34 :: bytes "',.<>/?".
Definition chxpunct (old : text) : text := List.filter (fun c => negb (bool_decide (c ∈ punct))) old.

Section blanks.
Context (B : list Z).

Definition first_word (s : text) : text := word B 1 s.

Definition nlpunct (l : list node) (withpunct : bool) : list node :=
  foldl (fun new p =>
    let p_word := first_word p.1 in
    let n_word := chxpunct p_word in
    if bool_decide (p_word = n_word) then nladd new p.1 p.2 else
    let s := rest_word B 2 p.1 in
    let new := match n_word with [] => new | _ => nladd new (n_word ++ 32 :: s) p.2 end in
    if withpunct then nladd new (p_word ++ 32 :: s) p.2 else new) [] l.

(** ** The directory *)

(** The header of the list of part files: [num] is the number of the next part
    file, [str] says whether the list has changed. *)
Record namdir_t := mkDir { d_str : text; d_num : Z; d_next : list node }.

(** The node before the first one whose string is greater. *)
Fixpoint whatnm (str : text) (nmdir : node) (next : list node) : option node :=
  match next with
  | [] => None
  | nd :: next' => if cmp str nd.1 <? 0 then Some nmdir else whatnm str nd next'
  end.

(** The files of one kind: the directory and the part files, in lines. *)
Record nfiles := mkFiles { dirfile : option (list text); parts : gmap Z (list text) }.

(** [chxformat (line, CQ("%5d %s\n"), ...)]. *)
Definition dir_line (nd : node) : text :=
  replicate (5 - length (show nd.2)) 32 ++ show nd.2 ++ 32 :: nd.1.
Definition stornmdir (d : namdir_t) : list text := written (map dir_line (d_next d)).

Definition read_dir_line (line : text) : node :=
  let '(i, s_index) := int4_result B line 0 in
  let rest := drop (Z.to_nat s_index) line in
  (drop (length (span (fun c => c =? 32) rest)) rest, i).
Definition loadnmdir (f : nfiles) : option namdir_t :=
  lines ← dirfile f;
  Some (mkDir [] (i16 (len lines))
    (foldl (fun l line => nladd l (read_dir_line line).1 (read_dir_line line).2) [] lines)).

(** ** Part files *)

(** [nameinsert] into the lines of a text buffer. *)
Definition nameinsert (name : text) (slot : Z) (lines : list text) : option (list text) :=
  if (TB_LINES <=? len lines) || (len lines <? slot) then None
  else Some (take (Z.to_nat slot) lines ++ name :: drop (Z.to_nat slot) lines).

(** [loadnpart]: [None] if it fails, [Some None] if the buffer overflows. *)
Definition loadnpart (f : nfiles) (p : Z) : option (option (list text)) :=
  lines ← parts f !! p;
  Some (if len lines <=? TB_LINES then Some lines else None).

Definition stornp2 (f : nfiles) (p : Z) (lines : list text) : nfiles :=
  mkFiles (dirfile f) (<[p := written lines]> (parts f)).

(** Where to split: the loop of [stornpart] over [i]. *)
Fixpoint split_mid (fuel : nat) (lines : list text) (middle : text) (mid i : Z) : option Z :=
  match fuel with
  | O => None
  | S fuel' =>
      high ← zget lines (mid + i);
      if negb (bool_decide (middle = first_word high)) then Some (mid + i - 1) else
      low ← zget lines (mid - i);
      if negb (bool_decide (middle = first_word low)) then Some (mid - i) else
      if (mid - i <? 3) || (len lines <=? mid + i + 3) then Some (len lines / 2)
      else split_mid fuel' lines middle mid (i + 1)
  end.

Definition stornpart (f : nfiles) (d : namdir_t) (p : Z) (lines : list text)
    : option (nfiles * namdir_t * list text) :=
  if TB_LINES - 10 <? len lines then
    middle ← zget lines (len lines / 2);
    mid ← split_mid (length lines) lines (first_word middle) (len lines / 2) 1;
    at_mid ← zget lines mid;
    let boundary := first_word at_mid ++ [33] in
    lines ← nameinsert boundary (mid + 1) lines;
    let pnew := d_num d in
    let d := mkDir [49] (i16 (pnew + 1)) (nladd (d_next d) boundary pnew) in
    let f := stornp2 f p (take (Z.to_nat (mid + 2)) lines) in
    Some (stornp2 f pnew (drop (Z.to_nat (mid + 1)) lines), d, lines)
  else Some (stornp2 f p lines, d, lines).

(** ** Changing names *)

(** The binary search for a string, by a comparison of the lines with it: the
    last place that was looked at, and how it compared. *)
Fixpoint bsearch (test : text -> Z) (fuel : nat) (lines : list text) (lo hi md result : Z) : option (Z * Z) :=
  match fuel with
  | O => None
  | S fuel' =>
      if lo + 1 <? hi then
        let md := (hi + lo) / 2 in
        line ← zget lines md;
        let result := test line in
        if 0 <? result then bsearch test fuel' lines lo md md result
        else if result <? 0 then bsearch test fuel' lines md hi md result
        else Some (md, result)
      else Some (md, result)
  end.

(** The variables of [modnames]; [loaded] is -1 at first. *)
Record mvars := mkVars { files : nfiles; namdir : namdir_t; loaded : Z; changed : bool; tbuf : list text }.

(** [if (changed) stornpart (...)]. *)
Definition store (v : mvars) : option (nfiles * namdir_t * list text) :=
  if changed v then stornpart (files v) (namdir v) (loaded v) (tbuf v) else Some (files v, namdir v, tbuf v).

Section mod_.
(** Whether a part file can be locked. *)
Context (can : Z -> bool).

(** The name is put into the buffer, or taken out of it. *)
Definition change_buf (remove : bool) (str : text) (v : mvars) : option mvars :=
  '(md, result) ← bsearch (fun line => cmp line str) (S (length (tbuf v))) (tbuf v) 0 (len (tbuf v) - 1) 1 1;
  if remove then
    if result =? 0 then
      Some (mkVars (files v) (namdir v) (loaded v) true (delete (Z.to_nat md) (tbuf v)))
    else Some v
  else
    lines ← nameinsert str (if result <? 0 then md + 1 else md) (tbuf v);
    Some (mkVars (files v) (namdir v) (loaded v) true lines).

(** One turn of the loop. *)
Definition mod_one (remove : bool) (str : text) (v : mvars) : option mvars :=
  let part := from_option snd 0 (whatnm str (d_str (namdir v), d_num (namdir v)) (d_next (namdir v))) in
  if part =? loaded v then change_buf remove str v
  else
    '(f, d, lines) ← store v;
    let v := mkVars f d (loaded v) (changed v) lines in
    if can part then
      match loadnpart f part with
      | None => Some v
      | Some None => None
      | Some (Some lines) => change_buf remove str (mkVars f d part false lines)
      end
    else Some v.

(** Which of the two lists is next: the string, whether it is removed, and what
    is left of the lists. *)
Definition next_op (add del : list node) : option (bool * text * list node * list node) :=
  match add, del with
  | [], [] => None
  | [], (d, _) :: del' => Some (true, d, [], del')
  | (a, _) :: add', [] => Some (false, a, add', [])
  | (a, _) :: add', (d, _) :: del' =>
      if 0 <=? cmp a d then Some (true, d, add, del') else Some (false, a, add', del)
  end.

Fixpoint mod_loop (fuel : nat) (add del : list node) (v : mvars) : option mvars :=
  match fuel with
  | O => None
  | S fuel' =>
      match next_op add del with
      | None => Some v
      | Some (remove, str, add, del) => v ← mod_one remove str v; mod_loop fuel' add del v
      end
  end.

(** [modnames]: what it returns, and the files. *)
Definition modnames (can_dir : bool) (f : nfiles) (add0 del0 : list node) (rempunct : bool) : option (Z * nfiles) :=
  if negb can_dir then Some (0, f) else
  match loadnmdir f with
  | None => Some (0, f)
  | Some d =>
      let '(add, del) := if rempunct then (nlpunct add0 false, nlpunct del0 true) else (nlcopy add0, nlcopy del0) in
      v ← mod_loop (S (length add + length del)) add del (mkVars f d (-1) false []);
      '(f, d, _) ← store v;
      Some (1, match d_str d with [] => f | _ => mkFiles (Some (stornmdir d)) (parts f) end)
  end.
End mod_.

(** ** New files *)

Definition sortlow : text := bytes "!".
Definition sorthigh : text := bytes "~~~~~~~~~~".

(** [initnmdir], when the files can be locked and made. *)
Definition initnmdir (f : nfiles) : nfiles :=
  let d := mkDir [] 2 (nladd (nladd [] sortlow 1) sorthigh 0) in
  mkFiles (Some (stornmdir d)) (<[1 := written [sortlow; sorthigh]]> (parts f)).
End blanks.

(** ** The order of names *)

Definition chars (s : text) : Prop := Forall is_char s.
Definition le (a b : text) : Prop := cmp a b <= 0.

Lemma cmp_lex a b : chars a -> chars b -> cmp a b = lexcmp (collate_key init_rules) a b.
Proof. intros Ha Hb. apply compare_lex; [done | done |]. apply init_key_inj. Qed.

Lemma cmp_antisym a b : chars a -> chars b -> cmp a b = - cmp b a.
Proof. intros Ha Hb. rewrite !cmp_lex by done. apply lexcmp_antisym. Qed.

Lemma cmp_eq a b : chars a -> chars b -> cmp a b = 0 <-> a = b.
Proof.
  intros Ha Hb. rewrite cmp_lex by done. apply lexcmp_eq. intros x y Hx Hy.
  unfold chars in *. rewrite Forall_forall in Ha, Hb. by apply init_key_inj; [apply Ha | apply Hb].
Qed.

Lemma le_trans a b c : chars a -> chars b -> chars c -> le a b -> le b c -> le a c.
Proof. unfold le. intros Ha Hb Hc. rewrite !cmp_lex by done. apply lexcmp_trans. Qed.

Lemma lt_le_trans a b c : chars a -> chars b -> chars c -> cmp a b < 0 -> le b c -> cmp a c < 0.
Proof.
  intros Ha Hb Hc H1 H2. assert (H : le a c) by (apply (le_trans a b c); unfold le; lia || done).
  destruct (decide (cmp a c = 0)) as [E | E]; [| unfold le in H; lia].
  apply cmp_eq in E as ->; [| done | done]. unfold le in H2. rewrite cmp_antisym in H2 by done. lia.
Qed.

Lemma le_lt_trans a b c : chars a -> chars b -> chars c -> le a b -> cmp b c < 0 -> cmp a c < 0.
Proof.
  intros Ha Hb Hc H1 H2. assert (H : le a c) by (apply (le_trans a b c); unfold le; lia || done).
  destruct (decide (cmp a c = 0)) as [E | E]; [| unfold le in H; lia].
  apply cmp_eq in E as ->; [| done | done]. unfold le in H1. rewrite cmp_antisym in H1 by done. lia.
Qed.

Lemma sorted_lookup ns i j a b : Forall chars ns -> StronglySorted le ns ->
  ns !! i = Some a -> ns !! j = Some b -> (i <= j)%nat -> le a b.
Proof.
  intros Hc Hs. revert i j. induction Hs as [| x ns Hs IH Hx]; intros i j Hi Hj Hij; [done |].
  apply Forall_cons in Hc as [Hcx Hc]. destruct i as [| i], j as [| j]; try lia; cbn in Hi, Hj.
  - injection Hi as ->. injection Hj as ->. unfold le. by rewrite (proj2 (cmp_eq _ _ Hcx Hcx)).
  - injection Hi as ->. rewrite Forall_forall in Hx. apply Hx. by eapply list_elem_of_lookup_2.
  - by apply (IH Hc i j); [| | lia].
Qed.

(** ** The binary search *)

Section part.
Context (l h : text) (ns : list text) (test : text -> Z).
Context (Hc : Forall chars ns) (Hs : StronglySorted le ns).
(** The comparison follows the order. *)
Context (Hlow : forall x y, chars x -> chars y -> le x y -> test y < 0 -> test x < 0).
Context (Hhigh : forall x y, chars x -> chars y -> le x y -> 0 < test x -> 0 < test y).

(** Name [k] of a part file, from 1 on. *)
Definition name_at (k : Z) : option text := zget (l :: ns ++ [h]) k.

Lemma name_lookup k x : 1 <= k <= len ns -> name_at k = Some x <-> ns !! Z.to_nat (k - 1) = Some x.
Proof using Type.
  intros Hk. unfold name_at, zget. rewrite (proj2 (Z.ltb_ge _ _)) by lia.
  replace (Z.to_nat k) with (S (Z.to_nat (k - 1))) by lia.
  change ((l :: ns ++ [h]) !! S (Z.to_nat (k - 1))) with ((ns ++ [h]) !! Z.to_nat (k - 1)).
  by rewrite lookup_app_l by (unfold len in Hk; lia).
Qed.

Lemma name_some k : 1 <= k <= len ns -> exists x, name_at k = Some x /\ ns !! Z.to_nat (k - 1) = Some x /\ chars x.
Proof using Hc.
  intros Hk. destruct (lookup_lt_is_Some_2 ns (Z.to_nat (k - 1))) as [x Hx]; [unfold len in Hk; lia |].
  exists x. split_and!; [by apply name_lookup | done | by eapply Forall_lookup_1].
Qed.

Definition below (k : Z) : Prop := forall j x, 1 <= j <= k -> name_at j = Some x -> test x < 0.
Definition above (k : Z) : Prop := forall j x, k <= j <= len ns -> name_at j = Some x -> 0 < test x.

Lemma below_at k x : 1 <= k <= len ns -> name_at k = Some x -> test x < 0 -> below k.
Proof using Hc Hs Hlow Hhigh.
  intros Hk Hx Hlt j y Hj Hy. destruct (name_some j) as (y' & Ey & Ly & Hcy); [lia |].
  destruct (name_some k) as (x' & Ex & Lx & Hcx); [lia |]. rewrite Hy in Ey. rewrite Hx in Ex.
  injection Ey as <-. injection Ex as <-. apply (Hlow y x); try done.
  eapply sorted_lookup; try done. lia.
Qed.

Lemma above_at k x : 1 <= k <= len ns -> name_at k = Some x -> 0 < test x -> above k.
Proof using Hc Hs Hlow Hhigh.
  intros Hk Hx Hgt j y Hj Hy. destruct (name_some j) as (y' & Ey & Ly & Hcy); [lia |].
  destruct (name_some k) as (x' & Ex & Lx & Hcx); [lia |]. rewrite Hy in Ey. rewrite Hx in Ex.
  injection Ey as <-. injection Ex as <-. apply (Hhigh x y); try done.
  eapply sorted_lookup; try done. lia.
Qed.

(** What the search finds: the name, or the place before which it belongs. *)
Definition searched (md result : Z) : Prop :=
  if result =? 0 then 1 <= md <= len ns /\ exists x, name_at md = Some x /\ test x = 0
  else let q := if result <? 0 then md + 1 else md in 1 <= q <= len ns + 1 /\ below (q - 1) /\ above q.

Lemma bsearch_spec fuel lo hi md result :
  0 <= lo < hi -> hi <= len ns + 1 -> below lo -> above hi -> (Z.to_nat (hi - lo) <= fuel)%nat ->
  (0 < result /\ md = hi /\ hi <= len ns \/ result < 0 /\ md = lo /\ 0 < lo \/ lo = 0 /\ hi = len ns + 1 /\ (md = 1 /\ result = 1 \/ ns <> [])) ->
  exists md' result', bsearch test fuel (l :: ns ++ [h]) lo hi md result = Some (md', result') /\ searched md' result' /\
    (ns <> [] -> 1 <= md' <= len ns).
Proof using Hc Hs Hlow Hhigh.
  revert lo hi md result. induction fuel as [| fuel IH]; intros lo hi md result Hlo Hhi Hb Ha Hf Hr; [lia |].
  cbn [bsearch]. destruct (Z.ltb_spec (lo + 1) hi) as [Hlt | Hge].
  - set (m := (hi + lo) / 2). assert (Hm : lo < m < hi).
    { pose proof (Z.div_mod (hi + lo) 2 ltac:(lia)). pose proof (Z.mod_pos_bound (hi + lo) 2 ltac:(lia)). subst m. lia. }
    destruct (name_some m) as (x & Ex & Lx & Hx); [lia |]. unfold name_at in Ex. rewrite Ex. cbn [mbind option_bind].
    destruct (Z.ltb_spec 0 (test x)) as [Hgt | Hle].
    { apply IH; try done; [lia | lia | | lia | left; split_and!; [| | lia]; done]. by eapply above_at; [lia | exact Ex |]. }
    destruct (Z.ltb_spec (test x) 0) as [Hlt' | Hge'].
    { apply IH; try done; [lia | | lia | right; left; split_and!; [| | lia]; done]. by eapply below_at; [lia | exact Ex |]. }
    exists m, (test x). split; [done |]. unfold searched. assert (E : test x = 0) by lia.
    rewrite E. cbn [Z.eqb]. split; [| lia]. split; [lia |]. by exists x.
  - exists md, result. split; [done |]. split; [unfold searched |]; assert (hi = lo + 1) by lia; subst hi; [| intros Hne'; destruct ns; [done | rewrite len_cons in *; len_pos; lia]].
    destruct Hr as [(Hp & -> & Hh) | [(Hp & -> & Hh) | (-> & Hlen & [[-> ->] | Hne])]].
    + rewrite (proj2 (Z.eqb_neq _ _)), (proj2 (Z.ltb_ge _ _)) by lia. split_and!; [lia | lia | by replace (lo + 1 - 1) with lo by lia | done].
    + rewrite (proj2 (Z.eqb_neq _ _)), (proj2 (Z.ltb_lt _ _)) by lia. split_and!; [lia | lia | by replace (lo + 1 - 1) with lo by lia | done].
    + cbn [Z.eqb Z.ltb Z.compare]. split_and!; [lia | lia | by replace (1 - 1) with 0 by lia | done].
    + destruct ns; [done |]. rewrite len_cons in Hlen. len_pos. lia.
Qed.

Lemma search_spec md0 : md0 = 1 \/ ns <> [] -> exists md result,
  bsearch test (S (length (l :: ns ++ [h]))) (l :: ns ++ [h]) 0 (len (l :: ns ++ [h]) - 1) md0 1 = Some (md, result) /\
  searched md result /\ (ns <> [] -> 1 <= md <= len ns).
Proof using Hc Hs Hlow Hhigh.
  intros Hmd. rewrite len_cons, len_app. change (len [h]) with 1. apply bsearch_spec.
  - len_pos. lia.
  - lia.
  - intros j x Hj. lia.
  - intros j x Hj. lia.
  - cbn [length]. rewrite length_app. unfold len. lia.
  - right. right. split_and!; [done | lia | tauto].
Qed.

(** The names on either side of the place. *)
Lemma below_take k : below k -> 0 <= k <= len ns -> Forall (fun n => test n < 0) (take (Z.to_nat k) ns).
Proof using Type.
  intros Hb Hk. apply Forall_lookup. intros i x Hx. apply lookup_take_Some in Hx as [Hx Hi].
  apply (Hb (Z.of_nat i + 1)); [lia |]. apply name_lookup; [lia |]. by replace (Z.to_nat (Z.of_nat i + 1 - 1)) with i by lia.
Qed.

Lemma above_drop k : above (k + 1) -> 0 <= k <= len ns -> Forall (fun n => 0 < test n) (drop (Z.to_nat k) ns).
Proof using Type.
  intros Ha Hk. apply Forall_lookup. intros i x Hx. rewrite lookup_drop in Hx.
  assert (Hi := lookup_lt_Some _ _ _ Hx). unfold len in *.
  apply (Ha (Z.of_nat (Z.to_nat k + i) + 1)); [unfold len; lia |]. apply name_lookup; [unfold len; lia |].
  by replace (Z.to_nat (Z.of_nat (Z.to_nat k + i) + 1 - 1)) with (Z.to_nat k + i)%nat by lia.
Qed.
End part.

(** ** Multisets of names *)

Abbreviation names := (gmultiset text).
Definition bag (l : list text) : names := list_to_set_disj l.

(** What the abstract data base does: names are put in and taken out. *)
Definition apply_op (X : names) (op : bool * text) : names :=
  if op.1 then X ∖ {[+ op.2 +]} else X ⊎ {[+ op.2 +]}.

Lemma bag_middle u v s : bag (u ++ s :: v) = bag (u ++ v) ⊎ {[+ s +]}.
Proof. unfold bag. rewrite !list_to_set_disj_app. cbn [list_to_set_disj]. multiset_solver. Qed.

Lemma bag_remove (X : names) (s : text) : (X ⊎ {[+ s +]}) ∖ {[+ s +]} = X.
Proof. multiset_solver. Qed.

Lemma bag_absent l s : s ∉ l -> bag l ∖ {[+ s +]} = bag l.
Proof.
  intros Hs. assert (H : s ∉ bag l) by (unfold bag; by rewrite elem_of_list_to_set_disj). multiset_solver.
Qed.

Lemma delete_in_app {A} (l k : list A) i : (i < length l)%nat -> delete i (l ++ k) = delete i l ++ k.
Proof. revert i. induction l as [| x l IH]; intros [| i] Hi; cbn in *; try lia; [done |]. f_equal. apply IH. lia. Qed.

(** ** A change of a part file *)

Definition tidy (ns : list text) : Prop := Forall chars ns /\ Forall one_line ns /\ StronglySorted le ns.

Lemma tidy_insert u s v : tidy (u ++ v) -> chars s -> one_line s ->
  Forall (fun n => cmp n s <= 0) u -> Forall (fun n => 0 <= cmp n s) v -> tidy (u ++ s :: v).
Proof.
  intros (Hc & Ho & Hs) Hcs Hos Hu Hv. apply Forall_app in Hc as [Hcu Hcv]. apply Forall_app in Ho as [Hou Hov].
  apply StronglySorted_app in Hs as (Huv & Hsu & Hsv). split_and!.
  - apply Forall_app. by split; [| constructor].
  - apply Forall_app. by split; [| constructor].
  - apply StronglySorted_app. rewrite Forall_forall in Hu, Hv, Hcv. split_and!; [| done |].
    + intros x y Hx [-> | Hy]%elem_of_cons; [apply Hu in Hx; unfold le; lia | by apply Huv].
    + constructor; [done |]. apply Forall_forall. intros x Hx. unfold le.
      rewrite cmp_antisym by (done || by apply Hcv). apply Hv in Hx. lia.
Qed.

Lemma tidy_delete u s v : tidy (u ++ s :: v) -> tidy (u ++ v).
Proof.
  intros (Hc & Ho & Hs). apply Forall_app in Hc as [Hcu [_ Hcv]%Forall_cons]. apply Forall_app in Ho as [Hou [_ Hov]%Forall_cons].
  apply StronglySorted_app in Hs as (Huv & Hsu & [Hsv _]%StronglySorted_inv). split_and!; [by apply Forall_app | by apply Forall_app |].
  apply StronglySorted_app. split_and!; [| done | done]. intros x y Hx Hy. apply Huv; [done | by right].
Qed.

(** The names and what becomes of them. *)
Definition changes (remove : bool) (str : text) (ns ns' : list text) : Prop :=
  tidy ns' /\ bag ns' = apply_op (bag ns) (remove, str) /\ len ns' <= len ns + 1 /\
  (forall x, x ∈ ns' -> x ∈ ns \/ remove = false /\ x = str).

Lemma delete_change ns str k : tidy ns -> ns !! k = Some str -> changes true str ns (delete k ns).
Proof.
  intros Ht Hk. pose proof (take_drop_middle _ _ _ Hk) as E. set (u := take k ns) in *. set (v := drop (S k) ns) in *.
  assert (Hu : k = length u) by (unfold u; rewrite length_take; apply lookup_lt_Some in Hk; lia).
  rewrite <- E in *. rewrite Hu, delete_middle. split_and!.
  - by apply tidy_delete in Ht.
  - unfold apply_op. cbn [fst snd]. by rewrite bag_middle, bag_remove.
  - rewrite !len_app, len_cons. lia.
  - intros x Hx. left. apply elem_of_app in Hx as [Hx | Hx]; apply elem_of_app; [by left | right; by right].
Qed.

Lemma insert_change ns str k : tidy ns -> chars str -> one_line str ->
  Forall (fun n => cmp n str <= 0) (take k ns) -> Forall (fun n => 0 <= cmp n str) (drop k ns) ->
  changes false str ns (take k ns ++ str :: drop k ns).
Proof.
  intros Ht Hc Ho H1 H2. split_and!.
  - apply tidy_insert; try done. by rewrite take_drop.
  - unfold apply_op. cbn [fst snd]. by rewrite bag_middle, take_drop.
  - pose proof (take_drop k ns) as E. apply (f_equal len) in E. rewrite len_app in *. rewrite len_cons. lia.
  - intros x. rewrite <- (take_drop k ns) at 3. rewrite !elem_of_app, elem_of_cons. intuition auto.
Qed.

(** The search for a whole name. *)
Lemma search_cmp l h ns str : tidy ns -> chars str -> exists md result,
  bsearch (fun line => cmp line str) (S (length (l :: ns ++ [h]))) (l :: ns ++ [h]) 0 (len (l :: ns ++ [h]) - 1) 1 1 =
    Some (md, result) /\
  searched l h ns (fun line => cmp line str) md result /\
  (result = 0 -> 1 <= md <= len ns /\ ns !! Z.to_nat (md - 1) = Some str).
Proof.
  intros (Hc & _ & Hs) Hstr.
  destruct (search_spec l h ns (fun line => cmp line str) Hc Hs) with (md0 := 1) as (md & result & E & H & _).
  - intros x y Hx Hy Hle Hlt. by apply (le_lt_trans x y str).
  - intros x y Hx Hy Hle Hlt. rewrite (cmp_antisym y str) by done. rewrite (cmp_antisym x str) in Hlt by done.
    assert (cmp str y < 0); [| lia]. by apply (lt_le_trans str x y); [.. | lia |].
  - by left.
  - exists md, result. split_and!; [exact E | exact H |]. intros ->. unfold searched in H. cbn [Z.eqb] in H.
    destruct H as (Hmd & x & Hx & E0). split; [done |]. apply name_lookup in Hx; [| done].
    rewrite Hx. f_equal. apply cmp_eq; [by eapply Forall_lookup_1 | done | done].
Qed.

(** The place where a name is inserted. *)
Lemma insert_place l h ns str md result : tidy ns -> chars str -> searched l h ns (fun line => cmp line str) md result ->
  (result = 0 -> 1 <= md <= len ns /\ ns !! Z.to_nat (md - 1) = Some str) ->
  let slot := if result <? 0 then md + 1 else md in
  1 <= slot <= len ns + 1 /\ Forall (fun n => cmp n str <= 0) (take (Z.to_nat (slot - 1)) ns) /\
  Forall (fun n => 0 <= cmp n str) (drop (Z.to_nat (slot - 1)) ns).
Proof.
  intros (Hc & _ & Hs) Hstr H H0. unfold searched in H. destruct (Z.eqb_spec result 0) as [-> | Hr].
  - cbn [Z.ltb Z.compare]. destruct (H0 eq_refl) as [Hmd Hx]. split; [lia |].
    split; apply Forall_lookup; intros i x Hi.
    + apply lookup_take_Some in Hi as [Hi Hlt]. eapply (sorted_lookup ns i); [done | done | exact Hi | exact Hx | lia].
    + rewrite lookup_drop in Hi. assert (le str x) by (eapply sorted_lookup; [done | done | exact Hx | exact Hi | lia]).
      rewrite cmp_antisym; [unfold le in *; lia | by eapply Forall_lookup_1 | done].
  - set (q := if result <? 0 then md + 1 else md) in *. cbv zeta. destruct H as (Hq & Hb & Ha). split; [lia |].
    split; (eapply Forall_impl; [first [eapply below_take; [exact Hb | lia] | eapply above_drop; [| lia]; by replace (q - 1 + 1) with q by lia] |]);
      cbn beta; intros; lia.
Qed.

Lemma change_spec remove v l h ns str :
  tbuf v = l :: ns ++ [h] -> tidy ns -> chars str -> one_line str -> len ns + 2 < TB_LINES ->
  exists ns', changes remove str ns ns' /\
    (change_buf remove str v = Some v /\ ns' = ns \/
     change_buf remove str v = Some (mkVars (files v) (namdir v) (loaded v) true (l :: ns' ++ [h]))).
Proof.
  intros Et Ht Hc Ho Hroom. pose proof Ht as (Hcn & Hon & Hsn). unfold change_buf. rewrite Et.
  destruct (search_cmp l h ns str Ht Hc) as (md & result & -> & Hres & H0). cbn [mbind option_bind].
  destruct remove.
  - unfold searched in Hres. destruct (result =? 0) eqn:Er.
    + destruct (H0 ltac:(lia)) as [Hmd Hx]. exists (delete (Z.to_nat (md - 1)) ns).
      split; [by apply delete_change |]. right. do 2 f_equal.
      replace (Z.to_nat md) with (S (Z.to_nat (md - 1))) by lia.
      change (delete (S (Z.to_nat (md - 1))) (l :: ns ++ [h])) with (l :: delete (Z.to_nat (md - 1)) (ns ++ [h])).
      f_equal. apply delete_in_app. by eapply lookup_lt_Some.
    + exists ns. split; [| by left]. cbv zeta in Hres. set (q := if result <? 0 then md + 1 else md) in *.
      destruct Hres as (Hq & Hb & Ha).
      assert (Habs : str ∉ ns).
      { intros [i Hi]%list_elem_of_lookup. pose proof (lookup_lt_Some _ _ _ Hi) as Hl.
        assert (E : name_at l h ns (Z.of_nat i + 1) = Some str).
        { apply name_lookup; [unfold len; lia |]. by replace (Z.to_nat (Z.of_nat i + 1 - 1)) with i by lia. }
        assert (H1 : cmp str str = 0) by (by apply cmp_eq).
        destruct (decide (Z.of_nat i + 1 <= q - 1)).
        - specialize (Hb (Z.of_nat i + 1) str ltac:(lia) E). lia.
        - specialize (Ha (Z.of_nat i + 1) str ltac:(unfold len; lia) E). lia. }
      split_and!; [done | | lia | by left]. unfold apply_op. cbn [fst snd]. by rewrite bag_absent.
  - destruct (insert_place l h ns str md result Ht Hc Hres H0) as (Hq & Hu & Hv).
    set (q := if result <? 0 then md + 1 else md) in *. eexists. split; [by apply insert_change |]. right.
    unfold nameinsert. assert (Hl : len (l :: ns ++ [h]) = len ns + 2) by (rewrite len_cons, len_app; change (len [h]) with 1; lia).
    rewrite Hl, (proj2 (Z.leb_gt _ _)), (proj2 (Z.ltb_ge _ _)) by lia. cbn [orb mbind option_bind]. do 2 f_equal.
    replace (Z.to_nat q) with (S (Z.to_nat (q - 1))) by lia. cbn [take drop app].
    rewrite take_app_le, drop_app_le by (unfold len in Hq; lia). by rewrite <- app_assoc.
Qed.

(** ** Part files behind a directory *)

(** The strings of two nodes. *)
Definition before (x y : node) : Prop := cmp x.1 y.1 < 0.

(** The directory: boundaries in order, and different part files. *)
Record dir_ok (nodes : list node) : Prop := {
  dir_chars : Forall (fun nd => chars nd.1) nodes;
  dir_sorted : StronglySorted before nodes;
  dir_parts : NoDup (map snd nodes);
}.

(** Between nodes [i] and [i + 1]: the names [ns], from the one boundary to
    before the other. *)
Record part_ok (vp : gmap Z (list text)) (nd nd' : node) (ns : list text) : Prop := {
  part_lines : exists l h, vp !! nd.2 = Some (l :: ns ++ [h]) /\ one_line l /\ one_line h;
  part_tidy : tidy ns;
  part_range : Forall (fun n => le nd.1 n /\ cmp n nd'.1 < 0) ns;
  part_num : nd.2 <> -1;
}.

Definition parts_ok (vp : gmap Z (list text)) (nodes : list node) (cs : list (list text)) : Prop :=
  length nodes = S (length cs) /\
  forall i nd nd' ns, nodes !! i = Some nd -> nodes !! S i = Some nd' -> cs !! i = Some ns -> part_ok vp nd nd' ns.

(** Names that a directory has a place for. *)
Definition in_range (nodes : list node) (s : text) : Prop :=
  (forall nd, head nodes = Some nd -> le nd.1 s) /\ (forall nd, last nodes = Some nd -> cmp s nd.1 < 0).

Lemma whatnm_from str nd next : le nd.1 str -> chars str -> Forall (fun nd => chars nd.1) (nd :: next) ->
  (forall z, last (nd :: next) = Some z -> cmp str z.1 < 0) ->
  exists i x y, (nd :: next) !! i = Some x /\ next !! i = Some y /\ whatnm str nd next = Some x /\
    le x.1 str /\ cmp str y.1 < 0.
Proof.
  intros Hle Hstr. revert nd Hle. induction next as [| y next IH]; intros nd Hle Hc Hl.
  - exfalso. specialize (Hl nd eq_refl). apply Forall_cons in Hc as [Hc _]. rewrite cmp_antisym in Hl by done.
    unfold le in Hle. lia.
  - cbn [whatnm]. destruct (Z.ltb_spec (cmp str y.1) 0) as [Hlt | Hge].
    + exists 0%nat, nd, y. by split_and!.
    + apply Forall_cons in Hc as [_ Hc]. pose proof Hc as [Hcy _]%Forall_cons.
      destruct (IH y) as (i & x & z & H1 & H2 & H3); [| done | by rewrite last_cons_cons in Hl |].
      { unfold le. rewrite cmp_antisym by done. lia. }
      by exists (S i), x, z.
Qed.

Lemma whatnm_spec nodes str hdr : dir_ok nodes -> chars str -> in_range nodes str -> nodes <> [] ->
  exists i x y, nodes !! i = Some x /\ nodes !! S i = Some y /\ whatnm str hdr nodes = Some x /\
    le x.1 str /\ cmp str y.1 < 0.
Proof.
  intros [Hc _ _] Hstr [Hh Hl] Hne. destruct nodes as [| nd next]; [done |]. specialize (Hh nd eq_refl).
  cbn [whatnm]. pose proof Hc as [Hcn _]%Forall_cons. rewrite (proj2 (Z.ltb_ge _ _)).
  - destruct (whatnm_from str nd next Hh Hstr Hc Hl) as (i & x & y & H1 & H2 & H3). by exists i, x, y.
  - unfold le in Hh. rewrite cmp_antisym by done. lia.
Qed.

Lemma nodes_before nodes i j x y : dir_ok nodes -> nodes !! i = Some x -> nodes !! j = Some y -> (i < j)%nat -> cmp x.1 y.1 < 0.
Proof.
  intros [_ Hs _] Hi Hj Hij. rewrite <- (take_drop_middle _ _ _ Hi) in Hs. apply StronglySorted_app in Hs as (_ & _ & Hs).
  apply StronglySorted_inv in Hs as [_ Hs]. rewrite Forall_forall in Hs. apply Hs.
  apply list_elem_of_lookup. exists (j - S i)%nat. rewrite lookup_drop. by replace (S i + (j - S i))%nat with j by lia.
Qed.

Lemma nodes_chars nodes i x : dir_ok nodes -> nodes !! i = Some x -> chars x.1.
Proof. intros [Hc _ _] Hi. exact (Forall_lookup_1 _ _ _ _ Hc Hi). Qed.

(** A name between two nodes is between no others. *)
Lemma place_unique nodes i j x x' y y' s : dir_ok nodes -> chars s ->
  nodes !! i = Some x -> nodes !! S i = Some x' -> nodes !! j = Some y -> nodes !! S j = Some y' ->
  le x.1 s -> cmp s x'.1 < 0 -> le y.1 s -> cmp s y'.1 < 0 -> i = j.
Proof.
  intros Hd Hs Hi Hi' Hj Hj' H1 H2 H3 H4.
  assert (Hno : forall i j x' y, nodes !! S i = Some x' -> nodes !! j = Some y -> cmp s x'.1 < 0 -> le y.1 s -> (i < j)%nat -> False).
  { clear - Hd Hs. intros i j x y Hi Hj H1 H2 Hij.
    assert (H : cmp y.1 x.1 < 0) by (eapply le_lt_trans; [by eapply nodes_chars | exact Hs | by eapply nodes_chars | done | done]).
    destruct (decide (j = S i)) as [-> | Hne].
    - assert (y = x) as -> by congruence. rewrite (proj2 (cmp_eq x.1 x.1 ltac:(by eapply nodes_chars) ltac:(by eapply nodes_chars)) eq_refl) in H. lia.
    - pose proof (nodes_before nodes (S i) j x y Hd Hi Hj ltac:(lia)) as H'.
      rewrite cmp_antisym in H' by (by eapply nodes_chars). lia. }
  destruct (Nat.lt_trichotomy i j) as [Hij | [-> | Hij]]; [| done |]; exfalso.
  - by apply (Hno i j x' y).
  - by apply (Hno j i y' x).
Qed.

(** *** A change of one part file *)

Lemma concat_insert (cs : list (list text)) i ns ns' : cs !! i = Some ns ->
  exists u v, concat cs = u ++ ns ++ v /\ concat (<[i := ns']> cs) = u ++ ns' ++ v /\
    (forall s, s ∈ u ++ v -> exists j ns2, j <> i /\ cs !! j = Some ns2 /\ s ∈ ns2).
Proof.
  intros Hi. pose proof (lookup_lt_Some _ _ _ Hi) as Hl. exists (concat (take i cs)), (concat (drop (S i) cs)). split_and!.
  - rewrite <- (take_drop_middle _ _ _ Hi) at 1. by rewrite concat_app.
  - rewrite insert_take_drop by done. by rewrite concat_app.
  - intros s [Hs | Hs]%elem_of_app; apply list_elem_of_In, in_concat in Hs as (ns2 & Hj%list_elem_of_In & Hs%list_elem_of_In).
    + apply list_elem_of_lookup in Hj as [j Hj]. apply lookup_take_Some in Hj as [Hj Hlt]. exists j, ns2. split_and!; [lia | done | done].
    + apply list_elem_of_lookup in Hj as [j Hj]. rewrite lookup_drop in Hj. exists (S i + j)%nat, ns2. split_and!; [lia | done | done].
Qed.

Lemma bag_change u v ns ns' remove s : (remove = true -> s ∉ u ++ v) -> bag ns' = apply_op (bag ns) (remove, s) ->
  bag (u ++ ns' ++ v) = apply_op (bag (u ++ ns ++ v)) (remove, s).
Proof.
  intros Hs E. unfold bag in *. rewrite !list_to_set_disj_app, E. unfold apply_op. cbn [fst snd]. destruct remove.
  - specialize (Hs eq_refl). rewrite elem_of_app in Hs.
    assert (H1 : s ∉ (list_to_set_disj u : names)) by (rewrite elem_of_list_to_set_disj; tauto).
    assert (H2 : s ∉ (list_to_set_disj v : names)) by (rewrite elem_of_list_to_set_disj; tauto).
    multiset_solver.
  - multiset_solver.
Qed.

Lemma parts_change vp nodes cs i nd nd' ns ns' l h remove s :
  dir_ok nodes -> parts_ok vp nodes cs -> nodes !! i = Some nd -> nodes !! S i = Some nd' -> cs !! i = Some ns ->
  vp !! nd.2 = Some (l :: ns ++ [h]) -> chars s -> le nd.1 s -> cmp s nd'.1 < 0 -> changes remove s ns ns' ->
  parts_ok (<[nd.2 := l :: ns' ++ [h]]> vp) nodes (<[i := ns']> cs) /\
  bag (concat (<[i := ns']> cs)) = apply_op (bag (concat cs)) (remove, s).
Proof.
  intros Hd [Hlen Hp] Hi Hi' Hns Hvp Hs H1 H2 (Ht & Hb & _ & Hin). split.
  - split; [by rewrite length_insert |]. intros j x x' ms Hj Hj' Hms. destruct (decide (j = i)) as [-> | Hne].
    + rewrite list_lookup_insert_eq in Hms by (by eapply lookup_lt_Some). injection Hms as <-.
      rewrite Hi in Hj. rewrite Hi' in Hj'. injection Hj as <-. injection Hj' as <-.
      destruct (Hp _ _ _ _ Hi Hi' Hns) as [(l0 & h0 & E & Hl & Hh) _ Hr Hn]. rewrite Hvp in E. injection E as <- E.
      apply app_inj_2 in E as [_ [= <-]]; [| done].
      constructor; [| done | | done].
      * exists l, h. rewrite lookup_insert_eq. by split_and!.
      * rewrite Forall_forall in Hr |- *. intros y Hy. destruct (Hin y Hy) as [? | [_ ->]]; [by apply Hr | done].
    + rewrite list_lookup_insert_ne in Hms by done. destruct (Hp _ _ _ _ Hj Hj' Hms) as [(l0 & h0 & E & Hl & Hh) Ht' Hr Hn].
      constructor; [| done | done | done]. exists l0, h0. rewrite lookup_insert_ne; [by split_and! |].
      intros E'. apply Hne. apply (NoDup_lookup (map snd nodes) j i x.2); [by apply dir_parts | |].
      * change (map snd nodes) with (snd <$> nodes). by rewrite list_lookup_fmap, Hj.
      * change (map snd nodes) with (snd <$> nodes). rewrite list_lookup_fmap, Hi. cbn. by rewrite E'.
  - destruct (concat_insert cs i ns ns' Hns) as (u & v & -> & -> & Hother). apply bag_change; [| done]. intros _ Hsin.
    destruct (Hother s Hsin) as (j & ns2 & Hne & Hj & Hs2). apply Hne.
    assert (Hl : (S j < length nodes)%nat) by (apply lookup_lt_Some in Hj; lia).
    destruct (lookup_lt_is_Some_2 nodes j) as [y Hy]; [lia |]. destruct (lookup_lt_is_Some_2 nodes (S j)) as [y' Hy']; [lia |].
    destruct (Hp _ _ _ _ Hy Hy' Hj) as [_ _ Hr _]. rewrite Forall_forall in Hr. destruct (Hr s Hs2) as [H3 H4].
    by apply (place_unique nodes j i y y' nd nd' s).
Qed.

(** ** The directory file *)

Definition plain_node (nd : node) : Prop :=
  one_line nd.1 /\ head nd.1 <> Some 32 /\ 0 <= nd.2 < 2 ^ 15.

Lemma span_replicate n s : head s <> Some 32 -> drop (length (span (fun c => c =? 32) (replicate n 32 ++ s))) (replicate n 32 ++ s) = s.
Proof.
  intros Hs. rewrite span_app.
  - apply drop_app_length.
  - apply Forall_replicate. done.
  - intros c Hc. apply Z.eqb_neq. congruence.
Qed.

Lemma read_dir_line_back B nd : good_blanks B -> plain_node nd -> read_dir_line B (dir_line nd) = nd.
Proof.
  intros [Hsp Hb] (_ & Hh & Hn). destruct nd as [s p]. cbn [fst snd] in *. unfold read_dir_line, dir_line. cbn [fst snd].
  assert (Hi : is_int p) by (unfold is_int; lia).
  destruct (show_spec p Hi) as (d & Es & Hd & Hne & Hv). rewrite (proj2 (Z.ltb_ge _ _)) in Es by lia. cbn [app] in Es.
  pose proof (int4_result_decimal B (replicate (5 - length (show p)) 32) false false d (32 :: s)) as Hr.
  cbv zeta iota in Hr. rewrite app_nil_l in Hr. rewrite Es in *. cbn [app] in Hr.
  rewrite Hr; clear Hr; [| by apply Forall_replicate | | done | done | lia | by intros c [= <-]].
  2: { eapply Forall_impl; [exact Hd |]. intros c Hc. apply Hb. by left. }
  replace (len (replicate (5 - length d) 32 ++ d ++ 32 :: s) - len (32 :: s)) with (len (replicate (5 - length d) 32 ++ d)) by (rewrite !len_app; lia).
  rewrite (app_assoc (replicate _ _)), drop_len_app. change (32 :: s) with (replicate 1 32 ++ s). rewrite span_replicate by done.
  f_equal. rewrite Hv. lia.
Qed.

Lemma dir_line_one nd : plain_node nd -> one_line (dir_line nd).
Proof.
  intros (Ho & _ & Hn) Hin. unfold dir_line in Hin. assert (Hi : is_int nd.2) by (unfold is_int; lia).
  destruct (show_spec nd.2 Hi) as (d & Es & Hd & _). rewrite (proj2 (Z.ltb_ge _ _)) in Es by lia. cbn [app] in Es. rewrite Es in Hin.
  apply elem_of_app in Hin as [Hin | Hin]; [by apply elem_of_replicate in Hin as [? _] |].
  apply elem_of_app in Hin as [Hin | [? | Hin]%elem_of_cons]; [| done | by apply Ho].
  rewrite Forall_forall in Hd. by apply Hd in Hin.
Qed.

Lemma nladd_last l s p : Forall (fun nd => 0 <= cmp s nd.1) l -> 0 <= p < 2 ^ 15 -> nladd l s p = l ++ [(s, p)].
Proof.
  intros Hl Hp. induction Hl as [| nd l Hnd Hl IH]; cbn [nladd app].
  - by rewrite i16_small by lia.
  - by rewrite (proj2 (Z.ltb_ge _ _)), IH by lia.
Qed.

Lemma nladd_all nodes l : dir_ok (l ++ nodes) -> Forall plain_node nodes ->
  foldl (fun l nd => nladd l nd.1 nd.2) l nodes = l ++ nodes.
Proof.
  revert l. induction nodes as [| [s p] nodes IH]; intros l Hd Hp; cbn [foldl fst snd]; [by rewrite app_nil_r |].
  apply Forall_cons in Hp as [(_ & _ & Hp) Hps]. cbn [fst snd] in Hp. rewrite nladd_last; [| | done].
  - rewrite (app_cons_assoc l (s, p) nodes) in Hd |- *. by apply IH.
  - destruct Hd as [Hc Hs _]. apply StronglySorted_app in Hs as (Hb & _). apply Forall_forall. intros nd Hnd.
    specialize (Hb nd (s, p) Hnd ltac:(left)). unfold before in Hb. cbn [fst] in Hb.
    apply Forall_app in Hc as [Hc1 Hc2]. rewrite Forall_forall in Hc1. apply Forall_cons in Hc2 as [Hc2 _].
    rewrite cmp_antisym by (done || by apply Hc1). lia.
Qed.

(** What is written is read back. *)
Lemma load_store B f n str nodes : good_blanks B -> dir_ok nodes -> Forall plain_node nodes ->
  dirfile f = Some (stornmdir (mkDir str n nodes)) ->
  exists n', loadnmdir B f = Some (mkDir [] n' nodes).
Proof.
  intros HB Hd Hp E. unfold loadnmdir. rewrite E. cbn [mbind option_bind]. unfold stornmdir. cbn [d_next].
  assert (Hl : Forall one_line (map dir_line nodes)).
  { apply Forall_map. eapply Forall_impl; [exact Hp |]. apply dir_line_one. }
  rewrite written_id by done. eexists. do 2 f_equal.
  transitivity (foldl (fun l nd => nladd l nd.1 nd.2) [] nodes); [| by apply nladd_all].
  clear - HB Hp. generalize (@nil node). induction Hp as [| nd nodes Hnd Hp IH]; intros l; [done |].
  cbn [map foldl]. by rewrite read_dir_line_back.
Qed.

(** ** Changing names *)

(** The operations in the order in which [modnames] makes them. *)
Fixpoint ops (fuel : nat) (add del : list node) : list (bool * text) :=
  match fuel with
  | O => []
  | S fuel' => match next_op add del with
               | None => []
               | Some (remove, str, add, del) => (remove, str) :: ops fuel' add del
               end
  end.

(** The files as they would be if the buffer were stored. *)
Definition vparts (v : mvars) : gmap Z (list text) :=
  if changed v then <[loaded v := tbuf v]> (parts (files v)) else parts (files v).

Record inv (df : option (list text)) (d : namdir_t) (v : mvars) (cs : list (list text)) (r : Z) : Prop := {
  inv_dir : namdir v = d;
  inv_df : dirfile (files v) = df;
  inv_parts : parts_ok (vparts v) (d_next d) cs;
  inv_room : Forall (fun ns => len ns + 2 + r <= TB_LINES - 10) cs;
  inv_loaded : loaded v = -1 /\ changed v = false \/
    exists i nd nd', d_next d !! i = Some nd /\ d_next d !! S i = Some nd' /\ nd.2 = loaded v /\
      vparts v !! loaded v = Some (tbuf v);
}.

(** What is behind a node. *)
Lemma part_at vp nodes cs i nd nd' : parts_ok vp nodes cs -> nodes !! i = Some nd -> nodes !! S i = Some nd' ->
  exists ns, cs !! i = Some ns /\ part_ok vp nd nd' ns.
Proof.
  intros [Hl Hp] Hi Hi'. destruct (lookup_lt_is_Some_2 cs i) as [ns Hns].
  { apply lookup_lt_Some in Hi'. lia. }
  exists ns. split; [done |]. by apply (Hp i).
Qed.

Lemma part_one_line l h ns : one_line l -> one_line h -> tidy ns -> Forall one_line (l :: ns ++ [h]).
Proof. intros Hl Hh (_ & Ho & _). constructor; [done |]. apply Forall_app. by split; [| constructor]. Qed.

Lemma store_spec B df d v cs r : inv df d v cs r -> 0 <= r ->
  store B v = Some (mkFiles df (vparts v), d, tbuf v).
Proof.
  intros [Ed Edf Hp Hr Hl] Hr0. unfold store, vparts in *. destruct (files v) as [df0 ps] eqn:Ef. cbn [dirfile parts] in *.
  subst df0 d. destruct (changed v) eqn:Ec; [| done]. destruct Hl as [[_ ?] | (i & nd & nd' & Hi & Hi' & El & Et)]; [done |].
  destruct (part_at _ _ _ _ _ _ Hp Hi Hi') as (ns & Hns & [(l & h & E & Hol & Hoh) Ht _ _]).
  rewrite El, Et in E. injection E as E. pose proof (Forall_lookup_1 _ _ _ _ Hr Hns) as Hroom. cbn beta in Hroom.
  unfold stornpart. rewrite (proj2 (Z.ltb_ge _ _)).
  - unfold stornp2. cbn [dirfile parts]. by rewrite written_id by (rewrite E; by apply part_one_line).
  - rewrite E, len_cons, len_app. change (len [h]) with 1. lia.
Qed.

(** The change of the part file that is in the buffer. *)
Lemma change_step df d v cs r remove s i nd nd' vp :
  dir_ok (d_next d) -> parts_ok vp (d_next d) cs -> vparts v = vp -> namdir v = d -> dirfile (files v) = df ->
  Forall (fun ns => len ns + 2 + (r + 1) <= TB_LINES - 10) cs -> 0 <= r ->
  d_next d !! i = Some nd -> d_next d !! S i = Some nd' -> nd.2 = loaded v -> vp !! nd.2 = Some (tbuf v) ->
  chars s -> one_line s -> le nd.1 s -> cmp s nd'.1 < 0 ->
  exists v' cs', change_buf remove s v = Some v' /\ inv df d v' cs' r /\
    bag (concat cs') = apply_op (bag (concat cs)) (remove, s).
Proof.
  intros Hd Hp Evp Ed Edf Hr Hr0 Hi Hi' El Et Hs Ho H1 H2.
  destruct (part_at _ _ _ _ _ _ Hp Hi Hi') as (ns & Hns & [(l & h & E & Hol & Hoh) Ht _ _]).
  rewrite Et in E. injection E as E. pose proof (Forall_lookup_1 _ _ _ _ Hr Hns) as Hroom. cbn beta in Hroom.
  destruct (change_spec remove v l h ns s E Ht Hs Ho) as (ns' & Hch & Hres); [lia |].
  assert (Et' : vp !! nd.2 = Some (l :: ns ++ [h])) by (by rewrite Et, E).
  destruct (parts_change vp (d_next d) cs i nd nd' ns ns' l h remove s Hd Hp Hi Hi' Hns Et' Hs H1 H2 Hch) as [Hp' Hbag].
  assert (Hr' : Forall (fun ns => len ns + 2 + r <= TB_LINES - 10) (<[i := ns']> cs)).
  { apply Forall_insert; [| destruct Hch as (_ & _ & Hl & _); lia]. eapply Forall_impl; [exact Hr |]. cbn beta. intros. lia. }
  destruct Hres as [[Ech ->] | Ech].
  - exists v, cs. rewrite list_insert_id in Hp', Hbag, Hr' by done. split_and!; [exact Ech | | exact Hbag].
    constructor; [done | done | by rewrite Evp | done |]. right. exists i, nd, nd'. split_and!; try done. by rewrite Evp, <- El.
  - eexists _, (<[i := ns']> cs). split_and!; [exact Ech | | exact Hbag].
    assert (Ev : vparts (mkVars (files v) (namdir v) (loaded v) true (l :: ns' ++ [h])) = <[nd.2 := l :: ns' ++ [h]]> vp).
    { unfold vparts in *. cbn [changed loaded tbuf files]. rewrite <- El, <- Evp. destruct (changed v); [| done].
      by rewrite <- El, insert_insert_eq. }
    constructor; [done | done | by rewrite Ev | done |]. right. exists i, nd, nd'. rewrite Ev. cbn [loaded tbuf].
    split_and!; try done. by rewrite <- El, lookup_insert_eq.
Qed.

(** A name that is put in or taken out. *)
Definition name_ok (nodes : list node) (s : text) : Prop := chars s /\ one_line s /\ in_range nodes s.

Lemma mod_one_spec B can df d v cs r remove s :
  (forall p, can p = true) -> dir_ok (d_next d) -> d_next d <> [] -> inv df d v cs (r + 1) -> 0 <= r -> name_ok (d_next d) s ->
  exists v' cs', mod_one B can remove s v = Some v' /\ inv df d v' cs' r /\
    bag (concat cs') = apply_op (bag (concat cs)) (remove, s).
Proof.
  intros Hcan Hd Hne I Hr0 (Hs & Ho & Hin). pose proof I as [Ed Edf Hp Hr Hl]. unfold mod_one. rewrite Ed.
  destruct (whatnm_spec (d_next d) s (d_str d, d_num d) Hd Hs Hin Hne) as (i & nd & nd' & Hi & Hi' & -> & H1 & H2).
  cbn [from_option]. destruct (part_at _ _ _ _ _ _ Hp Hi Hi') as (ns & Hns & [(l & h & E & Hol & Hoh) Ht _ Hnum]).
  destruct (Z.eqb_spec nd.2 (loaded v)) as [El | Hneq].
  - destruct Hl as [[Hl _] | (_ & _ & _ & _ & _ & _ & Et)]; [congruence |].
    apply (change_step df d v cs r remove s i nd nd' (vparts v)); try done. by rewrite El.
  - rewrite (store_spec B df d v cs (r + 1) I ltac:(lia)). cbn [mbind option_bind]. rewrite Hcan.
    unfold loadnpart. cbn [parts]. rewrite E. cbn [mbind option_bind].
    assert (Hlen : len (l :: ns ++ [h]) <= TB_LINES).
    { pose proof (Forall_lookup_1 _ _ _ _ Hr Hns) as Hroom. cbn beta in Hroom. rewrite len_cons, len_app. change (len [h]) with 1. lia. }
    rewrite (proj2 (Z.leb_le _ _)) by exact Hlen.
    by apply (change_step df d _ cs r remove s i nd nd' (vparts v)).
Qed.

(** Every name of the list. *)
Lemma ops_names fuel add del remove s : (remove, s) ∈ ops fuel add del -> s ∈ map fst add \/ s ∈ map fst del.
Proof.
  revert add del. induction fuel as [| fuel IH]; intros add del; cbn [ops]; [by intros ?%elem_of_nil |].
  assert (Hno : next_op add del = None -> (remove, s) ∈ match next_op add del with None => [] | Some (r, st, a, d) => (r, st) :: ops fuel a d end -> False).
  { intros ->. by intros ?%elem_of_nil. }
  destruct (next_op add del) as [[[[r st] a] d] |] eqn:E; [clear Hno | by intros H; destruct (Hno eq_refl H)].
  intros [[= -> ->] | H]%elem_of_cons.
  - destruct add as [| [x px] add], del as [| [y py] del]; cbn [next_op] in E; try discriminate E.
    + injection E as <- <- _ _. right. left.
    + injection E as <- <- _ _. left. left.
    + destruct (0 <=? cmp x y); injection E as <- <- _ _; [right; left | left; left].
  - apply IH in H. destruct add as [| [x px] add], del as [| [y py] del]; cbn [next_op] in E; try discriminate E.
    + injection E as _ _ <- <-. destruct H as [H | H]; [by apply elem_of_nil in H | right; by right].
    + injection E as _ _ <- <-. destruct H as [H | H]; [left; by right | by apply elem_of_nil in H].
    + destruct (0 <=? cmp x y); injection E as _ _ <- <-; (destruct H as [H | H]; [left | right]); first [done | by right].
Qed.

Lemma mod_loop_spec B can df d fuel :
  (forall p, can p = true) -> dir_ok (d_next d) -> d_next d <> [] ->
  forall add del v cs, (length add + length del < fuel)%nat -> inv df d v cs (len add + len del) ->
  Forall (name_ok (d_next d)) (map fst add ++ map fst del) ->
  exists v' cs', mod_loop B can fuel add del v = Some v' /\ inv df d v' cs' 0 /\
    bag (concat cs') = foldl apply_op (bag (concat cs)) (ops fuel add del).
Proof.
  intros Hcan Hd Hne. induction fuel as [| fuel IH]; intros add del v cs Hf I Hn; [lia |]. cbn [mod_loop ops].
  assert (Hgo : forall remove s add' del', next_op add del = Some (remove, s, add', del') ->
    name_ok (d_next d) s -> len add' + len del' + 1 = len add + len del -> Forall (name_ok (d_next d)) (map fst add' ++ map fst del') ->
    exists v' cs', (v ← mod_one B can remove s v; mod_loop B can fuel add' del' v) = Some v' /\ inv df d v' cs' 0 /\
      bag (concat cs') = foldl apply_op (bag (concat cs)) ((remove, s) :: ops fuel add' del')).
  { intros remove s add' del' _ Hok Hlen Hn'. rewrite <- Hlen in I.
    destruct (mod_one_spec B can df d v cs (len add' + len del') remove s Hcan Hd Hne I ltac:(len_pos; lia) Hok) as (v1 & cs1 & -> & I1 & E1).
    cbn [mbind option_bind foldl]. rewrite <- E1. apply IH; [| done | done]. unfold len in *. lia. }
  rewrite Forall_app in Hn. destruct Hn as [Hna Hnd].
  destruct add as [| [a pa] add], del as [| [x px] del].
  - exists v, cs. cbn [next_op foldl]. split_and!; [done | exact I | done].
  - apply Forall_cons in Hnd as [Hx Hnd]. cbn [next_op] in *. apply (Hgo true x [] del); [done | done | rewrite !len_cons, !len_nil; lia | done].
  - apply Forall_cons in Hna as [Ha Hna]. cbn [next_op] in *.
    apply (Hgo false a add []); [done | done | rewrite !len_cons, !len_nil; lia |]. by apply Forall_app.
  - cbn [next_op] in *. pose proof Hna as [Ha Hna']%Forall_cons. pose proof Hnd as [Hx Hnd']%Forall_cons. destruct (0 <=? cmp a x).
    + apply (Hgo true x ((a, pa) :: add) del); [done | done | rewrite !len_cons; lia | by apply Forall_app].
    + apply (Hgo false a add ((x, px) :: del)); [done | done | rewrite !len_cons; lia | by apply Forall_app].
Qed.

(** A data base of names: its files, by the nodes of its directory and the
    names of each part file. *)
Record names_ok (f : nfiles) (nodes : list node) (cs : list (list text)) : Prop := {
  names_file : exists str n, dirfile f = Some (stornmdir (mkDir str n nodes));
  names_dir : dir_ok nodes;
  names_plain : Forall plain_node nodes;
  names_parts : parts_ok (parts f) nodes cs;
}.

(** The lists as [modnames] uses them. *)
Definition prepared (B : list Z) (rempunct : bool) (add0 del0 : list node) : list node * list node :=
  if rempunct then (nlpunct B add0 false, nlpunct B del0 true) else (nlcopy add0, nlcopy del0).

(** A new data base is empty. *)
Definition new_nodes : list node := [(sortlow, 1); (sorthigh, 0)].
Lemma init_ok f : names_ok (initnmdir f) new_nodes [[]].
Proof.
  assert (Hc : Forall (fun nd : node => chars nd.1) new_nodes) by (repeat constructor; vm_compute; intuition congruence).
  constructor.
  - by exists [], 2.
  - constructor; [done | repeat constructor | apply (bool_decide_eq_true_1 _); by vm_compute].
  - repeat constructor; try by vm_compute.
    all: intros H; apply (bool_decide_eq_true_2 _) in H; by vm_compute in H.
  - split; [done |]. intros i nd nd' ns Hi Hi' Hns. destruct i as [| [| i]]; try discriminate Hi'. injection Hi as <-.
    injection Hi' as <-. injection Hns as <-. constructor; [| by repeat constructor | done | done].
    exists sortlow, sorthigh. split_and!; [apply lookup_insert_eq | |]; intros H; apply (bool_decide_eq_true_2 _) in H; by vm_compute in H.
Qed.

(** C13: [modnames] keeps the sorted part files as a multiset of names.  On a
    well-formed data base whose directory has a place for every name, and whose
    part files have room, it adds and removes exactly the names of the two
    lists, in the order it merges them (one copy at a time, removal of an absent
    name being no change), whatever part files they are in and whichever of them
    is in the buffer; every part file stays sorted within its boundaries. *)
Theorem modnames_changes B can f nodes cs add0 del0 rempunct add del :
  good_blanks B -> (forall p, can p = true) -> names_ok f nodes cs ->
  prepared B rempunct add0 del0 = (add, del) ->
  Forall (name_ok nodes) (map fst add ++ map fst del) ->
  Forall (fun ns => len ns + 2 + (len add + len del) <= TB_LINES - 10) cs ->
  exists f' cs', modnames B can true f add0 del0 rempunct = Some (1, f') /\ names_ok f' nodes cs' /\
    bag (concat cs') = foldl apply_op (bag (concat cs)) (ops (S (length add + length del)) add del).
Proof.
  intros HB Hcan [(str & n & Edf) Hd Hpl Hp] Epr Hn Hroom. unfold modnames. cbn [negb].
  destruct (load_store B f n str nodes HB Hd Hpl Edf) as [n' ->]. unfold prepared in Epr. rewrite Epr.
  assert (Hne : nodes <> []) by (destruct Hp as [Hl _]; by destruct nodes).
  assert (I0 : inv (dirfile f) (mkDir [] n' nodes) (mkVars f (mkDir [] n' nodes) (-1) false []) cs (len add + len del)).
  { constructor; try done. by left. }
  destruct (mod_loop_spec B can (dirfile f) (mkDir [] n' nodes) (S (length add + length del)) Hcan Hd Hne add del _ cs
    ltac:(lia) I0 Hn) as (v & cs' & -> & I & E).
  cbn [mbind option_bind]. rewrite (store_spec B _ _ v cs' 0 I ltac:(lia)). cbn [mbind option_bind d_str].
  eexists _, cs'. split_and!; [done | | exact E]. destruct I as [_ _ Hp' _ _].
  constructor; [by exists str, n | done | done | exact Hp'].
Qed.

(** The blank, the tab and the newline. *)
Lemma usual_blanks : good_blanks [32; 9; 10].
Proof.
  split; [done |]. unfold DIGIT, is_blank. intros c Hc. apply bool_decide_eq_false.
  rewrite !elem_of_cons, elem_of_nil. intros H. destruct Hc as [Hc | ->]; [| lia]. lia.
Qed.

Lemma modnames_changes_witness :
  let new := initnmdir (mkFiles None ∅) in
  exists f' cs', modnames [32; 9; 10] (fun _ => true) true new
      [(bytes "roth u1", 0); (bytes "abc u2", 0)] [(bytes "abc u2", 0)] false = Some (1, f') /\
    names_ok f' new_nodes cs' /\
    bag (concat cs') = foldl apply_op (bag (concat [[]]))
      [(true, bytes "abc u2"); (false, bytes "roth u1"); (false, bytes "abc u2")].
Proof.
  apply (modnames_changes [32; 9; 10] (fun _ => true) (initnmdir (mkFiles None ∅)) new_nodes [[]]
    [(bytes "roth u1", 0); (bytes "abc u2", 0)] [(bytes "abc u2", 0)] false
    [(bytes "roth u1", 0); (bytes "abc u2", 0)] [(bytes "abc u2", 0)]).
  - apply usual_blanks.
  - done.
  - apply init_ok.
  - reflexivity.
  - repeat constructor; cbn [head last new_nodes fst]; try (intros nd [= <-]); try by vm_compute.
    all: intros H; apply (bool_decide_eq_true_2 _) in H; by vm_compute in H.
  - constructor; [vm_compute; congruence | constructor].
Defined.

(** ** Part files that are full *)

Lemma split_mid_spec B lines middle mid i fuel :
  2 <= mid - i -> 0 < i -> mid + i + 2 < len lines -> 2 <= len lines / 2 -> len lines / 2 + 3 < len lines ->
  (Z.to_nat (len lines - mid - i) <= fuel)%nat ->
  exists r, split_mid B fuel lines middle mid i = Some r /\ 2 <= r /\ r + 3 < len lines.
Proof.
  intros H1 H2 H3 H4 H5. revert i H1 H2 H3. induction fuel as [| fuel IH]; intros i H1 H2 H3 Hf; [lia |].
  cbn [split_mid].
  destruct (zget_in lines (mid + i)) as [high ->]; [lia |]. cbn [mbind option_bind].
  destruct (negb _); [eexists; split; [done |]; lia |].
  destruct (zget_in lines (mid - i)) as [low ->]; [lia |]. cbn [mbind option_bind].
  destruct (negb _); [eexists; split; [done |]; lia |].
  destruct ((mid - i <? 3) || (len lines <=? mid + i + 3)) eqn:E; [eexists; split; [done |]; lia |].
  apply IH; lia.
Qed.

(** The boundary that [stornpart] puts after a name. *)
Definition boundary_of (B : list Z) (x : text) : text := first_word B x ++ [33].

(** A name of one word and more. *)
Definition worded (B : list Z) (x : text) : Prop := exists t, x = first_word B x ++ 32 :: t.

Lemma lexcmp_app key (w u v : text) : lexcmp key (w ++ u) (w ++ v) = lexcmp key u v.
Proof. induction w as [| c w IH]; [done |]. cbn [app lexcmp]. by rewrite Z.ltb_irrefl. Qed.

Lemma boundary_chars B x : chars x -> worded B x -> chars (boundary_of B x).
Proof.
  intros Hx [t E]. rewrite E in Hx. apply Forall_app in Hx as [Hx _]. apply Forall_app. split; [done |].
  constructor; [unfold is_char; lia | constructor].
Qed.

Lemma boundary_below B x : chars x -> worded B x -> cmp (boundary_of B x) x < 0.
Proof.
  intros Hx Hw. rewrite cmp_lex by (done || by apply boundary_chars). destruct Hw as [t E]. rewrite E at 2.
  unfold boundary_of. rewrite lexcmp_app. cbn [lexcmp].
  assert (H : collate_key init_rules 33 < collate_key init_rules 32) by (apply Z.ltb_lt; by vm_compute).
  rewrite (proj2 (Z.ltb_ge _ _)), (proj2 (Z.ltb_lt _ _)) by lia. lia.
Qed.

Lemma boundary_one_line B x : one_line x -> worded B x -> one_line (boundary_of B x).
Proof.
  intros Hx [t E] H. apply Hx. rewrite E. apply elem_of_app in H as [H | H]; [by apply elem_of_app; left |].
  by apply list_elem_of_singleton in H.
Qed.

(** A full part file is split after one of its names. *)
Lemma split_parts B f d p l h ns :
  Forall (worded B) ns -> tidy ns -> one_line l -> one_line h -> TB_LINES - 10 < len ns + 2 < TB_LINES ->
  exists u x v lines, ns = u ++ x :: v /\ v <> [] /\
    stornpart B f d p (l :: ns ++ [h]) =
      Some (stornp2 (stornp2 f p (l :: u ++ [x; boundary_of B x])) (d_num d) (boundary_of B x :: v ++ [h]),
            mkDir [49] (i16 (d_num d + 1)) (nladd (d_next d) (boundary_of B x) (d_num d)), lines).
Proof.
  intros Hw (Hc & Ho & _) Hl Hh Hn. unfold TB_LINES in Hn.
  assert (El : len (l :: ns ++ [h]) = len ns + 2) by (rewrite len_cons, len_app; change (len [h]) with 1; lia).
  unfold stornpart. rewrite El, (proj2 (Z.ltb_lt _ _)) by (unfold TB_LINES; lia).
  assert (Hmid : 3 <= (len ns + 2) / 2 /\ (len ns + 2) / 2 + 4 < len ns + 2).
  { pose proof (Z.div_mod (len ns + 2) 2 ltac:(lia)). pose proof (Z.mod_pos_bound (len ns + 2) 2 ltac:(lia)). lia. }
  destruct (zget_in (l :: ns ++ [h]) ((len ns + 2) / 2)) as [middle ->]; [lia |]. cbn [mbind option_bind].
  destruct (split_mid_spec B (l :: ns ++ [h]) (first_word B middle) ((len ns + 2) / 2) 1 (length (l :: ns ++ [h])))
    as (mid & -> & Hm1 & Hm2); [lia | lia | lia | rewrite El; lia | rewrite El; lia | unfold len in *; lia |].
  cbn [mbind option_bind]. rewrite El in Hm2.
  destruct (name_some l h ns Hc mid) as (x & Ex & Lx & Hcx); [lia |]. unfold name_at in Ex. rewrite Ex. cbn [mbind option_bind].
  assert (Eu : exists u v, ns = u ++ x :: v /\ len u = mid - 1 /\ v <> []).
  { exists (take (Z.to_nat (mid - 1)) ns), (drop (S (Z.to_nat (mid - 1))) ns). split_and!; [by rewrite take_drop_middle | |].
    - unfold len. rewrite length_take. unfold len in Hm2. lia.
    - intros E. apply (f_equal length) in E. rewrite length_drop in E. unfold len in Hm2. cbn [length] in E. lia. }
  destruct Eu as (u & v & -> & Hu & Hv). clear Ex Lx Hmid. fold (boundary_of B x).
  assert (Ell : l :: (u ++ x :: v) ++ [h] = (l :: u ++ [x]) ++ v ++ [h]) by (cbn [app]; by rewrite <- !app_assoc).
  assert (Em : Z.to_nat (mid + 1) = length (l :: u ++ [x])).
  { cbn [length]. rewrite length_app. unfold len in Hu. cbn [length]. lia. }
  unfold nameinsert. rewrite El, (proj2 (Z.leb_gt _ _)), (proj2 (Z.ltb_ge _ _)) by (unfold TB_LINES; lia).
  cbn [orb mbind option_bind]. rewrite Ell, Em, take_app_length, drop_app_length.
  eexists u, x, v, _. split_and!; [done | done |].
  replace (Z.to_nat (mid + 2)) with (length ((l :: u ++ [x]) ++ [boundary_of B x])) by (rewrite length_app, <- Em; cbn [length]; lia).
  rewrite drop_app_length, (app_cons_assoc (l :: u ++ [x]) (boundary_of B x) (v ++ [h])), take_app_length.
  cbn [app]. rewrite <- app_assoc. reflexivity.
Qed.

(** A node put between two neighbours. *)
Lemma nladd_between nodes nodes' nd nd' s p : 0 <= p < 2 ^ 15 ->
  Forall (fun y => 0 <= cmp s y.1) (nodes ++ [nd]) -> cmp s nd'.1 < 0 ->
  nladd (nodes ++ nd :: nd' :: nodes') s p = nodes ++ nd :: (s, p) :: nd' :: nodes'.
Proof.
  intros Hp Ha Hlt. rewrite app_cons_assoc. rewrite (app_cons_assoc nodes nd ((s, p) :: _)).
  induction Ha as [| y l Hy Hl IH]; cbn [app nladd].
  - by rewrite (proj2 (Z.ltb_lt _ _)), i16_small by lia.
  - by rewrite (proj2 (Z.ltb_ge _ _)), IH by lia.
Qed.

(** Which node is found, from the order of the nodes around it. *)
Lemma whatnm_at hdr nodes nd nd' nodes' s : Forall (fun y => 0 <= cmp s y.1) (nodes ++ [nd]) -> cmp s nd'.1 < 0 ->
  whatnm s hdr (nodes ++ nd :: nd' :: nodes') = Some nd.
Proof.
  intros Ha Hlt. rewrite app_cons_assoc. remember (nodes ++ [nd]) as l eqn:E. revert hdr nodes E.
  induction Ha as [| y l Hy Hl IH]; intros hdr nodes E; [by destruct nodes |].
  cbn [app whatnm]. rewrite (proj2 (Z.ltb_ge _ _)) by lia. destruct nodes as [| z nodes].
  - injection E as -> ->. cbn [app whatnm]. by rewrite (proj2 (Z.ltb_lt _ _)) by lia.
  - injection E as -> ->. by apply (IH z nodes).
Qed.

(** The names above the node before them are above all earlier nodes. *)
Lemma above_nodes nodes nd nd' nodes' s : dir_ok (nodes ++ nd :: nd' :: nodes') -> chars s -> le nd.1 s ->
  Forall (fun y => 0 <= cmp s y.1) (nodes ++ [nd]).
Proof.
  intros [Hc Hs _] Hcs Hle. apply Forall_forall. intros y Hy.
  assert (Hcy : chars y.1).
  { rewrite Forall_forall in Hc. apply Hc. apply elem_of_app in Hy as [Hy | Hy%list_elem_of_singleton]; [by apply elem_of_app; left |].
    subst y. apply elem_of_app. right. left. }
  rewrite cmp_antisym by done. assert (le y.1 s); [| unfold le in *; lia].
  apply elem_of_app in Hy as [Hy | ->%list_elem_of_singleton]; [| done].
  apply StronglySorted_app in Hs as (Hb & _). specialize (Hb y nd Hy ltac:(left)). unfold before in Hb.
  assert (Hcn : chars nd.1) by (apply Forall_app in Hc as [_ Hc]; by apply Forall_cons in Hc as [? _]).
  apply (le_trans y.1 nd.1 s); try done. unfold le. lia.
Qed.

(** C39: [stornpart] splits a full part file in two, between the same boundaries,
    and no name is lost: the first file keeps the names up to some name [x], the
    new one gets the rest, and the directory gets a node for it in order.  The
    boundary is the first word of [x] with "!", which collates below the blank
    that follows the word: so [x] itself is on the wrong side, in the first file,
    while the directory sends every later request for it to the new one. *)
Theorem stornpart_split B f str num nodes nd nd' nodes' l h ns hdr :
  dir_ok (nodes ++ nd :: nd' :: nodes') -> 0 <= num < 2 ^ 15 ->
  Forall (worded B) ns -> tidy ns -> one_line l -> one_line h ->
  TB_LINES - 10 < len ns + 2 < TB_LINES ->
  Forall (fun n => le nd.1 n /\ cmp n nd'.1 < 0) ns -> Forall (fun n => le nd.1 (boundary_of B n)) ns ->
  exists u x v f' d' lines, let b := boundary_of B x in
    stornpart B f (mkDir str num (nodes ++ nd :: nd' :: nodes')) nd.2 (l :: ns ++ [h]) = Some (f', d', lines) /\
    ns = u ++ x :: v /\ v <> [] /\
    parts f' = <[num := b :: v ++ [h]]> (<[nd.2 := l :: u ++ [x; b]]> (parts f)) /\
    d_str d' <> [] /\ d_next d' = nodes ++ nd :: (b, num) :: nd' :: nodes' /\
    Forall (fun n => whatnm n hdr (d_next d') = Some (b, num)) (x :: v).
Proof.
  intros Hd Hnum Hw Ht Hl Hh Hn Hr Hb. pose proof Ht as (Hc & Ho & Hs).
  destruct (split_parts B f (mkDir str num (nodes ++ nd :: nd' :: nodes')) nd.2 l h ns Hw Ht Hl Hh Hn) as (u & x & v & lines & -> & Hv & ->).
  cbn [d_num d_next].
  assert (Hx : chars x /\ one_line x /\ worded B x /\ le nd.1 (boundary_of B x) /\ cmp x nd'.1 < 0).
  { rewrite Forall_forall in Hc, Ho, Hw, Hb, Hr. assert (Hin : x ∈ u ++ x :: v) by (apply elem_of_app; right; left).
    split_and!; [by apply Hc | by apply Ho | by apply Hw | by apply Hb | by apply Hr]. }
  destruct Hx as (Hcx & Hox & Hwx & Hbx & Hx').
  assert (Hcb := boundary_chars B x Hcx Hwx). assert (Hob := boundary_one_line B x Hox Hwx).
  assert (Hlt := boundary_below B x Hcx Hwx).
  assert (Hcn : chars nd'.1).
  { destruct Hd as [Hdc _ _]. apply Forall_app in Hdc as [_ Hdc]. apply Forall_cons in Hdc as [_ Hdc].
    by apply Forall_cons in Hdc as [? _]. }
  assert (Eadd : nladd (nodes ++ nd :: nd' :: nodes') (boundary_of B x) num = nodes ++ nd :: (boundary_of B x, num) :: nd' :: nodes').
  { apply nladd_between; [done | by apply (above_nodes nodes nd nd' nodes') |]. apply (lt_le_trans _ x); try done. unfold le. lia. }
  apply Forall_app in Ho as [Hou Hov]. apply Forall_cons in Hov as [_ Hov].
  eexists u, x, v, _, _, lines. cbv zeta. split_and!; [reflexivity | done | done | | done | exact Eadd |].
  - unfold stornp2. cbn [parts]. f_equal; [| f_equal]; apply written_id.
    + constructor; [done |]. apply Forall_app. by split; [| constructor].
    + constructor; [done |]. apply Forall_app. split; [done |]. by repeat constructor.
  - cbn [d_next]. rewrite Eadd, app_cons_assoc. apply Forall_forall. intros n Hin.
    rewrite Forall_app in Hc, Hr. destruct Hc as [_ Hc], Hr as [_ Hr]. rewrite Forall_forall in Hc, Hr.
    apply StronglySorted_app in Hs as (_ & _ & Hs). apply StronglySorted_inv in Hs as [_ Hs]. rewrite Forall_forall in Hs.
    assert (Hxn : le x n).
    { apply elem_of_cons in Hin as [-> | Hin]; [unfold le; by rewrite (proj2 (cmp_eq x x Hcx Hcx)) | by apply Hs]. }
    destruct (Hr n Hin) as [Hn1 Hn2]. specialize (Hc n Hin).
    apply whatnm_at; [| done]. apply Forall_app. split; [by apply (above_nodes nodes nd nd' nodes') |].
    constructor; [| constructor]. cbn [fst]. rewrite cmp_antisym by done.
    assert (cmp (boundary_of B x) n < 0); [| lia]. by apply (lt_le_trans _ x).
Qed.

Lemma sorted_replicate k x : chars x -> StronglySorted le (replicate k x).
Proof.
  intros Hx. induction k as [| k IH]; [constructor |]. cbn [replicate]. constructor; [done |].
  apply Forall_replicate. unfold le. by rewrite (proj2 (cmp_eq x x Hx Hx)).
Qed.

Lemma stornpart_split_witness :
  let B := [32; 9; 10] in
  let ns := replicate 244 (bytes "abc u1") ++ replicate 245 (bytes "roth u2") in
  exists u x v f' d' lines, let b := boundary_of B x in
    stornpart B (mkFiles None ∅) (mkDir [] 2 new_nodes) 1 (sortlow :: ns ++ [sorthigh]) = Some (f', d', lines) /\
    ns = u ++ x :: v /\ v <> [] /\
    parts f' = <[2 := b :: v ++ [sorthigh]]> (<[1 := sortlow :: u ++ [x; b]]> ∅) /\
    d_str d' <> [] /\ d_next d' = [(sortlow, 1); (b, 2); (sorthigh, 0)] /\
    Forall (fun n => whatnm n ([], 0) (d_next d') = Some (b, 2)) (x :: v).
Proof.
  pose proof (names_dir _ _ _ (init_ok (mkFiles None ∅))) as Hd.
  apply (stornpart_split [32; 9; 10] (mkFiles None ∅) [] 2 [] (sortlow, 1) (sorthigh, 0) []); [exact Hd | lia | ..].
  - apply Forall_app. split; apply Forall_replicate; by eexists.
  - assert (Ha : chars (bytes "abc u1")) by (apply (bool_decide_eq_true_1 _); by vm_compute).
    assert (Hr : chars (bytes "roth u2")) by (apply (bool_decide_eq_true_1 _); by vm_compute).
    split_and!; [apply Forall_app; by split; apply Forall_replicate | |].
    + apply Forall_app. split; apply Forall_replicate; apply (bool_decide_eq_true_1 _); by vm_compute.
    + apply StronglySorted_app. split_and!; [| by apply sorted_replicate | by apply sorted_replicate].
      intros x y [-> _]%elem_of_replicate [-> _]%elem_of_replicate. by vm_compute.
  - apply (bool_decide_eq_true_1 _). by vm_compute.
  - apply (bool_decide_eq_true_1 _). by vm_compute.
  - rewrite len_app. unfold len. rewrite !length_replicate. vm_compute. by split.
  - apply Forall_app. split; apply Forall_replicate; split; by vm_compute.
  - apply Forall_app. split; apply Forall_replicate; by vm_compute.
Defined.

(** Names that are added one at a time until the file is split: the one at the
    boundary can not be removed any more. *)
Definition add_names (f : nfiles) (l : list text) : option nfiles :=
  foldl (fun r n => f ← r; '(_, f) ← modnames [32; 9; 10] (fun _ => true) true f [(n, 0)] [] false; Some f) (Some f) l.

Example split_name_stays :
  (f ← add_names (initnmdir (mkFiles None ∅)) (map (fun i => bytes "n" ++ show (1000 + Z.of_nat i) ++ bytes " x") (seq 0 489));
   '(_, f) ← modnames [32; 9; 10] (fun _ => true) true f [] [(bytes "n1244 x", 0); (bytes "n1245 x", 0)] false;
   lines ← parts f !! 1; lines' ← parts f !! 2;
   Some (drop 244 lines, take 2 lines')) =
  Some ([bytes "n1243 x"; bytes "n1244 x"; bytes "n1244!"], [bytes "n1244!"; bytes "n1246 x"]).
Proof. by vm_compute. Qed.
