(* ===== verification/NameSearch.v ===== *)
(** Searching the files of names (src/CV2/people: matchnl.c, matchnam.c,
    nlrdup.c, nlsize.c): the names that begin with a string, and the entries that
    match each of several words.  The user does not cancel a search, and memory
    does not run out. *)
From Stdlib Require Import Sorted.
From stdpp Require Import gmap gmultiset sorting.
From S2P Require Import Prelude Memory Chix ChixCore ChixEdit ChixSearch ChixParse Vartab Str Numbers Html FileLines NameFiles.

(** ** The matches of a string *)

(** [chxcompare (line, str, chxlen (str))]. *)
Definition begins (str line : text) : Z := compare_result init_rules line str (len str).

(** The node that [whatnm] returns, with the nodes after it. *)
Fixpoint whatnm_list (str : text) (nmdir : node) (next : list node) : list node :=
  match next with
  | [] => []
  | nd :: next' => if cmp str nd.1 <? 0 then nmdir :: next else whatnm_list str nd next'
  end.

(** "Backup over possible matches before MD." *)
Fixpoint backup (fuel : nat) (lines : list text) (str : text) (md : Z) : option Z :=
  match fuel with
  | O => None
  | S fuel' =>
      if 1 <? md then
        line ← zget lines (md - 1);
        if begins str line =? 0 then backup fuel' lines str (md - 1) else Some md
      else Some md
  end.

(** "Now go forward and pick up all matches." *)
Fixpoint pick_up (fuel : nat) (lines : list text) (str : text) (md : Z) (l : list node) : option (Z * list node) :=
  match fuel with
  | O => None
  | S fuel' =>
      if md <? len lines - 1 then
        line ← zget lines md;
        if begins str line =? 0 then pick_up fuel' lines str (md + 1) (nladd l line 0) else Some (md, l)
      else Some (md, l)
  end.

(** What is kept between calls: the part file that is loaded, and the buffer. *)
Record loaded_t := mkLoaded { ld_part : Z; ld_lines : list text }.

Section matchnl.
Context (can : Z -> bool) (f : nfiles).

Fixpoint matchnl_loop (nodes : list node) (str : text) (l : list node) (ld : loaded_t) : option (Z * list node * loaded_t) :=
  match nodes with
  | [] => Some (1, l, ld)
  | (_, part) :: next =>
      if part =? 0 then Some (1, l, ld) else
      let search ld :=
        let lines := ld_lines ld in
        '(md, _) ← bsearch (begins str) (S (length lines)) lines 0 (len lines - 1) 0 1;
        md ← backup (S (length lines)) lines str md;
        '(md, l) ← pick_up (S (length lines)) lines str md l;
        if md <? len lines - 1 then Some (1, l, ld) else matchnl_loop next str l ld in
      if part =? ld_part ld then search ld
      else if can part then
        match loadnpart f part with
        | None => Some (0, l, ld)
        | Some None => None
        | Some (Some lines) => search (mkLoaded part lines)
        end
      else Some (0, l, ld)
  end.

Definition matchnl (l : list node) (str : text) (d : namdir_t) (first_call : bool) (ld : loaded_t)
    : option (Z * list node * loaded_t) :=
  matchnl_loop (whatnm_list str (d_str d, d_num d) (d_next d)) str l
    (if first_call then mkLoaded (-1) (ld_lines ld) else ld).
End matchnl.

(** ** Lists of matches *)

Section words.
Context (B : list Z).

(** The inner loop of [nlrdup]: the nodes after [q].  After a removal [q] steps
    on to the node that followed the removed one. *)
Fixpoint rdup_after (n : Z) (sp : text) (l : list node) : list node :=
  match l with
  | [] => []
  | r :: l' =>
      if bool_decide (word B n r.1 = sp) then
        match l' with [] => [] | q :: l'' => q :: rdup_after n sp l'' end
      else r :: rdup_after n sp l'
  end.

Fixpoint rdup_loop (fuel : nat) (n : Z) (l : list node) : list node :=
  match fuel, l with
  | S fuel', q :: l' => q :: rdup_loop fuel' n (rdup_after n (word B n q.1) l')
  | _, _ => l
  end.
Definition nlrdup (l : list node) (n : Z) : list node := rdup_loop (length l) n l.

Definition nlsize (l : list node) : Z := i16 (len l).

(** "intersect MATS and MRES according to their value strings". *)
Definition nl_and (mats mres : list node) : list node :=
  foldl (fun mtmp a => if bool_decide (Exists (fun b => word B 2 b.1 = word B 2 a.1) mres) then nladd mtmp a.1 0 else mtmp) [] mats.

Definition nl_or (mats mres : list node) : list node :=
  nlrdup (foldl (fun mats b => nladd mats b.1 0) mats mres) 2.

(** ** [matchnames] *)

Section files.
Context (can : Z -> bool) (f : nfiles) (d : namdir_t).

(** The loop over the words. *)
Fixpoint match_words (names : list node) (conj rempunct first : bool) (mats : list node) (ld : loaded_t) : option (list node) :=
  match names with
  | [] => Some mats
  | (str, _) :: names' =>
      '(ok, mres, ld) ← matchnl can f [] str d first ld;
      if ok =? 0 then match_words names' conj rempunct first mats ld else
      let nop := if rempunct then chxpunct str else str in
      if bool_decide (nop = []) && conj then match_words names' conj rempunct first mats ld else
      '(ok, mres, ld) ←
        if negb (bool_decide (nop = str)) && negb (bool_decide (nop = [])) then matchnl can f mres nop d false ld
        else Some (1, mres, ld);
      if ok =? 0 then match_words names' conj rempunct first mats ld else
      if conj && (nlsize mres =? 0) then Some [] else
      let mres := if conj then nlrdup mres 2 else mres in
      let mats := if first then mres else if conj then nl_and mats mres else nl_or mats mres in
      match_words names' conj rempunct false mats ld
  end.
End files.

Definition matchnames (can : Z -> bool) (can_dir : bool) (f : nfiles) (names : list node) (conj rempunct : bool) (ld : loaded_t)
    : option (Z * list node) :=
  if negb can_dir then Some (0, []) else
  match loadnmdir B f with
  | None => Some (0, [])
  | Some d => l ← match_words can f d names conj rempunct true [] ld; Some (1, l)
  end.
End words.

(** ** Prefixes and the order *)

(** Strings that can be searched for: the end of a line collates as "!". *)
Definition searchable (str : text) : Prop := chars str /\ 33 ∉ str.

Lemma key_pos c : is_char c -> c <> 33 -> 0 < collate_key init_rules c.
Proof.
  unfold is_char. intros Hc H. unfold collate_key, collate_result. cbn [Z.eqb]. change (APPLY_CT =? APPLY_CT) with true.
  change ((APPLY_CT =? CLEAR_CT) || (APPLY_CT =? ADDRULE_CT)) with false. cbn iota. rewrite init_rules_apply.
  unfold LASTVALUE. destruct (c =? 0) eqn:?, (c =? 33) eqn:?, (c =? 126) eqn:?; lia.
Qed.

(** The comparison at the beginning is the order of the beginnings. *)
Lemma begins_lex str x : searchable str -> chars x ->
  begins str x = lexcmp (collate_key init_rules) (take (length str) x) str.
Proof.
  assert (HA : forall l : text, (len l =? ALLCHARS) = false).
  { intros l. apply Z.eqb_neq. unfold ALLCHARS. len_pos. lia. }
  intros [Hs H33] Hx. revert str Hs H33. induction Hx as [| c x Hc Hx IH]; intros str Hs H33.
  - destruct Hs as [| y str Hy Hs]; [done |]. apply not_elem_of_cons in H33 as [H33 _].
    unfold begins, compare_result. cbn [lcp take length lexcmp]. rewrite HA, len_cons.
    rewrite (proj2 (Z.leb_gt _ _)) by (len_pos; lia). rewrite andb_false_r. change (cval (y :: str) 0) with y.
    change (cval [] 0) with 0. change (0 =? 0) with true. rewrite (proj2 (Z.eqb_neq y 0)) by (unfold is_char in Hy; lia).
    cbn [andb].
    fold (collate_key init_rules 0) (collate_key init_rules y). change (collate_key init_rules 0) with 0.
    assert (0 < collate_key init_rules y) by (by apply key_pos; congruence).
    by rewrite (proj2 (Z.ltb_ge _ _)), (proj2 (Z.ltb_lt _ _)) by lia.
  - destruct Hs as [| y str Hy Hs].
    { unfold begins, compare_result. change (len []) with 0. cbn [take length lexcmp].
      rewrite (proj2 (Z.leb_le _ _)) by (apply lcp_bounds). done. }
    apply not_elem_of_cons in H33 as [H33 H33']. cbn [take length lexcmp]. specialize (IH str Hs H33').
    unfold begins, compare_result in *. cbn [lcp].
    rewrite HA in *. cbn [negb andb] in *. destruct (Z.eqb_spec c y) as [-> | Hne].
    + destruct (lcp_bounds x str) as [Hl _]. rewrite Z.ltb_irrefl, <- IH, !cval_cons, len_cons by done.
      replace (len str + 1 <=? lcp x str + 1) with (len str <=? lcp x str); [done |].
      by apply eq_bool_prop_intro; rewrite !Is_true_true, !Z.leb_le; lia.
    + rewrite len_cons, (proj2 (Z.leb_gt _ _)) by (len_pos; lia). change (cval (c :: x) 0) with c.
      change (cval (y :: str) 0) with y. unfold is_char in *. rewrite (proj2 (Z.eqb_neq c 0)) by lia. cbn [andb].
      fold (collate_key init_rules c) (collate_key init_rules y).
      destruct (collate_key init_rules y <? collate_key init_rules c) eqn:E1; [done |].
      destruct (collate_key init_rules c <? collate_key init_rules y) eqn:E2; [done |].
      exfalso. apply Hne, init_key_inj; unfold is_char; lia.
Qed.

Lemma lexcmp_take key n (x y : text) : lexcmp key x y <= 0 -> lexcmp key (take n x) (take n y) <= 0.
Proof.
  revert x y. induction n as [| n IH]; intros x y H; [by rewrite !take_0 |].
  destruct x as [| a x], y as [| b y]; cbn [take lexcmp] in *; try lia.
  destruct (_ <? _); [lia |]. destruct (_ <? _); [lia |]. by apply IH.
Qed.

(** [begins] follows the order, in both directions. *)
Lemma begins_mono str x y : searchable str -> chars x -> chars y -> le x y ->
  (begins str y < 0 -> begins str x < 0) /\ (0 < begins str x -> 0 < begins str y).
Proof.
  intros Hs Hx Hy Hle. unfold le in Hle. rewrite cmp_lex in Hle by done.
  apply (lexcmp_take _ (length str)) in Hle. rewrite !begins_lex by done.
  set (k := collate_key init_rules) in *. set (x' := take _ x) in *. set (y' := take _ y) in *.
  assert (Hinj : forall u : text, chars u -> forall a b, a ∈ u -> b ∈ str -> k a = k b -> a = b).
  { destruct Hs as [Hs _]. intros u Hu a b Ha Hb. unfold chars in *. rewrite Forall_forall in Hu, Hs. apply init_key_inj; auto. }
  assert (Hx' : chars x') by (by apply Forall_take). assert (Hy' : chars y') by (by apply Forall_take).
  split; intros H.
  - assert (H1 : lexcmp k x' str <= 0) by (apply (lexcmp_trans k x' y' str); lia).
    destruct (decide (lexcmp k x' str = 0)) as [E | E]; [| lia].
    apply lexcmp_eq in E; [| by apply Hinj]. rewrite E, lexcmp_antisym in Hle. lia.
  - rewrite lexcmp_antisym in H |- *. assert (H1 : lexcmp k str y' <= 0) by (apply (lexcmp_trans k str x' y'); lia).
    destruct (decide (lexcmp k str y' = 0)) as [E | E]; [| lia]. rewrite lexcmp_antisym in E.
    assert (E' : lexcmp k y' str = 0) by lia. apply lexcmp_eq in E'; [| by apply Hinj]. rewrite E' in Hle.
    rewrite lexcmp_antisym in Hle. lia.
Qed.

(** A match is a line that has the string as its beginning. *)
Lemma begins_prefix str x : searchable str -> chars x -> begins str x = 0 <-> str `prefix_of` x.
Proof.
  intros Hs Hx. rewrite begins_lex by done. destruct Hs as [Hs H33].
  rewrite lexcmp_eq.
  - split; intros H; [exists (drop (length str) x); by rewrite <- H at 1; rewrite take_drop |].
    destruct H as [t ->]. by rewrite take_app_length.
  - intros a b Ha Hb. assert (Hx' : chars (take (length str) x)) by (by apply Forall_take).
    unfold chars in *. rewrite Forall_forall in Hx', Hs. apply init_key_inj; auto.
Qed.

(** ** The matches in one part file *)

Section part.
Context (l0 h : text) (str : text) (Hstr : searchable str).


(** The names below, the matches, and the names above. *)
Lemma three_ways ns : Forall chars ns -> StronglySorted le ns -> exists u m v, ns = u ++ m ++ v /\
  Forall (fun x => begins str x < 0) u /\ Forall (fun x => begins str x = 0) m /\ Forall (fun x => 0 < begins str x) v.
Proof using Hstr.
  intros Hc Hs. induction Hs as [| x ns Hs IH Hx]; [by exists [], [], [] |].
  apply Forall_cons in Hc as [Hcx Hc]. destruct (IH Hc) as (u & m & v & -> & Hu & Hm & Hv).
  rewrite Forall_forall in Hx, Hc.
  assert (Hmono : forall y, y ∈ u ++ m ++ v -> (begins str y < 0 -> begins str x < 0) /\ (0 < begins str x -> 0 < begins str y)).
  { intros y Hy. apply begins_mono; auto. }
  destruct (Z.lt_trichotomy (begins str x) 0) as [H | [H | H]].
  - exists (x :: u), m, v. split_and!; [done | by constructor | done | done].
  - destruct u as [| y u]; [by exists [], (x :: m), v; split_and!; [| | constructor |] |].
    apply Forall_cons in Hu as [Hy _]. destruct (Hmono y ltac:(left)) as [H1 _]. lia.
  - destruct u as [| y u]; [| apply Forall_cons in Hu as [Hy _]; destruct (Hmono y ltac:(left)); lia].
    destruct m as [| y m]; [by exists [], [], (x :: v); split_and!; [| | | constructor] |].
    apply Forall_cons in Hm as [Hy _]. destruct (Hmono y ltac:(left)); lia.
Qed.

Context (u m v : list text).
Context (Hu : Forall (fun x => begins str x < 0) u) (Hm : Forall (fun x => begins str x = 0) m)
        (Hv : Forall (fun x => 0 < begins str x) v).
Let lines := l0 :: (u ++ m ++ v) ++ [h].

Lemma line_u k : 1 <= k <= len u -> exists x, zget lines k = Some x /\ begins str x < 0.
Proof using Hu.
  intros Hk. destruct (lookup_lt_is_Some_2 u (Z.to_nat (k - 1))) as [x Hx]; [unfold len in Hk; lia |].
  exists x. split; [| by apply (Forall_lookup_1 _ _ _ _ Hu Hx)].
  apply (name_lookup l0 h (u ++ m ++ v)); [rewrite len_app; len_pos; lia |]. by apply lookup_app_l_Some.
Qed.

Lemma line_m k : len u < k <= len u + len m -> exists x, zget lines k = Some x /\ m !! Z.to_nat (k - len u - 1) = Some x /\ begins str x = 0.
Proof using Hm.
  intros Hk. destruct (lookup_lt_is_Some_2 m (Z.to_nat (k - len u - 1))) as [x Hx]; [unfold len in *; lia |].
  exists x. split_and!; [| done | by apply (Forall_lookup_1 _ _ _ _ Hm Hx)].
  apply (name_lookup l0 h (u ++ m ++ v)); [rewrite !len_app; len_pos; lia |]. rewrite lookup_app_r by (unfold len in *; lia).
  apply lookup_app_l_Some. rewrite <- Hx. f_equal. unfold len in *. lia.
Qed.

Lemma line_v k : len u + len m < k <= len u + len m + len v -> exists x, zget lines k = Some x /\ 0 < begins str x.
Proof using Hv.
  intros Hk. destruct (lookup_lt_is_Some_2 v (Z.to_nat (k - len u - len m - 1))) as [x Hx]; [unfold len in *; lia |].
  exists x. split; [| by apply (Forall_lookup_1 _ _ _ _ Hv Hx)].
  apply (name_lookup l0 h (u ++ m ++ v)); [rewrite !len_app; len_pos; lia |]. rewrite !lookup_app_r by (unfold len in *; lia).
  rewrite <- Hx. f_equal. unfold len in *. lia.
Qed.

(** No name but those of [m] is a match. *)
Lemma other_line k : 1 <= k <= len u + len m + len v -> ~ (len u < k <= len u + len m) ->
  exists x, zget lines k = Some x /\ begins str x <> 0.
Proof using Hu Hv.
  intros Hk Hno. destruct (decide (k <= len u)).
  - destruct (line_u k) as (x & -> & Hx); [lia |]. exists x. split; [done | lia].
  - destruct (line_v k) as (x & -> & Hx); [lia |]. exists x. split; [done | lia].
Qed.

Lemma backup_spec fuel md : len u < md <= len u + len m -> (Z.to_nat md <= fuel)%nat ->
  backup fuel lines str md = Some (len u + 1).
Proof using Hu Hm.
  revert md. induction fuel as [| fuel IH]; intros md Hmd Hf; [len_pos; lia |]. cbn [backup].
  pose proof (len_nonneg u). destruct (Z.ltb_spec 1 md) as [H1 | H1]; [| f_equal; lia].
  destruct (decide (len u < md - 1)).
  - destruct (line_m (md - 1)) as (x & -> & _ & E); [lia |]. cbn [mbind option_bind]. rewrite E. cbn [Z.eqb]. apply IH; lia.
  - destruct (line_u (md - 1)) as (x & -> & E); [lia |]. cbn [mbind option_bind].
    rewrite (proj2 (Z.eqb_neq _ _)) by lia. f_equal. lia.
Qed.

Lemma pick_up_spec fuel k l : (k <= length m)%nat -> (length m < fuel + k)%nat ->
  pick_up fuel lines str (len u + Z.of_nat k + 1) l =
    Some (len u + len m + 1, foldl (fun l x => nladd l x 0) l (drop k m)).
Proof using Hu Hm Hv.
  assert (El : len lines - 1 = len u + len m + len v + 1).
  { subst lines. rewrite len_cons, !len_app. change (len [h]) with 1. lia. }
  revert k l. induction fuel as [| fuel IH]; intros k l Hk Hf; [lia |]. cbn [pick_up]. rewrite El.
  destruct (decide (k = length m)) as [-> | Hne].
  - rewrite drop_all. cbn [foldl]. fold (len m). destruct (Z.ltb_spec (len u + len m + 1) (len u + len m + len v + 1)); [| done].
    destruct (line_v (len u + len m + 1)) as (x & -> & E); [lia |]. cbn [mbind option_bind].
    by rewrite (proj2 (Z.eqb_neq _ _)) by lia.
  - rewrite (proj2 (Z.ltb_lt _ _)) by (pose proof (len_nonneg v); unfold len in *; lia).
    destruct (line_m (len u + Z.of_nat k + 1)) as (x & -> & Hx & E); [unfold len; lia |]. cbn [mbind option_bind].
    rewrite E. cbn [Z.eqb]. replace (Z.to_nat (len u + Z.of_nat k + 1 - len u - 1)) with k in Hx by lia.
    rewrite (drop_S _ _ _ Hx). cbn [foldl]. rewrite <- IH by lia. f_equal. lia.
Qed.

(** The search of a part file that is not empty. *)
Lemma search_part l :
  Forall chars (u ++ m ++ v) -> StronglySorted le (u ++ m ++ v) -> u ++ m ++ v <> [] ->
  exists md r md', bsearch (begins str) (S (length lines)) lines 0 (len lines - 1) 0 1 = Some (md, r) /\
    backup (S (length lines)) lines str md = Some md' /\
    exists md'', pick_up (S (length lines)) lines str md' l = Some (md'', foldl (fun l x => nladd l x 0) l m) /\
      ((md'' <? len lines - 1) = false <-> m <> [] /\ v = []).
Proof using Hu Hm Hv Hstr.
  intros Hc Hs Hne.
  assert (El : len lines - 1 = len u + len m + len v + 1).
  { subst lines. rewrite len_cons, !len_app. change (len [h]) with 1. lia. }
  destruct (search_spec l0 h (u ++ m ++ v) (begins str) Hc Hs) with (md0 := 0) as (md & r & E & H & Hmd).
  { intros x y Hx Hy Hle. by apply begins_mono. }
  { intros x y Hx Hy Hle. by apply begins_mono. }
  { by right. }
  fold lines in E. specialize (Hmd Hne). rewrite !len_app in Hmd. exists md, r. destruct (decide (m = [])) as [Em | Hm0].
  - assert (Em' : len m = 0) by (by rewrite Em). exists md. split_and!; [exact E | |].
    { cbn [backup]. destruct (Z.ltb_spec 1 md); [| done]. destruct (other_line (md - 1)) as (x & -> & Hx); [lia | lia |].
      cbn [mbind option_bind]. by rewrite (proj2 (Z.eqb_neq _ _)) by lia. }
    exists md. destruct (other_line md) as (x & Ex & Hx); [lia | lia |].
    cbn [pick_up]. rewrite El, (proj2 (Z.ltb_lt _ _)) by lia. rewrite Ex. cbn [mbind option_bind].
    rewrite (proj2 (Z.eqb_neq _ _)) by lia. split; [by rewrite Em | split; [done | by intros [? _]]].
  - assert (Hmd' : len u < md <= len u + len m).
    { pose proof (len_nonneg u). assert (Hl : 0 < len m) by (destruct m; [done | rewrite len_cons; len_pos; lia]).
      destruct (line_m (len u + 1)) as (y & Ey & _ & Hy); [lia |].
      unfold searched in H. destruct (Z.eqb_spec r 0) as [-> | Hr].
      - destruct H as (_ & x & Ex & Hx). destruct (decide (len u < md <= len u + len m)) as [? | Hn]; [done |].
        destruct (other_line md) as (x' & Ex' & Hx'); [lia | exact Hn |]. unfold name_at in Ex. fold lines in Ex. congruence.
      - cbv zeta in H. set (q := if r <? 0 then md + 1 else md) in *. destruct H as (Hq & Hb & Ha).
        destruct (decide (len u + 1 <= q - 1)).
        + specialize (Hb (len u + 1) y ltac:(lia) Ey). lia.
        + specialize (Ha (len u + 1) y ltac:(rewrite !len_app; pose proof (len_nonneg v); lia) Ey). lia. }
    exists (len u + 1). split_and!; [exact E | apply backup_spec; [done |] |].
    { unfold len in Hmd'. subst lines. cbn [length]. rewrite !length_app. lia. }
    exists (len u + len m + 1). split.
    + rewrite <- (Z.add_0_r (len u)) at 1. change 0 with (Z.of_nat 0). rewrite pick_up_spec; [done | lia |].
      subst lines. cbn [length]. rewrite !length_app. lia.
    + rewrite El, Z.ltb_ge. pose proof (len_nonneg v). split; [intros Hle; split; [done |] | intros [_ ->]; change (len []) with 0; lia].
      destruct v; [done |]. rewrite len_cons in Hle. len_pos. lia.
Qed.
End part.

(** ** The search across part files *)

Section search.
Context (str : text) (Hstr : searchable str).

Definition found (ns : list text) : list text := filter (fun x => str `prefix_of` x) ns.

Lemma found_app a b : found (a ++ b) = found a ++ found b.
Proof using Type. apply filter_app. Qed.

Lemma found_none ns : Forall chars ns -> Forall (fun x => begins str x <> 0) ns -> found ns = [].
Proof using Hstr.
  intros Hc Hn. induction Hc as [| x ns Hx Hc IH]; [done |]. apply Forall_cons in Hn as [Hn Hns].
  unfold found. rewrite filter_cons_False; [by apply IH |]. intros H. apply Hn. by apply begins_prefix.
Qed.

Lemma found_all ns : Forall chars ns -> Forall (fun x => begins str x = 0) ns -> found ns = ns.
Proof using Hstr.
  intros Hc Hn. induction Hc as [| x ns Hx Hc IH]; [done |]. apply Forall_cons in Hn as [Hn Hns].
  unfold found. rewrite filter_cons_True; [f_equal; by apply IH |]. by apply begins_prefix.
Qed.

Lemma found_middle u m v : Forall chars (u ++ m ++ v) ->
  Forall (fun x => begins str x < 0) u -> Forall (fun x => begins str x = 0) m -> Forall (fun x => 0 < begins str x) v ->
  found (u ++ m ++ v) = m.
Proof using Hstr.
  intros Hc Hu Hm Hv. apply Forall_app in Hc as [Hcu Hc]. apply Forall_app in Hc as [Hcm Hcv].
  rewrite !found_app, (found_none u), (found_all m), (found_none v); try done; [by rewrite app_nil_r | |].
  - eapply Forall_impl; [exact Hv |]. cbn beta. intros. lia.
  - eapply Forall_impl; [exact Hu |]. cbn beta. intros. lia.
Qed.

Lemma lexcmp_take_lt key (y s : text) : lexcmp key (take (length s) y) s < 0 -> lexcmp key y s < 0.
Proof using Type.
  revert y. induction s as [| b s IH]; intros [| a y]; cbn [take length lexcmp]; try lia.
  destruct (_ <? _); [lia |]. destruct (_ <? _); [lia |]. apply IH.
Qed.

(** A boundary above the string does not compare below it. *)
Lemma above_begins y : chars y -> cmp str y < 0 -> 0 <= begins str y.
Proof using Hstr.
  intros Hy Hlt. destruct Hstr as [Hs _]. rewrite cmp_antisym, cmp_lex in Hlt by done. rewrite begins_lex by done.
  destruct (Z.le_gt_cases 0 (lexcmp (collate_key init_rules) (take (length str) y) str)) as [? | H]; [done |].
  apply lexcmp_take_lt in H. lia.
Qed.

Lemma prefix_le x : chars x -> str `prefix_of` x -> le str x.
Proof using Hstr.
  destruct Hstr as [Hs _]. intros Hx [t ->]. unfold le. rewrite cmp_lex by done. rewrite <- (app_nil_r str) at 1.
  rewrite lexcmp_app. destruct t; cbn [lexcmp]; lia.
Qed.

(** All names after a node are above it. *)
Lemma later_names vp nd nodes css : Forall (fun nd => chars nd.1) (nd :: nodes) -> StronglySorted before (nd :: nodes) ->
  parts_ok vp (nd :: nodes) css -> Forall (fun n => le nd.1 n /\ chars n) (concat css).
Proof using Type.
  revert nd css. induction nodes as [| nd' nodes IH]; intros nd css Hc Hs [Hl Hp].
  - destruct css; [constructor | discriminate Hl].
  - destruct css as [| ns css]; [discriminate Hl |]. cbn [concat]. apply Forall_app.
    pose proof Hc as [Hcn Hc']%Forall_cons. pose proof Hc' as [Hcn' _]%Forall_cons.
    destruct (Hp 0%nat nd nd' ns eq_refl eq_refl eq_refl) as [_ (Hcs & _) Hr _]. split.
    + apply Forall_forall. intros n Hn. rewrite Forall_forall in Hr, Hcs. split; [by apply Hr | by apply Hcs].
    + apply StronglySorted_inv in Hs as [Hs Hb]. eapply Forall_impl; [apply (IH nd' css Hc' Hs) |].
      * split; [cbn [length] in *; lia |]. intros i x y zs Hx Hy Hz. by apply (Hp (S i) x y zs).
      * cbn beta. intros n [Hle Hcx]. split; [| done]. apply Forall_cons in Hb as [Hb _]. unfold before in Hb.
        apply (le_trans nd.1 nd'.1 n); try done. unfold le. lia.
Qed.

Lemma later_none vp nd nodes css y : Forall (fun nd => chars nd.1) (nd :: nodes) -> StronglySorted before (nd :: nodes) ->
  parts_ok vp (nd :: nodes) css -> chars y -> le y nd.1 -> 0 < begins str y -> found (concat css) = [].
Proof using Hstr.
  intros Hc Hs Hp Hy Hle Hgt. pose proof (later_names vp nd nodes css Hc Hs Hp) as Hl. apply Forall_cons in Hc as [Hcn _].
  apply found_none; [eapply Forall_impl; [exact Hl |]; by intros n [_ ?] |].
  eapply Forall_impl; [exact Hl |]. cbn beta. intros n [Hn Hcx]. assert (Hyn : le y n) by (by apply (le_trans y nd.1 n)).
  destruct (begins_mono str y n Hstr Hy Hcx Hyn) as [_ H]. specialize (H Hgt). lia.
Qed.

(** What the search comes to: the names of a part file that begin with the
    string, and those of the next one if the last name of this one does. *)
Definition goes_on (ns : list text) : bool :=
  match last ns with Some x => bool_decide (str `prefix_of` x) | None => false end.
Fixpoint scan_files (css : list (list text)) : list text :=
  match css with
  | [] => []
  | ns :: css' => found ns ++ if goes_on ns then scan_files css' else []
  end.

(** The search begins in the part file whose boundaries the string is between. *)
Fixpoint reached (nodes : list node) (css : list (list text)) : list text :=
  match nodes, css with
  | _ :: (nd :: _) as nodes', ns :: css' => if cmp str nd.1 <? 0 then scan_files css else reached nodes' css'
  | _, _ => []
  end.

(** If the string reaches over a boundary, so does the name before it. *)
Definition reaches (nodes : list node) (css : list (list text)) : Prop :=
  forall i nd ns, nodes !! S i = Some nd -> css !! i = Some ns -> begins str nd.1 = 0 ->
    exists x, last ns = Some x /\ begins str x = 0.

Lemma scan_subset css x : x ∈ scan_files css -> x ∈ found (concat css).
Proof using Type.
  induction css as [| ns css IH]; [done |]. cbn [scan_files concat]. rewrite found_app, !elem_of_app.
  intros [H | H]; [by left | right]. destruct (goes_on ns); [by apply IH | by apply elem_of_nil in H].
Qed.

Lemma scan_length css : (length (scan_files css) <= length (concat css))%nat.
Proof using Type.
  induction css as [| ns css IH]; [done |]. cbn [scan_files concat]. rewrite !length_app.
  pose proof (length_filter (fun x => str `prefix_of` x) ns). unfold found.
  destruct (goes_on ns); cbn [length]; lia.
Qed.

Lemma goes_on_spec u m v : Forall chars (u ++ m ++ v) ->
  Forall (fun x => begins str x < 0) u -> Forall (fun x => begins str x = 0) m -> Forall (fun x => 0 < begins str x) v ->
  goes_on (u ++ m ++ v) = true <-> m <> [] /\ v = [].
Proof using Hstr.
  intros Hc Hu Hm Hv. unfold goes_on.
  assert (Hb : forall x, x ∈ u ++ m ++ v -> bool_decide (str `prefix_of` x) = true <-> begins str x = 0).
  { intros x Hx. rewrite bool_decide_eq_true. symmetry. apply begins_prefix; [done |]. rewrite Forall_forall in Hc. by apply Hc. }
  rewrite Forall_forall in Hu, Hm, Hv. destruct v as [| x v _] using rev_ind.
  - rewrite app_nil_r in *. destruct m as [| x m _] using rev_ind.
    + rewrite app_nil_r in *. split; [| by intros []]. destruct (last u) as [x |] eqn:Ex; [| done].
      apply last_Some_elem_of in Ex. rewrite (Hb x Ex). specialize (Hu x Ex). cbn beta in Hu. lia.
    + rewrite app_assoc in *. rewrite last_snoc, Hb by (rewrite elem_of_app; right; left).
      split; [intros _; split; [by destruct m | done] | intros _; apply Hm; rewrite elem_of_app; right; left].
  - rewrite !app_assoc in *. rewrite last_snoc, Hb by (rewrite elem_of_app; right; left).
    split; [| intros [_ H]; by destruct v].
    assert (0 < begins str x) by (apply Hv; rewrite elem_of_app; right; left). lia.
Qed.

(** Where the string reaches over no boundary but behind a match, this is all
    that there is. *)
Lemma scan_found vp nodes css : Forall (fun nd => chars nd.1) nodes -> StronglySorted before nodes ->
  parts_ok vp nodes css -> Forall (fun y => cmp str y.1 < 0) (tail nodes) -> reaches nodes css ->
  scan_files css = found (concat css).
Proof using Hstr.
  revert nodes. induction css as [| ns css IH]; intros nodes Hc Hs Hp Hlow Hreach; [done |].
  destruct nodes as [| nd [| nd' nodes]]; [by destruct Hp as [[=] _] .. |]. pose proof Hp as [Hlen Hall].
  destruct (Hall 0%nat nd nd' ns eq_refl eq_refl eq_refl) as [_ (Hcn & _ & Hsn) Hr _].
  destruct (three_ways str Hstr ns Hcn Hsn) as (u & m & v & -> & Hu & Hm & Hv).
  pose proof Hc as [Hcnd Hc']%Forall_cons. pose proof Hc' as [Hcnd' _]%Forall_cons.
  pose proof Hs as [Hs' _]%StronglySorted_inv. cbn [tail] in Hlow. pose proof Hlow as [Hlow1 Hlow2]%Forall_cons.
  assert (Hp' : parts_ok vp (nd' :: nodes) css).
  { split; [cbn [length] in *; lia |]. intros i x y zs Hx Hy Hz. by apply (Hall (S i) x y zs). }
  cbn [scan_files concat]. rewrite (found_app (u ++ m ++ v)). f_equal.
  destruct (goes_on (u ++ m ++ v)) eqn:Eg.
  { apply (IH (nd' :: nodes)); try done. intros i x zs Hx Hzs. by apply (Hreach (S i) x zs). }
  symmetry. assert (Hno : ~ (m <> [] /\ v = [])) by (rewrite <- goes_on_spec by done; by rewrite Eg).
  destruct v as [| x v].
  - assert (Em : m = []) by (destruct m; [done | exfalso; by apply Hno]).
    subst m. rewrite !app_nil_r in *. apply (later_none vp nd' nodes css nd'.1 Hc' Hs' Hp' Hcnd'); [unfold le; by rewrite (proj2 (cmp_eq _ _ Hcnd' Hcnd')) |].
    pose proof (above_begins nd'.1 Hcnd' Hlow1).
    destruct (decide (begins str nd'.1 = 0)) as [E0 | E0]; [| lia].
    destruct (Hreach 0%nat nd' u eq_refl eq_refl E0) as (x & Hx & Ex). apply last_Some in Hx as [u' ->].
    apply Forall_app in Hu as [_ Hu]. apply Forall_cons in Hu as [Hu _]. lia.
  - assert (Hin : x ∈ u ++ m ++ x :: v) by (rewrite !elem_of_app; right; right; left). rewrite Forall_forall in Hcn, Hr.
    apply Forall_cons in Hv as [Hx _]. apply (later_none vp nd' nodes css x Hc' Hs' Hp'); [by apply Hcn | | done].
    destruct (Hr x Hin) as [_ Hx2]. unfold le. lia.
Qed.

Definition loaded_ok (f : nfiles) (ld : loaded_t) : Prop := ld_part ld = -1 \/ parts f !! ld_part ld = Some (ld_lines ld).

Definition add_all (l : list node) (xs : list text) : list node := foldl (fun l x => nladd l x 0) l xs.
Lemma add_all_app l a b : add_all l (a ++ b) = add_all (add_all l a) b.
Proof using Type. apply foldl_app. Qed.

Context (can : Z -> bool) (Hcan : forall p, can p = true) (f : nfiles).
Context (Hroom : forall p lines, parts f !! p = Some lines -> len lines <= TB_LINES).

(** One part file: the search, and whether it goes on. *)
Lemma search_step nd nodes ns css l ld next :
  let lines := ld_lines ld in
  parts_ok (parts f) (nd :: nodes) (ns :: css) -> ns <> [] -> parts f !! nd.2 = Some lines -> loaded_ok f ld ->
  (forall l, exists ld', next l = Some (1, add_all l (scan_files css), ld') /\ loaded_ok f ld') ->
  exists ld', ('(md, _) ← bsearch (begins str) (S (length lines)) lines 0 (len lines - 1) 0 1;
    md ← backup (S (length lines)) lines str md;
    '(md, l) ← pick_up (S (length lines)) lines str md l;
    if md <? len lines - 1 then Some (1, l, ld) else next l) =
    Some (1, add_all l (scan_files (ns :: css)), ld') /\ loaded_ok f ld'.
Proof using Hstr.
  intros lines Hp Hne Elines Hld Hnext. destruct nodes as [| nd' nodes]; [by destruct Hp as [[=] _] |].
  destruct Hp as [_ Hall]. destruct (Hall 0%nat nd nd' ns eq_refl eq_refl eq_refl) as [(l0 & h & E & _) (Hcn & _ & Hsn) _ _].
  rewrite Elines in E. injection E as E. destruct (three_ways str Hstr ns Hcn Hsn) as (u & m & v & -> & Hu & Hm & Hv).
  destruct (search_part l0 h str Hstr u m v Hu Hm Hv l Hcn Hsn Hne) as (md & r & md' & E1 & E2 & md'' & E3 & E4).
  rewrite <- E in E1, E2, E3, E4. rewrite E1. cbn [mbind option_bind]. rewrite E2. cbn [mbind option_bind].
  rewrite E3. cbn [mbind option_bind scan_files]. rewrite (found_middle u m v) by done. rewrite add_all_app.
  rewrite <- (goes_on_spec u m v Hcn Hu Hm Hv) in E4.
  destruct (md'' <? len lines - 1), (goes_on (u ++ m ++ v)).
  - by assert (true = false) by (by apply E4).
  - by exists ld.
  - apply Hnext.
  - by assert (false = true) by (by apply E4).
Qed.

Lemma matchnl_loop_spec nodes css l ld :
  parts_ok (parts f) nodes css -> (forall i nd, nodes !! i = Some nd -> nd.2 = 0 <-> S i = length nodes) ->
  Forall (fun ns => ns <> []) css -> loaded_ok f ld ->
  exists ld', matchnl_loop can f nodes str l ld = Some (1, add_all l (scan_files css), ld') /\ loaded_ok f ld'.
Proof using Hstr Hcan Hroom.
  revert css l ld. induction nodes as [| nd nodes IH]; intros css l ld Hp Hz Hne Hld; [by destruct Hp as [[=] _] |].
  destruct nd as [s part]. cbn [matchnl_loop]. destruct css as [| ns css].
  - destruct nodes; [| by destruct Hp as [[=] _]]. rewrite (proj2 (Z.eqb_eq part 0)) by (by apply (Hz 0%nat (s, part))).
    by exists ld.
  - destruct nodes as [| nd' nodes]; [by destruct Hp as [[=] _] |].
    rewrite (proj2 (Z.eqb_neq part 0)) by (intros E; by apply (Hz 0%nat (s, part) eq_refl) in E).
    pose proof Hp as [Hlen Hall]. destruct (Hall 0%nat (s, part) nd' ns eq_refl eq_refl eq_refl) as [(l0 & h & E & _) _ _ Hnum].
    cbn [snd] in E, Hnum. pose proof Hne as [Hne1 Hne2]%Forall_cons.
    assert (Hnext : forall ld0 l, loaded_ok f ld0 ->
      exists ld', matchnl_loop can f (nd' :: nodes) str l ld0 = Some (1, add_all l (scan_files css), ld') /\ loaded_ok f ld').
    { intros ld0 l1 Hld0. apply IH; try done.
      - split; [cbn [length] in *; lia |]. intros i x y zs Hx Hy Hzs. by apply (Hall (S i) x y zs).
      - intros i x Hx. rewrite (Hz (S i) x Hx). cbn [length]. lia. }
    destruct (Z.eqb_spec part (ld_part ld)) as [Ep | _].
    + destruct Hld as [Hld | Hld]; [congruence |].
      apply (search_step (s, part) (nd' :: nodes) ns css l ld (fun l => matchnl_loop can f (nd' :: nodes) str l ld)); try done.
      * cbn [snd]. by rewrite Ep.
      * by right.
      * intros l1. apply Hnext. by right.
    + rewrite Hcan. unfold loadnpart. rewrite E. cbn [mbind option_bind].
      rewrite (proj2 (Z.leb_le _ _)) by (by apply (Hroom part)).
      assert (Hld' : loaded_ok f (mkLoaded part (l0 :: ns ++ [h]))) by (by right).
      apply (search_step (s, part) (nd' :: nodes) ns css l (mkLoaded part (l0 :: ns ++ [h]))
        (fun l => matchnl_loop can f (nd' :: nodes) str l (mkLoaded part (l0 :: ns ++ [h])))); try done.
      intros l1. by apply Hnext.
Qed.
End search.

(** ** The matches of a string in the data base *)

Lemma whatnm_head str hdr next : whatnm str hdr next = head (whatnm_list str hdr next).
Proof.
  revert hdr. induction next as [| nd next IH]; intros hdr; [done |]. cbn [whatnm whatnm_list].
  destruct (cmp str nd.1 <? 0); [done |]. apply IH.
Qed.

Lemma whatnm_list_spec nodes str hdr : dir_ok nodes -> chars str -> in_range nodes str -> nodes <> [] ->
  exists pre nd nodes', nodes = pre ++ nd :: nodes' /\ whatnm_list str hdr nodes = nd :: nodes' /\
    le nd.1 str /\ Forall (fun y => cmp str y.1 < 0) nodes'.
Proof.
  intros Hd Hs [Hh Hl] Hne. destruct nodes as [| nd nodes]; [done |]. clear Hne. specialize (Hh nd eq_refl).
  pose proof Hd as [Hc Hsort _]. apply StronglySorted_inv in Hsort as [Hsort _].
  assert (Hgo : forall nodes nd, chars nd.1 -> Forall (fun nd => chars nd.1) nodes -> StronglySorted before nodes -> le nd.1 str ->
    (forall z, last (nd :: nodes) = Some z -> cmp str z.1 < 0) ->
    exists pre nd' nodes', nd :: nodes = pre ++ nd' :: nodes' /\ whatnm_list str nd nodes = nd' :: nodes' /\
      le nd'.1 str /\ Forall (fun y => cmp str y.1 < 0) nodes').
  { clear - Hs. induction nodes as [| y nodes IH]; intros nd Hcn Hc Hsort Hle Hl.
    - exfalso. specialize (Hl nd eq_refl). rewrite cmp_antisym in Hl by done. unfold le in Hle. lia.
    - apply Forall_cons in Hc as [Hcy Hc]. cbn [whatnm_list]. destruct (Z.ltb_spec (cmp str y.1) 0) as [Hlt | Hge].
      + exists [], nd, (y :: nodes). split_and!; [done | done | done |]. constructor; [done |].
        apply StronglySorted_inv in Hsort as [_ Hy]. rewrite Forall_forall in Hy, Hc. apply Forall_forall. intros z Hz.
        apply (lt_le_trans str y.1 z.1); try done; [by apply Hc |]. specialize (Hy z Hz). unfold before, le in *. lia.
      + destruct (IH y Hcy Hc) as (pre & nd' & nodes' & E & Ew & Hle' & Hf).
        * by apply StronglySorted_inv in Hsort as [? _].
        * unfold le. rewrite cmp_antisym by done. lia.
        * intros z Hz. by apply Hl.
        * exists (nd :: pre), nd', nodes'. by rewrite E. }
  apply Forall_cons in Hc as [Hcn Hc]. cbn [whatnm_list].
  rewrite (proj2 (Z.ltb_ge _ _)) by (rewrite cmp_antisym by done; unfold le in Hh; lia).
  by apply Hgo.
Qed.

(** A string that can be searched for in a data base. *)
Record search_ok (nodes : list node) (str : text) : Prop := {
  search_str : searchable str;
  search_range : in_range nodes str }.

(** The last node of a directory is the one without a file. *)
Definition closed (nodes : list node) : Prop := forall nd, last nodes = Some nd -> nd.2 = 0.

Lemma closed_nodes nodes : dir_ok nodes -> closed nodes -> forall i nd, nodes !! i = Some nd -> nd.2 = 0 <-> S i = length nodes.
Proof.
  intros [_ _ Hnd] Hz i nd Hi. destruct nodes as [| x nodes] using rev_ind; [done |]. clear IHnodes.
  specialize (Hz x (last_snoc _ _)). rewrite length_app. cbn [length]. split; intros H.
  - rewrite map_app in Hnd. apply NoDup_app in Hnd as (_ & Hnd & _).
    destruct (decide (i < length nodes)%nat) as [Hlt | Hge].
    + rewrite lookup_app_l in Hi by done. exfalso. apply (Hnd nd.2).
      * apply list_elem_of_fmap. exists nd. split; [done |]. by eapply list_elem_of_lookup_2.
      * cbn [map]. rewrite H, Hz. left.
    + apply lookup_lt_Some in Hi. rewrite length_app in Hi. cbn [length] in Hi. lia.
  - assert (Ei : i = length nodes) by lia. subst i. rewrite list_lookup_middle in Hi by done. by injection Hi as <-.
Qed.

(** The names before a node that is not above the string are below it. *)
Lemma earlier_names vp pre nd nodes cs str : dir_ok (pre ++ nd :: nodes) -> parts_ok vp (pre ++ nd :: nodes) cs ->
  chars str -> le nd.1 str -> Forall (fun n => chars n /\ cmp n str < 0) (concat (take (length pre) cs)).
Proof.
  intros Hd [Hlen Hall] Hs Hle. rewrite length_app in Hlen. cbn [length] in Hlen.
  apply Forall_concat, Forall_lookup. intros i ns Hns. apply lookup_take_Some in Hns as [Hns Hi].
  destruct (lookup_lt_is_Some_2 (pre ++ nd :: nodes) i) as [x Hx]; [rewrite length_app; lia |].
  destruct (lookup_lt_is_Some_2 (pre ++ nd :: nodes) (S i)) as [y Hy]; [rewrite length_app; cbn [length]; lia |].
  destruct (Hall i x y ns Hx Hy Hns) as [_ (Hc & _) Hr _]. rewrite Forall_forall in Hc, Hr. apply Forall_forall. intros n Hn.
  specialize (Hc n Hn). destruct (Hr n Hn) as [_ Hny]. split; [done |].
  assert (Hnd : (pre ++ nd :: nodes) !! length pre = Some nd) by (by rewrite list_lookup_middle).
  pose proof (nodes_chars _ _ _ Hd Hy) as Hcy. pose proof (nodes_chars _ _ _ Hd Hnd) as Hcn.
  apply (lt_le_trans n y.1 str); try done. apply (le_trans y.1 nd.1 str); try done.
  destruct (decide (S i = length pre)) as [E | E].
  - rewrite E, Hnd in Hy. injection Hy as <-. unfold le. by rewrite (proj2 (cmp_eq _ _ Hcn Hcn)).
  - pose proof (nodes_before _ _ _ _ _ Hd Hy Hnd ltac:(lia)). unfold le. lia.
Qed.

(** Where the search begins. *)
Lemma reached_from str pre nd nodes cs : dir_ok (pre ++ nd :: nodes) -> chars str -> le nd.1 str ->
  Forall (fun y => cmp str y.1 < 0) nodes -> length (pre ++ nd :: nodes) = S (length cs) ->
  reached str (pre ++ nd :: nodes) cs = scan_files str (drop (length pre) cs).
Proof.
  intros Hd Hs Hle Hlow. pose proof Hd as [Hc Hb _]. clear Hd. revert cs Hc Hb.
  induction pre as [| p pre IH]; intros cs Hc Hb Hlen.
  - cbn [app length drop] in *. destruct cs as [| ns cs]; [by destruct nodes |]. destruct nodes as [| nd' nodes]; [done |].
    cbn [reached]. apply Forall_cons in Hlow as [Hlow _]. by rewrite (proj2 (Z.ltb_lt _ _)).
  - cbn [app length drop] in *. destruct cs as [| ns cs]; [rewrite length_app in Hlen; cbn in Hlen; lia |].
    apply Forall_cons in Hc as [_ Hc]. apply StronglySorted_inv in Hb as [Hb _].
    specialize (IH cs Hc Hb ltac:(by injection Hlen)). cbn [drop]. rewrite <- IH.
    assert (Hy : exists y rest, pre ++ nd :: nodes = y :: rest /\ le y.1 str).
    { destruct pre as [| y pre]; [by exists nd, nodes |]. exists y, (pre ++ nd :: nodes). split; [done |].
      apply StronglySorted_inv in Hb as [_ Hb]. rewrite Forall_forall in Hb, Hc.
      assert (Hin : nd ∈ pre ++ nd :: nodes) by (rewrite elem_of_app; right; left).
      specialize (Hb nd Hin). apply (le_trans y.1 nd.1 str); try done; [apply Hc; left | apply Hc; by right |].
      unfold before, le in *. lia. }
    destruct Hy as (y & rest & E & Hy). rewrite E in *. cbn [reached]. rewrite (proj2 (Z.ltb_ge _ _)); [done |].
    apply Forall_cons in Hc as [Hcy _]. unfold le in Hy. rewrite cmp_antisym in Hy by done. lia.
Qed.

Lemma search_from nodes str hdr : dir_ok nodes -> search_ok nodes str -> nodes <> [] ->
  exists pre nd nodes', nodes = pre ++ nd :: nodes' /\ whatnm_list str hdr nodes = nd :: nodes' /\
    le nd.1 str /\ Forall (fun y => cmp str y.1 < 0) nodes'.
Proof. intros Hd [[Hs _] Hin]. by apply whatnm_list_spec. Qed.

(** The part files from one on. *)
Lemma parts_from vp pre nodes cs : parts_ok vp (pre ++ nodes) cs -> nodes <> [] -> parts_ok vp nodes (drop (length pre) cs).
Proof.
  intros [Hlen Hall] Hne. rewrite length_app in Hlen. destruct nodes as [| nd nodes]; [done |]. cbn [length] in Hlen.
  split; [rewrite length_drop; cbn [length]; lia |]. intros i x y ns Hx Hy Hns. rewrite lookup_drop in Hns.
  apply (Hall (length pre + i)%nat); [| | done].
  - rewrite lookup_app_r by lia. by replace (length pre + i - length pre)%nat with i by lia.
  - rewrite lookup_app_r by lia. by replace (S (length pre + i) - length pre)%nat with (S i) by lia.
Qed.

Lemma matchnl_spec can f d cs l str first ld :
  (forall p, can p = true) -> (forall p lines, parts f !! p = Some lines -> len lines <= TB_LINES) ->
  dir_ok (d_next d) -> closed (d_next d) -> parts_ok (parts f) (d_next d) cs -> Forall (fun ns => ns <> []) cs ->
  search_ok (d_next d) str -> first = true \/ loaded_ok f ld ->
  exists ld', matchnl can f l str d first ld = Some (1, add_all l (reached str (d_next d) cs), ld') /\ loaded_ok f ld'.
Proof.
  intros Hcan Hroom Hd Hcl Hp Hne Hok Hld. unfold matchnl.
  assert (Hnil : d_next d <> []) by (destruct Hp as [Hl _]; by destruct (d_next d)).
  pose proof (closed_nodes _ Hd Hcl) as Hz.
  destruct (search_from _ str (d_str d, d_num d) Hd Hok Hnil) as (pre & nd & nodes' & E & -> & Hle & Hlow).
  rewrite E in *. clear E. destruct Hok as [Hstr _].
  rewrite (reached_from str pre nd nodes' cs Hd (proj1 Hstr) Hle Hlow (proj1 Hp)).
  apply matchnl_loop_spec; try done.
  - by apply parts_from.
  - intros i x Hx. rewrite (Hz (length pre + i)%nat x) by (rewrite lookup_app_r by lia; by replace (length pre + i - length pre)%nat with i by lia).
    rewrite length_app. cbn [length]. lia.
  - by apply Forall_drop.
  - destruct first; [by left |]. by destruct Hld.
Qed.

Lemma reached_subset str nodes cs x : x ∈ reached str nodes cs -> x ∈ found str (concat cs).
Proof.
  revert nodes. induction cs as [| ns cs IH]; intros nodes H; [destruct nodes as [| ? []]; by apply (elem_of_nil x) in H |].
  destruct nodes as [| nd [| nd' nodes]]; [by apply (elem_of_nil x) in H .. |]. cbn [reached] in H.
  destruct (cmp str nd'.1 <? 0); [by apply scan_subset |]. cbn [concat]. rewrite found_app, elem_of_app. right. exact (IH (nd' :: nodes) H).
Qed.

Lemma reached_length str nodes cs : (length (reached str nodes cs) <= length (concat cs))%nat.
Proof.
  revert nodes. induction cs as [| ns cs IH]; intros nodes; [destruct nodes as [| ? []]; cbn; lia |].
  destruct nodes as [| nd [| nd' nodes]]; [cbn; lia .. |]. cbn [reached].
  destruct (cmp str nd'.1 <? 0); [apply scan_length |]. cbn [concat]. rewrite length_app. etrans; [exact (IH (nd' :: nodes)) | lia].
Qed.

(** All names that begin with the string are reached, if it reaches over no
    boundary but behind a match. *)
Lemma reached_found vp str nodes cs : dir_ok nodes -> parts_ok vp nodes cs -> search_ok nodes str -> reaches str nodes cs ->
  reached str nodes cs = found str (concat cs).
Proof.
  intros Hd Hp Hok Hreach. assert (Hnil : nodes <> []) by (destruct Hp as [Hl _]; by destruct nodes).
  destruct (search_from _ str ([], 0) Hd Hok Hnil) as (pre & nd & nodes' & -> & _ & Hle & Hlow). destruct Hok as [Hstr _].
  rewrite (reached_from str pre nd nodes' cs Hd (proj1 Hstr) Hle Hlow (proj1 Hp)).
  assert (Epre : found str (concat (take (length pre) cs)) = []).
  { pose proof (earlier_names _ _ _ _ _ _ Hd Hp (proj1 Hstr) Hle) as He.
    apply found_none; [done | eapply Forall_impl; [exact He |]; by intros n [? _] |].
    eapply Forall_impl; [exact He |]. cbn beta. intros n [Hn Hlt] Hb. apply begins_prefix in Hb; [| done | done].
    apply prefix_le in Hb; [| done | done]. unfold le in Hb. rewrite cmp_antisym in Hb by (done || apply Hstr). lia. }
  rewrite <- (take_drop (length pre) cs) at 2. rewrite concat_app, found_app, Epre. cbn [app].
  pose proof Hd as [Hdc Hds _]. apply (scan_found str Hstr vp (nd :: nodes')); try done.
  - by apply Forall_app in Hdc as [_ Hdc].
  - by apply StronglySorted_app in Hds as (_ & _ & Hds).
  - by apply parts_from.
  - intros i x ns Hx Hns. rewrite lookup_drop in Hns. apply (Hreach (length pre + i)%nat); [| done].
    rewrite lookup_app_r by lia. by replace (S (length pre + i) - length pre)%nat with (S i) by lia.
Qed.

(** ** Lists of matches *)

Lemma elem_nladd x l s n : x ∈ nladd l s n <-> x = (s, i16 n) \/ x ∈ l.
Proof.
  induction l as [| nd l IH]; cbn [nladd]; [rewrite list_elem_of_singleton, elem_of_nil; tauto |].
  destruct (_ <? _); rewrite !elem_of_cons; [tauto |]. rewrite IH. tauto.
Qed.

Lemma elem_add_all x l xs : x ∈ add_all l xs <-> x ∈ l \/ exists s, s ∈ xs /\ x = (s, 0).
Proof.
  revert l. induction xs as [| s xs IH]; intros l; cbn [add_all foldl]; [split; [by left | intros [? | (s & Hs & _)]; [done | by apply elem_of_nil in Hs]] |].
  fold (add_all (nladd l s 0) xs). rewrite IH, elem_nladd. change (i16 0) with 0. split.
  - intros [[-> | H] | (s' & Hs & ->)]; [right; exists s; split; [left | done] | by left | right; exists s'; split; [by right | done]].
  - intros [H | (s' & [-> | Hs]%elem_of_cons & ->)]; [by left; right | by left; left | right; by exists s'].
Qed.

Lemma length_nladd l s n : length (nladd l s n) = S (length l).
Proof. induction l as [| nd l IH]; cbn [nladd]; [done |]. destruct (_ <? _); cbn [length]; [done |]. by rewrite IH. Qed.
Lemma length_add_all l xs : length (add_all l xs) = (length l + length xs)%nat.
Proof.
  revert l. induction xs as [| s xs IH]; intros l; cbn [add_all foldl length]; [lia |].
  fold (add_all (nladd l s 0) xs). rewrite IH, length_nladd. lia.
Qed.

Section tags.
Context (B : list Z).

(** The [n]-th words of the entries. *)
Definition tags (n : Z) (l : list node) : list text := map (fun nd => word B n nd.1) l.

Lemma elem_tags n l t : t ∈ tags n l <-> exists nd, nd ∈ l /\ word B n nd.1 = t.
Proof. unfold tags. rewrite list_elem_of_fmap. split; intros (nd & H1 & H2); exists nd; by split. Qed.

Lemma rdup_after_spec n sp l :
  (forall x, x ∈ rdup_after B n sp l -> x ∈ l) /\ (forall t, t ∈ tags n l -> t = sp \/ t ∈ tags n (rdup_after B n sp l)).
Proof.
  remember (length l) as k eqn:Ek. assert (Hk : (length l <= k)%nat) by lia. clear Ek. revert l Hk.
  induction k as [| k IH]; intros l Hk; [destruct l; [split; [done | by intros t ?%elem_of_nil] | cbn in Hk; lia] |].
  destruct l as [| r l]; [split; [done | by intros t ?%elem_of_nil] |]. cbn [rdup_after]. cbn [length] in Hk.
  destruct (bool_decide_reflect (word B n r.1 = sp)) as [E | E].
  - destruct l as [| q l]; [split; [by intros x ?%elem_of_nil |] |].
    { intros t [-> | Ht]%elem_of_cons; [by left | by apply elem_of_nil in Ht]. }
    cbn [length] in Hk. destruct (IH l ltac:(lia)) as [H1 H2]. split.
    + intros x [-> | Hx]%elem_of_cons; [right; left | right; right; by apply H1].
    + intros t. cbn [tags map]. rewrite !elem_of_cons. intros [-> | [-> | Ht]]; [by left | by right; left |].
      destruct (H2 t Ht); [by left | by right; right].
  - destruct (IH l ltac:(lia)) as [H1 H2]. split.
    + intros x [-> | Hx]%elem_of_cons; [left | right; by apply H1].
    + intros t. cbn [tags map]. rewrite !elem_of_cons. intros [-> | Ht]; [by right; left |].
      destruct (H2 t Ht); [by left | by right; right].
Qed.

(** [nlrdup] takes entries away, but no tag goes with them. *)
Lemma nlrdup_spec n l : (forall x, x ∈ nlrdup B l n -> x ∈ l) /\ (forall t, t ∈ tags n (nlrdup B l n) <-> t ∈ tags n l).
Proof.
  unfold nlrdup. assert (H : forall fuel l, (forall x, x ∈ rdup_loop B fuel n l -> x ∈ l) /\
    (forall t, t ∈ tags n l -> t ∈ tags n (rdup_loop B fuel n l))).
  { induction fuel as [| fuel IH]; intros [| q l']; try done. cbn [rdup_loop].
    destruct (rdup_after_spec n (word B n q.1) l') as [H1 H2], (IH (rdup_after B n (word B n q.1) l')) as [H3 H4]. split.
    - intros x [-> | Hx]%elem_of_cons; [left | right; by apply H1, H3].
    - intros t. cbn [tags map]. rewrite !elem_of_cons. intros [-> | Ht]; [by left |]. destruct (H2 t Ht) as [-> | ?]; [by left | right; by apply H4]. }
  destruct (H (length l) l) as [H1 H2]. split; [exact H1 |]. intros t. split; [| apply H2].
  rewrite !elem_tags. intros (nd & Hnd & E). exists nd. by split; [apply H1 |].
Qed.

Lemma nl_and_spec mats mres : Forall (fun nd => nd.2 = 0) mats ->
  forall x, x ∈ nl_and B mats mres <-> x ∈ mats /\ word B 2 x.1 ∈ tags 2 mres.
Proof.
  intros H0 x. unfold nl_and. assert (H : forall acc, x ∈ foldl (fun mtmp a => if bool_decide (Exists (fun b => word B 2 b.1 = word B 2 a.1) mres) then nladd mtmp a.1 0 else mtmp) acc mats <->
    x ∈ acc \/ x ∈ mats /\ word B 2 x.1 ∈ tags 2 mres).
  { induction H0 as [| a mats Ha H0 IH]; intros acc; cbn [foldl]; [rewrite elem_of_nil; tauto |].
    rewrite IH, elem_of_cons. destruct a as [a pa]. cbn [fst snd] in *. subst pa. case_bool_decide as He.
    - rewrite elem_nladd. change (i16 0) with 0. apply list.Exists_exists in He as (b & Hb & E).
      assert (Ht : word B 2 a ∈ tags 2 mres) by (apply elem_tags; by exists b).
      split; [intros [[-> | ?] | [? ?]] | intros [? | [[-> | ?] ?]]]; auto 6.
    - assert (Ht : word B 2 a ∉ tags 2 mres).
      { intros (b & Hb & E)%elem_tags. apply He, list.Exists_exists. by exists b. }
      split; [intros [? | [? ?]] | intros [? | [[-> | ?] ?]]]; auto 6; done. }
  rewrite H, elem_of_nil. tauto.
Qed.

(** ** Several words *)

(** The tags of names that a search for a string reaches. *)
Definition tagged (nodes : list node) (cs : list (list text)) (str : text) (t : text) : Prop :=
  exists x, x ∈ reached str nodes cs /\ word B 2 x = t.

Lemma reached_tags nodes cs str t : t ∈ tags 2 (add_all [] (reached str nodes cs)) <-> tagged nodes cs str t.
Proof.
  rewrite elem_tags. unfold tagged. split.
  - intros (nd & [Hnd | (s & Hs & ->)]%elem_add_all & E); [by apply elem_of_nil in Hnd |]. by exists s.
  - intros (x & Hx & E). exists (x, 0). split; [| done]. apply elem_add_all. right. by exists x.
Qed.

Lemma add_all_zero xs : Forall (fun nd => nd.2 = 0) (add_all [] xs).
Proof. apply Forall_forall. intros nd [H | (s & _ & ->)]%elem_add_all; [by apply elem_of_nil in H | done]. Qed.

Section all.
Context (can : Z -> bool) (f : nfiles) (d : namdir_t) (cs : list (list text)).
Context (Hcan : forall p, can p = true) (Hroom : forall p lines, parts f !! p = Some lines -> len lines <= TB_LINES).
Context (Hd : dir_ok (d_next d)) (Hcl : closed (d_next d)) (Hp : parts_ok (parts f) (d_next d) cs).
Context (Hne : Forall (fun ns => ns <> []) cs) (Hsize : len (concat cs) < 2 ^ 15).

Lemma match_words_spec (names : list node) (first : bool) (mats : list node) (ld : loaded_t) (P : text -> Prop) (Q : text -> Prop) :
  Forall (fun nm => nm.1 <> [] /\ search_ok (d_next d) nm.1) names ->
  (if first then names <> [] /\ (forall t, P t) /\ (forall nm, head names = Some nm -> forall x, x ∈ reached nm.1 (d_next d) cs -> Q x)
   else loaded_ok f ld /\ (forall t, t ∈ tags 2 mats <-> P t) /\ Forall (fun nd => nd.2 = 0 /\ Q nd.1) mats) ->
  exists l, match_words B can f d names true false first mats ld = Some l /\
    (forall t, t ∈ tags 2 l <-> P t /\ forall nm, nm ∈ names -> tagged (d_next d) cs nm.1 t) /\ Forall (fun nd => Q nd.1) l.
Proof using Hcan Hroom Hd Hcl Hp Hne Hsize.
  revert first mats ld P. induction names as [| [str n] names IH]; intros first mats ld P Hn Hst.
  { destruct first; [by destruct Hst as [Hst _] |]. destruct Hst as (_ & Ht & Hm). exists mats. split_and!; [done | |].
    - intros t. rewrite Ht. split; [intros H; split; [done | by intros nm ?%elem_of_nil] | by intros [? _]].
    - eapply Forall_impl; [exact Hm |]. by intros nd [_ ?]. }
  apply Forall_cons in Hn as [[Hstr Hok] Hn]. cbn [fst] in Hstr, Hok. cbn [match_words].
  destruct (matchnl_spec can f d cs [] str first ld Hcan Hroom Hd Hcl Hp Hne Hok) as (ld' & -> & Hld').
  { destruct first; [by left | right; by destruct Hst]. }
  cbn [mbind option_bind]. change (1 =? 0) with false. rewrite (bool_decide_eq_false_2 (str = [])) by done.
  rewrite (bool_decide_eq_true_2 (str = str)) by done. cbn [andb negb mbind option_bind]. change (1 =? 0) with false.
  set (mres := add_all [] (reached str (d_next d) cs)) in *.
  assert (Hlen : len mres = len (reached str (d_next d) cs)) by (unfold len, mres; by rewrite length_add_all).
  assert (Hle : len (reached str (d_next d) cs) <= len (concat cs)) by (pose proof (reached_length str (d_next d) cs); unfold len; lia).
  unfold nlsize. rewrite i16_small by (len_pos; lia). destruct (Z.eqb_spec (len mres) 0) as [E0 | E0].
  { exists []. split_and!; [done | | constructor]. intros t. split; [by intros ?%elem_of_nil |]. intros [_ H].
    specialize (H (str, n) ltac:(left)). cbn [fst] in H. apply reached_tags in H. fold mres in H. assert (Em : mres = []) by (apply nil_length_inv; unfold len in E0; lia).
    rewrite Em in H. by apply elem_of_nil in H. }
  destruct (nlrdup_spec 2 mres) as [Hin Htags].
  destruct (IH false (if first then nlrdup B mres 2 else nl_and B mats (nlrdup B mres 2)) ld' (fun t => P t /\ tagged (d_next d) cs str t) Hn) as (l & -> & Hl & HQ).
  - split; [done |]. pose proof (add_all_zero (reached str (d_next d) cs)) as Hz. rewrite Forall_forall in Hz. destruct first.
    + destruct Hst as (_ & HP & HQ). split.
      * intros t. rewrite Htags. unfold mres. rewrite reached_tags. split; [by split | by intros [_ ?]].
      * apply Forall_forall. intros nd Hnd. apply Hin in Hnd. split; [by apply Hz |].
        apply elem_add_all in Hnd as [Hnd | (s & Hs & ->)]; [by apply elem_of_nil in Hnd |]. by apply (HQ (str, n)).
    + destruct Hst as (_ & HP & HQ). assert (Hm0 : Forall (fun nd => nd.2 = 0) mats) by (eapply Forall_impl; [exact HQ |]; by intros nd [? _]).
      split.
      * intros t. rewrite <- HP, <- reached_tags. fold mres. rewrite <- Htags, !elem_tags. split.
        -- intros (nd & [H1 H2]%nl_and_spec & <-); [| done]. apply elem_tags in H2. split; [by exists nd | done].
        -- intros [(nd & H1 & <-) H2]. exists nd. split; [| done]. apply nl_and_spec; [done |]. split; [done |]. by apply elem_tags.
      * apply Forall_forall. intros nd [Hnd _]%nl_and_spec; [| done]. rewrite Forall_forall in HQ. by apply HQ.
  - exists l. split_and!; [done | | done]. intros t. rewrite Hl. split.
    + intros [[HP Hs] H]. split; [done |]. intros nm [-> | Hnm]%elem_of_cons; [done | by apply H].
    + intros [HP H]. split_and!; [done | apply (H (str, n)); left |]. intros nm Hnm. apply H. by right.
Qed.
End all.
End tags.

(** C14: [matchnames] with AND, punctuation kept, finds what every word asks for,
    as far as the search goes.  On a well-formed data base whose part files are
    not empty and have fewer than 32768 names together, and for words that are
    not empty, have no "!" and lie between the ends of the directory: the
    entries of the result are names that the search for the first word reaches,
    and a tag is among them exactly if the search for each word reaches a name
    with that tag.  A search reaches the names that begin with the word, in the
    part file where it would be and in the next ones for as long as the last
    name of a part file begins with it ([reached]).  These are all the stored
    names that begin with the word, unless it is the beginning of a boundary
    between part files while the last name before the boundary does not begin
    with it ([reaches]): then the code misses those behind ([search_stops]). *)
Theorem matchnames_and B can f nodes cs nm names ld :
  good_blanks B -> (forall p, can p = true) -> names_ok f nodes cs -> closed nodes ->
  (forall p lines, parts f !! p = Some lines -> len lines <= TB_LINES) ->
  Forall (fun ns => ns <> []) cs -> len (concat cs) < 2 ^ 15 ->
  Forall (fun nm => nm.1 <> [] /\ search_ok nodes nm.1) (nm :: names) ->
  exists l, matchnames B can true f (nm :: names) true false ld = Some (1, l) /\
    (forall t, t ∈ tags B 2 l <-> forall w, w ∈ nm :: names -> tagged B nodes cs w.1 t) /\
    Forall (fun e => e.1 ∈ reached nm.1 nodes cs) l /\
    (forall w, w ∈ nm :: names -> (forall x, x ∈ reached w.1 nodes cs -> x ∈ found w.1 (concat cs)) /\
       (reaches w.1 nodes cs -> reached w.1 nodes cs = found w.1 (concat cs))).
Proof.
  intros HB Hcan [(str & n & Edf) Hd Hpl Hp] Hcl Hroom Hne Hsize Hn. unfold matchnames. cbn [negb].
  destruct (load_store B f n str nodes HB Hd Hpl Edf) as [n' ->].
  destruct (match_words_spec B can f (mkDir [] n' nodes) cs Hcan Hroom Hd Hcl Hp Hne Hsize (nm :: names) true [] ld
    (fun _ => True) (fun x => x ∈ reached nm.1 nodes cs) Hn) as (l & -> & Hl & HQ).
  { split_and!; [done | done |]. by intros nm' [= <-]. }
  exists l. split_and!; [done | | done |].
  - intros t. rewrite Hl. tauto.
  - intros w Hw. split; [by apply reached_subset |]. rewrite Forall_forall in Hn. destruct (Hn w Hw) as [_ Hok].
    by apply (reached_found (parts f)).
Qed.

(** A data base of two part files. *)
Definition two_nodes : list node := [(sortlow, 1); (bytes "m!", 2); (sorthigh, 0)].
Definition two_parts : list (list text) := [[bytes "abc u1"; bytes "abd u2"]; [bytes "max u1"; bytes "moe u2"]].
Definition two_files : nfiles :=
  mkFiles (Some (stornmdir (mkDir [] 3 two_nodes)))
    (<[1 := sortlow :: [bytes "abc u1"; bytes "abd u2"] ++ [bytes "m!"]]>
      (<[2 := bytes "m!" :: [bytes "max u1"; bytes "moe u2"] ++ [sorthigh]]> ∅)).

Lemma not_elem_dec {A} `{EqDecision A} (x : A) (l : list A) : bool_decide (x ∈ l) = false -> x ∉ l.
Proof. apply bool_decide_eq_false_1. Qed.

Lemma two_ok : names_ok two_files two_nodes two_parts.
Proof.
  constructor.
  - by exists [], 3.
  - constructor; [| | apply (bool_decide_eq_true_1 _); by vm_compute].
    + unfold chars. apply (bool_decide_eq_true_1 _). by vm_compute.
    + repeat constructor.
  - repeat constructor; try (by vm_compute); apply not_elem_dec; by vm_compute.
  - assert (Ht : forall ns, bool_decide (Forall (fun n => Forall is_char n) ns) = true -> bool_decide (Forall (fun n => 10 ∉ n) ns) = true ->
      StronglySorted le ns -> tidy ns).
    { intros ns H1 H2 Hs. split_and!; [by apply (bool_decide_eq_true_1 _) | by apply (bool_decide_eq_true_1 _) | done]. }
    assert (Hs : forall a b, cmp a b < 0 -> StronglySorted le [a; b]).
    { intros a b Hab. repeat constructor. unfold le. lia. }
    split; [done |]. intros i nd nd' ns Hi Hi' Hns. destruct i as [| [| [| i]]]; try discriminate Hns;
      injection Hi as <-; injection Hi' as <-; injection Hns as <-.
    + constructor; [exists sortlow, (bytes "m!") | apply Ht; [by vm_compute | by vm_compute | apply Hs; by vm_compute] | | done].
      * split_and!; [apply lookup_insert_eq | apply not_elem_dec; by vm_compute | apply not_elem_dec; by vm_compute].
      * repeat constructor; by vm_compute.
    + constructor; [exists (bytes "m!"), sorthigh | apply Ht; [by vm_compute | by vm_compute | apply Hs; by vm_compute] | | done].
      * split_and!; [by vm_compute | apply not_elem_dec; by vm_compute | apply not_elem_dec; by vm_compute].
      * repeat constructor; by vm_compute.
Qed.

Lemma matchnames_and_witness : exists l,
  matchnames [32; 9; 10] (fun _ => true) true two_files [(bytes "ab", 0); (bytes "max", 0)] true false (mkLoaded 7 []) = Some (1, l) /\
  (forall t, t ∈ tags [32; 9; 10] 2 l <->
    forall w, w ∈ [(bytes "ab", 0); (bytes "max", 0)] -> tagged [32; 9; 10] two_nodes two_parts w.1 t) /\
  Forall (fun e => e.1 ∈ reached (bytes "ab") two_nodes two_parts) l /\
  (forall w, w ∈ [(bytes "ab", 0); (bytes "max", 0)] ->
    (forall x, x ∈ reached w.1 two_nodes two_parts -> x ∈ found w.1 (concat two_parts)) /\
    (reaches w.1 two_nodes two_parts -> reached w.1 two_nodes two_parts = found w.1 (concat two_parts))).
Proof.
  assert (Hrange : forall s, cmp sortlow s <= 0 -> cmp s sorthigh < 0 -> in_range two_nodes s).
  { intros s H1 H2. split; intros nd [= <-]; [exact H1 | exact H2]. }
  assert (Hok : forall s, bool_decide (Forall is_char s) = true -> bool_decide (33 ∈ s) = false ->
    cmp sortlow s <= 0 -> cmp s sorthigh < 0 -> search_ok two_nodes s).
  { intros s H1 H2 H3 H4. constructor; [| by apply Hrange].
    split; [by apply (bool_decide_eq_true_1 _) | by apply not_elem_dec]. }
  apply (matchnames_and [32; 9; 10] (fun _ => true) two_files two_nodes two_parts (bytes "ab", 0) [(bytes "max", 0)] (mkLoaded 7 [])).
  - apply usual_blanks.
  - done.
  - apply two_ok.
  - by intros nd [= <-].
  - intros p lines Hp. unfold two_files in Hp. cbn [parts] in Hp.
    apply lookup_insert_Some in Hp as [[_ <-] | [_ Hp]]; [vm_compute; congruence |].
    apply lookup_insert_Some in Hp as [[_ <-] | [_ Hp]]; [vm_compute; congruence | by rewrite lookup_empty in Hp].
  - by repeat constructor.
  - by vm_compute.
  - repeat constructor; try done; apply Hok; by vm_compute.
Defined.

Example two_found :
  matchnames [32; 9; 10] (fun _ => true) true two_files [(bytes "ab", 0); (bytes "ma", 0)] true false (mkLoaded 7 []) =
    Some (1, [(bytes "abc u1", 0)]).
Proof. by vm_compute. Qed.

(** A boundary is found where there are no names. *)
Example boundary_found :
  ('(_, l, _) ← matchnl (fun _ => true) (initnmdir (mkFiles None ∅)) [] (bytes "!") (mkDir [] 2 new_nodes) true (mkLoaded 7 []);
   Some l) = Some [(bytes "!", 0)].
Proof. by vm_compute. Qed.

(** The search stops at a part file without matches, even if the string reaches
    over its boundary: [max] and [moe] are not found. *)
Example search_stops :
  ('(_, l, _) ← matchnl (fun _ => true) two_files [] (bytes "m") (mkDir [] 3 two_nodes) true (mkLoaded 7 []);
   Some l) = Some [] /\
  reached (bytes "m") two_nodes two_parts = [] /\
  found (bytes "m") (concat two_parts) = [bytes "max u1"; bytes "moe u2"].
Proof. by vm_compute. Qed.

(** Of three equal entries two are left. *)
Example nlrdup_three : nlrdup [32; 9; 10] (replicate 3 (bytes "roth u1", 0)) 2 = replicate 2 (bytes "roth u1", 0).
Proof. by vm_compute. Qed.
