(* ===== verification/TextParts.v ===== *)
(** Text part files (src/CV2/resp/loadtext.c, storetex.c, partnum.c, getline.c;
    src/CV2/db/updatepa.c, isempty.c; src/CV2/sys2/syspdir.c;
    src/CV2/attach/paratthe.c, clearatt.c, copyatta.c, getattad.c; built with
    [C_LINK] 0): how the responses of an item are kept in part files of limited
    size, changed and read.  Files can be locked, made and read.  [None] is
    undefined behaviour: an array that overflows, or the format of an attachment
    that is null.  Numbers of responses and lines are small enough for a [short]. *)
From stdpp Require Import gmap functions sorting list_numbers.
From S2P Require Import Prelude Memory Chix ChixCore ChixEdit ChixSearch ChixParse Vartab Str Numbers Html FileLines.

(** ** Text buffers *)

Record attach_t := mkAttach {
  a_db_name : text; a_name : text; a_format : option text; a_size : Z; a_rec_len : Z }.

(** What the arrays of a text buffer hold for one response. *)
Record slot := mkSlot {
  s_start : Z; s_stop : Z;
  s_lines : Z; s_bytes : Z; s_prop : Z; s_copied : text; s_attach : option attach_t }.

Record textbuf := mkBuf {
  t_type : Z; t_item : Z; t_cnum : Z;
  t_rused : Z; t_lused : Z; t_rfirst : Z; t_rlast : Z; t_firstline : Z; t_lastline : Z;
  t_line : Z -> text; t_slot : Z -> slot }.

Definition set_span (start stop : Z) (s : slot) : slot :=
  mkSlot start stop (s_lines s) (s_bytes s) (s_prop s) (s_copied s) (s_attach s).
Definition set_size (lines bytes : Z) (s : slot) : slot :=
  mkSlot (s_start s) (s_stop s) lines bytes (s_prop s) (s_copied s) (s_attach s).
Definition set_prop (prop : Z) (s : slot) : slot :=
  mkSlot (s_start s) (s_stop s) (s_lines s) (s_bytes s) (i16 prop) (s_copied s) (s_attach s).
Definition set_copied (copied : text) (s : slot) : slot :=
  mkSlot (s_start s) (s_stop s) (s_lines s) (s_bytes s) (s_prop s) copied (s_attach s).
Definition set_attach (a : option attach_t) (s : slot) : slot :=
  mkSlot (s_start s) (s_stop s) (s_lines s) (s_bytes s) (s_prop s) (s_copied s) a.

Definition in_slot (b : Z) (g : slot -> slot) (t : textbuf) : textbuf :=
  mkBuf (t_type t) (t_item t) (t_cnum t) (t_rused t) (t_lused t) (t_rfirst t) (t_rlast t)
    (t_firstline t) (t_lastline t) (t_line t) (<[b := g (t_slot t b)]> (t_slot t)).
Definition set_text (lused : Z) (line : Z -> text) (t : textbuf) : textbuf :=
  mkBuf (t_type t) (t_item t) (t_cnum t) (t_rused t) lused (t_rfirst t) (t_rlast t)
    (t_firstline t) (t_lastline t) line (t_slot t).
Definition set_used (rused rlast lastline : Z) (t : textbuf) : textbuf :=
  mkBuf (t_type t) (t_item t) (t_cnum t) rused (t_lused t) (t_rfirst t) rlast
    (t_firstline t) lastline (t_line t) (t_slot t).
Definition set_item (item : Z) (t : textbuf) : textbuf :=
  mkBuf (t_type t) item (t_cnum t) (t_rused t) (t_lused t) (t_rfirst t) (t_rlast t)
    (t_firstline t) (t_lastline t) (t_line t) (t_slot t).

(** The part files of an item, by their first response and line. *)
Abbreviation key := (Z * Z)%type.
Abbreviation partfiles := (gmap key (list text)).

(** ** Attachments *)

Definition make_attach : attach_t := mkAttach [] [] None 0 0.
Definition clear_attach (a : option attach_t) : option attach_t :=
  match a with None => None | Some _ => Some make_attach end.

Section blanks.
Context (B : list Z).
(** The formats of the known attachments. *)
Context (attach_def : list text).

Definition get_attach_def (format : text) : option text :=
  if bool_decide (format ∈ attach_def) && negb (bool_decide (format = [])) then Some format else None.

Definition par_att_header (a : attach_t) (line : text) : attach_t :=
  match get_attach_def (word B 2 line) with
  | None => mkAttach (a_db_name a) (a_name a) None (a_size a) (a_rec_len a)
  | Some def => mkAttach (word B 4 line) (a_name a) (Some def) (num_of B (word B 3 line)) (num_of B (word B 5 line))
  end.

(** ** Loading a part file *)

(** A line that starts with "+". *)
Definition plus_line (str : text) (s : slot) : slot :=
  let c1 := cval str 1 in
  if c1 =? 50 then
    set_attach (Some (par_att_header (default make_attach (s_attach s)) str)) s
  else if c1 =? 51 then set_size (num_of B (word B 2 str)) (num_of B (word B 3 str)) s
  else if c1 =? 52 then set_prop (num_of B (word B 2 str)) s
  else if c1 =? 53 then set_copied (rest_word B 2 str) s
  else s.

(** A line that goes into the buffer. *)
Definition text_line (b : Z) (str : text) (t : textbuf) : option textbuf :=
  if TB_LINES <=? t_lused t then None else
  let t' := in_slot b (fun s => set_span (s_start s) (s_stop s + 1) s) t in
  Some (set_used (t_rused t) (t_rlast t) (t_lastline t + 1) (set_text (t_lused t + 1) (<[t_lused t := str]> (t_line t)) t')).

(** The slot of a response whose header has been read. *)
Definition new_slot (lused : Z) (s : slot) : slot := mkSlot lused (lused - 1) 0 0 0 [] (clear_attach (s_attach s)).

Definition load_line (st : Z * textbuf) (str : text) : option (Z * textbuf) :=
  let '(b, t) := st in
  let c0 := cval str 0 in
  if c0 =? 35 then
    let b := t_rused t in
    if TB_RESPS <=? b then None else
    let t := in_slot b (new_slot (t_lused t)) t in
    let t := set_used (b + 1) (t_rlast t + 1) (-1) t in
    t ← text_line b str t; Some (b, t)
  else if c0 =? 43 then Some (b, in_slot b (plus_line str) t)
  else t ← text_line b (if c0 =? 32 then drop 1 str else str) t; Some (b, t).

Fixpoint load_lines (ls : list text) (st : Z * textbuf) : option (Z * textbuf) :=
  match ls with
  | [] => Some st
  | str :: ls => st ← load_line st str; load_lines ls st
  end.

(** Where a text buffer comes from: unit, conference and item. *)
Record where_t := mkWhere { w_uf : Z; w_cnum : Z; w_item : Z }.

Definition empty_buf (w : where_t) (resp lnum : Z) (t : textbuf) : textbuf :=
  in_slot 0 (set_span 0 (-1))
    (mkBuf (w_uf w) (w_item w) (w_cnum w) 0 0 resp (resp - 1) lnum (lnum - 1) (t_line t) (t_slot t)).

Definition loadtext (w : where_t) (resp lnum : Z) (ls : list text) (t : textbuf) : option textbuf :=
  '(_, t) ← load_lines ls (0, empty_buf w resp lnum t);
  Some (if t_rlast t <? t_rfirst t then set_used (t_rused t) (t_rfirst t) (t_lastline t) t else t).

(** ** Storing a part file *)

(** The lines "+2" to "+5" of a response. *)
Definition plus_lines (s : slot) : option (list text) :=
  two ← match s_attach s with
        | Some a =>
            if 0 <? a_size a then
              f ← a_format a;
              Some [bytes "+2 " ++ f ++ 32 :: show (a_size a) ++ 32 :: a_db_name a ++ 32 :: show (a_rec_len a)]
            else Some []
        | None => Some []
        end;
  Some (two ++ (if 0 <? s_lines s then [bytes "+3 " ++ show (s_lines s) ++ 32 :: show (s_bytes s)] else [])
    ++ (if 0 <? s_prop s then [bytes "+4 " ++ show (s_prop s)] else [])
    ++ (if negb (cval (s_copied s) 0 =? 0) then [bytes "+5 " ++ s_copied s] else [])).

Definition store_resp (t : textbuf) (r : Z) : option (list text) :=
  let s := t_slot t r in
  plus ← plus_lines s;
  Some (t_line t (s_start s) :: plus ++ map (fun m => 32 :: t_line t m) (seqZ (s_start s + 1) (s_stop s - s_start s))).

Fixpoint store_resps (t : textbuf) (r : Z) (n : nat) : option (list text) :=
  match n with
  | O => Some []
  | S n' => a ← store_resp t r; b ← store_resps t (r + 1) n'; Some (a ++ b)
  end.

Definition storetext (f : partfiles) (k : key) (r0 r1 : Z) (t : textbuf) : option partfiles :=
  ls ← store_resps t r0 (Z.to_nat (r1 - r0 + 1)); Some (<[k := written ls]> f).

(** ** The directory of the part files *)

Definition PDIRMAX : Z := 4000.

Definition key_lt (k x : key) : bool := (k.1 <? x.1) || (k.1 =? x.1) && (k.2 <? x.2).

(** Where an entry belongs, from the end of the list. *)
Fixpoint pdir_insert (k : key) (pdir_rev : list key) : list key :=
  match pdir_rev with
  | [] => [k]
  | x :: l => if key_lt k x then x :: pdir_insert k l else if bool_decide (k = x) then pdir_rev else k :: pdir_rev
  end.

Fixpoint pdir_read (files : list key) (pdir_rev : list key) : list key :=
  match files with
  | [] => pdir_rev
  | k :: files =>
      if PDIRMAX - 3 <=? len (pdir_insert k pdir_rev) then pdir_insert k pdir_rev
      else pdir_read files (pdir_insert k pdir_rev)
  end.

(** [syspdir], with the files in the order in which the system lists them. *)
Definition syspdir (files : list key) : list key := rev (pdir_read files []).

(** The loop of [partnum]. *)
Fixpoint partnum_loop (pdir : list key) (k : key) (p : Z) : Z :=
  match pdir with
  | [] => p
  | x :: pdir => if key_lt k x then p else partnum_loop pdir k (p + 1)
  end.

(** [partnum]: the directory, which is no longer empty, and the index. *)
Definition partnum (pdir : list key) (resp lnum : Z) : list key * Z :=
  let pdir := match pdir with [] => [(resp, lnum)] | _ => pdir end in
  (pdir, partnum_loop (tail pdir) (resp, lnum) 0).

(** ** Changing a response *)

(** The lines of a text, as [chxnextline] cuts them, and the last position. *)
Fixpoint text_lines (fuel : nat) (ctext : text) (pos : Z) : list text * Z :=
  match fuel with
  | O => ([], pos)
  | S fuel' =>
      let '(r, line, pos') := nextline_result ctext pos in
      if r =? 0 then ([], pos) else let '(ls, p) := text_lines fuel' ctext pos' in (line :: ls, p)
  end.
Definition lines_of (ctext : text) : list text := (text_lines (S (length ctext)) ctext 0).1.

Definition chxtrimmed (s : text) : text := rstrip (fun v => v =? 32) s.

Definition addline (r : Z) (str : text) (t : textbuf) : option textbuf :=
  let m := t_lused t in
  if TB_LINES <=? m then None else
  Some (set_text (m + 1) (<[m := str]> (t_line t)) (in_slot r (fun s => set_span (s_start s) m s) t)).

Fixpoint addlines (r : Z) (strs : list text) (t : textbuf) : option textbuf :=
  match strs with
  | [] => Some t
  | str :: strs => t ← addline r (chxtrimmed str) t; addlines r strs t
  end.

(** "Shift the lines of the remaining responses upward": [SWAPCHX] and
    [chxclear], for [n] lines from [q] on. *)
Fixpoint shift_lines (n : nat) (q lused : Z) (line : Z -> text) : Z -> text :=
  match n with
  | O => line
  | S n' => shift_lines n' (q + 1) (lused + 1) (<[q := []]> (<[lused := line q]> line))
  end.

Fixpoint shift_resps (n : nat) (r : Z) (t : textbuf) : textbuf :=
  match n with
  | O => t
  | S n' =>
      let s := t_slot t r in
      let size := s_stop s - s_start s + 1 in
      let lused := t_lused t + Z.max 0 size in
      let t := set_text lused (shift_lines (Z.to_nat size) (s_start s) (t_lused t) (t_line t)) t in
      shift_resps n' (r + 1) (in_slot r (set_span (lused - Z.max 0 size) (lused - 1)) t)
  end.

(** What is known of a response that is entered. *)
Record entry := mkEntry {
  e_text : text; e_header : text; e_title : option text;
  e_attach : option attach_t; e_prop : Z; e_copied : option text }.

(** The attachment, by [copy_attach] or [free_attach]. *)
Definition put_attach (e : entry) (s : slot) : slot :=
  match e_attach e with
  | Some a => if 0 <? a_size a then set_attach (Some a) s else if a_size a =? 0 then set_attach None s else s
  | None => set_attach None s
  end.

Definition put_props (e : entry) (s : slot) : slot :=
  let s := set_prop (e_prop e) s in
  match e_copied e with Some c => set_copied c s | None => s end.

Definition put_title (r : Z) (e : entry) (t : textbuf) : option textbuf :=
  match e_title e with None => Some t | Some title => addline r title t end.

(** Case (A): the text fits into the buffer; what is stored. *)
Definition update_in (resp space : Z) (e : entry) (t : textbuf) : option textbuf :=
  let r := resp - t_rfirst t in
  let t := if 0 <? space then
      shift_resps (Z.to_nat (t_rlast t - resp)) (r + 1) (set_text (s_start (t_slot t r)) (t_line t) t)
    else t in
  let t := in_slot r (fun s => put_attach e (put_props e (set_span (t_lused t) (s_stop s) s))) t in
  t ← addline r (e_header e) t;
  t ← put_title r e t;
  addlines r (lines_of (e_text e)) t.

(** The loop that adds the text, and writes out the buffer when it is full: the
    files, the buffer, the slot and the file that is locked. *)
Fixpoint put_lines (resp suggest_max : Z) (strs : list text) (lnum : Z) (f : partfiles) (t : textbuf) (r : Z) (k : key)
    : option (partfiles * textbuf * Z * key) :=
  match strs with
  | [] => Some (f, t, r, k)
  | str :: strs =>
      if suggest_max - 5 <? t_lused t + 1 then
        f ← storetext f k 0 r t;
        let t := in_slot 0 (fun s => set_span 0 (s_stop s) s) (set_text 0 (t_line t) t) in
        t ← addline 0 (32 :: chxtrimmed str) t;
        put_lines resp suggest_max strs (lnum + 1) f t 0 (resp, lnum)
      else
        t ← addline r (chxtrimmed str) t;
        put_lines resp suggest_max strs (lnum + 1) f t r k
  end.

(** Is the selected range of the buffer empty? *)
Definition is_empty (t : textbuf) (r0 r1 : Z) : bool :=
  forallb (fun b => s_stop (t_slot t b) <=? s_start (t_slot t b)) (seqZ r0 (r1 - r0 + 1)).

Section update.
(** Whether the part files are those of messages ([XUMF]). *)
Context (xumf : bool).

Definition store_unless_empty (f : partfiles) (k : key) (r0 r1 : Z) (t : textbuf) : option partfiles :=
  if negb xumf || negb (is_empty t r0 r1) then storetext f k r0 r1 t else Some f.

(** Case (D): the response is the last one in the buffer. *)
Definition update_last (resp needslines suggest_max : Z) (e : entry) (f : partfiles) (t : textbuf) (k : key)
    : option (partfiles * textbuf) :=
  let r := resp - t_rfirst t in
  let s := t_slot t r in
  let t := set_text (s_start s) (t_line t) t in
  let space := s_stop s - s_start s + 1 in
  let fits := needslines <? suggest_max - t_lused t + space - 10 in
  '(f, t, r, k) ←
    if negb fits && (0 <? r) then
      f ← store_unless_empty f k 0 (r - 1) t;
      Some (f, set_text 0 (t_line t) t, 0, (resp, 0))
    else Some (f, t, r, k);
  let t := in_slot r (fun s => put_props e (set_span (t_lused t) (s_stop s) s)) t in
  t ← addline r (e_header e) t;
  let t := in_slot r (put_attach e) t in
  t ← put_title r e t;
  let lnum := match e_title e with None => 1 | Some _ => 2 end in
  '(f, t, r, k) ← put_lines resp suggest_max (lines_of (e_text e)) lnum f t r k;
  f ← storetext f k 0 r t;
  Some (f, set_item (-1) t).

(** "delete partfiles P+1 through Q". *)
Fixpoint delete_parts (pdir : list key) (resp : Z) (f : partfiles) : partfiles :=
  match pdir with
  | [] => f
  | k :: pdir => if k.1 =? resp then delete_parts pdir resp (delete k f) else f
  end.

(** What [updatepart] does with the part file [k] in the buffer. *)
Definition update_loaded (resp : Z) (e : entry) (f : partfiles) (t : textbuf) (k : key) : option (partfiles * textbuf) :=
  let suggest_max := TB_LINES / 2 in
  let '(ls, linepos) := text_lines (S (length (e_text e))) (e_text e) 0 in
  let needslines := len ls in
  let t := in_slot (resp - t_rfirst t) (set_size needslines linepos) t in
  let r := resp - t_rfirst t in
  let space := s_stop (t_slot t r) - s_start (t_slot t r) + 1 in
  let fits := needslines <? suggest_max - t_lused t + space - 10 in
  if (resp <? t_rlast t) && fits then
    t ← update_in resp space e t;
    f ← storetext f k 0 (t_rused t - 1) t;
    Some (f, set_item (-1) t)
  else
    '(f, t) ← if resp <? t_rlast t then
        f ← store_unless_empty f (t_rfirst t + r + 1, 0) (r + 1) (t_rused t - 1) t;
        Some (f, set_used (t_rused t) (t_rfirst t + r) (t_lastline t) t)
      else Some (f, t);
    let t := if t_rlast t <? resp then
        in_slot r (set_span (t_lused t) (t_lused t - 1)) (set_used (t_rused t) resp (t_lastline t) t)
      else t in
    if TB_RESPS <=? r then None else
    update_last resp needslines suggest_max e f t k.

(** [updatepart]: the files of the item and the text buffer.  [files] is the
    listing of the directory. *)
Definition updatepart (w : where_t) (resp : Z) (e : entry) (files : list key) (f : partfiles) (t : textbuf)
    : option (partfiles * textbuf) :=
  let '(pdir, p) := partnum (syspdir files) resp 0 in
  '(pr, pl) ← zget pdir p;
  let fresh := (p =? len pdir - 1) && (0 <? pl) in
  let k := if fresh then (resp, 0) else (pr, pl) in
  let later := if fresh then [] else drop (Z.to_nat (p + 1)) pdir in
  let f := delete_parts later k.1 f in
  t ← match f !! k with
      | Some ls => loadtext w k.1 k.2 ls t
      | None => Some (empty_buf w k.1 k.2 t)
      end;
  update_loaded resp e f t k.
End update.

(** ** Reading a line *)

(** The part files of all items, and the directory that was read last. *)
Record text_state := mkText { ts_files : where_t -> partfiles; ts_ptype : Z; ts_pdir : list key }.

(** What [getline2] takes from the buffer. *)
Definition pluck (t : textbuf) (response linenum : Z) : option text :=
  let b := response - t_rfirst t in
  if (b <? 0) || (t_rlast t <? response) then None else
  let m := if response =? t_rfirst t then linenum - t_firstline t else linenum in
  let p := s_start (t_slot t b) + m in
  if s_stop (t_slot t b) <? p then None else Some (t_line t p).

(** [getline2] when the buffer does not hold the line: the directory is read,
    with the listing of its files, and then the part file. *)
Definition getline_load (w : where_t) (response linenum : Z) (files : list key) (st : text_state) (t : textbuf)
    : option (option text * text_state * textbuf) :=
  let st := mkText (ts_files st) (w_uf w) (syspdir files) in
  match ts_pdir st with
  | [] => Some (None, st, t)
  | _ =>
      k ← zget (ts_pdir st) (partnum (ts_pdir st) response linenum).2;
      match ts_files st w !! k with
      | None => Some (None, st, empty_buf w k.1 k.2 t)
      | Some ls => t ← loadtext w k.1 k.2 ls t; Some (pluck t response linenum, st, t)
      end
  end.

(** [getline2]: the line, and the state. *)
Definition getline2 (w : where_t) (response linenum : Z) (files : list key) (st : text_state) (t : textbuf)
    : option (option text * text_state * textbuf) :=
  let right_item := (w_item w =? t_item t) && (t_type t =? w_uf w) && (w_cnum w =? t_cnum t) in
  let after_first := (t_rfirst t <? response) || (response =? t_rfirst t) && (t_firstline t <=? linenum) in
  let beyond_last := (t_rlast t <? response) || (response =? t_rlast t) && (t_lastline t <? linenum) in
  if negb right_item || negb after_first || beyond_last then
    if right_item && after_first && beyond_last && (ts_ptype st =? w_uf w) then
      let '(pdir, p) := partnum (ts_pdir st) response linenum in
      k ← zget pdir p;
      if bool_decide (k = (t_rfirst t, t_firstline t)) then Some (None, mkText (ts_files st) (ts_ptype st) pdir, t)
      else getline_load w response linenum files st t
    else getline_load w response linenum files st t
  else Some (pluck t response linenum, st, t).
End blanks.
