(* ===== verification/TextBuf.v ===== *)
(** Text buffers and part files: what [storetext] writes for the responses that
    a buffer holds, and that [loadtext] reads it back.  For responses without
    attachments. *)
From stdpp Require Import gmap functions sorting list_numbers.
From S2P Require Import Prelude Memory Chix ChixCore ChixEdit ChixSearch ChixParse Vartab Str Numbers Html FileLines TextParts.

(** ** Chunks *)

(** A chunk is what a part file holds of a response: its first line and others. *)
Abbreviation chunk := (list text).

(** A line of information about a response, not about an attachment. *)
Definition is_plus (l : text) : Prop := cval l 0 = 43 /\ cval l 1 <> 50 /\ one_line l.

(** The lines of a chunk in a part file. *)
Definition chunk_lines (c : chunk) (ls : list text) : Prop :=
  match c with
  | [] => False
  | h :: body => exists plus, Forall is_plus plus /\ ls = h :: plus ++ map (cons 32) body
  end.

(** A response starts with its header. *)
Definition is_header (c : chunk) : Prop := match c with [] => False | h :: _ => cval h 0 = 35 end.

(** No attachment, and no newline in the note on where it was copied from. *)
Definition slot_ok (s : slot) : Prop := one_line (s_copied s) /\ s_attach s = None.
Definition slots_ok (t : textbuf) : Prop := forall i, slot_ok (t_slot t i).

(** Slot [i] holds a chunk, from line [p] on. *)
Record holds (t : textbuf) (i p : Z) (c : chunk) : Prop := {
  holds_start : s_start (t_slot t i) = p;
  holds_stop : s_stop (t_slot t i) = p + len c - 1;
  holds_lines : forall j x, c !! j = Some x -> t_line t (p + Z.of_nat j) = x;
}.

(** Chunks one after the other, from slot [i] and line [p] on. *)
Fixpoint holds_all (t : textbuf) (i p : Z) (cs : list chunk) : Prop :=
  match cs with
  | [] => True
  | c :: cs => holds t i p c /\ holds_all t (i + 1) (p + len c) cs
  end.

Lemma holds_all_app t i p cs ds :
  holds_all t i p (cs ++ ds) <-> holds_all t i p cs /\ holds_all t (i + len cs) (p + len (concat cs)) ds.
Proof.
  revert i p. induction cs as [| c cs IH]; intros i p; cbn [app holds_all concat].
  - change (len (@nil chunk)) with 0. change (len (@nil text)) with 0. rewrite !Z.add_0_r. tauto.
  - rewrite IH, len_cons, len_app.
    replace (i + (len cs + 1)) with (i + 1 + len cs) by lia. replace (p + (len c + len (concat cs))) with (p + len c + len (concat cs)) by lia. tauto.
Qed.

(** A chunk is where it was if its slot and its lines are. *)
Lemma holds_same t t' i p c : holds t i p c ->
  s_start (t_slot t' i) = s_start (t_slot t i) -> s_stop (t_slot t' i) = s_stop (t_slot t i) ->
  (forall m, p <= m < p + len c -> t_line t' m = t_line t m) -> holds t' i p c.
Proof.
  intros [H1 H2 H3] E1 E2 El. constructor; [congruence | congruence |]. intros j x Hj. rewrite El; [by apply H3 |].
  apply lookup_lt_Some in Hj. unfold len. lia.
Qed.

Lemma holds_all_same t t' i p cs : holds_all t i p cs ->
  (forall k, i <= k < i + len cs -> s_start (t_slot t' k) = s_start (t_slot t k) /\ s_stop (t_slot t' k) = s_stop (t_slot t k)) ->
  (forall m, p <= m < p + len (concat cs) -> t_line t' m = t_line t m) -> holds_all t' i p cs.
Proof.
  revert i p. induction cs as [| c cs IH]; intros i p; cbn [holds_all concat]; [done |]. intros [H1 H2] Hs Hl.
  rewrite len_cons in Hs. rewrite len_app in Hl. len_pos. destruct (Hs i ltac:(lia)) as [E1 E2]. split.
  - eapply holds_same; [exact H1 | done | done |]. intros m Hm. apply Hl. lia.
  - apply IH; [done | |]; [intros k Hk; apply Hs; lia | intros m Hm; apply Hl; lia].
Qed.

(** ** Storing *)

Lemma cval_app_l (s t : text) i : 0 <= i < len s -> cval (s ++ t) i = cval s i.
Proof. intros Hi. unfold cval. by rewrite lookup_app_l by (unfold len in Hi; lia). Qed.

Lemma plus_lines_spec s : slot_ok s -> exists plus, plus_lines s = Some plus /\ Forall is_plus plus.
Proof.
  intros [Hc Ha]. unfold plus_lines. rewrite Ha. cbn [mbind option_bind app]. eexists. split; [done |].
  assert (Hnum : forall c n (t : text), c <> 10 -> c <> 50 -> one_line t -> is_plus ([43; c; 32] ++ show n ++ t)).
  { intros c n t H1 H2 Ht. split_and!; [done | done |]. rewrite !one_line_app. split_and!; [| apply one_line_show | done].
    apply (one_line_cons 43 [c; 32]). split; [done |]. apply one_line_cons. split; [done |]. one_line. }
  rewrite !Forall_app. split_and!.
  - destruct (0 <? s_lines s); [| constructor]. constructor; [| constructor].
    apply (Hnum 51 (s_lines s) (32 :: show (s_bytes s))); [done | done |].
    apply one_line_cons. split; [done | apply one_line_show].
  - destruct (0 <? s_prop s); [| constructor]. constructor; [| constructor].
    rewrite <- (app_nil_r (show _)). apply (Hnum 52); [done | done | apply one_line_nil].
  - destruct (negb _); [| constructor]. constructor; [| constructor]. split_and!; [done | done |].
    apply one_line_app. split; [one_line | done].
Qed.

Lemma map_seqZ_lines t p (body : list text) :
  (forall j x, body !! j = Some x -> t_line t (p + Z.of_nat j) = x) ->
  map (fun m => 32 :: t_line t m) (seqZ p (len body)) = map (cons 32) body.
Proof.
  intros H. apply list_eq. intros j. rewrite !list_lookup_fmap. destruct (body !! j) as [x |] eqn:E.
  - pose proof (lookup_lt_Some _ _ _ E). rewrite lookup_seqZ_lt by (unfold len; lia). cbn [fmap option_fmap option_map]. by rewrite (H j x E).
  - apply lookup_ge_None in E. by rewrite lookup_seqZ_ge by (unfold len; lia).
Qed.

Lemma store_resp_spec t i p c : slot_ok (t_slot t i) -> holds t i p c -> c <> [] ->
  exists ls, store_resp t i = Some ls /\ chunk_lines c ls.
Proof.
  intros Hs [H1 H2 H3] Hc. destruct c as [| h body]; [done |]. unfold store_resp.
  destruct (plus_lines_spec _ Hs) as (plus & -> & Hp). cbn [mbind option_bind]. eexists. split; [done |].
  exists plus. split; [done |]. rewrite H1, H2, len_cons. f_equal.
  - specialize (H3 0%nat h eq_refl). by rewrite Z.add_0_r in H3.
  - f_equal. replace (p + (len body + 1) - 1 - p) with (len body) by lia. apply map_seqZ_lines.
    intros j x Hj. specialize (H3 (S j) x Hj). rewrite <- H3. f_equal. lia.
Qed.

(** Chunks in the slots from [i] on, wherever their lines are. *)
Definition holds_each (t : textbuf) (i : Z) (cs : list chunk) : Prop :=
  forall j c, cs !! j = Some c -> exists p, holds t (i + Z.of_nat j) p c.

Lemma holds_all_each t i p cs : holds_all t i p cs -> holds_each t i cs.
Proof.
  revert i p. induction cs as [| c cs IH]; intros i p Hh j d Hj; [done |]. destruct Hh as [H1 H2]. destruct j as [| j].
  - injection Hj as <-. exists p. by rewrite Z.add_0_r.
  - destruct (IH _ _ H2 j d Hj) as [q Hq]. exists q. by replace (i + Z.of_nat (S j)) with (i + 1 + Z.of_nat j) by lia.
Qed.

Lemma store_resps_spec t i cs : slots_ok t -> holds_each t i cs -> Forall (fun c => c <> []) cs ->
  exists lss, store_resps t i (length cs) = Some (concat lss) /\ Forall2 chunk_lines cs lss.
Proof.
  intros Hs. revert i. induction cs as [| c cs IH]; intros i Hh Hne; [by exists []; split; [| constructor] |].
  apply Forall_cons in Hne as [Hc Hne]. cbn [length store_resps].
  destruct (Hh 0%nat c eq_refl) as [p H1]. rewrite Z.add_0_r in H1.
  destruct (store_resp_spec t i p c (Hs i) H1 Hc) as (ls & -> & Hl). destruct (IH (i + 1)) as (lss & -> & Hls); [| done |].
  - intros j d Hj. destruct (Hh (S j) d Hj) as [q Hq]. exists q. by replace (i + 1 + Z.of_nat j) with (i + Z.of_nat (S j)) by lia.
  - exists (ls :: lss). by split; [| constructor].
Qed.

Lemma chunk_one_line c ls : chunk_lines c ls -> Forall one_line c -> Forall one_line ls.
Proof.
  destruct c as [| h body]; [done |]. intros (plus & Hp & ->) Hc. apply Forall_cons in Hc as [Hh Hb]. constructor; [done |].
  apply Forall_app. split; [eapply Forall_impl; [exact Hp |]; by intros l (_ & _ & ?) |].
  apply Forall_map. eapply Forall_impl; [exact Hb |]. intros l Hl. apply one_line_cons. by split.
Qed.

(** The lines of a part file that holds some chunks. *)
Definition file_lines (cs : list chunk) (ls : list text) : Prop := exists lss, Forall2 chunk_lines cs lss /\ ls = concat lss.

Lemma storetext_each f k t i cs : slots_ok t -> holds_each t i cs -> Forall (fun c => c <> [] /\ Forall one_line c) cs ->
  exists ls, storetext f k i (i + len cs - 1) t = Some (<[k := ls]> f) /\ file_lines cs ls.
Proof.
  intros Hs Hh Hc. unfold storetext. replace (Z.to_nat (i + len cs - 1 - i + 1)) with (length cs) by (unfold len; lia).
  destruct (store_resps_spec t i cs Hs Hh) as (lss & -> & Hl); [eapply Forall_impl; [exact Hc |]; by intros c [? _] |].
  exists (concat lss). split; [| by exists lss]. cbn [mbind option_bind]. do 2 f_equal. apply written_id.
  apply Forall_concat. clear Hh. induction Hl as [| c ls cs lss Hcl Hl IH]; constructor.
  - apply Forall_cons in Hc as [[_ Hc] _]. by eapply chunk_one_line.
  - apply IH. by apply Forall_cons in Hc as [_ Hc].
Qed.

Lemma storetext_spec f k t i p cs : slots_ok t -> holds_all t i p cs -> Forall (fun c => c <> [] /\ Forall one_line c) cs ->
  exists ls, storetext f k i (i + len cs - 1) t = Some (<[k := ls]> f) /\ file_lines cs ls.
Proof. intros Hs Hh. apply storetext_each; [done |]. by eapply holds_all_each. Qed.

(** ** Loading *)

(** Where a buffer comes from, which loading its lines leaves alone. *)
Definition origin (t : textbuf) : Z * Z * Z * Z * Z := (t_type t, t_item t, t_cnum t, t_rfirst t, t_firstline t).

(** The counters of a buffer. *)
Definition counts (t : textbuf) : Z * Z * Z * Z := (t_rused t, t_lused t, t_rlast t, t_lastline t).

Lemma slot_at b g t : t_slot (in_slot b g t) b = g (t_slot t b).
Proof. apply fn_lookup_insert. Qed.
Lemma slot_ne b g t i : i <> b -> t_slot (in_slot b g t) i = t_slot t i.
Proof. intros H. by apply fn_lookup_insert_ne. Qed.

Lemma slots_in b g t : slots_ok t -> (slot_ok (t_slot t b) -> slot_ok (g (t_slot t b))) -> slots_ok (in_slot b g t).
Proof.
  intros H Hg i. destruct (decide (i = b)) as [-> | Hne]; [rewrite slot_at; apply Hg, H | rewrite slot_ne by done; apply H].
Qed.

Section load.
Context (B : list Z) (attach_def : list text).

Lemma load_lines_app ls ks st : load_lines B attach_def (ls ++ ks) st = st ← load_lines B attach_def ls st; load_lines B attach_def ks st.
Proof.
  revert st. induction ls as [| l ls IH]; intros st; [done |]. cbn [app load_lines].
  destruct (load_line B attach_def st l) as [st' |]; [apply IH | done].
Qed.

(** What lines of information leave alone. *)
Record info_only (b : Z) (t t' : textbuf) : Prop := {
  info_origin : origin t' = origin t;
  info_counts : counts t' = counts t;
  info_line : t_line t' = t_line t;
  info_span : s_start (t_slot t' b) = s_start (t_slot t b) /\ s_stop (t_slot t' b) = s_stop (t_slot t b);
  info_slots : forall i, i <> b -> t_slot t' i = t_slot t i;
  info_ok : slots_ok t -> slots_ok t';
}.

Lemma plus_line_ok str s : is_plus str -> slot_ok s -> slot_ok (plus_line B attach_def str s).
Proof.
  intros (_ & H2 & Ho) [Hc Ha]. unfold plus_line. rewrite (proj2 (Z.eqb_neq _ _)) by done.
  destruct (_ =? 51); [done |]. destruct (_ =? 52); [done |]. destruct (_ =? 53); [| done].
  split; [by apply one_line_rest | done].
Qed.

Lemma plus_line_span str s : s_start (plus_line B attach_def str s) = s_start s /\ s_stop (plus_line B attach_def str s) = s_stop s.
Proof. unfold plus_line. by repeat destruct (_ =? _). Qed.

Lemma load_plus plus b t : Forall is_plus plus -> exists t', load_lines B attach_def plus (b, t) = Some (b, t') /\ info_only b t t'.
Proof.
  intros Hp. revert t. induction Hp as [| str plus Hs Hp IH]; intros t; [by exists t; split; [| constructor] |].
  cbn [load_lines]. pose proof Hs as (E & _).
  assert (El : load_line B attach_def (b, t) str = Some (b, in_slot b (plus_line B attach_def str) t)) by (unfold load_line; by rewrite E).
  rewrite El. cbn [mbind option_bind].
  destruct (IH (in_slot b (plus_line B attach_def str) t)) as (t' & -> & [H1 H2 H3 [H4 H5] H6 H7]). exists t'. split; [done |].
  destruct (plus_line_span str (t_slot t b)) as [E1 E2]. constructor; [exact H1 | exact H2 | exact H3 | | |].
  - rewrite H4, H5, slot_at. by split.
  - intros i Hi. rewrite H6 by done. by apply slot_ne.
  - intros Hok. apply H7. apply slots_in; [done |]. by apply plus_line_ok.
Qed.

(** What lines of text add. *)
Record adds (b : Z) (t t' : textbuf) (body : list text) : Prop := {
  adds_origin : origin t' = origin t;
  adds_counts : counts t' = (t_rused t, t_lused t + len body, t_rlast t, t_lastline t + len body);
  adds_span : s_start (t_slot t' b) = s_start (t_slot t b) /\ s_stop (t_slot t' b) = s_stop (t_slot t b) + len body;
  adds_slots : forall i, i <> b -> t_slot t' i = t_slot t i;
  adds_new : forall j x, body !! j = Some x -> t_line t' (t_lused t + Z.of_nat j) = x;
  adds_old : forall m, m < t_lused t -> t_line t' m = t_line t m;
  adds_ok : slots_ok t -> slots_ok t';
}.

Lemma adds_nil b t : adds b t t [].
Proof. constructor; try done; unfold counts; change (len []) with 0; by rewrite ?Z.add_0_r. Qed.

Lemma adds_cons b t t1 t2 x body : adds b t t1 [x] -> adds b t1 t2 body -> adds b t t2 (x :: body).
Proof.
  intros [A1 A2 [A3 A4] A5 A6 A7 A8] [C1 C2 [C3 C4] C5 C6 C7 C8]. injection A2 as E1 E2 E3 E4. change (len [x]) with 1 in *.
  constructor; [congruence | | | | | |].
  - by rewrite C2, E1, E2, E3, E4, len_cons, <- !Z.add_assoc, (Z.add_comm 1).
  - rewrite len_cons. split; [congruence | lia].
  - intros i Hi. rewrite C5, A5 by done. done.
  - intros [| j] y Hy.
    + injection Hy as <-. rewrite C7 by lia. by apply (A6 0%nat).
    + rewrite <- (C6 j y Hy). f_equal. lia.
  - intros m Hm. rewrite C7, A7 by lia. done.
  - auto.
Qed.

Lemma text_line_spec b x t : t_lused t < TB_LINES -> exists t', text_line b x t = Some t' /\ adds b t t' [x].
Proof.
  intros Hl. unfold text_line. rewrite (proj2 (Z.leb_gt _ _)) by done. eexists. split; [done |].
  constructor; try done.
  - cbn. rewrite fn_lookup_insert. by split.
  - intros i Hi. by apply slot_ne.
  - intros [| j] y Hy; [| done]. injection Hy as <-. rewrite Z.add_0_r. apply fn_lookup_insert.
  - intros m Hm. apply fn_lookup_insert_ne. lia.
  - intros Hok i. cbn [t_slot set_used set_text]. by apply slots_in.
Qed.

Lemma load_body body b t : t_lused t + len body <= TB_LINES ->
  exists t', load_lines B attach_def (map (cons 32) body) (b, t) = Some (b, t') /\ adds b t t' body.
Proof.
  revert t. induction body as [| x body IH]; intros t Hl; [exists t; split; [done | apply adds_nil] |].
  rewrite len_cons in Hl. len_pos. cbn [map load_lines]. unfold load_line. change (cval (32 :: x) 0) with 32.
  change (32 =? 35) with false. change (32 =? 43) with false. change (32 =? 32) with true. cbn iota.
  destruct (text_line_spec b x t) as (t1 & E1 & A1); [lia |]. change (drop 1 (32 :: x)) with x. rewrite E1. cbn [mbind option_bind].
  pose proof (adds_counts _ _ _ _ A1) as Ec. injection Ec as _ E2 _ _. change (len [x]) with 1 in E2.
  destruct (IH t1) as (t2 & E3 & A2); [lia |]. rewrite E3. exists t2. split; [done | by eapply adds_cons].
Qed.
End load.

Lemma quad_eq {A B C D} (a a' : A) (b b' : B) (c c' : C) (d d' : D) : a = a' -> b = b' -> c = c' -> d = d' -> (a, b, c, d) = (a', b', c', d').
Proof. congruence. Qed.

(** A response that is loaded into the next slot. *)
Record loads (t t' : textbuf) (cs : list chunk) (lastline : Z) : Prop := {
  loads_origin : origin t' = origin t;
  loads_counts : counts t' = (t_rused t + len cs, t_lused t + len (concat cs), t_rlast t + len cs, lastline);
  loads_holds : holds_all t' (t_rused t) (t_lused t) cs;
  loads_slots : forall i, i < t_rused t -> t_slot t' i = t_slot t i;
  loads_lines : forall m, m < t_lused t -> t_line t' m = t_line t m;
  loads_ok : slots_ok t -> slots_ok t';
}.

Lemma new_slot_ok lused s : slot_ok s -> slot_ok (new_slot lused s).
Proof. intros [_ Ha]. unfold new_slot. rewrite Ha. split; [apply one_line_nil | done]. Qed.

Section load.
Context (B : list Z) (attach_def : list text).

Lemma load_response h body ls b t : chunk_lines (h :: body) ls -> cval h 0 = 35 -> t_rused t < TB_RESPS ->
  t_lused t + len (h :: body) <= TB_LINES ->
  exists t', load_lines B attach_def ls (b, t) = Some (t_rused t, t') /\ loads t t' [h :: body] (len body).
Proof.
  intros (plus & Hp & ->) Hh Hr Hl. rewrite len_cons in Hl. len_pos. cbn [load_lines].
  set (b' := t_rused t) in *. set (t0 := set_used (b' + 1) (t_rlast t + 1) (-1) (in_slot b' (new_slot (t_lused t)) t)).
  assert (El : load_line B attach_def (b, t) h = t1 ← text_line b' h t0; Some (b', t1)).
  { unfold load_line. rewrite Hh. change (35 =? 35) with true. cbn iota. fold b'. by rewrite (proj2 (Z.leb_gt _ _)) by done. }
  rewrite El. clear El. destruct (text_line_spec b' h t0) as (t1 & -> & A1); [cbn; lia |]. cbn [mbind option_bind].
  rewrite load_lines_app. destruct (load_plus B attach_def plus b' t1 Hp) as (t2 & -> & [I1 I2 I3 [I4 I5] I6 I7]). cbn [mbind option_bind].
  pose proof (adds_counts _ _ _ _ A1) as Ec. cbn in Ec. change (len [h]) with 1 in Ec. injection I2 as E1 E2 E3 E4. injection Ec as E5 E6 E7 E8.
  destruct (load_body B attach_def body b' t2) as (t3 & -> & A2); [lia |]. exists t3. split; [done |].
  destruct A1 as [A11 _ [A13 A14] A15 A16 A17 A18], A2 as [A21 A22 [A23 A24] A25 A26 A27 A28].
  assert (E0 : t_slot t0 b' = new_slot (t_lused t) (t_slot t b')) by apply slot_at.
  rewrite E0 in A13, A14. cbn [s_start s_stop new_slot] in A13, A14. change (len [h]) with 1 in A14. cbn [t_lused t0 set_used in_slot] in *.
  constructor.
  - rewrite A21, I1, A11. done.
  - rewrite A22, E1, E2, E3, E4, E5, E6, E7, E8. cbn [concat]. rewrite app_nil_r, (len_cons h body). change (len [h :: body]) with 1.
    apply quad_eq; lia.
  - cbn [holds_all]. split; [| done]. fold b'. constructor.
    + congruence.
    + rewrite A24, I5, A14, len_cons. lia.
    + intros [| j] x Hx.
      * injection Hx as <-. rewrite Z.add_0_r, A27 by lia. rewrite I3. specialize (A16 0%nat h eq_refl). rewrite Z.add_0_r in A16. exact A16.
      * rewrite <- (A26 j x Hx). f_equal. lia.
  - intros i Hi. rewrite A25, I6, A15 by lia. apply slot_ne. lia.
  - intros m Hm. rewrite A27, I3, A17 by lia. done.
  - intros Hok. apply A28, I7, A18. intros i. cbn [t_slot t0 set_used]. apply slots_in; [done |]. apply new_slot_ok.
Qed.

Lemma loads_cons t t1 t2 c cs n n' : loads t t1 [c] n -> loads t1 t2 cs n' -> loads t t2 (c :: cs) n'.
Proof.
  intros [A1 A2 A3 A4 A5 A6] [C1 C2 C3 C4 C5 C6]. injection A2 as E1 E2 E3 E4. cbn [concat] in *. rewrite app_nil_r in E2.
  change (len [c]) with 1 in *. cbn [holds_all] in A3. destruct A3 as [A3 _]. len_pos. constructor.
  - congruence.
  - cbn [concat]. rewrite C2, E1, E2, E3, (len_cons c cs), len_app. apply quad_eq; lia.
  - cbn [holds_all]. rewrite E1, E2 in C3. split; [| exact C3].
    eapply holds_same; [exact A3 | | |]; [by rewrite C4 by lia | by rewrite C4 by lia |]. intros m Hm. apply C5. lia.
  - intros i Hi. rewrite C4, A4 by lia. done.
  - intros m Hm. rewrite C5, A5 by lia. done.
  - auto.
Qed.

Lemma load_responses cs lss b t : Forall2 chunk_lines cs lss -> Forall is_header cs -> cs <> [] ->
  t_rused t + len cs <= TB_RESPS -> t_lused t + len (concat cs) <= TB_LINES ->
  exists b' t', load_lines B attach_def (concat lss) (b, t) = Some (b', t') /\
    loads t t' cs (len (default [] (last cs)) - 1).
Proof.
  intros Hl. revert b t. induction Hl as [| c ls cs lss Hc Hl IH]; intros b t Hh Hne Hr Hls; [done |].
  apply Forall_cons in Hh as [Hh Hhs]. destruct c as [| h body]; [done |]. cbn [concat] in *. rewrite len_cons in Hr.
  rewrite len_app in Hls. len_pos. rewrite load_lines_app.
  destruct (load_response h body ls b t Hc Hh) as (t1 & -> & L1); [lia | lia |]. cbn [mbind option_bind].
  destruct cs as [| c2 cs].
  - inversion Hl; subst. cbn [concat load_lines]. exists (t_rused t), t1. split; [done |].
    change (default [] (last [h :: body])) with (h :: body). rewrite len_cons. by replace (len body + 1 - 1) with (len body) by lia.
  - pose proof (loads_counts _ _ _ _ L1) as Ec. injection Ec as E1 E2 _ _. cbn [concat] in E2. rewrite app_nil_r in E2.
    change (len [h :: body]) with 1 in E1. destruct (IH (t_rused t) t1 Hhs) as (b' & t' & -> & L2); [done | lia | lia |].
    exists b', t'. split; [done |]. rewrite last_cons_cons. by eapply loads_cons.
Qed.

(** What is in a buffer that has been loaded: a whole part file, or the rest of
    a response. *)
Record loaded (w : where_t) (resp lnum : Z) (t : textbuf) (cs : list chunk) : Prop := {
  ld_origin : origin t = (w_uf w, w_item w, w_cnum w, resp, lnum);
  ld_lused : t_lused t = len (concat cs);
  ld_rlast : t_rlast t = resp + len cs - 1;
  ld_lastline : t_lastline t = (if decide (len cs = 1) then lnum else 0) + len (default [] (last cs)) - 1;
  ld_holds : holds_all t 0 0 cs;
  ld_ok : slots_ok t;
}.

Lemma empty_ok w resp lnum t : slots_ok t -> slots_ok (empty_buf w resp lnum t).
Proof. intros H. unfold empty_buf. by apply slots_in. Qed.

Lemma loadtext_block w resp ls t cs : file_lines cs ls -> Forall is_header cs -> cs <> [] -> len cs <= TB_RESPS ->
  len (concat cs) <= TB_LINES -> slots_ok t ->
  exists t', loadtext B attach_def w resp 0 ls t = Some t' /\ loaded w resp 0 t' cs /\ t_rused t' = len cs.
Proof.
  intros (lss & Hl & ->) Hh Hne Hr Hls Hok. unfold loadtext.
  destruct (load_responses cs lss 0 (empty_buf w resp 0 t) Hl Hh Hne) as (b & t' & -> & [L1 L2 L3 _ _ L6]); [cbn; lia | cbn; lia |].
  cbn [mbind option_bind]. injection L1 as O1 O2 O3 O4 O5. injection L2 as C1 C2 C3 C4. cbn in *.
  assert (0 < len cs) by (destruct cs; [done | rewrite len_cons; len_pos; lia]).
  rewrite (proj2 (Z.ltb_ge _ _)) by lia. exists t'. split; [done |]. split; [| lia]. constructor; [| lia | lia | | exact L3 |].
  - unfold origin. by rewrite O1, O2, O3, O4, O5.
  - rewrite C4. destruct (decide _); lia.
  - apply L6. by apply empty_ok.
Qed.

(** The rest of a response: its first line is not a header. *)
Lemma loadtext_rest w resp lnum ls t x body : chunk_lines ((32 :: x) :: body) ls -> len (x :: body) <= TB_LINES -> slots_ok t ->
  exists t', loadtext B attach_def w resp lnum ls t = Some t' /\ loaded w resp lnum t' [x :: body].
Proof.
  intros (plus & Hp & ->) Hl Hok. unfold loadtext. set (t0 := empty_buf w resp lnum t). rewrite len_cons in Hl. len_pos.
  cbn [load_lines]. assert (El : load_line B attach_def (0, t0) (32 :: x) = t1 ← text_line 0 x t0; Some (0, t1)) by done.
  rewrite El. clear El. destruct (text_line_spec 0 x t0) as (t1 & -> & A1); [cbn; unfold TB_LINES in *; lia |]. cbn [mbind option_bind].
  rewrite load_lines_app. destruct (load_plus B attach_def plus 0 t1 Hp) as (t2 & -> & [I1 I2 I3 [I4 I5] I6 I7]). cbn [mbind option_bind].
  pose proof (adds_counts _ _ _ _ A1) as Ec. cbn in Ec. change (len [x]) with 1 in Ec. injection I2 as E1 E2 E3 E4. injection Ec as E5 E6 E7 E8.
  destruct (load_body B attach_def body 0 t2) as (t3 & -> & A2); [lia |]. cbn [mbind option_bind].
  destruct A1 as [A11 _ [A13 A14] A15 A16 A17 A18], A2 as [A21 A22 [A23 A24] A25 A26 A27 A28].
  injection A22 as F1 F2 F3 F4. rewrite A11 in I1. rewrite I1 in A21. cbn in A21. injection A21 as O1 O2 O3 O4 O5.
  rewrite (proj2 (Z.ltb_lt _ _)) by lia. eexists. split; [done |].
  constructor; cbn [origin t_type t_item t_cnum t_rfirst t_firstline t_lused t_rlast t_lastline set_used].
  - unfold origin. cbn. by rewrite O1, O2, O3, O4, O5.
  - cbn [concat]. rewrite app_nil_r, len_cons. lia.
  - change (len [x :: body]) with 1. lia.
  - rewrite (decide_True _ _ (eq_refl : len [x :: body] = 1)). change (default [] (last [x :: body])) with (x :: body). rewrite len_cons. lia.
  - cbn [holds_all]. split; [| done]. unfold t0 in A13, A14. unfold empty_buf in A13, A14. rewrite slot_at in A13, A14. change (len [x]) with 1 in A14. cbn in A13, A14. constructor; cbn [t_slot t_line set_used].
    + congruence.
    + rewrite A24, I5, A14, len_cons. lia.
    + intros [| j] y Hy.
      * injection Hy as <-. rewrite A27, I3 by (cbn; lia). by apply (A16 0%nat).
      * rewrite <- (A26 j y Hy). f_equal. cbn in E6. lia.
  - intros i. cbn [t_slot set_used]. apply A28, I7, A18. by apply empty_ok.
Qed.
End load.
