(* ===== verification/TextBounds.v ===== *)
(** Text buffers are well formed: whatever is in a part file, [loadtext] fills
    the arrays of a buffer within their bounds, the responses lie behind each
    other, and [getline2] takes lines only from where one has been stored. *)
From stdpp Require Import gmap functions list_numbers.
From S2P Require Import Prelude Memory Chix ChixCore ChixEdit ChixSearch ChixParse Vartab Str Numbers Html FileLines TextParts TextBuf.

(** The slots in use: at least the first one, which holds lines in front of any
    header. *)
Definition slots_used (t : textbuf) : Z := Z.max 1 (t_rused t).

Record buf_ok (t : textbuf) : Prop := {
  bo_lused : 0 <= t_lused t <= TB_LINES;
  bo_rused : 0 <= t_rused t <= TB_RESPS;
  bo_span : forall i, 0 <= i < slots_used t -> 0 <= s_start (t_slot t i) <= s_stop (t_slot t i) + 1;
  bo_next : forall i, 0 <= i -> i + 1 < slots_used t -> s_stop (t_slot t i) + 1 = s_start (t_slot t (i + 1));
  bo_end : s_stop (t_slot t (slots_used t - 1)) + 1 = t_lused t;
}.

(** What a line of a part file takes. *)
Definition takes_line (str : text) : Z := if cval str 0 =? 43 then 0 else 1.
Definition takes_slot (str : text) : Z := if cval str 0 =? 35 then 1 else 0.
Definition total (g : text -> Z) (ls : list text) : Z := foldr (fun l n => g l + n) 0 ls.

Lemma total_nonneg g ls : (forall l, 0 <= g l) -> 0 <= total g ls.
Proof. intros H. induction ls as [| l ls IH]; cbn [total foldr]; [done |]. specialize (H l). unfold total in IH. lia. Qed.
Lemma takes_line_nonneg l : 0 <= takes_line l.
Proof. unfold takes_line. by destruct (_ =? _). Qed.
Lemma takes_slot_nonneg l : 0 <= takes_slot l.
Proof. unfold takes_slot. by destruct (_ =? _). Qed.

Section bounds.
Context (B : list Z) (attach_def : list text).

(** The slot that is filled is the last one. *)
Definition filled (b : Z) (t : textbuf) : Prop := buf_ok t /\ b = slots_used t - 1 /\ t_rlast t = t_rfirst t + t_rused t - 1.

Lemma text_line_filled b str t : filled b t -> t_lused t + 1 <= TB_LINES ->
  exists t', text_line b str t = Some t' /\ filled b t' /\ t_lused t' = t_lused t + 1 /\ t_rused t' = t_rused t /\ t_rfirst t' = t_rfirst t.
Proof using Type.
  intros ([H1 H2 H3 H4 H5] & -> & Hr) Hl. unfold text_line. rewrite (proj2 (Z.leb_gt _ _)) by lia. eexists. split; [done |].
  set (t' := set_used _ _ _ _). assert (Eu : slots_used t' = slots_used t) by done. split_and!; try done. unfold filled. rewrite Eu. split_and!; [| done | done].
  assert (Hs : forall i, s_start (t_slot t' i) = s_start (t_slot t i) /\
    s_stop (t_slot t' i) = if decide (i = slots_used t - 1) then s_stop (t_slot t i) + 1 else s_stop (t_slot t i)).
  { intros i. unfold t'. cbn [t_slot set_used set_text]. destruct (decide (i = slots_used t - 1)) as [-> | Hne]; [by rewrite slot_at | by rewrite slot_ne]. }
  assert (0 < slots_used t) by (unfold slots_used; lia).
  constructor.
  - cbn. lia.
  - done.
  - intros i Hi. destruct (Hs i) as [-> ->]. rewrite Eu in Hi. specialize (H3 i Hi). destruct (decide _); lia.
  - intros i Hi Hi'. rewrite Eu in Hi'. destruct (Hs i) as [_ ->], (Hs (i + 1)) as [-> _]. rewrite decide_False by lia. by apply H4.
  - rewrite Eu. destruct (Hs (slots_used t - 1)) as [_ ->]. rewrite decide_True by done. cbn. lia.
Qed.

Lemma header_filled b t : filled b t -> t_rused t + 1 <= TB_RESPS ->
  let t' := in_slot (t_rused t) (new_slot (t_lused t)) t in
  let t' := set_used (t_rused t + 1) (t_rlast t' + 1) (-1) t' in
  filled (t_rused t) t'.
Proof using Type.
  intros ([H1 H2 H3 H4 H5] & -> & Hr) Hl t1 t'. assert (Eu : slots_used t' = t_rused t + 1) by (unfold slots_used, t', t1; cbn; lia).
  unfold filled. rewrite Eu. split_and!; [| lia | unfold t', t1; cbn; lia].
  assert (Ha : s_start (t_slot t' (t_rused t)) = t_lused t /\ s_stop (t_slot t' (t_rused t)) = t_lused t - 1).
  { unfold t', t1. cbn [t_slot set_used]. by rewrite slot_at. }
  assert (Hn : forall i, i <> t_rused t -> t_slot t' i = t_slot t i).
  { intros i Hi. unfold t', t1. cbn [t_slot set_used]. by rewrite slot_ne. }
  destruct Ha as [A1 A2]. constructor.
  - done.
  - unfold t', t1. cbn. lia.
  - intros i Hi. rewrite Eu in Hi. destruct (decide (i = t_rused t)) as [-> | Hne]; [rewrite A1, A2; lia |].
    rewrite Hn by done. apply H3. unfold slots_used. lia.
  - intros i Hi Hi'. rewrite Eu in Hi'. rewrite Hn by lia. destruct (decide (i + 1 = t_rused t)) as [E | Hne].
    + rewrite E, A1, <- H5. do 3 f_equal. unfold slots_used. lia.
    + rewrite Hn by done. apply H4; [done |]. unfold slots_used. lia.
  - rewrite Eu. replace (t_rused t + 1 - 1) with (t_rused t) by lia. rewrite A2. unfold t', t1. cbn. lia.
Qed.

Lemma plus_filled b str t : filled b t -> filled b (in_slot b (plus_line B attach_def str) t).
Proof using Type.
  intros ([H1 H2 H3 H4 H5] & -> & Hr). set (t' := in_slot _ _ t). assert (Eu : slots_used t' = slots_used t) by done. unfold filled. rewrite Eu.
  split_and!; [| done | done].
  assert (Hs : forall i, s_start (t_slot t' i) = s_start (t_slot t i) /\ s_stop (t_slot t' i) = s_stop (t_slot t i)).
  { intros i. unfold t'. destruct (decide (i = slots_used t - 1)) as [-> | Hne]; [rewrite slot_at; apply (plus_line_span B attach_def) | by rewrite slot_ne]. }
  constructor; [done | done | | |].
  - intros i Hi. destruct (Hs i) as [-> ->]. by apply H3.
  - intros i Hi Hi'. destruct (Hs i) as [_ ->], (Hs (i + 1)) as [-> _]. by apply H4.
  - rewrite Eu. destruct (Hs (slots_used t - 1)) as [_ ->]. done.
Qed.

Lemma load_lines_filled ls : forall b t, filled b t -> t_lused t + total takes_line ls <= TB_LINES -> t_rused t + total takes_slot ls <= TB_RESPS ->
  exists b' t', load_lines B attach_def ls (b, t) = Some (b', t') /\ filled b' t' /\ t_lused t' = t_lused t + total takes_line ls /\
    t_rused t' = t_rused t + total takes_slot ls /\ t_rfirst t' = t_rfirst t.
Proof using Type.
  induction ls as [| str ls IH]; intros b t Hf Hl Hr.
  - exists b, t. cbn. split_and!; [done | done | lia | lia | done].
  - cbn [total foldr] in *. fold (total takes_line ls) in *. fold (total takes_slot ls) in *. unfold takes_line at 1 in Hl. unfold takes_slot at 1 in Hr.
    pose proof (total_nonneg takes_line ls takes_line_nonneg). pose proof (total_nonneg takes_slot ls takes_slot_nonneg).
    cbn [load_lines load_line]. unfold takes_line at 1, takes_slot at 1. destruct (Z.eqb_spec (cval str 0) 35) as [E | E].
    + rewrite E in *. change (35 =? 43) with false in *. cbn iota in *. rewrite (proj2 (Z.leb_gt TB_RESPS (t_rused t))) by lia.
      destruct (text_line_filled _ str _ (header_filled b t Hf ltac:(lia))) as (t1 & -> & Hf1 & E1 & E2 & E3); [cbn; lia |]. cbn [mbind option_bind].
      cbn in E1, E2, E3. destruct (IH _ _ Hf1) as (b' & t' & -> & ? & ? & ? & ?); [lia | lia |]. exists b', t'. split_and!; [done | done | lia | lia | congruence].
    + destruct (Z.eqb_spec (cval str 0) 43) as [E' | E'].
      * cbn [mbind option_bind]. destruct (IH _ _ (plus_filled b str t Hf)) as (b' & t' & -> & ? & E1 & E2 & E3); [cbn; lia | cbn; lia |].
        cbn in E1, E2, E3. exists b', t'. split_and!; [done | done | lia | lia | done].
      * destruct (text_line_filled b (if cval str 0 =? 32 then drop 1 str else str) t Hf) as (t1 & -> & Hf1 & E1 & E2 & E3); [lia |]. cbn [mbind option_bind].
        destruct (IH _ _ Hf1) as (b' & t' & -> & ? & ? & ? & ?); [lia | lia |]. exists b', t'. split_and!; [done | done | lia | lia | congruence].
Qed.

(** C24: [loadtext] gives a well formed buffer for any part file that is not too
    long for the arrays, with or without a header, whatever else its lines
    are and whatever the buffer held: its responses lie behind each other
    within the lines in use; a line that [getline2] then takes from the buffer
    is one that has been stored. *)
Theorem loadtext_well_formed w resp lnum ls t :
  total takes_line ls <= TB_LINES -> total takes_slot ls <= TB_RESPS ->
  exists t', loadtext B attach_def w resp lnum ls t = Some t' /\ buf_ok t' /\
    t_lused t' = total takes_line ls /\ t_rused t' = total takes_slot ls /\
    t_rfirst t' = resp /\ t_rlast t' = resp + slots_used t' - 1 /\
    (forall r l x, 0 <= l -> (r = resp -> t_firstline t' <= l) -> pluck t' r l = Some x ->
       exists m, 0 <= m < t_lused t' /\ x = t_line t' m).
Proof using Type.
  intros Hl Hr. unfold loadtext.
  assert (Hf : filled 0 (empty_buf w resp lnum t)).
  { unfold empty_buf. split_and!; [constructor | done | cbn; lia]; cbn [t_lused t_rused in_slot]; try (unfold TB_LINES, TB_RESPS; lia).
    - intros i Hi. change (slots_used _) with 1 in Hi. replace i with 0 by lia. rewrite slot_at. cbn. lia.
    - intros i Hi Hi'. change (slots_used _) with 1 in Hi'. lia.
    - change (slots_used _ - 1) with 0. by rewrite slot_at. }
  destruct (load_lines_filled ls 0 _ Hf) as (b & t' & -> & (Hok & _ & Hlast) & E1 & E2 & E3); [done | done |]. cbn [mbind option_bind].
  set (t2 := if _ <? _ then _ else _). exists t2.
  assert (Hsame : t_lused t2 = t_lused t' /\ t_rused t2 = t_rused t' /\ t_rfirst t2 = t_rfirst t' /\ t_slot t2 = t_slot t' /\ t_line t2 = t_line t')
    by (unfold t2; by destruct (_ <? _)). destruct Hsame as (S1 & S2 & S3 & S4 & S5).
  assert (Hu : slots_used t2 = slots_used t') by (unfold slots_used; by rewrite S2).
  assert (Hok2 : buf_ok t2) by (destruct Hok as [H1 H2 H3 H4 H5]; by constructor; rewrite ?S1, ?S2, ?S4, ?Hu).
  assert (Hl2 : t_rlast t2 = resp + slots_used t2 - 1).
  { change (t_rfirst (empty_buf w resp lnum t)) with resp in E3. rewrite Hu. unfold t2, slots_used. pose proof (bo_rused _ Hok). destruct (Z.ltb_spec (t_rlast t') (t_rfirst t')); cbn; lia. }
  split_and!; [done | done | by rewrite S1, E1 | by rewrite S2, E2 | by rewrite S3, E3 | done |].
  intros r l x Hl0 Hfirst Hp. unfold pluck in Hp. rewrite Hl2 in Hp. assert (Ef : t_rfirst t2 = resp) by (by rewrite S3, E3). rewrite Ef in Hp.
  destruct (Z.ltb_spec (r - resp) 0) as [? | Hr0]; [done |]. destruct (Z.ltb_spec (resp + slots_used t2 - 1) r) as [? | Hr1]; [done |]. cbn [orb] in Hp.
  destruct (Z.ltb_spec (s_stop (t_slot t2 (r - resp))) (s_start (t_slot t2 (r - resp)) + (if r =? resp then l - t_firstline t2 else l))) as [? | Hr2]; [done |].
  injection Hp as <-. eexists. split; [| reflexivity].
  assert (Hmono : forall n : nat, s_stop (t_slot t2 (slots_used t2 - 1 - Z.of_nat n)) + 1 <= t_lused t2 \/ slots_used t2 - 1 < Z.of_nat n).
  { induction n as [| n IHn]; [left; rewrite Z.sub_0_r; pose proof (bo_end _ Hok2); lia |].
    destruct (decide (slots_used t2 - 1 < Z.of_nat (S n))) as [? | Hn]; [by right | left]. destruct IHn as [IHn | ?]; [| lia].
    pose proof (bo_next _ Hok2 (slots_used t2 - 1 - Z.of_nat (S n)) ltac:(lia) ltac:(lia)) as En.
    replace (slots_used t2 - 1 - Z.of_nat (S n) + 1) with (slots_used t2 - 1 - Z.of_nat n) in En by lia.
    pose proof (bo_span _ Hok2 (slots_used t2 - 1 - Z.of_nat n) ltac:(lia)). lia. }
  destruct (Hmono (Z.to_nat (slots_used t2 - 1 - (r - resp)))) as [Hm | Hm]; [| lia].
  replace (slots_used t2 - 1 - Z.of_nat (Z.to_nat (slots_used t2 - 1 - (r - resp)))) with (r - resp) in Hm by lia.
  pose proof (bo_span _ Hok2 (r - resp) ltac:(lia)). destruct (Z.eqb_spec r resp) as [E | E]; [specialize (Hfirst E) |]; lia.
Qed.
End bounds.

Lemma loadtext_well_formed_witness :
  let ls := map bytes ["#0 5 9 a@b"; "+3 1 8"; " Title"; " Text"; "#1 6 9 a@b"; " More"] in
  let t := mkBuf 0 (-1) 0 0 0 0 0 0 0 (fun _ => []) (fun _ => mkSlot 0 (-1) 0 0 0 [] None) in
  exists t', loadtext [32; 9] [] (mkWhere 0 0 7) 0 0 ls t = Some t' /\ buf_ok t' /\
    t_lused t' = total takes_line ls /\ t_rused t' = total takes_slot ls /\
    t_rfirst t' = 0 /\ t_rlast t' = 0 + slots_used t' - 1 /\
    (forall r l x, 0 <= l -> (r = 0 -> t_firstline t' <= l) -> pluck t' r l = Some x ->
       exists m, 0 <= m < t_lused t' /\ x = t_line t' m).
Proof. apply (loadtext_well_formed [32; 9] []); by vm_compute. Defined.
