(* ===== verification/TextUpdate.v ===== *)
(** [updatepart] (src/CV2/db/updatepa.c): the last response of a buffer is
    written, in one or more part files. *)
From stdpp Require Import gmap functions sorting list_numbers.
From S2P Require Import Prelude Memory Chix ChixCore ChixEdit ChixSearch ChixParse Vartab Str Numbers Html FileLines TextParts TextBuf.

(** ** Filling a buffer *)

(** The buffer holds some chunks, and the beginning of another one. *)
Record filling (t : textbuf) (pre : list chunk) (c : chunk) : Prop := {
  fl_pre : holds_all t 0 0 pre;
  fl_start : s_start (t_slot t (len pre)) = len (concat pre);
  fl_stop : c <> [] -> s_stop (t_slot t (len pre)) = len (concat pre) + len c - 1;
  fl_lines : forall j x, c !! j = Some x -> t_line t (len (concat pre) + Z.of_nat j) = x;
  fl_lused : t_lused t = len (concat pre) + len c;
  fl_ok : slots_ok t;
}.

Lemma filling_holds t pre c : filling t pre c -> c <> [] -> holds_all t 0 0 (pre ++ [c]).
Proof.
  intros [H1 H2 H3 H4 _ _] Hc. apply holds_all_app. split; [done |]. cbn [holds_all]. rewrite !Z.add_0_l. split; [| done].
  by constructor; [| apply H3 |].
Qed.

(** A change of the slot that leaves its lines alone. *)
Lemma filling_slot t pre c g : filling t pre c ->
  (forall s, s_start (g s) = s_start s /\ s_stop (g s) = s_stop s) -> (forall s, slot_ok s -> slot_ok (g s)) ->
  filling (in_slot (len pre) g t) pre c.
Proof.
  intros [H1 H2 H3 H4 H5 H6] Hg Hok. constructor; [| | | exact H4 | exact H5 |].
  - eapply holds_all_same; [exact H1 | | done]. intros i Hi. rewrite slot_ne by lia. done.
  - rewrite slot_at. by rewrite (proj1 (Hg _)).
  - intros Hc. rewrite slot_at, (proj2 (Hg _)). by apply H3.
  - apply slots_in; [done |]. apply Hok.
Qed.

Lemma addline_spec t pre c x : filling t pre c -> t_lused t < TB_LINES ->
  exists t', addline (len pre) x t = Some t' /\ filling t' pre (c ++ [x]) /\ origin t' = origin t.
Proof.
  intros [H1 H2 H3 H4 H5 H6] Hl. unfold addline. rewrite (proj2 (Z.leb_gt _ _)) by done. eexists. split; [done |].
  pose proof (len_nonneg c). pose proof (len_nonneg (concat pre)). split; [| done]. constructor; cbn [t_slot t_line t_lused set_text].
  - eapply holds_all_same; [exact H1 | |].
    + intros i Hi. cbn [t_slot set_text]. rewrite slot_ne by lia. done.
    + intros m Hm. cbn [t_line set_text]. apply fn_lookup_insert_ne. lia.
  - rewrite slot_at. exact H2.
  - intros _. rewrite slot_at. cbn [s_stop set_span]. rewrite len_app. change (len [x]) with 1. lia.
  - intros j y Hj. apply lookup_app_Some in Hj as [Hj | [Hj Hy]].
    + pose proof (lookup_lt_Some _ _ _ Hj). rewrite fn_lookup_insert_ne by (unfold len in *; lia). by apply H4.
    + destruct (j - length c)%nat as [| i] eqn:E; [| done]. injection Hy as <-.
      replace (len (concat pre) + Z.of_nat j) with (t_lused t) by (unfold len in *; lia). apply fn_lookup_insert.
  - rewrite len_app. change (len [x]) with 1. lia.
  - intros i. cbn [t_slot set_text]. by apply slots_in.
Qed.

(** A buffer that is filled from the beginning again. *)
Lemma filling_empty t s : slots_ok t -> filling (in_slot 0 (fun s0 => set_span 0 (s s0) s0) (set_text 0 (t_line t) t)) [] [].
Proof.
  intros Hok. constructor; try done. by apply slots_in.
Qed.

Section update.
Context (B : list Z) (attach_def : list text).

(** *** The lines of a text *)

Definition SUGGEST_MAX : Z := TB_LINES / 2.

Lemma put_lines_fits resp strs lnum f t k pre c : filling t pre c ->
  len (concat pre) + len c + len strs <= SUGGEST_MAX - 5 ->
  exists t', put_lines resp SUGGEST_MAX strs lnum f t (len pre) k = Some (f, t', len pre, k) /\
    filling t' pre (c ++ map chxtrimmed strs).
Proof using Type.
  revert t c lnum. induction strs as [| x strs IH]; intros t c lnum Hf Hl; [exists t; by rewrite app_nil_r |].
  rewrite len_cons in Hl. len_pos. cbn [put_lines map]. rewrite (fl_lused _ _ _ Hf).
  rewrite (proj2 (Z.ltb_ge _ _)) by lia.
  destruct (addline_spec t pre c (chxtrimmed x) Hf) as (t1 & -> & Hf1 & _).
  { rewrite (fl_lused _ _ _ Hf). unfold SUGGEST_MAX in Hl. change (TB_LINES / 2) with 250 in Hl. unfold TB_LINES. lia. }
  cbn [mbind option_bind]. destruct (IH t1 (c ++ [chxtrimmed x]) (lnum + 1) Hf1) as (t2 & -> & Hf2).
  { rewrite len_app. change (len [chxtrimmed x]) with 1. lia. }
  exists t2. split; [done |]. by rewrite <- app_assoc in Hf2.
Qed.

(** Files that are stored one after the other. *)
Inductive stored : partfiles -> list (key * list chunk) -> partfiles -> Prop :=
  | stored_nil f : stored f [] f
  | stored_cons f k cs ls es f' : file_lines cs ls -> stored (<[k := ls]> f) es f' -> stored f ((k, cs) :: es) f'.

Lemma stored_app f es f' es' f'' : stored f es f' -> stored f' es' f'' -> stored f (es ++ es') f''.
Proof using Type. induction 1 as [| f k cs ls es f' Hl Hs IH]; [done |]. intros H. cbn [app]. econstructor; [done | by apply IH]. Qed.

(** The part of a response in a later file: the first line is indented. *)
Definition indented (s : chunk) : chunk := match s with [] => [] | x :: body => (32 :: x) :: body end.

Fixpoint rest_files (resp lnum : Z) (segs : list chunk) : list (key * list chunk) :=
  match segs with
  | [] => []
  | s :: segs => ((resp, lnum), [indented s]) :: rest_files resp (lnum + len s) segs
  end.

Lemma put_lines_split resp strs : Forall one_line (map chxtrimmed strs) ->
  forall lnum f t k c, filling t [] c -> c <> [] -> Forall one_line c -> len c <= SUGGEST_MAX - 5 ->
  exists s0 segs f1 t1 k1 f', put_lines resp SUGGEST_MAX strs lnum f t 0 k = Some (f1, t1, 0, k1) /\
    slots_ok t1 /\ storetext f1 k1 0 0 t1 = Some f' /\
    stored f ((k, [c ++ s0]) :: rest_files resp (lnum + len s0) segs) f' /\
    concat (s0 :: segs) = map chxtrimmed strs /\ Forall (fun s => s <> [] /\ len s <= SUGGEST_MAX - 5) segs /\
    len (c ++ s0) <= SUGGEST_MAX - 5.
Proof using Type.
  intros Ho. induction strs as [| x strs IH]; intros lnum f t k c Hf Hc Hco Hl.
  - destruct (storetext_spec f k t 0 0 [c] (fl_ok _ _ _ Hf)) as (ls & E & Hls);
      [by apply (filling_holds t [] c) | constructor; [done | constructor] |]. change (0 + len [c] - 1) with 0 in E.
    exists [], [], f, t, k, (<[k := ls]> f). cbn [put_lines rest_files concat map]. rewrite app_nil_r.
    split_and!; try done; [apply Hf |]. econstructor; [done | constructor].
  - cbn [map] in Ho. apply Forall_cons in Ho as [Hx Ho]. specialize (IH Ho). cbn [put_lines].
    pose proof (fl_lused _ _ _ Hf) as El. change (len (concat [])) with 0 in El. rewrite El. change (0 + len c) with (len c).
    destruct (Z.ltb_spec (SUGGEST_MAX - 5) (len c + 1)) as [Hfull | Hroom].
    + destruct (storetext_spec f k t 0 0 [c] (fl_ok _ _ _ Hf)) as (ls & E & Hls);
        [by apply (filling_holds t [] c) | constructor; [done | constructor] |]. change (0 + len [c] - 1) with 0 in E.
      rewrite E. cbn [mbind option_bind].
      destruct (addline_spec _ [] [] (32 :: chxtrimmed x) (filling_empty t s_stop (fl_ok _ _ _ Hf))) as (t1 & E1 & Hf1 & _); [by vm_compute |].
      change (len []) with 0 in E1. rewrite E1. cbn [mbind option_bind app] in Hf1 |- *.
      destruct (IH (lnum + 1) (<[k := ls]> f) t1 (resp, lnum) [32 :: chxtrimmed x] Hf1) as (s0 & segs & f1 & t2 & k1 & f' & E2 & Hok & E3 & Hst & Ec & Hs & Hlen).
      { done. }
      { constructor; [| constructor]. apply one_line_cons. by split. }
      { by vm_compute. }
      exists [], ((chxtrimmed x :: s0) :: segs), f1, t2, k1, f'. split_and!; try done.
      * rewrite app_nil_r, Z.add_0_r. econstructor; [exact Hls |]. cbn [rest_files indented]. rewrite len_cons.
        by replace (lnum + (len s0 + 1)) with (lnum + 1 + len s0) by lia.
      * cbn [concat app map]. by rewrite <- Ec.
      * constructor; [| done]. split; [done |]. rewrite len_app in Hlen. change (len [32 :: chxtrimmed x]) with 1 in Hlen. rewrite len_cons. lia.
      * by rewrite app_nil_r.
    + destruct (addline_spec t [] c (chxtrimmed x) Hf) as (t1 & E1 & Hf1 & _).
      { unfold SUGGEST_MAX in Hroom. change (TB_LINES / 2) with 250 in Hroom. unfold TB_LINES. lia. }
      change (len []) with 0 in E1. rewrite E1. cbn [mbind option_bind].
      destruct (IH (lnum + 1) f t1 k (c ++ [chxtrimmed x]) Hf1) as (s0 & segs & f1 & t2 & k1 & f' & E2 & Hok & E3 & Hst & Ec & Hs & Hlen).
      { by destruct c. }
      { apply Forall_app. split; [done |]. by constructor. }
      { rewrite len_app. change (len [chxtrimmed x]) with 1. lia. }
      exists (chxtrimmed x :: s0), segs, f1, t2, k1, f'. rewrite <- app_assoc in Hst, Hlen. cbn [app] in Hst, Hlen. split_and!; try done.
      * rewrite len_cons. by replace (lnum + (len s0 + 1)) with (lnum + 1 + len s0) by lia.
      * cbn [concat app map]. by rewrite <- Ec.
Qed.

(** *** The response that is entered *)

(** What a response is, in lines: its header, its title and its text. *)
Definition new_chunk (e : entry) : chunk :=
  e_header e :: (match e_title e with Some title => [title] | None => [] end) ++ map chxtrimmed (lines_of (e_text e)).

Record entry_ok (e : entry) : Prop := {
  en_header : cval (e_header e) 0 = 35 /\ one_line (e_header e);
  en_title : forall title, e_title e = Some title -> one_line title;
  en_copied : forall c, e_copied e = Some c -> one_line c;
  en_attach : e_attach e = None;
}.

Lemma text_lines_one fuel s pos : Forall one_line (text_lines fuel s pos).1.
Proof using Type.
  revert pos. induction fuel as [| fuel IH]; intros pos; cbn [text_lines]; [constructor |].
  destruct (nextline_result s pos) as [[r line] pos'] eqn:E. destruct (r =? 0); [constructor |].
  specialize (IH pos'). destruct (text_lines fuel s pos') as [ls p]. cbn [fst] in *. constructor; [| done].
  unfold nextline_result in E. assert (Ho : one_line (span not_newline (drop (Z.to_nat pos) s))).
  { generalize (drop (Z.to_nat pos) s). intros l. induction l as [| c l IHl]; [apply one_line_nil |]. cbn [span].
    destruct (not_newline c) eqn:Ec; [| apply one_line_nil]. apply one_line_cons. split; [| done]. unfold not_newline in Ec. lia. }
  destruct (_ =? 0); injection E as _ <- _; [apply one_line_nil | exact Ho].
Qed.

Lemma trimmed_one s : one_line s -> one_line (chxtrimmed s).
Proof using Type.
  intros H. eapply one_line_sub; [exact H |]. intros c Hc. unfold chxtrimmed in Hc. rewrite rstrip_prefix in Hc.
  rewrite <- (take_drop (length (rstrip (fun v => v =? 32) s)) s). apply elem_of_app. by left.
Qed.

Lemma lines_one (ctext : text) : Forall one_line (map chxtrimmed (lines_of ctext)).
Proof using Type. apply Forall_map. eapply Forall_impl; [apply text_lines_one |]. apply trimmed_one. Qed.

Lemma new_chunk_ok e : entry_ok e -> is_header (new_chunk e) /\ Forall one_line (new_chunk e).
Proof using Type.
  intros [[H1 H2] H3 _ _]. split; [done |]. constructor; [done |]. apply Forall_app. split; [| apply lines_one].
  destruct (e_title e) as [title |]; [| constructor]. constructor; [by apply H3 | constructor].
Qed.

Lemma put_props_ok e s : entry_ok e -> slot_ok s -> slot_ok (put_props e s).
Proof using Type.
  intros [_ _ H _] [Hc Ha]. unfold put_props. destruct (e_copied e) as [c |]; [| by split]. split; [by apply H | done].
Qed.

Lemma put_props_span e s : s_start (put_props e s) = s_start s /\ s_stop (put_props e s) = s_stop s.
Proof using Type. unfold put_props. by destruct (e_copied e). Qed.

Lemma put_attach_none e s : entry_ok e -> put_attach e s = set_attach None s.
Proof using Type. intros [_ _ _ H]. unfold put_attach. by rewrite H. Qed.

(** The header and the title. *)
Lemma put_head t pre e : entry_ok e -> filling t pre [] -> len (concat pre) + 2 <= TB_LINES ->
  exists t', (t ← addline (len pre) (e_header e) t; put_title (len pre) e (in_slot (len pre) (put_attach e) t)) = Some t' /\
    filling t' pre (e_header e :: match e_title e with Some title => [title] | None => [] end).
Proof using Type.
  intros He Hf Hl. pose proof (fl_lused _ _ _ Hf) as El. change (len (@nil text)) with 0 in El.
  destruct (addline_spec t pre [] (e_header e) Hf) as (t1 & -> & Hf1 & _); [lia |]. cbn [mbind option_bind app] in *.
  assert (Hf2 : filling (in_slot (len pre) (put_attach e) t1) pre [e_header e]).
  { apply filling_slot; [done | |]; intros s; rewrite put_attach_none by done; [done |]. intros [Hc _]. by split. }
  unfold put_title. destruct (e_title e) as [title |]; [| by exists (in_slot (len pre) (put_attach e) t1)].
  destruct (addline_spec _ pre [e_header e] title Hf2) as (t2 & -> & Hf3 & _); [| by exists t2].
  rewrite (fl_lused _ _ _ Hf2). change (len [e_header e]) with 1. lia.
Qed.

(** *** The last response of a buffer *)

(** The file after the response has been put behind the chunks [pre] of part
    file [k], or into files of its own. *)
Definition last_files (resp : Z) (pre : list chunk) (c : chunk) (k : key) (es : list (key * list chunk)) : Prop :=
  (pre <> [] /\ es = [(k, pre ++ [c])] /\ len (concat pre) + len c <= SUGGEST_MAX - 5) \/
  exists s0 segs, s0 <> [] /\ concat (s0 :: segs) = c /\ len s0 <= SUGGEST_MAX - 5 /\
    Forall (fun s => s <> [] /\ len s <= SUGGEST_MAX - 5) segs /\
    es = (match pre with
          | [] => (k, [s0]) :: rest_files resp (len s0) segs
          | _ => (k, pre) :: ((resp, 0), [s0]) :: rest_files resp (len s0) segs
          end).

(** What [update_last] does once the slot and the file are chosen. *)
Definition put_response (resp : Z) (e : entry) (f : partfiles) (t : textbuf) (r : Z) (k : key) : option (partfiles * textbuf) :=
  let t := in_slot r (fun s => put_props e (set_span (t_lused t) (s_stop s) s)) t in
  t ← addline r (e_header e) t;
  let t := in_slot r (put_attach e) t in
  t ← put_title r e t;
  let lnum := match e_title e with None => 1 | Some _ => 2 end in
  '(f, t, r, k) ← put_lines resp SUGGEST_MAX (lines_of (e_text e)) lnum f t r k;
  f ← storetext f k 0 r t;
  Some (f, set_item (-1) t).

Definition head_chunk (e : entry) : chunk := e_header e :: match e_title e with Some title => [title] | None => [] end.
Lemma new_chunk_head e : new_chunk e = head_chunk e ++ map chxtrimmed (lines_of (e_text e)).
Proof using Type. done. Qed.
Lemma head_len e : len (head_chunk e) = match e_title e with None => 1 | Some _ => 2 end.
Proof using Type. unfold head_chunk. by destruct (e_title e). Qed.
Lemma head_short e : 1 <= len (head_chunk e) <= 2.
Proof using Type. rewrite head_len. destruct (e_title e); lia. Qed.

Lemma put_start t pre e : entry_ok e -> slots_ok t -> holds_all t 0 0 pre -> t_lused t = len (concat pre) ->
  len (concat pre) <= SUGGEST_MAX - 5 ->
  exists t1 t2, addline (len pre) (e_header e) (in_slot (len pre) (fun s => put_props e (set_span (t_lused t) (s_stop s) s)) t) = Some t1 /\
    put_title (len pre) e (in_slot (len pre) (put_attach e) t1) = Some t2 /\ filling t2 pre (head_chunk e).
Proof using Type.
  intros He Hok Hh Hl Hs. unfold SUGGEST_MAX in Hs. change (TB_LINES / 2) with 250 in Hs.
  assert (Hf : filling (in_slot (len pre) (fun s => put_props e (set_span (t_lused t) (s_stop s) s)) t) pre []).
  { constructor; try done.
    - eapply holds_all_same; [exact Hh | | done]. intros i Hi. rewrite slot_ne by lia. done.
    - rewrite slot_at, (proj1 (put_props_span _ _)). exact Hl.
    - cbn [t_lused in_slot]. change (len (@nil text)) with 0. lia.
    - apply slots_in; [done |]. intros Hsl. apply put_props_ok; [done |]. exact Hsl. }
  destruct (put_head _ pre e He Hf) as (t2 & E & Hf2); [unfold TB_LINES; lia |].
  destruct (addline _ _ _) as [t1 |]; [| done]. exists t1, t2. by split_and!.
Qed.

Lemma put_behind resp e f t k pre : entry_ok e -> slots_ok t -> holds_all t 0 0 pre -> t_lused t = len (concat pre) ->
  Forall (fun c => c <> [] /\ Forall one_line c) pre -> len (concat pre) + len (new_chunk e) <= SUGGEST_MAX - 5 ->
  exists f' t', put_response resp e f t (len pre) k = Some (f', t') /\ stored f [(k, pre ++ [new_chunk e])] f' /\
    slots_ok t' /\ t_item t' = -1.
Proof using Type.
  intros He Hok Hh Hl Hone Hsize. unfold put_response. rewrite new_chunk_head, len_app in Hsize.
  pose proof (head_short e). pose proof (len_nonneg (map chxtrimmed (lines_of (e_text e)))).
  destruct (put_start t pre e He Hok Hh Hl) as (t1 & t2 & -> & E2 & Hf2); [lia |]. cbn [mbind option_bind]. rewrite E2.
  cbn [mbind option_bind].
  assert (Em : len (map chxtrimmed (lines_of (e_text e))) = len (lines_of (e_text e))) by (unfold len; by rewrite length_map).
  destruct (put_lines_fits resp (lines_of (e_text e)) (match e_title e with None => 1 | Some _ => 2 end) f t2 k pre _ Hf2) as (t3 & -> & Hf3); [lia |].
  cbn [mbind option_bind]. rewrite <- new_chunk_head in Hf3.
  destruct (storetext_spec f k t3 0 0 (pre ++ [new_chunk e]) (fl_ok _ _ _ Hf3)) as (ls & E & Hls).
  { by apply filling_holds. }
  { apply Forall_app. split; [done |]. constructor; [| constructor]. split; [done | by apply new_chunk_ok]. }
  replace (0 + len (pre ++ [new_chunk e]) - 1) with (len pre) in E by (rewrite len_app; change (len [new_chunk e]) with 1; lia).
  rewrite E. cbn [mbind option_bind]. eexists _, _. split_and!; [done | | apply Hf3 | done]. econstructor; [done | constructor].
Qed.

Lemma put_alone resp e f t k : entry_ok e -> slots_ok t -> t_lused t = 0 ->
  exists s0 segs f' t', put_response resp e f t 0 k = Some (f', t') /\ s0 <> [] /\ concat (s0 :: segs) = new_chunk e /\
    len s0 <= SUGGEST_MAX - 5 /\ Forall (fun s => s <> [] /\ len s <= SUGGEST_MAX - 5) segs /\
    stored f ((k, [s0]) :: rest_files resp (len s0) segs) f' /\ slots_ok t' /\ t_item t' = -1.
Proof using Type.
  intros He Hok Hl. unfold put_response. destruct (put_start t [] e He Hok I Hl) as (t1 & t2 & E1 & E2 & Hf2); [by vm_compute |].
  change (len (@nil chunk)) with 0 in E1, E2. rewrite E1. cbn [mbind option_bind]. rewrite E2. cbn [mbind option_bind].
  destruct (put_lines_split resp (lines_of (e_text e)) (lines_one _) (match e_title e with None => 1 | Some _ => 2 end) f t2 k _ Hf2)
    as (s0 & segs & f1 & t3 & k1 & f' & -> & Hok3 & E3 & Hst & Ec & Hs & Hlen).
  { done. }
  { pose proof (new_chunk_ok e He) as [_ H]. rewrite new_chunk_head in H. by apply Forall_app in H as [H _]. }
  { pose proof (head_short e). unfold SUGGEST_MAX. change (TB_LINES / 2) with 250. lia. }
  cbn [mbind option_bind]. rewrite E3. cbn [mbind option_bind].
  exists (head_chunk e ++ s0), segs, f', (set_item (-1) t3). split_and!; try done.
  - cbn [concat]. rewrite <- app_assoc, new_chunk_head. f_equal. exact Ec.
  - by rewrite len_app, head_len.
Qed.

Lemma update_last_spec resp e f t k pre :
  entry_ok e -> slots_ok t -> holds_all t 0 0 pre -> resp - t_rfirst t = len pre ->
  s_start (t_slot t (len pre)) = len (concat pre) -> Forall (fun c => c <> [] /\ Forall one_line c) pre ->
  len (concat pre) <= SUGGEST_MAX - 5 ->
  (pre <> [] -> let space := s_stop (t_slot t (len pre)) - s_start (t_slot t (len pre)) + 1 in
    len (lines_of (e_text e)) < SUGGEST_MAX - len (concat pre) + space - 10 ->
    len (concat pre) + len (new_chunk e) <= SUGGEST_MAX - 5) ->
  exists es f' t', update_last false resp (len (lines_of (e_text e))) SUGGEST_MAX e f t k = Some (f', t') /\
    stored f es f' /\ last_files resp pre (new_chunk e) k es /\ slots_ok t' /\ t_item t' = -1.
Proof using Type.
  intros He Hok Hpre Hr Hstart Hone Hsize Hroom. unfold update_last. rewrite Hr, Hstart. cbn [t_lused set_text].
  set (s := t_slot t (len pre)) in *. set (t0 := set_text (len (concat pre)) (t_line t) t).
  assert (Hpre0 : holds_all t0 0 0 pre) by (by eapply holds_all_same).
  destruct (decide (pre = [])) as [-> | Hne].
  - change (0 <? len (@nil chunk)) with false. rewrite andb_false_r. cbn [mbind option_bind].
    destruct (put_alone resp e f t0 k He Hok) as (s0 & segs & f' & t' & E & Hne & Hc & Hl & Hs & Hst & Hok' & Hit); [done |].
    eexists _, f', t'. split_and!; [exact E | exact Hst | | done | done]. right. by exists s0, segs.
  - assert (Hpos : 0 < len pre) by (destruct pre; [done | rewrite len_cons; len_pos; lia]).
    rewrite (proj2 (Z.ltb_lt 0 (len pre)) Hpos), andb_true_r.
    destruct (Z.ltb_spec (len (lines_of (e_text e))) (SUGGEST_MAX - len (concat pre) + (s_stop s - len (concat pre) + 1) - 10)) as [Hfit | Hno].
    + cbn [negb mbind option_bind]. rewrite Hstart in Hroom.
      destruct (put_behind resp e f t0 k pre He Hok Hpre0 eq_refl Hone (Hroom Hne Hfit)) as (f' & t' & E & Hst & Hok' & Hit).
      eexists _, f', t'. split_and!; [exact E | exact Hst | | done | done]. left. split_and!; [done | done | by apply Hroom].
    + cbn [negb]. unfold store_unless_empty. cbn [negb orb].
      destruct (storetext_spec f k t0 0 0 pre Hok Hpre0 Hone) as (ls & E & Hls). replace (0 + len pre - 1) with (len pre - 1) in E by lia.
      rewrite E. cbn [mbind option_bind].
      destruct (put_alone resp e (<[k := ls]> f) (set_text 0 (t_line t0) t0) (resp, 0) He Hok) as (s0 & segs & f' & t' & E' & Hs0 & Hc & Hl & Hs & Hst & Hok' & Hit); [done |].
      eexists _, f', t'. split_and!; [exact E' | | | done | done].
      * econstructor; [exact Hls | exact Hst].
      * right. exists s0, segs. split_and!; try done. by destruct pre.
Qed.
End update.

(** ** Case (A): the text goes behind the other responses *)

Lemma shift_lines_spec n q lused line :
  lused < q ->
  (forall j, (j < n)%nat -> shift_lines n q lused line (lused + Z.of_nat j) = line (q + Z.of_nat j)) /\
  (forall m, m < lused -> shift_lines n q lused line m = line m) /\
  (forall m, q + Z.of_nat n <= m -> shift_lines n q lused line m = line m).
Proof.
  revert q lused line. induction n as [| n IH]; intros q lused line Hlt; cbn [shift_lines]; [split_and!; [lia | done | done] |].
  set (line1 := <[q := []]> (<[lused := line q]> line)). destruct (IH (q + 1) (lused + 1) line1) as (H1 & H2 & H3); [lia |].
  split_and!.
  - intros [| j] Hj.
    + rewrite !Z.add_0_r, H2 by lia. unfold line1. rewrite fn_lookup_insert_ne by lia. apply fn_lookup_insert.
    + replace (lused + Z.of_nat (S j)) with (lused + 1 + Z.of_nat j) by lia. rewrite H1 by lia.
      unfold line1. rewrite !fn_lookup_insert_ne by lia. f_equal. lia.
  - intros m Hm. rewrite H2 by lia. unfold line1. by rewrite !fn_lookup_insert_ne by lia.
  - intros m Hm. rewrite H3 by lia. unfold line1. by rewrite !fn_lookup_insert_ne by lia.
Qed.

(** The lines of the responses from slot [i] on move up to the end of the text. *)
Lemma shift_resps_spec t i q ds : holds_all t i q ds -> t_lused t < q -> slots_ok t ->
  let t' := shift_resps (length ds) i t in
  holds_all t' i (t_lused t) ds /\ t_lused t' = t_lused t + len (concat ds) /\ slots_ok t' /\
  (forall k, k < i -> t_slot t' k = t_slot t k) /\ (forall m, m < t_lused t -> t_line t' m = t_line t m) /\
  t_rused t' = t_rused t /\ origin t' = origin t.
Proof.
  revert t i q. induction ds as [| d ds IH]; intros t i q Hh Hlt Hok; cbn [length shift_resps concat holds_all].
  { split_and!; try done. change (len (@nil text)) with 0. lia. }
  destruct Hh as [[H1 H2 H3] Hh]. cbv zeta. rewrite H1, H2. replace (q + len d - 1 - q + 1) with (len d) by lia. len_pos.
  rewrite (Z.max_r 0 (len d)) by done. replace (t_lused t + len d - len d) with (t_lused t) by lia.
  destruct (shift_lines_spec (Z.to_nat (len d)) q (t_lused t) (t_line t) Hlt) as (L1 & L2 & L3).
  set (t1 := in_slot i _ _).
  assert (Hh1 : holds_all t1 (i + 1) (q + len d) ds).
  { eapply holds_all_same; [exact Hh | |].
    - intros k Hk. unfold t1. rewrite slot_ne by lia. done.
    - intros m Hm. cbn [t1 in_slot t_line set_text]. apply L3. rewrite Z2Nat.id by done. lia. }
  destruct (IH t1 (i + 1) (q + len d) Hh1) as (R1 & R2 & R3 & R4 & R5 & R6 & R7).
  { cbn. lia. }
  { unfold t1. by apply slots_in. }
  cbn [t_lused t1 in_slot set_text] in R1, R2, R5. split_and!; [| exact R1 | | exact R3 | | | exact R6 | exact R7].
  - assert (Hd : holds t1 i (t_lused t) d).
    { constructor; [unfold t1; by rewrite slot_at | unfold t1; by rewrite slot_at |]. intros j x Hj.
      pose proof (lookup_lt_Some _ _ _ Hj). cbn [t1 in_slot t_line set_text]. rewrite L1 by (unfold len; lia). by apply H3. }
    eapply holds_same; [exact Hd | by rewrite R4 by lia | by rewrite R4 by lia |]. intros m Hm. apply R5. lia.
  - rewrite R2, len_app. lia.
  - intros k Hk. rewrite R4 by lia. unfold t1. by rewrite slot_ne by lia.
  - intros m Hm. rewrite R5 by lia. cbn [t1 in_slot t_line set_text]. by apply L2.
Qed.

(** A chunk that is begun in slot [r], at the end of the text. *)
Record begun (t : textbuf) (r p : Z) (c : chunk) : Prop := {
  bg_start : s_start (t_slot t r) = p;
  bg_stop : c <> [] -> s_stop (t_slot t r) = p + len c - 1;
  bg_lines : forall j x, c !! j = Some x -> t_line t (p + Z.of_nat j) = x;
  bg_lused : t_lused t = p + len c;
  bg_ok : slots_ok t;
}.

(** The other slots keep what is before it. *)
Definition others (r p : Z) (t t' : textbuf) : Prop := t_rused t' = t_rused t /\
  forall i q d, i <> r -> q + len d <= p -> holds t i q d -> holds t' i q d.

Lemma begun_addline t r p c x : begun t r p c -> t_lused t < TB_LINES ->
  exists t', addline r x t = Some t' /\ begun t' r p (c ++ [x]) /\ others r p t t'.
Proof.
  intros [H2 H3 H4 H5 H6] Hl. unfold addline. rewrite (proj2 (Z.leb_gt _ _)) by done. eexists. split; [done |].
  pose proof (len_nonneg c). split; [constructor; cbn [t_slot t_line t_lused set_text] | split; [done |]].
  - rewrite slot_at. exact H2.
  - intros _. rewrite slot_at. cbn [s_stop set_span]. rewrite len_app. change (len [x]) with 1. lia.
  - intros j y Hj. apply lookup_app_Some in Hj as [Hj | [Hj Hy]].
    + pose proof (lookup_lt_Some _ _ _ Hj). rewrite fn_lookup_insert_ne by (unfold len in *; lia). by apply H4.
    + destruct (j - length c)%nat as [| i] eqn:E; [| done]. injection Hy as <-.
      replace (p + Z.of_nat j) with (t_lused t) by (unfold len in *; lia). apply fn_lookup_insert.
  - rewrite len_app. change (len [x]) with 1. lia.
  - intros i. cbn [t_slot set_text]. by apply slots_in.
  - intros i q d Hi Hq Hh. eapply holds_same; [exact Hh | | |].
    + cbn [t_slot set_text]. by rewrite slot_ne by done.
    + cbn [t_slot set_text]. by rewrite slot_ne by done.
    + intros m Hm. cbn [t_line set_text]. apply fn_lookup_insert_ne. lia.
Qed.

Lemma others_trans r p t t1 t2 : others r p t t1 -> others r p t1 t2 -> others r p t t2.
Proof. intros [E1 H1] [E2 H2]. split; [congruence |]. auto. Qed.

Lemma begun_addlines t r p c strs : begun t r p c -> p + len c + len strs <= TB_LINES ->
  exists t', addlines r strs t = Some t' /\ begun t' r p (c ++ map chxtrimmed strs) /\ others r p t t'.
Proof.
  revert t c. induction strs as [| x strs IH]; intros t c Hb Hl; [exists t; rewrite app_nil_r; by split_and! |].
  rewrite len_cons in Hl. len_pos. cbn [addlines map].
  destruct (begun_addline t r p c (chxtrimmed x) Hb) as (t1 & -> & Hb1 & O1); [rewrite (bg_lused _ _ _ _ Hb); lia |]. cbn [mbind option_bind].
  destruct (IH t1 (c ++ [chxtrimmed x]) Hb1) as (t2 & -> & Hb2 & O2); [rewrite len_app; change (len [chxtrimmed x]) with 1; lia |].
  exists t2. rewrite <- app_assoc in Hb2. split_and!; [done | done | by eapply others_trans].
Qed.

Lemma update_in_spec resp e t pre c post : entry_ok e -> slots_ok t -> holds_all t 0 0 (pre ++ c :: post) -> c <> [] ->
  resp - t_rfirst t = len pre -> t_rlast t - resp = len post ->
  len (concat pre) + len (concat post) + len (new_chunk e) <= TB_LINES ->
  exists t', update_in resp (len c) e t = Some t' /\ holds_each t' 0 (pre ++ new_chunk e :: post) /\
    t_rused t' = t_rused t /\ slots_ok t'.
Proof.
  intros He Hok Hh Hc Hr Hn Hl. apply holds_all_app in Hh as [Hpre Hh]. rewrite !Z.add_0_l in Hh. cbn [holds_all] in Hh.
  destruct Hh as [[Hs1 _ _] Hpost]. unfold update_in. rewrite Hr, Hn, Hs1.
  assert (Hpos : 0 < len c) by (destruct c; [done | rewrite len_cons; len_pos; lia]). rewrite (proj2 (Z.ltb_lt 0 (len c)) Hpos).
  replace (Z.to_nat (len post)) with (length post) by (unfold len; lia).
  set (t0 := set_text (len (concat pre)) (t_line t) t).
  destruct (shift_resps_spec t0 (len pre + 1) (len (concat pre) + len c) post) as (S1 & S2 & S3 & S4 & S5 & S6 & S7);
    [by eapply holds_all_same | cbn; lia | exact Hok |].
  set (t1 := shift_resps (length post) (len pre + 1) t0) in *. cbn [t_lused t0 set_text] in S1, S2, S5.
  set (p := t_lused t1) in *. set (t2 := in_slot (len pre) (fun s => put_attach e (put_props e (set_span p (s_stop s) s))) t1).
  assert (Hspan : forall s, s_start (put_attach e (put_props e s)) = s_start s /\ s_stop (put_attach e (put_props e s)) = s_stop s).
  { intros s. rewrite put_attach_none by done. apply put_props_span. }
  assert (Hb : begun t2 (len pre) p []).
  { constructor; try done.
    - unfold t2. rewrite slot_at. apply Hspan.
    - cbn. change (len (@nil text)) with 0. fold p. lia.
    - apply slots_in; [done |]. intros Hs. rewrite put_attach_none by done.
      destruct (put_props_ok e (set_span p (s_stop (t_slot t1 (len pre))) (t_slot t1 (len pre))) He Hs) as [? _]. by split. }
  pose proof (head_short e) as Hhd. pose proof (head_len e) as Hhl. rewrite new_chunk_head, len_app in Hl.
  pose proof (len_nonneg (map chxtrimmed (lines_of (e_text e)))).
  assert (Em : len (map chxtrimmed (lines_of (e_text e))) = len (lines_of (e_text e))) by (unfold len; by rewrite length_map).
  destruct (begun_addline t2 (len pre) p [] (e_header e) Hb) as (t3 & E3 & Hb3 & O3); [rewrite (bg_lused _ _ _ _ Hb); change (len (@nil text)) with 0; lia |].
  cbv zeta. fold p. fold t2. rewrite E3. cbn [mbind option_bind app] in *.
  assert (E4 : exists t4, put_title (len pre) e t3 = Some t4 /\ begun t4 (len pre) p (head_chunk e) /\ others (len pre) p t3 t4).
  { unfold put_title, head_chunk in *. destruct (e_title e) as [title |]; [| by exists t3; split_and!].
    destruct (begun_addline t3 (len pre) p [e_header e] title Hb3) as (t4 & E4 & Hb4 & O4); [| by exists t4].
    rewrite (bg_lused _ _ _ _ Hb3). change (len [e_header e]) with 1. lia. }
  destruct E4 as (t4 & -> & Hb4 & O4). cbn [mbind option_bind].
  destruct (begun_addlines t4 (len pre) p (head_chunk e) (lines_of (e_text e)) Hb4) as (t5 & -> & Hb5 & O5); [lia |].
  rewrite <- new_chunk_head in Hb5. exists t5. split; [done |].
  destruct (others_trans _ _ _ _ _ O3 (others_trans _ _ _ _ _ O4 O5)) as [Eu Hoth]. split_and!; [| by rewrite Eu; cbn; rewrite S6 | apply Hb5].
  assert (Hkeep : forall i q d, i <> len pre -> q + len d <= p -> holds t1 i q d -> holds t5 i q d).
  { intros i q d Hi Hq Hd. apply Hoth; [done | done |]. eapply holds_same; [exact Hd | unfold t2; by rewrite slot_ne | unfold t2; by rewrite slot_ne | done]. }
  assert (Hin : forall cs i q, holds_all t1 i q cs -> q + len (concat cs) <= p -> (i + len cs <= len pre \/ len pre < i) -> holds_all t5 i q cs).
  { intros cs. induction cs as [| d cs IH]; intros i q Hd Hq Hi; [done |]. destruct Hd as [Hd1 Hd2]. cbn [concat] in Hq.
    rewrite len_app in Hq. rewrite len_cons in Hi. len_pos. split; [apply Hkeep; [lia | lia | done] | apply IH; [done | lia | lia]]. }
  assert (Hpre5 : holds_all t5 0 0 pre).
  { apply Hin; [| rewrite S2; len_pos; lia | lia]. eapply holds_all_same; [exact Hpre | |].
    - intros k Hk. rewrite S4 by lia. done.
    - intros m Hm. rewrite S5 by lia. done. }
  assert (Hpost5 : holds_all t5 (len pre + 1) (len (concat pre)) post) by (apply Hin; [exact S1 | lia | lia]).
  intros j d Hj. apply lookup_app_Some in Hj as [Hj | [Hj Hd]].
  - destruct (holds_all_each _ _ _ _ Hpre5 j d Hj) as [q Hq]. by exists q.
  - destruct (j - length pre)%nat as [| k] eqn:Ek.
    + injection Hd as <-. exists p. replace (0 + Z.of_nat j) with (len pre) by (unfold len; lia). by constructor; [apply Hb5 | apply (bg_stop _ _ _ _ Hb5) | apply Hb5].
    + destruct (holds_all_each _ _ _ _ Hpost5 k d Hd) as [q Hq]. exists q. by replace (0 + Z.of_nat j) with (len pre + 1 + Z.of_nat k) by (unfold len; lia).
Qed.
