(* ===== verification/TextLayout.v ===== *)
(** The part files of an item as a list of responses: [syspdir] lists them in
    order, and [updatepart] changes one response, or adds one at the end, and
    leaves the others as they are, however it splits part files. *)
From Stdlib Require Import Sorted.
From stdpp Require Import gmap functions sorting list_numbers.
From S2P Require Import Prelude Memory Chix ChixCore ChixEdit ChixSearch ChixParse Vartab Str Numbers Html FileLines TextParts TextBuf TextUpdate.

(** ** The order of the part files *)

Definition klt (a b : key) : Prop := key_lt a b = true.

Lemma klt_spec a b : klt a b <-> a.1 < b.1 \/ a.1 = b.1 /\ a.2 < b.2.
Proof. unfold klt, key_lt. rewrite orb_true_iff, andb_true_iff, !Z.ltb_lt, Z.eqb_eq. tauto. Qed.

#[export] Instance klt_antisym : AntiSymm eq klt.
Proof. intros a b. rewrite !klt_spec. lia. Qed.
#[export] Instance klt_trans : Transitive klt.
Proof. intros a b c. rewrite !klt_spec. lia. Qed.

Lemma klt_total a b : key_lt a b = false -> a <> b -> klt b a.
Proof.
  intros H Hne. assert (Hn : ~ klt a b) by (unfold klt; congruence). rewrite klt_spec in Hn |- *.
  destruct a as [a1 a2], b as [b1 b2]. cbn [fst snd] in *. destruct (decide (a1 = b1)) as [-> |]; [| lia].
  destruct (decide (a2 = b2)) as [-> |]; [done | lia].
Qed.

Lemma pdir_insert_spec k l : StronglySorted (flip klt) l -> k ∉ l ->
  StronglySorted (flip klt) (pdir_insert k l) /\ pdir_insert k l ≡ₚ k :: l.
Proof.
  intros Hs. induction Hs as [| x l Hs IH Hx]; intros Hk; cbn [pdir_insert]; [by repeat constructor |].
  apply not_elem_of_cons in Hk as [Hne Hk]. destruct (key_lt k x) eqn:E.
  - destruct (IH Hk) as [H1 H2]. split.
    + constructor; [done |]. rewrite H2. by constructor.
    + rewrite H2. apply Permutation_swap.
  - rewrite bool_decide_eq_false_2 by done. split; [| done]. constructor; [by constructor |]. assert (Hxk : klt x k) by (by apply klt_total).
    constructor; [done |]. eapply Forall_impl; [exact Hx |]. cbn. intros y Hy. by etrans.
Qed.

Lemma pdir_read_spec files acc : NoDup files -> (forall k, k ∈ files -> k ∉ acc) -> StronglySorted (flip klt) acc ->
  len files + len acc <= PDIRMAX - 3 ->
  StronglySorted (flip klt) (pdir_read files acc) /\ pdir_read files acc ≡ₚ files ++ acc.
Proof.
  intros Hn. revert acc. induction Hn as [| k files Hk Hn IH]; intros acc Hd Hs Hl; cbn [pdir_read app]; [done |].
  destruct (pdir_insert_spec k acc Hs) as [H1 H2]; [apply Hd; left |]. rewrite len_cons in Hl.
  assert (El : len (pdir_insert k acc) = len acc + 1) by (unfold len; rewrite H2; cbn [length]; lia).
  destruct (Z.leb_spec (PDIRMAX - 3) (len (pdir_insert k acc))) as [Hle | Hgt].
  - assert (files = []) as ->; [| done]. apply nil_length_inv. unfold len in *. lia.
  - destruct (IH (pdir_insert k acc)) as [H3 H4]; [| done | lia |].
    + intros x Hx. rewrite H2. apply not_elem_of_cons. split; [by intros -> | apply Hd; by right].
    + split; [done |]. rewrite H4, H2. by rewrite Permutation_middle.
Qed.

Lemma sorted_rev l : StronglySorted (flip klt) l -> StronglySorted klt (rev l).
Proof.
  induction 1 as [| x l Hs IH Hx]; [constructor |]. cbn [rev]. apply StronglySorted_app. split_and!; [| done | by repeat constructor].
  intros y z Hy ->%list_elem_of_singleton. rewrite <- Permutation_rev in Hy. rewrite Forall_forall in Hx. by apply (Hx y).
Qed.

(** The directory of an item, however the system lists its files. *)
Lemma syspdir_spec files keys : StronglySorted klt keys -> NoDup keys -> files ≡ₚ keys -> len keys <= PDIRMAX - 3 ->
  syspdir files = keys.
Proof.
  intros Hs Hn Hp Hl. unfold syspdir.
  destruct (pdir_read_spec files []) as [H1 H2].
  - by rewrite Hp.
  - intros k _. apply not_elem_of_nil.
  - constructor.
  - change (len (@nil key)) with 0. unfold len. rewrite Hp. unfold len in Hl. lia.
  - rewrite app_nil_r in H2. apply (StronglySorted_unique klt); [by apply sorted_rev | done |].
    by rewrite <- Permutation_rev, H2.
Qed.

(** The part file of a response and a line. *)
Lemma partnum_loop_spec q l1 l2 p : Forall (fun x => key_lt q x = false) l1 -> (forall x, head l2 = Some x -> key_lt q x = true) ->
  partnum_loop (l1 ++ l2) q p = p + len l1.
Proof.
  intros H1 H2. revert p. induction H1 as [| x l1 Hx H1 IH]; intros p; cbn [app partnum_loop].
  - destruct l2 as [| x l2]; cbn [partnum_loop]; [| rewrite (H2 x eq_refl)]; change (len (@nil key)) with 0; lia.
  - rewrite Hx, IH, len_cons. lia.
Qed.

Lemma partnum_at l1 k l2 q : Forall (fun x => key_lt q x = false) l1 -> key_lt q k = false ->
  (forall x, head l2 = Some x -> key_lt q x = true) ->
  partnum (l1 ++ k :: l2) q.1 q.2 = (l1 ++ k :: l2, len l1).
Proof.
  intros H1 Hk H2. unfold partnum. destruct q as [q1 q2]. cbn [fst snd]. destruct l1 as [| x l1]; cbn [app tail].
  - by rewrite (partnum_loop_spec _ [] l2).
  - f_equal. rewrite app_cons_assoc. rewrite partnum_loop_spec; [| | done].
    + rewrite len_app, (len_cons x l1). change (len [k]) with 1. lia.
    + apply Forall_cons in H1 as [_ H1]. apply Forall_app. split; [done | by repeat constructor].
Qed.

(** ** The layout of an item *)

(** A part of an item: whole responses in one file, or one response over
    several files. *)
Inductive part :=
  | Block (cs : list chunk)
  | Long (s0 : chunk) (segs : list chunk).

Definition part_resps (p : part) : list chunk :=
  match p with Block cs => cs | Long s0 segs => [concat (s0 :: segs)] end.

(** The chunks in the first file of a part. *)
Definition first_chunks (p : part) : list chunk := match p with Block cs => cs | Long s0 _ => [s0] end.

Definition later_files (a : Z) (p : part) : list (key * list chunk) :=
  match p with Block _ => [] | Long s0 segs => rest_files a (len s0) segs end.
Definition part_files (a : Z) (p : part) : list (key * list chunk) := ((a, 0), first_chunks p) :: later_files a p.

(** The responses of an item, and its files. *)
Definition content (ps : list part) : list chunk := concat (map part_resps ps).
Fixpoint files_of (a : Z) (ps : list part) : list (key * list chunk) :=
  match ps with
  | [] => []
  | p :: ps => part_files a p ++ files_of (a + len (part_resps p)) ps
  end.
Definition keys_of (a : Z) (ps : list part) : list key := map fst (files_of a ps).

Definition chunk_ok (c : chunk) : Prop := is_header c /\ Forall one_line c.
Definition seg_ok (s : chunk) : Prop := s <> [] /\ Forall one_line s /\ len s <= SUGGEST_MAX - 5.

Definition part_ok (p : part) : Prop :=
  match p with
  | Block cs => cs <> [] /\ Forall chunk_ok cs /\ len (concat cs) <= SUGGEST_MAX - 5 /\ len cs <= TB_RESPS
  | Long s0 segs => is_header s0 /\ seg_ok s0 /\ segs <> [] /\ Forall seg_ok segs
  end.

(** The files of an item that consists of some parts. *)
Record laid (f : partfiles) (ps : list part) : Prop := {
  laid_ok : Forall part_ok ps;
  laid_files : forall k cs, (k, cs) ∈ files_of 0 ps -> exists ls, f !! k = Some ls /\ file_lines cs ls;
  laid_dom : forall k, is_Some (f !! k) -> k ∈ keys_of 0 ps;
}.

Lemma content_app ps qs : content (ps ++ qs) = content ps ++ content qs.
Proof. unfold content. by rewrite map_app, concat_app. Qed.

Lemma files_app a ps qs : files_of a (ps ++ qs) = files_of a ps ++ files_of (a + len (content ps)) qs.
Proof.
  revert a. induction ps as [| p ps IH]; intros a; cbn [app files_of].
  - change (content []) with (@nil chunk). change (len (@nil chunk)) with 0. by rewrite Z.add_0_r.
  - rewrite IH, <- app_assoc. change (content (p :: ps)) with (part_resps p ++ content ps). rewrite len_app. do 2 f_equal. f_equal. lia.
Qed.

Lemma keys_app a ps qs : keys_of a (ps ++ qs) = keys_of a ps ++ keys_of (a + len (content ps)) qs.
Proof. unfold keys_of. by rewrite files_app, map_app. Qed.

Lemma part_nonempty p : part_ok p -> 0 < len (part_resps p).
Proof.
  destruct p as [cs | s0 segs]; cbn [part_ok part_resps]; [| done]. intros [H _]. destruct cs; [done |].
  rewrite len_cons. len_pos. lia.
Qed.

(** The later files of a part are in order, after the first. *)
Lemma rest_keys a l segs : Forall seg_ok segs -> 0 < l ->
  StronglySorted klt (map fst (rest_files a l segs)) /\ Forall (fun k => k.1 = a /\ l <= k.2) (map fst (rest_files a l segs)).
Proof.
  intros Hs. revert l. induction Hs as [| s segs (Hs & _) Hss IH]; intros l Hl; cbn [rest_files map fst]; [by repeat constructor |].
  assert (0 < len s) by (destruct s; [done | rewrite len_cons; len_pos; lia]).
  destruct (IH (l + len s)) as [H1 H2]; [lia |]. split.
  - constructor; [done |]. eapply Forall_impl; [exact H2 |]. cbn beta. intros k [E Hk]. apply klt_spec. cbn [fst snd]. lia.
  - constructor; [cbn; lia |]. eapply Forall_impl; [exact H2 |]. cbn beta. intros k [E Hk]. lia.
Qed.

Lemma later_keys a p : part_ok p ->
  StronglySorted klt (map fst (later_files a p)) /\ Forall (fun k => k.1 = a /\ 0 < k.2) (map fst (later_files a p)).
Proof.
  destruct p as [cs | s0 segs]; cbn [part_ok later_files]; [by repeat constructor |]. intros (_ & (Hs & _) & _ & Hss).
  assert (0 < len s0) by (destruct s0; [done | rewrite len_cons; len_pos; lia]).
  destruct (rest_keys a (len s0) segs Hss) as [H1 H2]; [done |]. split; [done |].
  eapply Forall_impl; [exact H2 |]. cbn beta. intros k [E Hk]. lia.
Qed.

(** All files are in order, and their responses are those of the item. *)
Lemma keys_sorted a ps : Forall part_ok ps ->
  StronglySorted klt (keys_of a ps) /\ Forall (fun k => a <= k.1 < a + len (content ps) /\ 0 <= k.2) (keys_of a ps).
Proof.
  intros Hp. revert a. induction Hp as [| p ps Hp Hps IH]; intros a; [by repeat constructor |].
  destruct (IH (a + len (part_resps p))) as [H1 H2]. destruct (later_keys a p Hp) as [H3 H4]. pose proof (part_nonempty p Hp).
  unfold keys_of in *. cbn [files_of part_files map fst app]. rewrite map_app.
  change (content (p :: ps)) with (part_resps p ++ content ps). rewrite len_app. pose proof (len_nonneg (content ps)). split.
  - constructor.
    + apply StronglySorted_app. split_and!; [| done | done]. intros x y Hx Hy. rewrite Forall_forall in H2, H4.
      apply klt_spec. specialize (H2 y Hy). specialize (H4 x Hx). lia.
    + apply Forall_app. split.
      * eapply Forall_impl; [exact H4 |]. cbn beta. intros k Hk. apply klt_spec. cbn [fst snd]. lia.
      * eapply Forall_impl; [exact H2 |]. cbn beta. intros k Hk. apply klt_spec. cbn [fst snd]. lia.
  - constructor; [cbn [fst snd]; lia |]. apply Forall_app. split.
    + eapply Forall_impl; [exact H4 |]. cbn beta. intros k Hk. lia.
    + eapply Forall_impl; [exact H2 |]. cbn beta. intros k Hk. lia.
Qed.

Lemma sorted_nodup l : StronglySorted klt l -> NoDup l.
Proof.
  induction 1 as [| x l Hs IH Hx]; constructor; [| done]. intros Hin. rewrite Forall_forall in Hx. specialize (Hx x Hin).
  apply klt_spec in Hx. lia.
Qed.

(** ** Storing the files of a part *)

Lemma stored_lookup f es f' : stored f es f' -> NoDup (map fst es) ->
  (forall k cs, (k, cs) ∈ es -> exists ls, f' !! k = Some ls /\ file_lines cs ls) /\
  (forall k, k ∉ map fst es -> f' !! k = f !! k).
Proof.
  induction 1 as [| f k cs ls es f' Hl Hs IH]; intros Hn; cbn [map fst] in *.
  - split; [by intros k cs ?%elem_of_nil | done].
  - apply NoDup_cons in Hn as [Hk Hn]. destruct (IH Hn) as [H1 H2]. split.
    + intros k' cs' [[= -> ->] | Hin]%elem_of_cons; [| by apply H1]. exists ls. split; [| done].
      rewrite H2 by done. apply lookup_insert_eq.
    + intros k' Hk'. apply not_elem_of_cons in Hk' as [Hne Hk']. rewrite H2 by done. by rewrite lookup_insert_ne.
Qed.

(** One part is replaced by others that hold as many responses, or comes last. *)
Lemma laid_replace f ps1 olds ps2 (D : list key) f1 es f' qs :
  laid f (ps1 ++ olds ++ ps2) -> Forall part_ok qs ->
  let a := len (content ps1) in
  (forall k, k ∈ D -> k ∈ keys_of a olds) ->
  (forall k, f1 !! k = if decide (k ∈ D) then None else f !! k) ->
  stored f1 es f' -> es ≡ₚ files_of a qs ->
  (forall k, k ∈ keys_of a olds -> k ∉ D -> k ∈ keys_of a qs) ->
  ps2 = [] \/ len (content qs) = len (content olds) ->
  laid f' (ps1 ++ qs ++ ps2).
Proof.
  intros [Hok Hf Hd] Hqs a HD Hf1 Hst Hes Hold Hlen. pose proof Hok as (Hok1 & Hok2)%Forall_app. pose proof Hok2 as (Hoko & Hok2')%Forall_app.
  assert (Hnew : Forall part_ok (ps1 ++ qs ++ ps2)) by (by rewrite !Forall_app).
  assert (Ek : map fst es ≡ₚ keys_of a qs) by (unfold keys_of; by rewrite Hes).
  assert (Esame : forall x, x ∈ files_of (a + len (content qs)) ps2 <-> x ∈ files_of (a + len (content olds)) ps2).
  { intros x. destruct Hlen as [-> | ->]; done. }
  destruct (keys_sorted 0 _ Hnew) as [Hsort _]. apply sorted_nodup in Hsort. rewrite !keys_app, !Z.add_0_l in Hsort. fold a in Hsort.
  destruct (keys_sorted 0 _ Hok) as [Hsort' _]. apply sorted_nodup in Hsort'. rewrite !keys_app, !Z.add_0_l in Hsort'. fold a in Hsort'.
  apply NoDup_app in Hsort as (Hn1 & Hn2 & Hn3). apply NoDup_app in Hn3 as (Hn3 & Hn4 & Hn5).
  apply NoDup_app in Hsort' as (Ho1 & Ho2 & Ho3). apply NoDup_app in Ho3 as (Ho3 & Ho4 & Ho5).
  destruct (stored_lookup f1 es f' Hst) as [S1 S2]; [by rewrite Ek |].
  assert (Hin : forall k cs, (k, cs) ∈ files_of 0 (ps1 ++ olds ++ ps2) <->
    (k, cs) ∈ files_of 0 ps1 \/ (k, cs) ∈ files_of a olds \/ (k, cs) ∈ files_of (a + len (content olds)) ps2).
  { intros k cs. rewrite !files_app, !elem_of_app, !Z.add_0_l. fold a. tauto. }
  assert (Hkey : forall k cs b ps, (k, cs) ∈ files_of b ps -> k ∈ keys_of b ps).
  { intros k cs b ps H. apply list_elem_of_fmap. by exists (k, cs). }
  assert (Hkeep : forall k, k ∉ keys_of a olds -> k ∉ keys_of a qs -> f' !! k = f !! k).
  { intros k H1 H2. rewrite S2 by (by rewrite Ek). rewrite Hf1. destruct (decide (k ∈ D)) as [H |]; [| done]. by apply HD in H. }
  constructor; [done | |].
  - intros k cs. rewrite !files_app, !elem_of_app, !Z.add_0_l. fold a. intros [H | [H | H]].
    + destruct (Hf k cs) as (ls & E & Hls); [apply Hin; by left |]. exists ls. split; [| done]. apply Hkey in H.
      rewrite Hkeep; [done | |]; intros H'.
      * apply (Ho2 k H). apply elem_of_app. by left.
      * apply (Hn2 k H). apply elem_of_app. by left.
    + apply S1. by rewrite Hes.
    + apply Esame in H as H'. destruct (Hf k cs) as (ls & E & Hls); [apply Hin; by right; right |]. exists ls. split; [| done].
      apply Hkey in H, H'. rewrite Hkeep; [done | |]; intros H''; [by apply (Ho4 k H'') | by apply (Hn4 k H'')].
  - intros k Hk. rewrite !keys_app, !elem_of_app, !Z.add_0_l. fold a.
    destruct (decide (k ∈ keys_of a qs)) as [H | H]; [by right; left |]. rewrite S2 in Hk by (by rewrite Ek).
    rewrite Hf1 in Hk. destruct (decide (k ∈ D)) as [HDk | HDk]; [by destruct Hk |]. apply Hd in Hk.
    rewrite !keys_app, !elem_of_app, !Z.add_0_l in Hk. fold a in Hk. destruct Hk as [Hk | [Hk | Hk]]; [by left | by apply Hold in Hk |].
    right. right. unfold keys_of in *. apply list_elem_of_fmap in Hk as (x & -> & Hx). apply list_elem_of_fmap. exists x. split; [done |]. by apply Esame.
Qed.

(** *** The parts of a response that is put behind others *)

Definition mk_part (s0 : chunk) (segs : list chunk) : part := match segs with [] => Block [s0] | _ => Long s0 segs end.

Lemma mk_part_files a s0 segs : part_files a (mk_part s0 segs) = ((a, 0), [s0]) :: rest_files a (len s0) segs.
Proof. by destruct segs. Qed.
Lemma mk_part_resps s0 segs : part_resps (mk_part s0 segs) = [concat (s0 :: segs)].
Proof. destruct segs; cbn [mk_part part_resps concat]; [by rewrite app_nil_r | done]. Qed.

Lemma mk_part_ok s0 segs c : chunk_ok c -> concat (s0 :: segs) = c -> s0 <> [] -> len s0 <= SUGGEST_MAX - 5 ->
  Forall (fun s => s <> [] /\ len s <= SUGGEST_MAX - 5) segs -> part_ok (mk_part s0 segs).
Proof.
  intros [Hh Ho] Hc Hne Hl Hs. cbn [concat] in Hc. subst c. apply Forall_app in Ho as [Ho0 Ho].
  assert (Hh0 : is_header s0) by (by destruct s0). destruct segs as [| s segs]; cbn [mk_part part_ok].
  - cbn [concat]. rewrite app_nil_r. split_and!; [done | by repeat constructor | done | by vm_compute].
  - apply Forall_cons in Hs as Hs'. split_and!; try done. clear Hs' Hh Hh0. revert Ho. induction Hs as [| x xs [H1 H2] Hs IH]; intros Ho; [constructor |].
    cbn [concat] in Ho. apply Forall_app in Ho as [Hx Ho]. constructor; [done | by apply IH].
Qed.

Lemma last_files_parts a pre c es : last_files (a + len pre) pre c (a, 0) es -> chunk_ok c ->
  (pre = [] \/ part_ok (Block pre)) -> len pre < TB_RESPS ->
  exists qs, es = files_of a qs /\ content qs = pre ++ [c] /\ Forall part_ok qs.
Proof.
  intros [(Hne & -> & Hl) | (s0 & segs & Hs0 & Hc & Hl & Hs & ->)] Hok Hpre Hr.
  - exists [Block (pre ++ [c])]. cbn [files_of part_files later_files first_chunks app]. split_and!; [done | |].
    + unfold content. cbn [map part_resps concat]. by rewrite app_nil_r.
    + constructor; [| constructor]. destruct Hpre as [-> | (_ & H1 & H2 & H3)]; [done |]. cbn [part_ok]. split_and!.
      * by destruct pre.
      * apply Forall_app. by split; [| constructor].
      * rewrite concat_app, len_app. cbn [concat]. by rewrite app_nil_r.
      * rewrite len_app. change (len [c]) with 1. lia.
  - pose proof (mk_part_ok s0 segs c Hok Hc Hs0 Hl Hs) as Hmk. destruct Hpre as [-> | Hpre].
    + exists [mk_part s0 segs]. change (len (@nil chunk)) with 0. rewrite Z.add_0_r. cbn [files_of]. rewrite app_nil_r, mk_part_files. split_and!; [done | |].
      * unfold content. cbn [map concat]. by rewrite mk_part_resps, app_nil_r, Hc.
      * by constructor.
    + assert (Hne : pre <> []) by apply Hpre. exists [Block pre; mk_part s0 segs]. cbn [files_of part_resps]. rewrite app_nil_r, mk_part_files. split_and!.
      * by destruct pre.
      * unfold content. cbn [map concat part_resps]. by rewrite mk_part_resps, app_nil_r, Hc.
      * constructor; [done |]. constructor; [done | constructor].
Qed.

(** ** The update of one part *)

Section update.
Context (B : list Z) (attach_def : list text).

(** The new version of a response is written behind the ones before it although
    it does not fit there, since its old lines are counted as free twice. *)
Definition misfit (pre : list chunk) (c : chunk) (e : entry) : Prop :=
  pre <> [] /\ SUGGEST_MAX - 5 < len (concat pre) + len (new_chunk e) /\
  len (lines_of (e_text e)) < SUGGEST_MAX - len (concat pre) + len c - 10.

Lemma chunks_ok cs : Forall chunk_ok cs -> Forall (fun c => c <> [] /\ Forall one_line c) cs.
Proof using Type. intros H. eapply Forall_impl; [exact H |]. intros c [Hh Ho]. split; [by destruct c | done]. Qed.

Lemma new_ok e : entry_ok e -> chunk_ok (new_chunk e).
Proof using Type. intros He. split; apply (new_chunk_ok e He). Qed.

Lemma new_len e : len (lines_of (e_text e)) + 1 <= len (new_chunk e) <= len (lines_of (e_text e)) + 2.
Proof using Type.
  rewrite new_chunk_head, len_app. pose proof (head_short e). unfold len at 3 5. rewrite length_map. fold (len (lines_of (e_text e))). lia.
Qed.

(** The slot of a response has other counts of lines and bytes. *)
Lemma sized_holds t i q cs r lines bytes : holds_all t i q cs -> holds_all (in_slot r (set_size lines bytes) t) i q cs.
Proof using Type.
  intros H. eapply holds_all_same; [exact H | | done]. intros k Hk. destruct (decide (k = r)) as [-> | Hne]; [by rewrite slot_at | by rewrite slot_ne].
Qed.
Lemma sized_ok t r lines bytes : slots_ok t -> slots_ok (in_slot r (set_size lines bytes) t).
Proof using Type. intros H. by apply slots_in. Qed.

Lemma update_loaded_change w a f t e pre c post :
  loaded w a 0 t (pre ++ c :: post) -> t_rused t = len (pre ++ c :: post) -> entry_ok e ->
  part_ok (Block (pre ++ c :: post)) -> ~ misfit pre c e ->
  exists es f' t' qs, update_loaded false (a + len pre) e f t (a, 0) = Some (f', t') /\ stored f es f' /\
    es ≡ₚ files_of a qs /\ content qs = pre ++ new_chunk e :: post /\ Forall part_ok qs /\ slots_ok t' /\ t_item t' = -1.
Proof using Type.
  intros [Lo Ll Lr _ Lh Lok] Hru He (_ & Hcs & Hsize & Hresps) Hfit. injection Lo as _ _ _ O4 _.
  pose proof Hcs as (Hpre & (Hc & Hpost)%Forall_cons)%Forall_app. pose proof (chunks_ok _ Hpre) as Hpre'.
  pose proof (new_len e) as Hnl. pose proof (new_ok e He) as Hnew.
  rewrite len_app, len_cons in Lr, Hru, Hresps. rewrite concat_app, len_app in Ll, Hsize. cbn [concat] in Ll, Hsize. rewrite len_app in Ll, Hsize.
  assert (Hcne : c <> []) by (destruct Hc as [Hh _]; by destruct c).
  assert (Hcpos : 0 < len c) by (destruct c; [done | rewrite len_cons; len_pos; lia]).
  unfold update_loaded. change (TB_LINES / 2) with SUGGEST_MAX. unfold lines_of in Hnl, Hfit |- *.
  destruct (text_lines _ (e_text e) 0) as [ls linepos] eqn:Etl. cbn [fst] in *.
  assert (Els : lines_of (e_text e) = ls) by (unfold lines_of; by rewrite Etl).
  cbn [t_rfirst in_slot]. rewrite O4. replace (a + len pre - a) with (len pre) by lia.
  set (t0 := in_slot (len pre) (set_size (len ls) linepos) t).
  assert (Hh0 : holds_all t0 0 0 (pre ++ c :: post)) by (by apply sized_holds). assert (Hok0 : slots_ok t0) by (by apply sized_ok).
  pose proof Hh0 as [Hh1 [[Hs1 Hs2 _] Hhp]]%holds_all_app. rewrite !Z.add_0_l in *.
  rewrite Hs1, Hs2. replace (len (concat pre) + len c - 1 - len (concat pre) + 1) with (len c) by lia.
  cbn [t_lused t_rlast t_rused t0 in_slot]. rewrite Ll, Lr, Hru. pose proof (len_nonneg (concat pre)). pose proof (len_nonneg (concat post)).
  pose proof (len_nonneg pre).
  assert (Hpb : pre = [] \/ part_ok (Block pre)).
  { destruct (decide (pre = [])); [by left | right]. cbn [part_ok]. split_and!; [done | done | lia | len_pos; lia]. }
  (* the response is, or has become, the last one *)
  assert (HD : forall f1 t1, t_slot t1 = t_slot t0 -> t_line t1 = t_line t0 -> t_rfirst t1 = a ->
    exists es f' t' qs, update_last false (a + len pre) (len ls) SUGGEST_MAX e f1 t1 (a, 0) = Some (f', t') /\ stored f1 es f' /\
      es = files_of a qs /\ content qs = pre ++ [new_chunk e] /\ Forall part_ok qs /\ slots_ok t' /\ t_item t' = -1).
  { intros f1 t1 E1 E2 E3.
    destruct (update_last_spec (a + len pre) e f1 t1 (a, 0) pre He) as (es & f' & t' & E & Hst & Hlf & Hok' & Hit).
    - intros i. rewrite E1. apply Hok0.
    - eapply holds_all_same; [exact Hh1 | by rewrite E1 | by rewrite E2].
    - rewrite E3. lia.
    - by rewrite E1.
    - done.
    - lia.
    - intros Hne. rewrite E1, Hs1, Hs2. cbv zeta. intros Hlt. destruct (Z.le_gt_cases (len (concat pre) + len (new_chunk e)) (SUGGEST_MAX - 5)) as [? | Hgt]; [done |].
      exfalso. apply Hfit. split_and!; [done | lia |]. rewrite Els in Hlt |- *. lia.
    - rewrite Els in E. destruct (last_files_parts a pre (new_chunk e) es Hlf Hnew Hpb) as (qs & -> & Hq & Hqok); [len_pos; lia |].
      by exists (files_of a qs), f', t', qs. }
  destruct (decide (post = [])) as [-> | Hpne].
  - change (len (@nil chunk)) with 0. rewrite (proj2 (Z.ltb_ge _ _)) by lia. cbn [andb mbind option_bind].
    assert (Erl : t_rlast t0 = a + len pre) by (change (t_rlast t = a + len pre); rewrite Lr; change (len (@nil chunk)) with 0; lia).
    rewrite Erl, Z.ltb_irrefl. rewrite (proj2 (Z.leb_gt _ _)) by (change (len (@nil chunk)) with 0 in Hresps; lia).
    destruct (HD f t0) as (es & f' & t' & qs & E & Hst & -> & Hrest); [done | done | done |]. by exists (files_of a qs), f', t', qs.
  - assert (Hppos : 0 < len post) by (destruct post; [done | rewrite len_cons; len_pos; lia]).
    rewrite (proj2 (Z.ltb_lt _ _)) by lia. cbn [andb].
    destruct (Z.ltb_spec (len ls) (SUGGEST_MAX - (len (concat pre) + (len c + len (concat post))) + len c - 10)) as [Hin | Hno].
    + destruct (update_in_spec (a + len pre) e t0 pre c post He Hok0 Hh0 Hcne) as (t' & -> & Heach & Eru & Hok').
      { cbn [t0 t_rfirst in_slot]. lia. }
      { cbn [t0 t_rlast in_slot]. lia. }
      { unfold SUGGEST_MAX in *. change (TB_LINES / 2) with 250 in *. unfold TB_LINES. lia. }
      cbn [mbind option_bind].
      assert (Hall : Forall chunk_ok (pre ++ new_chunk e :: post)) by (apply Forall_app; by split; [| constructor]).
      destruct (storetext_each f (a, 0) t' 0 (pre ++ new_chunk e :: post) Hok' Heach (chunks_ok _ Hall)) as (fl & Es & Hfl).
      replace (0 + len (pre ++ new_chunk e :: post) - 1) with (t_rused t' - 1) in Es by (rewrite Eru, len_app, len_cons; cbn [t0 t_rused in_slot]; lia).
      rewrite Es. cbn [mbind option_bind]. eexists [((a, 0), pre ++ new_chunk e :: post)], _, _, [Block (pre ++ new_chunk e :: post)].
      split_and!; [done | econstructor; [done | constructor] | done | | | done | done].
      * unfold content. cbn [map part_resps concat]. by rewrite app_nil_r.
      * constructor; [| constructor]. cbn [part_ok]. split_and!; [by destruct pre | done | |].
        -- rewrite concat_app, len_app. cbn [concat]. rewrite len_app. lia.
        -- rewrite len_app, len_cons. lia.
    + unfold store_unless_empty. cbn [negb orb t_rfirst]. replace (t_rfirst t0) with a by done.
      destruct (storetext_spec f (a + len pre + 1, 0) t0 (len pre + 1) (len (concat pre) + len c) post Hok0 Hhp (chunks_ok _ Hpost)) as (fl & Es & Hfl).
      replace (len pre + 1 + len post - 1) with (len pre + (len post + 1) - 1) in Es by lia. rewrite Es. cbn [mbind option_bind t_rlast set_used].
      rewrite (proj2 (Z.ltb_ge _ _)) by lia. rewrite (proj2 (Z.leb_gt _ _)) by lia.
      match goal with |- context [update_last _ _ _ _ _ ?f1 ?t1 _] => destruct (HD f1 t1) as (es & f' & t' & qs & E & Hst & -> & Hq & Hqok & Hend); [done | done | done |] end.
      exists (((a + len pre + 1, 0), post) :: files_of a qs), f', t', (qs ++ [Block post]).
      split_and!; [exact E | by econstructor | | | | apply Hend | apply Hend].
      * rewrite files_app, Hq, len_app. change (len [new_chunk e]) with 1. cbn [files_of part_files later_files first_chunks app].
        rewrite <- Permutation_cons_append. by rewrite Z.add_assoc.
      * rewrite content_app, Hq. unfold content. cbn [map part_resps concat]. by rewrite app_nil_r, <- app_assoc.
      * apply Forall_app. split; [done |]. constructor; [| constructor]. cbn [part_ok]. split_and!; [done | done | lia | lia].
Qed.

Lemma update_loaded_append a f t e cs :
  t_rfirst t = a -> t_lused t = len (concat cs) -> t_rlast t = a + len cs - 1 -> holds_all t 0 0 cs -> slots_ok t ->
  entry_ok e -> Forall chunk_ok cs -> len (concat cs) <= SUGGEST_MAX - 5 -> len cs < TB_RESPS ->
  exists es f' t' qs, update_loaded false (a + len cs) e f t (a, 0) = Some (f', t') /\ stored f es f' /\
    es ≡ₚ files_of a qs /\ content qs = cs ++ [new_chunk e] /\ Forall part_ok qs /\ slots_ok t' /\ t_item t' = -1.
Proof using Type.
  intros O4 Ll Lr Lh Lok He Hcs Hsize Hresps. pose proof (new_len e) as Hnl. unfold update_loaded. change (TB_LINES / 2) with SUGGEST_MAX.
  unfold lines_of in Hnl. destruct (text_lines _ (e_text e) 0) as [ls linepos] eqn:Etl. cbn [fst] in *.
  assert (Els : lines_of (e_text e) = ls) by (unfold lines_of; by rewrite Etl).
  cbn [t_rfirst in_slot]. rewrite O4. replace (a + len cs - a) with (len cs) by lia.
  set (t0 := in_slot (len cs) (set_size (len ls) linepos) t).
  assert (Erl : t_rlast t0 = a + len cs - 1) by exact Lr. rewrite Erl. rewrite (proj2 (Z.ltb_ge (a + len cs) (a + len cs - 1))) by lia.
  cbn [andb mbind option_bind]. rewrite Erl. rewrite (proj2 (Z.ltb_lt (a + len cs - 1) (a + len cs))) by lia.
  rewrite (proj2 (Z.leb_gt _ _)) by lia.
  match goal with |- context [update_last _ _ _ _ _ ?f1 ?tt _] => set (t1 := tt) end.
  destruct (update_last_spec (a + len cs) e f t1 (a, 0) cs He) as (es & f' & t' & E & Hst & Hlf & Hok' & Hit).
  - apply slots_in; [| done]. by apply sized_ok.
  - eapply holds_all_same; [exact Lh | | done]. intros i Hi. unfold t1. rewrite slot_ne by lia. cbn [t_slot set_used]. unfold t0. by rewrite slot_ne by lia.
  - cbn. lia.
  - unfold t1. by rewrite slot_at.
  - by apply chunks_ok.
  - done.
  - intros Hne. unfold t1. rewrite slot_at. cbn [s_start s_stop set_span]. cbn [t_lused t0 in_slot set_used]. rewrite Ll, Els.
    unfold SUGGEST_MAX in *. change (TB_LINES / 2) with 250 in *. cbv zeta. lia.
  - rewrite Els in E. destruct (last_files_parts a cs (new_chunk e) es Hlf (new_ok e He)) as (qs & -> & Hq & Hqok); [| lia |].
    + destruct (decide (cs = [])); [by left | right]. cbn [part_ok]. split_and!; [done | done | done | lia].
    + by exists (files_of a qs), f', t', qs.
Qed.

(** ** The update of an item *)

Lemma delete_parts_spec l l' a f : Forall (fun k : key => k.1 = a) l -> (forall x, head l' = Some x -> x.1 <> a) ->
  forall k, delete_parts (l ++ l') a f !! k = if decide (k ∈ l) then None else f !! k.
Proof using Type.
  intros Hl Hl'. revert f. induction Hl as [| x l Hx Hl IH]; intros f k; cbn [app delete_parts].
  - destruct l' as [| y l']; cbn [delete_parts]; [| rewrite (proj2 (Z.eqb_neq _ _)) by (by apply Hl')]; by rewrite decide_False by apply not_elem_of_nil.
  - rewrite (proj2 (Z.eqb_eq _ _)) by done. rewrite IH. destruct (decide (k ∈ l)) as [H | H].
    + by rewrite decide_True by (by right).
    + destruct (decide (k = x)) as [-> | Hne].
      * rewrite lookup_delete_eq. by rewrite decide_True by left.
      * rewrite lookup_delete_ne by done. rewrite decide_False; [done |]. apply not_elem_of_cons. by split.
Qed.

Lemma keys_split ps1 p ps2 : keys_of 0 (ps1 ++ p :: ps2) =
  keys_of 0 ps1 ++ (len (content ps1), 0) :: (map fst (later_files (len (content ps1)) p) ++ keys_of (len (content ps1) + len (part_resps p)) ps2).
Proof using Type. rewrite keys_app, Z.add_0_l. unfold keys_of. cbn [files_of part_files map fst app]. by rewrite map_app. Qed.

(** The file in which a response begins. *)
Lemma partnum_part ps1 p ps2 resp : Forall part_ok (ps1 ++ p :: ps2) ->
  let a := len (content ps1) in a <= resp ->
  (resp < a + len (part_resps p) \/ ps2 = [] /\ later_files a p = []) ->
  partnum (keys_of 0 (ps1 ++ p :: ps2)) resp 0 = (keys_of 0 (ps1 ++ p :: ps2), len (keys_of 0 ps1)).
Proof using Type.
  intros Hok a Ha Hr. rewrite keys_split. fold a. pose proof Hok as (Hok1 & (Hokp & Hok2)%Forall_cons)%Forall_app.
  destruct (keys_sorted 0 ps1 Hok1) as [_ H1]. rewrite Z.add_0_l in H1. destruct (later_keys a p Hokp) as [_ H2].
  destruct (keys_sorted (a + len (part_resps p)) ps2 Hok2) as [_ H3].
  assert (Hlt : forall x : key, ~ klt (resp, 0) x -> key_lt (resp, 0) x = false) by (intros x Hx; unfold klt in Hx; by destruct (key_lt (resp, 0) x)).
  apply (partnum_at _ _ _ (resp, 0)).
  - eapply Forall_impl; [exact H1 |]. cbn beta. intros k Hk. apply Hlt. rewrite klt_spec. cbn [fst snd]. lia.
  - apply Hlt. rewrite klt_spec. cbn [fst snd]. lia.
  - intros x Hx. change (klt (resp, 0) x). rewrite klt_spec. cbn [fst snd]. destruct (map fst (later_files a p)) as [| y l] eqn:El.
    + cbn [app] in Hx. destruct Hr as [Hr | [-> _]]; [| done]. rewrite Forall_forall in H3. apply head_Some_elem_of in Hx.
      specialize (H3 x Hx). lia.
    + cbn [app head] in Hx. injection Hx as <-. apply Forall_cons in H2 as [[Hy1 Hy2] _].
      destruct Hr as [Hr | [_ Hr]]; [| by rewrite Hr in El]. destruct p as [cs | s0 segs]; [done |]. cbn [part_resps] in Hr.
      change (len [concat (s0 :: segs)]) with 1 in Hr. lia.
Qed.

Lemma content_cons p ps : content (p :: ps) = part_resps p ++ content ps.
Proof using Type. done. Qed.

(** Where a response is. *)
Lemma locate ps resp : 0 <= resp < len (content ps) -> exists ps1 p ps2 pre c post,
  ps = ps1 ++ p :: ps2 /\ part_resps p = pre ++ c :: post /\ resp = len (content ps1) + len pre.
Proof using Type.
  revert resp. induction ps as [| p ps IH]; intros resp Hr; [change (len (content [])) with 0 in Hr; lia |].
  rewrite content_cons, len_app in Hr. destruct (decide (resp < len (part_resps p))) as [Hlt | Hge].
  - destruct (lookup_lt_is_Some_2 (part_resps p) (Z.to_nat resp)) as [c Hc]; [unfold len in Hlt; lia |].
    exists [], p, ps, (take (Z.to_nat resp) (part_resps p)), c, (drop (S (Z.to_nat resp)) (part_resps p)).
    split_and!; [done | by rewrite take_drop_middle |]. change (len (content [])) with 0. unfold len. rewrite length_take. unfold len in Hlt. lia.
  - destruct (IH (resp - len (part_resps p))) as (ps1 & q & ps2 & pre & c & post & -> & E & Er); [lia |].
    exists (p :: ps1), q, ps2, pre, c, post. split_and!; [done | done |]. rewrite content_cons, len_app. lia.
Qed.

Lemma insert_middle (xs ys : list chunk) c d i : i = len xs -> <[Z.to_nat i := d]> (xs ++ c :: ys) = xs ++ d :: ys.
Proof using Type. intros ->. unfold len. rewrite Nat2Z.id. rewrite insert_app_r_alt by lia. by rewrite Nat.sub_diag. Qed.

(** The files that the system lists are those of the parts. *)
Lemma laid_keys f ps : laid f ps -> map fst (map_to_list f) ≡ₚ keys_of 0 ps.
Proof using Type.
  intros [Hok Hf Hd]. apply NoDup_Permutation.
  - apply NoDup_fst_map_to_list.
  - destruct (keys_sorted 0 ps Hok) as [Hs _]. by apply sorted_nodup.
  - intros k. split.
    + intros H. apply list_elem_of_fmap in H as ([k' ls] & -> & H). apply elem_of_map_to_list in H. apply Hd. by eexists.
    + intros H. apply list_elem_of_fmap in H as ([k' cs] & -> & H). destruct (Hf k' cs H) as (ls & E & _).
      apply list_elem_of_fmap. exists (k', ls). split; [done |]. by apply elem_of_map_to_list.
Qed.

Definition listing (f : partfiles) (files : list key) : Prop :=
  files ≡ₚ map fst (map_to_list f) /\ len files <= PDIRMAX - 3.

Lemma listing_dir f ps files : laid f ps -> listing f files -> syspdir files = keys_of 0 ps.
Proof using Type.
  intros Hl [Hp Hlen]. rewrite (laid_keys f ps Hl) in Hp. destruct (keys_sorted 0 ps (laid_ok f ps Hl)) as [Hs _].
  apply syspdir_spec; [done | by apply sorted_nodup | done |]. unfold len in *. by rewrite <- Hp.
Qed.

(** The first file of a part. *)
Lemma first_file f ps1 p ps2 : laid f (ps1 ++ p :: ps2) ->
  exists ls, f !! (len (content ps1), 0) = Some ls /\ file_lines (first_chunks p) ls.
Proof using Type.
  intros [_ Hf _]. apply Hf. rewrite files_app, Z.add_0_l. apply elem_of_app. right. cbn [files_of part_files app]. left.
Qed.

(** [updatepart] finds the part, deletes its later files and loads the first. *)
Lemma updatepart_finds w resp e files f t ps1 p ps2 :
  laid f (ps1 ++ p :: ps2) -> listing f files ->
  let a := len (content ps1) in a <= resp -> (resp < a + len (part_resps p) \/ ps2 = [] /\ later_files a p = []) -> slots_ok t ->
  exists f1 t1, updatepart B attach_def false w resp e files f t = update_loaded false resp e f1 t1 (a, 0) /\
    (forall k, f1 !! k = if decide (k ∈ map fst (later_files a p)) then None else f !! k) /\
    loaded w a 0 t1 (first_chunks p) /\ t_rused t1 = len (first_chunks p).
Proof using Type.
  intros Hlaid Hlist a Ha Hr Hok. pose proof (laid_ok _ _ Hlaid) as Hpok. pose proof Hpok as (Hok1 & (Hokp & Hok2)%Forall_cons)%Forall_app.
  unfold updatepart. rewrite (listing_dir f _ files Hlaid Hlist), (partnum_part ps1 p ps2 resp Hpok Ha Hr). fold a.
  rewrite keys_split. fold a. set (later := map fst (later_files a p)). set (rest := keys_of (a + len (part_resps p)) ps2).
  assert (Ez : zget (keys_of 0 ps1 ++ (a, 0) :: later ++ rest) (len (keys_of 0 ps1)) = Some (a, 0)).
  { unfold len. rewrite zget_nat. by rewrite list_lookup_middle. }
  rewrite Ez. cbn [mbind option_bind]. rewrite (proj2 (Z.ltb_ge 0 0)) by lia. rewrite andb_false_r. cbn [fst snd].
  replace (drop (Z.to_nat (len (keys_of 0 ps1) + 1)) (keys_of 0 ps1 ++ (a, 0) :: later ++ rest)) with (later ++ rest).
  2: { unfold len. replace (Z.to_nat (Z.of_nat (length (keys_of 0 ps1)) + 1)) with (length (keys_of 0 ps1 ++ [(a, 0)])) by (rewrite length_app; cbn [length]; lia).
       by rewrite (app_cons_assoc (keys_of 0 ps1) (a, 0) (later ++ rest)), drop_app_length. }
  destruct (later_keys a p Hokp) as [_ H2]. fold later in H2. destruct (keys_sorted (a + len (part_resps p)) ps2 Hok2) as [_ H3]. fold rest in H3.
  pose proof (part_nonempty p Hokp) as Hpos.
  assert (Hdel := delete_parts_spec later rest a f). set (f1 := delete_parts (later ++ rest) a f) in *.
  assert (Hf1 : forall k, f1 !! k = if decide (k ∈ later) then None else f !! k).
  { apply Hdel; [eapply Forall_impl; [exact H2 |]; by intros k [? _] |]. intros x Hx. apply head_Some_elem_of in Hx.
    rewrite Forall_forall in H3. specialize (H3 x Hx). lia. }
  destruct (first_file f ps1 p ps2 Hlaid) as (ls & Els & Hls). fold a in Els.
  rewrite (Hf1 (a, 0)), decide_False.
  2: { intros Hin. rewrite Forall_forall in H2. specialize (H2 _ Hin). cbn [fst snd] in H2. lia. }
  rewrite Els.
  destruct (loadtext_block B attach_def w a ls t (first_chunks p) Hls) as (t1 & -> & Hld & Hru).
  - destruct p as [cs | s0 segs]; cbn [part_ok first_chunks] in *.
    + destruct Hokp as (_ & H & _). eapply Forall_impl; [exact H |]. by intros c [? _].
    + destruct Hokp as (H & _). by repeat constructor.
  - destruct p; [apply Hokp | done].
  - destruct p as [cs | s0 segs]; cbn [part_ok first_chunks] in *; [apply Hokp | by vm_compute].
  - unfold SUGGEST_MAX in Hokp. destruct p as [cs | s0 segs]; cbn [part_ok first_chunks] in *; unfold seg_ok, SUGGEST_MAX in Hokp; change (TB_LINES / 2) with 250 in Hokp; unfold TB_LINES.
    + lia.
    + cbn [concat]. rewrite app_nil_r. lia.
  - done.
  - cbn [mbind option_bind]. by exists f1, t1.
Qed.

Lemma keys_first a qs : qs <> [] -> (a, 0) ∈ keys_of a qs.
Proof using Type. destruct qs as [| q qs]; [done |]. intros _. unfold keys_of. cbn [files_of part_files app map fst]. left. Qed.

(** A response that begins a part file of its own at the end of the item. *)
Lemma update_new_file w e f t ps : laid f ps -> slots_ok t -> entry_ok e ->
  let n := len (content ps) in
  exists f' t' ps', update_loaded false n e f (empty_buf w n 0 t) (n, 0) = Some (f', t') /\
    laid f' ps' /\ content ps' = content ps ++ [new_chunk e] /\ slots_ok t' /\ t_item t' = -1.
Proof using Type.
  intros Hl Hok He n.
  destruct (update_loaded_append n f (empty_buf w n 0 t) e []) as (es & f' & t' & qs & E & Hst & Hes & Hq & Hqok & Hok' & Hit); try done.
  - cbn [t_rlast empty_buf in_slot]. change (len (@nil chunk)) with 0. lia.
  - by apply empty_ok.
  - change (len (@nil chunk)) with 0 in E. rewrite Z.add_0_r in E. exists f', t', (ps ++ qs). split_and!; [exact E | | by rewrite content_app, Hq | done | done].
    rewrite <- (app_nil_r qs). apply (laid_replace f ps [] [] [] f es f' qs); [by rewrite !app_nil_r | done | | | done | done | | by left].
    + by intros k ?%elem_of_nil.
    + intros k. by rewrite decide_False by apply not_elem_of_nil.
    + by intros k ?%elem_of_nil.
Qed.

Lemma laid_absent f ps : laid f ps -> f !! (len (content ps), 0) = None.
Proof using Type.
  intros [Hok _ Hd]. destruct (f !! _) as [ls |] eqn:E; [| done]. exfalso. assert (Hin := Hd (len (content ps), 0) ltac:(by eexists)).
  destruct (keys_sorted 0 ps Hok) as [_ Hk]. rewrite Forall_forall in Hk. specialize (Hk _ Hin). cbn [fst snd] in Hk. lia.
Qed.

(** After a response that goes over several files, a new one gets its own. *)
Lemma updatepart_fresh w e files f t ps1 s0 segs : let ps := ps1 ++ [Long s0 segs] in
  laid f ps -> listing f files ->
  updatepart B attach_def false w (len (content ps)) e files f t =
    update_loaded false (len (content ps)) e f (empty_buf w (len (content ps)) 0 t) (len (content ps), 0).
Proof using Type.
  intros ps Hl Hlist. pose proof (laid_ok _ _ Hl) as Hok. unfold updatepart. rewrite (listing_dir f _ files Hl Hlist).
  destruct (keys_sorted 0 ps Hok) as [_ Hk]. rewrite Z.add_0_l in Hk. set (n := len (content ps)) in *.
  assert (Hlast : exists l kl, keys_of 0 ps = l ++ [kl] /\ 0 < kl.2).
  { unfold ps. rewrite keys_split. unfold keys_of at 2. cbn [files_of map]. rewrite app_nil_r.
    apply Forall_app in Hok as [_ Hok]. apply Forall_cons in Hok as [Hok _]. destruct (later_keys (len (content ps1)) _ Hok) as [_ H2].
    destruct Hok as (_ & _ & Hne & _). destruct (map fst (later_files (len (content ps1)) (Long s0 segs))) as [| x l _] eqn:El using rev_ind.
    - by destruct segs.
    - apply Forall_app in H2 as [_ H2]. apply Forall_cons in H2 as [[_ H2] _].
      exists (keys_of 0 ps1 ++ (len (content ps1), 0) :: l), x. split; [| done]. by rewrite <- app_assoc. }
  destruct Hlast as (l & kl & Ek & Hkl). rewrite Ek in *.
  assert (Hlt : forall x : key, x ∈ l ++ [kl] -> key_lt (n, 0) x = false).
  { intros x Hx. rewrite Forall_forall in Hk. specialize (Hk x Hx). destruct (key_lt (n, 0) x) eqn:E; [| done].
    apply klt_spec in E. cbn [fst snd] in E. lia. }
  assert (Epn : partnum (l ++ [kl]) n 0 = (l ++ [kl], len l)).
  { apply (partnum_at l kl [] (n, 0)); [| | done].
    - apply Forall_forall. intros x Hx. apply Hlt. apply elem_of_app. by left.
    - apply Hlt. apply elem_of_app. right. left. }
  rewrite Epn.
  assert (Ez : zget (l ++ [kl]) (len l) = Some kl) by (unfold len; rewrite zget_nat; by rewrite list_lookup_middle).
  rewrite Ez. cbn [mbind option_bind]. destruct kl as [kr kn]. cbn [snd] in Hkl. rewrite len_app. change (len [(kr, kn)]) with 1.
  replace (len l + 1 - 1) with (len l) by lia. rewrite Z.eqb_refl, (proj2 (Z.ltb_lt 0 kn)) by done. cbn [andb fst snd delete_parts].
  unfold n. rewrite (laid_absent f ps Hl). done.
Qed.

Definition fits_item (ps : list part) (resp : Z) (e : entry) : Prop :=
  (forall ps1 pre c post ps2, ps = ps1 ++ Block (pre ++ c :: post) :: ps2 -> resp = len (content ps1) + len pre -> ~ misfit pre c e) /\
  (resp = len (content ps) -> forall ps1 cs, ps = ps1 ++ [Block cs] -> len cs < TB_RESPS).

Lemma updatepart_add w e files f t ps : laid f ps -> listing f files -> slots_ok t -> entry_ok e -> fits_item ps (len (content ps)) e ->
  exists f' t' ps', updatepart B attach_def false w (len (content ps)) e files f t = Some (f', t') /\
    laid f' ps' /\ content ps' = content ps ++ [new_chunk e] /\ slots_ok t' /\ t_item t' = -1.
Proof using Type.
  intros Hl Hlist Hok He [_ Hroom]. destruct ps as [| p ps1 _] using rev_ind.
  - assert (Edir : syspdir files = []) by (by rewrite (listing_dir f [] files)).
    assert (Enone : f !! (0, 0) = None) by exact (laid_absent f [] Hl).
    unfold updatepart. rewrite Edir. cbn [partnum tail partnum_loop mbind option_bind zget]. change (zget [(len (content []), 0)] 0) with (Some (0, 0)).
    cbn [mbind option_bind]. change (0 <? 0) with false. rewrite andb_false_r. cbn [drop Z.to_nat delete_parts fst snd].
    change (delete_parts (drop (Z.to_nat (0 + 1)) [(len (content []), 0)]) 0 f) with f. rewrite Enone. cbn [mbind option_bind].
    by apply (update_new_file w e f t []).
  - destruct p as [cs | s0 segs].
    2: { rewrite (updatepart_fresh w e files f t ps1 s0 segs Hl Hlist). by apply update_new_file. }
    pose proof (laid_ok _ _ Hl) as (_ & (Hp & _)%Forall_cons)%Forall_app. pose proof Hp as (Hne & Hcs & Hsize & _).
    assert (En : len (content (ps1 ++ [Block cs])) = len (content ps1) + len cs).
    { rewrite content_app, len_app. unfold content. cbn [map part_resps concat]. by rewrite app_nil_r. }
    specialize (Hroom eq_refl ps1 cs eq_refl). rewrite En. set (a := len (content ps1)) in *.
    destruct (updatepart_finds w (a + len cs) e files f t ps1 (Block cs) [] Hl Hlist) as (f1 & t1 & -> & Hf1 & Hld & _);
      [fold a; len_pos; lia | by right | done |].
    pose proof (ld_origin _ _ _ _ _ Hld) as Eo. injection Eo as _ _ _ O4 _. fold a in Hld, O4. cbn [first_chunks] in Hld.
    destruct (update_loaded_append a f1 t1 e cs) as (es & f' & t' & qs & E & Hst & Hes & Hq & Hqok & Hok' & Hit);
      [done | apply Hld | apply Hld | apply Hld | apply Hld | done | done | done | done |].
    exists f', t', (ps1 ++ qs ++ []). split_and!; [exact E | | | done | done].
    + apply (laid_replace f ps1 [Block cs] [] [] f1 es f' qs); try done.
      * by intros k ?%elem_of_nil.
      * fold a. intros k Hk _. assert (k = (a, 0)) as ->.
        { unfold keys_of in Hk. cbn [files_of part_files later_files app map fst] in Hk. by apply list_elem_of_singleton in Hk. }
        apply keys_first. intros ->. by destruct cs.
      * by left.
    + rewrite app_nil_r, !content_app, Hq, app_assoc. f_equal. unfold content. cbn [map part_resps concat]. by rewrite app_nil_r.
Qed.

Lemma updatepart_change w resp e files f t ps : laid f ps -> listing f files -> slots_ok t -> entry_ok e ->
  0 <= resp < len (content ps) -> fits_item ps resp e ->
  exists f' t' ps', updatepart B attach_def false w resp e files f t = Some (f', t') /\
    laid f' ps' /\ content ps' = <[Z.to_nat resp := new_chunk e]> (content ps) /\ slots_ok t' /\ t_item t' = -1.
Proof using Type.
  intros Hl Hlist Hok He Hr [Hfit _]. destruct (locate ps resp Hr) as (ps1 & p & ps2 & pre & c & post & -> & Ep & Er).
  pose proof (laid_ok _ _ Hl) as (_ & (Hp & _)%Forall_cons)%Forall_app. set (a := len (content ps1)) in *.
  destruct (updatepart_finds w resp e files f t ps1 p ps2 Hl Hlist) as (f1 & t1 & -> & Hf1 & Hld & Hru);
    [fold a; len_pos; lia | left; fold a; rewrite Ep, len_app, len_cons; len_pos; lia | done |]. fold a in Hf1, Hld, Hru.
  assert (Hup : exists es f' t' qs, update_loaded false resp e f1 t1 (a, 0) = Some (f', t') /\ stored f1 es f' /\
    es ≡ₚ files_of a qs /\ content qs = pre ++ new_chunk e :: post /\ Forall part_ok qs /\ slots_ok t' /\ t_item t' = -1).
  { rewrite Er. destruct p as [cs | s0 segs]; cbn [part_resps first_chunks] in *.
    - subst cs. apply (update_loaded_change w a f1 t1 e pre c post); try done. by apply (Hfit ps1 pre c post ps2).
    - destruct Hp as (H1 & (H2 & H3 & H4) & _). destruct pre as [| x pre]; [| by destruct pre]. injection Ep as Ec Ept. subst post.
      change (len (@nil chunk)) with 0. apply (update_loaded_change w a f1 t1 e [] s0 []); try done; [| by intros [? _]].
      cbn [part_ok app concat]. rewrite app_nil_r. split_and!; [done | by repeat constructor | done | by vm_compute]. }
  destruct Hup as (es & f' & t' & qs & E & Hst & Hes & Hq & Hqok & Hok' & Hit).
  exists f', t', (ps1 ++ qs ++ ps2). split_and!; [exact E | | | done | done].
  - apply (laid_replace f ps1 [p] ps2 (map fst (later_files a p)) f1 es f' qs); try done.
    + fold a. intros k Hk. unfold keys_of. cbn [files_of part_files app map fst]. rewrite app_nil_r. by right.
    + fold a. intros k Hk HD. unfold keys_of in Hk. cbn [files_of part_files app map fst] in Hk. rewrite app_nil_r in Hk.
      apply elem_of_cons in Hk as [-> | Hk]; [| done]. apply keys_first. intros ->. by destruct pre.
    + right. rewrite Hq, content_cons, Ep. change (content []) with (@nil chunk). rewrite app_nil_r, !len_app, !len_cons. done.
  - rewrite !content_app, content_cons, Hq, Ep. rewrite <- !app_assoc. cbn [app]. rewrite !app_assoc. rewrite insert_middle; [done |].
    rewrite len_app. exact Er.
Qed.
End update.

(** ** Changing an item *)

(** What [updatepart] promises: response [resp] is the new one, and a number
    behind the last one adds a response. *)
Definition set_response (resp : Z) (c : chunk) (rs : list chunk) : list chunk :=
  if resp <? len rs then <[Z.to_nat resp := c]> rs else rs ++ [c].

Lemma updatepart_sets (B : list Z) (attach_def : list text) w resp e files f t ps :
  laid f ps -> listing f files -> slots_ok t -> entry_ok e -> 0 <= resp <= len (content ps) -> fits_item ps resp e ->
  exists f' t' ps', updatepart B attach_def false w resp e files f t = Some (f', t') /\ laid f' ps' /\
    content ps' = set_response resp (new_chunk e) (content ps) /\ slots_ok t' /\ t_item t' = -1.
Proof.
  intros Hl Hlist Hok He Hr Hfit. unfold set_response. destruct (Z.ltb_spec resp (len (content ps))) as [Hlt | Hge].
  - apply updatepart_change; try done. lia.
  - assert (resp = len (content ps)) as -> by lia. by apply updatepart_add.
Qed.

(** C2: [updatepart] refines the item as a list of its responses.  Of an item
    laid out in part files, which the system lists in any order, it changes
    response [resp] (or adds it at the end), however it splits part files,
    leaves every other response as it was, leaves files that are laid out as
    before, and marks the text buffer as empty; what the buffer held at first
    does not matter.  This is for responses without attachments, and for a
    response that fits behind the ones before it when it is counted once, and
    not twice, as free space. *)
Theorem updatepart_refines (B : list Z) (attach_def : list text) w resp e files f t ps :
  laid f ps -> listing f files -> slots_ok t -> entry_ok e -> 0 <= resp <= len (content ps) -> fits_item ps resp e ->
  exists f' t' ps', updatepart B attach_def false w resp e files f t = Some (f', t') /\ laid f' ps' /\
    content ps' = set_response resp (new_chunk e) (content ps) /\ slots_ok t' /\ t_item t' = -1.
Proof. apply updatepart_sets. Qed.

(** The blanks of a line, and a text buffer that has not been used. *)
Definition blanks0 : list Z := [32; 9].
Definition slot0 : slot := mkSlot 0 (-1) 0 0 0 [] None.
Definition buf0 : textbuf := mkBuf 0 (-1) 0 0 0 0 0 0 0 (fun _ => []) (fun _ => slot0).
Definition entry0 : entry := mkEntry (bytes "some text") (bytes "#1 6 9 a@b") None None 0 None.
Definition item0 : partfiles := {[ (0, 0) := [bytes "#0 5 9 a@b"; bytes " Title"; bytes " A first line"] ]}.
Definition parts0 : list part := [Block [[bytes "#0 5 9 a@b"; bytes "Title"; bytes "A first line"]]].

Lemma item0_laid : laid item0 parts0.
Proof.
  constructor.
  - constructor; [| constructor]. split_and!; [done | | by vm_compute | by vm_compute]. repeat constructor; one_line.
  - intros k cs [[= -> ->] | []%elem_of_nil]%elem_of_cons. eexists. split; [by apply lookup_singleton_eq |].
    eexists [_]. split; [| by rewrite concat_cons, app_nil_r]. constructor; [| constructor]. by exists [].
  - intros k [ls H]. unfold item0 in H. apply lookup_singleton_Some in H as [<- _]. left.
Qed.

Lemma entry0_ok : entry_ok entry0.
Proof. by constructor; [split; [done | one_line] | | |]. Qed.

Lemma item0_listing : listing item0 [(0, 0)].
Proof. by split; [| vm_compute]. Qed.
Lemma buf0_ok : slots_ok buf0.
Proof. intros i. by split; [one_line |]. Qed.

Lemma item0_fits : fits_item parts0 1 entry0.
Proof.
  split.
  - intros ps1 pre c post ps2 E Hr [Hpre _]. destruct ps1 as [| q ps1]; [| by destruct ps1]. injection E as E _.
    change (len (content [])) with 0 in Hr. apply (f_equal len) in E. change (len [_]) with 1 in E. revert E.
    rewrite len_app, len_cons. len_pos. lia.
  - intros _ ps1 cs E. destruct ps1 as [| q ps1]; [| by destruct ps1]. injection E as <-. by vm_compute.
Qed.

(** The second response of an item. *)
Lemma updatepart_refines_witness : exists f' t' ps',
  updatepart blanks0 [] false (mkWhere 0 0 7) 1 entry0 [(0, 0)] item0 buf0 = Some (f', t') /\ laid f' ps' /\
  content ps' = [ [bytes "#0 5 9 a@b"; bytes "Title"; bytes "A first line"]; [bytes "#1 6 9 a@b"; bytes "some text"] ] /\
  slots_ok t' /\ t_item t' = -1.
Proof.
  apply (updatepart_refines blanks0 [] (mkWhere 0 0 7) 1 entry0 [(0, 0)] item0 buf0 parts0).
  - apply item0_laid.
  - apply item0_listing.
  - apply buf0_ok.
  - apply entry0_ok.
  - by vm_compute.
  - apply item0_fits.
Defined.
