(* ===== verification/TextRead.v ===== *)
(** Reading the responses of an item line by line: [getline2] finds a line in the
    text buffer, or in the part file that [partnum] names; what is read after
    [updatepart]; and the cases in which the files do not keep their promise. *)
From Stdlib Require Import Sorted.
From stdpp Require Import gmap functions sorting list_numbers.
From S2P Require Import Prelude Memory Chix ChixCore ChixEdit ChixSearch ChixParse Vartab Str Numbers Html FileLines TextParts TextBuf TextUpdate TextLayout.

(** ** The part files of an item, as they are read *)

(** What a file of an item holds: responses, or a piece of one response. *)
Inductive at_file (ps : list part) : key -> list chunk -> Prop :=
  | at_block ps1 cs ps2 : ps = ps1 ++ Block cs :: ps2 -> at_file ps (len (content ps1), 0) cs
  | at_long ps1 s0 segs ps2 segs1 s segs2 : ps = ps1 ++ Long s0 segs :: ps2 -> s0 :: segs = segs1 ++ s :: segs2 ->
      at_file ps (len (content ps1), len (concat segs1)) [s].

Lemma rest_files_in a l segs1 s segs2 : ((a, l + len (concat segs1)), [indented s]) ∈ rest_files a l (segs1 ++ s :: segs2).
Proof.
  revert l. induction segs1 as [| x segs1 IH]; intros l; cbn [app rest_files concat].
  - change (len (@nil text)) with 0. rewrite Z.add_0_r. left.
  - right. rewrite len_app, Z.add_assoc. apply IH.
Qed.

Lemma rest_files_inv a l segs k cs : (k, cs) ∈ rest_files a l segs ->
  exists segs1 s segs2, segs = segs1 ++ s :: segs2 /\ k = (a, l + len (concat segs1)) /\ cs = [indented s].
Proof.
  revert l. induction segs as [| x segs IH]; intros l; cbn [rest_files]; [by intros ?%elem_of_nil |].
  intros [[= -> ->] | H]%elem_of_cons.
  - exists [], x, segs. split_and!; [done | | done]. change (len (concat [])) with 0. by rewrite Z.add_0_r.
  - destruct (IH (l + len x) H) as (segs1 & s & segs2 & -> & -> & ->). exists (x :: segs1), s, segs2.
    split_and!; [done | | done]. cbn [concat]. by rewrite len_app, Z.add_assoc.
Qed.

(** Each file is one of them, and is where the item is laid out. *)
Lemma file_of_key ps k : k ∈ keys_of 0 ps -> exists cs, at_file ps k cs.
Proof.
  intros Hk. unfold keys_of in Hk. apply list_elem_of_fmap in Hk as ([k' cs] & -> & H). cbn [fst].
  assert (Hg : exists ps1 p ps2, ps = ps1 ++ p :: ps2 /\ (k', cs) ∈ part_files (0 + len (content ps1)) p).
  { revert H. generalize 0. induction ps as [| p ps IH]; intros b; cbn [files_of]; [by intros ?%elem_of_nil |].
    intros [H | H]%elem_of_app.
    - exists [], p, ps. split; [done |]. change (len (content [])) with 0. by rewrite Z.add_0_r.
    - destruct (IH _ H) as (ps1 & q & ps2 & -> & Hq). exists (p :: ps1), q, ps2. split; [done |].
      change (content (p :: ps1)) with (part_resps p ++ content ps1). by rewrite len_app, Z.add_assoc. }
  destruct Hg as (ps1 & p & ps2 & -> & Hin). rewrite Z.add_0_l in Hin. unfold part_files in Hin. destruct p as [cs' | s0 segs]; cbn [first_chunks later_files] in Hin.
  - apply list_elem_of_singleton in Hin as [= -> ->]. exists cs'. by econstructor.
  - apply elem_of_cons in Hin as [[= -> ->] | Hin]; [| apply rest_files_inv in Hin as (segs1 & s & segs2 & -> & -> & ->)].
    + exists [s0]. by apply (at_long _ ps1 s0 segs ps2 [] s0 segs).
    + exists [s]. rewrite <- len_app. apply (at_long _ ps1 s0 (segs1 ++ s :: segs2) ps2 (s0 :: segs1) s segs2); done.
Qed.

Lemma file_key ps k cs : at_file ps k cs -> exists cs', (k, cs') ∈ files_of 0 ps.
Proof.
  intros [ps1 cs1 ps2 -> | ps1 s0 segs ps2 segs1 s segs2 -> E].
  - exists cs1. rewrite files_app, Z.add_0_l. apply elem_of_app. right. cbn. left.
  - destruct segs1 as [| x segs1]; injection E as -> ->.
    + exists [s]. rewrite files_app, Z.add_0_l. apply elem_of_app. right. cbn. left.
    + exists [indented s]. rewrite files_app, Z.add_0_l. apply elem_of_app. right. cbn [files_of part_files app concat later_files]. right.
      rewrite len_app. apply elem_of_app. left. apply rest_files_in.
Qed.

Lemma part_in ps1 p ps2 : Forall part_ok (ps1 ++ p :: ps2) -> part_ok p.
Proof. intros (_ & (H & _)%Forall_cons)%Forall_app. done. Qed.

Lemma block_sizes cs : part_ok (Block cs) -> len (concat cs) <= TB_LINES /\ len cs <= TB_RESPS.
Proof. intros (_ & _ & H1 & H2). unfold SUGGEST_MAX in H1. change (TB_LINES / 2) with 250 in H1. unfold TB_LINES. lia. Qed.

Lemma long_sizes s0 segs segs1 s segs2 : part_ok (Long s0 segs) -> s0 :: segs = segs1 ++ s :: segs2 -> seg_ok s.
Proof.
  intros (_ & H1 & _ & H2) E. assert (H : Forall seg_ok (s0 :: segs)) by by constructor. rewrite E in H.
  by apply Forall_app in H as [_ [H _]%Forall_cons].
Qed.

Section reading.
Context (B : list Z) (attach_def : list text).

Lemma load_first w a ls t cs : file_lines cs ls -> part_ok (Block cs) -> slots_ok t ->
  exists t', loadtext B attach_def w a 0 ls t = Some t' /\ loaded w a 0 t' cs.
Proof using Type.
  intros Hl Hp Ht. pose proof (block_sizes cs Hp) as [H1 H2]. destruct Hp as (Hne & Hcs & _).
  destruct (loadtext_block B attach_def w a ls t cs Hl) as (t' & E & L & _); [| done | done | done | done | by exists t'].
  eapply Forall_impl; [exact Hcs |]. by intros c [? _].
Qed.

(** A part file can be loaded, and the buffer then holds what the file holds. *)
Lemma at_file_load f ps k cs w t : laid f ps -> at_file ps k cs -> slots_ok t ->
  exists ls t', f !! k = Some ls /\ loadtext B attach_def w k.1 k.2 ls t = Some t' /\ loaded w k.1 k.2 t' cs.
Proof using Type.
  intros [Hok Hf _] Hk Ht.
  assert (Hget : forall k cs, (k, cs) ∈ files_of 0 ps -> exists ls, f !! k = Some ls /\ file_lines cs ls) by exact Hf. clear Hf.
  destruct Hk as [ps1 cs ps2 -> | ps1 s0 segs ps2 segs1 s segs2 -> E]; pose proof (part_in _ _ _ Hok) as Hp; cbn [fst snd].
  - destruct (Hget (len (content ps1), 0) cs) as (ls & El & Hl); [rewrite files_app, Z.add_0_l; apply elem_of_app; right; left |].
    destruct (load_first w (len (content ps1)) ls t cs Hl Hp Ht) as (t' & ? & ?). by exists ls, t'.
  - pose proof (long_sizes _ _ _ _ _ Hp E) as (Hne & _ & Hlen). unfold SUGGEST_MAX in Hlen. change (TB_LINES / 2) with 250 in Hlen.
    destruct segs1 as [| x segs1]; injection E as -> ->.
    + destruct (Hget (len (content ps1), 0) [s]) as (ls & El & Hl); [rewrite files_app, Z.add_0_l; apply elem_of_app; right; left |].
      destruct Hp as (Hh & _). change (len (concat [])) with 0. exists ls.
      destruct (loadtext_block B attach_def w (len (content ps1)) ls t [s] Hl) as (t' & E1 & L & _); [by constructor | done | done | | done | by exists t'].
      cbn [concat]. rewrite app_nil_r. unfold TB_LINES. lia.
    + destruct (Hget (len (content ps1), len (concat (x :: segs1))) [indented s]) as (ls & El & lss & Hl & ->).
      { rewrite files_app, Z.add_0_l. apply elem_of_app. right. cbn [files_of part_files app concat later_files]. right.
        rewrite len_app. apply elem_of_app. left. apply rest_files_in. }
      apply Forall2_cons_inv_l in Hl as (ls & ? & Hl & ->%Forall2_nil_inv_l & ->). cbn [concat] in El |- *. rewrite app_nil_r in El. exists ls.
      destruct s as [| y body]; [done |]. cbn [indented] in Hl.
      destruct (loadtext_rest B attach_def w (len (content ps1)) (len (x ++ concat segs1)) ls t y body Hl) as (t' & ? & ?); [unfold TB_LINES; lia | done |].
      by exists t'.
Qed.
End reading.

(** ** Where a line is *)

(** Line [l] of response [r], in a file that starts with [k]. *)
Definition in_file (k : key) (cs : list chunk) (r l : Z) : option text :=
  (cs !! Z.to_nat (r - k.1)) ≫= fun c : chunk => c !! Z.to_nat (if r =? k.1 then l - k.2 else l).
(** Line [l] of response [r] of an item. *)
Definition line_of_item (rs : list chunk) (r l : Z) : option text := (rs !! Z.to_nat r) ≫= fun c : chunk => c !! Z.to_nat l.

(** Behind the last line that the buffer holds. *)
Definition beyond (k : key) (cs : list chunk) (r l : Z) : Prop :=
  k.1 + len cs - 1 < r \/
  r = k.1 + len cs - 1 /\ (if decide (len cs = 1) then k.2 else 0) + len (default [] (last cs)) - 1 < l.

Lemma content_at ps1 p ps2 r : len (content ps1) <= r ->
  content (ps1 ++ p :: ps2) !! Z.to_nat r = (part_resps p ++ content ps2) !! Z.to_nat (r - len (content ps1)).
Proof.
  intros Hr. rewrite content_app. change (content (p :: ps2)) with (part_resps p ++ content ps2). unfold len in *.
  rewrite lookup_app_r by lia. f_equal. lia.
Qed.

Lemma last_at (cs : list chunk) : cs <> [] -> cs !! Z.to_nat (len cs - 1) = last cs.
Proof. intros H. rewrite last_lookup. f_equal. unfold len. lia. Qed.

Lemma long_line (s0 s : chunk) (segs segs1 segs2 : list chunk) l : s0 :: segs = segs1 ++ s :: segs2 -> len (concat segs1) <= l ->
  concat (s0 :: segs) !! Z.to_nat l = (s ++ concat segs2) !! Z.to_nat (l - len (concat segs1)).
Proof.
  intros -> Hl. rewrite concat_app. cbn [concat]. unfold len in *. rewrite lookup_app_r by lia. f_equal. lia.
Qed.

(** In the file, or in one behind it. *)
Lemma file_has_line ps k cs r l : Forall part_ok ps -> at_file ps k cs -> (k.1 < r \/ k.1 = r /\ k.2 <= l) -> ~ beyond k cs r l ->
  0 <= l -> line_of_item (content ps) r l = in_file k cs r l.
Proof.
  intros Hok [ps1 cs1 ps2 -> | ps1 s0 segs ps2 segs1 s segs2 -> E] Hk Hb Hl0; unfold beyond, line_of_item, in_file in *; cbn [fst snd part_resps] in *.
  - pose proof (part_in _ _ _ Hok) as (Hne & _). assert (0 < len cs1) by (destruct cs1; [done | rewrite len_cons; len_pos; lia]).
    rewrite content_at by lia. cbn [part_resps]. rewrite lookup_app_l by (unfold len in *; lia).
    destruct (r =? _); [by rewrite Z.sub_0_r | done].
  - change (len [s]) with 1 in Hb. assert (r = len (content ps1)) as -> by lia. rewrite content_at by lia. rewrite Z.sub_diag, Z.eqb_refl.
    cbn [part_resps app]. change ((concat (s0 :: segs) :: content ps2) !! Z.to_nat 0) with (Some (concat (s0 :: segs))). change ([s] !! Z.to_nat 0) with (Some s). cbn [mbind option_bind].
    destruct Hk as [? | [_ Hk]]; [lia |]. rewrite (long_line s0 s segs segs1 segs2 l E Hk). rewrite lookup_app_l; [done |].
    cbn [last default] in Hb. rewrite decide_True in Hb by done. unfold len in *. cbn [default] in Hb. unfold id in Hb. lia.
Qed.

(** Behind the last line of a part, if the next part does not come first. *)
Lemma part_lacks_line ps1 p ps2 r l : Forall part_ok (ps1 ++ p :: ps2) -> 0 <= l -> len (content ps1) + len (part_resps p) <= r ->
  (forall k', k' ∈ keys_of 0 (ps1 ++ p :: ps2) -> len (content ps1) + len (part_resps p) <= k'.1 -> klt (r, l) k') ->
  line_of_item (content (ps1 ++ p :: ps2)) r l = None.
Proof.
  intros Hok Hl Hr Hnext. pose proof (part_nonempty p (part_in _ _ _ Hok)) as Hp. pose proof (len_nonneg (content ps1)). unfold line_of_item.
  destruct ps2 as [| p2 ps2].
  - rewrite content_at by lia. rewrite lookup_ge_None_2; [done |]. rewrite app_nil_r. unfold len in *. lia.
  - exfalso. assert (Hk : klt (r, l) (len (content ps1) + len (part_resps p), 0)).
    { apply Hnext; [| cbn [fst]; lia]. rewrite keys_split. apply elem_of_app. right. right. apply elem_of_app. right. left. }
    apply klt_spec in Hk. cbn [fst snd] in Hk. lia.
Qed.

(** Behind the file, and not in the next one: the line does not exist. *)
Lemma file_lacks_line ps k cs r l : Forall part_ok ps -> at_file ps k cs -> (k.1 < r \/ k.1 = r /\ k.2 <= l) -> beyond k cs r l -> 0 <= l ->
  (forall k', k' ∈ keys_of 0 ps -> klt k k' -> klt (r, l) k') -> line_of_item (content ps) r l = None.
Proof.
  intros Hok [ps1 cs1 ps2 -> | ps1 s0 segs ps2 segs1 s segs2 -> E] Hk Hb Hl Hnext; unfold beyond in Hb; cbn [fst snd] in *;
    pose proof (part_in _ _ _ Hok) as Hp; pose proof (len_nonneg (content ps1)).
  - destruct (decide (len (content ps1) + len cs1 <= r)) as [Hr | Hr].
    + apply (part_lacks_line ps1 (Block cs1)); [done | done | done |]. intros k' Hk' H1. apply Hnext; [done |]. apply klt_spec. cbn [fst snd part_resps] in *.
      pose proof (part_nonempty _ Hp). cbn [part_resps] in *. lia.
    + destruct Hp as (Hne & _). destruct Hb as [? | [-> Hb]]; [lia |]. unfold line_of_item.
      assert (0 < len cs1) by (destruct cs1; [done | rewrite len_cons; len_pos; lia]). rewrite content_at by lia. cbn [part_resps].
      rewrite lookup_app_l by (unfold len in *; lia). replace (len (content ps1) + len cs1 - 1 - len (content ps1)) with (len cs1 - 1) by lia.
      rewrite last_at by done. destruct (last cs1) as [c |]; [| done]. cbn [mbind option_bind default] in *. unfold id in Hb.
      apply lookup_ge_None_2. destruct (decide _); unfold len in *; lia.
  - change (len [s]) with 1 in Hb. rewrite decide_True in Hb by done. cbn [last default] in Hb. unfold id in Hb.
    destruct (decide (len (content ps1) + 1 <= r)) as [Hr | Hr].
    + apply (part_lacks_line ps1 (Long s0 segs)); [done | done | done |]. intros k' Hk' H1. apply Hnext; [done |]. apply klt_spec. cbn [fst snd part_resps] in *.
      change (len [concat (s0 :: segs)]) with 1 in H1. lia.
    + destruct Hk as [? | [<- Hk]]; [lia |]. destruct Hb as [? | [_ Hb]]; [lia |]. destruct segs2 as [| s2 segs2].
      * unfold line_of_item. rewrite content_at by lia. rewrite Z.sub_diag. cbn [part_resps app].
        change ((concat (s0 :: segs) :: content ps2) !! Z.to_nat 0) with (Some (concat (s0 :: segs))). cbn [mbind option_bind].
        rewrite (long_line s0 s segs segs1 [] l E Hk). cbn [concat]. rewrite app_nil_r. apply lookup_ge_None_2. unfold len in *. lia.
      * exfalso. assert (Hin : (len (content ps1), len (concat segs1) + len s) ∈ keys_of 0 (ps1 ++ Long s0 segs :: ps2)).
        { replace (len (concat segs1) + len s) with (len (concat (segs1 ++ [s]))) by (rewrite concat_app, len_app; cbn [concat]; by rewrite app_nil_r).
          destruct (file_key (ps1 ++ Long s0 segs :: ps2) (len (content ps1), len (concat (segs1 ++ [s]))) [s2]) as [cs' H'].
          { apply (at_long _ ps1 s0 segs ps2 (segs1 ++ [s]) s2 segs2); [done |]. by rewrite <- app_assoc. }
          apply list_elem_of_fmap. by eexists (_, cs'). }
        pose proof (long_sizes _ _ _ _ _ Hp E) as (Hne & _). assert (0 < len s) by (destruct s; [done | rewrite len_cons; len_pos; lia]).
        apply Hnext in Hin; [| apply klt_spec; cbn [fst snd]; lia]. apply klt_spec in Hin. cbn [fst snd] in Hin. lia.
Qed.

(** The file that [partnum] names. *)
Lemma split_keys (q x : key) l : StronglySorted klt (x :: l) -> key_lt q x = false ->
  exists l1 k l2, x :: l = l1 ++ k :: l2 /\ Forall (fun y => key_lt q y = false) l1 /\ key_lt q k = false /\
    (forall y, head l2 = Some y -> key_lt q y = true) /\ Forall (klt q) l2.
Proof.
  revert x. induction l as [| y l IH]; intros x Hs Hx.
  - by exists [], x, [].
  - apply StronglySorted_inv in Hs as [Hs Hxs]. destruct (key_lt q y) eqn:Ey.
    + exists [], x, (y :: l). split_and!; [done | done | done | by intros z [= <-] |]. constructor; [done |].
      apply StronglySorted_inv in Hs as [_ Hy]. eapply Forall_impl; [exact Hy |]. cbn beta. intros z Hz. by transitivity y.
    + destruct (IH y Hs Ey) as (l1 & k & l2 & E & H1 & H2 & H3 & H4). exists (x :: l1), k, l2. rewrite E.
      split_and!; [done | by constructor | done | done | done].
Qed.

Lemma partnum_key keys (q x : key) : StronglySorted klt keys -> head keys = Some x -> key_lt q x = false ->
  exists k p, partnum keys q.1 q.2 = (keys, p) /\ zget keys p = Some k /\ k ∈ keys /\ key_lt q k = false /\
    (forall k', k' ∈ keys -> klt k k' -> klt q k').
Proof.
  intros Hs Hh Hx. destruct keys as [| x' l]; [done |]. injection Hh as ->.
  destruct (split_keys q x l Hs Hx) as (l1 & k & l2 & E & H1 & H2 & H3 & H4). rewrite E in *.
  exists k, (len l1). rewrite (partnum_at l1 k l2 q H1 H2 H3). split_and!; [done | | apply elem_of_app; right; left | done |].
  - unfold len. rewrite zget_nat. by rewrite list_lookup_middle.
  - intros k' [Hin | [-> | Hin]%elem_of_cons]%elem_of_app Hk'.
    + exfalso. apply StronglySorted_app in Hs as (Hs & _ & _). specialize (Hs k' k Hin ltac:(left)). apply klt_spec in Hs, Hk'. lia.
    + apply klt_spec in Hk'. lia.
    + rewrite Forall_forall in H4. by apply H4.
Qed.

(** ** A line of the buffer *)

Lemma holds_all_at t i p cs j c : holds_all t i p cs -> cs !! j = Some c -> exists p', holds t (i + Z.of_nat j) p' c.
Proof.
  revert i p j. induction cs as [| x cs IH]; intros i p j; [done |]. intros [H1 H2]. destruct j as [| j]; cbn [lookup list_lookup].
  - intros [= ->]. rewrite Z.add_0_r. by exists p.
  - intros Hj. replace (i + Z.of_nat (S j)) with (i + 1 + Z.of_nat j) by lia. by eapply IH.
Qed.

Lemma pluck_loaded w k t cs r l : loaded w k.1 k.2 t cs -> (k.1 < r \/ k.1 = r /\ k.2 <= l) -> 0 <= l ->
  pluck t r l = in_file k cs r l.
Proof.
  intros [Lo _ Lr _ Lh _] Hk Hl. injection Lo as _ _ _ O4 O5. unfold pluck, in_file. rewrite O4, O5, Lr. rewrite (proj2 (Z.ltb_ge (r - k.1) 0)) by lia. cbn [orb].
  destruct (Z.ltb_spec (k.1 + len cs - 1) r) as [Hlt | Hge].
  - rewrite lookup_ge_None_2; [done |]. unfold len in *. lia.
  - destruct (lookup_lt_is_Some_2 cs (Z.to_nat (r - k.1))) as [c Hc]; [unfold len in *; lia |]. rewrite Hc. cbn [mbind option_bind].
    destruct (holds_all_at _ _ _ _ _ _ Lh Hc) as (p & [H1 H2 H3]). replace (0 + Z.of_nat (Z.to_nat (r - k.1))) with (r - k.1) in H1, H2 by lia.
    rewrite H1, H2. set (m := if r =? k.1 then l - k.2 else l).
    assert (Hm : 0 <= m) by (unfold m; destruct (Z.eqb_spec r k.1); lia).
    destruct (Z.ltb_spec (p + len c - 1) (p + m)) as [Hl1 | Hl1].
    + rewrite lookup_ge_None_2; [done |]. unfold len in *. lia.
    + destruct (lookup_lt_is_Some_2 c (Z.to_nat m)) as [x Hx]; [unfold len in *; lia |]. rewrite Hx. rewrite <- (H3 _ _ Hx). do 2 f_equal. lia.
Qed.

(** ** Reading a line *)

Definition right_item (w : where_t) (t : textbuf) : Prop := w_item w = t_item t /\ t_type t = w_uf w /\ w_cnum w = t_cnum t.

(** If the buffer is marked with the item, it holds one of its files; if the
    directory is marked with the unit, then it is that of the item. *)
Record coherent (w : where_t) (ps : list part) (st : text_state) (t : textbuf) : Prop := {
  co_slots : slots_ok t;
  co_buf : right_item w t -> exists k cs, at_file ps k cs /\ loaded w k.1 k.2 t cs;
  co_dir : right_item w t -> ts_ptype st = w_uf w -> ts_pdir st = keys_of 0 ps;
}.

Lemma loaded_coherent w ps st t k cs : at_file ps k cs -> loaded w k.1 k.2 t cs -> ts_pdir st = keys_of 0 ps -> coherent w ps st t.
Proof. intros Hk Hl Hd. constructor; [apply Hl | by exists k, cs | done]. Qed.

Lemma right_decide w t : bool_decide (right_item w t) = (w_item w =? t_item t) && (t_type t =? w_uf w) && (w_cnum w =? t_cnum t).
Proof.
  unfold right_item. destruct (Z.eqb_spec (w_item w) (t_item t)), (Z.eqb_spec (t_type t) (w_uf w)), (Z.eqb_spec (w_cnum w) (t_cnum t));
    cbn [andb]; first [apply bool_decide_eq_true_2; tauto | apply bool_decide_eq_false_2; tauto].
Qed.

(** The directory names a file for each line. *)
Lemma item_key ps r l : Forall part_ok ps -> ps <> [] -> 0 <= r -> 0 <= l ->
  exists k cs p, partnum (keys_of 0 ps) r l = (keys_of 0 ps, p) /\ zget (keys_of 0 ps) p = Some k /\ at_file ps k cs /\
    (k.1 < r \/ k.1 = r /\ k.2 <= l) /\ (forall k', k' ∈ keys_of 0 ps -> klt k k' -> klt (r, l) k').
Proof.
  intros Hok Hne Hr Hl. destruct (keys_sorted 0 ps Hok) as [Hs _].
  assert (Hh : head (keys_of 0 ps) = Some (0, 0)) by (by destruct ps).
  assert (H0 : key_lt (r, l) (0, 0) = false).
  { destruct (key_lt (r, l) (0, 0)) eqn:E; [| done]. apply klt_spec in E. cbn [fst snd] in E. lia. }
  destruct (partnum_key _ (r, l) (0, 0) Hs Hh H0) as (k & p & E1 & E2 & Hin & Hk & Hn). destruct (file_of_key ps k Hin) as [cs Hcs].
  exists k, cs, p. split_and!; [done | done | done | | done]. assert (Hnk : ~ klt (r, l) k) by (unfold klt; congruence).
  rewrite klt_spec in Hnk. cbn [fst snd] in Hnk. lia.
Qed.

Section getline.
Context (B : list Z) (attach_def : list text).

(** What is read once the directory has been read. *)
Lemma file_line ps k cs r l : Forall part_ok ps -> at_file ps k cs -> (k.1 < r \/ k.1 = r /\ k.2 <= l) -> 0 <= l ->
  (forall k', k' ∈ keys_of 0 ps -> klt k k' -> klt (r, l) k') -> in_file k cs r l = line_of_item (content ps) r l.
Proof using Type.
  intros Hok Hk Hq Hl Hn. destruct (decide (k.1 + len cs - 1 < r)) as [Hb | Hb].
  { rewrite (file_lacks_line ps k cs r l); try done; [| by left]. unfold in_file. rewrite lookup_ge_None_2; [done |]. unfold len in *. lia. }
  destruct (decide (r = k.1 + len cs - 1 /\ (if decide (len cs = 1) then k.2 else 0) + len (default [] (last cs)) - 1 < l)) as [Hb2 | Hb2].
  - rewrite (file_lacks_line ps k cs r l); try done; [| by right]. unfold in_file. destruct Hb2 as [Er Hb2].
    assert (0 <= r - k.1) by lia. rewrite Er. replace (k.1 + len cs - 1 - k.1) with (len cs - 1) by lia. rewrite last_at by (intros ->; change (len []) with 0 in *; lia).
    destruct (last cs) as [c |]; [| done]. cbn [mbind option_bind default] in *. unfold id in Hb2. apply lookup_ge_None_2.
    destruct (Z.eqb_spec (k.1 + len cs - 1) k.1); destruct (decide (len cs = 1)); unfold len in *; lia.
  - symmetry. apply file_has_line; try done. unfold beyond. tauto.
Qed.

Lemma getline2_spec w ps st t files r l : laid (ts_files st w) ps -> listing (ts_files st w) files -> coherent w ps st t -> 0 <= r -> 0 <= l ->
  exists st' t', getline2 B attach_def w r l files st t = Some (line_of_item (content ps) r l, st', t') /\
    ts_files st' = ts_files st /\ coherent w ps st' t'.
Proof using Type.
  intros Hl Hlist Hco Hr Hl0. pose proof (laid_ok _ _ Hl) as Hok. unfold getline2.
  pose proof (listing_dir _ ps files Hl Hlist) as Edir. rewrite <- right_decide.
  set (after := (t_rfirst t <? r) || (r =? t_rfirst t) && (t_firstline t <=? l)).
  set (bey := (t_rlast t <? r) || (r =? t_rlast t) && (t_lastline t <? l)). cbv zeta.
  assert (Hload : exists st' t', getline_load B attach_def w r l files st t = Some (line_of_item (content ps) r l, st', t') /\
    ts_files st' = ts_files st /\ coherent w ps st' t').
  { unfold getline_load. rewrite Edir. cbn [ts_pdir ts_files]. destruct (decide (ps = [])) as [-> | Hne].
    - exists (mkText (ts_files st) (w_uf w) []), t. split_and!; [done | done |]. destruct Hco as [H1 H2 H3]. by constructor.
    - destruct (item_key ps r l Hok Hne Hr Hl0) as (k & cs & p & Ep & Ez & Hk & Hq & Hn).
      destruct (keys_of 0 ps) as [| k0 ks] eqn:Ek; [by destruct ps |]. rewrite <- Ek in *. rewrite Ep. cbn [snd]. rewrite Ez. cbn [mbind option_bind].
      destruct (at_file_load B attach_def _ ps k cs w t Hl Hk (co_slots _ _ _ _ Hco)) as (ls & t' & -> & -> & Hld). cbn [mbind option_bind].
      exists (mkText (ts_files st) (w_uf w) (keys_of 0 ps)), t'. split_and!; [| done | by eapply loaded_coherent].
      by rewrite (pluck_loaded w k t' cs r l Hld Hq Hl0), (file_line ps k cs r l Hok Hk Hq Hl0 Hn). }
  destruct (bool_decide (right_item w t)) eqn:Eri; cbn [negb orb andb]; [| exact Hload]. apply bool_decide_eq_true in Eri.
  destruct (co_buf _ _ _ _ Hco Eri) as (k & cs & Hk & Hld). pose proof Hld as [Lo _ Lr Ll _ _]. injection Lo as _ _ _ O4 O5.
  destruct after eqn:Ea; cbn [negb orb andb]; [| exact Hload].
  assert (Hq : k.1 < r \/ k.1 = r /\ k.2 <= l).
  { unfold after in Ea. rewrite O4, O5 in Ea. apply orb_true_iff in Ea as [Ea | [Ea1 Ea2]%andb_true_iff]; lia. }
  destruct bey eqn:Eb; cbn [negb orb andb].
  - assert (Hb : beyond k cs r l).
    { unfold bey in Eb. rewrite Lr, Ll in Eb. unfold beyond. apply orb_true_iff in Eb as [Eb | [Eb1 Eb2]%andb_true_iff]; lia. }
    destruct (Z.eqb_spec (ts_ptype st) (w_uf w)) as [Et | Et]; [| exact Hload].
    rewrite (co_dir _ _ _ _ Hco Eri Et). assert (Hne : ps <> []) by (intros ->; by destruct (file_key [] k cs Hk) as [? ?%elem_of_nil]).
    destruct (item_key ps r l Hok Hne Hr Hl0) as (k2 & cs2 & p & Ep & Ez & Hk2 & Hq2 & Hn). rewrite Ep, Ez. cbn [mbind option_bind].
    destruct (bool_decide_reflect (k2 = (t_rfirst t, t_firstline t))) as [E | E]; [| exact Hload].
    rewrite O4, O5 in E. assert (k2 = k) as -> by (rewrite E; by destruct k).
    exists (mkText (ts_files st) (ts_ptype st) (keys_of 0 ps)), t. split_and!; [| done | apply (loaded_coherent w ps _ t k cs); [done | exact Hld | done]].
    by rewrite (file_lacks_line ps k cs r l).
  - assert (Hnb : ~ beyond k cs r l).
    { unfold bey in Eb. rewrite Lr, Ll in Eb. unfold beyond. apply orb_false_iff in Eb as [Eb1 Eb2]. apply andb_false_iff in Eb2. lia. }
    exists st, t. split_and!; [| done | done]. rewrite (file_has_line ps k cs r l), <- (pluck_loaded w k t cs r l) by done. done.
Qed.
End getline.

(** A number of lines that are read one after the other. *)
Fixpoint getlines (B : list Z) (attach_def : list text) (w : where_t) (lines : list (Z * Z)) (files : list key) (st : text_state) (t : textbuf)
    : option (list (option text) * text_state * textbuf) :=
  match lines with
  | [] => Some ([], st, t)
  | (response, linenum) :: lines =>
      '(x, st, t) ← getline2 B attach_def w response linenum files st t;
      '(xs, st, t) ← getlines B attach_def w lines files st t;
      Some (x :: xs, st, t)
  end.

Lemma getlines_spec B attach_def w ps lines files : forall st t, laid (ts_files st w) ps -> listing (ts_files st w) files -> coherent w ps st t ->
  Forall (fun q => 0 <= q.1 /\ 0 <= q.2) lines ->
  exists st' t', getlines B attach_def w lines files st t = Some (map (fun q => line_of_item (content ps) q.1 q.2) lines, st', t').
Proof.
  induction lines as [| [r l] lines IH]; intros st t Hl Hlist Hco Hq; cbn [getlines map]; [by exists st, t |].
  apply Forall_cons in Hq as [[Hr Hl0] Hq]. destruct (getline2_spec B attach_def w ps st t files r l) as (st1 & t1 & -> & Ef & Hc1); try done.
  cbn [mbind option_bind]. destruct (IH st1 t1) as (st2 & t2 & ->); [by rewrite Ef | by rewrite Ef | done | done |]. by exists st2, t2.
Qed.

(** C3: After [updatepart] has changed or added a response, lines that are
    read with [getline2], in any order and any number, are those of the new
    version of that response and of the other responses as they were, and lines
    that do not exist are reported missing; whatever directory was read before,
    and however the buffer is reloaded from the part files in between.  The
    limits are those of [updatepart_refines]: responses without attachments,
    and a response that fits behind the ones before it when it is counted once,
    and not twice, as free space. *)
Theorem update_then_read B attach_def w resp e files f t ps :
  laid f ps -> listing f files -> slots_ok t -> entry_ok e -> 0 <= resp <= len (content ps) -> fits_item ps resp e -> 0 <= w_item w ->
  exists f' t', updatepart B attach_def false w resp e files f t = Some (f', t') /\
    forall st files' lines, ts_files st w = f' -> listing f' files' -> Forall (fun q => 0 <= q.1 /\ 0 <= q.2) lines ->
    exists st' t'', getlines B attach_def w lines files' st t' =
      Some (map (fun q => line_of_item (set_response resp (new_chunk e) (content ps)) q.1 q.2) lines, st', t'').
Proof.
  intros Hl Hlist Hok He Hr Hfit Hw.
  destruct (updatepart_sets B attach_def w resp e files f t ps) as (f' & t' & ps' & E & Hl' & <- & Hok' & Hit); try done. exists f', t'. split; [exact E |]. intros st files' lines <- Hlist' Hq.
  apply getlines_spec; [done | done | | done]. assert (Hn : ~ right_item w t') by (intros (H & _); lia). by constructor.
Qed.

Lemma update_then_read_witness : exists f' t',
  updatepart blanks0 [] false (mkWhere 0 0 7) 1 entry0 [(0, 0)] item0 buf0 = Some (f', t') /\
  forall st files' lines, ts_files st (mkWhere 0 0 7) = f' -> listing f' files' -> Forall (fun q => 0 <= q.1 /\ 0 <= q.2) lines ->
  exists st' t'', getlines blanks0 [] (mkWhere 0 0 7) lines files' st t' =
    Some (map (fun q => line_of_item [ [bytes "#0 5 9 a@b"; bytes "Title"; bytes "A first line"]; [bytes "#1 6 9 a@b"; bytes "some text"] ] q.1 q.2) lines, st', t'').
Proof.
  apply (update_then_read blanks0 [] (mkWhere 0 0 7) 1 entry0 [(0, 0)] item0 buf0 parts0).
  - apply item0_laid.
  - apply item0_listing.
  - apply buf0_ok.
  - apply entry0_ok.
  - by vm_compute.
  - apply item0_fits.
  - done.
Defined.

(** ** Where the code does not keep its promise *)

(** [syspdir] stops before the number of files at which [updatepart] would
    freeze the item. *)
Lemma syspdir_short files : len (syspdir files) < PDIRMAX.
Proof.
  unfold syspdir. assert (H : forall acc, len acc < PDIRMAX - 3 -> len (pdir_read files acc) < PDIRMAX).
  { assert (Hi : forall k l, len (pdir_insert k l) <= len l + 1).
    { intros k l. induction l as [| x l IH]; cbn [pdir_insert]; [by vm_compute |].
      destruct (key_lt k x); [rewrite !len_cons; lia |]. destruct (bool_decide _); rewrite ?len_cons; lia. }
    induction files as [| k files IH]; intros acc Ha; cbn [pdir_read]; [lia |]. specialize (Hi k acc).
    destruct (Z.leb_spec (PDIRMAX - 3) (len (pdir_insert k acc))); [lia | by apply IH]. }
  unfold len in *. rewrite length_rev. by apply H.
Qed.

Definition where0 : where_t := mkWhere 0 0 7.
Definition entry_of (header : string) (txt : text) : entry := mkEntry txt (bytes header) None None 0 None.

(** A new response takes over the note of another item's response that was in
    its slot. *)
Definition buf_copied : textbuf := in_slot 1 (set_copied (bytes "from 3:12.4")) buf0.
Example stale_note : (fst <$> updatepart blanks0 [] false where0 1 entry0 [(0, 0)] item0 buf_copied) =
  Some ({[ (0, 0) := map bytes ["#0 5 9 a@b"; " Title"; " A first line";
                                "#1 6 9 a@b"; "+3 1 9"; "+5 from 3:12.4"; " some text"] ]} : partfiles).
Proof. by vm_compute. Qed.

Definition change (resp : Z) (e : entry) (st : option (partfiles * textbuf)) : option (partfiles * textbuf) :=
  '(f, t) ← st; updatepart blanks0 [] false where0 resp e (map fst (map_to_list f)) f t.
Definition read (resp l : Z) (st : option (partfiles * textbuf)) : option (option text) :=
  '(f, t) ← st;
  '(x, _, _) ← getline2 blanks0 [] where0 resp l (map fst (map_to_list f)) (mkText (fun _ => f) (-1) []) t;
  Some x.
(** A text of [n] lines. *)
Definition long_text (n : nat) : text := concat (repeat (bytes "line" ++ [10]) n).

(** A response that begins a part file of its own, behind another one: its
    numbers of lines and bytes are not in the file. *)
Example lost_size :
  (change 1 (entry_of "#1 6 9 a@b" (long_text 239)) (Some (item0, buf0)) ≫= fun u => take 2 <$> u.1 !! (1, 0)) =
  Some (map bytes ["#1 6 9 a@b"; " line"]).
Proof. by vm_compute. Qed.

(** The free space is counted twice when the last response changes: the new
    version is put behind the others and goes over into a second file, which
    the next change does not delete.  Line 244 is then read although the
    response has only two. *)
Definition grown : option (partfiles * textbuf) :=
  change 1 (entry_of "#1 6 9 a@b" (long_text 400)) (change 1 (entry_of "#1 6 9 a@b" (long_text 200)) (Some (item0, buf0))).

Example stale_tail :
  read 1 400 grown = Some (Some (bytes "line")) /\
  read 1 1 (change 1 entry0 grown) = Some (Some (bytes "some text")) /\
  read 1 2 (change 1 entry0 grown) = Some None /\
  read 1 244 (change 1 entry0 grown) = Some (Some (bytes "line")).
Proof. by vm_compute. Qed.

(** The directory that was read last belongs to another item of the unit, whose
    only file has the number of the one in the buffer: a line of the next file
    is reported missing. *)
Definition item_two : partfiles :=
  {[ (0, 0) := map bytes ["#0 5 9 a@b"; " Title"]; (1, 0) := map bytes ["#1 6 9 a@b"; " Line"] ]}.
Definition read_two (pdir : list key) : option (option text * option text) :=
  '(x, st, t) ← getline2 blanks0 [] where0 0 1 [(0, 0); (1, 0)] (mkText (fun _ => item_two) 0 []) buf0;
  '(y, _, _) ← getline2 blanks0 [] where0 1 1 [(0, 0); (1, 0)] (mkText (ts_files st) 0 pdir) t;
  Some (x, y).
Example wrong_directory :
  read_two [(0, 0); (1, 0)] = Some (Some (bytes "Title"), Some (bytes "Line")) /\
  read_two [(0, 0)] = Some (Some (bytes "Title"), None).
Proof. by vm_compute. Qed.
